(* ===== verification/_CoqProject ===== *)
-Q . S2P
Prelude.v
Text.v
Codecs.v
Errors.v
Maps.v
Quota.v
AuditLog.v
Vault.v
VaultProofs.v
Files.v
Crc.v
DiskFile.v
DiskImage.v
Qcow2.v
VmdkDisk.v
VhdxDisk.v
Images.v
HyperErr.v
Ept.v
EptProofs.v
Vm.v
Vmx.v
Manager.v
ManagerProofs.v
KernelRun.v
Wire.v
WireProofs.v
WireEncode.v
WireRead.v
ImageLoader.v
Bridge.v
BridgeProofs.v
Smp.v
Bringup.v
BringupProofs.v
FileVault.v
FileVaultProofs.v
Network.v
NetworkProofs.v
Lww.v
Federation.v
Membership.v
Proto.v
Capabilities.v
Host.v
HostProofs.v
HostLaws.v
Hyper.v
HyperProofs.v
HyperSerial.v
HyperKernel.v
Mesh.v
MeshProofs.v
Supervisor.v
RemoteCall.v
K8s.v
Observe.v
Controller.v
ControllerProofs.v
Caps.v
Tenant.v
TenantStore.v
TenantInv.v
TenantQuota.v
TenantAdmin.v
TenantProps.v
TenantTrait.v
FileTenants.v
Runtime.v
RuntimeProofs.v
Exec.v
Console.v
TenantCli.v
TenantCliProofs.v
Celctl.v
CelctlProofs.v
Cluster.v
ClusterProofs.v
