(* ===== verification/Prelude.v ===== *)
(** * Celium: verified core

    Celium is a small bare-metal hypervisor (celhyper) with a control plane
    around it: a mesh of controller nodes (celmesh), volumes and networks
    (celvault), disk images (celimage), tenants with quotas (celtenancy) and a
    command line (celcli).  This library models these crates as pure functions
    and proves what makes them correct.  Paths below are relative to
    src/crates; "Foo.v" is a file of this directory.

    ** How the program fits together

    A node of the mesh holds a table of nodes (membership), a table of all VMs
    of the cluster (federation) and a host ([VmHost]) that runs operations
    ([VmOp]).  Nodes exchange envelopes over a transport: greetings and tables
    that each side merges, requests that the receiver runs on its own host, and
    replies.  The host of a node is the in-memory host, the same host behind
    the billing adapter of a tenant, or a host that sends the VM life cycle as
    JSON lines over a serial line to the kernel.  The kernel's bridge decodes
    the lines and calls the VM manager, which builds page tables and a VMCS per
    guest and runs them one at a time.  The command line keeps a table of VMs
    of its own, stages the first page of their disk images and may ship the
    page to the kernel.

    ** Conventions

    An unsigned integer is an [N] with its width where overflow matters:
    [checked_add w], [saturating_add w], [wrapping_add w], [fits w].  A [str] is a
    [string] of UTF-8 bytes, other bytes are lists of [Byte.byte].  [Result] is
    the sum [result E A] with [Ok] and [Err].  Code that mutates [self] is a
    computation [st S E A]: state to result and state, the state being kept on
    the error path, as after an early return in the code.  [BTreeMap] and
    [HashMap] are [gmap]; iteration in key order is [btree_iter] (Maps.v) and the
    unspecified order of a [HashMap] is a parameter.  A panic, an index out of
    bounds or exhausted fuel is a value of its own (Panicked, Stuck), never a
    silent default.

    ** Files

    Shared: Prelude.v (this file: results, the state monad, machine integers,
    bytes, their tactics and lemmas), Text.v (operations on strings, decimal
    and UTF-8 decoding), Codecs.v (concrete codecs for the witnesses), Maps.v
    (ordered iteration), Files.v (std::fs with an outcome for every operation),
    Errors.v (celcommon/src/error.rs).

    celhyper, the kernel.
    - HyperErr.v: error.rs, cap.rs.  Crc.v: crc.rs.
    - Ept.v, EptProofs.v: mm.rs, the page-table walker over the interface
      [FrameProvider]; [ept_refines_map]: the tables are a finite map.
    - Vm.v: vm.rs.  Vmx.v: the directory vmx with arch/x86.rs, over the
      instructions of the class [Cpu].
    - Manager.v, ManagerProofs.v, KernelRun.v: manager.rs, sched.rs and the
      dispatcher of vmx/exit.rs.  [guests_isolated] and
      [vms_follow_lifecycle] hold after any sequence of entry points.
      KernelRun.Sim is a concrete processor that satisfies [CpuLaws], so that
      the witnesses run the kernel.
    - Wire.v, WireProofs.v, WireEncode.v, WireRead.v: wire.rs.
      [decode_terminates], [decode_in_limits], [decode_reads_object],
      [reply_is_one_line].
    - ImageLoader.v: image_loader.rs, guest.rs.
    - Bridge.v, BridgeProofs.v: bridge.rs and [read_line] of serial_io.rs.
      [bridge_answers_every_frame]; the bridge is a client of the manager.
    - Smp.v: handoff.rs, lapic.rs, smp.rs over the class [Apic].
    - Bringup.v, BringupProofs.v: bringup.rs.  [bring_up_clean].

    celimage.  DiskFile.v (the file, with short and failing reads), DiskImage.v
    (disk.rs, format.rs, raw.rs and the checksum of lib.rs; the trait is a class
    with its promise [DiskLaws]), Qcow2.v, VmdkDisk.v, VhdxDisk.v, Images.v
    (lib.rs).  [opened_image_is_disk], [open_ends_well].

    celvault.  Vault.v, VaultProofs.v (lib.rs: the trait [VolumeStore], its
    abstract specification [vault_spec] and the in-memory store), FileVault.v,
    FileVaultProofs.v (file_store.rs), Network.v, NetworkProofs.v (network.rs).
    [mem_store_refines_contract] and [file_vault_refines_contract] show that both
    stores keep one contract, [file_vault_durable] what survives failures,
    [nic_addresses_unique] what the address allocator guarantees.

    celmesh.
    - Lww.v, Federation.v, Membership.v: federation.rs, membership.rs; tables
      merged by last-writer-wins converge ([federation_converges],
      [membership_converges]).
    - Proto.v, Capabilities.v: proto.rs, capabilities.rs.
    - Host.v, HostProofs.v, HostLaws.v: host.rs, the [VmHost] trait and the
      in-memory host ([capability_gate], [attachments_never_dangle]); HostLaws.v
      is the contract that clients of any host rely on.
    - Hyper.v, HyperProofs.v, HyperSerial.v, HyperKernel.v: hyper_host.rs,
      hyper_serial.rs and the whole way from the controller to the guest
      ([bridge_host_stands_in], [serial_is_link], [kernel_reads_requests],
      [staged_image_boots]).
    - Mesh.v, MeshProofs.v, Supervisor.v, RemoteCall.v: mesh.rs, metrics.rs,
      transport.rs ([node_keeps_authority], [one_supervisor],
      [supervisor_restarts], [supervisor_idempotent],
      [remote_call_is_host_call]).
    - K8s.v, Observe.v: k8s.rs ([cluster_takes_slots]), admin.rs,
      observability.rs.

    celcli.  Controller.v, ControllerProofs.v: vm.rs, boot.rs, bridge.rs
    ([start_boots_disk], [digest_for_life], [state_file_atomic]).  Console.v: the
    world of a process.  Celctl.v, CelctlProofs.v: the VM and image commands of
    main.rs ([parse_size_exact], [vm_command_durable]).  Cluster.v,
    ClusterProofs.v: its cluster commands ([tree_commands_depart]).  TenantCli.v,
    TenantCliProofs.v: tenant_cli.rs with main.rs of celtenancy
    ([tenant_commands_exact], [session_lifecycle], [tree_prints_forest]).

    celtenancy.  Quota.v, Caps.v, Tenant.v (quota.rs, caps.rs, namespace.rs,
    auth.rs, tenant.rs, user.rs), TenantStore.v with TenantInv.v, TenantQuota.v,
    TenantAdmin.v, TenantProps.v (store.rs, the state every store shares:
    [store_invariant], [charge_all_or_nothing], [delete_recursive_exact],
    [revocation_complete]), TenantTrait.v, FileTenants.v (the trait and the two
    stores: [file_store_durable]), AuditLog.v (audit.rs:
    [audit_log_reads_back]), Runtime.v, RuntimeProofs.v (runtime.rs:
    [quota_conserved]), Exec.v (exec.rs).

    ** Interfaces

    Components meet at classes.  A client is proved against the laws, each
    implementation discharges them: [FrameProvider]/[FrameLaws] (the bump pool),
    [Cpu]/[CpuLaws] (the processor; KernelRun.Sim), [Reader]/[ReaderLaws] (the four
    image readers) below [DiskImage]/[DiskLaws] (any image),
    [VolumeStore]/[VolumeStoreLaws] (memory and file), [VmHost]/[VmHostLaws] (the
    in-memory host), [TenantStore]/[TenantStoreLaws] (memory and file),
    [Transport]/[TransportLaws] (the in-process carrier), [HyperLink] (the
    simulated kernel, the serial line), [AuditSink].

    ** What is assumed

    Code outside the repository is a parameter, with its documented behaviour
    as laws; Codecs.v, KernelRun.Sim and the witness modules give instances, so no
    set of laws is empty.  serde_json: [EventCodec], [StateCodec],
    [ManifestCodec], [HyperCodec] (with [HyperCodecText] and [SerdeJson], its
    compact form), [EnvelopeCodec], [StateJson].  Argon2 and SHA-256:
    [AuthPrims]/[AuthLaws].  The iteration order of hash maps: [HashOrder],
    [KnownOrder].  The processor: [Cpu]/[CpuLaws], [Apic]; the bytes of a VMCS
    region belong to the processor.  A guest stays within the frames its page
    tables map while EPT is in force, which the controls of the current VMCS
    decide ([ept_in_force]), and only then; it reaches memory by no other way
    (no device is programmed to write there), and it exits in the end.  The clock, salts, token bytes, process
    ids and derived [Debug] texts are arguments.  The operating system decides
    the outcome of each file operation and of each read of a file or socket: the
    outcomes are a list in the state, and the theorems hold for every list but
    where they say otherwise: asking whether a file exists may fail too, which
    [Path::exists] answers like an absent file, and the first read of an image
    may be cut before the end of the magic number.  The
    file of an image does not change while it is open; memory is available.

    ** Concurrency

    The kernel runs on one processor, so an entry point is one computation.  A
    store is behind a mutex that one call holds throughout; so is the in-memory
    host but for AttachVolume and DeleteVolume, each two sections, which
    [HostProofs.attach_delete_race] interleaves.  A node of
    the mesh takes its lock for short sections: each is a function on [Inner]
    (Mesh.v), [section_step] lets them interleave in any order, and
    [node_keeps_authority] is about that relation; every operation is a
    sequence of sections ([MeshProofs.operations_are_sections]).  Results about
    the outcome of a whole operation run its sections without interruption, but
    [remote_call_is_host_call] allows other frames in between.

    ** Bounds and fuel

    Loops that are not structural carry fuel, and a theorem shows that it is
    enough.  Ancestor walks: 65, for the code's own guard depth > 64.  Round
    robin: the capacity of the table.  Request decoder: the bytes of the frame
    ([decode_terminates]).  The launch loop: slots + 1
    ([BringupProofs.launch_loop_drains]).  [wait_idle] of the local APIC: the
    code's own 1,000,000 polls.  Read loops: bytes wanted + 1; the
    full-image checksum: size of the disk + 1 (each turn makes progress).
    [serve]: length of the input + 1.

    ** Not modelled

    Assembly, descriptor tables, jmp.rs, pci.rs, iommu.rs and the device
    drivers of celhyper: hardware, which the classes above stand for.  The
    firmware calls of the boot loader.  The parsing of arguments by clap.  Tasks, timers and connections of tokio, the UDP
    carrier, logging and the kernel's counters.

    ** What could be added

    The image loader and the memory map of the boot loader; a guest that
    never exits; the in-memory host at the grain of its locks. *)
From stdpp Require Export base tactics list numbers gmap strings pretty sorting.
From Stdlib Require Export NArith Lia Ascii.

#[export] Set Default Goal Selector "!".

(** ** Notations of the development *)
Declare Scope celium_scope.
Delimit Scope celium_scope with celium.
Global Open Scope celium_scope.

(** ** Results and the state-and-error monad

    [result E A] is Rust's [Result<A, E>].  [st S E A] is a method taking
    [&mut self] (or a locked [&self]) that returns a [Result]: the state is
    returned on the error path too, because Rust keeps the mutations made
    before the early return. *)
Inductive result (E A : Type) : Type :=
| Ok (a : A)
| Err (e : E).
Arguments Ok {E A} a.
Arguments Err {E A} e.

#[export] Instance result_ret {E} : MRet (result E) := λ A a, Ok a.
#[export] Instance result_bind {E} : MBind (result E) := λ A B k m,
  match m with Ok a => k a | Err e => Err e end.
#[export] Instance result_fmap {E} : FMap (result E) := λ A B f m,
  match m with Ok a => Ok (f a) | Err e => Err e end.
#[export] Instance result_throw {E} : MThrow E (result E) := λ A e, Err e.

Definition map_err {E F A : Type} (f : E → F) (m : result E A) : result F A :=
  match m with Ok a => Ok a | Err e => Err (f e) end.

(** [Option::ok_or]. *)
Definition ok_or {E A : Type} (o : option A) (e : E) : result E A :=
  match o with Some a => Ok a | None => Err e end.

Definition is_ok {E A : Type} (m : result E A) : bool :=
  match m with Ok _ => true | Err _ => false end.

Definition st (S E A : Type) : Type := S → result E A * S.

#[export] Instance st_ret {S E} : MRet (st S E) := λ A a s, (Ok a, s).
#[export] Instance st_bind {S E} : MBind (st S E) := λ A B k m s,
  match m s with
  | (Ok a, s') => k a s'
  | (Err e, s') => (Err e, s')
  end.
#[export] Instance st_throw {S E} : MThrow E (st S E) := λ A e s, (Err e, s).

Definition get_st {S E : Type} : st S E S := λ s, (Ok s, s).
Definition put_st {S E : Type} (s' : S) : st S E unit := λ _, (Ok tt, s').
Definition modify {S E : Type} (f : S → S) : st S E unit := λ s, (Ok tt, f s).
(** The [?] operator on a pure result. *)
Definition try {S E A : Type} (m : result E A) : st S E A := λ s, (m, s).
(** [if b { return Err(e) }]. *)
Definition bail_if {S E : Type} (b : bool) (e : E) : st S E unit :=
  if b then mthrow e else mret tt.
(** Run a computation on a component of the state. *)
Definition zoom {S T E A : Type} (get : S → T) (set : T → S → S) (m : st T E A) : st S E A :=
  λ s, let '(r, t') := m (get s) in (r, set t' s).

(** Inversion of successful and of failing binds. *)
Lemma st_bind_Ok {S E A B} (m : st S E A) (k : A → st S E B) s b s' :
  (m ≫= k) s = (Ok b, s') ↔ ∃ a s1, m s = (Ok a, s1) ∧ k a s1 = (Ok b, s').
Proof.
  unfold mbind, st_bind. destruct (m s) as [[a|e] s1]; split.
  - eauto.
  - by intros (?&?&[= -> ->]&?).
  - done.
  - by intros (?&?&?&?).
Qed.

Lemma st_bind_Err {S E A B} (m : st S E A) (k : A → st S E B) s e s' :
  (m ≫= k) s = (Err e, s') ↔
  m s = (Err e, s') ∨ ∃ a s1, m s = (Ok a, s1) ∧ k a s1 = (Err e, s').
Proof.
  unfold mbind, st_bind. destruct (m s) as [[a|e'] s1]; split.
  - eauto.
  - by intros [?|(?&?&[= -> ->]&?)].
  - intros [= -> ->]. by left.
  - by intros [[= -> ->]|(?&?&?&?)].
Qed.

Lemma result_bind_Ok {E A B} (m : result E A) (k : A → result E B) b :
  m ≫= k = Ok b ↔ ∃ a, m = Ok a ∧ k a = Ok b.
Proof. destruct m; split; [eauto|by intros (?&[= ->]&?)|done|by intros (?&?&?)]. Qed.

Lemma ok_or_Ok {E A} (o : option A) (e : E) a : ok_or o e = Ok a ↔ o = Some a.
Proof. destruct o; naive_solver. Qed.

(** Tactics: [st_unfold] exposes the monadic structure, [st_crush] also runs
    every match of it. *)
Ltac st_unfold :=
  unfold bail_if, try, ok_or, map_err, zoom, get_st, put_st, modify in *;
  unfold mbind, mret, mthrow in *;
  unfold st_bind, result_bind, st_ret, result_ret, st_throw, result_throw in *;
  simpl in *.
Ltac st_crush := st_unfold; repeat (case_match; simplify_eq/=).

(** Split every conjunction and existential of the context. *)
Ltac split_hyps :=
  repeat match goal with
         | H : ∃ _, _ |- _ => destruct H
         | H : _ ∧ _ |- _ => destruct H
         end.

(** ** Machine integers

    Unsigned [w]-bit integers are elements of [N] below [2 ^ w]; the wrap,
    saturation and check of each Rust operation is written out. *)
Definition umax (w : N) : N := 2 ^ w - 1.
Abbreviation u8_max := (umax 8).
Abbreviation u16_max := (umax 16).
Abbreviation u32_max := (umax 32).
Abbreviation u64_max := (umax 64).

Definition fits (w n : N) : Prop := (n < 2 ^ w)%N.
#[export] Instance fits_dec w n : Decision (fits w n).
Proof. unfold fits. apply _. Defined.

Definition checked (w n : N) : option N :=
  if (n <? 2 ^ w)%N then Some n else None.
Definition checked_add (w a b : N) : option N := checked w (a + b).
Definition checked_mul (w a b : N) : option N := checked w (a * b).
Definition checked_sub (a b : N) : option N := if (a <? b)%N then None else Some (a - b)%N.
Definition saturating_add (w a b : N) : N := N.min (a + b) (umax w).
Definition saturating_mul (w a b : N) : N := N.min (a * b) (umax w).
(** [N.sub] truncates at zero, which is [saturating_sub] on unsigned values. *)
Definition saturating_sub (a b : N) : N := (a - b)%N.
Definition wrapping_add (w a b : N) : N := ((a + b) mod 2 ^ w)%N.
Definition wrapping_mul (w a b : N) : N := ((a * b) mod 2 ^ w)%N.
(** [!a] on [w] bits. *)
Definition bitnot (w a : N) : N := N.lxor a (umax w).

Lemma umax_spec w : (umax w + 1 = 2 ^ w)%N.
Proof. unfold umax. pose proof (N.pow_nonzero 2 w). lia. Qed.

Lemma fits_umax w n : fits w n ↔ (n ≤ umax w)%N.
Proof. unfold fits. pose proof (umax_spec w). lia. Qed.

Lemma checked_Some w n m : checked w n = Some m ↔ m = n ∧ fits w n.
Proof.
  unfold checked, fits. destruct (N.ltb_spec n (2 ^ w)); split.
  - by intros [= ->].
  - by intros [-> _].
  - done.
  - lia.
Qed.

Lemma checked_fits w n : fits w n → checked w n = Some n.
Proof. intros. by apply checked_Some. Qed.

Lemma saturating_add_le w a b : (saturating_add w a b ≤ umax w)%N.
Proof. unfold saturating_add. lia. Qed.

Lemma saturating_add_exact w a b : fits w (a + b) → saturating_add w a b = (a + b)%N.
Proof. intros ?%fits_umax. unfold saturating_add. lia. Qed.

Lemma saturating_add_sub w a b :
  fits w (a + b) → saturating_sub (saturating_add w a b) b = a.
Proof. intros. rewrite saturating_add_exact by done. unfold saturating_sub. lia. Qed.

(** [simpl] leaves the arithmetic of the machine integers alone. *)
#[global] Arguments umax : simpl never.
#[global] Arguments fits : simpl never.
#[global] Arguments checked : simpl never.
#[global] Arguments checked_add : simpl never.
#[global] Arguments checked_mul : simpl never.
#[global] Arguments checked_sub : simpl never.
#[global] Arguments saturating_add : simpl never.
#[global] Arguments saturating_mul : simpl never.
#[global] Arguments saturating_sub : simpl never.
#[global] Arguments wrapping_add : simpl never.
#[global] Arguments wrapping_mul : simpl never.
#[global] Arguments bitnot : simpl never.
#[global] Arguments N.add : simpl never.
#[global] Arguments N.sub : simpl never.
#[global] Arguments N.mul : simpl never.
#[global] Arguments N.pow : simpl never.
#[global] Arguments N.div : simpl never.
#[global] Arguments N.modulo : simpl never.
#[global] Arguments N.to_nat : simpl never.
#[global] Arguments N.land : simpl never.
#[global] Arguments N.lor : simpl never.
#[global] Arguments N.lxor : simpl never.
#[global] Arguments N.ldiff : simpl never.
#[global] Arguments N.shiftl : simpl never.
#[global] Arguments N.shiftr : simpl never.
#[global] Arguments N.leb : simpl never.
#[global] Arguments N.ltb : simpl never.
#[global] Arguments N.eqb : simpl never.
