(* ===== verification/Text.v ===== *)
(** * Text: the Rust string operations the program uses

    A Rust [str] is its UTF-8 bytes, a Stdlib [string] here, so [len] counts
    bytes.  The file defines the operations of [core::str] and [core::fmt] the
    modelled code calls: splitting, prefix stripping, ASCII classes, decimal
    rendering ([fmt_u]) and the [FromStr] parser of unsigned integers. *)
From S2P Require Import Prelude.

(** ** Characters *)
Definition byte_of (c : ascii) : N := N_of_ascii c.

Definition is_ascii_digit (c : ascii) : bool :=
  ((48 <=? byte_of c) && (byte_of c <=? 57))%N.
Definition is_ascii_lower (c : ascii) : bool :=
  ((97 <=? byte_of c) && (byte_of c <=? 122))%N.
Definition is_ascii_upper (c : ascii) : bool :=
  ((65 <=? byte_of c) && (byte_of c <=? 90))%N.
Definition is_ascii_alphanumeric (c : ascii) : bool :=
  is_ascii_digit c || is_ascii_lower c || is_ascii_upper c.
Definition is_ascii_hexdigit (c : ascii) : bool :=
  is_ascii_digit c || ((97 <=? byte_of c) && (byte_of c <=? 102))%N
  || ((65 <=? byte_of c) && (byte_of c <=? 70))%N.
(** The ASCII part of [char::is_whitespace]. *)
Definition is_white (c : ascii) : bool :=
  ((9 <=? byte_of c) && (byte_of c <=? 13) || (byte_of c =? 32))%N.

(** ** Strings *)
Fixpoint str_forall (p : ascii → bool) (s : string) : bool :=
  match s with
  | EmptyString => true
  | String c s' => p c && str_forall p s'
  end.
Definition str_exists (p : ascii → bool) (s : string) : bool :=
  negb (str_forall (λ c, negb (p c)) s).
Definition contains_char (c : ascii) (s : string) : bool := str_exists (Ascii.eqb c) s.
Fixpoint str_map (f : ascii → ascii) (s : string) : string :=
  match s with
  | EmptyString => EmptyString
  | String c s' => String (f c) (str_map f s')
  end.
Definition len (s : string) : N := N.of_nat (String.length s).
Definition str_is_empty (s : string) : bool :=
  match s with EmptyString => true | _ => false end.

Fixpoint strip_prefix (p s : string) : option string :=
  match p, s with
  | EmptyString, _ => Some s
  | String a p', String b s' => if Ascii.eqb a b then strip_prefix p' s' else None
  | String _ _, EmptyString => None
  end.

(** [split_once(c)]: the parts before and after the first [c]. *)
Fixpoint split_once (c : ascii) (s : string) : option (string * string) :=
  match s with
  | EmptyString => None
  | String a s' =>
      if Ascii.eqb a c then Some (EmptyString, s')
      else match split_once c s' with
           | Some (l, r) => Some (String a l, r)
           | None => None
           end
  end.

(** [split(c)]: all the parts, at least one. *)
Fixpoint split_on (c : ascii) (s : string) : list string :=
  match s with
  | EmptyString => [EmptyString]
  | String a s' =>
      let rest := split_on c s' in
      if Ascii.eqb a c then EmptyString :: rest
      else match rest with
           | x :: xs => String a x :: xs
           | [] => [String a EmptyString]
           end
  end.

(** The UTF-8 encoding of one character of the property White_Space. *)
Definition is_white_char (s : string) : bool :=
  match s with
  | String a EmptyString => is_white a
  | String a (String b EmptyString) =>
      (byte_of a =? 0xC2)%N && ((byte_of b =? 0x85)%N || (byte_of b =? 0xA0)%N)
  | String a (String b (String c EmptyString)) =>
      let a := byte_of a in let b := byte_of b in let c := byte_of c in
      ((a =? 0xE1) && (b =? 0x9A) && (c =? 0x80))%N ||
      ((a =? 0xE2) && (b =? 0x80) && ((0x80 <=? c) && (c <=? 0x8A) || (c =? 0xA8) || (c =? 0xA9) || (c =? 0xAF)))%N ||
      ((a =? 0xE2) && (b =? 0x81) && (c =? 0x9F))%N || ((a =? 0xE3) && (b =? 0x80) && (c =? 0x80))%N
  | _ => false
  end.
Fixpoint trim_start (s : string) : string :=
  match s with
  | EmptyString => EmptyString
  | String a s1 =>
      if is_white a then trim_start s1
      else match s1 with
           | EmptyString => s
           | String b s2 =>
               if is_white_char (String a (String b EmptyString)) then trim_start s2
               else match s2 with
                    | EmptyString => s
                    | String c s3 =>
                        if is_white_char (String a (String b (String c EmptyString))) then trim_start s3 else s
                    end
           end
  end.
Fixpoint trim_end (s : string) : string :=
  match s with
  | EmptyString => EmptyString
  | String c s' => let r := String c (trim_end s') in if is_white_char r then EmptyString else r
  end.
Definition trim (s : string) : string := trim_end (trim_start s).

(** An ASCII character does not start a longer one. *)
Lemma white_char_ascii a s : (byte_of a < 128)%N → is_white_char (String a s) = bool_decide (s = EmptyString) && is_white a.
Proof.
  intros Ha. destruct s as [|b [|c [|d s]]]; cbn -[is_white N.eqb]; rewrite ?bool_decide_eq_true_2, ?bool_decide_eq_false_2 by done.
  - done.
  - by rewrite (proj2 (N.eqb_neq _ _)) by lia.
  - by rewrite !(proj2 (N.eqb_neq (byte_of a) _)) by lia.
  - done.
Qed.
Lemma trim_start_ascii a s : (byte_of a < 128)%N → is_white a = false → trim_start (String a s) = String a s.
Proof.
  intros Ha Hw. cbn [trim_start]. rewrite Hw. destruct s as [|b [|c s]]; rewrite ?white_char_ascii by done; done.
Qed.

Definition to_ascii_lower (c : ascii) : ascii :=
  if is_ascii_upper c then ascii_of_N (byte_of c + 32) else c.

(** ** Decimal numbers *)
Definition fmt_u (n : N) : string := pretty n.

Definition digit_of (c : ascii) : option N :=
  if is_ascii_digit c then Some (byte_of c - 48)%N else None.

Fixpoint parse_digits (w acc : N) (s : string) : option N :=
  match s with
  | EmptyString => Some acc
  | String c s' =>
      d ← digit_of c; m ← checked_mul w acc 10; a ← checked_add w m d;
      parse_digits w a s'
  end.

(** [str::parse::<uW>()]: an optional [+], then at least one digit, with the
    overflow of each step an error. *)
Definition parse_uint (w : N) (s : string) : option N :=
  let s' := match s with String "+" r => r | _ => s end in
  match s' with
  | EmptyString => None
  | _ => parse_digits w 0 s'
  end.

(** ** [Debug] of a string: quoted, with the ASCII escapes. *)
Definition dquote : ascii := ascii_of_N 34.
Definition backslash : ascii := ascii_of_N 92.
Definition hex_digit (n : N) : ascii :=
  if (n <? 10)%N then ascii_of_N (48 + n) else ascii_of_N (87 + n).
Definition escape_char (c : ascii) : string :=
  let b := byte_of c in
  if Ascii.eqb c dquote then String backslash (String dquote EmptyString)
  else if Ascii.eqb c backslash then String backslash (String backslash EmptyString)
  else if (b =? 0)%N then String backslash "0"
  else if (b =? 9)%N then String backslash "t"
  else if (b =? 10)%N then String backslash "n"
  else if (b =? 13)%N then String backslash "r"
  else if (b <? 16)%N then String backslash ("u{" +:+ String (hex_digit b) "}")
  else if ((b <? 32) || (b =? 127))%N then
    String backslash ("u{" +:+ String (hex_digit (b / 16)) (String (hex_digit (b mod 16)) "}"))
  else String c EmptyString.
Fixpoint escape (s : string) : string :=
  match s with
  | EmptyString => EmptyString
  | String c s' => escape_char c +:+ escape s'
  end.
Definition debug_str (s : string) : string :=
  String dquote (escape s +:+ String dquote EmptyString).

(** ** Lemmas *)
Lemma app_string_cons a s t : String a s +:+ t = String a (s +:+ t).
Proof. done. Qed.

Lemma app_string_nil_l t : EmptyString +:+ t = t.
Proof. done. Qed.

Lemma app_string_nil_r s : s +:+ EmptyString = s.
Proof. induction s as [|c s IH]; [done|]. by rewrite app_string_cons, IH. Qed.

Lemma app_string_assoc s t u : (s +:+ t) +:+ u = s +:+ (t +:+ u).
Proof. induction s as [|c s IH]; [done|]. by rewrite !app_string_cons, IH. Qed.

Lemma app_string_length s t : String.length (s +:+ t) = String.length s + String.length t.
Proof. induction s as [|a s IH]; [done|]. rewrite app_string_cons. simpl. by rewrite IH. Qed.

Lemma app_string_inj_l s t u : s +:+ t = s +:+ u → t = u.
Proof. induction s as [|a s IH]; [done|]. rewrite !app_string_cons. by intros [= ->%IH]. Qed.

Lemma app_string_inj_r s t u : s +:+ u = t +:+ u → s = t.
Proof.
  revert t. induction s as [|a s IH]; intros [|b t]; rewrite ?app_string_nil_l, ?app_string_cons.
  - done.
  - intros E%(f_equal String.length). simpl in E. rewrite app_string_length in E. lia.
  - intros E%(f_equal String.length). simpl in E. rewrite app_string_length in E. lia.
  - by intros [= -> ->%IH].
Qed.

Lemma str_forall_app p s t : str_forall p (s +:+ t) = str_forall p s && str_forall p t.
Proof.
  induction s as [|c s IH]; [done|]. rewrite app_string_cons. simpl.
  by rewrite IH, andb_assoc.
Qed.

Lemma contains_char_cons c a s : contains_char c (String a s) = Ascii.eqb c a || contains_char c s.
Proof. unfold contains_char, str_exists. simpl. by destruct (Ascii.eqb c a). Qed.

Lemma contains_char_app c s t : contains_char c (s +:+ t) = contains_char c s || contains_char c t.
Proof.
  induction s as [|a s IH]; [done|].
  by rewrite app_string_cons, !contains_char_cons, IH, orb_assoc.
Qed.

Lemma strip_prefix_app p s : strip_prefix p (p +:+ s) = Some s.
Proof.
  induction p as [|a p IH]; [done|]. rewrite app_string_cons. simpl.
  by rewrite Ascii.eqb_refl.
Qed.

Lemma strip_prefix_Some p s t : strip_prefix p s = Some t ↔ s = p +:+ t.
Proof.
  split; [|intros ->; apply strip_prefix_app].
  revert s. induction p as [|a p IH]; intros [|b s]; simpl; try naive_solver.
  destruct (Ascii.eqb_spec a b) as [->|]; [|done].
  intros ->%IH. done.
Qed.

Lemma split_once_app c s t :
  contains_char c s = false → split_once c (s +:+ String c t) = Some (s, t).
Proof.
  induction s as [|a s IH]; intros Hc.
  - simpl. by rewrite Ascii.eqb_refl.
  - rewrite contains_char_cons in Hc. apply orb_false_iff in Hc as [Ha Hc].
    rewrite app_string_cons. simpl. rewrite Ascii.eqb_sym, Ha, IH; done.
Qed.

Lemma split_once_Some c s l r :
  split_once c s = Some (l, r) → s = l +:+ String c r ∧ contains_char c l = false.
Proof.
  revert l. induction s as [|a s IH]; intros l; simpl; [done|].
  destruct (Ascii.eqb_spec a c) as [->|Hne].
  - by intros [= <- <-].
  - destruct (split_once c s) as [[l' r']|]; [|done]. intros [= <- <-].
    destruct (IH l' eq_refl) as [-> Hl]. split; [done|].
    rewrite contains_char_cons, Hl, orb_false_r.
    by apply Ascii.eqb_neq.
Qed.

Lemma split_on_no_char c s : contains_char c s = false → split_on c s = [s].
Proof.
  induction s as [|a s IH]; [done|]. rewrite contains_char_cons. intros [Ha Hs]%orb_false_iff.
  simpl. rewrite IH by done. by rewrite Ascii.eqb_sym, Ha.
Qed.

Lemma split_on_app c s t :
  contains_char c s = false → split_on c (s +:+ String c t) = s :: split_on c t.
Proof.
  induction s as [|a s IH].
  - intros _. rewrite app_string_nil_l. simpl. by rewrite Ascii.eqb_refl.
  - rewrite contains_char_cons. intros [Ha Hs]%orb_false_iff.
    rewrite app_string_cons. simpl. rewrite IH by done. by rewrite Ascii.eqb_sym, Ha.
Qed.

(** Splitting at a separator splits there, whatever surrounds it. *)
Lemma split_on_join c s t : split_on c (s +:+ String c t) = split_on c s ++ split_on c t.
Proof.
  induction s as [|a s IH].
  - rewrite app_string_nil_l. simpl. by rewrite Ascii.eqb_refl.
  - rewrite app_string_cons. simpl. rewrite IH. destruct (Ascii.eqb a c); [done|].
    destruct (split_on c s) eqn:E; [|done]. destruct s; simpl in E; [done|].
    by repeat case_match.
Qed.

(** A separator absent from the tails determines the split at its last
    occurrence: identifiers of the form [prefix ++ sep ++ counter] are
    injective in both parts. *)
Lemma app_last_sep_inj c s1 s2 t1 t2 :
  contains_char c t1 = false → contains_char c t2 = false →
  s1 +:+ String c t1 = s2 +:+ String c t2 → s1 = s2 ∧ t1 = t2.
Proof.
  intros H1 H2. revert s2. induction s1 as [|a s1 IH]; intros [|b s2].
  - by intros [= ->].
  - rewrite app_string_nil_l, app_string_cons. intros [= -> ->].
    rewrite contains_char_app, contains_char_cons, Ascii.eqb_refl, orb_true_r in H1. done.
  - rewrite app_string_nil_l, app_string_cons. intros [= -> <-].
    rewrite contains_char_app, contains_char_cons, Ascii.eqb_refl, orb_true_r in H2. done.
  - rewrite !app_string_cons. intros [= -> [-> ->]%IH]. done.
Qed.

(** ** Decimal round trip *)
Lemma pretty_N_char_digit d : (d < 10)%N → digit_of (pretty_N_char d) = Some d.
Proof.
  intros. assert (d = 0 ∨ d = 1 ∨ d = 2 ∨ d = 3 ∨ d = 4 ∨ d = 5 ∨ d = 6 ∨ d = 7 ∨ d = 8 ∨ d = 9)%N
    as Hd by lia.
  by repeat destruct Hd as [->|Hd]; try subst.
Qed.

Lemma parse_digits_go w n s :
  fits w n → parse_digits w 0 (pretty_N_go n s) = parse_digits w n s.
Proof.
  revert s. induction (N.lt_wf_0 n) as [n _ IH]; intros s Hn.
  destruct (decide (n = 0%N)) as [->|Hpos]; [by rewrite pretty_N_go_0|].
  unfold fits in *.
  rewrite pretty_N_go_step by lia.
  pose proof (N.div_mod n 10 ltac:(done)) as Hdm.
  pose proof (N.mod_lt n 10 ltac:(done)) as Hlt.
  assert (n `div` 10 < n)%N as Hlt10 by (apply N.div_lt; lia).
  rewrite IH by lia.
  cbn [parse_digits]. rewrite pretty_N_char_digit by done. cbn [mbind option_bind].
  unfold checked_mul, checked_add.
  pose proof (N.Div0.mul_div_le n 10). rewrite (checked_fits w (n / 10 * 10)); [|unfold fits; lia].
  cbn [mbind option_bind].
  rewrite checked_fits; [|unfold fits; lia].
  cbn [mbind option_bind].
  f_equal. lia.
Qed.

Lemma pretty_N_go_nonempty n s : s ≠ EmptyString → pretty_N_go n s ≠ EmptyString.
Proof.
  revert s. induction (N.lt_wf_0 n) as [n _ IH]; intros s Hs.
  destruct (decide (n = 0%N)) as [->|Hpos]; [done|].
  rewrite pretty_N_go_step by lia. apply IH; [apply N.div_lt; lia|done].
Qed.

Lemma pretty_N_go_forall p n s :
  (∀ d, (d < 10)%N → p (pretty_N_char d) = true) →
  str_forall p (pretty_N_go n s) = str_forall p s.
Proof.
  intros Hp. revert s. induction (N.lt_wf_0 n) as [n _ IH]; intros s.
  destruct (decide (n = 0%N)) as [->|Hpos]; [done|].
  rewrite pretty_N_go_step by lia. rewrite IH by (apply N.div_lt; lia).
  simpl. rewrite Hp by (apply N.mod_lt; done). done.
Qed.

(** Every character of a rendered number satisfies what every digit does. *)
Lemma fmt_u_forall p n :
  (∀ d, (d < 10)%N → p (pretty_N_char d) = true) → str_forall p (fmt_u n) = true.
Proof.
  intros Hp. unfold fmt_u, pretty, pretty_N. case_decide.
  - pose proof (Hp 0%N eq_refl) as Hp0. simpl in *. by rewrite Hp0.
  - by rewrite pretty_N_go_forall.
Qed.

Lemma fmt_u_no_char c n : is_ascii_digit c = false → contains_char c (fmt_u n) = false.
Proof.
  intros Hc. unfold contains_char, str_exists. apply negb_false_iff, fmt_u_forall.
  intros d Hd. apply negb_true_iff, Ascii.eqb_neq. intros ->.
  pose proof (pretty_N_char_digit d Hd) as Hdig. unfold digit_of in Hdig.
  by rewrite Hc in Hdig.
Qed.

Lemma fmt_u_nonempty n : fmt_u n ≠ EmptyString.
Proof.
  unfold fmt_u, pretty, pretty_N. case_decide; [done|].
  rewrite pretty_N_go_step by lia. by apply pretty_N_go_nonempty.
Qed.

Lemma fmt_u_inj n m : fmt_u n = fmt_u m → n = m.
Proof. apply (inj pretty). Qed.

(** Parsing a rendered number gives it back. *)
Lemma parse_digits_fmt_u w n : fits w n → parse_digits w 0 (fmt_u n) = Some n.
Proof.
  intros Hn. unfold fmt_u, pretty, pretty_N. case_decide as Hz.
  - subst. simpl. unfold checked_mul, checked_add.
    rewrite checked_fits by (unfold fits in *; lia). simpl.
    by rewrite checked_fits by (unfold fits in *; lia).
  - by rewrite parse_digits_go.
Qed.

Lemma parse_uint_fmt_u w n : fits w n → parse_uint w (fmt_u n) = Some n.
Proof.
  intros Hn. unfold parse_uint.
  pose proof (fmt_u_no_char "+" n eq_refl) as Hplus.
  pose proof (parse_digits_fmt_u w n Hn) as Hgo.
  pose proof (fmt_u_nonempty n). destruct (fmt_u n) as [|a r]; [done|].
  rewrite contains_char_cons in Hplus. apply orb_false_iff in Hplus as [Ha _].
  apply Ascii.eqb_neq in Ha.
  assert ((match String a r with String "+" r0 => r0 | _ => String a r end) = String a r) as ->.
  { destruct a as [[] [] [] [] [] [] [] []]; first [reflexivity | by destruct Ha]. }
  done.
Qed.
