(* ===== verification/Codecs.v ===== *)
(** * Codecs: concrete codecs for the witnesses

    Where the code relies on serde, the development takes the printer and the
    parser as parameters with their documented laws.  This file gives any
    countable type a printer and a parser (a number in binary digits), so that
    the witnesses have codecs that satisfy the laws. *)
From S2P Require Import Prelude.
From S2P Require Import Text.

Definition zero : ascii := ascii_of_N 48.
Definition one : ascii := ascii_of_N 49.

Fixpoint pos_str (p : positive) : string :=
  match p with
  | xH => String one EmptyString
  | xO p => String zero (pos_str p)
  | xI p => String one (pos_str p)
  end.
Fixpoint str_pos (s : string) : positive :=
  match s with
  | EmptyString | String _ EmptyString => xH
  | String c s' => if Ascii.eqb c zero then xO (str_pos s') else xI (str_pos s')
  end.

Lemma str_pos_str p : str_pos (pos_str p) = p.
Proof. induction p as [p IH|p IH|]; simpl; [| |done]; rewrite IH; by destruct p. Qed.

Lemma pos_str_nonempty p : pos_str p ≠ EmptyString.
Proof. by destruct p. Qed.

Lemma pos_str_digits p : str_forall is_ascii_digit (pos_str p) = true.
Proof. induction p; [done..|done]. Qed.

Definition print_bits {A} `{Countable A} (a : A) : string := pos_str (encode a).
Definition parse_bits {A} `{Countable A} (s : string) : option A := decode (str_pos s).

Lemma parse_print_bits {A} `{Countable A} (a : A) : parse_bits (print_bits a) = Some a.
Proof. unfold parse_bits, print_bits. by rewrite str_pos_str, decode_encode. Qed.

(** A codec that writes some values in a short form. *)
Fixpoint marks (n : nat) : string :=
  match n with O => EmptyString | S n => String "#" (marks n) end.
Section table.
Context {A : Type} `{Countable A} (tbl : list A).
Definition table_print (a : A) : string :=
  match list_find (eq a) tbl with Some (i, _) => marks (S i) | None => print_bits a end.
Definition table_parse (s : string) : option A :=
  match s with
  | EmptyString => None
  | String c s' => if Ascii.eqb c "#" then tbl !! String.length s' else parse_bits s
  end.
Lemma marks_length n : String.length (marks n) = n.
Proof. induction n as [|n IH]; [done|]. simpl. by rewrite IH. Qed.
Lemma table_parse_print a : table_parse (table_print a) = Some a ∧ table_print a ≠ EmptyString.
Proof.
  unfold table_print. destruct (list_find (eq a) tbl) as [[i b]|] eqn:E.
  - apply list_find_Some in E as (Hi&<-&_). split; [|done]. simpl. by rewrite marks_length.
  - split; [|apply pos_str_nonempty]. unfold table_parse. pose proof (parse_print_bits a) as Hp.
    unfold print_bits in *. destruct (encode a); simpl in *; by rewrite Hp.
Qed.
End table.
