(* ===== verification/Errors.v ===== *)
(** * Errors: [celcommon::CelError]

    The error taxonomy every control-plane crate returns, with its [Display]
    and [Debug] renderings (they reach the callers of the mesh as strings) and
    the metrics code. *)
From S2P Require Import Prelude.
From S2P Require Import Text.

Inductive CelError : Type :=
| CapabilityDenied (tag : string)
| Exhausted (tag : string)
| Invalid (tag : string)
| Hardware (tag : string)
| Io (msg : string)
| Timeout (msg : string)
| Storage (msg : string)
| Internal (tag : string).

#[global] Arguments fmt_u : simpl never.
#[global] Arguments debug_str : simpl never.

#[export] Instance CelError_eq_dec : EqDecision CelError.
Proof. solve_decision. Defined.

Abbreviation CelResult := (result CelError).

(** [CelError::code]: the stable metrics label. *)
Definition code (e : CelError) : string :=
  match e with
  | CapabilityDenied _ => "cap_denied"
  | Exhausted _ => "exhausted"
  | Invalid _ => "invalid"
  | Hardware _ => "hardware"
  | Io _ => "io"
  | Timeout _ => "timeout"
  | Storage _ => "storage"
  | Internal _ => "internal"
  end.

(** The [#[error(..)]] strings: [Display]. *)
Definition display_error (e : CelError) : string :=
  match e with
  | CapabilityDenied s => "capability denied: " +:+ s
  | Exhausted s => "resource exhausted: " +:+ s
  | Invalid s => "invalid input: " +:+ s
  | Hardware s => "hardware error: " +:+ s
  | Io s => "i/o error: " +:+ s
  | Timeout s => "timeout: " +:+ s
  | Storage s => "storage: " +:+ s
  | Internal s => "internal: " +:+ s
  end.

(** The derived [Debug]: the constructor applied to the quoted payload. *)
Definition debug_error (e : CelError) : string :=
  let tuple c s := c +:+ "(" +:+ debug_str s +:+ ")" in
  match e with
  | CapabilityDenied s => tuple "CapabilityDenied" s
  | Exhausted s => tuple "Exhausted" s
  | Invalid s => tuple "Invalid" s
  | Hardware s => tuple "Hardware" s
  | Io s => tuple "Io" s
  | Timeout s => tuple "Timeout" s
  | Storage s => tuple "Storage" s
  | Internal s => tuple "Internal" s
  end.
