(* ===== verification/Maps.v ===== *)
(** * Maps: iteration over the maps of [std::collections]

    A [BTreeMap] is a [gmap] whose iteration is in key order: [btree_iter]
    sorts its entries, [btree_values] keeps the values.  The iteration order
    of a [HashMap] is not specified, so the code that depends on it takes the
    listing of the entries as a parameter (see TenantStore.v). *)
From S2P Require Import Prelude.

Section btree.
Context {K V : Type} `{Countable K} (le : K → K → Prop) `{!RelDecision le}.

Definition entry_le (x y : K * V) : Prop := le x.1 y.1.

#[export] Instance entry_le_dec : RelDecision entry_le.
Proof. intros x y. unfold entry_le. apply _. Defined.

Definition btree_iter (m : gmap K V) : list (K * V) := merge_sort entry_le (map_to_list m).
Definition btree_values (m : gmap K V) : list V := (btree_iter m).*2.

Lemma btree_iter_perm m : btree_iter m ≡ₚ map_to_list m.
Proof. apply merge_sort_Permutation. Qed.

Lemma elem_of_btree_iter m k v : (k, v) ∈ btree_iter m ↔ m !! k = Some v.
Proof. by rewrite btree_iter_perm, elem_of_map_to_list. Qed.

Lemma elem_of_btree_values m v : v ∈ btree_values m ↔ ∃ k, m !! k = Some v.
Proof.
  unfold btree_values. rewrite list_elem_of_fmap. split.
  - intros ([k v']&->&?%elem_of_btree_iter). eauto.
  - intros (k&?%elem_of_btree_iter). by exists (k, v).
Qed.

Lemma btree_values_length m : length (btree_values m) = size m.
Proof. unfold btree_values. by rewrite length_fmap, btree_iter_perm, length_map_to_list. Qed.
End btree.

(** The keys used by the program: strings in byte order, and pairs of a string
    and a number in lexicographic order. *)
Definition str_btree_values {V} (m : gmap string V) : list V := btree_values String.le m.
Definition n_btree_values {V} (m : gmap N V) : list V := btree_values N.le m.

Definition pair_le (x y : string * N) : Prop :=
  if decide (x.1 = y.1) then (x.2 ≤ y.2)%N else String.le x.1 y.1.
#[export] Instance pair_le_dec : RelDecision pair_le.
Proof. intros x y. unfold pair_le. destruct (decide (x.1 = y.1)); apply _. Defined.
Definition pair_btree_values {V} (m : gmap (string * N) V) : list V := btree_values pair_le m.

(** [retain]: keep the entries whose value satisfies a boolean predicate. *)
Definition map_retain {K V} `{Countable K} (p : K → V → bool) (m : gmap K V) : gmap K V :=
  filter (λ kv, p kv.1 kv.2 = true) m.

Lemma map_retain_lookup {K V} `{Countable K} (p : K → V → bool) (m : gmap K V) k v :
  map_retain p m !! k = Some v ↔ m !! k = Some v ∧ p k v = true.
Proof. unfold map_retain. by rewrite map_lookup_filter_Some. Qed.

Lemma map_retain_lookup_None {K V} `{Countable K} (p : K → V → bool) (m : gmap K V) k :
  map_retain p m !! k = None ↔ m !! k = None ∨ ∃ v, m !! k = Some v ∧ p k v = false.
Proof.
  unfold map_retain. rewrite map_lookup_filter_None. simpl. split.
  - intros [?|Hp]; [by left|]. destruct (m !! k) as [v|] eqn:E; [|by left].
    right. exists v. split; [done|]. by apply not_true_is_false, Hp.
  - intros [?|(v&E&Hp)]; [by left|]. right. intros v' E'. simplify_eq. by rewrite Hp.
Qed.

(** [Vec::retain] on lists. *)
Definition retain {A} (p : A → bool) (l : list A) : list A := List.filter p l.

Lemma elem_of_retain {A} (p : A → bool) l (x : A) : x ∈ retain p l ↔ x ∈ l ∧ p x = true.
Proof. unfold retain. by rewrite !list_elem_of_In, filter_In. Qed.

Lemma retain_length {A} (p : A → bool) (l : list A) : length (retain p l) ≤ length l.
Proof. unfold retain. induction l as [|a l IH]; simpl; [done|]. destruct (p a); simpl; lia. Qed.

Lemma retain_idem {A} (p : A → bool) (l : list A) : retain p (retain p l) = retain p l.
Proof.
  unfold retain. induction l as [|a l IH]; simpl; [done|].
  destruct (p a) eqn:E; simpl; rewrite ?E, IH; done.
Qed.

Lemma retain_retain {A} (p q : A → bool) (l : list A) :
  retain q (retain p l) = retain (λ x, p x && q x) l.
Proof.
  unfold retain. induction l as [|a l IH]; simpl; [done|].
  destruct (p a); simpl; [destruct (q a)|]; by rewrite ?IH.
Qed.

Lemma retain_ext {A} (p q : A → bool) (l : list A) :
  (∀ x, x ∈ l → p x = q x) → retain p l = retain q l.
Proof.
  unfold retain. induction l as [|a l IH]; simpl; intros Hpq; [done|].
  rewrite (Hpq a), IH; [done| |by left]. intros. apply Hpq. by right.
Qed.

Lemma Permutation_filter_bool {A} (p : A → bool) (l1 l2 : list A) :
  l1 ≡ₚ l2 → List.filter p l1 ≡ₚ List.filter p l2.
Proof.
  induction 1 as [|x l1 l2 _ IH|x y l|l1 l2 l3 _ IH1 _ IH2]; simpl; [done| | |by etrans].
  - destruct (p x); [by f_equiv|done].
  - destruct (p x), (p y); try done. constructor.
Qed.

Lemma NoDup_retain {A} (p : A → bool) (l : list A) : NoDup l → NoDup (retain p l).
Proof. rewrite !NoDup_ListNoDup. apply List.NoDup_filter. Qed.

Lemma NoDup_fmap_retain {A B} (f : A → B) (p : A → bool) (l : list A) :
  NoDup (f <$> l) → NoDup (f <$> retain p l).
Proof.
  unfold retain. induction l as [|a l IH]; simpl; [done|].
  rewrite NoDup_cons. intros [Hni Hnd]. destruct (p a); simpl; [|auto].
  apply NoDup_cons. split; [|auto]. intros (x&Hfx&Hx)%list_elem_of_fmap.
  apply Hni, list_elem_of_fmap. exists x. split; [done|].
  by apply elem_of_retain in Hx as [? _].
Qed.

(** [iter().find(p)]. *)
Definition find_first {A} (p : A → bool) (l : list A) : option A := List.find p l.

Lemma find_first_Some {A} (p : A → bool) l (x : A) :
  find_first p l = Some x → x ∈ l ∧ p x = true.
Proof. intros [? ?]%find_some. by rewrite list_elem_of_In. Qed.

Lemma find_first_None {A} (p : A → bool) l :
  find_first p l = None ↔ ∀ x, x ∈ l → p x = false.
Proof.
  unfold find_first. split.
  - intros Hf x Hx. apply list_elem_of_In in Hx. by eapply find_none.
  - intros Hf. destruct (find p l) as [x|] eqn:E; [|done].
    apply find_some in E as [Hx Hp]. apply list_elem_of_In in Hx.
    by rewrite Hf in Hp.
Qed.

(** With distinct keys, finding by key finds the one element with that key. *)
Lemma find_first_key {A B} `{EqDecision B} (f : A → B) (l : list A) (x : A) :
  NoDup (f <$> l) → x ∈ l → find_first (λ y, bool_decide (f y = f x)) l = Some x.
Proof.
  unfold find_first. induction l as [|a l IH]; simpl; [by intros _ ?%elem_of_nil|].
  rewrite NoDup_cons. intros [Hni Hnd] [->|Hx]%elem_of_cons.
  - by rewrite bool_decide_eq_true_2.
  - rewrite bool_decide_eq_false_2; [auto|]. intros Hax. apply Hni.
    rewrite Hax. by apply list_elem_of_fmap_2.
Qed.
