(* ===== verification/Quota.v ===== *)
(** * Quota: [celtenancy::quota]

    Per-tenant ceilings, usage counters and the two pure accounting helpers.
    Every field is an unsigned machine integer ([u32] or [u64], kept in [N]);
    the additions and subtractions saturate exactly as in the code. *)
From S2P Require Import Prelude.
From S2P Require Import Errors.
Local Open Scope N_scope.

Record TenantQuotas := mkQuotas {
  max_vcpus : N;          (** u32 *)
  max_memory_mib : N;     (** u64 *)
  max_storage_bytes : N;  (** u64 *)
  max_network_mbps : N;   (** u32 *)
  max_iops : N            (** u32 *)
}.

Definition unlimited : TenantQuotas := mkQuotas u32_max u64_max u64_max u32_max u32_max.

Record QuotaUsage := mkUsage {
  us_vcpus : N;
  us_memory_mib : N;
  us_storage_bytes : N;
  us_network_mbps : N;
  us_iops : N
}.

Record QuotaCharge := mkCharge {
  ch_vcpus : N;
  ch_memory_mib : N;
  ch_storage_bytes : N;
  ch_network_mbps : N;
  ch_iops : N
}.

Definition usage_default : QuotaUsage := mkUsage 0 0 0 0 0.
Definition charge_default : QuotaCharge := mkCharge 0 0 0 0 0.

#[export] Instance TenantQuotas_eq_dec : EqDecision TenantQuotas.
Proof. solve_decision. Defined.
#[export] Instance QuotaUsage_eq_dec : EqDecision QuotaUsage.
Proof. solve_decision. Defined.
#[export] Instance QuotaCharge_eq_dec : EqDecision QuotaCharge.
Proof. solve_decision. Defined.

(** [charge_quota]: the five saturating sums, then the five ceilings in order. *)
Definition charge_quota (usage : QuotaUsage) (quotas : TenantQuotas) (charge : QuotaCharge)
  : CelResult QuotaUsage :=
  let new_vcpus := saturating_add 32 (us_vcpus usage) (ch_vcpus charge) in
  let new_memory := saturating_add 64 (us_memory_mib usage) (ch_memory_mib charge) in
  let new_storage := saturating_add 64 (us_storage_bytes usage) (ch_storage_bytes charge) in
  let new_network := saturating_add 32 (us_network_mbps usage) (ch_network_mbps charge) in
  let new_iops := saturating_add 32 (us_iops usage) (ch_iops charge) in
  if max_vcpus quotas <? new_vcpus then Err (Exhausted "quota.vcpus")
  else if max_memory_mib quotas <? new_memory then Err (Exhausted "quota.memory")
  else if max_storage_bytes quotas <? new_storage then Err (Exhausted "quota.storage")
  else if max_network_mbps quotas <? new_network then Err (Exhausted "quota.network")
  else if max_iops quotas <? new_iops then Err (Exhausted "quota.iops")
  else Ok (mkUsage new_vcpus new_memory new_storage new_network new_iops).

(** [release_quota]: saturating subtraction in every dimension. *)
Definition release_quota (usage : QuotaUsage) (charge : QuotaCharge) : QuotaUsage :=
  mkUsage (saturating_sub (us_vcpus usage) (ch_vcpus charge))
    (saturating_sub (us_memory_mib usage) (ch_memory_mib charge))
    (saturating_sub (us_storage_bytes usage) (ch_storage_bytes charge))
    (saturating_sub (us_network_mbps usage) (ch_network_mbps charge))
    (saturating_sub (us_iops usage) (ch_iops charge)).

(** ** Specification vocabulary *)

(** Usage within the ceilings, dimension by dimension. *)
Definition within (u : QuotaUsage) (q : TenantQuotas) : Prop :=
  us_vcpus u ≤ max_vcpus q ∧ us_memory_mib u ≤ max_memory_mib q ∧
  us_storage_bytes u ≤ max_storage_bytes q ∧ us_network_mbps u ≤ max_network_mbps q ∧
  us_iops u ≤ max_iops q.

(** Pointwise order on usages. *)
Definition usage_le (u v : QuotaUsage) : Prop :=
  us_vcpus u ≤ us_vcpus v ∧ us_memory_mib u ≤ us_memory_mib v ∧
  us_storage_bytes u ≤ us_storage_bytes v ∧ us_network_mbps u ≤ us_network_mbps v ∧
  us_iops u ≤ us_iops v.

(** The exact (unsaturated) sum. *)
Definition usage_plus (u : QuotaUsage) (c : QuotaCharge) : QuotaUsage :=
  mkUsage (us_vcpus u + ch_vcpus c) (us_memory_mib u + ch_memory_mib c)
    (us_storage_bytes u + ch_storage_bytes c) (us_network_mbps u + ch_network_mbps c)
    (us_iops u + ch_iops c).

(** The sum, each dimension cut off at the largest value of its type. *)
Definition capped_sum (u : QuotaUsage) (c : QuotaCharge) : QuotaUsage :=
  mkUsage (N.min (us_vcpus u + ch_vcpus c) (2 ^ 32 - 1))
    (N.min (us_memory_mib u + ch_memory_mib c) (2 ^ 64 - 1))
    (N.min (us_storage_bytes u + ch_storage_bytes c) (2 ^ 64 - 1))
    (N.min (us_network_mbps u + ch_network_mbps c) (2 ^ 32 - 1))
    (N.min (us_iops u + ch_iops c) (2 ^ 32 - 1)).

(** Each field is a value of its machine type. *)
Definition usage_fits (u : QuotaUsage) : Prop :=
  fits 32 (us_vcpus u) ∧ fits 64 (us_memory_mib u) ∧ fits 64 (us_storage_bytes u) ∧
  fits 32 (us_network_mbps u) ∧ fits 32 (us_iops u).

#[export] Instance within_dec u q : Decision (within u q).
Proof. unfold within. apply _. Defined.
#[export] Instance usage_fits_dec u : Decision (usage_fits u).
Proof. unfold usage_fits. apply _. Defined.

(** Every ceiling is strictly below its type's maximum: no dimension is
    [unlimited]. *)
Definition finite_quotas (q : TenantQuotas) : Prop :=
  max_vcpus q < u32_max ∧ max_memory_mib q < u64_max ∧ max_storage_bytes q < u64_max ∧
  max_network_mbps q < u32_max ∧ max_iops q < u32_max.

(** ** Lemmas *)
Ltac quota_unfold :=
  unfold release_quota, within, usage_le, usage_plus, usage_fits, finite_quotas, saturating_sub,
    saturating_add in *; simpl in *.

Lemma usage_ext u v :
  us_vcpus u = us_vcpus v → us_memory_mib u = us_memory_mib v →
  us_storage_bytes u = us_storage_bytes v → us_network_mbps u = us_network_mbps v →
  us_iops u = us_iops v → u = v.
Proof. destruct u, v. simpl. congruence. Qed.

Lemma within_default q : within usage_default q.
Proof. quota_unfold. lia. Qed.

Lemma within_le u v q : usage_le u v → within v q → within u q.
Proof. quota_unfold. lia. Qed.

Lemma release_quota_le u c : usage_le (release_quota u c) u.
Proof. quota_unfold. lia. Qed.

Lemma release_within u q c : within u q → within (release_quota u c) q.
Proof. apply within_le, release_quota_le. Qed.

Lemma charge_quota_Ok u q c u' :
  charge_quota u q c = Ok u' ↔
  within u' q ∧
  u' = mkUsage (saturating_add 32 (us_vcpus u) (ch_vcpus c))
         (saturating_add 64 (us_memory_mib u) (ch_memory_mib c))
         (saturating_add 64 (us_storage_bytes u) (ch_storage_bytes c))
         (saturating_add 32 (us_network_mbps u) (ch_network_mbps c))
         (saturating_add 32 (us_iops u) (ch_iops c)).
Proof.
  unfold charge_quota. split.
  - repeat case_match; intros; simplify_eq. split; [|done].
    unfold within. simpl. rewrite !N.ltb_ge in *. done.
  - intros [Hw ->]. unfold within in Hw. simpl in Hw. destruct Hw as (?&?&?&?&?).
    by rewrite !(proj2 (N.ltb_ge _ _)).
Qed.

Lemma charge_quota_capped u q c :
  match charge_quota u q c with
  | Ok u' => u' = capped_sum u c ∧ within (capped_sum u c) q
  | Err _ => ¬ within (capped_sum u c) q
  end.
Proof.
  assert (∀ w a b, saturating_add w a b = N.min (a + b) (2 ^ w - 1)) as Hs
    by (intros; unfold saturating_add, umax; lia).
  unfold charge_quota, within, capped_sum. rewrite !Hs.
  cbn [us_vcpus us_memory_mib us_storage_bytes us_network_mbps us_iops].
  repeat case_match; simplify_eq; rewrite ?N.ltb_lt, ?N.ltb_ge in *; try (intros (?&?&?&?&?); lia).
  done.
Qed.

Lemma charge_within u q c u' : charge_quota u q c = Ok u' → within u' q.
Proof. by intros [? _]%charge_quota_Ok. Qed.

(** A refused charge names an exhausted quota, whatever the dimension. *)
Lemma charge_quota_Err u q c e : charge_quota u q c = Err e → ∃ tag, e = Exhausted tag.
Proof. unfold charge_quota. repeat case_match; naive_solver. Qed.

(** With finite ceilings an accepted charge did not saturate. *)
Lemma charge_exact_finite u q c u' :
  finite_quotas q → charge_quota u q c = Ok u' → u' = usage_plus u c.
Proof.
  intros Hf [Hw ->]%charge_quota_Ok. unfold usage_plus. quota_unfold.
  f_equal; lia.
Qed.

Lemma charge_exact_fits u q c u' :
  usage_fits (usage_plus u c) → charge_quota u q c = Ok u' → u' = usage_plus u c.
Proof.
  intros Hf [_ ->]%charge_quota_Ok. unfold usage_plus. quota_unfold.
  destruct Hf as (H1%fits_umax & H2%fits_umax & H3%fits_umax & H4%fits_umax & H5%fits_umax).
  f_equal; lia.
Qed.

(** Under an unlimited quota an accepted charge may saturate; its release then
    takes back more than was added. *)
Example saturated_charge_drifts :
  let u := mkUsage (2 ^ 32 - 2) 0 0 0 0 in
  let c := mkCharge 2 0 0 0 0 in
  (λ u', release_quota u' c) <$> charge_quota u unlimited c = Ok (mkUsage (2 ^ 32 - 3) 0 0 0 0).
Proof. by vm_compute. Qed.

(** Releasing what was added restores the usage. *)
Lemma release_usage_plus u c : release_quota (usage_plus u c) c = u.
Proof. apply usage_ext; quota_unfold; lia. Qed.

Lemma charge_default_noop u q : usage_fits u → within u q → charge_quota u q charge_default = Ok u.
Proof.
  intros (H1%fits_umax & H2%fits_umax & H3%fits_umax & H4%fits_umax & H5%fits_umax) Hw.
  apply charge_quota_Ok. split; [done|]. apply usage_ext; quota_unfold; lia.
Qed.

Create HintDb quota.
#[export] Hint Resolve within_default release_within charge_within release_quota_le : quota.
