(* ===== verification/AuditLog.v ===== *)
(** * AuditLog: [celtenancy::audit]

    Audit events, the [AuditSink] trait and its two implementations: the
    in-memory list and the append-only file of JSON lines.  The JSON printer
    and parser of events are the class [EventCodec]; the lossy UTF-8 decoding
    the reader performs is written out. *)
From S2P Require Import Prelude.
From S2P Require Import Text.
From S2P Require Import Codecs.
From S2P Require Import Errors.
From S2P Require Import Quota.

Inductive AuditAction := Charge | Release | Deny | Exec.
#[export] Instance AuditAction_eq_dec : EqDecision AuditAction.
Proof. solve_decision. Defined.

Record AuditEvent := mkEvent {
  ev_timestamp_millis : N;    (** u64 *)
  ev_tenant : string;
  ev_user : option string;
  ev_action : AuditAction;
  ev_op_capability_tag : option string;
  ev_charge : option QuotaCharge;
  ev_success : bool;
  ev_error : option string;
  ev_note : option string
}.
#[export] Instance AuditEvent_eq_dec : EqDecision AuditEvent.
Proof. solve_decision. Defined.

(** [AuditEvent::now], at the clock reading [ms]. *)
Definition event_now (ms : N) (tenant : string) (action : AuditAction) : AuditEvent :=
  mkEvent ms tenant None action None None true None None.
Definition with_user (user : option string) (e : AuditEvent) : AuditEvent :=
  mkEvent (ev_timestamp_millis e) (ev_tenant e) user (ev_action e) (ev_op_capability_tag e)
    (ev_charge e) (ev_success e) (ev_error e) (ev_note e).
Definition with_op_tag (tag : string) (e : AuditEvent) : AuditEvent :=
  mkEvent (ev_timestamp_millis e) (ev_tenant e) (ev_user e) (ev_action e) (Some tag)
    (ev_charge e) (ev_success e) (ev_error e) (ev_note e).
Definition with_charge (c : QuotaCharge) (e : AuditEvent) : AuditEvent :=
  mkEvent (ev_timestamp_millis e) (ev_tenant e) (ev_user e) (ev_action e) (ev_op_capability_tag e)
    (Some c) (ev_success e) (ev_error e) (ev_note e).
Definition with_error (err : string) (e : AuditEvent) : AuditEvent :=
  mkEvent (ev_timestamp_millis e) (ev_tenant e) (ev_user e) (ev_action e) (ev_op_capability_tag e)
    (ev_charge e) false (Some err) (ev_note e).
Definition with_note (note : string) (e : AuditEvent) : AuditEvent :=
  mkEvent (ev_timestamp_millis e) (ev_tenant e) (ev_user e) (ev_action e) (ev_op_capability_tag e)
    (ev_charge e) (ev_success e) (ev_error e) (Some note).

(** The [AuditSink] trait: recording is infallible for the caller. *)
Class AuditSink (K : Type) := { as_record : AuditEvent → K → K }.

(** [MemAuditSink]: the events, oldest first. *)
Definition MemAuditSink := list AuditEvent.
#[export] Instance mem_audit_sink : AuditSink MemAuditSink := {| as_record e l := l ++ [e] |}.

(** ** Lossy UTF-8 decoding, [String::from_utf8_lossy]

    Every maximal invalid prefix of a sequence becomes U+FFFD. *)
Definition FFFD : string :=
  String (ascii_of_N 239) (String (ascii_of_N 191) (String (ascii_of_N 189) EmptyString)).

Definition in_range (lo hi : N) (c : ascii) : bool := ((lo <=? byte_of c) && (byte_of c <=? hi))%N.
Definition is_cont (c : ascii) : bool := in_range 128 191 c.
(** The admissible second bytes after a leading byte of a 3- or 4-byte
    sequence. *)
Definition second3 (c b : ascii) : bool :=
  if (byte_of c =? 224)%N then in_range 160 191 b
  else if (byte_of c =? 237)%N then in_range 128 159 b else is_cont b.
Definition second4 (c b : ascii) : bool :=
  if (byte_of c =? 240)%N then in_range 144 191 b
  else if (byte_of c =? 244)%N then in_range 128 143 b else is_cont b.

(** One step, with [go] for the rest of the text. *)
Definition utf8_step (go : string → string) (s : string) : string :=
  match s with
  | EmptyString => EmptyString
  | String a s1 =>
      if in_range 0 127 a then String a (go s1)
      else if in_range 194 223 a then
        match s1 with
        | String b s2 => if is_cont b then String a (String b (go s2))
                         else FFFD +:+ go s1
        | EmptyString => FFFD
        end
      else if in_range 224 239 a then
        match s1 with
        | String b s2 =>
            if second3 a b then
              match s2 with
              | String c s3 => if is_cont c then String a (String b (String c (go s3)))
                               else FFFD +:+ go s2
              | EmptyString => FFFD
              end
            else FFFD +:+ go s1
        | EmptyString => FFFD
        end
      else if in_range 240 244 a then
        match s1 with
        | String b s2 =>
            if second4 a b then
              match s2 with
              | String c s3 =>
                  if is_cont c then
                    match s3 with
                    | String d s4 =>
                        if is_cont d
                        then String a (String b (String c (String d (go s4))))
                        else FFFD +:+ go s3
                    | EmptyString => FFFD
                    end
                  else FFFD +:+ go s2
              | EmptyString => FFFD
              end
            else FFFD +:+ go s1
        | EmptyString => FFFD
        end
      else FFFD +:+ go s1
  end.

Fixpoint utf8_lossy (s : string) : string := utf8_step utf8_lossy s.

(** ** [FileAuditSink]

    [serde_json::to_string] and [serde_json::from_str] at [AuditEvent]. *)
Class EventCodec := {
  print_event : AuditEvent → option string;
  parse_event : string → option AuditEvent
}.

Definition LF : ascii := ascii_of_N 10.
Definition CR : ascii := ascii_of_N 13.

(** [str::lines]: the pieces between line feeds, without a last empty piece
    and without a carriage return at the end of a piece. *)
Fixpoint strip_cr (s : string) : string :=
  match s with
  | EmptyString => EmptyString
  | String c EmptyString => if Ascii.eqb c CR then EmptyString else s
  | String c s' => String c (strip_cr s')
  end.
Definition drop_last_empty (l : list string) : list string :=
  match last l with Some EmptyString => removelast l | _ => l end.
Definition lines (s : string) : list string := strip_cr <$> drop_last_empty (split_on LF s).

(** What becomes of one [record]: written, or the file could not be opened, or
    the process or the disk gave out after [n] bytes. *)
Inductive record_fault := OpenFailed | WroteOnly (n : nat).

Section file_sink.
Context `{EventCodec}.

(** The log file ([None] when it does not exist) and the outcomes of the
    coming records, all fine after the last. *)
Record FileAuditSink := mkFileSink {
  log_file : option string;
  log_faults : list (option record_fault)
}.

Definition file_record (e : AuditEvent) (k : FileAuditSink) : FileAuditSink :=
  match print_event e with
  | None => k
  | Some line =>
      let text := line +:+ String LF EmptyString in
      let written := match mjoin (head (log_faults k)) with
                     | None => Some text
                     | Some OpenFailed => None
                     | Some (WroteOnly n) => Some (String.substring 0 n text)
                     end in
      mkFileSink (match written with
                  | Some w => Some (default EmptyString (log_file k) +:+ w)
                  | None => log_file k
                  end) (tail (log_faults k))
  end.

#[export] Instance file_audit_sink : AuditSink FileAuditSink := {| as_record := file_record |}.

(** One line of [read_all]. *)
Definition read_line (line : string) : option AuditEvent :=
  let trimmed := trim line in
  if str_is_empty trimmed then None else parse_event trimmed.

Definition read_log (bytes : string) : list AuditEvent :=
  omap read_line (lines (utf8_lossy bytes)).

Definition read_all (err : string) (k : FileAuditSink) : CelResult (list AuditEvent) :=
  bytes ← ok_or (log_file k) (Io err);
  Ok (read_log bytes).

Definition tail_events (err : string) (n : nat) (k : FileAuditSink) : CelResult (list AuditEvent) :=
  all ← read_all err k;
  Ok (drop (length all - n) all).

Definition count_events (err : string) (k : FileAuditSink) : CelResult nat :=
  length <$> read_all err k.
End file_sink.

(** ** Reading a log back *)
Lemma lf_classes a :
  in_range 0 127 LF = true ∧ is_cont LF = false ∧ second3 a LF = false ∧ second4 a LF = false.
Proof. unfold second3, second4. repeat split; by repeat case_match. Qed.

Lemma utf8_lossy_step s : utf8_lossy s = utf8_step utf8_lossy s.
Proof. by destruct s. Qed.

(** Decoding never merges bytes across a line feed. *)
Lemma utf8_lossy_lf s t :
  utf8_lossy (s +:+ String LF t) = utf8_lossy s +:+ String LF (utf8_lossy t).
Proof.
  remember (String.length s) as n eqn:Hn. revert s Hn.
  induction (lt_wf n) as [n _ IH]. intros s ->.
  assert (∀ s', (String.length s' < String.length s)%nat →
    utf8_lossy (s' +:+ String LF t) = utf8_lossy s' +:+ String LF (utf8_lossy t)) as IHs
    by (intros; by eapply IH).
  destruct s as [|a [|b [|c [|d s]]]]; [done|..];
    destruct (lf_classes a) as (H1&H2&H3&H4);
    rewrite ?app_string_cons, ?app_string_nil_l in *; rewrite !(utf8_lossy_step (String a _)); cbn [utf8_step];
    rewrite ?H1, ?H2, ?H3, ?H4;
    repeat match goal with
      | |- context [if in_range ?l ?h ?x then _ else _] => destruct (in_range l h x)
      | |- context [if is_cont ?x then _ else _] => destruct (is_cont x)
      | |- context [if second3 ?x ?y then _ else _] => destruct (second3 x y)
      | |- context [if second4 ?x ?y then _ else _] => destruct (second4 x y)
      end;
    rewrite ?app_string_assoc, ?app_string_cons; try done;
    match goal with
    | |- context [utf8_lossy ?x +:+ String LF (utf8_lossy t)] =>
        rewrite <-(IHs x) by (simpl; lia)
    end; done.
Qed.

(** Dropping the last empty piece loses no event, and an event never starts
    with white space or ends with a carriage return. *)
Section read.
Context `{EventCodec}.

Lemma trim_end_strip_cr s : trim_end (strip_cr s) = trim_end s.
Proof.
  induction s as [|c s IH]; [done|]. destruct s as [|d s].
  - cbn [strip_cr]. by destruct (Ascii.eqb_spec c CR) as [->|].
  - change (strip_cr (String c (String d s))) with (String c (strip_cr (String d s))).
    cbn [trim_end] in *. by rewrite IH.
Qed.

Lemma strip_cr_cons a b s : strip_cr (String a (String b s)) = String a (strip_cr (String b s)).
Proof. done. Qed.
Lemma white_char_cr a s : is_white_char (String a (s +:+ String CR EmptyString)) = false.
Proof.
  destruct s as [|b [|c s]]; rewrite ?app_string_cons, ?app_string_nil_l; cbn -[N.eqb N.leb].
  - by rewrite andb_false_r.
  - by rewrite !andb_false_r.
  - by destruct s.
Qed.
Lemma trim_start_strip_cr s : trim_start (strip_cr s) = strip_cr (trim_start s).
Proof.
  remember (String.length s) as n eqn:Hn. assert (String.length s ≤ n) as Hle by lia. clear Hn. revert s Hle.
  induction n as [|n IH]; intros [|a s] Hle; [done|simpl in Hle; lia|done|]. simpl in Hle.
  destruct s as [|b s].
  { cbn [strip_cr trim_start]. destruct (Ascii.eqb_spec a CR) as [->|Hne]; [done|].
    cbn [trim_start]. destruct (is_white a); [done|]. cbn [strip_cr]. by rewrite (proj2 (Ascii.eqb_neq _ _)). }
  rewrite strip_cr_cons. cbn [trim_start]. destruct (is_white a) eqn:Ha; [apply IH; simpl in *; lia|].
  destruct s as [|c s].
  { cbn [strip_cr]. destruct (Ascii.eqb_spec b CR) as [->|Hne].
    - pose proof (white_char_cr a EmptyString) as Hw. rewrite app_string_nil_l in Hw. by rewrite Hw.
    - destruct (is_white_char _); [done|]. cbn [strip_cr]. by rewrite (proj2 (Ascii.eqb_neq _ _)). }
  rewrite strip_cr_cons. destruct (is_white_char (String a (String b EmptyString))); [apply IH; simpl in *; lia|].
  destruct s as [|d s].
  { cbn [strip_cr]. destruct (Ascii.eqb_spec c CR) as [->|Hne].
    - pose proof (white_char_cr a (String b EmptyString)) as Hw. rewrite app_string_cons, app_string_nil_l in Hw. by rewrite Hw.
    - destruct (is_white_char _); [done|]. cbn [strip_cr]. by rewrite (proj2 (Ascii.eqb_neq _ _)). }
  rewrite strip_cr_cons. destruct (is_white_char _); [apply IH; simpl in *; lia|]. done.
Qed.

Lemma strip_cr_trim s : trim (strip_cr s) = trim s.
Proof. unfold trim. by rewrite trim_start_strip_cr, trim_end_strip_cr. Qed.

Lemma read_line_strip_cr s : read_line (strip_cr s) = read_line s.
Proof. unfold read_line. by rewrite strip_cr_trim. Qed.

Lemma read_log_split s : read_log s = omap read_line (split_on LF (utf8_lossy s)).
Proof.
  unfold read_log, lines. generalize (split_on LF (utf8_lossy s)). intros l.
  transitivity (omap read_line (drop_last_empty l)).
  - induction (drop_last_empty l) as [|x l' IH]; [done|]. csimpl.
    rewrite read_line_strip_cr. by destruct (read_line x); rewrite IH.
  - unfold drop_last_empty. destruct (last l) as [[|c x]|] eqn:El; [|done|done].
    apply last_Some in El as [l' ->]. rewrite removelast_last.
    by rewrite omap_app, app_nil_r.
Qed.

Lemma read_log_lf s t : read_log (s +:+ String LF t) = read_log s ++ read_log t.
Proof. by rewrite !read_log_split, utf8_lossy_lf, split_on_join, omap_app. Qed.
End read.

(** What is documented of the codec and the reader relies on: an event is
    printed as one line of valid UTF-8 without surrounding white space, which
    parses back; and a cut-off line with another line after it is not an
    event. *)
Class EventCodecLaws `{EventCodec} := {
  event_round e : ∃ l, print_event e = Some l ∧ parse_event l = Some e ∧
    contains_char LF l = false ∧ utf8_lossy l = l ∧ trim l = l ∧ l ≠ EmptyString;
  event_torn e e' l l' p q : print_event e = Some l → print_event e' = Some l' →
    l = p +:+ q → p ≠ EmptyString → read_line (utf8_lossy (p +:+ l')) = None
}.

Section file_sink_proofs.
Context `{EventCodec} `{!EventCodecLaws}.

(** A log without an unfinished line. *)
Definition closed (s : string) : Prop :=
  s = EmptyString ∨ ∃ s', s = s' +:+ String LF EmptyString.

Lemma read_log_nil : read_log EmptyString = [].
Proof. done. Qed.

Lemma read_log_closed s t : closed s → read_log (s +:+ t) = read_log s ++ read_log t.
Proof.
  intros [->|[s' ->]].
  - by rewrite app_string_nil_l, read_log_nil.
  - rewrite app_string_assoc, app_string_cons, app_string_nil_l, !read_log_lf, read_log_nil.
    by rewrite app_nil_r.
Qed.

Lemma closed_line s l : closed (s +:+ (l +:+ String LF EmptyString)).
Proof. right. exists (s +:+ l). by rewrite app_string_assoc. Qed.

Lemma utf8_lossy_line_lf l : utf8_lossy l = l →
  utf8_lossy (l +:+ String LF EmptyString) = l +:+ String LF EmptyString.
Proof. intros Hl. rewrite utf8_lossy_lf, Hl. done. Qed.

Lemma read_log_line e l : print_event e = Some l → read_log (l +:+ String LF EmptyString) = [e].
Proof.
  intros Hl. destruct (event_round e) as (l'&Hl'&Hp&Hlf&Hu&Ht&Hne). simplify_eq.
  rewrite read_log_lf, read_log_nil, app_nil_r, read_log_split, Hu, split_on_no_char by done.
  simpl. unfold read_line. rewrite Ht, Hp. by destruct l.
Qed.

(** Recording without a fault appends one event to a closed log. *)
Lemma record_ok e k s :
  closed s → default EmptyString (log_file k) = s → log_faults k = [] →
  let k' := as_record e k in
  ∃ s', log_file k' = Some s' ∧ closed s' ∧ log_faults k' = [] ∧ read_log s' = read_log s ++ [e].
Proof.
  intros Hc Hs Hf. destruct (event_round e) as (l&Hl&_). simpl. unfold file_record.
  rewrite Hl, Hf. simpl. eexists. split; [done|]. rewrite Hs. split; [apply closed_line|].
  split; [done|]. rewrite read_log_closed by done. by rewrite (read_log_line e l).
Qed.

Lemma records_ok es : ∀ k s,
  closed s → log_file k = Some s → log_faults k = [] →
  ∃ s', log_file (foldl (λ k e, as_record e k) k es) = Some s' ∧ closed s' ∧
    read_log s' = read_log s ++ es.
Proof.
  induction es as [|e es IH]; intros k s Hc Hs Hf; simpl.
  - exists s. by rewrite app_nil_r.
  - destruct (record_ok e k s) as (s1&Hs1&Hc1&Hf1&Hr1); [done|by rewrite Hs|done|].
    destruct (IH (as_record e k) s1) as (s'&?&?&Hr); [done..|].
    exists s'. split; [done|]. split; [done|]. by rewrite Hr, Hr1, <-app_assoc.
Qed.

Lemma substring_prefix n s : ∃ q, s = String.substring 0 n s +:+ q.
Proof.
  revert s. induction n as [|n IH]; intros [|c s]; simpl; [by eexists|by eexists|by eexists|].
  destruct (IH s) as [q Hq]. exists q. by rewrite app_string_cons, <-Hq.
Qed.

Lemma substring_app_le n s t :
  (n ≤ String.length s)%nat → String.substring 0 n (s +:+ t) = String.substring 0 n s.
Proof.
  revert s. induction n as [|n IH]; intros [|c s] Hn; simpl in Hn; try lia;
    [by destruct t|done|].
  rewrite app_string_cons. cbn [String.substring]. by rewrite IH by lia.
Qed.

Lemma contains_char_substring c n s :
  contains_char c s = false → contains_char c (String.substring 0 n s) = false.
Proof.
  destruct (substring_prefix n s) as [q Hq]. rewrite Hq at 1. rewrite contains_char_app.
  by intros [? _]%orb_false_iff.
Qed.

(** Decoding neither adds nor removes a line feed. *)
Lemma utf8_lossy_no_lf s : contains_char LF s = false → contains_char LF (utf8_lossy s) = false.
Proof.
  remember (String.length s) as n eqn:Hn. revert s Hn.
  induction (lt_wf n) as [n _ IH]. intros s -> Hs.
  assert (∀ s', (String.length s' < String.length s)%nat → contains_char LF s' = false →
    contains_char LF (utf8_lossy s') = false) as IHs by (intros; by eapply IH).
  assert (∀ x, contains_char LF (FFFD +:+ x) = contains_char LF x) as Hfd by done.
  destruct s as [|a [|b [|c [|d s]]]]; [done|..]; rewrite !contains_char_cons in Hs;
    repeat apply orb_false_iff in Hs as [?Ha Hs];
    rewrite utf8_lossy_step; cbn [utf8_step];
    repeat match goal with
      | |- context [if in_range ?l ?h ?x then _ else _] => destruct (in_range l h x)
      | |- context [if is_cont ?x then _ else _] => destruct (is_cont x)
      | |- context [if second3 ?x ?y then _ else _] => destruct (second3 x y)
      | |- context [if second4 ?x ?y then _ else _] => destruct (second4 x y)
      end;
    rewrite ?Hfd, ?contains_char_cons, ?Ha, ?Ha0, ?Ha1, ?Ha2; cbn [orb]; try done;
    apply IHs; try (simpl; lia); rewrite ?contains_char_cons, ?Ha0, ?Ha1, ?Ha2; done.
Qed.

(** A fragment with no line feed is read as at most one event. *)
Lemma read_log_fragment p : contains_char LF p = false → (length (read_log p) ≤ 1)%nat.
Proof.
  intros Hp. rewrite read_log_split, split_on_no_char by (by apply utf8_lossy_no_lf).
  simpl. destruct (read_line _); simpl; lia.
Qed.

(** C32: the audit log keeps what it acknowledged, and a torn write costs at
    most the next event.  Recording events without faults appends exactly
    them, in order, to what the log reads as.  If a record is cut off inside
    its line, every earlier event is still read; but the next process appends
    to the unfinished line, so that its first event is lost as well as the
    torn one, and all later ones are read. *)
Theorem audit_log_reads_back err k s old :
  log_file k = Some s → closed s → read_all err k = Ok old →
  (∀ es, log_faults k = [] → read_all err (foldl (λ k e, as_record e k) k es) = Ok (old ++ es)) ∧
  ∀ e l n next rest, print_event e = Some l → (0 < n ≤ String.length l)%nat →
    log_faults k = [Some (WroteOnly n)] →
    (∃ x, read_all err (as_record e k) = Ok (old ++ x) ∧ (length x ≤ 1)%nat) ∧
    read_all err (foldl (λ k e, as_record e k) (as_record e k) (next :: rest)) = Ok (old ++ rest).
Proof.
  intros Hs Hc Hold. unfold read_all in Hold. rewrite Hs in Hold. injection Hold as <-. split.
  - intros es Hf. destruct (records_ok es k s Hc Hs Hf) as (s'&Hs'&_&Hr).
    unfold read_all. rewrite Hs'. simpl. by rewrite Hr.
  - intros e l n next rest Hl Hn Hf.
    destruct (event_round e) as (l0&Hl0&_&Hlf&_). simplify_eq.
    set (p := String.substring 0 n l).
    assert (as_record e k = mkFileSink (Some (s +:+ p)) []) as Hk1.
    { simpl. unfold file_record. rewrite Hl, Hf, Hs. simpl. by rewrite substring_app_le by lia. }
    rewrite Hk1. split.
    + exists (read_log p). unfold read_all. simpl. rewrite read_log_closed by done.
      split; [done|]. by apply read_log_fragment, contains_char_substring.
    + destruct (event_round next) as (l'&Hl'&_). cbn [foldl].
      assert (as_record next (mkFileSink (Some (s +:+ p)) []) =
        mkFileSink (Some (s +:+ ((p +:+ l') +:+ String LF EmptyString))) []) as ->.
      { simpl. unfold file_record. rewrite Hl'. simpl. by rewrite !app_string_assoc. }
      assert (read_log ((p +:+ l') +:+ String LF EmptyString) = []) as Hlost.
      { destruct (substring_prefix n l) as [q Hq].
        rewrite read_log_lf, read_log_nil, app_nil_r, read_log_split, split_on_no_char.
        - simpl. rewrite (event_torn e next l l' p q Hl Hl' Hq); [done|].
          unfold p. destruct l, n; simpl in *; [lia|lia|lia|done].
        - apply utf8_lossy_no_lf. rewrite contains_char_app.
          unfold p. rewrite contains_char_substring by done.
          by destruct (event_round next) as (l2&Hl2&_&Hlf2&_); simplify_eq. }
      destruct (records_ok rest (mkFileSink (Some (s +:+ ((p +:+ l') +:+ String LF EmptyString))) [])
        _ (closed_line s (p +:+ l')) eq_refl eq_refl) as (s'&Hs'&_&Hr).
      unfold read_all. rewrite Hs'. simpl. rewrite Hr, read_log_closed, Hlost by done.
      by rewrite app_nil_r.
Qed.
End file_sink_proofs.

(** ** Witness *)
Module AuditWitness.
#[export] Instance action_countable : Countable AuditAction.
Proof.
  refine (inj_countable' (λ a, match a with Charge => 0 | Release => 1 | Deny => 2 | Exec => 3 end)
    (λ n, match n with 0 => Charge | 1 => Release | 2 => Deny | _ => Exec end) _)%nat. by intros [].
Defined.
#[export] Instance charge_countable : Countable QuotaCharge.
Proof.
  by refine (inj_countable' (λ q, (ch_vcpus q, ch_memory_mib q, ch_storage_bytes q,
    ch_network_mbps q, ch_iops q)) (λ '(a, b, c, d, e), mkCharge a b c d e) _); intros [].
Defined.
#[export] Instance event_countable : Countable AuditEvent.
Proof.
  by refine (inj_countable' (λ e, (ev_timestamp_millis e, ev_tenant e, ev_user e, ev_action e,
    ev_op_capability_tag e, ev_charge e, ev_success e, ev_error e, ev_note e))
    (λ '(a, b, c, d, e, f, g, h, i), mkEvent a b c d e f g h i) _); intros [].
Defined.

(** An event is printed as its digits in braces. *)
Definition brace : ascii := ascii_of_N 123.
Definition unbrace : ascii := ascii_of_N 125.
Definition show (e : AuditEvent) : string :=
  String brace (print_bits e +:+ String unbrace EmptyString).
#[export] Instance codec : EventCodec := {
  print_event e := Some (show e);
  parse_event s :=
    e ← parse_bits (String.substring 1 (String.length s - 2) s);
    if bool_decide (show e = s) then Some e else None
}.

Definition printable (c : ascii) : bool := in_range 33 126 c.

Lemma printable_lossy s : str_forall printable s = true → utf8_lossy s = s.
Proof.
  induction s as [|c s IH]; [done|]. cbn [str_forall]. intros [Hc Hs]%andb_true_iff.
  rewrite utf8_lossy_step. cbn [utf8_step]. rewrite IH by done.
  unfold printable, in_range in *. apply andb_true_iff in Hc as [_ Hc%N.leb_le].
  by rewrite (proj2 (N.leb_le 0 _)), (proj2 (N.leb_le _ 127)) by lia.
Qed.

Lemma printable_not_white c : printable c = true → is_white c = false.
Proof.
  unfold printable, in_range, is_white. intros [Hc%N.leb_le _]%andb_true_iff.
  apply orb_false_iff. split; [apply andb_false_iff; right; apply N.leb_gt; lia|].
  apply N.eqb_neq. lia.
Qed.

Lemma printable_ascii c : printable c = true → (byte_of c < 128)%N.
Proof. unfold printable, in_range. intros [_ Hc%N.leb_le]%andb_true_iff. lia. Qed.
Lemma printable_trim s : str_forall printable s = true → trim s = s.
Proof.
  intros Hs. unfold trim. assert (trim_start s = s) as ->.
  { destruct s as [|c s]; [done|]. cbn [str_forall] in Hs. apply andb_true_iff in Hs as [Hc _].
    apply trim_start_ascii; [by apply printable_ascii|by apply printable_not_white]. }
  induction s as [|c s IH]; [done|]. cbn [str_forall] in Hs. apply andb_true_iff in Hs as [Hc Hs].
  cbn [trim_end]. rewrite IH by done. rewrite white_char_ascii by by apply printable_ascii.
  by rewrite printable_not_white, andb_false_r.
Qed.

Lemma digits_imply (p : ascii → bool) s :
  p zero = true → p one = true → ∀ e : AuditEvent, s = print_bits e → str_forall p s = true.
Proof.
  intros H0 H1 e ->. unfold print_bits. induction (encode e) as [q IH|q IH|]; cbn [pos_str str_forall];
    rewrite ?H0, ?H1, ?IH; done.
Qed.

Lemma show_printable e : str_forall printable (show e) = true.
Proof.
  unfold show. cbn [str_forall]. rewrite str_forall_app, (digits_imply printable _ eq_refl eq_refl e eq_refl).
  done.
Qed.

Lemma parse_event_eq s :
  parse_event s =
    (e ← parse_bits (String.substring 1 (String.length s - 2) s);
     if bool_decide (show e = s) then Some e else None).
Proof. done. Qed.

Lemma show_parse e : parse_event (show e) = Some e.
Proof.
  rewrite parse_event_eq.
  assert (String.substring 1 (String.length (show e) - 2) (show e) = print_bits e) as ->.
  { unfold show. cbn [String.length].
    assert (∀ s, String.length (s +:+ String unbrace EmptyString) = S (String.length s)) as Hl.
    { induction s as [|c s IH]; [done|]. rewrite app_string_cons. simpl. by rewrite IH. }
    rewrite Hl. replace (S (S _) - 2)%nat with (String.length (print_bits e)) by lia.
    cbn [String.substring]. rewrite substring_app_le by done.
    induction (print_bits e) as [|c s IH]; [done|]. simpl. by rewrite IH. }
  rewrite parse_print_bits. simpl. by rewrite bool_decide_eq_true_2.
Qed.

Lemma show_no_brace e s : show e = String brace s → contains_char brace s = false.
Proof.
  unfold show. intros [= <-]. unfold contains_char, str_exists.
  rewrite str_forall_app, (digits_imply _ _ eq_refl eq_refl e eq_refl). done.
Qed.

#[export] Instance codec_laws : EventCodecLaws.
Proof.
  constructor.
  - intros e. exists (show e). pose proof (show_printable e) as Hp. split; [done|].
    split; [apply show_parse|]. split; [|split; [by apply printable_lossy|]].
    + unfold contains_char, str_exists, show. cbn [str_forall].
      by rewrite str_forall_app, (digits_imply _ _ eq_refl eq_refl e eq_refl).
    + split; [by apply printable_trim|done].
  - intros e e' l l' p q [= <-] [= <-] Hq Hne.
    pose proof (show_printable e) as Hpe. rewrite Hq, str_forall_app in Hpe.
    apply andb_true_iff in Hpe as [Hpp _].
    assert (str_forall printable (p +:+ show e') = true) as Hpr
      by (by rewrite str_forall_app, Hpp, show_printable).
    rewrite printable_lossy by done. unfold read_line. rewrite printable_trim by done.
    destruct p as [|c p]; [done|]. rewrite app_string_cons. cbn [str_is_empty].
    rewrite parse_event_eq. destruct (parse_bits _) as [e0|]; simpl; [|done].
    case_bool_decide as He0; [|done].
    assert (c = brace) as -> by (unfold show in Hq; by injection Hq).
    apply show_no_brace in He0. rewrite contains_char_app in He0.
    by apply orb_false_iff in He0 as [_ ?].
Qed.

Definition ev (n : N) : AuditEvent := event_now n "acme" Charge.
Definition sink : FileAuditSink := mkFileSink (Some EmptyString) [Some (WroteOnly 5)].
End AuditWitness.

Section witness.
Import AuditWitness.

Lemma audit_log_reads_back_witness :
  read_all "no log" (foldl (λ k e, as_record e k) (as_record (ev 1) sink) [ev 2; ev 3]) = Ok [ev 3].
Proof.
  refine (proj2 (proj2 (audit_log_reads_back "no log" sink EmptyString [] eq_refl (or_introl eq_refl)
    eq_refl) (ev 1) (show (ev 1)) 5 (ev 2) [ev 3] eq_refl _ eq_refl)).
  split; [lia|]. apply Nat.leb_le. vm_compute. reflexivity.
Defined.
End witness.
