(* ===== verification/Vault.v ===== *)
(** * Vault: [celvault] volumes and snapshots

    The records of crates/celvault/src/lib.rs, the [VolumeStore] trait as a
    class of operations, its default methods, and the in-memory store
    [MemVolumeStore].  A volume id is the string ["<owner>/v<n>"], a snapshot
    id ["<volume>@s<n>"]; bodies are lists of bytes. *)
From S2P Require Import Prelude.
From S2P Require Import Text.
From S2P Require Import Errors.
From S2P Require Import Maps.
From Stdlib Require Import Strings.Byte.

Abbreviation bytes := (list byte).
#[export] Instance byte_eq_dec : EqDecision byte := Byte.byte_eq_dec.

Abbreviation VolumeId := string (only parsing).
Abbreviation SnapshotId := string (only parsing).

(** [SnapshotId::split]: cut at the first ['@'], then ["s<n>"]. *)
Definition snapshot_split (id : SnapshotId) : option (VolumeId * N) :=
  '(vol, tail) ← split_once "@" id;
  digits ← strip_prefix "s" tail;
  n ← parse_uint 64 digits;
  Some (vol, n).

Record VolumeMeta := mkVolumeMeta {
  vol_id : VolumeId;
  vol_owner : string;
  vol_name : string;
  vol_size : N      (** [size_bytes], u64 *)
}.

Record SnapshotMeta := mkSnapshotMeta {
  snap_id : SnapshotId;
  snap_volume : VolumeId;
  snap_name : string;
  snap_size : N
}.

Record VolumeAttachment := mkAttachment {
  att_volume_id : VolumeId;
  att_mount_name : string
}.

#[export] Instance VolumeMeta_eq_dec : EqDecision VolumeMeta.
Proof. solve_decision. Defined.
#[export] Instance SnapshotMeta_eq_dec : EqDecision SnapshotMeta.
Proof. solve_decision. Defined.
#[export] Instance VolumeAttachment_eq_dec : EqDecision VolumeAttachment.
Proof. solve_decision. Defined.

Definition VAULT_MAX_NAME : N := 64.
Definition MAX_MOUNT : N := 32.
Definition MAX_VOLUME_BYTES : N := 64 * 1024 * 1024.

Record VolumeStats := mkVolumeStats {
  stats_id : VolumeId;
  stats_size_bytes : N;
  stats_snapshot_count : N;         (** u32 *)
  stats_total_snapshot_bytes : N    (** u64 *)
}.

Record IntegrityReport := mkIntegrityReport {
  volumes_checked : N;
  snapshots_checked : N;
  report_errors : list string
}.
Definition report_default : IntegrityReport := mkIntegrityReport 0 0 [].
Definition is_clean (r : IntegrityReport) : bool :=
  match report_errors r with [] => true | _ => false end.

(** The [VolumeStore] trait: the methods without a default body.  Reads and
    lists do not change the store; the others are [st] computations. *)
Class VolumeStore (V : Type) := {
  vs_create : string → string → N → st V CelError VolumeMeta;
  vs_delete : VolumeId → st V CelError unit;
  vs_list : V → list VolumeMeta;
  vs_get : V → VolumeId → option VolumeMeta;
  vs_read : V → VolumeId → N → N → CelResult bytes;
  vs_write : VolumeId → N → bytes → st V CelError unit;
  vs_create_snapshot : VolumeId → string → st V CelError SnapshotMeta;
  vs_list_snapshots : V → option VolumeId → list SnapshotMeta;
  vs_delete_snapshot : SnapshotId → st V CelError unit;
  vs_restore_snapshot : SnapshotId → st V CelError unit
}.

(** ** Byte ranges of a body *)
Definition blen (b : bytes) : N := N.of_nat (length b).

Definition slice (b : bytes) (off end_ : N) : bytes :=
  take (N.to_nat (end_ - off)) (drop (N.to_nat off) b).

(** [body[off..end].copy_from_slice(data)]. *)
Definition overwrite (b : bytes) (off : N) (data : bytes) : bytes :=
  take (N.to_nat off) b ++ data ++ drop (N.to_nat off + length data) b.

(** ** Default methods of the trait *)
Section defaults.
Context {V : Type} `{VolumeStore V}.

(** [VolumeStore::stats]. *)
Definition stats (v : V) (id : VolumeId) : CelResult VolumeStats :=
  meta ← ok_or (vs_get v id) (Invalid "stats: unknown volume");
  let snaps := vs_list_snapshots v (Some id) in
  let total := foldl (λ acc s, saturating_add 64 acc (snap_size s)) 0%N snaps in
  let count := default u32_max (checked 32 (N.of_nat (length snaps))) in
  Ok (mkVolumeStats (vol_id meta) (vol_size meta) count total).

(** One volume of the first loop of [integrity_check]: read its last byte. *)
Definition check_volume (v : V) (rep : IntegrityReport) (m : VolumeMeta) : IntegrityReport :=
  let checked' := saturating_add 32 (volumes_checked rep) 1 in
  let errs :=
    if (0 <? vol_size m)%N then
      match vs_read v (vol_id m) (vol_size m - 1) 1 with
      | Ok _ => []
      | Err e => ["volume " +:+ vol_id m +:+ ": " +:+ display_error e]
      end
    else [] in
  mkIntegrityReport checked' (snapshots_checked rep) (report_errors rep ++ errs).

(** One snapshot of the second loop: compare sizes with the parent volume. *)
Definition check_snapshot (v : V) (rep : IntegrityReport) (s : SnapshotMeta) : IntegrityReport :=
  let checked' := saturating_add 32 (snapshots_checked rep) 1 in
  let errs :=
    match vs_get v (snap_volume s) with
    | None => ["snapshot " +:+ snap_id s +:+ ": parent volume " +:+ snap_volume s +:+ " missing"]
    | Some parent =>
        if (vol_size parent =? snap_size s)%N then []
        else ["snapshot " +:+ snap_id s +:+ ": size " +:+ fmt_u (snap_size s) +:+ " != parent "
              +:+ snap_volume s +:+ " (" +:+ fmt_u (vol_size parent) +:+ ")"]
    end in
  mkIntegrityReport (volumes_checked rep) checked' (report_errors rep ++ errs).

(** [VolumeStore::integrity_check]. *)
Definition integrity_check (v : V) : CelResult IntegrityReport :=
  let rep := foldl (check_volume v) report_default (vs_list v) in
  Ok (foldl (check_snapshot v) rep (vs_list_snapshots v None)).
End defaults.

(** ** Abstract specification of a volume store

    The contract of the trait's documentation, independent of how ids are
    minted: the state is the volumes and the snapshots with their bodies, and
    [vault_spec c r a a'] says that call [c] may return [r] and move the state
    from [a] to [a'].  A failing call must be justified by [vault_error] and
    changes nothing. *)
Inductive vcall :=
| VCreate (owner name : string) (size : N)
| VDelete (id : VolumeId)
| VWrite (id : VolumeId) (offset : N) (data : bytes)
| VCreateSnapshot (id : VolumeId) (name : string)
| VDeleteSnapshot (id : SnapshotId)
| VRestoreSnapshot (id : SnapshotId).

Inductive vreply :=
| RVolume (m : VolumeMeta)
| RSnapshot (m : SnapshotMeta)
| RUnit.

Definition vexec {V} `{VolumeStore V} (c : vcall) : st V CelError vreply :=
  match c with
  | VCreate o n s => m ← vs_create o n s; mret (RVolume m)
  | VDelete id => _ ← vs_delete id; mret RUnit
  | VWrite id off d => _ ← vs_write id off d; mret RUnit
  | VCreateSnapshot id n => m ← vs_create_snapshot id n; mret (RSnapshot m)
  | VDeleteSnapshot id => _ ← vs_delete_snapshot id; mret RUnit
  | VRestoreSnapshot id => _ ← vs_restore_snapshot id; mret RUnit
  end.

Record AVault := mkAVault {
  av_vols : gmap VolumeId (VolumeMeta * bytes);
  av_snaps : gmap SnapshotId (SnapshotMeta * bytes)
}.

Definition name_ok (n : string) : Prop := n ≠ EmptyString ∧ (len n ≤ VAULT_MAX_NAME)%N.

(** When a call may be refused. *)
Definition vault_error (a : AVault) (c : vcall) : Prop :=
  match c with
  | VCreate _ n s => ¬ (name_ok n ∧ (0 < s)%N ∧ (s ≤ MAX_VOLUME_BYTES)%N)
  | VDelete _ => False
  | VWrite id off d =>
      ∀ m b, av_vols a !! id = Some (m, b) → (blen b < off + blen d)%N
  | VCreateSnapshot id n => ¬ (name_ok n ∧ is_Some (av_vols a !! id))
  | VDeleteSnapshot _ => False
  | VRestoreSnapshot id =>
      ∀ s sb m b, av_snaps a !! id = Some (s, sb) →
        av_vols a !! snap_volume s = Some (m, b) → length sb ≠ length b
  end.

Inductive vault_spec : vcall → result CelError vreply → AVault → AVault → Prop :=
| spec_create o n s m a :
    av_vols a !! vol_id m = None →
    vol_owner m = o → vol_name m = n → vol_size m = s → (0 < s ≤ MAX_VOLUME_BYTES)%N →
    vault_spec (VCreate o n s) (Ok (RVolume m)) a
      (mkAVault (<[vol_id m := (m, replicate (N.to_nat s) x00)]> (av_vols a)) (av_snaps a))
| spec_delete id a :
    vault_spec (VDelete id) (Ok RUnit) a
      (mkAVault (delete id (av_vols a))
         (map_retain (λ _ s, negb (bool_decide (snap_volume s.1 = id))) (av_snaps a)))
| spec_write id off d m b a :
    av_vols a !! id = Some (m, b) → (off + blen d ≤ blen b)%N →
    vault_spec (VWrite id off d) (Ok RUnit) a
      (mkAVault (<[id := (m, overwrite b off d)]> (av_vols a)) (av_snaps a))
| spec_snapshot id n m b s a :
    av_vols a !! id = Some (m, b) → av_snaps a !! snap_id s = None →
    snap_volume s = id → snap_name s = n → snap_size s = blen b →
    vault_spec (VCreateSnapshot id n) (Ok (RSnapshot s)) a
      (mkAVault (av_vols a) (<[snap_id s := (s, b)]> (av_snaps a)))
| spec_delete_snapshot id a :
    vault_spec (VDeleteSnapshot id) (Ok RUnit) a (mkAVault (av_vols a) (delete id (av_snaps a)))
| spec_restore id s sb m b a :
    av_snaps a !! id = Some (s, sb) → av_vols a !! snap_volume s = Some (m, b) →
    length sb = length b →
    vault_spec (VRestoreSnapshot id) (Ok RUnit) a
      (mkAVault (<[snap_volume s := (m, sb)]> (av_vols a)) (av_snaps a))
| spec_error c e a : vault_error a c → vault_spec c (Err e) a a.

(** Owners whose ids the stores can take apart again: none of the characters
    the id syntax and the on-disk names give a meaning to. *)
Definition owner_ok (o : string) : Prop :=
  contains_char "@" o = false ∧ contains_char "/" o = false ∧
  contains_char ":" o = false ∧ contains_char backslash o = false.

Definition vcall_ok (c : vcall) : Prop :=
  match c with VCreate o _ _ => owner_ok o | _ => True end.

(** What a client may rely on: an abstraction, an invariant and room in the id
    counters under which every call refines [vault_spec]. *)
Class VolumeStoreLaws (V : Type) `{VolumeStore V} := {
  vs_inv : V → Prop;
  vs_room : V → Prop;
  vs_abs : V → AVault;
  law_get v id : vs_inv v → vs_get v id = fst <$> av_vols (vs_abs v) !! id;
  law_read v id m b off n : vs_inv v → av_vols (vs_abs v) !! id = Some (m, b) →
    (off + n ≤ blen b)%N → vs_read v id off n = Ok (slice b off (off + n));
  law_refines c v : vs_inv v → vs_room v → vcall_ok c →
    vault_spec c (vexec c v).1 (vs_abs v) (vs_abs (vexec c v).2);
  law_inv c v : vs_inv v → vs_room v → vcall_ok c → vs_inv (vexec c v).2
}.

(** ** [MemVolumeStore] *)
Module MemVolumeStore.

Record MemVolume := mkMemVolume { mv_meta : VolumeMeta; mv_body : bytes }.
Record MemSnapshot := mkMemSnapshot { ms_meta : SnapshotMeta; ms_body : bytes }.

Record MemInner := mkMemInner {
  next : N;
  rows : gmap VolumeId MemVolume;
  next_snap : gmap VolumeId N;
  snaps : gmap SnapshotId MemSnapshot
}.

Abbreviation M := (st MemInner CelError).

Definition new : MemInner := mkMemInner 0 ∅ ∅ ∅.

Definition set_next (n : N) (g : MemInner) : MemInner :=
  mkMemInner n (rows g) (next_snap g) (snaps g).
Definition set_rows (r : gmap VolumeId MemVolume) (g : MemInner) : MemInner :=
  mkMemInner (next g) r (next_snap g) (snaps g).
Definition set_next_snap (r : gmap VolumeId N) (g : MemInner) : MemInner :=
  mkMemInner (next g) (rows g) r (snaps g).
Definition set_snaps (r : gmap SnapshotId MemSnapshot) (g : MemInner) : MemInner :=
  mkMemInner (next g) (rows g) (next_snap g) r.

Definition validate_name (name : string) : CelResult unit :=
  if str_is_empty name then Err (Invalid "volume name: empty")
  else if (VAULT_MAX_NAME <? len name)%N then Err (Invalid "volume name: too long")
  else Ok tt.

(** [format!("{owner}/v{n}")] and [format!("{id}@s{n}")]. *)
Definition volume_id (owner : string) (n : N) : VolumeId := owner +:+ "/v" +:+ fmt_u n.
Definition snapshot_id (id : VolumeId) (n : N) : SnapshotId := id +:+ "@s" +:+ fmt_u n.

Definition create (owner name : string) (size_bytes : N) : M VolumeMeta :=
  _ ← try (validate_name name);
  _ ← bail_if (size_bytes =? 0)%N (Invalid "volume size: must be > 0");
  _ ← bail_if (MAX_VOLUME_BYTES <? size_bytes)%N
        (Invalid "volume size: exceeds MAX_VOLUME_BYTES");
  _ ← modify (λ g, set_next (saturating_add 64 (next g) 1) g);
  g ← get_st;
  let id := volume_id owner (next g) in
  let meta := mkVolumeMeta id owner name size_bytes in
  let body := replicate (N.to_nat size_bytes) x00 in
  _ ← modify (λ g, set_rows (<[id := mkMemVolume meta body]> (rows g)) g);
  mret meta.

Definition delete_volume (id : VolumeId) : M unit :=
  _ ← modify (λ g, set_rows (delete id (rows g)) g);
  _ ← modify (λ g, set_next_snap (delete id (next_snap g)) g);
  modify (λ g, set_snaps
    (map_retain (λ _ s, negb (bool_decide (snap_volume (ms_meta s) = id))) (snaps g)) g).

Definition list_volumes (g : MemInner) : list VolumeMeta :=
  mv_meta <$> str_btree_values (rows g).

Definition get (g : MemInner) (id : VolumeId) : option VolumeMeta :=
  mv_meta <$> rows g !! id.

(** The bounds check shared in shape by [read] and [write]: the slice
    [off .. off + len] of a body of [blen] bytes. *)
Definition range (overflow past_end : string) (blen offset n : N) : CelResult (N * N) :=
  off ← ok_or (checked 64 offset) (Invalid "volume: offset overflow");
  end_ ← ok_or (checked_add 64 off n) (Invalid overflow);
  if (blen <? end_)%N then Err (Invalid past_end) else Ok (off, end_).

Definition read (g : MemInner) (id : VolumeId) (offset n : N) : CelResult bytes :=
  v ← ok_or (rows g !! id) (Invalid "volume: unknown id");
  '(off, end_) ← range "volume: read range overflow" "volume: read past end"
                   (blen (mv_body v)) offset n;
  Ok (slice (mv_body v) off end_).

Definition write (id : VolumeId) (offset : N) (data : bytes) : M unit :=
  g ← get_st;
  v ← try (ok_or (rows g !! id) (Invalid "volume: unknown id"));
  '(off, _) ← try (range "volume: write range overflow" "volume: write past end"
                     (blen (mv_body v)) offset (blen data));
  let v' := mkMemVolume (mv_meta v) (overwrite (mv_body v) off data) in
  modify (λ g, set_rows (<[id := v']> (rows g)) g).

Definition create_snapshot (id : VolumeId) (name : string) : M SnapshotMeta :=
  _ ← try (validate_name name);
  g ← get_st;
  v ← try (ok_or (rows g !! id) (Invalid "snapshot: unknown volume"));
  let body := mv_body v in
  let counter := saturating_add 64 (default 0%N (next_snap g !! id)) 1 in
  _ ← modify (λ g, set_next_snap (<[id := counter]> (next_snap g)) g);
  let sid := snapshot_id id counter in
  let meta := mkSnapshotMeta sid id name (blen body) in
  _ ← modify (λ g, set_snaps (<[sid := mkMemSnapshot meta body]> (snaps g)) g);
  mret meta.

Definition list_snapshots (g : MemInner) (volume : option VolumeId) : list SnapshotMeta :=
  retain (λ s, match volume with None => true | Some v => bool_decide (snap_volume s = v) end)
    (ms_meta <$> str_btree_values (snaps g)).

Definition delete_snapshot (id : SnapshotId) : M unit :=
  modify (λ g, set_snaps (delete id (snaps g)) g).

Definition restore_snapshot (id : SnapshotId) : M unit :=
  g ← get_st;
  s ← try (ok_or (snaps g !! id) (Invalid "restore: unknown snapshot"));
  let body := ms_body s in
  '(vol, _) ← try (ok_or (snapshot_split id) (Invalid "restore: malformed snapshot id"));
  v ← try (ok_or (rows g !! vol) (Invalid "restore: volume gone"));
  _ ← bail_if (negb (length (mv_body v) =? length body)) (Invalid "restore: volume size changed");
  modify (λ g, set_rows (<[vol := mkMemVolume (mv_meta v) body]> (rows g)) g).

#[export] Instance store : VolumeStore MemInner := {|
  vs_create := create;
  vs_delete := delete_volume;
  vs_list := list_volumes;
  vs_get := get;
  vs_read := read;
  vs_write := write;
  vs_create_snapshot := create_snapshot;
  vs_list_snapshots := list_snapshots;
  vs_delete_snapshot := delete_snapshot;
  vs_restore_snapshot := restore_snapshot
|}.

End MemVolumeStore.
