(* ===== verification/VaultProofs.v ===== *)
(** * VaultProofs: the in-memory volume store refines the vault contract

    The invariant of [MemVolumeStore], the refinement of [vault_spec] by every
    call, the interface instance, and the results about snapshots and reads
    that hold of every store behind the interface. *)
From S2P Require Import Prelude.
From S2P Require Import Text.
From S2P Require Import Errors.
From S2P Require Import Maps.
From S2P Require Import Vault.
From Stdlib Require Import Strings.Byte.

(** ** Bytes *)
Lemma blen_replicate n x : blen (replicate (N.to_nat n) x) = n.
Proof. unfold blen. rewrite length_replicate. lia. Qed.

Lemma overwrite_length b off d :
  (off + blen d ≤ blen b)%N → length (overwrite b off d) = length b.
Proof.
  unfold overwrite, blen. intros. rewrite !length_app, length_take, length_drop. lia.
Qed.

Lemma overwrite_slice_same b off d :
  (off + blen d ≤ blen b)%N → slice (overwrite b off d) off (off + blen d) = d.
Proof.
  unfold overwrite, slice, blen. intros.
  rewrite drop_app_length'; [|rewrite length_take; lia].
  rewrite take_app_length'; [done|lia].
Qed.

Lemma slice_lookup b off end_ i :
  slice b off end_ !! i =
  if decide (i < N.to_nat (end_ - off)) then b !! (N.to_nat off + i) else None.
Proof.
  unfold slice. case_decide.
  - by rewrite lookup_take_lt, lookup_drop by lia.
  - by rewrite lookup_take_ge by lia.
Qed.

Lemma overwrite_lookup_out b off d i :
  (off + blen d ≤ blen b)%N → (N.of_nat i < off ∨ off + blen d ≤ N.of_nat i)%N →
  overwrite b off d !! i = b !! i.
Proof.
  unfold overwrite, blen. intros Hb [Hi|Hi].
  - rewrite lookup_app_l by (rewrite length_take; lia). apply lookup_take_lt. lia.
  - rewrite lookup_app_r by (rewrite length_take; lia).
    rewrite lookup_app_r by (rewrite length_take; lia).
    rewrite lookup_drop, length_take. f_equal. lia.
Qed.

Lemma overwrite_slice_disjoint b off d p q :
  (off + blen d ≤ blen b)%N → (q ≤ off ∨ off + blen d ≤ p)%N →
  slice (overwrite b off d) p q = slice b p q.
Proof.
  intros Hb Hd. apply list_eq. intros i. rewrite !slice_lookup. case_decide; [|done].
  apply overwrite_lookup_out; [done|]. lia.
Qed.

(** ** Identifiers *)
Lemma snapshot_id_split id k :
  contains_char "@" id = false → fits 64 k →
  snapshot_split (MemVolumeStore.snapshot_id id k) = Some (id, k).
Proof.
  intros Hid Hk. unfold snapshot_split, MemVolumeStore.snapshot_id.
  change (id +:+ "@s" +:+ fmt_u k) with (id +:+ String "@" ("s" +:+ fmt_u k)).
  rewrite split_once_app by done. cbn [mbind option_bind].
  rewrite strip_prefix_app. cbn [mbind option_bind].
  by rewrite parse_uint_fmt_u.
Qed.

Lemma snapshot_id_inj id1 k1 id2 k2 :
  MemVolumeStore.snapshot_id id1 k1 = MemVolumeStore.snapshot_id id2 k2 → id1 = id2 ∧ k1 = k2.
Proof.
  unfold MemVolumeStore.snapshot_id. intros Heq.
  assert (∀ k, contains_char "@" ("s" +:+ fmt_u k) = false) as Hno.
  { intros k. by rewrite contains_char_app, fmt_u_no_char. }
  apply (app_last_sep_inj "@") in Heq as [-> Hs]; [|apply Hno..].
  split; [done|]. injection Hs as Hs. by apply fmt_u_inj.
Qed.

Lemma volume_id_inj o1 n1 o2 n2 :
  MemVolumeStore.volume_id o1 n1 = MemVolumeStore.volume_id o2 n2 → o1 = o2 ∧ n1 = n2.
Proof.
  unfold MemVolumeStore.volume_id. intros Heq.
  assert (∀ k, contains_char "/" ("v" +:+ fmt_u k) = false) as Hno.
  { intros k. by rewrite contains_char_app, fmt_u_no_char. }
  apply (app_last_sep_inj "/") in Heq as [-> Hs]; [|apply Hno..].
  split; [done|]. injection Hs as Hs. by apply fmt_u_inj.
Qed.

Lemma volume_id_no_at o n :
  contains_char "@" o = false → contains_char "@" (MemVolumeStore.volume_id o n) = false.
Proof.
  intros Ho. unfold MemVolumeStore.volume_id. rewrite !contains_char_app, Ho.
  by rewrite fmt_u_no_char.
Qed.

Lemma validate_name_Ok n : MemVolumeStore.validate_name n = Ok tt ↔ name_ok n.
Proof.
  unfold MemVolumeStore.validate_name, name_ok. destruct n as [|c n]; simpl.
  - split; [done|by intros []].
  - case_match eqn:E.
    + apply N.ltb_lt in E. split; [done|]. intros [_ ?]. lia.
    + apply N.ltb_ge in E. done.
Qed.

Lemma validate_name_cases n :
  (MemVolumeStore.validate_name n = Ok tt ∧ name_ok n) ∨
  (∃ e, MemVolumeStore.validate_name n = Err e ∧ ¬ name_ok n).
Proof.
  destruct (MemVolumeStore.validate_name n) as [[]|e] eqn:E.
  - left. by rewrite <-validate_name_Ok.
  - right. exists e. split; [done|]. by rewrite <-validate_name_Ok, E.
Qed.

(** ** The invariant *)
Module MemVaultInv.
Import MemVolumeStore.

Definition row_ok (g : MemInner) (id : VolumeId) (v : MemVolume) : Prop :=
  vol_id (mv_meta v) = id ∧ blen (mv_body v) = vol_size (mv_meta v) ∧
  (vol_size (mv_meta v) ≤ MAX_VOLUME_BYTES)%N ∧ contains_char "@" id = false ∧
  ∃ o n, id = volume_id o n ∧ (n ≤ next g)%N.

Definition snap_ok (g : MemInner) (sid : SnapshotId) (s : MemSnapshot) : Prop :=
  snap_id (ms_meta s) = sid ∧ snap_size (ms_meta s) = blen (ms_body s) ∧
  contains_char "@" (snap_volume (ms_meta s)) = false ∧
  (∃ k, sid = snapshot_id (snap_volume (ms_meta s)) k ∧
        (k ≤ default 0 (next_snap g !! snap_volume (ms_meta s)))%N ∧ fits 64 k) ∧
  ∃ v, rows g !! snap_volume (ms_meta s) = Some v ∧ length (mv_body v) = length (ms_body s).

Definition inv (g : MemInner) : Prop :=
  map_Forall (row_ok g) (rows g) ∧ map_Forall (snap_ok g) (snaps g).

Definition room (g : MemInner) : Prop :=
  (next g < u64_max)%N ∧ map_Forall (λ _ n, (n < u64_max)%N) (next_snap g).

Definition abs (g : MemInner) : AVault :=
  mkAVault ((λ v, (mv_meta v, mv_body v)) <$> rows g) ((λ s, (ms_meta s, ms_body s)) <$> snaps g).

Lemma inv_new : inv new.
Proof. split; apply map_Forall_empty. Qed.

Lemma succ_exact n : (n < u64_max)%N → saturating_add 64 n 1 = (n + 1)%N.
Proof. intros. apply saturating_add_exact, fits_umax. lia. Qed.

Lemma fresh_volume_id g o : inv g → room g → rows g !! volume_id o (next g + 1) = None.
Proof.
  intros [Hr _] _. destruct (rows g !! _) as [v|] eqn:E; [|done].
  destruct (Hr _ _ E) as (_&_&_&_&o'&n&[_ Hn]%volume_id_inj&?). lia.
Qed.

Lemma fresh_snapshot_id g id :
  inv g → snaps g !! snapshot_id id (default 0%N (next_snap g !! id) + 1) = None.
Proof.
  intros [_ Hs]. destruct (snaps g !! _) as [s|] eqn:E; [|done].
  destruct (Hs _ _ E) as (_&_&_&(k&[Hv <-]%snapshot_id_inj&Hk&_)&_).
  rewrite <-Hv in Hk. lia.
Qed.

Lemma room_succ g id : room g → (default 0 (next_snap g !! id) < u64_max)%N.
Proof.
  intros [_ Hr]. destruct (next_snap g !! id) as [n|] eqn:E; simpl; [by apply (Hr id)|].
  by vm_compute.
Qed.

(** The bounds check succeeds exactly on ranges inside the body. *)
Lemma range_spec ov pe l off n :
  (l ≤ MAX_VOLUME_BYTES)%N →
  (∃ e, range ov pe l off n = Err e ∧ (l < off + n)%N) ∨
  (range ov pe l off n = Ok (off, (off + n)%N) ∧ (off + n ≤ l)%N).
Proof.
  intros Hl. unfold range, checked_add.
  assert (MAX_VOLUME_BYTES < 2 ^ 64)%N by (by vm_compute).
  destruct (checked 64 off) as [o|] eqn:Eo; cbn [ok_or mbind result_bind].
  - apply checked_Some in Eo as [-> Hfo].
    destruct (checked 64 (off + n)) as [e|] eqn:Ee; cbn [ok_or mbind result_bind].
    + apply checked_Some in Ee as [-> _]. destruct (N.ltb_spec l (off + n)); [left|right]; eauto.
    + left. eexists. split; [done|]. unfold checked in Ee. case_match eqn:E; [done|].
      apply N.ltb_ge in E. lia.
  - left. eexists. split; [done|]. unfold checked in Eo. case_match eqn:E; [done|].
    apply N.ltb_ge in E. lia.
Qed.

(** *** The calls, one by one: outcome on both branches *)
Lemma create_spec o n s g :
  inv g → room g →
  (∃ e, create o n s g = (Err e, g) ∧ ¬ (name_ok n ∧ (0 < s)%N ∧ (s ≤ MAX_VOLUME_BYTES)%N)) ∨
  (name_ok n ∧ (0 < s ≤ MAX_VOLUME_BYTES)%N ∧
   let id := volume_id o (next g + 1) in
   let m := mkVolumeMeta id o n s in
   create o n s g =
     (Ok m, set_rows (<[id := mkMemVolume m (replicate (N.to_nat s) x00)]> (rows g))
              (set_next (next g + 1) g))).
Proof.
  intros _ [Hn _]. unfold create. st_unfold.
  destruct (validate_name_cases n) as [[-> Hok]|(e&->&Hno)].
  - destruct (N.eqb_spec s 0); [left; eexists; split; [done|lia]|].
    destruct (N.ltb_spec MAX_VOLUME_BYTES s); [left; eexists; split; [done|lia]|].
    right. rewrite succ_exact by done. split_and!; [apply Hok..|lia|lia|done].
  - left. eexists. split; [done|tauto].
Qed.

Lemma write_spec id off d g :
  inv g →
  (∃ e, write id off d g = (Err e, g) ∧
        ∀ v, rows g !! id = Some v → (blen (mv_body v) < off + blen d)%N) ∨
  (∃ v, rows g !! id = Some v ∧ (off + blen d ≤ blen (mv_body v))%N ∧
        write id off d g =
          (Ok tt, set_rows (<[id := mkMemVolume (mv_meta v) (overwrite (mv_body v) off d)]> (rows g)) g)).
Proof.
  intros [Hr _]. unfold write. st_unfold.
  destruct (rows g !! id) as [v|] eqn:E; [|left; eexists; split; [done|congruence]].
  destruct (Hr _ _ E) as (_&Hb&Hmax&_&_).
  destruct (range_spec "volume: write range overflow" "volume: write past end"
              (blen (mv_body v)) off (blen d)) as [(e&->&?)|[-> ?]]; [lia|left|right].
  - eexists. split; [done|]. intros v' ?. by simplify_eq.
  - by exists v.
Qed.

Lemma create_snapshot_spec id n g :
  inv g → room g →
  (∃ e, create_snapshot id n g = (Err e, g) ∧ ¬ (name_ok n ∧ is_Some (rows g !! id))) ∨
  (∃ v, name_ok n ∧ rows g !! id = Some v ∧
   let k := (default 0 (next_snap g !! id) + 1)%N in
   let m := mkSnapshotMeta (snapshot_id id k) id n (blen (mv_body v)) in
   create_snapshot id n g =
     (Ok m, set_snaps (<[snapshot_id id k := mkMemSnapshot m (mv_body v)]> (snaps g))
              (set_next_snap (<[id := k]> (next_snap g)) g))).
Proof.
  intros _ Hroom. unfold create_snapshot. st_unfold.
  destruct (validate_name_cases n) as [[-> Hok]|(e&->&Hno)].
  - destruct (rows g !! id) as [v|] eqn:E.
    + right. exists v. rewrite succ_exact by by apply room_succ.
      split_and!; [apply Hok..|done|done].
    + left. eexists. split; [done|]. by intros [_ [? ?]].
  - left. eexists. split; [done|tauto].
Qed.

Lemma restore_snapshot_spec sid g :
  inv g →
  (∃ e, restore_snapshot sid g = (Err e, g) ∧ snaps g !! sid = None) ∨
  (∃ s v, snaps g !! sid = Some s ∧ rows g !! snap_volume (ms_meta s) = Some v ∧
          length (mv_body v) = length (ms_body s) ∧
          restore_snapshot sid g =
            (Ok tt, set_rows (<[snap_volume (ms_meta s) := mkMemVolume (mv_meta v) (ms_body s)]>
                                (rows g)) g)).
Proof.
  intros [_ Hs]. unfold restore_snapshot. st_unfold.
  destruct (snaps g !! sid) as [s|] eqn:E; [|left; by eexists].
  destruct (Hs _ _ E) as (_&_&Hat&(k&->&_&Hk)&v&Hv&Hlen).
  right. exists s, v. rewrite snapshot_id_split by done. simpl.
  rewrite Hv, Hlen, Nat.eqb_refl. done.
Qed.

(** *** Preservation *)
Lemma row_ok_next g n id v : (next g ≤ n)%N → row_ok g id v → row_ok (set_next n g) id v.
Proof. intros ? (?&?&?&?&o&k&?&?). split_and!; try done. exists o, k. simpl. split; [done|lia]. Qed.

Lemma inv_set_row g id v v' :
  inv g → rows g !! id = Some v → mv_meta v' = mv_meta v →
  length (mv_body v') = length (mv_body v) → inv (set_rows (<[id := v']> (rows g)) g).
Proof.
  intros [Hr Hs] Hid Hm Hl. split; simpl.
  - apply map_Forall_insert_2; [|done].
    destruct (Hr _ _ Hid) as (?&?&?&?&?). unfold row_ok, blen in *. rewrite Hm, Hl. done.
  - intros sid s Hsid. destruct (Hs _ _ Hsid) as (?&?&?&Hk&w&Hw&?).
    split_and!; [done..|exact Hk|]. simpl.
    destruct (decide (id = snap_volume (ms_meta s))) as [->|].
    + exists v'. rewrite lookup_insert_eq. simplify_eq. split; [done|lia].
    + exists w. by rewrite lookup_insert_ne.
Qed.

Lemma create_inv o n s g : inv g → room g → owner_ok o → inv (create o n s g).2.
Proof.
  intros Hinv Hroom Ho. pose proof (fresh_volume_id g o Hinv Hroom) as Hfresh.
  destruct (create_spec o n s g Hinv Hroom) as [(e&->&_)|(_&Hsz&->)]; [done|].
  destruct Hinv as [Hr Hs]. split; simpl.
  - apply map_Forall_insert_2.
    + split_and!; simpl; [done|apply blen_replicate|lia| |].
      * apply volume_id_no_at, Ho.
      * exists o, (next g + 1)%N. split; [done|simpl; lia].
    + intros id v Hv. destruct (Hr _ _ Hv) as (?&?&?&?&o'&k&?&?).
      split_and!; try done. exists o', k. simpl. split; [done|lia].
  - intros sid sn Hsid. destruct (Hs _ _ Hsid) as (?&?&?&Hk&w&Hw&?).
    split_and!; [done..|exact Hk|]. simpl. exists w.
    rewrite lookup_insert_ne; [done|congruence].
Qed.

Lemma delete_inv id g : inv g → inv (delete_volume id g).2.
Proof.
  intros [Hr Hs]. unfold delete_volume. st_unfold. split; simpl.
  - intros id' v [? Hv]%lookup_delete_Some. by apply Hr.
  - intros sid s [Hsid Hp]%map_retain_lookup. apply negb_true_iff, bool_decide_eq_false in Hp.
    destruct (Hs _ _ Hsid) as (?&?&?&(k&?&?&?)&w&?&?). split_and!; try done; simpl.
    + exists k. by rewrite lookup_delete_ne.
    + exists w. by rewrite lookup_delete_ne.
Qed.

Lemma create_snapshot_inv id n g : inv g → room g → inv (create_snapshot id n g).2.
Proof.
  intros Hinv Hroom. pose proof (room_succ g id Hroom) as Hk.
  destruct (create_snapshot_spec id n g Hinv Hroom) as [(e&->&_)|(v&_&Hv&->)]; [done|].
  destruct Hinv as [Hr Hs]. split; simpl; [exact Hr|].
  apply map_Forall_insert_2.
  - destruct (Hr _ _ Hv) as (_&_&_&Hat&_). split_and!; simpl; try done.
    + eexists. rewrite lookup_insert_eq. split_and!; [done|done|]. apply fits_umax. lia.
    + by exists v.
  - intros sid s Hsid. destruct (Hs _ _ Hsid) as (?&?&?&(k&?&Hle&?)&w&?&?).
    split_and!; try done; simpl; [|by exists w].
    exists k. split_and!; [done| |done]. rewrite lookup_insert.
    case_decide as Hd; [|done]. rewrite <-Hd in Hle. simpl. lia.
Qed.

Lemma delete_snapshot_inv sid g : inv g → inv (delete_snapshot sid g).2.
Proof. intros [Hr Hs]. split; simpl; [exact Hr|]. by apply map_Forall_delete. Qed.

Lemma write_inv id off d g : inv g → inv (write id off d g).2.
Proof.
  intros Hinv. destruct (write_spec id off d g Hinv) as [(e&->&_)|(v&Hv&Hb&->)]; [done|].
  eapply inv_set_row; [done..|]. by apply overwrite_length.
Qed.

Lemma restore_inv sid g : inv g → inv (restore_snapshot sid g).2.
Proof.
  intros Hinv.
  destruct (restore_snapshot_spec sid g Hinv) as [(e&->&_)|(s&v&_&Hv&Hl&->)]; [done|].
  by eapply inv_set_row.
Qed.

Lemma inv_vexec c g : inv g → room g → vcall_ok c → inv (vexec c g).2.
Proof.
  destruct c; simpl; intros Hi Hr Hc.
  - pose proof (create_inv owner name size g Hi Hr Hc). unfold vexec. st_unfold.
    by destruct (create _ _ _ _) as [[] ?].
  - by apply delete_inv.
  - pose proof (write_inv id offset data g Hi). unfold vexec. st_unfold.
    by destruct (write _ _ _ _) as [[] ?].
  - pose proof (create_snapshot_inv id name g Hi Hr). unfold vexec. st_unfold.
    by destruct (create_snapshot _ _ _) as [[] ?].
  - by apply delete_snapshot_inv.
  - pose proof (restore_inv id g Hi). unfold vexec. st_unfold.
    by destruct (restore_snapshot _ _) as [[] ?].
Qed.
End MemVaultInv.

(** ** Refinement *)
Module MemVaultRefines.
Import MemVolumeStore MemVaultInv.

Lemma abs_vol g id : av_vols (abs g) !! id = (λ v, (mv_meta v, mv_body v)) <$> rows g !! id.
Proof. apply lookup_fmap. Qed.
Lemma abs_snap g id : av_snaps (abs g) !! id = (λ s, (ms_meta s, ms_body s)) <$> snaps g !! id.
Proof. apply lookup_fmap. Qed.

Lemma abs_vol_Some g id m b :
  av_vols (abs g) !! id = Some (m, b) ↔ rows g !! id = Some (mkMemVolume m b).
Proof.
  rewrite abs_vol, fmap_Some. split.
  - intros ([m' b']&?&[= -> ->]). done.
  - intros ?. by eexists.
Qed.

Lemma abs_snap_Some g id m b :
  av_snaps (abs g) !! id = Some (m, b) ↔ snaps g !! id = Some (mkMemSnapshot m b).
Proof.
  rewrite abs_snap, fmap_Some. split.
  - intros ([m' b']&?&[= -> ->]). done.
  - intros ?. by eexists.
Qed.

Lemma abs_set_row g id m b n :
  abs (set_rows (<[id := mkMemVolume m b]> (rows g)) (set_next n g)) =
  mkAVault (<[id := (m, b)]> (av_vols (abs g))) (av_snaps (abs g)).
Proof. unfold abs. simpl. by rewrite fmap_insert. Qed.

Lemma abs_set_row' g id m b :
  abs (set_rows (<[id := mkMemVolume m b]> (rows g)) g) =
  mkAVault (<[id := (m, b)]> (av_vols (abs g))) (av_snaps (abs g)).
Proof. unfold abs. simpl. by rewrite fmap_insert. Qed.

Lemma fmap_map_retain {A B} (f : A → B) (p : B → bool) (m : gmap string A) :
  f <$> map_retain (λ _ x, p (f x)) m = map_retain (λ _ y, p y) (f <$> m).
Proof.
  apply map_eq. intros k. apply option_eq. intros y. rewrite lookup_fmap, map_retain_lookup.
  rewrite lookup_fmap, !fmap_Some. split.
  - intros (x&[? ?]%map_retain_lookup&->). eauto.
  - intros [(x&?&->) ?]. exists x. by rewrite map_retain_lookup.
Qed.

Lemma refine_create o n s g :
  inv g → room g → vault_spec (VCreate o n s) (vexec (VCreate o n s) g).1 (abs g)
                     (abs (vexec (VCreate o n s) g).2).
Proof.
  intros Hi Hr. unfold vexec. st_unfold.
  destruct (create_spec o n s g Hi Hr) as [(e&->&Hno)|(_&Hsz&->)]; simpl.
  - by apply spec_error.
  - rewrite abs_set_row. set (m := mkVolumeMeta _ o n s).
    apply (spec_create o n s m); try done.
    rewrite abs_vol. subst m. simpl. by rewrite fresh_volume_id.
Qed.

Lemma refine_delete id g :
  vault_spec (VDelete id) (vexec (VDelete id) g).1 (abs g) (abs (vexec (VDelete id) g).2).
Proof.
  unfold vexec, delete_volume. st_unfold.
  assert (∀ b c, abs (mkMemInner (next g) (delete id (rows g)) b c) =
    mkAVault (delete id (av_vols (abs g))) ((λ s, (ms_meta s, ms_body s)) <$> c)) as Heq.
  { intros. unfold abs. simpl. by rewrite fmap_delete. }
  unfold set_rows, set_next_snap, set_snaps. simpl. rewrite Heq.
  pose proof (fmap_map_retain (λ s, (ms_meta s, ms_body s))
                (λ s, negb (bool_decide (snap_volume s.1 = id))) (snaps g)) as Hf.
  simpl in Hf. rewrite Hf. apply spec_delete.
Qed.

Lemma refine_write id off d g :
  inv g → vault_spec (VWrite id off d) (vexec (VWrite id off d) g).1 (abs g)
            (abs (vexec (VWrite id off d) g).2).
Proof.
  intros Hi. unfold vexec. st_unfold.
  destruct (write_spec id off d g Hi) as [(e&->&He)|([m b]&Hv&Hb&->)]; simpl.
  - apply spec_error. intros m b Hv%abs_vol_Some. by apply (He _ Hv).
  - rewrite abs_set_row'. apply spec_write; [|done]. by apply abs_vol_Some.
Qed.

Lemma refine_create_snapshot id n g :
  inv g → room g →
  vault_spec (VCreateSnapshot id n) (vexec (VCreateSnapshot id n) g).1 (abs g)
    (abs (vexec (VCreateSnapshot id n) g).2).
Proof.
  intros Hi Hr. unfold vexec. st_unfold.
  destruct (create_snapshot_spec id n g Hi Hr) as [(e&->&Hno)|([m b]&_&Hv&->)]; simpl.
  - apply spec_error. unfold vault_error. by rewrite abs_vol, fmap_is_Some.
  - set (k := (default 0 (next_snap g !! id) + 1)%N).
    set (s := mkSnapshotMeta (snapshot_id id k) id n (blen b)).
    assert (abs (set_snaps (<[snapshot_id id k := mkMemSnapshot s b]> (snaps g))
             (set_next_snap (<[id := k]> (next_snap g)) g)) =
            mkAVault (av_vols (abs g)) (<[snap_id s := (s, b)]> (av_snaps (abs g)))) as ->.
    { unfold abs. simpl. by rewrite fmap_insert. }
    apply (spec_snapshot id n m b s); try done; [by apply abs_vol_Some|].
    rewrite abs_snap. subst s k. simpl. by rewrite fresh_snapshot_id.
Qed.

Lemma refine_restore sid g :
  inv g → vault_spec (VRestoreSnapshot sid) (vexec (VRestoreSnapshot sid) g).1 (abs g)
            (abs (vexec (VRestoreSnapshot sid) g).2).
Proof.
  intros Hi. unfold vexec. st_unfold.
  destruct (restore_snapshot_spec sid g Hi) as [(e&->&He)|([s sb]&[m b]&Hs&Hv&Hl&->)]; simpl in *.
  - apply spec_error. intros s sb m b Hs%abs_snap_Some. congruence.
  - rewrite abs_set_row'. eapply (spec_restore sid s sb m b); [|by apply abs_vol_Some|done].
    by apply abs_snap_Some.
Qed.

Lemma refine_vexec c g :
  inv g → room g → vault_spec c (vexec c g).1 (abs g) (abs (vexec c g).2).
Proof.
  destruct c; intros Hi Hr.
  - by apply refine_create.
  - apply refine_delete.
  - by apply refine_write.
  - by apply refine_create_snapshot.
  - unfold vexec, vs_delete_snapshot. simpl. unfold delete_snapshot. st_unfold.
    unfold abs. simpl. rewrite fmap_delete. apply spec_delete_snapshot.
  - by apply refine_restore.
Qed.

Lemma mem_read_spec g id m b off n :
  inv g → av_vols (abs g) !! id = Some (m, b) → (off + n ≤ blen b)%N →
  read g id off n = Ok (slice b off (off + n)).
Proof.
  intros [Hr _] Hv%abs_vol_Some Hb. destruct (Hr _ _ Hv) as (_&Hbl&Hmax&_). simpl in *.
  unfold read. rewrite Hv. cbn [ok_or mbind result_bind mv_body].
  destruct (range_spec "volume: read range overflow" "volume: read past end" (blen b) off n)
    as [(e&_&?)|[-> _]]; [lia|lia|done].
Qed.

Lemma get_abs g id : get g id = fst <$> av_vols (abs g) !! id.
Proof. unfold get. rewrite abs_vol. by destruct (rows g !! id). Qed.

#[export] Program Instance laws : VolumeStoreLaws MemInner := {|
  vs_inv := inv;
  vs_room := room;
  vs_abs := abs
|}.
Next Obligation. intros g id _. apply get_abs. Qed.
Next Obligation. intros g id m b off n. apply mem_read_spec. Qed.
Next Obligation. intros c g Hi Hr _. by apply refine_vexec. Qed.
Next Obligation. intros c g Hi Hr Hc. by apply inv_vexec. Qed.
End MemVaultRefines.

(** ** Facts of the contract, for every store behind the interface *)
Section contract.
Implicit Types a : AVault.

(** A call that neither deletes the volume nor the snapshot. *)
Definition keeps (vol : VolumeId) (sid : SnapshotId) (c : vcall) : Prop :=
  match c with
  | VDelete id => id ≠ vol
  | VDeleteSnapshot id => id ≠ sid
  | _ => True
  end.

(** What a snapshot pins down: its record, and the volume with the captured
    length. *)
Definition pinned (vol : VolumeId) (sid : SnapshotId) (b : bytes) (a : AVault) : Prop :=
  (∃ s, av_snaps a !! sid = Some (s, b) ∧ snap_volume s = vol) ∧
  ∃ m b', av_vols a !! vol = Some (m, b') ∧ length b' = length b.

Lemma pinned_step c r a a' vol sid b :
  keeps vol sid c → vault_spec c r a a' → pinned vol sid b a → pinned vol sid b a'.
Proof.
  intros Hk Hst [(s&Hs&Hvol) (m&b'&Hm&Hl)].
  destruct Hst; unfold pinned; simpl in *.
  - split; [by exists s|]. exists m, b'. rewrite lookup_insert_ne; [done|congruence].
  - split.
    + exists s. split; [|done]. apply map_retain_lookup. split; [done|].
      apply negb_true_iff, bool_decide_eq_false. simpl. congruence.
    + exists m, b'. by rewrite lookup_delete_ne.
  - split; [by exists s|]. destruct (decide (id = vol)) as [->|].
    + simplify_eq. eexists _, _. rewrite lookup_insert_eq. split; [done|].
      by rewrite overwrite_length.
    + exists m, b'. by rewrite lookup_insert_ne.
  - split; [|by exists m, b']. exists s. rewrite lookup_insert_ne; [done|congruence].
  - split; [|by exists m, b']. exists s. by rewrite lookup_delete_ne.
  - split; [by exists s|]. destruct (decide (snap_volume s0 = vol)) as [He|].
    + eexists m0, sb. rewrite He, lookup_insert_eq. split; [done|]. rewrite He in *. simplify_eq. lia.
    + exists m, b'. by rewrite lookup_insert_ne.
  - split; [by exists s|by exists m, b'].
Qed.

(** What the contract says of a successful snapshot and of a successful write. *)
Lemma spec_snapshot_inv id n s a a' :
  vault_spec (VCreateSnapshot id n) (Ok (RSnapshot s)) a a' →
  ∃ m b, av_vols a !! id = Some (m, b) ∧ snap_volume s = id ∧
    a' = mkAVault (av_vols a) (<[snap_id s := (s, b)]> (av_snaps a)).
Proof. intros Hst. inversion Hst; subst. eauto. Qed.

Lemma spec_write_inv id off d a a' :
  vault_spec (VWrite id off d) (Ok RUnit) a a' →
  ∃ m b, av_vols a !! id = Some (m, b) ∧ (off + blen d ≤ blen b)%N ∧
    a' = mkAVault (<[id := (m, overwrite b off d)]> (av_vols a)) (av_snaps a).
Proof. intros Hst. inversion Hst; subst. eauto. Qed.

Lemma pinned_restore r a a' vol sid b :
  vault_spec (VRestoreSnapshot sid) r a a' → pinned vol sid b a →
  r = Ok RUnit ∧ ∃ m, av_vols a' !! vol = Some (m, b).
Proof.
  intros Hst [(s&Hs&Hvol) (m&b'&Hm&Hl)]. inversion Hst; subst; simplify_eq; simpl.
  - split; [done|]. exists m. by rewrite lookup_insert_eq.
  - exfalso. simpl in *. by eapply (H s b m b').
Qed.

Context {V : Type} `{VolumeStoreLaws V}.

(** Histories: the calls run in order, each from a state with room. *)
Inductive vault_run : list vcall → V → V → Prop :=
| vrun_nil v : vault_run [] v v
| vrun_cons c cs v v' :
    vs_room v → vcall_ok c → vault_run cs (vexec c v).2 v' → vault_run (c :: cs) v v'.

Lemma vault_run_inv cs v v' : vault_run cs v v' → vs_inv v → vs_inv v'.
Proof. induction 1 as [|c cs v v' Hroom Hok _ IH]; intros Hi; [done|]. by apply IH, law_inv. Qed.

Lemma vault_run_pinned cs v v' vol sid b :
  vault_run cs v v' → vs_inv v → Forall (keeps vol sid) cs →
  pinned vol sid b (vs_abs v) → pinned vol sid b (vs_abs v').
Proof.
  induction 1 as [|c cs v v' Hroom Hok _ IH]; intros Hi Hk Hp; [done|].
  apply Forall_cons in Hk as [Hk Hks]. apply IH; [by apply law_inv|done|].
  eapply pinned_step; [done|by apply law_refines|done].
Qed.


(** ** Properties *)

(** A snapshot is a durable copy, for every store that keeps the vault
    contract.  Take a snapshot, then run any history of calls that deletes
    neither the volume nor the snapshot (writes, other snapshots, restores,
    new volumes, other deletions): restoring succeeds and the whole volume
    reads back as the bytes it had when the snapshot was taken. *)
Theorem snapshot_restore_roundtrip (v v1 v2 : V) id n s m b cs :
  vs_inv v → vs_room v → av_vols (vs_abs v) !! id = Some (m, b) →
  vexec (VCreateSnapshot id n) v = (Ok (RSnapshot s), v1) →
  vault_run cs v1 v2 → Forall (keeps id (snap_id s)) cs → vs_room v2 →
  ∃ v3, vexec (VRestoreSnapshot (snap_id s)) v2 = (Ok RUnit, v3) ∧
        vs_read v3 id 0 (blen b) = Ok b.
Proof.
  intros Hi Hr Hb Hsnap Hrun Hk Hr2.
  pose proof (law_refines (VCreateSnapshot id n) v Hi Hr I) as Hst.
  pose proof (law_inv (VCreateSnapshot id n) v Hi Hr I) as Hi1.
  rewrite Hsnap in Hst, Hi1. simpl in Hst, Hi1.
  assert (pinned id (snap_id s) b (vs_abs v1)) as Hp.
  { destruct (spec_snapshot_inv _ _ _ _ _ Hst) as (m0&b0&Hv&Hvol&->). simplify_eq.
    split; simpl.
    - exists s. by rewrite lookup_insert_eq.
    - by exists m, b. }
  pose proof (vault_run_inv _ _ _ Hrun Hi1) as Hi2.
  pose proof (vault_run_pinned _ _ _ _ _ _ Hrun Hi1 Hk Hp) as Hp2.
  destruct (vexec (VRestoreSnapshot (snap_id s)) v2) as [r v3] eqn:E.
  pose proof (law_refines (VRestoreSnapshot (snap_id s)) v2 Hi2 Hr2 I) as Hst2.
  pose proof (law_inv (VRestoreSnapshot (snap_id s)) v2 Hi2 Hr2 I) as Hi3.
  rewrite E in Hst2, Hi3. simpl in Hst2, Hi3.
  destruct (pinned_restore _ _ _ _ _ _ Hst2 Hp2) as [-> [m' Hm']].
  exists v3. split; [done|].
  rewrite (law_read v3 id m' b 0 (blen b)) by (done || lia).
  f_equal. unfold slice, blen. rewrite drop_0. apply take_ge. lia.
Qed.

(** An accepted write is read back exactly, and changes nothing else: the
    written range returns the data; every readable range of another volume,
    or of the same volume but disjoint from the write, returns what it
    returned before.  This holds of every store behind the interface. *)
Theorem write_read_exact (v v' : V) id off d :
  vs_inv v → vs_room v → vexec (VWrite id off d) v = (Ok RUnit, v') →
  vs_read v' id off (blen d) = Ok d ∧
  ∀ id' m b p n, av_vols (vs_abs v) !! id' = Some (m, b) → (p + n ≤ blen b)%N →
    id' ≠ id ∨ (p + n ≤ off ∨ off + blen d ≤ p)%N →
    vs_read v' id' p n = vs_read v id' p n.
Proof.
  intros Hi Hr E.
  pose proof (law_refines (VWrite id off d) v Hi Hr I) as Hst.
  pose proof (law_inv (VWrite id off d) v Hi Hr I) as Hi'.
  rewrite E in Hst, Hi'. simpl in Hst, Hi'.
  destruct (spec_write_inv _ _ _ _ _ Hst) as (m&b&Hv&Hb&Ha').
  assert (blen (overwrite b off d) = blen b) as Hlen.
  { unfold blen at 1 2. by rewrite overwrite_length. }
  split.
  - rewrite (law_read v' id m (overwrite b off d)); [|done| |by rewrite Hlen].
    + f_equal. by apply overwrite_slice_same.
    + rewrite Ha'. apply lookup_insert_eq.
  - intros id' m' b' p n Hv' Hp Hor.
    rewrite (law_read v id' m' b') by done.
    destruct (decide (id' = id)) as [->|Hne].
    + simplify_eq. destruct Hor as [?|Hdis]; [done|].
      rewrite (law_read v' id m (overwrite b off d)); [| done | | by rewrite Hlen].
      * f_equal. by apply overwrite_slice_disjoint.
      * rewrite Ha'. apply lookup_insert_eq.
    + rewrite (law_read v' id' m' b'); [done|done| |done].
      rewrite Ha'. simpl. by rewrite lookup_insert_ne.
Qed.

End contract.

#[export] Existing Instances MemVolumeStore.store MemVaultRefines.laws.

(** C6: the in-memory store implements the contract.  From the empty store,
    after any history of calls in which every owner is a name without @, slash,
    colon and backslash (with an @ it fails: [restore_fails_for_at_owner]) and
    no counter of ids has reached its maximum, every call returns and changes
    exactly what [vault_spec] allows: fresh ids, cascading deletes, whole-body
    restores, and an error only where the contract permits one, with the state
    untouched. *)
Theorem mem_store_refines_contract cs (g : MemVolumeStore.MemInner) c :
  vault_run cs MemVolumeStore.new g → vs_room g → vcall_ok c →
  vault_spec c (vexec c g).1 (vs_abs g) (vs_abs (vexec c g).2) ∧ vs_inv (vexec c g).2.
Proof.
  intros Hrun Hr Hc.
  assert (vs_inv g) as Hi by (eapply vault_run_inv; [done|apply MemVaultInv.inv_new]).
  split; [by apply law_refines|by apply law_inv].
Qed.

(** *** Ids with an ['@'] in the owner *)
Lemma parse_digits_no_slash w acc s n :
  parse_digits w acc s = Some n → contains_char "/" s = false.
Proof.
  revert acc. induction s as [|c s IH]; intros acc; [done|]. cbn [parse_digits].
  destruct (digit_of c) as [d|] eqn:Ed; [|done]. cbn [mbind option_bind].
  destruct (checked_mul w acc 10) as [m|]; [|done]. cbn [mbind option_bind].
  destruct (checked_add w m d) as [a|]; [|done]. cbn [mbind option_bind].
  intros ?%IH. rewrite contains_char_cons. apply orb_false_iff. split; [|done].
  apply Ascii.eqb_neq. intros <-. done.
Qed.

Lemma parse_uint_no_slash w s n : parse_uint w s = Some n → contains_char "/" s = false.
Proof.
  unfold parse_uint. destruct s as [|c s]; [done|].
  intros Hp. destruct (Ascii.eqb_spec c "+") as [->|Hne].
  - destruct s; [done|]. rewrite contains_char_cons. by eapply parse_digits_no_slash.
  - assert ((match String c s with String "+" r => r | _ => String c s end) = String c s) as Hr.
    { destruct c as [[] [] [] [] [] [] [] []]; first [reflexivity | by destruct Hne]. }
    rewrite Hr in Hp. by eapply parse_digits_no_slash.
Qed.

Lemma split_once_is_Some c s : contains_char c s = true → is_Some (split_once c s).
Proof.
  induction s as [|a s IH]; [done|]. rewrite contains_char_cons. simpl.
  rewrite Ascii.eqb_sym. destruct (Ascii.eqb a c); [by eauto|].
  simpl. intros [[l r] ->]%IH. eauto.
Qed.

Lemma split_once_app_l c s t l r :
  split_once c s = Some (l, r) → split_once c (s +:+ t) = Some (l, r +:+ t).
Proof.
  revert l. induction s as [|a s IH]; intros l; [done|]. rewrite app_string_cons. simpl.
  destruct (Ascii.eqb a c); [by intros [= <- <-]|].
  destruct (split_once c s) as [[l' r']|]; [|done]. intros [= <- <-].
  by rewrite (IH l').
Qed.

Lemma snapshot_split_at_owner o n k :
  contains_char "@" o = true →
  snapshot_split (MemVolumeStore.snapshot_id (MemVolumeStore.volume_id o n) k) = None.
Proof.
  intros Ho. unfold snapshot_split, MemVolumeStore.snapshot_id, MemVolumeStore.volume_id.
  destruct (split_once_is_Some _ _ Ho) as [[l r] Hsp].
  rewrite app_string_assoc, (split_once_app_l _ _ _ _ _ Hsp). cbn [mbind option_bind].
  destruct (strip_prefix "s" _) as [t|] eqn:Et; [|done]. cbn [mbind option_bind].
  apply strip_prefix_Some in Et.
  destruct (parse_uint 64 t) as [m|] eqn:Ep; [exfalso|done].
  apply parse_uint_no_slash in Ep.
  assert (contains_char "/" ("s" +:+ t) = true) as Hc.
  { rewrite <-Et, !contains_char_app. simpl. by rewrite orb_true_r. }
  by rewrite contains_char_app, Ep in Hc.
Qed.

(** In the in-memory store a snapshot of a volume whose owner contains
    ['@'] can never be restored: the volume and the snapshot are created, the
    snapshot is stored, and [restore_snapshot] still answers "malformed
    snapshot id", because it recovers the volume by cutting the id at its
    first ['@'].  (The owner is a node id, a free-form string.) *)
Theorem restore_fails_for_at_owner o name sname sz g m g1 s g2 g3 :
  contains_char "@" o = true →
  MemVolumeStore.create o name sz g = (Ok m, g1) →
  MemVolumeStore.create_snapshot (vol_id m) sname g1 = (Ok s, g2) →
  MemVolumeStore.snaps g3 !! snap_id s = MemVolumeStore.snaps g2 !! snap_id s →
  is_Some (MemVolumeStore.snaps g2 !! snap_id s) ∧
  MemVolumeStore.restore_snapshot (snap_id s) g3 =
    (Err (Invalid "restore: malformed snapshot id"), g3).
Proof.
  intros Ho Hc Hs Heq. unfold MemVolumeStore.create in Hc. st_unfold.
  repeat (case_match; simplify_eq/=). unfold MemVolumeStore.create_snapshot in Hs. st_unfold.
  repeat (case_match; simplify_eq/=). rewrite lookup_insert_eq in Heq. rewrite lookup_insert_eq.
  split; [done|]. unfold MemVolumeStore.restore_snapshot. st_unfold.
  rewrite Heq. simpl. by rewrite snapshot_split_at_owner.
Qed.

(** ** Witnesses *)
Module VaultWitness.
Import MemVolumeStore MemVaultRefines.

Definition data : bytes := [x01; x02; x03].
Definition w0 : MemInner := (vexec (VCreate "n1" "disk" 4) new).2.
Definition w1 : MemInner := (vexec (VWrite "n1/v1" 1 data) w0).2.
Definition w2 : MemInner := (vexec (VCreateSnapshot "n1/v1" "before") w1).2.
Definition later : list vcall :=
  [VWrite "n1/v1" 0 [xff; xff]; VCreate "n1" "other" 2; VDelete "n1/v2"].
Definition w3 : MemInner := foldl (λ g c, (vexec c g).2) w2 later.

Lemma room_by_compute g :
  forallb (λ n, n <? u64_max)%N (next g :: (map_to_list (next_snap g)).*2) = true → vs_room g.
Proof.
  simpl. rewrite andb_true_iff, forallb_forall. intros [Hn Hs]. split.
  - by apply N.ltb_lt.
  - intros id n Hid. apply N.ltb_lt, Hs, list_elem_of_In, list_elem_of_fmap.
    exists (id, n). split; [done|]. by apply elem_of_map_to_list.
Qed.

Ltac run := repeat (first [apply vrun_nil | apply vrun_cons; [by apply room_by_compute|done|]]).

Lemma w1_run : vault_run [VCreate "n1" "disk" 4; VWrite "n1/v1" 1 data] new w1.
Proof. run. Qed.
Lemma w1_inv : vs_inv w1.
Proof. eapply vault_run_inv; [apply w1_run|apply MemVaultInv.inv_new]. Qed.
Lemma w3_run : vault_run later w2 w3.
Proof. run. Qed.
End VaultWitness.

Lemma mem_store_refines_contract_witness :
  let c := VCreateSnapshot "n1/v1" "before" in
  vault_spec c (vexec c VaultWitness.w1).1 (vs_abs VaultWitness.w1)
    (vs_abs (vexec c VaultWitness.w1).2) ∧ vs_inv (vexec c VaultWitness.w1).2.
Proof.
  apply (mem_store_refines_contract _ _ _ VaultWitness.w1_run).
  - by apply VaultWitness.room_by_compute.
  - done.
Defined.

Lemma snapshot_restore_roundtrip_witness :
  ∃ v3, vexec (VRestoreSnapshot "n1/v1@s1") VaultWitness.w3 = (Ok RUnit, v3) ∧
        vs_read v3 "n1/v1" 0 4 = Ok [x00; x01; x02; x03].
Proof.
  apply (snapshot_restore_roundtrip VaultWitness.w1 VaultWitness.w2 VaultWitness.w3 "n1/v1" "before"
           (mkSnapshotMeta "n1/v1@s1" "n1/v1" "before" 4) (mkVolumeMeta "n1/v1" "n1" "disk" 4)
           [x00; x01; x02; x03] VaultWitness.later VaultWitness.w1_inv).
  - by apply VaultWitness.room_by_compute.
  - by vm_compute.
  - by vm_compute.
  - apply VaultWitness.w3_run.
  - repeat constructor. done.
  - by apply VaultWitness.room_by_compute.
Defined.

Lemma write_read_exact_witness :
  vs_read VaultWitness.w1 "n1/v1" 1 3 = Ok [x01; x02; x03].
Proof.
  eapply (write_read_exact VaultWitness.w0 VaultWitness.w1 "n1/v1" 1 VaultWitness.data).
  - eapply (vault_run_inv [VCreate "n1" "disk" 4]); [|apply MemVaultInv.inv_new].
    VaultWitness.run.
  - by apply VaultWitness.room_by_compute.
  - by vm_compute.
Defined.

Lemma restore_fails_for_at_owner_witness :
  let g1 := (MemVolumeStore.create "a@b" "disk" 2 MemVolumeStore.new).2 in
  let g2 := (MemVolumeStore.create_snapshot "a@b/v1" "snap" g1).2 in
  is_Some (MemVolumeStore.snaps g2 !! "a@b/v1@s1") ∧
  MemVolumeStore.restore_snapshot "a@b/v1@s1" g2 =
    (Err (Invalid "restore: malformed snapshot id"), g2).
Proof.
  intros g1 g2.
  apply (restore_fails_for_at_owner "a@b" "disk" "snap" 2 MemVolumeStore.new
           (mkVolumeMeta "a@b/v1" "a@b" "disk" 2) g1
           (mkSnapshotMeta "a@b/v1@s1" "a@b/v1" "snap" 2) g2 g2); by vm_compute.
Defined.
