(* ===== verification/Files.v ===== *)
(** * Files: the operations of [std::fs] on a directory

    A directory is the map from paths (relative to the root) to contents.  The
    operating system may refuse any operation: the outcomes of the coming
    operations are part of the state, [None] for success, and a list that has
    run out stands for a disk that works.  A refused write has written a
    prefix of its data.  Each operation answers with the operating system's
    message, which the callers wrap in their own error type. *)
From S2P Require Import Prelude.
From S2P Require Import Text.
From S2P Require Import Vault.
From S2P Require Import VaultProofs.
From Stdlib Require Import Strings.Byte.

Record io_error := mkIoError { io_short : nat; io_msg : string }.

Record Fs := mkFs { fs_files : gmap string bytes; fs_outcomes : list (option io_error) }.

(** The messages of the standard library for the errors that need no fault. *)
Definition os_not_found : string := "No such file or directory (os error 2)".
Definition unexpected_eof : string := "failed to fill whole buffer".

Definition set_files (m : gmap string bytes) (d : Fs) : Fs := mkFs m (fs_outcomes d).

(** One system call: the next outcome. *)
Definition outcome : st Fs string (option io_error) :=
  λ d, (Ok (mjoin (head (fs_outcomes d))), mkFs (fs_files d) (tail (fs_outcomes d))).
Definition syscall : st Fs string unit :=
  o ← outcome;
  match o with Some e => mthrow (io_msg e) | None => mret tt end.

(** [Path::exists]: the answer is no also when the system call fails. *)
Definition fs_present (path : string) (d : Fs) : bool := bool_decide (is_Some (fs_files d !! path)).
Definition fs_exists (path : string) : st Fs string bool := λ d,
  let '(r, d') := syscall d in (Ok (is_ok r && fs_present path d'), d').
(** The next system call of a disk succeeds. *)
Definition answered (d : Fs) : Prop := mjoin (head (fs_outcomes d)) = None.
#[export] Instance answered_dec d : Decision (answered d).
Proof. unfold answered. destruct (mjoin _); [by right|by left]. Defined.
(** The content of an existing file. *)
Definition fs_content (path : string) : st Fs string bytes :=
  d ← get_st; try (ok_or (fs_files d !! path) os_not_found).

(** [fs::create_dir_all] (directories are implicit in the paths). *)
Definition create_dir_all : st Fs string unit := syscall.
(** [File::create]: the file is there and empty. *)
Definition file_create (path : string) : st Fs string unit :=
  _ ← syscall; modify (λ d, set_files (<[path := []]> (fs_files d)) d).
(** [File::open] and [OpenOptions::new().read(true).write(true).open]. *)
Definition file_open (path : string) : st Fs string unit :=
  _ ← syscall; _ ← fs_content path; mret tt.
(** [seek(SeekFrom::Start(_))]: the position is an argument of the transfers. *)
Definition file_seek : st Fs string unit := syscall.
(** [sync_all] and [sync_data]. *)
Definition file_sync : st Fs string unit := syscall.

(** Writing at a position: a file that is too short is filled with zeros. *)
Definition pwrite (b : bytes) (off : N) (data : bytes) : bytes :=
  overwrite (b ++ replicate (N.to_nat off - length b) x00) off data.
(** [write_all] at [off]. *)
Definition file_write (path : string) (off : N) (data : bytes) : st Fs string unit :=
  o ← outcome;
  b ← fs_content path;
  match o with
  | None => modify (λ d, set_files (<[path := pwrite b off data]> (fs_files d)) d)
  | Some e =>
      _ ← modify (λ d, set_files (<[path := pwrite b off (take (io_short e) data)]> (fs_files d)) d);
      mthrow (io_msg e)
  end.

(** [read_to_end], and [fs::read] which also opens. *)
Definition file_read_to_end (path : string) : st Fs string bytes :=
  _ ← syscall; fs_content path.
Definition fs_read (path : string) : st Fs string bytes :=
  _ ← file_open path; file_read_to_end path.
(** [read_exact] of [n] bytes at [off]. *)
Definition file_read_exact (path : string) (off n : N) : st Fs string bytes :=
  _ ← syscall;
  b ← fs_content path;
  _ ← bail_if (blen b <? off + n)%N unexpected_eof;
  mret (slice b off (off + n)).

Definition fs_rename (src dst : string) : st Fs string unit :=
  _ ← syscall;
  b ← fs_content src;
  modify (λ d, set_files (<[dst := b]> (delete src (fs_files d))) d).
Definition fs_remove_file (path : string) : st Fs string unit :=
  _ ← syscall;
  _ ← fs_content path;
  modify (λ d, set_files (delete path (fs_files d)) d).
(** [fs::metadata(path)?.len()]. *)
Definition fs_metadata_len (path : string) : st Fs string N :=
  _ ← syscall; b ← fs_content path; mret (blen b).

(** ** A disk that works *)
Definition healthy (d : Fs) : Prop := fs_outcomes d = [].
Definition good (m : gmap string bytes) : Fs := mkFs m [].

Lemma healthy_good d : healthy d → d = good (fs_files d).
Proof. destruct d as [m o]. unfold healthy. simpl. by intros ->. Qed.

Ltac fs_run :=
  let E := fresh in
  intros E;
  unfold fs_read, file_read_exact, file_read_to_end, file_open, file_write, fs_rename,
    fs_metadata_len, fs_content, syscall, outcome;
  st_unfold; unfold good in *; simpl in *; repeat (rewrite E; simpl); try reflexivity.

(** What [Path::exists] answers. *)
Lemma exists_spec path d :
  let '(r, d') := fs_exists path d in
  fs_files d' = fs_files d ∧ r = Ok (if decide (answered d) then fs_present path d else false).
Proof.
  unfold fs_exists, syscall, outcome, mbind, st_bind. simpl. case_decide as Ha; unfold answered in Ha.
  - by rewrite Ha.
  - by destruct (mjoin (head (fs_outcomes d))).
Qed.

Section good.
Implicit Types (m : gmap string bytes) (path : string).

Lemma good_exists path m : fs_exists path (good m) = (Ok (bool_decide (is_Some (m !! path))), good m).
Proof. done. Qed.

Lemma good_syscall m : syscall (good m) = (Ok tt, good m).
Proof. done. Qed.
Lemma good_create path m : file_create path (good m) = (Ok tt, good (<[path := []]> m)).
Proof. done. Qed.
Lemma good_sync m : file_sync (good m) = (Ok tt, good m).
Proof. done. Qed.
Lemma good_seek m : file_seek (good m) = (Ok tt, good m).
Proof. done. Qed.
Lemma good_content path m b : m !! path = Some b → fs_content path (good m) = (Ok b, good m).
Proof. fs_run. Qed.
Lemma good_open path m b : m !! path = Some b → file_open path (good m) = (Ok tt, good m).
Proof. fs_run. Qed.
Lemma good_write path off data m b :
  m !! path = Some b →
  file_write path off data (good m) = (Ok tt, good (<[path := pwrite b off data]> m)).
Proof. fs_run. Qed.
Lemma good_read_to_end path m b :
  m !! path = Some b → file_read_to_end path (good m) = (Ok b, good m).
Proof. fs_run. Qed.
Lemma good_read path m b : m !! path = Some b → fs_read path (good m) = (Ok b, good m).
Proof. fs_run. Qed.
Lemma good_read_exact path off n m b :
  m !! path = Some b → (off + n ≤ blen b)%N →
  file_read_exact path off n (good m) = (Ok (slice b off (off + n)), good m).
Proof. intros E Hb. revert E. rewrite <-N.ltb_ge in Hb. fs_run. by rewrite Hb. Qed.
Lemma good_rename src dst m b :
  m !! src = Some b → fs_rename src dst (good m) = (Ok tt, good (<[dst := b]> (delete src m))).
Proof. fs_run. Qed.
(** Removing a file: whatever the answer, the file is gone. *)
Lemma good_remove path m : (fs_remove_file path (good m)).2 = good (delete path m).
Proof.
  unfold fs_remove_file, fs_content, syscall, outcome. st_unfold.
  destruct (m !! path) eqn:E; simpl; rewrite ?E; simpl; [done|]. by rewrite delete_id.
Qed.
Lemma good_metadata path m b : m !! path = Some b → fs_metadata_len path (good m) = (Ok (blen b), good m).
Proof. fs_run. Qed.
End good.

(** Writing into the file, and writing a file from empty. *)
Lemma pwrite_inside b off data : (off ≤ blen b)%N → pwrite b off data = overwrite b off data.
Proof.
  unfold pwrite, blen. intros. replace (N.to_nat off - length b)%nat with 0%nat by lia.
  by rewrite app_nil_r.
Qed.
Lemma pwrite_empty data : pwrite [] 0 data = data.
Proof. unfold pwrite, overwrite. simpl. by rewrite drop_nil, app_nil_r. Qed.
