(* ===== verification/Crc.v ===== *)
(** * Crc: the CRC-32C of the kernel and of the controller

    crates/celhyper/src/crc.rs: the bit-serial Castagnoli checksum over a list
    of bytes, one shot and streaming.  The routine of
    celimage is the same one and used by DiskImage.v; that of hyper_host.rs is
    [crc32c_bytes] of Hyper.v, shown equal in HyperProofs.v.  The file shows
    that the checksum is injective on any window of four bytes, so that every
    corruption of at most 32 consecutive bits in
    whole bytes is noticed. *)
From S2P Require Import Prelude.
From S2P Require Import Vault.
From Stdlib Require Import Strings.Byte.

Definition CRC_POLY : N := 0x82F63B78.
Definition CRC_INIT : N := 0xFFFFFFFF.

(** One turn of the inner loop. *)
Definition crc_bit (state : N) : N :=
  if N.odd state then N.lxor (N.shiftr state 1) CRC_POLY else N.shiftr state 1.
Fixpoint crc_bits (turns : nat) (state : N) : N :=
  match turns with O => state | S k => crc_bit (crc_bits k state) end.
Definition crc_byte (state : N) (b : byte) : N := crc_bits 8 (N.lxor state (Byte.to_N b)).

Definition crc32c_continue (state : N) (data : bytes) : N := foldl crc_byte state data.
Definition crc32c (data : bytes) : N := N.lxor (crc32c_continue CRC_INIT data) CRC_INIT.

Example crc32c_check :
  crc32c [x31; x32; x33; x34; x35; x36; x37; x38; x39] = 0xe3069283%N ∧
  crc32c (replicate 32 x00) = 0x8a9136aa%N ∧ crc32c (replicate 32 xff) = 0x62a8ab43%N.
Proof. by vm_compute. Qed.

(** ** The bit step is linear and injective on 32 bits *)
Lemma crc_bit_lxor a b : crc_bit (N.lxor a b) = N.lxor (crc_bit a) (crc_bit b).
Proof.
  unfold crc_bit. rewrite <-!N.bit0_odd, N.lxor_spec, N.shiftr_lxor.
  destruct (N.testbit a 0), (N.testbit b 0); simpl; apply N.bits_inj; intros i;
    rewrite ?N.lxor_spec; repeat destruct (N.testbit _ _); done.
Qed.

Lemma fits_testbit w n : fits w n ↔ ∀ i, (w ≤ i)%N → N.testbit n i = false.
Proof.
  unfold fits. split.
  - intros Hn i Hi. destruct (decide (n = 0%N)) as [->|Hz]; [apply N.bits_0|].
    apply N.bits_above_log2. apply N.log2_lt_pow2 in Hn; lia.
  - intros Hb. destruct (decide (n = 0%N)) as [->|Hz]; [apply N.neq_0_lt_0, N.pow_nonzero; lia|].
    apply N.log2_lt_pow2; [lia|]. destruct (N.lt_ge_cases (N.log2 n) w) as [|Hge]; [done|].
    specialize (Hb _ Hge). by rewrite N.bit_log2 in Hb.
Qed.

Lemma fits_lxor w a b : fits w a → fits w b → fits w (N.lxor a b).
Proof.
  rewrite !fits_testbit. intros Ha Hb i Hi. by rewrite N.lxor_spec, Ha, Hb.
Qed.

Lemma fits_shiftr w a k : fits w a → fits (w - k) (N.shiftr a k).
Proof. rewrite !fits_testbit. intros Ha i Hi. rewrite N.shiftr_spec by lia. apply Ha. lia. Qed.

Lemma fits_shiftl w a k : fits w a → fits (w + k) (N.shiftl a k).
Proof.
  rewrite !fits_testbit. intros Ha i Hi. rewrite N.shiftl_spec_high by lia. apply Ha. lia.
Qed.

Lemma fits_mono v w n : (v ≤ w)%N → fits v n → fits w n.
Proof. rewrite !fits_testbit. intros Hv Hn i Hi. apply Hn. lia. Qed.

Lemma poly_fits : fits 32 CRC_POLY.
Proof. by vm_compute. Qed.

Lemma crc_bit_fits s : fits 32 s → fits 32 (crc_bit s).
Proof.
  intros Hs%(fits_shiftr _ _ 1). apply (fits_mono _ 32) in Hs; [|done].
  unfold crc_bit. destruct (N.odd s); [|done]. apply fits_lxor; [done|apply poly_fits].
Qed.

Lemma crc_bit_kernel s : fits 32 s → crc_bit s = 0%N → s = 0%N.
Proof.
  intros Hs. unfold crc_bit. destruct (N.odd s) eqn:E.
  - intros Hz. apply (f_equal (λ n, N.testbit n 31)) in Hz.
    rewrite N.lxor_spec, N.shiftr_spec in Hz by lia.
    rewrite (proj1 (fits_testbit _ _) Hs) in Hz by lia. by vm_compute in Hz.
  - intros Hz. apply N.bits_inj. intros i. rewrite N.bits_0.
    destruct (decide (i = 0%N)) as [->|Hi]; [by rewrite N.bit0_odd|].
    apply (f_equal (λ n, N.testbit n (i - 1))) in Hz. rewrite N.shiftr_spec, N.bits_0 in Hz by lia.
    by replace (i - 1 + 1)%N with i in Hz by lia.
Qed.

(** Iterations. *)
Lemma crc_bits_lxor k a b : crc_bits k (N.lxor a b) = N.lxor (crc_bits k a) (crc_bits k b).
Proof. induction k as [|k IH]; simpl; [done|]. by rewrite IH, crc_bit_lxor. Qed.
Lemma crc_bits_fits k s : fits 32 s → fits 32 (crc_bits k s).
Proof. intros. induction k as [|k IH]; simpl; [done|]. by apply crc_bit_fits. Qed.
Lemma crc_bits_kernel k s : fits 32 s → crc_bits k s = 0%N → s = 0%N.
Proof.
  intros Hs. induction k as [|k IH]; simpl; [done|].
  intros Hz%crc_bit_kernel; [by apply IH|]. by apply crc_bits_fits.
Qed.
Lemma crc_bits_inj k a b : fits 32 a → fits 32 b → crc_bits k a = crc_bits k b → a = b.
Proof.
  intros Ha Hb E. apply N.lxor_eq, (crc_bits_kernel k); [by apply fits_lxor|].
  by rewrite crc_bits_lxor, E, N.lxor_nilpotent.
Qed.
Lemma crc_bits_add j k s : crc_bits (j + k) s = crc_bits j (crc_bits k s).
Proof. induction j as [|j IH]; simpl; [done|]. by rewrite IH. Qed.

(** Eight zero bits are shifted out untouched. *)
Lemma crc_bits_shiftl k s : crc_bits k (N.shiftl s (N.of_nat k)) = s.
Proof.
  revert s. induction k as [|k IH]; intros s; [by rewrite N.shiftl_0_r|].
  replace (S k) with (k + 1)%nat by lia. rewrite crc_bits_add. simpl.
  assert (crc_bit (N.shiftl s (N.of_nat (k + 1))) = N.shiftl s (N.of_nat k)) as ->; [|apply IH].
  unfold crc_bit. rewrite <-N.bit0_odd, N.shiftl_spec_low by lia.
  rewrite N.shiftr_shiftl_l by lia. f_equal. lia.
Qed.

(** ** Words of bytes *)
Fixpoint le_word (bs : bytes) : N :=
  match bs with
  | [] => 0
  | b :: bs' => N.lxor (Byte.to_N b) (N.shiftl (le_word bs') 8)
  end.

Lemma to_N_inj b1 b2 : Byte.to_N b1 = Byte.to_N b2 → b1 = b2.
Proof. intros E. apply (f_equal Byte.of_N) in E. rewrite !Byte.of_to_N in E. by injection E. Qed.

Lemma byte_fits b : fits 8 (Byte.to_N b).
Proof. unfold fits. pose proof (Byte.to_N_bounded b). change (2 ^ 8)%N with 256%N. lia. Qed.

Lemma le_word_fits bs : fits (8 * N.of_nat (length bs)) (le_word bs).
Proof.
  induction bs as [|b bs IH]; [done|]. cbn [le_word length]. apply fits_lxor.
  - eapply fits_mono; [|apply byte_fits]. lia.
  - eapply fits_mono; [|apply fits_shiftl, IH]. lia.
Qed.

Lemma le_word_inj bs1 bs2 : length bs1 = length bs2 → le_word bs1 = le_word bs2 → bs1 = bs2.
Proof.
  revert bs2. induction bs1 as [|b1 bs1 IH]; intros [|b2 bs2]; try done.
  cbn [le_word length]. intros [= Hl] E.
  assert (∀ b bs i, (i < 8)%N →
    N.testbit (N.lxor (Byte.to_N b) (N.shiftl (le_word bs) 8)) i = N.testbit (Byte.to_N b) i) as Hlow.
  { intros b bs i Hi. by rewrite N.lxor_spec, N.shiftl_spec_low, xorb_false_r. }
  assert (∀ b bs i,
    N.testbit (N.lxor (Byte.to_N b) (N.shiftl (le_word bs) 8)) (i + 8) = N.testbit (le_word bs) i) as Hhigh.
  { intros b bs i. rewrite N.lxor_spec, N.shiftl_spec_high by lia.
    rewrite (proj1 (fits_testbit 8 _) (byte_fits b)) by lia. rewrite xorb_false_l. f_equal. lia. }
  f_equal.
  - apply to_N_inj. apply N.bits_inj. intros i.
    destruct (N.lt_ge_cases i 8) as [Hi|Hi].
    + by rewrite <-(Hlow b1 bs1), <-(Hlow b2 bs2), E.
    + by rewrite !(proj1 (fits_testbit 8 _) (byte_fits _)).
  - apply IH; [done|]. apply N.bits_inj. intros i. by rewrite <-(Hhigh b1), <-(Hhigh b2), E.
Qed.

(** Up to four bytes are absorbed as one word. *)
Lemma crc_window bs s :
  length bs ≤ 4 → crc32c_continue s bs = crc_bits (8 * length bs) (N.lxor s (le_word bs)).
Proof.
  revert s. induction bs as [|b bs IH]; intros s; cbn [length le_word].
  - intros _. by rewrite N.lxor_0_r.
  - intros Hl. change (crc32c_continue s (b :: bs)) with (crc32c_continue (crc_byte s b) bs).
    rewrite IH by lia. unfold crc_byte.
    replace (8 * S (length bs)) with (8 * length bs + 8) by lia. rewrite crc_bits_add. f_equal.
    rewrite <-N.lxor_assoc, (crc_bits_lxor 8 (N.lxor s _)). f_equal.
    symmetry. apply (crc_bits_shiftl 8).
Qed.

Lemma crc_continue_fits s bs : fits 32 s → fits 32 (crc32c_continue s bs).
Proof.
  revert s. induction bs as [|b bs IH]; intros s Hs; [done|]. apply IH. unfold crc_byte.
  apply crc_bits_fits, fits_lxor; [done|]. eapply fits_mono; [|apply byte_fits]. lia.
Qed.

Lemma crc_continue_inj s1 s2 bs :
  fits 32 s1 → fits 32 s2 → crc32c_continue s1 bs = crc32c_continue s2 bs → s1 = s2.
Proof.
  revert s1 s2. induction bs as [|b bs IH]; intros s1 s2 H1 H2; [done|].
  change (crc32c_continue (crc_byte s1 b) bs = crc32c_continue (crc_byte s2 b) bs → s1 = s2).
  assert (∀ s, fits 32 s → fits 32 (N.lxor s (Byte.to_N b))) as Hx.
  { intros s Hs. apply fits_lxor; [done|]. eapply fits_mono; [|apply byte_fits]. lia. }
  intros E%IH; [|apply crc_bits_fits; auto..].
  apply crc_bits_inj in E; [|auto..]. apply (f_equal (λ n, N.lxor n (Byte.to_N b))) in E.
  by rewrite !N.lxor_assoc, N.lxor_nilpotent, !N.lxor_0_r in E.
Qed.

(** Streaming: chunk by chunk is the same as at once. *)
Lemma crc32c_continue_app s a b : crc32c_continue s (a ++ b) = crc32c_continue (crc32c_continue s a) b.
Proof. apply foldl_app. Qed.

Lemma crc32c_fits bs : fits 32 (crc32c bs).
Proof. apply fits_lxor; [by apply crc_continue_fits|done]. Qed.

(** The checksum notices every corruption inside four consecutive bytes:
    two images of the same length that differ, and differ only there, have
    different checksums. *)
Theorem crc_detects_window pre mid1 mid2 post :
  length mid1 = length mid2 → length mid1 ≤ 4 → mid1 ≠ mid2 →
  crc32c (pre ++ mid1 ++ post) ≠ crc32c (pre ++ mid2 ++ post).
Proof.
  intros Hl H4 Hne E. apply Hne, le_word_inj; [done|]. unfold crc32c in E.
  apply (f_equal (λ n, N.lxor n CRC_INIT)) in E.
  rewrite !N.lxor_assoc, N.lxor_nilpotent, !N.lxor_0_r, !crc32c_continue_app in E.
  set (s := crc32c_continue CRC_INIT pre) in *.
  assert (fits 32 s) as Hs by by apply crc_continue_fits.
  apply crc_continue_inj in E; [|by apply crc_continue_fits..].
  rewrite !crc_window, <-Hl in E by lia.
  assert (∀ m, length m = length mid1 → fits 32 (N.lxor s (le_word m))) as Hx.
  { intros m Hm. apply fits_lxor; [done|]. eapply fits_mono; [|apply le_word_fits]. lia. }
  apply crc_bits_inj in E; [|auto..].
  apply (f_equal (N.lxor s)) in E. by rewrite <-!N.lxor_assoc, N.lxor_nilpotent, !N.lxor_0_l in E.
Qed.

Lemma crc_detects_window_witness :
  crc32c ([x01; x02] ++ [x10; x20; x30] ++ [x03]) ≠ crc32c ([x01; x02] ++ [x10; x21; x30] ++ [x03]).
Proof. apply crc_detects_window; [done|simpl; lia|done]. Defined.
