(* ===== verification/DiskFile.v ===== *)
(** * DiskFile: the file behind a disk image

    What the readers of crates/celimage do with [std::fs::File]: a content, a
    position and the outcomes of the coming transfers ([None] for a full one;
    a list that has run out stands for a disk that works).  [read] may answer
    with fewer bytes than asked for.  The file shows that the readers' two
    patterns, [seek] then [read_exact] and [seek] then the loop over [read],
    transfer exactly the bytes of the content. *)
From S2P Require Import Prelude.
From S2P Require Import Errors.
From S2P Require Import Vault.
From S2P Require Import Crc.
From Stdlib Require Import Strings.Byte.

(** An error, or a panic (the workspace builds with overflow checks and aborts
    on panics). *)
Inductive Fault := Fail (e : CelError) | Panic (what : string).

Inductive transfer := Short (n : nat) | Refuse (msg : string).
Record Handle := mkHandle { h_bytes : bytes; h_pos : N; h_outcomes : list (option transfer) }.
Definition set_pos (p : N) (h : Handle) : Handle := mkHandle (h_bytes h) p (h_outcomes h).

Definition os_invalid_argument : string := "Invalid argument (os error 22)".
Definition unexpected_eof : string := "failed to fill whole buffer".

(** ** The calls on a file *)
Definition next_outcome : st Handle string (option transfer) := λ h,
  (Ok (mjoin (head (h_outcomes h))), mkHandle (h_bytes h) (h_pos h) (tail (h_outcomes h))).
Definition allowed : st Handle string (option transfer) :=
  o ← next_outcome; match o with Some (Refuse msg) => mthrow msg | _ => mret o end.

Definition file_open : st Handle string unit := _ ← allowed; modify (set_pos 0).
Definition metadata_len : st Handle string N := _ ← allowed; h ← get_st; mret (blen (h_bytes h)).
(** [seek(SeekFrom::Start(off))]: the system call takes a signed offset. *)
Definition seek (off : N) : st Handle string unit :=
  _ ← allowed;
  _ ← bail_if (2 ^ 63 <=? off)%N os_invalid_argument;
  modify (set_pos off).

(** The bytes from an offset on, and the first bytes of a list. *)
Definition from (off : N) (b : bytes) : bytes := if (blen b <=? off)%N then [] else drop (N.to_nat off) b.
Definition upto (n : N) (b : bytes) : bytes := take (N.to_nat (N.min n (blen b))) b.

Definition read (n : N) : st Handle string bytes :=
  o ← allowed;
  h ← get_st;
  let most := match o with Some (Short k) => N.min n (N.of_nat (S k)) | _ => n end in
  let bs := upto most (from (h_pos h) (h_bytes h)) in
  _ ← modify (set_pos (h_pos h + blen bs));
  mret bs.
Definition read_exact (n : N) : st Handle string bytes :=
  _ ← allowed;
  h ← get_st;
  let bs := upto n (from (h_pos h) (h_bytes h)) in
  _ ← modify (set_pos (h_pos h + blen bs));
  if (blen bs <? n)%N then mthrow unexpected_eof else mret bs.

(** ** The readers' use of them *)
Abbreviation M := (st Handle Fault).
(** [.map_err(|e| ...)] on a call, for the two kinds of error the readers make. *)
Definition on_error {A} (f : string → CelError) (m : st Handle string A) : M A := λ h,
  let '(r, h') := m h in (map_err (λ e, Fail (f e)) r, h').
Definition io (what e : string) : CelError := Io (what +:+ ": " +:+ e).
Definition storage (what e : string) : CelError := Storage (what +:+ ": " +:+ e).
Definition invalid {A} (tag : string) : result Fault A := Err (Fail (Invalid tag)).
Definition bail_invalid (b : bool) (tag : string) : M unit := bail_if b (Fail (Invalid tag)).

(** [vec![0; n]] of [n] bytes, and [Vec::with_capacity]: more than [isize::MAX]
    is a panic; memory is taken to be there. *)
Definition vec_bytes (n : N) : M unit := bail_if (2 ^ 63 <=? n)%N (Panic "capacity overflow").

(** [while total < want { f.read(&mut buf[total..want]) }]. *)
Fixpoint read_loop (fuel : nat) (f : string → CelError) (want : N) (acc : bytes) : M bytes :=
  match fuel with
  | O => mthrow (Panic "out of fuel")
  | S fuel' =>
      if (want <=? blen acc)%N then mret acc
      else bs ← on_error f (read (want - blen acc));
           if decide (bs = []) then mret acc else read_loop fuel' f want (acc ++ bs)
  end.
Definition read_full (f : string → CelError) (want : N) : M bytes :=
  read_loop (S (N.to_nat want)) f want [].

(** [seek] to an offset, then [read_exact]. *)
Definition exact_at (f g : string → CelError) (off n : N) : M bytes :=
  _ ← on_error f (seek off); on_error g (read_exact n).

(** ** Numbers in buffers: [util.rs] and the slices of qcow2.rs *)
Definition get_range (buf : bytes) (off end_ : N) : option bytes :=
  if (off <=? end_)%N && (end_ <=? blen buf)%N then Some (slice buf off end_) else None.
Definition le_at (name : string) (width : N) (buf : bytes) (off : N) : result Fault N :=
  end_ ← ok_or (checked_add 64 off width) (Fail (Invalid ("util: " +:+ name +:+ " overflow")));
  s ← ok_or (get_range buf off end_) (Fail (Invalid ("util: " +:+ name +:+ " short read")));
  Ok (le_word s).
Definition le_u16 : bytes → N → result Fault N := le_at "le_u16" 2.
Definition le_u32 : bytes → N → result Fault N := le_at "le_u32" 4.
Definition le_u64 : bytes → N → result Fault N := le_at "le_u64" 8.
Definition be_word (bs : bytes) : N := le_word (rev bs).
Definition be_u32 (buf : bytes) (off : N) : result Fault N :=
  end_ ← ok_or (checked_add 64 off 4) (Fail (Invalid "util: be_u32 overflow"));
  s ← ok_or (get_range buf off end_) (Fail (Invalid "util: be_u32 short read"));
  Ok (be_word s).

(** [fill(0)], and a fixed-size buffer of which the first bytes have been read. *)
Definition zeros (n : N) : bytes := replicate (N.to_nat n) x00.
Definition buffer (n : N) (bs : bytes) : bytes := bs ++ zeros (n - blen bs).
Lemma blen_zeros n : blen (zeros n) = n.
Proof. unfold blen, zeros. rewrite length_replicate. lia. Qed.
(** [chunks_exact(k)]. *)
Fixpoint chunks (fuel : nat) (k : nat) (b : bytes) : list bytes :=
  match fuel with
  | O => []
  | S fuel' => if decide (length b < k) then [] else take k b :: chunks fuel' k (drop k b)
  end.
Definition chunks_exact (k : nat) (b : bytes) : list bytes := chunks (length b) k b.

(** ** Slices and their bytes *)
Lemma from_upto off n b : upto n (from off b) = if (blen b <=? off)%N then [] else slice b off (off + N.min n (blen b - off)).
Proof.
  unfold upto, from, slice, blen. destruct (N.leb_spec (N.of_nat (length b)) off) as [|Hlt].
  { by rewrite take_nil. }
  rewrite length_drop. f_equal. lia.
Qed.
Lemma blen_upto n b : blen (upto n b) = N.min n (blen b).
Proof. unfold upto, blen. rewrite length_take. lia. Qed.
Lemma blen_from off b : blen (from off b) = (blen b - off)%N.
Proof. unfold from, blen. destruct (N.leb_spec (N.of_nat (length b)) off); [simpl; lia|]. rewrite length_drop. lia. Qed.
Lemma from_from a c b : from c (from a b) = from (a + c) b.
Proof.
  unfold from at 1. rewrite blen_from. unfold from.
  destruct (N.leb_spec (blen b) a); destruct (N.leb_spec (blen b) (a + c));
    destruct (N.leb_spec (blen b - a) c); try lia; try done.
  rewrite drop_drop. f_equal. lia.
Qed.
Lemma upto_all n b : (blen b ≤ n)%N → upto n b = b.
Proof. intros. unfold upto. rewrite N.min_r by done. unfold blen. rewrite Nat2N.id. apply firstn_all. Qed.
Lemma upto_split a c b : (a ≤ blen b)%N → upto (a + c) b = upto a b ++ upto c (from a b).
Proof.
  intros Ha. unfold upto. rewrite blen_from. unfold from, blen in *.
  destruct (N.leb_spec (N.of_nat (length b)) a) as [Hle|Hlt].
  - replace a with (N.of_nat (length b)) by lia. rewrite take_nil, app_nil_r, !firstn_all2 by lia. done.
  - rewrite (N.min_l a) by lia. rewrite take_take_drop. f_equal. lia.
Qed.

Lemma upto_chain m n b :
  (blen (upto m b) ≤ n)%N →
  upto n b = upto m b ++ upto (n - blen (upto m b)) (from (blen (upto m b)) b).
Proof.
  rewrite blen_upto. intros Hle. set (c := N.min m (blen b)) in *.
  replace n with (c + (n - c))%N at 1 by lia. rewrite upto_split by lia. f_equal.
  unfold upto. f_equal. f_equal. lia.
Qed.

Definition byte_at (b : bytes) (p : N) : option byte := if (p <? blen b)%N then b !! N.to_nat p else None.
Lemma byte_at_lookup b p : byte_at b p = b !! N.to_nat p.
Proof.
  unfold byte_at, blen. destruct (N.ltb_spec p (N.of_nat (length b))); [done|].
  symmetry. apply lookup_ge_None_2. lia.
Qed.
(** The [n] bytes of a disk from [off] on, if all of them are there. *)
Fixpoint bytes_of (disk : N → option byte) (off : N) (n : nat) : option bytes :=
  match n with
  | O => Some []
  | S n' => x ← disk off; xs ← bytes_of disk (off + 1)%N n'; Some (x :: xs)
  end.

Lemma bytes_of_Some disk off n bs :
  bytes_of disk off n = Some bs ↔ length bs = n ∧ ∀ k, k < n → disk (off + N.of_nat k)%N = bs !! k.
Proof.
  revert off bs. induction n as [|n IH]; intros off bs; simpl.
  - split; [intros [= <-]; split; [done|lia]|]. intros [Hl _]. by destruct bs.
  - split.
    + intros (x&Hx&Hxs)%bind_Some. apply bind_Some in Hxs as (xs&[<- Hk]%IH&[= <-]). split; [done|]. intros [|k] Hlt; simpl.
      * by rewrite N.add_0_r.
      * rewrite <-Hk by lia. f_equal. lia.
    + intros [Hl Hk]. destruct bs as [|x xs]; [done|]. injection Hl as Hl.
      assert (disk off = Some x) as -> by (specialize (Hk 0); rewrite N.add_0_r in Hk; apply Hk; lia).
      simpl. assert (bytes_of disk (off + 1) n = Some xs) as ->; [|done].
      apply IH. split; [done|]. intros k Hlt. specialize (Hk (S k)). simpl in Hk.
      rewrite <-Hk by lia. f_equal. lia.
Qed.
Lemma bytes_of_app disk off n m bs1 bs2 :
  bytes_of disk off n = Some bs1 → bytes_of disk (off + N.of_nat n) m = Some bs2 →
  bytes_of disk off (n + m) = Some (bs1 ++ bs2).
Proof.
  rewrite !bytes_of_Some. intros [<- H1] [<- H2]. split; [by rewrite length_app|]. intros k Hk.
  destruct (decide (k < length bs1)) as [Hlt|Hge].
  - rewrite lookup_app_l by done. by apply H1.
  - rewrite lookup_app_r by lia. rewrite <-H2 by lia. f_equal. lia.
Qed.
Lemma bytes_of_slice b off n : (off + N.of_nat n ≤ blen b)%N →
  bytes_of (byte_at b) off n = Some (slice b off (off + N.of_nat n)).
Proof.
  intros Hb. apply bytes_of_Some. unfold blen in *. split.
  - unfold slice. rewrite length_take, length_drop. lia.
  - intros k Hk. rewrite byte_at_lookup. unfold slice.
    rewrite lookup_take_lt by lia. rewrite lookup_drop. f_equal. lia.
Qed.
Lemma bytes_of_shift disk1 disk2 off1 off2 n bs :
  (∀ k, k < n → disk1 (off1 + N.of_nat k)%N = disk2 (off2 + N.of_nat k)%N) →
  bytes_of disk2 off2 n = Some bs → bytes_of disk1 off1 n = Some bs.
Proof.
  intros Hd. rewrite !bytes_of_Some. intros [Hl Hk]. split; [done|]. intros k Hlt. rewrite Hd by done. by apply Hk.
Qed.
Lemma bytes_of_const disk off n x :
  (∀ k, k < n → disk (off + N.of_nat k)%N = Some x) → bytes_of disk off n = Some (replicate n x).
Proof.
  intros Hd. apply bytes_of_Some. split; [by rewrite length_replicate|]. intros k Hk.
  rewrite Hd by done. by rewrite lookup_replicate_2.
Qed.

Lemma bytes_of_split disk off k m bs :
  bytes_of disk off (k + m) = Some bs →
  bytes_of disk off k = Some (take k bs) ∧ bytes_of disk (off + N.of_nat k) m = Some (drop k bs).
Proof.
  rewrite !bytes_of_Some. intros [Hl Hk]. split; split.
  - rewrite length_take. lia.
  - intros j Hj. rewrite lookup_take_lt by done. apply Hk. lia.
  - rewrite length_drop. lia.
  - intros j Hj. rewrite lookup_drop, <-Hk by lia. f_equal. lia.
Qed.
Lemma chunks_spec fuel k disk off n bs :
  0 < k → n ≤ fuel → bytes_of disk off (n * k) = Some bs →
  length (chunks fuel k bs) = n ∧
  ∀ i, i < n → bytes_of disk (off + N.of_nat i * N.of_nat k) k = chunks fuel k bs !! i.
Proof.
  intros H0. revert off n bs. induction fuel as [|fuel IH]; intros off n bs Hn Hb.
  { assert (n = 0) as -> by lia. split; [done|lia]. }
  pose proof Hb as [Hl _]%bytes_of_Some. cbn [chunks]. destruct n as [|n].
  { simpl in Hl. rewrite decide_True by lia. split; [done|lia]. }
  rewrite decide_False by (simpl in Hl; lia). simpl in Hb. apply bytes_of_split in Hb as [Hb1 Hb2].
  destruct (IH _ n _ ltac:(lia) Hb2) as [Hlen Hi]. split; [simpl; by rewrite Hlen|].
  intros [|i] Hlt; cbn [lookup list_lookup].
  - rewrite N.mul_0_l, N.add_0_r. exact Hb1.
  - rewrite <-Hi by lia. f_equal. lia.
Qed.
Lemma chunks_exact_spec k disk off n bs :
  0 < k → bytes_of disk off (n * k) = Some bs →
  length (chunks_exact k bs) = n ∧
  ∀ i, i < n → bytes_of disk (off + N.of_nat i * N.of_nat k) k = chunks_exact k bs !! i.
Proof.
  intros H0 Hb. pose proof Hb as [Hl _]%bytes_of_Some. apply chunks_spec; [done| |done].
  rewrite Hl. destruct k; [lia|]. clear. induction n; simpl; lia.
Qed.

(** ** What a computation on a file does

    [works] says that the disk works.  [m] leaves the content and a working
    disk as they are; its answer satisfies [P], on a working disk it fails only
    when [F] holds, and it panics only when [G] does. *)
Definition healthy (h : Handle) : Prop := h_outcomes h = [].
Definition does {A} (works : Prop) (b : bytes) (m : M A) (P : A → Prop) (F G : Prop) : Prop :=
  ∀ h, h_bytes h = b → (works → healthy h) →
  let '(r, h') := m h in
  h_bytes h' = b ∧ (works → healthy h') ∧
  match r with Ok a => P a | Err (Fail _) => works → F | Err (Panic _) => G end.

Section does.
Context (works : Prop) (b : bytes).
Implicit Types F G : Prop.

Lemma does_weaken {A} (m : M A) (P P' : A → Prop) F F' G G' :
  does works b m P F G → (∀ a, P a → P' a) → (works → F → F') → (G → G') → does works b m P' F' G'.
Proof.
  intros Hm HP HF HG h Hb Hw. specialize (Hm h Hb Hw). destruct (m h) as [[a|[e|w]] h'];
    destruct Hm as (?&?&Hr); repeat split; auto.
Qed.
Lemma does_ret {A} (a : A) (P : A → Prop) F G : P a → does works b (mret a) P F G.
Proof. intros Ha h Hb Hw. by repeat split. Qed.
Lemma does_bind {A B} (m : M A) (k : A → M B) P Q F G :
  does works b m P F G → (∀ a, P a → does works b (k a) Q F G) → does works b (m ≫= k) Q F G.
Proof.
  intros Hm Hk h Hb Hw. specialize (Hm h Hb Hw). unfold mbind, st_bind.
  destruct (m h) as [[a|[e|w]] h1]; destruct Hm as (Hb1&Hw1&Hr); [|done..]. by apply Hk.
Qed.
Lemma does_try {A} (r : result Fault A) (P : A → Prop) F G :
  match r with Ok a => P a | Err (Fail _) => works → F | Err (Panic _) => G end → does works b (try r) P F G.
Proof. intros Hr h Hb Hw. by repeat split. Qed.
Lemma does_bail_invalid (c : bool) tag F G :
  (works → c = true → F) → does works b (bail_invalid c tag) (λ _, c = false) F G.
Proof. intros HF h Hb Hw. unfold bail_invalid, bail_if. destruct c; repeat split; simpl; auto. Qed.
Lemma does_fail {A} e (P : A → Prop) F G : (works → F) → does works b (mthrow (Fail e)) P F G.
Proof. intros HF h Hb Hw. by repeat split. Qed.
Lemma does_vec n F G : ((2 ^ 63 ≤ n)%N → G) → does works b (vec_bytes n) (λ _, n < 2 ^ 63)%N F G.
Proof.
  intros HG h Hb Hw. unfold vec_bytes, bail_if.
  destruct (N.leb_spec (2 ^ 63) n); repeat split; simpl; auto.
Qed.

(** ** The calls *)
Lemma allowed_spec h : h_bytes h = b → (works → healthy h) →
  let '(r, h') := allowed h in
  h_bytes h' = b ∧ h_pos h' = h_pos h ∧ (works → healthy h') ∧
  match r with Ok o => works → o = None | Err _ => ¬ works end.
Proof.
  intros <- Hw. unfold allowed, next_outcome, mbind, st_bind, healthy in *.
  destruct (h_outcomes h) as [|[[k|m]|] os] eqn:E; simpl; repeat split; auto.
  all: intros Hp; specialize (Hw Hp); done.
Qed.

Lemma seek_spec f off F G :
  ((2 ^ 63 ≤ off)%N → F) →
  ∀ h, h_bytes h = b → (works → healthy h) →
  let '(r, h') := on_error f (seek off) h in
  h_bytes h' = b ∧ (works → healthy h') ∧
  match r with Ok _ => h_pos h' = off | Err (Fail _) => works → F | Err (Panic _) => G end.
Proof.
  intros HF h Hb Hw. pose proof (allowed_spec h Hb Hw) as Ha. unfold on_error, seek, mbind, st_bind.
  destruct (allowed h) as [[o|e] h1]; destruct Ha as (Hb1&_&Hw1&Ho); [|split_and!; [done..|by intros ?%Ho]].
  unfold bail_if. destruct (N.leb_spec (2 ^ 63) off); simpl; repeat split; auto.
Qed.

Lemma does_exact_at f g off n F G :
  ((2 ^ 63 ≤ off)%N → F) → ((blen b < off + n)%N → F) →
  does works b (exact_at f g off n) (λ bs, bytes_of (byte_at b) off (N.to_nat n) = Some bs) F G.
Proof.
  intros HF HF' h Hb Hw. unfold exact_at, mbind, st_bind.
  pose proof (seek_spec f off F G HF h Hb Hw) as Hs.
  destruct (on_error f (seek off) h) as [[[]|[e|w]] h1]; destruct Hs as (Hb1&Hw1&Hr); [|done..].
  pose proof (allowed_spec h1 Hb1 Hw1) as Ha. unfold on_error, read_exact, mbind, st_bind.
  destruct (allowed h1) as [[o|e] h2]; destruct Ha as (Hb2&Hp2&Hw2&Ho); [|split_and!; [done..|by intros ?%Ho]].
  simpl. rewrite Hb2, Hp2, Hr. set (bs := upto n (from off b)).
  assert (blen bs = N.min n (blen b - off)) as Hl by (unfold bs; by rewrite blen_upto, blen_from).
  destruct (N.ltb_spec (blen bs) n) as [Hlt|Hge]; simpl; repeat split; auto.
  - intros _. apply HF'. lia.
  - unfold bs. rewrite from_upto. destruct (N.leb_spec (blen b) off).
    + assert (n = 0%N) as -> by lia. done.
    + rewrite N.min_l by lia. rewrite <-(N2Nat.id n) at 2. apply bytes_of_slice. lia.
Qed.

Lemma read_spec n h : h_bytes h = b → (works → healthy h) →
  let '(r, h') := read n h in
  h_bytes h' = b ∧ (works → healthy h') ∧
  match r with
  | Ok bs => h_pos h' = (h_pos h + blen bs)%N ∧
      ∃ m, (m ≤ n)%N ∧ (0 < n → 0 < m)%N ∧ (works → m = n) ∧ bs = upto m (from (h_pos h) b)
  | Err _ => ¬ works
  end.
Proof.
  intros Hb Hw. pose proof (allowed_spec h Hb Hw) as Ha. unfold read, mbind, st_bind.
  destruct (allowed h) as [[o|e] h1]; destruct Ha as (Hb1&Hp1&Hw1&Ho); [|by repeat split].
  simpl. rewrite Hb1, Hp1. split_and!; [done|exact Hw1|done|]. eexists. split_and!; [| | |reflexivity].
  - destruct o as [[k|]|]; lia.
  - destruct o as [[k|]|]; lia.
  - by intros ->%Ho.
Qed.

Lemma read_loop_spec fuel f want acc F G h :
  h_bytes h = b → (works → healthy h) → (want - blen acc < N.of_nat fuel)%N →
  let '(r, h') := read_loop fuel f want acc h in
  h_bytes h' = b ∧ (works → healthy h') ∧
  match r with
  | Ok bs => bs = acc ++ upto (want - blen acc) (from (h_pos h) b)
  | Err (Fail _) => works → F | Err (Panic _) => G
  end.
Proof.
  revert acc h. induction fuel as [|fuel IH]; intros acc h Hb Hw Hf; cbn [read_loop].
  { lia. }
  destruct (N.leb_spec want (blen acc)) as [Hle|Hlt].
  { repeat split; auto. replace (want - blen acc)%N with 0%N by lia.
    unfold upto. rewrite N.min_0_l. by rewrite app_nil_r. }
  unfold mbind, st_bind, on_error. pose proof (read_spec (want - blen acc) h Hb Hw) as Hr.
  destruct (read _ h) as [[bs|e] h1]; destruct Hr as (Hb1&Hw1&Hr); [|split_and!; [done..|by intros ?%Hr]].
  destruct Hr as (Hp&m&Hm&Hm0&Hmw&->). simpl. set (bs := upto m (from (h_pos h) b)) in *.
  assert (blen bs = N.min m (blen b - h_pos h)) as Hbs by (unfold bs; by rewrite blen_upto, blen_from).
  case_decide as Hnil.
  - repeat split; auto. assert (blen b - h_pos h = 0)%N as Hz by (rewrite Hnil in Hbs; unfold blen in Hbs at 1; simpl in Hbs; lia).
    rewrite upto_all by (rewrite blen_from; lia).
    assert (blen (from (h_pos h) b) = 0%N) as Hf0 by (rewrite blen_from; lia).
    destruct (from (h_pos h) b); [by rewrite app_nil_r|]. unfold blen in Hf0. simpl in Hf0. lia.
  - assert (0 < blen bs)%N by (destruct bs; [done|unfold blen; simpl; lia]).
    assert (blen (acc ++ bs) = blen acc + blen bs)%N as Happ by (unfold blen; rewrite length_app; lia).
    specialize (IH (acc ++ bs) h1 Hb1 Hw1 ltac:(lia)).
    destruct (read_loop fuel f want (acc ++ bs) h1) as [[out|[e|w]] h2]; destruct IH as (?&?&Ho); [|done..].
    repeat split; auto. rewrite Ho, Hp, Happ, <-(assoc_L app). f_equal.
    rewrite (upto_chain m (want - blen acc)) by (fold bs; lia). fold bs. rewrite from_from.
    by replace (want - blen acc - blen bs)%N with (want - (blen acc + blen bs))%N by lia.
Qed.

Lemma does_read_full f g off n F G :
  ((2 ^ 63 ≤ off)%N → F) →
  does works b (_ ← on_error f (seek off); read_full g n) (λ bs, bs = upto n (from off b)) F G.
Proof.
  intros HF h Hb Hw. unfold mbind, st_bind.
  pose proof (seek_spec f off F G HF h Hb Hw) as Hs.
  destruct (on_error f (seek off) h) as [[[]|[e|w]] h1]; destruct Hs as (Hb1&Hw1&Hr); [|done..].
  unfold read_full. rewrite <-Hr.
  pose proof (read_loop_spec (S (N.to_nat n)) g n [] F G h1 Hb1 Hw1 ltac:(unfold blen; simpl; lia)) as Hl.
  destruct (read_loop _ g n [] h1) as [[out|[e|w]] h2]; [|done..].
  by rewrite N.sub_0_r in Hl.
Qed.

(** One [read] at an offset: a prefix, the whole of it on a disk that works. *)
Lemma does_read_once f g off n F G :
  ((2 ^ 63 ≤ off)%N → F) →
  does works b (_ ← on_error f (seek off); on_error g (read n))
    (λ bs, ∃ m, (m ≤ n)%N ∧ (0 < n → 0 < m)%N ∧ (works → m = n) ∧ bs = upto m (from off b)) F G.
Proof.
  intros HF h Hb Hw. unfold mbind, st_bind.
  pose proof (seek_spec f off F G HF h Hb Hw) as Hs.
  destruct (on_error f (seek off) h) as [[[]|[e|w]] h1]; destruct Hs as (Hb1&Hw1&Hr); [|done..].
  unfold on_error. pose proof (read_spec n h1 Hb1 Hw1) as Hl. rewrite Hr in Hl.
  destruct (read n h1) as [[out|e] h2]; destruct Hl as (?&?&Hl); [|split_and!; [done..|by intros ?%Hl]].
  destruct Hl as [_ Hl]. by repeat split.
Qed.
End does.
