(* ===== verification/DiskImage.v ===== *)
(** * DiskImage: what every disk reader offers, and the raw reader

    crates/celimage/src/disk.rs, format.rs, raw.rs and the checksum of lib.rs.
    A reader is its static data (the fields of the struct other than the file)
    with the file it reads from; the trait is a class, whose promise,
    [DiskLaws], says that a read answers with bytes of the virtual disk.  The
    checksum is shown exact against that promise. *)
From S2P Require Import Prelude.
From S2P Require Import Errors.
From S2P Require Import Vault.
From S2P Require Import Crc.
From S2P Require Import DiskFile.
From Stdlib Require Import Strings.Byte.

Inductive FormatKind := Raw | Qcow2 | Vmdk | Vhdx.
#[export] Instance FormatKind_eq_dec : EqDecision FormatKind.
Proof. solve_decision. Defined.
Definition tag (k : FormatKind) : string :=
  match k with Raw => "raw" | Qcow2 => "qcow2" | Vmdk => "vmdk" | Vhdx => "vhdx" end.

Record ImageInfo := mkImageInfo {
  ii_format : FormatKind; ii_virtual_size : N; ii_cluster_size : option N; ii_backend : string
}.

(** [read_at off n] is a read into a buffer of [n] bytes: the bytes it has put
    at the front of the buffer. *)
Class DiskImage (I : Type) := {
  info : I → ImageInfo;
  virtual_size : I → N;
  read_at : N → N → st I Fault bytes
}.

Definition CHUNK : N := 64 * 1024.

Section defaults.
Context {I : Type} `{DiskImage I}.

(** The default [read_exact_at], which callers loop with. *)
Fixpoint read_exact_loop (fuel : nat) (offset n : N) (acc : bytes) : st I Fault bytes :=
  match fuel with
  | O => mthrow (Panic "out of fuel")
  | S fuel' =>
      if (n =? 0)%N then mret acc
      else bs ← read_at offset n;
           if decide (bs = []) then mthrow (Fail (Invalid "disk: short read"))
           else read_exact_loop fuel' (offset + blen bs) (n - blen bs) (acc ++ bs)
  end.
Definition read_exact_at (offset n : N) : st I Fault bytes :=
  read_exact_loop (S (N.to_nat n)) offset n [].

(** [full_image_crc32c]. *)
Fixpoint checksum_loop (fuel : nat) (total crc offset : N) : st I Fault N :=
  match fuel with
  | O => mthrow (Panic "out of fuel")
  | S fuel' =>
      if (offset <? total)%N then
        let want := N.min CHUNK (total - offset) in
        buf ← read_at offset want;
        if decide (buf = [])
        then mthrow (Fail (Invalid "full_image_crc32c: short read before virtual_size"))
        else checksum_loop fuel' total (crc32c_continue crc buf) (offset + blen buf)
      else mret crc
  end.
Definition full_image_crc32c : st I Fault N :=
  img ← get_st;
  let total := virtual_size img in
  _ ← bail_if (total =? 0)%N (Fail (Invalid "full_image_crc32c: virtual size is zero"));
  crc ← checksum_loop (S (N.to_nat total)) total CRC_INIT 0;
  mret (N.lxor crc CRC_INIT).
End defaults.

(** A reader: its fields and its file. *)
Record Image (D : Type) := mkImage { im_data : D; im_file : Handle }.
Arguments mkImage {D}.
Arguments im_data {D}.
Arguments im_file {D}.
Definition on_file {D A} (m : D → M A) : st (Image D) Fault A := λ i,
  zoom im_file (λ h i, mkImage (im_data i) h) (m (im_data i)) i.
(** The end of [open]: the struct takes the file. *)
Definition opened {D} (d : D) : M (Image D) := h ← get_st; mret (mkImage d h).

(** A backend: the two methods it implements on its fields.  (The two backends
    that override [virtual_size] answer the size [info] has.) *)
Class Reader (D : Type) := {
  rd_info : D → ImageInfo;
  rd_read : N → N → D → M bytes
}.
#[export] Instance reader_image {D} `{Reader D} : DiskImage (Image D) := {|
  info := λ i, rd_info (im_data i);
  virtual_size := λ i, ii_virtual_size (rd_info (im_data i));
  read_at := λ offset n, on_file (rd_read offset n)
|}.

(** ** Raw images *)
Record RawData := mkRawData { rd_path : string; rd_size : N }.
Abbreviation RawImage := (Image RawData).
Definition raw_open (path : string) : M RawImage :=
  _ ← on_error (io ("open " +:+ path)) file_open;
  size ← on_error (io ("stat " +:+ path)) metadata_len;
  opened (mkRawData path size).
Definition raw_info (d : RawData) : ImageInfo := mkImageInfo Raw (rd_size d) None "raw".
Definition raw_read_at (offset n : N) (d : RawData) : M bytes :=
  if (n =? 0)%N then mret []
  else if (rd_size d <=? offset)%N then mret []
  else
    let want := N.min n (rd_size d - offset) in
    _ ← on_error (io ("seek " +:+ rd_path d)) (seek offset);
    read_full (io ("read " +:+ rd_path d)) want.
#[export] Instance raw_reader : Reader RawData := {| rd_info := raw_info; rd_read := raw_read_at |}.

(** ** Format detection *)
Definition starts_with (magic header : bytes) : bool :=
  (blen magic <=? blen header)%N && bool_decide (take (length magic) header = magic).
Definition QCOW2_MAGIC : bytes := [x51; x46; x49; xfb].
Definition VMDK_MAGIC : bytes := [x4b; x44; x4d; x56].
Definition VHDX_MAGIC : bytes := [x76; x68; x64; x78; x66; x69; x6c; x65].
Definition detect_from_bytes (header : bytes) : result Fault FormatKind :=
  if decide (header = []) then invalid "image is empty"
  else if starts_with QCOW2_MAGIC header then Ok Qcow2
  else if starts_with VMDK_MAGIC header then Ok Vmdk
  else if starts_with VHDX_MAGIC header then Ok Vhdx
  else Ok Raw.
Definition detect_format (path : string) : M FormatKind :=
  _ ← on_error (io ("open " +:+ path)) file_open;
  header ← on_error (io ("read " +:+ path)) (read 16);
  if decide (header = []) then mthrow (Fail (Invalid "image is empty")) else try (detect_from_bytes header).

(** ** The promise of a reader

    [disk_byte i p] is the byte of the virtual disk at [p], [None] if the image
    does not hold it (a damaged or an unsupported image). *)
Definition unreadable (disk : N → option byte) (off end_ : N) : Prop :=
  ∃ p, (off ≤ p < end_)%N ∧ disk p = None.

(** The outcome of reading [n] bytes at [off] of a disk of [size] bytes. *)
Definition read_answer (disk : N → option byte) (size off n : N) (bs : bytes) : Prop :=
  (blen bs ≤ n)%N ∧ (bs = [] ∨ off + blen bs ≤ size)%N ∧ bytes_of disk off (length bs) = Some bs ∧
  (bs = [] → n = 0%N ∨ (size ≤ off)%N ∨ disk off = None).
Definition read_refused (disk : N → option byte) (size off n : N) : Prop :=
  unreadable disk off (N.min (off + n) size).

Class DiskLaws (I : Type) `{DiskImage I} := {
  disk_ok : I → Prop;
  disk_byte : I → N → option byte;
  disk_works : I → Prop;
  law_read off n i : disk_ok i →
    let '(r, i') := read_at off n i in
    disk_ok i' ∧ disk_byte i' = disk_byte i ∧ info i' = info i ∧ virtual_size i' = virtual_size i ∧
    (disk_works i → disk_works i') ∧
    match r with
    | Ok bs => read_answer (disk_byte i) (virtual_size i) off n bs
    | Err (Fail _) => disk_works i → read_refused (disk_byte i) (virtual_size i) off n
    | Err (Panic _) => read_refused (disk_byte i) (virtual_size i) off n
    end
}.

Section laws.
Context {I : Type} `{DiskLaws I}.

(** The virtual disk, if all of it can be read. *)
Definition disk_content (i : I) : option bytes := bytes_of (disk_byte i) 0 (N.to_nat (virtual_size i)).

Lemma unreadable_content i off end_ d :
  unreadable (disk_byte i) off end_ → (end_ ≤ virtual_size i)%N → disk_content i = Some d → False.
Proof.
  intros (p&[_ Hp]&Hn) He. unfold disk_content. rewrite bytes_of_Some. intros [Hl Hk].
  specialize (Hk (N.to_nat p)). rewrite N2Nat.id, N.add_0_l, Hn in Hk.
  specialize (Hk ltac:(lia)). symmetry in Hk. apply lookup_ge_None_1 in Hk. lia.
Qed.

Lemma checksum_loop_spec fuel total crc i done :
  disk_ok i → virtual_size i = total → (total - blen done < N.of_nat fuel)%N → (blen done ≤ total)%N →
  bytes_of (disk_byte i) 0 (length done) = Some done → crc = crc32c_continue CRC_INIT done →
  let '(r, i') := checksum_loop fuel total crc (blen done) i in
  disk_ok i' ∧ disk_byte i' = disk_byte i ∧ info i' = info i ∧ virtual_size i' = virtual_size i ∧
  match r with
  | Ok c => ∃ d, disk_content i = Some d ∧ c = crc32c_continue CRC_INIT d
  | Err f => (∃ w, f = Panic w) ∨ disk_works i → disk_content i = None
  end.
Proof.
  revert crc i done. induction fuel as [|fuel IH]; intros crc i dn Hok Hsz Hf Hd Hb Hc; [lia|].
  cbn [checksum_loop]. destruct (N.ltb_spec (blen dn) total) as [Hlt|Hge]; cycle 1.
  { split_and!; [done..|]. exists dn. split; [|done]. unfold disk_content.
    rewrite Hsz. replace (N.to_nat total) with (length dn) by (unfold blen in *; lia). done. }
  unfold mbind, st_bind. set (want := N.min CHUNK (total - blen dn)).
  assert (0 < want)%N as Hw0 by (unfold want, CHUNK; lia).
  pose proof (law_read (blen dn) want i Hok) as Hr.
  destruct (read_at (blen dn) want i) as [[bs|f] i1]; destruct Hr as (Hok1&Hb1&Hi1&Hs1&Hw1&Hr); cycle 1.
  { split_and!; [done..|]. intros Hfw. destruct (disk_content i) as [d|] eqn:Ed; [|done]. exfalso.
    eapply (unreadable_content i (blen dn) (N.min (blen dn + want) (virtual_size i)) d); [|lia|done].
    destruct f as [e|w]; [|exact Hr]. destruct Hfw as [[w Hx]|Hfw]; [done|by apply Hr]. }
  destruct Hr as (Hn&Hin&Hbs&Hnil). case_decide as E.
  { split_and!; [done..|]. intros _. destruct (disk_content i) as [d|] eqn:Ed; [|done]. exfalso.
    destruct (Hnil E) as [?|[?|Hz]]; [lia|lia|].
    eapply (unreadable_content i (blen dn) (virtual_size i) d); [|lia|done].
    exists (blen dn). split; [lia|done]. }
  destruct Hin as [?|Hin]; [done|].
  assert (blen (dn ++ bs) = blen dn + blen bs)%N as Happ by (unfold blen; rewrite length_app; lia).
  assert (0 < blen bs)%N by (destruct bs; [done|unfold blen; simpl; lia]).
  specialize (IH (crc32c_continue crc bs) i1 (dn ++ bs) Hok1).
  rewrite Happ, Hs1, Hb1, Hi1 in IH. rewrite Hsz in IH at 1.
  destruct (checksum_loop fuel total _ (blen dn + blen bs) i1) as [r i2].
  destruct IH as (?&?&?&?&Hr).
  - done.
  - lia.
  - lia.
  - rewrite length_app. apply bytes_of_app; [done|]. exact Hbs.
  - rewrite Hc. by rewrite crc32c_continue_app.
  - split_and!; [done..|]. unfold disk_content in *. rewrite Hb1, Hs1 in Hr.
    destruct r as [c|f]; [done|]. intros [Hp|Hw]; apply Hr; auto.
Qed.

(** The checksum of a disk is the CRC-32C of its bytes. *)
Lemma full_checksum_spec i :
  disk_ok i →
  let '(r, i') := full_image_crc32c i in
  disk_ok i' ∧ disk_byte i' = disk_byte i ∧ virtual_size i' = virtual_size i ∧
  match r with
  | Ok c => (0 < virtual_size i)%N ∧ ∃ d, disk_content i = Some d ∧ c = crc32c d
  | Err (Fail _) => disk_works i → virtual_size i = 0%N ∨ disk_content i = None
  | Err (Panic _) => disk_content i = None
  end.
Proof.
  intros Hok. unfold full_image_crc32c, get_st, mbind, st_bind, bail_if, mret, st_ret, mthrow, st_throw.
  destruct (N.eqb_spec (virtual_size i) 0) as [Hz|Hz]; [split_and!; auto|]. cbv beta iota.
  pose proof (checksum_loop_spec (S (N.to_nat (virtual_size i))) (virtual_size i) CRC_INIT i [] Hok eq_refl) as Hl.
  change (blen []) with 0%N in Hl. specialize (Hl ltac:(lia) ltac:(lia) eq_refl eq_refl).
  destruct (checksum_loop _ _ _ 0 i) as [[c|f] i']; destruct Hl as (?&?&?&?&Hr).
  - destruct Hr as (d&?&->). split_and!; [done..|lia|by exists d].
  - split_and!; [done..|]. destruct f as [e|w]; [intros Hw; right; apply Hr; by right|]. apply Hr. left. by eexists.
Qed.
End laws.

(** ** Backends keep the promise

    [sound d b]: the fields belong to a file of content [b]; [denotes d b] is
    the virtual disk of that file. *)
Class ReaderLaws (D : Type) `{Reader D} := {
  sound : D → bytes → Prop;
  denotes : D → bytes → N → option byte;
  law_does works d b off n : sound d b →
    let size := ii_virtual_size (rd_info d) in
    does works b (rd_read off n d) (read_answer (denotes d b) size off n)
      (read_refused (denotes d b) size off n) (read_refused (denotes d b) size off n)
}.
#[export] Program Instance reader_laws {D} `{ReaderLaws D} : DiskLaws (Image D) := {|
  disk_ok i := sound (im_data i) (h_bytes (im_file i));
  disk_byte i := denotes (im_data i) (h_bytes (im_file i));
  disk_works i := healthy (im_file i)
|}.
Next Obligation.
  intros D HR HL off n [d h] Hok. simpl in *.
  pose proof (law_does (healthy h) d (h_bytes h) off n Hok h eq_refl id) as Hd.
  unfold on_file, zoom. simpl. destruct (rd_read off n d h) as [r h']. destruct Hd as (Hb&Hw&Hr).
  simpl. rewrite Hb. split_and!; done.
Qed.

(** The empty read, and the read past the end. *)
Lemma read_nothing disk size off n : n = 0%N ∨ (size ≤ off)%N → read_answer disk size off n [].
Proof. intros Hn. split_and!; [unfold blen; simpl; lia|by left|done|]. intros _. destruct Hn; auto. Qed.

(** A file is no longer than the operating system can address. *)
Definition file_fits (b : bytes) : Prop := (blen b < 2 ^ 63)%N.

(** The bytes of a file from [off'] on, put at [off] of the disk. *)
Lemma answer_upto disk size b off off' n want :
  (want ≤ n)%N → (0 < want)%N → (off + want ≤ size)%N →
  (∀ k, (k < want)%N → disk (off + k)%N = byte_at b (off' + k)) →
  read_answer disk size off n (upto want (from off' b)).
Proof.
  intros Hn H0 Hs Hd. rewrite from_upto. destruct (N.leb_spec (blen b) off') as [Hle|Hlt].
  { split_and!; [unfold blen; simpl; lia|by left|done|]. intros _. right; right.
    specialize (Hd 0%N H0). rewrite !N.add_0_r in Hd. rewrite Hd, byte_at_lookup.
    apply lookup_ge_None_2. unfold blen in Hle. lia. }
  set (len := N.min want (blen b - off')).
  assert (bytes_of (byte_at b) off' (N.to_nat len) = Some (slice b off' (off' + len))) as Hb.
  { rewrite <-(N2Nat.id len) at 2. apply bytes_of_slice. lia. }
  pose proof Hb as [Hl _]%bytes_of_Some. split_and!.
  - unfold blen at 1. rewrite Hl. lia.
  - right. unfold blen at 1. rewrite Hl. lia.
  - rewrite Hl. eapply bytes_of_shift; [|exact Hb]. intros k Hk. apply Hd. lia.
  - intros Hnil. rewrite Hnil in Hl. simpl in Hl. lia.
Qed.

#[export] Program Instance raw_laws : ReaderLaws RawData := {|
  sound d b := rd_size d = blen b ∧ file_fits b;
  denotes d b := byte_at b
|}.
Next Obligation.
  intros works d b off n [Hsz Hfit]. simpl. unfold raw_read_at. rewrite Hsz.
  destruct (N.eqb_spec n 0) as [->|Hn]; [apply does_ret, read_nothing; by left|].
  destruct (N.leb_spec (blen b) off) as [Hle|Hlt]; [apply does_ret, read_nothing; by right|].
  eapply does_weaken; [apply (does_read_full works b _ _ _ _ False False)| | |done].
  - unfold file_fits in Hfit. intros ?. lia.
  - intros bs ->. apply answer_upto; [lia..|done].
  - done.
Qed.

(** What [open] has made of a file. *)
Definition opens {D} `{ReaderLaws D} (works : Prop) (b : bytes) (m : M (Image D)) (F G : Prop) : Prop :=
  does works b m (λ i, sound (im_data i) b ∧ h_bytes (im_file i) = b ∧ (works → healthy (im_file i))) F G.
Lemma does_opened {D} works b (d : D) F G :
  does works b (opened d) (λ i, im_data i = d ∧ h_bytes (im_file i) = b ∧ (works → healthy (im_file i))) F G.
Proof. intros h Hb Hw. unfold opened, get_st, mbind, st_bind, mret, st_ret. by split_and!. Qed.
Lemma does_on_error {A} works b f (m : st Handle string A) (P : A → Prop) F G :
  (∀ h, h_bytes h = b → (works → healthy h) → let '(r, h') := m h in
     h_bytes h' = b ∧ (works → healthy h') ∧ match r with Ok a => P a | Err _ => ¬ works end) →
  does works b (on_error f m) P F G.
Proof.
  intros Hm h Hb Hw. unfold on_error. specialize (Hm h Hb Hw). destruct (m h) as [[a|e] h'];
    destruct Hm as (?&?&Hr); split_and!; try done. by intros ?%Hr.
Qed.
Lemma does_file_open works b f F G : does works b (on_error f file_open) (λ _, True) F G.
Proof.
  apply does_on_error. intros h Hb Hw. unfold file_open, mbind, st_bind, modify.
  pose proof (allowed_spec works b h Hb Hw) as Ha.
  destruct (allowed h) as [[o|e] h1]; destruct Ha as (?&?&?&?); by split_and!.
Qed.
Lemma does_metadata works b f F G : does works b (on_error f metadata_len) (λ n, n = blen b) F G.
Proof.
  apply does_on_error. intros h Hb Hw. unfold metadata_len, mbind, st_bind, get_st, mret, st_ret.
  pose proof (allowed_spec works b h Hb Hw) as Ha.
  destruct (allowed h) as [[o|e] h1]; destruct Ha as (Hb1&?&?&?); split_and!; try done. by rewrite Hb1.
Qed.

Lemma raw_opens works b path : file_fits b → opens works b (raw_open path) False False.
Proof.
  intros Hfit. eapply does_bind; [apply does_file_open|]. intros _ _.
  eapply does_bind; [apply does_metadata|]. intros ? ->.
  eapply does_weaken; [apply does_opened| |done..]. by intros i (->&?&?).
Qed.

(** ** Disks made of blocks

    [f] maps the blocks of the disk: [None] for a block the image cannot give,
    [Some None] for one of zeros, [Some (Some o)] for one stored at [o]. *)
Definition block_byte (b : bytes) (size : N) (f : N → option (option N)) (p : N) : option byte :=
  place ← f (p / size)%N;
  match place with None => Some x00 | Some o => byte_at b (o + p mod size) end.

Lemma same_block size p k : (p mod size + k < size)%N → ((p + k) / size = p / size)%N ∧ ((p + k) mod size = p mod size + k)%N.
Proof.
  intros Hk. assert (size ≠ 0%N) as Hs by (intros ->; revert Hk; generalize (p mod 0)%N; lia).
  assert (p + k = size * (p / size) + (p mod size + k))%N as E.
  { rewrite N.add_assoc. f_equal. by apply N.div_mod. }
  split; symmetry; [by apply (N.div_unique _ _ _ (p mod size + k))|by apply (N.mod_unique _ _ (p / size))].
Qed.

Section blocks.
Context (b : bytes) (size : N) (f : N → option (option N)).

Lemma block_zero p n : f (p / size)%N = Some None → (p mod size + N.of_nat n ≤ size)%N →
  bytes_of (block_byte b size f) p n = Some (replicate n x00).
Proof.
  intros Hf Hn. apply bytes_of_const. intros k Hk. unfold block_byte.
  destruct (same_block size p (N.of_nat k)) as [-> _]; [|by rewrite Hf].
  revert Hn. generalize (p mod size)%N. lia.
Qed.
Lemma block_data p o k : f (p / size)%N = Some (Some o) → (p mod size + k < size)%N →
  block_byte b size f (p + k) = byte_at b (o + p mod size + k).
Proof.
  intros Hf Hk. unfold block_byte. destruct (same_block size p k Hk) as [-> ->]. rewrite Hf. simpl.
  f_equal. lia.
Qed.
Lemma block_none p : f (p / size)%N = None → block_byte b size f p = None.
Proof. intros Hf. unfold block_byte. by rewrite Hf. Qed.
(** A block that is not wholly in the file. *)
Lemma block_short p o n :
  f (p / size)%N = Some (Some o) → (p mod size + n ≤ size)%N → (blen b < o + p mod size + n)%N → (0 < n)%N →
  unreadable (block_byte b size f) p (p + n).
Proof.
  intros Hf Hn Hb H0. exists (p + (n - 1))%N. split; [lia|]. rewrite (block_data p o) by (done || lia).
  rewrite byte_at_lookup. apply lookup_ge_None_2. unfold blen in Hb. lia.
Qed.
End blocks.

(** A number of the file. *)
Definition field_be (b : bytes) (off : N) (n : nat) : option N := be_word <$> bytes_of (byte_at b) off n.
Definition field_le (b : bytes) (off : N) (n : nat) : option N := le_word <$> bytes_of (byte_at b) off n.

(** ** Header buffers *)
Lemma from_0 b : from 0 b = b.
Proof. unfold from, blen. destruct b; [done|]. destruct (N.leb_spec (N.of_nat (length (b :: b0))) 0); [simpl in *; lia|done]. Qed.
Lemma slice_buffer k m b lo n :
  (lo + n ≤ blen (upto m b))%N → slice (buffer k (upto m b)) lo (lo + n) = slice b lo (lo + n).
Proof.
  intros Hn. unfold slice, buffer. unfold blen in Hn. rewrite drop_app_le by lia. rewrite take_app_le by (rewrite length_drop; lia).
  unfold upto in *. rewrite length_take in Hn. rewrite skipn_firstn_comm, take_take. f_equal. lia.
Qed.
(** The bytes of a header read in one go, complete or cut short. *)
Lemma header_bytes k m b lo n :
  (lo + N.of_nat n ≤ blen (upto m (from 0 b)))%N →
  bytes_of (byte_at b) lo n = Some (slice (buffer k (upto m (from 0 b))) lo (lo + N.of_nat n)).
Proof.
  rewrite from_0. intros Hn. rewrite slice_buffer by done. apply bytes_of_slice.
  pose proof (blen_upto m b). lia.
Qed.
Lemma header_le name k m b lo w :
  (lo + w ≤ blen (upto m (from 0 b)))%N → (lo + w < 2 ^ 64)%N →
  ∃ v, le_at name w (buffer k (upto m (from 0 b))) lo = Ok v ∧ field_le b lo (N.to_nat w) = Some v.
Proof.
  intros Hn H64. set (buf := buffer k (upto m (from 0 b))). exists (le_word (slice buf lo (lo + w))). split.
  - unfold le_at, checked_add. rewrite (proj2 (checked_Some 64 (lo + w) (lo + w))) by done. simpl.
    unfold get_range. rewrite (proj2 (N.leb_le lo (lo + w))) by lia.
    assert (lo + w ≤ blen buf)%N as Hb by (unfold buf, buffer, blen in *; rewrite length_app; lia).
    by rewrite (proj2 (N.leb_le _ _) Hb).
  - unfold field_le. rewrite (header_bytes k m) by (rewrite N2Nat.id; done). by rewrite N2Nat.id.
Qed.
Lemma field_le_fits b off n v : field_le b off n = Some v → fits (8 * N.of_nat n) v.
Proof. unfold field_le. intros (bs&[<- _]%bytes_of_Some&->)%fmap_Some. apply le_word_fits. Qed.
Lemma field_le_None b off n : (blen b < off + N.of_nat n)%N → (0 < n)%nat → field_le b off n = None.
Proof.
  intros Hb Hn. unfold field_le. destruct (bytes_of (byte_at b) off n) as [bs|] eqn:E; [|done]. exfalso.
  apply bytes_of_Some in E as [<- Hk]. specialize (Hk (pred (length bs)) ltac:(lia)).
  rewrite byte_at_lookup, lookup_ge_None_2 in Hk; [|unfold blen in Hb; lia].
  symmetry in Hk. apply lookup_ge_None_1 in Hk. lia.
Qed.

(** ** Filling a buffer block by block

    The loop of the two readers that fill the whole buffer: [piece cur n] puts
    the [n] bytes at [cur], which lie in one block of the disk. *)
Fixpoint fill_loop (fuel : nat) (block : N) (piece : N → N → M bytes) (want cur : N) (acc : bytes) : M bytes :=
  match fuel with
  | O => mthrow (Panic "out of fuel")
  | S fuel' =>
      if (want <=? blen acc)%N then mret acc
      else
        let intra := (cur mod block)%N in
        let n := N.min (want - blen acc) (block - intra) in
        dest ← piece cur n;
        fill_loop fuel' block piece want (cur + n) (acc ++ dest)
  end.
(** The frame of their [read_at]. *)
Definition read_blocks (size block : N) (piece : N → N → M bytes) (offset n : N) : M bytes :=
  if (n =? 0)%N || (size <=? offset)%N then mret []
  else
    let want := N.min n (size - offset) in
    fill_loop (S (N.to_nat want)) block piece want offset [].

Section fill.
Context (works : Prop) (b : bytes) (disk : N → option byte) (block off want : N) (F G : Prop).
Context (piece : N → N → M bytes).
Hypothesis block_pos : (0 < block)%N.
Hypothesis piece_does : ∀ cur n,
  (off ≤ cur)%N → (0 < n)%N → (cur + n ≤ off + want)%N → (cur mod block + n ≤ block)%N →
  does works b (piece cur n) (λ bs, bytes_of disk cur (N.to_nat n) = Some bs) F G.

Lemma fill_loop_does fuel acc :
  (want - blen acc < N.of_nat fuel)%N → (blen acc ≤ want)%N → bytes_of disk off (length acc) = Some acc →
  does works b (fill_loop fuel block piece want (off + blen acc) acc)
    (λ bs, bytes_of disk off (N.to_nat want) = Some bs) F G.
Proof.
  revert acc. induction fuel as [|fuel IH]; intros acc Hf Hle Ha; [lia|]. cbn [fill_loop].
  destruct (N.leb_spec want (blen acc)) as [Hd|Hlt].
  { apply does_ret. replace (N.to_nat want) with (length acc) by (unfold blen in *; lia). done. }
  set (cur := (off + blen acc)%N). pose proof (N.mod_lt cur block ltac:(lia)) as Hmod.
  set (n := N.min (want - blen acc) (block - cur mod block)).
  assert (0 < n ∧ n ≤ want - blen acc ∧ n ≤ block - cur mod block)%N as (Hn0&Hnw&Hnb) by (unfold n; lia).
  eapply does_bind.
  - apply piece_does; [lia..| |]; [unfold cur; lia|]. revert Hmod Hnb. generalize (cur mod block)%N. lia.
  - intros bs Hbs. pose proof Hbs as [Hl _]%bytes_of_Some.
    assert (blen (acc ++ bs) = blen acc + n)%N as Happ by (unfold blen; rewrite length_app, Hl; lia).
    replace (cur + n)%N with (off + blen (acc ++ bs))%N by (rewrite Happ; unfold cur; lia).
    apply IH; [lia|lia|]. rewrite length_app, Hl. apply bytes_of_app; [done|]. exact Hbs.
Qed.
End fill.

Lemma read_blocks_does works b disk size block piece off n :
  (0 < block)%N →
  (∀ cur k, (off ≤ cur)%N → (0 < k)%N → (cur + k ≤ N.min (off + n) size)%N → (cur mod block + k ≤ block)%N →
     does works b (piece cur k) (λ bs, bytes_of disk cur (N.to_nat k) = Some bs)
       (read_refused disk size off n) (read_refused disk size off n)) →
  does works b (read_blocks size block piece off n) (read_answer disk size off n)
    (read_refused disk size off n) (read_refused disk size off n).
Proof.
  intros H0 Hp. unfold read_blocks.
  destruct (N.eqb_spec n 0) as [->|Hn]; [apply does_ret, read_nothing; by left|].
  destruct (N.leb_spec size off) as [Hle|Hlt]; [apply does_ret, read_nothing; by right|]. cbn [orb].
  set (want := N.min n (size - off)).
  pose proof (fill_loop_does works b disk block off want (read_refused disk size off n)
    (read_refused disk size off n) piece H0) as Hd.
  specialize (Hd ltac:(intros; apply Hp; (done || lia)) (S (N.to_nat want)) []).
  change (blen []) with 0%N in Hd. rewrite N.add_0_r in Hd.
  eapply does_weaken; [apply Hd; (done || lia)| |done|done].
  - intros bs Hbs. pose proof Hbs as [Hl _]%bytes_of_Some.
    assert (blen bs = want) as Hb by (unfold blen; rewrite Hl; lia).
    split_and!; [rewrite Hb; lia|right; rewrite Hb; lia|by rewrite Hl|]. intros ->. unfold blen in Hb. simpl in Hb. lia.
Qed.
(** A piece of zeros, and a piece of the file. *)
Lemma piece_zero works b size f p n F G :
  f (p / size)%N = Some None → (p mod size + n ≤ size)%N →
  does works b (mret (zeros n)) (λ bs, bytes_of (block_byte b size f) p (N.to_nat n) = Some bs) F G.
Proof. intros Hf Hn. apply does_ret. unfold zeros. apply block_zero; [done|]. by rewrite N2Nat.id. Qed.
Lemma piece_data works b size f p o n e1 e2 F G :
  file_fits b → f (p / size)%N = Some (Some o) → (p mod size + n ≤ size)%N → (0 < n)%N →
  (unreadable (block_byte b size f) p (p + n) → F) →
  does works b (exact_at e1 e2 (o + p mod size) n)
    (λ bs, bytes_of (block_byte b size f) p (N.to_nat n) = Some bs) F G.
Proof.
  intros Hfit Hf Hn H0 HF. eapply does_weaken; [apply does_exact_at with (F := F)| |done|done].
  - intros ?. apply HF, (block_short b size f p o); [done..| |done]. unfold file_fits in Hfit.
    revert H. generalize (p mod size)%N. lia.
  - intros ?. apply HF, (block_short b size f p o); done.
  - intros bs Hbs. eapply bytes_of_shift; [|exact Hbs]. intros k Hk. apply block_data; [done|].
    revert Hn. generalize (p mod size)%N. lia.
Qed.
