(* ===== verification/Qcow2.v ===== *)
(** * Qcow2: the qcow2 reader

    crates/celimage/src/qcow2.rs: the header, the table of tables (L1) kept in
    memory, and reads through the two levels of tables, one cluster at a time.
    [qcow2_byte] is the virtual disk of a file, read off the format's tables
    byte by byte; the reader keeps the promise of [ReaderLaws] for it. *)
From S2P Require Import Prelude.
From S2P Require Import Errors.
From S2P Require Import Vault.
From S2P Require Import Crc.
From S2P Require Import DiskFile.
From S2P Require Import DiskImage.
From Stdlib Require Import Strings.Byte.

Definition L2_ENTRY_COMPRESSED : N := N.shiftl 1 62.
Definition L2_ENTRY_ZERO_CLUSTER : N := N.shiftl 1 0.
Definition L2_ENTRY_OFFSET_MASK : N := 0x00fffffffffffe00.

Record Header := mkHeader {
  h_version : N; h_cluster_bits : N; h_cluster_size : N; h_size : N; h_crypt_method : N;
  h_backing_file_offset : N; h_l1_size : N; h_l1_table_offset : N; h_incompatible_features : N
}.
Record Qcow2Data := mkQcow2Data { qd_path : string; qd_header : Header; qd_l1 : list N }.
Abbreviation Qcow2Image := (Image Qcow2Data).

(** [1u64.checked_shl(bits)]. *)
Definition checked_shl_1 (bits : N) : option N := if (bits <? 64)%N then Some (N.shiftl 1 bits) else None.

Definition parse_header : M Header :=
  bs ← (_ ← on_error (io "seek 0") (seek 0); on_error (io "read header") (read 104));
  let n := blen bs in
  let buf := buffer 104 bs in
  _ ← bail_invalid (n <? 72)%N "qcow2: header truncated";
  _ ← bail_invalid (negb (bool_decide (slice buf 0 4 = QCOW2_MAGIC))) "qcow2: bad magic";
  let version := be_word (slice buf 4 8) in
  _ ← bail_invalid (negb (version =? 2)%N && negb (version =? 3)%N) "qcow2: only v2/v3 supported";
  let backing_file_offset := be_word (slice buf 8 16) in
  let cluster_bits := be_word (slice buf 20 24) in
  let size := be_word (slice buf 24 32) in
  let crypt_method := be_word (slice buf 32 36) in
  let l1_size := be_word (slice buf 36 40) in
  let l1_table_offset := be_word (slice buf 40 48) in
  let incompatible_features :=
    if (3 <=? version)%N && (80 <=? n)%N then be_word (slice buf 72 80) else 0%N in
  cluster_size ← try (ok_or (checked_shl_1 cluster_bits) (Fail (Invalid "qcow2: cluster_bits out of range")));
  mret (mkHeader version cluster_bits cluster_size size crypt_method backing_file_offset l1_size
          l1_table_offset incompatible_features).

Definition UNSUPPORTED : N := N.lor (N.shiftl 1 3) (N.shiftl 1 4).
Definition validate_header (h : Header) : M unit :=
  _ ← bail_invalid (negb ((9 <=? h_cluster_bits h)%N && (h_cluster_bits h <=? 21)%N))
        "qcow2: cluster_bits outside spec range 9..=21";
  _ ← bail_invalid (negb (h_crypt_method h =? 0)%N) "qcow2: encrypted images not supported";
  _ ← bail_invalid (negb (h_backing_file_offset h =? 0)%N) "qcow2: backing-file chains not supported";
  _ ← bail_invalid ((h_l1_table_offset h =? 0)%N || negb (N.land (h_l1_table_offset h) 0x1ff =? 0)%N)
        "qcow2: invalid l1_table_offset";
  bail_invalid ((3 <=? h_version h)%N && negb (N.land (h_incompatible_features h) UNSUPPORTED =? 0)%N)
    "qcow2: incompatible_features bit not supported (compress/extended-l2)".

Definition qcow2_open (path : string) : M Qcow2Image :=
  _ ← on_error (io ("open " +:+ path)) file_open;
  header ← parse_header;
  _ ← validate_header header;
  let l1_bytes := (h_l1_size header * 8)%N in
  _ ← vec_bytes l1_bytes;
  raw ← exact_at (io ("seek l1 " +:+ path)) (storage ("read l1 " +:+ path)) (h_l1_table_offset header) l1_bytes;
  opened (mkQcow2Data path header (be_word <$> chunks_exact 8 raw)).

Definition qcow2_info (d : Qcow2Data) : ImageInfo :=
  mkImageInfo Qcow2 (h_size (qd_header d)) (Some (h_cluster_size (qd_header d)))
    (if (h_version (qd_header d) =? 3)%N then "qcow2-v3" else "qcow2-v2").

Definition qcow2_read_at (offset n : N) (d : Qcow2Data) : M bytes :=
  let h := qd_header d in
  if (n =? 0)%N then mret []
  else if (h_size h <=? offset)%N then mret []
  else
    let max := N.min n (h_size h - offset) in
    let cs := h_cluster_size h in
    let cluster_idx := (offset / cs)%N in
    let intra := (offset mod cs)%N in
    let want := N.min max (cs - intra) in
    let l2_entries_per_cluster := (cs / 8)%N in
    let l1_index := (cluster_idx / l2_entries_per_cluster)%N in
    let l2_index := (cluster_idx mod l2_entries_per_cluster)%N in
    l1_entry ← try (ok_or (qd_l1 d !! N.to_nat l1_index) (Fail (Invalid "qcow2: l1 index past l1 table")));
    let l2_offset := N.land l1_entry L2_ENTRY_OFFSET_MASK in
    if (l2_offset =? 0)%N then mret (zeros want)
    else
      entry_bytes ← exact_at (io ("seek l2 " +:+ qd_path d)) (storage ("read l2 " +:+ qd_path d))
                      (l2_offset + l2_index * 8) 8;
      let l2_entry := be_word entry_bytes in
      _ ← bail_invalid (negb (N.land l2_entry L2_ENTRY_COMPRESSED =? 0)%N)
            "qcow2: compressed cluster not supported";
      if (3 <=? h_version h)%N && negb (N.land l2_entry L2_ENTRY_ZERO_CLUSTER =? 0)%N then mret (zeros want)
      else
        let data_offset := N.land l2_entry L2_ENTRY_OFFSET_MASK in
        if (data_offset =? 0)%N then mret (zeros want)
        else
          _ ← on_error (io ("seek data " +:+ qd_path d)) (seek (data_offset + intra));
          read_full (storage ("read data " +:+ qd_path d)) want.
#[export] Instance qcow2_reader : Reader Qcow2Data := {| rd_info := qcow2_info; rd_read := qcow2_read_at |}.

(** ** The disk of a qcow2 file *)
Definition qcow2_cluster (b : bytes) (cluster : N) : option (option N) :=
  version ← field_be b 4 4;
  bits ← field_be b 20 4;
  l1_size ← field_be b 36 4;
  l1_offset ← field_be b 40 8;
  let per_table := (2 ^ bits / 8)%N in
  let i := (cluster / per_table)%N in
  if (l1_size <=? i)%N then None
  else
    l1_entry ← field_be b (l1_offset + i * 8)%N 8;
    let table := N.land l1_entry L2_ENTRY_OFFSET_MASK in
    if (table =? 0)%N then Some None
    else
      l2_entry ← field_be b (table + cluster mod per_table * 8)%N 8;
      if negb (N.land l2_entry L2_ENTRY_COMPRESSED =? 0)%N then None
      else if (3 <=? version)%N && negb (N.land l2_entry L2_ENTRY_ZERO_CLUSTER =? 0)%N then Some None
      else
        let data := N.land l2_entry L2_ENTRY_OFFSET_MASK in
        if (data =? 0)%N then Some None else Some (Some data).
Definition qcow2_byte (b : bytes) (p : N) : option byte :=
  bits ← field_be b 20 4; block_byte b (2 ^ bits) (qcow2_cluster b) p.

(** The fields of the reader are those of the file. *)
Definition qcow2_sound (d : Qcow2Data) (b : bytes) : Prop :=
  file_fits b ∧
  field_be b 4 4 = Some (h_version (qd_header d)) ∧
  field_be b 20 4 = Some (h_cluster_bits (qd_header d)) ∧
  field_be b 24 8 = Some (h_size (qd_header d)) ∧
  field_be b 36 4 = Some (h_l1_size (qd_header d)) ∧
  field_be b 40 8 = Some (h_l1_table_offset (qd_header d)) ∧
  h_cluster_size (qd_header d) = (2 ^ h_cluster_bits (qd_header d))%N ∧
  N.of_nat (length (qd_l1 d)) = h_l1_size (qd_header d) ∧
  ∀ i, i < length (qd_l1 d) →
    field_be b (h_l1_table_offset (qd_header d) + N.of_nat i * 8)%N 8 = qd_l1 d !! i.

Lemma field_be_None b off n : (blen b < off + N.of_nat n)%N → (0 < n)%nat → field_be b off n = None.
Proof.
  intros Hb Hn. unfold field_be. destruct (bytes_of (byte_at b) off n) as [bs|] eqn:E; [|done]. exfalso.
  apply bytes_of_Some in E as [<- Hk]. specialize (Hk (pred (length bs)) ltac:(lia)).
  rewrite byte_at_lookup, lookup_ge_None_2 in Hk; [|unfold blen in Hb; lia].
  symmetry in Hk. apply lookup_ge_None_1 in Hk. lia.
Qed.

#[export] Program Instance qcow2_laws : ReaderLaws Qcow2Data := {|
  sound := qcow2_sound;
  denotes d b := qcow2_byte b
|}.
Next Obligation.
  intros works d b off n (Hfit&Hv&Hbits&Hsz&Hl1s&Hl1o&Hcs&Hlen&Hl1). simpl. unfold qcow2_read_at.
  set (h := qd_header d) in *. set (size := h_size h).
  destruct (N.eqb_spec n 0) as [->|Hn]; [apply does_ret, read_nothing; by left|].
  destruct (N.leb_spec size off) as [Hle|Hlt]; [apply does_ret, read_nothing; by right|].
  rewrite Hcs. set (cs := (2 ^ h_cluster_bits h)%N) in *.
  assert (0 < cs)%N as Hcs0 by (unfold cs; pose proof (N.pow_nonzero 2 (h_cluster_bits h)); lia).
  pose proof (N.mod_lt off cs ltac:(lia)) as Hmod.
  set (want := N.min (N.min n (size - off)) (cs - off mod cs)).
  assert (0 < want ∧ want ≤ n ∧ off + want ≤ size ∧ off mod cs + want ≤ cs)%N as (Hw0&Hwn&Hws&Hwc)
    by (unfold want; lia).
  assert (∀ p, qcow2_byte b p = block_byte b cs (qcow2_cluster b) p) as Hbyte
    by (intros p; unfold qcow2_byte; by rewrite Hbits).
  assert (qcow2_cluster b (off / cs) = None → read_refused (qcow2_byte b) size off n) as Hnone.
  { intros Hc. exists off. split; [lia|]. rewrite Hbyte. by apply block_none. }
  assert (qcow2_cluster b (off / cs) = Some None → read_answer (qcow2_byte b) size off n (zeros want)) as Hzero.
  { intros Hc. split_and!.
    - rewrite blen_zeros. lia.
    - right. rewrite blen_zeros. lia.
    - unfold zeros. rewrite length_replicate. eapply bytes_of_shift; [intros; apply Hbyte|].
      apply block_zero; [done|lia].
    - intros Hz. apply (f_equal length) in Hz. unfold zeros in Hz. rewrite length_replicate in Hz. simpl in Hz. lia. }
  assert (∀ o, qcow2_cluster b (off / cs) = Some (Some o) →
    read_answer (qcow2_byte b) size off n (upto want (from (o + off mod cs) b))) as Hdata.
  { intros o Hc. apply answer_upto; [done..|]. intros k Hk. rewrite Hbyte. apply block_data; [done|lia]. }
  set (per := (cs / 8)%N) in *. set (i1 := (off / cs / per)%N) in *. set (i2 := ((off / cs) mod per)%N) in *.
  assert (qcow2_cluster b (off / cs) =
    if (h_l1_size h <=? i1)%N then None
    else
      l1_entry ← field_be b (h_l1_table_offset h + i1 * 8)%N 8;
      let table := N.land l1_entry L2_ENTRY_OFFSET_MASK in
      if (table =? 0)%N then Some None
      else
        l2_entry ← field_be b (table + i2 * 8)%N 8;
        if negb (N.land l2_entry L2_ENTRY_COMPRESSED =? 0)%N then None
        else if (3 <=? h_version h)%N && negb (N.land l2_entry L2_ENTRY_ZERO_CLUSTER =? 0)%N then Some None
        else
          let data := N.land l2_entry L2_ENTRY_OFFSET_MASK in
          if (data =? 0)%N then Some None else Some (Some data)) as Emap
    by (unfold qcow2_cluster; by rewrite Hv, Hbits, Hl1s, Hl1o).
  eapply does_bind with (P := λ e, qd_l1 d !! N.to_nat i1 = Some e).
  { apply does_try. destruct (qd_l1 d !! N.to_nat i1) eqn:El; [done|]. intros _. apply Hnone.
    rewrite Emap. apply lookup_ge_None_1 in El. destruct (N.leb_spec (h_l1_size h) i1); [done|lia]. }
  intros l1_entry El. pose proof (lookup_lt_Some _ _ _ El) as Hi1.
  assert ((h_l1_size h <=? i1)%N = false) as Hle1 by (apply N.leb_gt; lia).
  pose proof (Hl1 (N.to_nat i1) Hi1) as Ef1. rewrite N2Nat.id, El in Ef1.
  rewrite Hle1, Ef1 in Emap. simpl in Emap. set (table := N.land l1_entry L2_ENTRY_OFFSET_MASK) in *.
  destruct (table =? 0)%N; [by apply does_ret, Hzero|].
  eapply does_bind.
  { assert ((blen b < table + i2 * 8 + 8)%N → read_refused (qcow2_byte b) size off n) as Hshort.
    { intros Hb. apply Hnone. rewrite Emap, field_be_None by (simpl; lia). done. }
    apply does_exact_at; [|done]. intros ?. apply Hshort. unfold file_fits in Hfit. lia. }
  intros entry Ee. assert (field_be b (table + i2 * 8) 8 = Some (be_word entry)) as Ef2
    by (change 8%nat with (N.to_nat 8); unfold field_be; by rewrite Ee).
  rewrite Ef2 in Emap. simpl in Emap. set (l2_entry := be_word entry) in *.
  eapply does_bind; [apply does_bail_invalid; intros _ Hc; apply Hnone; by rewrite Emap, Hc|].
  intros [] Hcomp. rewrite Hcomp in Emap.
  destruct ((3 <=? h_version h)%N && negb (N.land l2_entry L2_ENTRY_ZERO_CLUSTER =? 0)%N); [by apply does_ret, Hzero|].
  destruct (N.land l2_entry L2_ENTRY_OFFSET_MASK =? 0)%N; [by apply does_ret, Hzero|].
  eapply does_weaken; [apply does_read_full with (F := read_refused (qcow2_byte b) size off n)| |done|done].
  - intros Hbig. eexists off. split; [lia|]. rewrite Hbyte. rewrite <-(N.add_0_r off) at 1.
    erewrite block_data; [|exact Emap|lia]. rewrite byte_at_lookup. apply lookup_ge_None_2.
    unfold file_fits, blen in Hfit. lia.
  - intros bs ->. by apply Hdata.
Qed.

(** ** Opening *)
(** The files the reader accepts. *)
Record qcow2_valid (b : bytes) : Prop := mkValid {
  qv_length : (72 ≤ blen b)%N;
  qv_magic : bytes_of (byte_at b) 0 4 = Some QCOW2_MAGIC;
  qv_version : field_be b 4 4 = Some 2%N ∨ field_be b 4 4 = Some 3%N;
  qv_backing : field_be b 8 8 = Some 0%N;
  qv_bits : ∃ bits, field_be b 20 4 = Some bits ∧ (9 ≤ bits ≤ 21)%N;
  qv_crypt : field_be b 32 4 = Some 0%N;
  qv_l1 : ∃ n off, field_be b 36 4 = Some n ∧ field_be b 40 8 = Some off ∧
    off ≠ 0%N ∧ N.land off 0x1ff = 0%N ∧ (off + n * 8 ≤ blen b)%N;
  qv_features : field_be b 4 4 = Some 3%N → (80 ≤ blen b)%N →
    ∃ bits, field_be b 72 8 = Some bits ∧ N.land bits UNSUPPORTED = 0%N
}.

Definition header_of (works : Prop) (b : bytes) (h : Header) : Prop :=
  (72 ≤ blen b)%N ∧ bytes_of (byte_at b) 0 4 = Some QCOW2_MAGIC ∧
  field_be b 4 4 = Some (h_version h) ∧ (h_version h = 2%N ∨ h_version h = 3%N) ∧
  field_be b 8 8 = Some (h_backing_file_offset h) ∧
  field_be b 20 4 = Some (h_cluster_bits h) ∧ h_cluster_size h = (2 ^ h_cluster_bits h)%N ∧
  field_be b 24 8 = Some (h_size h) ∧ field_be b 32 4 = Some (h_crypt_method h) ∧
  field_be b 36 4 = Some (h_l1_size h) ∧ field_be b 40 8 = Some (h_l1_table_offset h) ∧
  (works → h_version h = 3%N → (80 ≤ blen b)%N → field_be b 72 8 = Some (h_incompatible_features h)) ∧
  (h_incompatible_features h = 0%N ∨ h_version h = 3%N ∧ field_be b 72 8 = Some (h_incompatible_features h)).

Lemma parse_header_spec works b :
  does works b parse_header (header_of works b) (¬ qcow2_valid b) False.
Proof.
  eapply does_bind; [apply does_read_once; lia|]. intros bs (m&Hm&_&Hw&->).
  set (buf := buffer 104 (upto m (from 0 b))).
  assert (blen (upto m (from 0 b)) = N.min m (blen b)) as Hlen by (rewrite from_0; apply blen_upto).
  eapply does_bind; [apply does_bail_invalid; intros Hp Hc%N.ltb_lt [Hl _ _ _ _ _ _ _]; rewrite Hlen, (Hw Hp) in Hc; lia|]. intros [] H72%N.ltb_ge.
  assert (∀ lo n, (lo + N.of_nat n ≤ 72)%N → bytes_of (byte_at b) lo n = Some (slice buf lo (lo + N.of_nat n))) as Hbytes
    by (intros; apply header_bytes; lia).
  assert (∀ lo n, (lo + N.of_nat n ≤ 72)%N → field_be b lo n = Some (be_word (slice buf lo (lo + N.of_nat n)))) as Hf
    by (intros; unfold field_be; by rewrite Hbytes).
  pose proof (Hbytes 0%N 4 ltac:(done)) as Hmagic. change (0 + N.of_nat 4)%N with 4%N in Hmagic.
  pose proof (Hf 4%N 4 ltac:(done)) as Hv. change (4 + N.of_nat 4)%N with 8%N in Hv.
  pose proof (Hf 8%N 8 ltac:(done)) as Hback. change (8 + N.of_nat 8)%N with 16%N in Hback.
  pose proof (Hf 20%N 4 ltac:(done)) as Hbits. change (20 + N.of_nat 4)%N with 24%N in Hbits.
  pose proof (Hf 24%N 8 ltac:(done)) as Hsize. change (24 + N.of_nat 8)%N with 32%N in Hsize.
  pose proof (Hf 32%N 4 ltac:(done)) as Hcrypt. change (32 + N.of_nat 4)%N with 36%N in Hcrypt.
  pose proof (Hf 36%N 4 ltac:(done)) as Hl1s. change (36 + N.of_nat 4)%N with 40%N in Hl1s.
  pose proof (Hf 40%N 8 ltac:(done)) as Hl1o. change (40 + N.of_nat 8)%N with 48%N in Hl1o.
  eapply does_bind.
  { apply does_bail_invalid. intros _ Hc Hq. pose proof (qv_magic b Hq) as Hm'.
    rewrite Hmagic in Hm'. injection Hm' as Hm'. rewrite Hm', bool_decide_eq_true_2 in Hc; done. }
  intros [] Hmag%negb_false_iff%bool_decide_eq_true_1. rewrite Hmag in Hmagic.
  set (version := be_word (slice buf 4 8)) in *.
  eapply does_bind.
  { apply does_bail_invalid. intros _ Hc Hq. pose proof (qv_version b Hq) as Hv'. rewrite Hv in Hv'.
    apply andb_true_iff in Hc as [Hc2%negb_true_iff%N.eqb_neq Hc3%negb_true_iff%N.eqb_neq].
    destruct Hv'; congruence. }
  intros [] Hver. assert (version = 2%N ∨ version = 3%N) as Hver'.
  { apply andb_false_iff in Hver as [Hc%negb_false_iff%N.eqb_eq|Hc%negb_false_iff%N.eqb_eq]; auto. }
  set (bits := be_word (slice buf 20 24)) in *.
  eapply does_bind with (P := λ c, c = (2 ^ bits)%N).
  { apply does_try. unfold checked_shl_1, ok_or. destruct (N.ltb_spec bits 64).
    - apply N.shiftl_1_l.
    - intros _ Hq. destruct (qv_bits b Hq) as (k&Hk&?). rewrite Hbits in Hk. injection Hk as <-. lia. }
  intros csize ->. apply does_ret.
  assert (80 ≤ blen (upto m (from 0 b)) → field_be b 72 8 = Some (be_word (slice buf 72 80)))%N as Hfeat.
  { intros Hn. unfold field_be. rewrite (header_bytes 104 m) by (simpl; lia). done. }
  unfold header_of. cbn [h_version h_cluster_bits h_cluster_size h_size h_crypt_method h_backing_file_offset
    h_l1_size h_l1_table_offset h_incompatible_features].
  split_and!; try done; [lia| |].
  - intros Hp H3 H80. rewrite H3. assert (80 ≤ blen (upto m (from 0 b)))%N as Hn by (rewrite Hlen, (Hw Hp); lia).
    apply N.leb_le in Hn as Hn'. rewrite Hn'. by apply Hfeat.
  - destruct (N.leb_spec 3 version) as [H3|H3]; [|by left]. destruct (N.leb_spec 80 (blen (upto m (from 0 b)))); [|by left].
    right. split; [lia|by apply Hfeat].
Qed.

Lemma validate_header_spec works b h :
  header_of works b h →
  does works b (validate_header h)
    (λ _, (9 ≤ h_cluster_bits h ≤ 21)%N ∧ h_crypt_method h = 0%N ∧ h_backing_file_offset h = 0%N ∧
       h_l1_table_offset h ≠ 0%N ∧ N.land (h_l1_table_offset h) 0x1ff = 0%N ∧
       (h_version h = 3%N → N.land (h_incompatible_features h) UNSUPPORTED = 0%N))
    (¬ qcow2_valid b) False.
Proof.
  intros (Hl&Hm&Hv&Hvv&Hback&Hbits&Hcs&Hsize&Hcrypt&Hl1s&Hl1o&Hfw&Hf). unfold validate_header.
  eapply does_bind.
  { apply does_bail_invalid. intros _ Hc Hq. destruct (qv_bits b Hq) as (k&Hk&?).
    rewrite Hbits in Hk. injection Hk as <-.
    apply negb_true_iff, andb_false_iff in Hc as [Hc%N.leb_gt|Hc%N.leb_gt]; lia. }
  intros [] [H9%N.leb_le H21%N.leb_le]%negb_false_iff%andb_true_iff.
  eapply does_bind.
  { apply does_bail_invalid. intros _ Hc%negb_true_iff%N.eqb_neq Hq. pose proof (qv_crypt b Hq). congruence. }
  intros [] Hc0%negb_false_iff%N.eqb_eq.
  eapply does_bind.
  { apply does_bail_invalid. intros _ Hc%negb_true_iff%N.eqb_neq Hq. pose proof (qv_backing b Hq). congruence. }
  intros [] Hb0%negb_false_iff%N.eqb_eq.
  eapply does_bind.
  { apply does_bail_invalid. intros _ Hc Hq. destruct (qv_l1 b Hq) as (k&off&Hk&Ho&Hn&Ha&_).
    rewrite Hl1o in Ho. injection Ho as <-.
    apply orb_true_iff in Hc as [Hc%N.eqb_eq|Hc%negb_true_iff%N.eqb_neq]; done. }
  intros [] [Ho%N.eqb_neq Ha%negb_false_iff%N.eqb_eq]%orb_false_iff.
  eapply does_weaken; [apply does_bail_invalid with (F := ¬ qcow2_valid b)| |done|done].
  - intros Hp Hc Hq. apply andb_true_iff in Hc as [H3%N.leb_le Hc%negb_true_iff%N.eqb_neq].
    destruct Hf as [Hz|[H3' Hf]]; [by rewrite Hz in Hc|]. rewrite H3' in Hv.
    assert (80 ≤ blen b)%N as H80.
    { destruct (N.le_gt_cases 80 (blen b)) as [|Hlt]; [done|]. by rewrite field_be_None in Hf by (simpl; lia). }
    destruct (qv_features b Hq Hv H80) as (k&Hk&Hk0). congruence.
  - intros [] Hc. split_and!; try done. intros H3. rewrite H3 in Hc. simpl in Hc.
    by apply negb_false_iff, N.eqb_eq in Hc.
Qed.

Lemma qcow2_opens works b path :
  file_fits b → opens works b (qcow2_open path) (¬ qcow2_valid b) False.
Proof.
  intros Hfit. eapply does_bind; [apply does_file_open|]. intros _ _.
  eapply does_bind; [apply parse_header_spec|]. intros h Hh.
  eapply does_bind; [by apply validate_header_spec|]. intros [] (Hbits&_&_&_&_&_).
  destruct Hh as (Hl&Hm&Hv&Hvv&Hback&Hfb&Hcs&Hsize&Hcrypt&Hl1s&Hl1o&_).
  assert (h_l1_size h < 2 ^ 32)%N as H32.
  { unfold field_be in Hl1s. apply fmap_Some in Hl1s as (bs&[Hlen _]%bytes_of_Some&->).
    pose proof (le_word_fits (rev bs)) as Hf. rewrite length_rev, Hlen in Hf. exact Hf. }
  eapply does_bind; [apply does_vec; change (2 ^ 63)%N with 9223372036854775808%N; change (2 ^ 32)%N with 4294967296%N in H32; lia|].
  intros [] _. eapply does_bind.
  { assert ((blen b < h_l1_table_offset h + h_l1_size h * 8)%N → ¬ qcow2_valid b) as Hshort.
    { intros Hb Hq. destruct (qv_l1 b Hq) as (n&off&Hn&Ho&_&_&Hin). rewrite Hl1s in Hn. rewrite Hl1o in Ho.
      injection Hn as <-. injection Ho as <-. lia. }
    apply does_exact_at; [|done]. intros ?. destruct (N.eq_dec (h_l1_size h) 0) as [Hz|]; [|apply Hshort; unfold file_fits in Hfit; lia].
    intros Hq. destruct (qv_l1 b Hq) as (n&off&Hn&Ho&_&_&Hin). rewrite Hl1o in Ho. injection Ho as <-.
    unfold file_fits in Hfit. lia. }
  intros raw Hraw.
  assert (N.to_nat (h_l1_size h * 8) = N.to_nat (h_l1_size h) * 8)%nat as E8 by lia. rewrite E8 in Hraw.
  apply chunks_exact_spec in Hraw as [Hlen Hi]; [|lia].
  eapply does_weaken; [apply does_opened| |done..]. intros i (->&Hbi&Hwi). split; [|done].
  split_and!; try done; cbn [qd_l1 qd_header].
  - rewrite length_fmap, Hlen. lia.
  - intros k Hk. rewrite length_fmap, Hlen in Hk. rewrite list_lookup_fmap, <-Hi by done.
    unfold field_be. done.
Qed.
