(* ===== verification/VmdkDisk.v ===== *)
(** * VmdkDisk: the VMDK reader

    crates/celimage/src/vmdk.rs, for the monolithic sparse layout: the grain
    directory kept in memory, a grain table read anew for every piece, and a
    read that fills the whole buffer grain by grain.  [vmdk_byte] is the
    virtual disk of a file.  The reader keeps the promise of [ReaderLaws];
    opening can panic, on a header whose directory would be larger than
    memory can address. *)
From S2P Require Import Prelude.
From S2P Require Import Errors.
From S2P Require Import Vault.
From S2P Require Import Crc.
From S2P Require Import DiskFile.
From S2P Require Import DiskImage.
From Stdlib Require Import Strings.Byte.

Definition SECTOR : N := 512.
Definition VMDK_MAGIC_LE : N := 0x564d444b.

Record VmdkHeader := mkVmdkHeader {
  vh_capacity_sectors : N; vh_grain_size_sectors : N; vh_descriptor_offset_sectors : N;
  vh_descriptor_size_sectors : N; vh_num_gtes_per_gt : N; vh_gd_offset_sectors : N;
  vh_overhead_sectors : N; vh_compress_algorithm : N; vh_flags : N
}.
Record VmdkData := mkVmdkData {
  vd_path : string; vd_virtual_size : N; vd_grain_size_sectors : N; vd_num_gtes_per_gt : N; vd_gd : list N
}.
Abbreviation VmdkImage := (Image VmdkData).

Definition vmdk_parse_header : M VmdkHeader :=
  bs ← (_ ← on_error (io "seek 0") (seek 0); on_error (io "read header") (read 512));
  let n := blen bs in
  let buf := buffer 512 bs in
  _ ← bail_invalid (n <? 80)%N "vmdk: header truncated";
  magic ← try (le_u32 buf 0);
  _ ← bail_invalid (negb (magic =? VMDK_MAGIC_LE)%N) "vmdk: bad magic (not KDMV)";
  version ← try (le_u32 buf 4);
  _ ← bail_invalid (negb ((1 <=? version)%N && (version <=? 3)%N)) "vmdk: unsupported sparse extent version";
  flags ← try (le_u32 buf 8);
  capacity_sectors ← try (le_u64 buf 12);
  grain_size_sectors ← try (le_u64 buf 20);
  descriptor_offset_sectors ← try (le_u64 buf 28);
  descriptor_size_sectors ← try (le_u64 buf 36);
  num_gtes_per_gt ← try (le_u32 buf 44);
  _ ← try (le_u64 buf 48);
  gd_offset_sectors ← try (le_u64 buf 56);
  overhead_sectors ← try (le_u64 buf 64);
  let compress_algorithm := le_word (slice buf 77 79) in
  mret (mkVmdkHeader capacity_sectors grain_size_sectors descriptor_offset_sectors descriptor_size_sectors
          num_gtes_per_gt gd_offset_sectors overhead_sectors compress_algorithm flags).

Definition is_power_of_two (n : N) : bool := negb (n =? 0)%N && (N.land n (n - 1) =? 0)%N.
(** The last check of the code only logs. *)
Definition vmdk_validate_header (h : VmdkHeader) : M unit :=
  let grain := vh_grain_size_sectors h in
  let gtes := vh_num_gtes_per_gt h in
  _ ← bail_invalid (negb (vh_compress_algorithm h =? 0)%N)
        "vmdk: compressed (streamOptimized) extents not supported";
  _ ← bail_invalid ((grain <? 8)%N || (N.shiftl 1 20 <? grain)%N || negb (is_power_of_two grain))
        "vmdk: grain_size_sectors out of spec";
  _ ← bail_invalid ((gtes =? 0)%N || negb (is_power_of_two gtes))
        "vmdk: num_gtes_per_gt must be a power of two";
  _ ← bail_invalid (vh_gd_offset_sectors h =? 0)%N
        "vmdk: gd_offset == 0 (descriptor-only / multi-extent images not supported)";
  _ ← bail_invalid (vh_overhead_sectors h =? 0)%N "vmdk: overhead == 0 (malformed)";
  bail_invalid
    (negb (vh_descriptor_size_sectors h =? 0)%N &&
     bool_decide (checked_add 64 (vh_descriptor_offset_sectors h) (vh_descriptor_size_sectors h) = None))
    "vmdk: descriptor offset+size overflow".

Definition div_ceil (a b : N) : N := (a / b + if (a mod b =? 0)%N then 0 else 1)%N.

Definition vmdk_open (path : string) : M VmdkImage :=
  _ ← on_error (io ("open " +:+ path)) file_open;
  header ← vmdk_parse_header;
  _ ← vmdk_validate_header header;
  sectors_per_gt ← try (ok_or (checked_mul 64 (vh_num_gtes_per_gt header) (vh_grain_size_sectors header))
                          (Fail (Invalid "vmdk: GT coverage overflow")));
  _ ← bail_invalid (sectors_per_gt =? 0)%N "vmdk: zero sectors per GT";
  let num_gts := div_ceil (vh_capacity_sectors header) sectors_per_gt in
  gd_bytes ← try (ok_or (checked_mul 64 num_gts 4) (Fail (Invalid "vmdk: GD size overflow")));
  gd_byte_offset ← try (ok_or (checked_mul 64 (vh_gd_offset_sectors header) SECTOR)
                          (Fail (Invalid "vmdk: GD offset overflow")));
  _ ← vec_bytes gd_bytes;
  gd_raw ← exact_at (io ("seek gd " +:+ path)) (storage ("read gd " +:+ path)) gd_byte_offset gd_bytes;
  opened (mkVmdkData path (saturating_mul 64 (vh_capacity_sectors header) SECTOR)
            (vh_grain_size_sectors header) (vh_num_gtes_per_gt header) (le_word <$> chunks_exact 4 gd_raw)).

Definition load_gt (d : VmdkData) (gt_sector : N) : M (list N) :=
  bytes ← try (ok_or (checked_mul 64 (vd_num_gtes_per_gt d) 4) (Fail (Invalid "vmdk: GT byte length overflow")));
  _ ← vec_bytes bytes;
  off ← try (ok_or (checked_mul 64 gt_sector SECTOR) (Fail (Invalid "vmdk: GT offset overflow")));
  raw ← exact_at (io "seek gt") (storage "read gt") off bytes;
  mret (le_word <$> chunks_exact 4 raw).

Definition vmdk_info (d : VmdkData) : ImageInfo :=
  mkImageInfo Vmdk (vd_virtual_size d) (Some (vd_grain_size_sectors d * SECTOR)%N) "vmdk-monolithic-sparse".

Definition grain_bytes (d : VmdkData) : N := (vd_grain_size_sectors d * SECTOR)%N.
(** One turn of the loop of [read_at]. *)
Definition vmdk_piece (d : VmdkData) (cur_off chunk : N) : M bytes :=
  let intra := (cur_off mod grain_bytes d)%N in
  let grain_idx := (cur_off / grain_bytes d)%N in
  let gt_idx := (grain_idx / vd_num_gtes_per_gt d)%N in
  let gte_idx := (grain_idx mod vd_num_gtes_per_gt d)%N in
  let gd_entry := default 0%N (vd_gd d !! N.to_nat gt_idx) in
  if (gd_entry =? 0)%N || (gd_entry =? 1)%N then mret (zeros chunk)
  else
    gt ← load_gt d gd_entry;
    let gte := default 0%N (gt !! N.to_nat gte_idx) in
    if (gte =? 0)%N || (gte =? 1)%N then mret (zeros chunk)
    else
      grain_byte_off ← try (ok_or (checked_mul 64 gte SECTOR) (Fail (Invalid "vmdk: grain offset overflow")));
      exact_at (io "seek grain") (storage "read grain") (grain_byte_off + intra) chunk.
Definition vmdk_read_at (offset n : N) (d : VmdkData) : M bytes :=
  read_blocks (vd_virtual_size d) (grain_bytes d) (vmdk_piece d) offset n.
#[export] Instance vmdk_reader : Reader VmdkData := {| rd_info := vmdk_info; rd_read := vmdk_read_at |}.

(** ** The disk of a VMDK file *)
Definition vmdk_grain (b : bytes) (grain : N) : option (option N) :=
  gtes ← field_le b 44 4;
  gd ← field_le b 56 8;
  gd_entry ← field_le b (gd * SECTOR + grain / gtes * 4)%N 4;
  if (gd_entry =? 0)%N || (gd_entry =? 1)%N then Some None
  else
    _ ← bytes_of (byte_at b) (gd_entry * SECTOR)%N (N.to_nat (gtes * 4));
    gte ← field_le b (gd_entry * SECTOR + grain mod gtes * 4)%N 4;
    if (gte =? 0)%N || (gte =? 1)%N then Some None else Some (Some (gte * SECTOR)%N).
Definition vmdk_byte (b : bytes) (p : N) : option byte :=
  grain ← field_le b 20 8; block_byte b (grain * SECTOR) (vmdk_grain b) p.

Definition vmdk_sound (d : VmdkData) (b : bytes) : Prop :=
  file_fits b ∧
  field_le b 20 8 = Some (vd_grain_size_sectors d) ∧ (0 < vd_grain_size_sectors d)%N ∧
  field_le b 44 4 = Some (vd_num_gtes_per_gt d) ∧ (0 < vd_num_gtes_per_gt d)%N ∧
  (∃ capacity, field_le b 12 8 = Some capacity ∧ vd_virtual_size d = saturating_mul 64 capacity SECTOR ∧
     N.of_nat (length (vd_gd d)) = div_ceil capacity (vd_num_gtes_per_gt d * vd_grain_size_sectors d)) ∧
  ∃ gd, field_le b 56 8 = Some gd ∧
    ∀ i, i < length (vd_gd d) → field_le b (gd * SECTOR + N.of_nat i * 4)%N 4 = vd_gd d !! i.

Lemma saturating_mul_le w a c : (saturating_mul w a c ≤ a * c)%N.
Proof. unfold saturating_mul. lia. Qed.
Lemma div_ceil_bound a c q : (0 < c)%N → (q < a)%N → (q / c < div_ceil a c)%N.
Proof.
  intros Hc Hq. unfold div_ceil. destruct (N.eqb_spec (a mod c) 0) as [Hz|Hz].
  - rewrite N.add_0_r. apply N.Div0.div_lt_upper_bound. rewrite <-(proj2 (N.Div0.div_exact a c) Hz). done.
  - pose proof (N.Div0.div_le_mono q a c ltac:(lia)). lia.
Qed.
Lemma div_ceil_le a c : (0 < c)%N → (div_ceil a c ≤ a)%N.
Proof.
  intros Hc. unfold div_ceil. pose proof (N.div_mod a c ltac:(lia)) as E.
  destruct (N.eqb_spec (a mod c) 0) as [Hz|Hz].
  - rewrite N.add_0_r. by apply N.Div0.div_le_upper_bound; nia.
  - assert (a / c < a)%N; [|lia]. destruct (N.eq_dec c 1) as [->|]; [by rewrite N.mod_1_r in Hz|].
    assert (0 < a)%N by (destruct (N.eq_dec a 0) as [->|]; [by rewrite N.Div0.mod_0_l in Hz|lia]).
    apply N.div_lt; lia.
Qed.

(** ** The reader's promise *)
Lemma does_checked works b w n e F G :
  (n < 2 ^ w)%N ∨ F → does works b (try (ok_or (checked w n) (Fail e))) (λ m, m = n ∧ n < 2 ^ w)%N F G.
Proof.
  intros Hn. apply does_try. unfold checked. destruct (N.ltb_spec n (2 ^ w)); [done|].
  intros _. destruct Hn; [lia|done].
Qed.
Lemma no_bytes b off n : bytes_of (byte_at b) off n = None → (blen b < off + N.of_nat n)%N.
Proof.
  intros Hn. destruct (N.lt_ge_cases (blen b) (off + N.of_nat n)) as [|Hge]; [done|].
  by rewrite bytes_of_slice in Hn.
Qed.
Lemma bytes_of_inside b off n bs : bytes_of (byte_at b) off n = Some bs → (0 < n)%nat → (off + N.of_nat n ≤ blen b)%N.
Proof.
  intros [<- Hk]%bytes_of_Some Hn. specialize (Hk (pred (length bs)) ltac:(lia)).
  rewrite byte_at_lookup in Hk. destruct (lookup_lt_is_Some_2 bs (pred (length bs)) ltac:(lia)) as [x Hx].
  rewrite Hx in Hk. apply lookup_lt_Some in Hk. unfold blen. lia.
Qed.
Lemma exact_None works b e1 e2 off n (F G : Prop) :
  file_fits b → (0 < n)%N → (bytes_of (byte_at b) off (N.to_nat n) = None → F) →
  does works b (exact_at e1 e2 off n) (λ bs, bytes_of (byte_at b) off (N.to_nat n) = Some bs) F G.
Proof.
  intros Hfit H0 HF.
  assert ((blen b < off + n)%N → F) as Hs.
  { intros Hb. apply HF. destruct (bytes_of (byte_at b) off (N.to_nat n)) as [bs|] eqn:E; [|done].
    apply bytes_of_inside in E; lia. }
  apply does_exact_at; [|done]. intros ?. apply Hs. unfold file_fits in Hfit. lia.
Qed.
(** A table of little-endian numbers, read in one go. *)
Lemma le_table b off n k raw :
  (0 < k)%nat → bytes_of (byte_at b) off (n * k) = Some raw →
  length (le_word <$> chunks_exact k raw) = n ∧
  ∀ i, i < n → field_le b (off + N.of_nat i * N.of_nat k)%N k = (le_word <$> chunks_exact k raw) !! i.
Proof.
  intros Hk Hb. apply chunks_exact_spec in Hb as [Hl Hi]; [|done]. split; [by rewrite length_fmap|].
  intros i Hlt. rewrite list_lookup_fmap, <-Hi by done. done.
Qed.

Lemma load_gt_does works b d gt F G :
  file_fits b → fits 32 gt → fits 32 (vd_num_gtes_per_gt d) → (0 < vd_num_gtes_per_gt d)%N →
  (bytes_of (byte_at b) (gt * SECTOR)%N (N.to_nat (vd_num_gtes_per_gt d * 4)) = None → F) →
  does works b (load_gt d gt)
    (λ l, is_Some (bytes_of (byte_at b) (gt * SECTOR)%N (N.to_nat (vd_num_gtes_per_gt d * 4))) ∧
       N.of_nat (length l) = vd_num_gtes_per_gt d ∧
       ∀ i, i < length l → field_le b (gt * SECTOR + N.of_nat i * 4)%N 4 = l !! i) F G.
Proof.
  intros Hfit Hgt Hn H0 HF. unfold fits in *. change (2 ^ 32)%N with 4294967296%N in *.
  eapply does_bind; [apply does_checked; left; change (2 ^ 64)%N with 18446744073709551616%N; lia|]. intros ? [-> _].
  eapply does_bind; [apply does_vec; change (2 ^ 63)%N with 9223372036854775808%N; lia|]. intros [] _.
  eapply does_bind; [apply does_checked; left; change (2 ^ 64)%N with 18446744073709551616%N; unfold SECTOR; lia|]. intros ? [-> _].
  eapply does_bind; [apply exact_None; [done|lia|exact HF]|]. intros raw Hraw. apply does_ret.
  rewrite Hraw. replace (N.to_nat (vd_num_gtes_per_gt d * 4)) with (N.to_nat (vd_num_gtes_per_gt d) * 4)%nat in Hraw by lia.
  apply le_table in Hraw as [Hl Hi]; [|lia]. split_and!; [done|by rewrite Hl, N2Nat.id|].
  intros i Hlt. apply Hi. lia.
Qed.

#[export] Program Instance vmdk_laws : ReaderLaws VmdkData := {|
  sound := vmdk_sound;
  denotes d b := vmdk_byte b
|}.
Next Obligation.
  intros works d b off n (Hfit&Hg&Hg0&Hn&Hn0&(cap&Hcap&Hsz&Hlen)&gd&Hgd&Hgi). simpl. unfold vmdk_read_at.
  set (size := vd_virtual_size d) in *. set (blk := grain_bytes d).
  set (gtes := vd_num_gtes_per_gt d) in *. set (grain := vd_grain_size_sectors d) in *.
  assert (∀ p, vmdk_byte b p = block_byte b blk (vmdk_grain b) p) as Hbyte
    by (intros p; unfold vmdk_byte; by rewrite Hg).
  assert (0 < blk)%N as Hblk by (unfold blk, grain_bytes, SECTOR; fold grain; lia).
  apply read_blocks_does; [done|]. intros cur k Hcur Hk Hend Hblock.
  assert (∀ p, (p < k)%N → vmdk_byte b (cur + p) = None → read_refused (vmdk_byte b) size off n) as Hnone.
  { intros p Hp Hx. exists (cur + p)%N. split; [lia|done]. }
  assert (unreadable (block_byte b blk (vmdk_grain b)) cur (cur + k) → read_refused (vmdk_byte b) size off n) as Hun.
  { intros (p&Hp&Hx). apply (Hnone (p - cur)%N); [lia|]. rewrite Hbyte. by replace (cur + (p - cur))%N with p by lia. }
  assert (vmdk_grain b (cur / blk) = None → read_refused (vmdk_byte b) size off n) as Hmap.
  { intros Hx. apply Hun. exists cur. split; [lia|]. by apply block_none. }
  assert (∀ m F G, does works b m (λ bs, bytes_of (block_byte b blk (vmdk_grain b)) cur (N.to_nat k) = Some bs) F G →
    does works b m (λ bs, bytes_of (vmdk_byte b) cur (N.to_nat k) = Some bs) F G) as Hconv.
  { intros m F G Hm. eapply does_weaken; [exact Hm| |done|done]. intros bs Hbs.
    eapply bytes_of_shift; [|exact Hbs]. intros; apply Hbyte. }
  apply Hconv. unfold vmdk_piece. fold blk gtes.
  set (gi := (cur / blk)%N) in *.
  assert (gi / gtes < N.of_nat (length (vd_gd d)))%N as Hgi'.
  { rewrite Hlen. unfold gi, blk, grain_bytes. fold grain.
    replace (cur / (grain * SECTOR) / gtes)%N with (cur / SECTOR / (gtes * grain))%N.
    - apply div_ceil_bound; [lia|]. apply N.Div0.div_lt_upper_bound. pose proof (saturating_mul_le 64 cap SECTOR). lia.
    - rewrite !N.Div0.div_div. f_equal. lia. }
  destruct (lookup_lt_is_Some_2 (vd_gd d) (N.to_nat (gi / gtes)) ltac:(lia)) as [ge Hge].
  pose proof (Hgi (N.to_nat (gi / gtes)) ltac:(lia)) as Ege. rewrite N2Nat.id, Hge in Ege.
  assert (vmdk_grain b gi =
    if (ge =? 0)%N || (ge =? 1)%N then Some None
    else
      _ ← bytes_of (byte_at b) (ge * SECTOR)%N (N.to_nat (gtes * 4));
      gte ← field_le b (ge * SECTOR + gi mod gtes * 4)%N 4;
      if (gte =? 0)%N || (gte =? 1)%N then Some None else Some (Some (gte * SECTOR)%N)) as Emap.
  { unfold vmdk_grain. rewrite Hn, Hgd. simpl. by rewrite Ege. }
  rewrite Hge. change (default 0%N (Some ge)) with ge.
  destruct ((ge =? 0)%N || (ge =? 1)%N); [by apply piece_zero|].
  pose proof (field_le_fits _ _ _ _ Ege) as Hgef. pose proof (field_le_fits _ _ _ _ Hn) as Hnf.
  eapply does_bind.
  { apply (load_gt_does works b d ge (read_refused (vmdk_byte b) size off n)); [done..|].
    intros Hx. apply Hmap. fold gtes in Hx. by rewrite Emap, Hx. }
  intros gt ([tb Htb]&Hgl&Hgt). fold gtes in Htb, Hgl. rewrite Htb in Emap. simpl in Emap.
  assert (gi mod gtes < gtes)%N as Hmod by (apply N.mod_lt; lia).
  destruct (lookup_lt_is_Some_2 gt (N.to_nat (gi mod gtes)) ltac:(lia)) as [gte Hgte].
  pose proof (Hgt (N.to_nat (gi mod gtes)) ltac:(lia)) as Egte. rewrite N2Nat.id, Hgte in Egte.
  rewrite Egte in Emap. simpl in Emap. rewrite Hgte. change (default 0%N (Some gte)) with gte.
  destruct ((gte =? 0)%N || (gte =? 1)%N); [by apply piece_zero|].
  pose proof (field_le_fits _ _ _ _ Egte) as Hgtef.
  eapply does_bind.
  { apply does_checked. left. unfold fits in Hgtef. change (2 ^ (8 * N.of_nat 4))%N with 4294967296%N in Hgtef.
    change (2 ^ 64)%N with 18446744073709551616%N. unfold SECTOR. lia. }
  intros ? [-> _]. by apply (piece_data works b blk (vmdk_grain b)).
Qed.

(** ** Opening *)
Record vmdk_valid (b : bytes) : Prop := mkVmdkValid {
  vv_length : (80 ≤ blen b)%N;
  vv_magic : field_le b 0 4 = Some VMDK_MAGIC_LE;
  vv_version : ∃ v, field_le b 4 4 = Some v ∧ (1 ≤ v ≤ 3)%N;
  vv_compress : field_le b 77 2 = Some 0%N;
  vv_grain : ∃ g, field_le b 20 8 = Some g ∧ (8 ≤ g ≤ N.shiftl 1 20)%N ∧ is_power_of_two g = true;
  vv_gtes : ∃ g, field_le b 44 4 = Some g ∧ is_power_of_two g = true;
  vv_overhead : field_le b 64 8 ≠ Some 0%N;
  vv_descriptor : ∃ off len, field_le b 28 8 = Some off ∧ field_le b 36 8 = Some len ∧
    (len = 0 ∨ off + len < 2 ^ 64)%N;
  vv_gd : ∃ gd cap gtes grain, field_le b 56 8 = Some gd ∧ field_le b 12 8 = Some cap ∧
    field_le b 44 4 = Some gtes ∧ field_le b 20 8 = Some grain ∧ gd ≠ 0%N ∧
    (gd * SECTOR + div_ceil cap (gtes * grain) * 4 ≤ blen b)%N
}.
(** A header whose grain directory no vector can hold. *)
Definition vmdk_huge (b : bytes) : Prop :=
  ∃ cap gtes grain, field_le b 12 8 = Some cap ∧ field_le b 44 4 = Some gtes ∧
    field_le b 20 8 = Some grain ∧ (2 ^ 63 ≤ div_ceil cap (gtes * grain) * 4)%N.

Definition vmdk_header_of (b : bytes) (h : VmdkHeader) : Prop :=
  field_le b 12 8 = Some (vh_capacity_sectors h) ∧ field_le b 20 8 = Some (vh_grain_size_sectors h) ∧
  field_le b 28 8 = Some (vh_descriptor_offset_sectors h) ∧
  field_le b 36 8 = Some (vh_descriptor_size_sectors h) ∧
  field_le b 44 4 = Some (vh_num_gtes_per_gt h) ∧ field_le b 56 8 = Some (vh_gd_offset_sectors h) ∧
  field_le b 64 8 = Some (vh_overhead_sectors h) ∧ field_le b 77 2 = Some (vh_compress_algorithm h).

Lemma vmdk_parse_spec works b G : does works b vmdk_parse_header (vmdk_header_of b) (¬ vmdk_valid b) G.
Proof.
  eapply does_bind; [apply does_read_once; lia|]. intros bs (m&Hm&_&Hw&->).
  set (buf := buffer 512 (upto m (from 0 b))).
  assert (blen (upto m (from 0 b)) = N.min m (blen b)) as Hlen by (rewrite from_0; apply blen_upto).
  eapply does_bind.
  { apply does_bail_invalid. intros Hp Hc%N.ltb_lt Hv. pose proof (vv_length b Hv).
    rewrite Hlen, (Hw Hp) in Hc. lia. }
  intros [] H80%N.ltb_ge.
  assert (∀ name lo w (F : Prop), (lo + w ≤ 80)%N →
    does works b (try (le_at name w buf lo)) (λ v, field_le b lo (N.to_nat w) = Some v) F G) as Hle.
  { intros name lo w F Hn. destruct (header_le name 512 m b lo w) as (v&Hv&Hf); [lia| |].
    - change (2 ^ 64)%N with 18446744073709551616%N. lia.
    - apply does_try. fold buf in Hv. rewrite Hv. exact Hf. }
  eapply does_bind; [by apply Hle|]. intros magic Hmagic. simpl in Hmagic.
  eapply does_bind.
  { apply does_bail_invalid. intros _ Hc%negb_true_iff%N.eqb_neq Hv. pose proof (vv_magic b Hv) as Hx.
    change (N.to_nat 4) with 4 in Hmagic. congruence. }
  intros [] _. eapply does_bind; [by apply Hle|]. intros version Hversion.
  eapply does_bind.
  { apply does_bail_invalid. intros _ Hc Hv. destruct (vv_version b Hv) as (v&Hx&?).
    change (N.to_nat 4) with 4 in Hversion. rewrite Hversion in Hx. injection Hx as <-.
    apply negb_true_iff, andb_false_iff in Hc as [Hc%N.leb_gt|Hc%N.leb_gt]; lia. }
  intros [] _. eapply does_bind; [by apply Hle|]. intros flags _.
  eapply does_bind; [by apply Hle|]. intros cap Hcap. eapply does_bind; [by apply Hle|]. intros grain Hgrain.
  eapply does_bind; [by apply Hle|]. intros doff Hdoff. eapply does_bind; [by apply Hle|]. intros dlen Hdlen.
  eapply does_bind; [by apply Hle|]. intros gtes Hgtes. eapply does_bind; [by apply Hle|]. intros rgd _.
  eapply does_bind; [by apply Hle|]. intros gd Hgd. eapply does_bind; [by apply Hle|]. intros over Hover.
  apply does_ret. split_and!; try done. unfold field_le. rewrite (header_bytes 512 m); [done|]. simpl. lia.
Qed.

Lemma vmdk_opens works b path :
  file_fits b → opens works b (vmdk_open path) (¬ vmdk_valid b) (vmdk_huge b).
Proof.
  intros Hfit. eapply does_bind; [apply does_file_open|]. intros _ _.
  eapply does_bind; [apply vmdk_parse_spec|]. intros h (Hcap&Hgrain&Hdoff&Hdlen&Hgtes&Hgd&Hover&Hcomp).
  set (grain := vh_grain_size_sectors h) in *. set (gtes := vh_num_gtes_per_gt h) in *.
  set (cap := vh_capacity_sectors h) in *. set (gd := vh_gd_offset_sectors h) in *.
  eapply does_bind with (P := λ _, (8 ≤ grain ≤ N.shiftl 1 20)%N ∧ gtes ≠ 0%N ∧ gd ≠ 0%N).
  { unfold vmdk_validate_header. fold grain gtes gd.
    eapply does_bind; [apply does_bail_invalid; intros _ Hc%negb_true_iff%N.eqb_neq Hv;
      pose proof (vv_compress b Hv); congruence|]. intros [] _.
    eapply does_bind.
    { apply does_bail_invalid. intros _ Hc Hv. destruct (vv_grain b Hv) as (g&Hg&Hin&Hp).
      rewrite Hgrain in Hg. injection Hg as <-. rewrite Hp in Hc.
      apply orb_true_iff in Hc as [[Hc%N.ltb_lt|Hc%N.ltb_lt]%orb_true_iff|Hc]; [lia..|done]. }
    intros [] [[H8%N.ltb_ge H20%N.ltb_ge]%orb_false_iff _]%orb_false_iff.
    eapply does_bind.
    { apply does_bail_invalid. intros _ Hc Hv. destruct (vv_gtes b Hv) as (g&Hg&Hp).
      rewrite Hgtes in Hg. injection Hg as <-. rewrite Hp in Hc.
      apply orb_true_iff in Hc as [Hc|Hc]; [|done]. unfold is_power_of_two in Hp. by rewrite Hc in Hp. }
    intros [] [Hg0%N.eqb_neq _]%orb_false_iff.
    eapply does_bind.
    { apply does_bail_invalid. intros _ Hc%N.eqb_eq Hv. destruct (vv_gd b Hv) as (?&?&?&?&Hx&_&_&_&?&_).
      rewrite Hgd in Hx. injection Hx as <-. done. }
    intros [] Hgd0%N.eqb_neq.
    eapply does_bind.
    { apply does_bail_invalid. intros _ Hc%N.eqb_eq Hv. apply (vv_overhead b Hv). by rewrite Hover, Hc. }
    intros [] _. eapply does_weaken; [apply does_bail_invalid with (F := ¬ vmdk_valid b)| |done|done].
    - intros _ [Hc%negb_true_iff%N.eqb_neq Hn%bool_decide_eq_true_1]%andb_true_iff Hv.
      destruct (vv_descriptor b Hv) as (o&l&Ho&Hl&Hin). rewrite Hdoff in Ho. rewrite Hdlen in Hl.
      injection Ho as <-. injection Hl as <-. destruct Hin as [?|Hin]; [done|].
      unfold checked_add, checked in Hn. by rewrite (proj2 (N.ltb_lt _ _) Hin) in Hn.
    - done. }
  intros [] ((H8&H20)&Hg0&Hgd0). change (N.shiftl 1 20) with 1048576%N in H20.
  pose proof (field_le_fits _ _ _ _ Hgtes) as Hf32. unfold fits in Hf32.
  change (2 ^ (8 * N.of_nat 4))%N with 4294967296%N in Hf32.
  pose proof (field_le_fits _ _ _ _ Hcap) as Hf64. unfold fits in Hf64.
  change (2 ^ (8 * N.of_nat 8))%N with 18446744073709551616%N in Hf64.
  assert (8 ≤ gtes * grain ≤ 4294967296 * 1048576)%N as Hspg by nia.
  eapply does_bind; [apply does_checked; left; change (2 ^ 64)%N with 18446744073709551616%N; lia|]. intros ? [-> _].
  eapply does_bind; [apply does_bail_invalid; intros _ Hc%N.eqb_eq; lia|]. intros [] _.
  set (num := div_ceil cap (gtes * grain)).
  assert (num ≤ 2305843009213693952)%N as Hnum.
  { unfold num, div_ceil. assert (cap / (gtes * grain) ≤ cap / 8)%N by (apply N.div_le_compat_l; lia).
    assert (cap / 8 < 2305843009213693952)%N by (apply N.Div0.div_lt_upper_bound; lia).
    destruct (cap mod (gtes * grain) =? 0)%N; lia. }
  eapply does_bind; [apply does_checked; left; change (2 ^ 64)%N with 18446744073709551616%N; lia|]. intros ? [-> _].
  assert ((blen b < gd * SECTOR + num * 4)%N → ¬ vmdk_valid b) as Hshort.
  { intros Hb Hv. destruct (vv_gd b Hv) as (x1&x2&x3&x4&E1&E2&E3&E4&_&Hin).
    rewrite Hgd in E1. rewrite Hcap in E2. rewrite Hgtes in E3. rewrite Hgrain in E4.
    injection E1 as <-. injection E2 as <-. injection E3 as <-. injection E4 as <-. fold num in Hin. lia. }
  eapply does_bind.
  { apply does_checked. destruct (N.lt_ge_cases (gd * SECTOR) (2 ^ 64)) as [|Hge]; [by left|right].
    apply Hshort. unfold file_fits in Hfit.
    change (2 ^ 64)%N with 18446744073709551616%N in Hge. change (2 ^ 63)%N with 9223372036854775808%N in Hfit. lia. }
  intros ? [-> _]. eapply does_bind.
  { apply does_vec. intros Hbig. exists cap, gtes, grain. done. }
  intros [] _. eapply does_bind.
  { apply does_exact_at; [|exact Hshort]. intros ?.
    destruct (N.eq_dec num 0) as [Hz|]; [|apply Hshort; unfold file_fits in Hfit; lia].
    intros Hv. destruct (vv_gd b Hv) as (x1&x2&x3&x4&E1&E2&E3&E4&_&Hin).
    rewrite Hgd in E1. injection E1 as <-. unfold file_fits in Hfit. lia. }
  intros raw Hraw. replace (N.to_nat (num * 4)) with (N.to_nat num * 4)%nat in Hraw by lia.
  apply le_table in Hraw as [Hl Hi]; [|lia].
  eapply does_weaken; [apply does_opened| |done..]. intros i (->&Hbi&Hwi). split; [|done].
  split_and!; try done; cbn [vd_grain_size_sectors vd_num_gtes_per_gt vd_gd vd_virtual_size]; [lia|lia| |].
  - exists cap. split_and!; [done..|]. fold num. rewrite Hl. lia.
  - exists gd. split; [done|]. intros j Hj. apply Hi. lia.
Qed.
