(* ===== verification/VhdxDisk.v ===== *)
(** * VhdxDisk: the VHDX reader

    crates/celimage/src/vhdx.rs: the two headers and the two region tables with
    their checksums, the metadata items, the block allocation table kept in
    memory, and a read that fills the whole buffer block by block.  The reader
    keeps the promise of [ReaderLaws] for the disk its table describes. *)
From S2P Require Import Prelude.
From S2P Require Import Errors.
From S2P Require Import Vault.
From S2P Require Import Crc.
From S2P Require Import DiskFile.
From S2P Require Import DiskImage.
From S2P Require Import VmdkDisk.
From Stdlib Require Import Strings.Byte.

Definition HEADER1_OFF : N := 0x10000.
Definition HEADER2_OFF : N := 0x20000.
Definition REGION_TABLE1_OFF : N := 0x30000.
Definition REGION_TABLE2_OFF : N := 0x40000.
Definition HEADER_LEN : N := 4096.
Definition REGION_TABLE_LEN : N := 64 * 1024.
Definition MEGABYTE : N := 1024 * 1024.
Definition HEADER_SIG : bytes := [x68; x65; x61; x64].
Definition REGION_SIG : bytes := [x72; x65; x67; x69].
Definition METADATA_SIG : bytes := [x6d; x65; x74; x61; x64; x61; x74; x61].
Definition REGION_BAT : bytes :=
  [x66; x77; xc2; x2d; x23; xf6; x00; x42; x9d; x64; x11; x5e; x9b; xfd; x4a; x08].
Definition REGION_METADATA : bytes :=
  [x06; xa2; x7c; x8b; x90; x47; x9a; x4b; xb8; xfe; x57; x5f; x05; x0f; x88; x6e].
Definition META_FILE_PARAMETERS : bytes :=
  [x37; x67; xa1; xca; x36; xfa; x43; x4d; xb3; xb6; x33; xf0; xaa; x44; xe7; x6b].
Definition META_VIRTUAL_DISK_SIZE : bytes :=
  [x24; x42; xa5; x2f; x1b; xcd; x76; x48; xb2; x11; x5d; xbe; xd8; x3b; xf4; xb8].
Definition META_LOGICAL_SECTOR_SIZE : bytes :=
  [x1d; xbf; x41; x81; x6f; xa9; x09; x47; xba; x47; xf2; x33; xa8; xfa; xab; x5f].
Definition BAT_PAYLOAD_BLOCK_NOT_PRESENT : N := 0.
Definition BAT_PAYLOAD_BLOCK_UNDEFINED : N := 1.
Definition BAT_PAYLOAD_BLOCK_ZERO : N := 2.
Definition BAT_PAYLOAD_BLOCK_UNMAPPED : N := 3.
Definition BAT_PAYLOAD_BLOCK_FULLY_PRESENT : N := 6.
Definition BAT_PAYLOAD_BLOCK_PARTIALLY_PRESENT : N := 7.

Record VhdxHeader := mkVhdxHeader { xh_sequence_number : N; xh_log_length : N }.
Record RegionEntry := mkRegionEntry { re_guid : bytes; re_file_offset : N; re_length : N; re_required : bool }.
Record Metadata := mkMetadata {
  md_block_size : N; md_leave_blocks_allocated : bool; md_has_parent : bool; md_virtual_size : N;
  md_logical_sector_size : N
}.
Record VhdxData := mkVhdxData {
  xd_path : string; xd_virtual_size : N; xd_block_size : N; xd_logical_sector_size : N; xd_bat : list N;
  xd_chunk_ratio : N; xd_is_fixed : bool
}.
Abbreviation VhdxImage := (Image VhdxData).

(** [result.ok()]; a panic is not caught. *)
Definition ok {A} (m : M A) : M (option A) := λ h,
  match m h with
  | (Ok a, h') => (Ok (Some a), h')
  | (Err (Fail _), h') => (Ok None, h')
  | (Err (Panic w), h') => (Err (Panic w), h')
  end.
(** [a + b] on u64. *)
Definition plus (a b : N) : result Fault N := ok_or (checked_add 64 a b) (Panic "attempt to add with overflow").

(** The checks of a checksummed structure: its signature, and the CRC-32C over
    the bytes with the checksum field zeroed. *)
Definition verified (sig : bytes) (bad_sig bad_crc : string) (buf : bytes) : result Fault bytes :=
  if bool_decide (slice buf 0 4 = sig) then
    stored ← le_u32 buf 4;
    let zeroed := overwrite buf 4 (zeros 4) in
    if (crc32c zeroed =? stored)%N then Ok zeroed else invalid bad_crc
  else invalid bad_sig.
Definition parse_vhdx_header (buf : bytes) : result Fault VhdxHeader :=
  buf ← verified HEADER_SIG "vhdx: header signature mismatch" "vhdx: header CRC mismatch" buf;
  sequence_number ← le_u64 buf 8;
  log_length ← le_u32 buf 68;
  Ok (mkVhdxHeader sequence_number log_length).
Definition read_header (off : N) : M VhdxHeader :=
  buf ← exact_at (io "seek header") (io "read header") off HEADER_LEN;
  try (parse_vhdx_header buf).
Definition pick_header : M VhdxHeader :=
  h1 ← ok (read_header HEADER1_OFF);
  h2 ← ok (read_header HEADER2_OFF);
  match h1, h2 with
  | Some a, Some b => mret (if (xh_sequence_number b <=? xh_sequence_number a)%N then a else b)
  | Some a, None => mret a
  | None, Some b => mret b
  | None, None => mthrow (Fail (Invalid "vhdx: no valid header (both CRCs bad)"))
  end.

Definition parse_region (buf : bytes) (i : nat) : result Fault RegionEntry :=
  let base := (16 + N.of_nat i * 32)%N in
  guid ← ok_or (get_range buf base (base + 16)) (Fail (Invalid "vhdx: region entry truncated"));
  file_offset ← le_u64 buf (base + 16);
  length ← le_u32 buf (base + 24);
  flags ← le_u32 buf (base + 28);
  Ok (mkRegionEntry guid file_offset length (negb (N.land flags 1 =? 0)%N)).
Fixpoint collect {E A B} (f : A → result E B) (l : list A) : result E (list B) :=
  match l with [] => Ok [] | x :: l' => y ← f x; ys ← collect f l'; Ok (y :: ys) end.
Definition parse_region_table (buf : bytes) : result Fault (list RegionEntry) :=
  buf ← verified REGION_SIG "vhdx: region signature mismatch" "vhdx: region CRC mismatch" buf;
  entry_count ← le_u32 buf 8;
  if (2047 <? entry_count)%N then invalid "vhdx: region entry count > 2047"
  else collect (parse_region buf) (seq 0 (N.to_nat entry_count)).
Definition read_region_table (off : N) : M (list RegionEntry) :=
  buf ← exact_at (io "seek region") (io "read region") off REGION_TABLE_LEN;
  try (parse_region_table buf).
Definition pick_region_table : M (list RegionEntry) :=
  r ← ok (read_region_table REGION_TABLE1_OFF);
  match r with Some r => mret r | None => read_region_table REGION_TABLE2_OFF end.

(** The locals of [read_metadata_region]. *)
Record Items := mkItems {
  it_block_size : option N; it_flags : option N; it_virtual_size : option N; it_logical_sector_size : option N
}.
Definition no_items : Items := mkItems None None None None.
Definition take_item (acc : Items) (guid item : bytes) : result Fault Items :=
  if decide (guid = META_FILE_PARAMETERS) then
    if (blen item <? 8)%N then invalid "vhdx: file_parameters short"
    else size ← le_u32 item 0; flags ← le_u32 item 4;
         Ok (mkItems (Some size) (Some flags) (it_virtual_size acc) (it_logical_sector_size acc))
  else if decide (guid = META_VIRTUAL_DISK_SIZE) then
    if (blen item <? 8)%N then invalid "vhdx: virtual_disk_size short"
    else size ← le_u64 item 0;
         Ok (mkItems (it_block_size acc) (it_flags acc) (Some size) (it_logical_sector_size acc))
  else if decide (guid = META_LOGICAL_SECTOR_SIZE) then
    if (blen item <? 4)%N then invalid "vhdx: logical_sector_size short"
    else size ← le_u32 item 0;
         Ok (mkItems (it_block_size acc) (it_flags acc) (it_virtual_size acc) (Some size))
  else Ok acc.
(** One turn of the loop: the entry, its item, and what it sets. *)
Definition read_item (off : N) (i : nat) (acc : Items) : M Items :=
  at1 ← try (plus off 32);
  at2 ← try (plus at1 (N.of_nat i * 32));
  entry ← exact_at (io "seek meta entry") (io "read meta entry") at2 32;
  let guid := slice entry 0 16 in
  item_off ← try (le_u32 entry 16);
  item_len ← try (le_u32 entry 20);
  _ ← bail_invalid ((item_len =? 0)%N || (N.shiftl 1 20 <? item_len)%N)
        "vhdx: metadata item length out of range";
  _ ← vec_bytes item_len;
  at3 ← try (plus off item_off);
  item ← exact_at (io "seek meta item") (io "read meta item") at3 item_len;
  try (take_item acc guid item).
Fixpoint read_items (off : N) (entries : list nat) (acc : Items) : M Items :=
  match entries with [] => mret acc | i :: rest => acc ← read_item off i acc; read_items off rest acc end.
Definition metadata_of (acc : Items) : result Fault Metadata :=
  block_size ← ok_or (it_block_size acc) (Fail (Invalid "vhdx: FileParameters missing"));
  flags ← ok_or (it_flags acc) (Fail (Invalid "vhdx: FileParameters flags missing"));
  virtual_size ← ok_or (it_virtual_size acc) (Fail (Invalid "vhdx: VirtualDiskSize missing"));
  sector ← ok_or (it_logical_sector_size acc) (Fail (Invalid "vhdx: LogicalSectorSize missing"));
  Ok (mkMetadata block_size (negb (N.land flags 1 =? 0)%N) (negb (N.land flags 2 =? 0)%N) virtual_size sector).
Definition read_metadata_region (off : N) : M Metadata :=
  hdr ← exact_at (io "seek metadata") (io "read metadata header") off 32;
  _ ← bail_invalid (negb (bool_decide (slice hdr 0 8 = METADATA_SIG))) "vhdx: metadata signature mismatch";
  entry_count ← try (le_u16 hdr 10);
  _ ← bail_invalid ((entry_count =? 0)%N || (2047 <? entry_count)%N)
        "vhdx: metadata entry count out of range";
  acc ← read_items off (seq 0 (N.to_nat entry_count)) no_items;
  try (metadata_of acc).

Definition find_region (guid : bytes) (regions : list RegionEntry) : option RegionEntry :=
  List.find (λ r, bool_decide (re_guid r = guid)) regions.

Definition vhdx_open (path : string) : M VhdxImage :=
  _ ← on_error (io ("open " +:+ path)) file_open;
  sig ← exact_at (io "seek 0") (io "read fileid") 0 8;
  _ ← bail_invalid (negb (bool_decide (sig = VHDX_MAGIC))) "vhdx: bad file identifier";
  h ← pick_header;
  _ ← bail_invalid (negb (xh_log_length h =? 0)%N)
        "vhdx: non-empty log not supported (replay journal first)";
  regions ← pick_region_table;
  bat ← try (ok_or (find_region REGION_BAT regions) (Fail (Invalid "vhdx: BAT region missing")));
  meta ← try (ok_or (find_region REGION_METADATA regions) (Fail (Invalid "vhdx: metadata region missing")));
  metadata ← read_metadata_region (re_file_offset meta);
  let block_size := md_block_size metadata in
  let sector := md_logical_sector_size metadata in
  _ ← bail_invalid (md_has_parent metadata) "vhdx: differencing images (HasParent) not supported";
  _ ← bail_invalid ((block_size =? 0)%N || negb (block_size mod MEGABYTE =? 0)%N)
        "vhdx: block_size must be a multiple of 1 MB";
  _ ← bail_invalid (negb (sector =? 512)%N && negb (sector =? 4096)%N)
        "vhdx: logical_sector_size must be 512 or 4096";
  product ← try (ok_or (checked_mul 64 (N.shiftl 1 23) sector) (Fail (Invalid "vhdx: chunk_ratio overflow")));
  let chunk_ratio := (product / block_size)%N in
  _ ← bail_invalid (chunk_ratio =? 0)%N "vhdx: chunk_ratio computed as zero";
  let pb_count := div_ceil (md_virtual_size metadata) block_size in
  let chunk_count := div_ceil pb_count chunk_ratio in
  total_entries ← try (ok_or (checked_add 64 pb_count chunk_count)
                         (Fail (Invalid "vhdx: BAT entry count overflow")));
  bat_bytes ← try (ok_or (checked_mul 64 total_entries 8) (Fail (Invalid "vhdx: BAT byte length overflow")));
  _ ← bail_invalid (re_length bat <? bat_bytes)%N "vhdx: BAT region too small for declared virtual size";
  _ ← vec_bytes bat_bytes;
  raw ← exact_at (io "seek bat") (storage "read bat") (re_file_offset bat) bat_bytes;
  opened (mkVhdxData path (md_virtual_size metadata) block_size sector (le_word <$> chunks_exact 8 raw)
            chunk_ratio (md_leave_blocks_allocated metadata)).

Definition vhdx_info (d : VhdxData) : ImageInfo :=
  mkImageInfo Vhdx (xd_virtual_size d) (Some (xd_block_size d))
    (if xd_is_fixed d then "vhdx-fixed" else "vhdx-dynamic").

Definition BAT_OFFSET_MASK : N := 0xfffffffffff00000.
(** One turn of the loop of [read_at]. *)
Definition vhdx_piece (d : VhdxData) (cur chunk : N) : M bytes :=
  let intra := (cur mod xd_block_size d)%N in
  let block_idx := (cur / xd_block_size d)%N in
  let bat_idx := (block_idx + block_idx / xd_chunk_ratio d)%N in
  entry ← try (ok_or (xd_bat d !! N.to_nat bat_idx) (Fail (Invalid "vhdx: BAT index out of range")));
  let state := N.land entry 7 in
  if (state =? BAT_PAYLOAD_BLOCK_NOT_PRESENT)%N || (state =? BAT_PAYLOAD_BLOCK_UNDEFINED)%N ||
     (state =? BAT_PAYLOAD_BLOCK_ZERO)%N || (state =? BAT_PAYLOAD_BLOCK_UNMAPPED)%N
  then mret (zeros chunk)
  else if (state =? BAT_PAYLOAD_BLOCK_FULLY_PRESENT)%N then
    let block_off := N.land entry BAT_OFFSET_MASK in
    read_at ← try (plus block_off intra);
    exact_at (io "seek vhdx block") (storage "read vhdx block") read_at chunk
  else if (state =? BAT_PAYLOAD_BLOCK_PARTIALLY_PRESENT)%N
  then mthrow (Fail (Invalid "vhdx: partially-present block (differencing) not supported"))
  else mthrow (Fail (Invalid "vhdx: unknown BAT state")).
Definition vhdx_read_at (offset n : N) (d : VhdxData) : M bytes :=
  read_blocks (xd_virtual_size d) (xd_block_size d) (vhdx_piece d) offset n.
#[export] Instance vhdx_reader : Reader VhdxData := {| rd_info := vhdx_info; rd_read := vhdx_read_at |}.

(** ** The disk of a VHDX file

    The blocks a table gives: [bat] at the interleaved index of the block. *)
Definition vhdx_block (bat : N → option N) (ratio block : N) : option (option N) :=
  entry ← bat (block + block / ratio)%N;
  let state := N.land entry 7 in
  if (state <=? 3)%N then Some None
  else if (state =? 6)%N then Some (Some (N.land entry BAT_OFFSET_MASK)) else None.

(** The metadata of a file: the items in the order of their entries. *)
Definition file_item (b : bytes) (off : N) (i : nat) : option (bytes * bytes) :=
  entry ← bytes_of (byte_at b) (off + 32 + N.of_nat i * 32)%N 32;
  item_off ← field_le b (off + 32 + N.of_nat i * 32 + 16)%N 4;
  item_len ← field_le b (off + 32 + N.of_nat i * 32 + 20)%N 4;
  if (item_len =? 0)%N || (N.shiftl 1 20 <? item_len)%N then None
  else item ← bytes_of (byte_at b) (off + item_off)%N (N.to_nat item_len); Some (slice entry 0 16, item).
Definition file_items (b : bytes) (off : N) (entries : list nat) : option (list (bytes * bytes)) :=
  mapM (file_item b off) entries.
Fixpoint take_items (acc : Items) (l : list (bytes * bytes)) : result Fault Items :=
  match l with [] => Ok acc | (guid, item) :: l' => acc ← take_item acc guid item; take_items acc l' end.
Definition file_metadata (b : bytes) (off : N) (md : Metadata) : Prop :=
  bytes_of (byte_at b) off 8 = Some METADATA_SIG ∧
  ∃ count items acc, field_le b (off + 10)%N 2 = Some count ∧ (0 < count ≤ 2047)%N ∧
    file_items b off (seq 0 (N.to_nat count)) = Some items ∧
    take_items no_items items = Ok acc ∧ metadata_of acc = Ok md.

(** A verified copy of a structure in the file. *)
Definition file_copy {A} (b : bytes) (parse : bytes → result Fault A) (off n : N) (a : A) : Prop :=
  ∃ buf, bytes_of (byte_at b) off (N.to_nat n) = Some buf ∧ parse buf = Ok a.

(** The fields of the reader are those of the file. *)
Definition vhdx_fields (d : VhdxData) (b : bytes) : Prop :=
  ∃ table regions bat meta md,
    (table = REGION_TABLE1_OFF ∨ table = REGION_TABLE2_OFF) ∧
    file_copy b parse_region_table table REGION_TABLE_LEN regions ∧
    find_region REGION_BAT regions = Some bat ∧ find_region REGION_METADATA regions = Some meta ∧
    file_metadata b (re_file_offset meta) md ∧ md_has_parent md = false ∧
    xd_virtual_size d = md_virtual_size md ∧ xd_block_size d = md_block_size md ∧
    xd_chunk_ratio d = (N.shiftl 1 23 * md_logical_sector_size md / md_block_size md)%N ∧
    (let blocks := div_ceil (xd_virtual_size d) (xd_block_size d) in
     N.of_nat (length (xd_bat d)) = (blocks + div_ceil blocks (xd_chunk_ratio d))%N) ∧
    ∀ i, i < length (xd_bat d) → field_le b (re_file_offset bat + N.of_nat i * 8)%N 8 = xd_bat d !! i.
Definition vhdx_sound (d : VhdxData) (b : bytes) : Prop :=
  file_fits b ∧ (0 < xd_block_size d)%N ∧ (0 < xd_chunk_ratio d)%N ∧ vhdx_fields d b.
Definition vhdx_byte (d : VhdxData) (b : bytes) : N → option byte :=
  block_byte b (xd_block_size d) (vhdx_block (λ i, xd_bat d !! N.to_nat i) (xd_chunk_ratio d)).

#[export] Program Instance vhdx_laws : ReaderLaws VhdxData := {|
  sound := vhdx_sound;
  denotes := vhdx_byte
|}.
Next Obligation.
  intros works d b off n (Hfit&Hb0&Hr0&_). simpl. unfold vhdx_read_at, vhdx_byte.
  set (size := xd_virtual_size d). set (blk := xd_block_size d) in *. set (ratio := xd_chunk_ratio d) in *.
  set (f := vhdx_block _ ratio). apply read_blocks_does; [done|]. intros cur k Hcur Hk Hend Hblock.
  assert (unreadable (block_byte b blk f) cur (cur + k) → read_refused (block_byte b blk f) size off n) as Hun.
  { intros (p&Hp&Hx). exists p. split; [lia|done]. }
  assert (f (cur / blk)%N = None → read_refused (block_byte b blk f) size off n) as Hmap.
  { intros Hx. apply Hun. exists cur. split; [lia|]. by apply block_none. }
  unfold vhdx_piece. fold blk ratio. set (idx := (cur / blk + cur / blk / ratio)%N).
  eapply does_bind with (P := λ e, xd_bat d !! N.to_nat idx = Some e).
  { apply does_try. destruct (xd_bat d !! N.to_nat idx) eqn:E; [done|]. intros _. apply Hmap.
    unfold f, vhdx_block. fold idx. by rewrite E. }
  intros entry He.
  assert (f (cur / blk)%N =
    if (N.land entry 7 <=? 3)%N then Some None
    else if (N.land entry 7 =? 6)%N then Some (Some (N.land entry BAT_OFFSET_MASK)) else None) as Emap
    by (unfold f, vhdx_block; fold idx; by rewrite He).
  set (state := N.land entry 7) in *.
  unfold BAT_PAYLOAD_BLOCK_NOT_PRESENT, BAT_PAYLOAD_BLOCK_UNDEFINED, BAT_PAYLOAD_BLOCK_ZERO, BAT_PAYLOAD_BLOCK_UNMAPPED,
    BAT_PAYLOAD_BLOCK_FULLY_PRESENT, BAT_PAYLOAD_BLOCK_PARTIALLY_PRESENT.
  assert ((state =? 0) || (state =? 1) || (state =? 2) || (state =? 3) = (state <=? 3))%N as ->.
  { destruct (N.leb_spec state 3).
    - destruct (N.eqb_spec state 0), (N.eqb_spec state 1), (N.eqb_spec state 2), (N.eqb_spec state 3); try done; lia.
    - destruct (N.eqb_spec state 0), (N.eqb_spec state 1), (N.eqb_spec state 2), (N.eqb_spec state 3); try done; lia. }
  destruct (state <=? 3)%N; [by apply piece_zero|].
  destruct (state =? 6)%N; [|destruct (state =? 7)%N; apply does_fail; by intros _; apply Hmap].
  eapply does_bind with (P := λ at1, at1 = (N.land entry BAT_OFFSET_MASK + cur mod blk)%N).
  { apply does_try. unfold plus, ok_or, checked_add, checked. destruct (N.ltb_spec (N.land entry BAT_OFFSET_MASK + cur mod blk) (2 ^ 64)) as [|Hbig]; [done|].
    apply Hun, (block_short b blk f cur (N.land entry BAT_OFFSET_MASK)); [done..| |done]. unfold file_fits in Hfit.
    change (2 ^ 63)%N with 9223372036854775808%N in Hfit. change (2 ^ 64)%N with 18446744073709551616%N in Hbig. lia. }
  intros ? ->. by apply (piece_data works b blk f).
Qed.

(** ** Opening *)
Lemma does_ok {A} works b (m : M A) (P : A → Prop) F G :
  does works b m P F G →
  does works b (ok m) (λ o, match o with Some a => P a | None => works → F end) False G.
Proof.
  intros Hm h Hb Hw. unfold ok. specialize (Hm h Hb Hw).
  destruct (m h) as [[a|[e|w]] h']; destruct Hm as (?&?&?); by split_and!.
Qed.
Lemma le_at_total name w buf off : (off + w ≤ blen buf)%N → (off + w < 2 ^ 64)%N →
  le_at name w buf off = Ok (le_word (slice buf off (off + w))).
Proof.
  intros Hb H64. unfold le_at, checked_add. rewrite (proj2 (checked_Some 64 (off + w) (off + w))) by done. simpl.
  unfold get_range. rewrite (proj2 (N.leb_le off (off + w))) by lia. by rewrite (proj2 (N.leb_le _ _) Hb).
Qed.
Definition no_panic {A} (r : result Fault A) : Prop := ∀ w, r ≠ Err (Panic w).
Lemma no_panic_bind {A B} (m : result Fault A) (k : A → result Fault B) :
  no_panic m → (∀ a, m = Ok a → no_panic (k a)) → no_panic (m ≫= k).
Proof. intros Hm Hk w. destruct m as [a|e]; simpl; [by apply Hk|]. intros [= ->]. by eapply Hm. Qed.
Lemma no_panic_ok {A} (a : A) : no_panic (Ok a).
Proof. done. Qed.
Lemma no_panic_fail {A} e : no_panic (Err (A := A) (Fail e)).
Proof. done. Qed.
Lemma no_panic_ok_or {A} (o : option A) e : no_panic (ok_or o (Fail e)).
Proof. by destruct o. Qed.
Lemma no_panic_le name w buf off : no_panic (le_at name w buf off).
Proof.
  unfold le_at. apply no_panic_bind; [apply no_panic_ok_or|]. intros; apply no_panic_bind; [apply no_panic_ok_or|done].
Qed.
Create HintDb no_panic.
#[local] Hint Resolve no_panic_ok no_panic_fail no_panic_ok_or no_panic_le no_panic_bind : no_panic.
Lemma no_panic_if {A} (c : bool) (m1 m2 : result Fault A) : no_panic m1 → no_panic m2 → no_panic (if c then m1 else m2).
Proof. by destruct c. Qed.
Lemma no_panic_decide {A} P `{Decision P} (m1 m2 : result Fault A) :
  no_panic m1 → no_panic m2 → no_panic (if decide P then m1 else m2).
Proof. intros. by case_decide. Qed.
#[local] Hint Resolve no_panic_if no_panic_decide : no_panic.
Lemma no_panic_verified sig m1 m2 buf : no_panic (verified sig m1 m2 buf).
Proof. unfold verified, le_u32, invalid. auto 10 with no_panic. Qed.
#[local] Hint Resolve no_panic_verified : no_panic.
Lemma no_panic_header buf : no_panic (parse_vhdx_header buf).
Proof. unfold parse_vhdx_header, le_u64, le_u32. auto 10 with no_panic. Qed.
Lemma no_panic_collect {A B} (f : A → result Fault B) l : (∀ x, no_panic (f x)) → no_panic (collect f l).
Proof. intros Hf. induction l; simpl; auto 10 with no_panic. Qed.
Lemma no_panic_region buf i : no_panic (parse_region buf i).
Proof. unfold parse_region, le_u64, le_u32. auto 10 with no_panic. Qed.
#[local] Hint Resolve no_panic_collect no_panic_region : no_panic.
Lemma no_panic_table buf : no_panic (parse_region_table buf).
Proof. unfold parse_region_table, le_u32, invalid. auto 10 with no_panic. Qed.
Lemma no_panic_item acc guid item : no_panic (take_item acc guid item).
Proof. unfold take_item, le_u64, le_u32, invalid. auto 10 with no_panic. Qed.
Lemma no_panic_metadata acc : no_panic (metadata_of acc).
Proof. unfold metadata_of. auto 10 with no_panic. Qed.

(** A result that does not panic, in a reader that may fail. *)
Lemma does_parse {A} works b (r : result Fault A) (G : Prop) : no_panic r → does works b (try r) (λ a, r = Ok a) True G.
Proof. intros Hr. apply does_try. destruct r as [a|[e|w]]; [done|done|]. by destruct (Hr w). Qed.
Lemma does_copy {A} works b (parse : bytes → result Fault A) e1 e2 off n G :
  (∀ buf, no_panic (parse buf)) →
  does works b (buf ← exact_at e1 e2 off n; try (parse buf)) (file_copy b parse off n) True G.
Proof.
  intros Hp. eapply does_bind; [by apply does_exact_at with (F := True)|]. intros buf Hbuf.
  eapply does_weaken; [by apply does_parse| |done|done]. intros a Ha. by exists buf.
Qed.
Lemma does_pick_table works b G :
  does works b pick_region_table
    (λ regions, ∃ table, (table = REGION_TABLE1_OFF ∨ table = REGION_TABLE2_OFF) ∧
       file_copy b parse_region_table table REGION_TABLE_LEN regions) True G.
Proof.
  unfold pick_region_table, read_region_table. eapply does_bind.
  - eapply does_weaken; [apply does_ok, does_copy, no_panic_table|intros a Ha; exact Ha|done|done].
  - intros [r|] Hr; [apply does_ret; exists REGION_TABLE1_OFF; auto|].
    eapply does_weaken; [apply does_copy, no_panic_table| |done|done]. intros a Ha. exists REGION_TABLE2_OFF. auto.
Qed.
Lemma does_pick_header works b G : does works b pick_header (λ _, True) True G.
Proof.
  assert (∀ off, does works b (read_header off) (λ _, True) True G) as Hr.
  { intros off. eapply does_weaken; [apply does_copy, no_panic_header|done|done|done]. }
  unfold pick_header. eapply does_bind; [eapply does_weaken; [apply does_ok, Hr|intros a _; exact I|done|done]|]. intros h1 _.
  eapply does_bind; [eapply does_weaken; [apply does_ok, Hr|intros a _; exact I|done|done]|]. intros h2 _.
  destruct h1, h2; [by apply does_ret..|by apply does_fail].
Qed.

(** A number inside bytes of the file. *)
Lemma le_inside name w b off n bs lo v :
  bytes_of (byte_at b) off n = Some bs → (lo + w ≤ N.of_nat n)%N →
  le_at name w bs lo = Ok v → field_le b (off + lo)%N (N.to_nat w) = Some v.
Proof.
  intros Hbs Hn. pose proof Hbs as [Hl _]%bytes_of_Some. unfold le_at, ok_or. intros Hv.
  destruct (checked_add 64 lo w) as [end_|] eqn:E; [|done]. unfold checked_add in E. apply checked_Some in E as [-> _].
  simpl in Hv. unfold get_range in Hv. destruct (_ && _); [|done]. injection Hv as <-.
  unfold field_le. assert (bytes_of (byte_at b) (off + lo) (N.to_nat w) = Some (slice bs lo (lo + w))) as ->; [|done].
  apply bytes_of_Some in Hbs as [_ Hk]. apply bytes_of_Some. unfold slice. rewrite length_take, length_drop. split; [lia|].
  intros k Hlt. rewrite lookup_take_lt by lia. rewrite lookup_drop, <-Hk by lia. f_equal. lia.
Qed.

Lemma does_plus works b x y (F G : Prop) : (x + y < 2 ^ 64)%N → does works b (try (plus x y)) (λ z, z = (x + y)%N) F G.
Proof.
  intros Hs. apply does_try. unfold plus, checked_add. by rewrite (proj2 (checked_Some 64 (x + y) (x + y))).
Qed.

Lemma read_item_does works b off i acc G :
  (off + 32 < 2 ^ 63)%N → i < 2047 →
  does works b (read_item off i acc)
    (λ acc', ∃ guid item, file_item b off i = Some (guid, item) ∧ take_item acc guid item = Ok acc') True G.
Proof.
  intros Hoff Hi. change (2 ^ 63)%N with 9223372036854775808%N in Hoff. unfold read_item.
  assert (∀ x, (x < 9223372036854775808 + 1048576 * 8192)%N → (x < 2 ^ 64)%N) as H64
    by (intros x; change (2 ^ 64)%N with 18446744073709551616%N; lia).
  eapply does_bind; [apply does_plus, H64; lia|]. intros ? ->.
  eapply does_bind; [apply does_plus, H64; lia|]. intros ? ->.
  eapply does_bind; [by apply does_exact_at with (F := True)|]. intros entry Hentry.
  eapply does_bind; [apply does_parse, no_panic_le|]. intros item_off Hio.
  eapply does_bind; [apply does_parse, no_panic_le|]. intros item_len Hil.
  eapply (le_inside _ _ b) in Hio; [|exact Hentry|done]. eapply (le_inside _ _ b) in Hil; [|exact Hentry|done].
  pose proof (field_le_fits _ _ _ _ Hio) as Hof. unfold fits in Hof. change (2 ^ (8 * N.of_nat (N.to_nat 4)))%N with 4294967296%N in Hof.
  eapply does_bind; [by apply does_bail_invalid with (F := True)|]. intros [] Hlen.
  pose proof Hlen as [H0%N.eqb_neq H20%N.ltb_ge]%orb_false_iff. change (N.shiftl 1 20) with 1048576%N in H20.
  eapply does_bind; [apply does_vec; change (2 ^ 63)%N with 9223372036854775808%N; lia|]. intros [] _.
  eapply does_bind; [apply does_plus, H64; lia|]. intros ? ->.
  eapply does_bind; [by apply does_exact_at with (F := True)|]. intros item Hitem.
  eapply does_weaken; [apply does_parse, no_panic_item| |done|done]. intros acc' Hacc.
  exists (slice entry 0 16), item. split; [|done]. unfold file_item. change 32%nat with (N.to_nat 32). rewrite Hentry. simpl.
  change 4%nat with (N.to_nat 4). rewrite Hio. simpl. rewrite Hil. simpl. rewrite Hlen, Hitem. done.
Qed.
Lemma read_items_does works b off entries acc G :
  (off + 32 < 2 ^ 63)%N → Forall (λ i, i < 2047) entries →
  does works b (read_items off entries acc)
    (λ acc', ∃ items, file_items b off entries = Some items ∧ take_items acc items = Ok acc') True G.
Proof.
  intros Hoff Hall. revert acc. induction Hall as [|i entries Hi _ IH]; intros acc; cbn [read_items].
  { apply does_ret. by exists []. }
  eapply does_bind; [by apply read_item_does|]. intros acc1 (guid&item&Hf&Ht).
  eapply does_weaken; [apply IH| |done|done]. intros acc2 (items&Hfs&Hts). exists ((guid, item) :: items).
  unfold file_items in *. simpl. rewrite Hf. simpl. rewrite Hfs. simpl. by rewrite Ht.
Qed.
Lemma read_metadata_does works b off G :
  file_fits b → does works b (read_metadata_region off) (file_metadata b off) True G.
Proof.
  intros Hfit. unfold read_metadata_region.
  eapply does_bind; [by apply does_exact_at with (F := True)|]. intros hdr Hhdr.
  pose proof (bytes_of_inside _ _ _ _ Hhdr ltac:(lia)) as Hin. change (N.of_nat (N.to_nat 32)) with 32%N in Hin.
  eapply does_bind; [by apply does_bail_invalid with (F := True)|]. intros [] Hsig%negb_false_iff%bool_decide_eq_true_1.
  eapply does_bind; [apply does_parse, no_panic_le|]. intros count Hc.
  eapply (le_inside _ _ b) in Hc; [|exact Hhdr|done].
  eapply does_bind; [by apply does_bail_invalid with (F := True)|]. intros [] [H0%N.eqb_neq H2%N.ltb_ge]%orb_false_iff.
  eapply does_bind.
  { apply read_items_does; [unfold file_fits in Hfit; lia|]. apply Forall_forall. intros i Hi%elem_of_seq. lia. }
  intros acc (items&Hitems&Hacc). eapply does_weaken; [apply does_parse, no_panic_metadata| |done|done].
  intros md Hmd. split.
  - change (N.to_nat 32) with (8 + 24)%nat in Hhdr. apply bytes_of_split in Hhdr as [Hs _].
    rewrite <-Hsig. exact Hs.
  - exists count, items, acc. split_and!; [done|lia..|done|done|done].
Qed.

Lemma le_at_fits name w buf off v : le_at name w buf off = Ok v → fits (8 * w) v.
Proof.
  unfold le_at. intros (end_&He&Hv)%result_bind_Ok. apply result_bind_Ok in Hv as (s&Hs&[= <-]).
  apply ok_or_Ok in He, Hs. unfold checked_add in He. apply checked_Some in He as [-> _].
  unfold get_range in Hs. destruct (N.leb_spec off (off + w)); [|done]. destruct (N.leb_spec (off + w) (blen buf)); [|done].
  injection Hs as <-. pose proof (le_word_fits (slice buf off (off + w))) as Hf.
  assert (N.of_nat (length (slice buf off (off + w))) = w) as Hl
    by (unfold slice, blen in *; rewrite length_take, length_drop; lia).
  by rewrite Hl in Hf.
Qed.
Lemma collect_elem {E A B} (f : A → result E B) l ys y :
  collect f l = Ok ys → y ∈ ys → ∃ x, f x = Ok y.
Proof.
  revert ys. induction l as [|x l IH]; intros ys; cbn [collect]; [by intros [= <-] ?%elem_of_nil|].
  intros (z&Hz&Hr)%result_bind_Ok. apply result_bind_Ok in Hr as (zs&Hzs&[= <-]).
  intros [-> | Hin]%elem_of_cons; [by exists x|by eapply IH].
Qed.
Lemma table_lengths buf regions guid bat :
  parse_region_table buf = Ok regions → find_region guid regions = Some bat → (re_length bat < 2 ^ 32)%N.
Proof.
  unfold parse_region_table. intros (z&_&Hp)%result_bind_Ok Hf. apply result_bind_Ok in Hp as (n&_&Hp).
  destruct (2047 <? n)%N; [done|]. apply find_some in Hf as [Hin%list_elem_of_In _].
  destruct (collect_elem _ _ _ _ Hp Hin) as [i Hr]. unfold parse_region in Hr.
  apply result_bind_Ok in Hr as (g&_&Hr). apply result_bind_Ok in Hr as (fo&_&Hr).
  apply result_bind_Ok in Hr as (len&Hlen&Hr). apply result_bind_Ok in Hr as (flags&_&[= <-]).
  by apply le_at_fits in Hlen.
Qed.

Lemma vhdx_opens works b path :
  file_fits b → opens works b (vhdx_open path) True False.
Proof.
  intros Hfit. unfold opens, vhdx_open. eapply does_bind; [apply does_file_open|]. intros _ _.
  eapply does_bind; [by apply does_exact_at with (F := True)|]. intros sig _.
  eapply does_bind; [by apply does_bail_invalid with (F := True)|]. intros [] _.
  eapply does_bind; [apply does_pick_header|]. intros h _.
  eapply does_bind; [by apply does_bail_invalid with (F := True)|]. intros [] _.
  eapply does_bind; [apply does_pick_table|]. intros regions (table&Htable&Hcopy).
  eapply does_bind; [apply does_parse, no_panic_ok_or|]. intros bat Hbat%ok_or_Ok.
  eapply does_bind; [apply does_parse, no_panic_ok_or|]. intros meta Hmeta%ok_or_Ok.
  eapply does_bind; [by apply read_metadata_does|]. intros md Hmd.
  eapply does_bind; [by apply does_bail_invalid with (F := True)|]. intros [] Hparent.
  eapply does_bind; [by apply does_bail_invalid with (F := True)|]. intros [] [Hbs0%N.eqb_neq _]%orb_false_iff.
  eapply does_bind; [by apply does_bail_invalid with (F := True)|]. intros [] _.
  eapply does_bind; [by apply does_checked; right|]. intros ? [-> _].
  eapply does_bind; [by apply does_bail_invalid with (F := True)|]. intros [] Hratio%N.eqb_neq.
  eapply does_bind; [by apply does_checked; right|]. intros ? [-> _].
  eapply does_bind; [by apply does_checked; right|]. intros ? [-> _].
  set (blocks := div_ceil (md_virtual_size md) (md_block_size md)) in *.
  set (ratio := (N.shiftl 1 23 * md_logical_sector_size md / md_block_size md)%N) in *.
  eapply does_bind; [by apply does_bail_invalid with (F := True)|]. intros [] Hlen%N.ltb_ge.
  assert (re_length bat < 2 ^ 32)%N as H32 by (destruct Hcopy as (buf&_&Hp); by eapply table_lengths).
  eapply does_bind.
  { apply does_vec. change (2 ^ 63)%N with 9223372036854775808%N. change (2 ^ 32)%N with 4294967296%N in H32. lia. }
  intros [] _. eapply does_bind; [by apply does_exact_at with (F := True)|]. intros raw Hraw.
  replace (N.to_nat ((blocks + div_ceil blocks ratio) * 8)) with (N.to_nat (blocks + div_ceil blocks ratio) * 8)%nat in Hraw by lia.
  apply le_table in Hraw as [Hl Hi]; [|lia].
  eapply does_weaken; [apply does_opened with (F := True) (G := False)| |done|done]. intros i (->&Hbi&Hwi). split; [|done].
  cbn [im_data]. split_and!; [done|cbn; lia|cbn; lia|].
  exists table, regions, bat, meta, md. cbn [xd_virtual_size xd_block_size xd_chunk_ratio xd_bat].
  split_and!; try done.
  - fold blocks. rewrite Hl. lia.
  - intros j Hj. apply Hi. lia.
Qed.

(** ** The disk of a VHDX file, read off its bytes

    Where a checksummed region table at [table] places a region, where the
    metadata table at [meta] places an item, and what the items say. *)
Definition region_at (b : bytes) (table : N) (guid : bytes) (off : N) : Prop :=
  bytes_of (byte_at b) table 4 = Some REGION_SIG ∧
  (∃ all, bytes_of (byte_at b) table (N.to_nat 65536) = Some all ∧
     field_le b (table + 4)%N 4 = Some (crc32c (take 4 all ++ replicate 4 x00 ++ drop 8 all))) ∧
  ∃ count i, field_le b (table + 8)%N 4 = Some count ∧ (i < count)%N ∧
    bytes_of (byte_at b) (table + (16 + i * 32))%N 16 = Some guid ∧
    field_le b (table + (16 + i * 32 + 16))%N 8 = Some off.
Definition item_at (b : bytes) (meta : N) (guid : bytes) (place : N) : Prop :=
  bytes_of (byte_at b) meta 8 = Some METADATA_SIG ∧
  ∃ count i off, field_le b (meta + 10)%N 2 = Some count ∧ (i < count)%N ∧
    bytes_of (byte_at b) (meta + 32 + i * 32)%N 16 = Some guid ∧
    field_le b (meta + 32 + i * 32 + 16)%N 4 = Some off ∧ place = (meta + off)%N.
Definition vhdx_layout (b : bytes) (size block sector bat : N) : Prop :=
  ∃ table meta params flags at_size at_sector,
    (table = 0x30000%N ∨ table = 0x40000%N) ∧
    region_at b table REGION_METADATA meta ∧ region_at b table REGION_BAT bat ∧
    item_at b meta META_FILE_PARAMETERS params ∧ field_le b params 4 = Some block ∧
    field_le b (params + 4)%N 4 = Some flags ∧ N.testbit flags 1 = false ∧
    item_at b meta META_VIRTUAL_DISK_SIZE at_size ∧ field_le b at_size 8 = Some size ∧
    item_at b meta META_LOGICAL_SECTOR_SIZE at_sector ∧ field_le b at_sector 4 = Some sector.
(** Block [n] has the entry [n + n / ratio] of the block allocation table. *)
Definition vhdx_disk (b : bytes) (size block sector bat : N) (p : N) : option byte :=
  if (size <=? p)%N then None
  else block_byte b block
         (vhdx_block (λ i, field_le b (bat + i * 8)%N 8) (2 ^ 23 * sector / block)) p.

Lemma bytes_of_sub disk off n bs lo w :
  bytes_of disk off n = Some bs → (N.to_nat lo + w ≤ n)%nat →
  bytes_of disk (off + lo) w = Some (slice bs lo (lo + N.of_nat w)).
Proof.
  intros [Hl Hk]%bytes_of_Some Hn. apply bytes_of_Some. unfold slice. rewrite length_take, length_drop.
  split; [lia|]. intros k Hlt. rewrite lookup_take_lt by lia. rewrite lookup_drop, <-Hk by lia. f_equal. lia.
Qed.

(** Zeroing the checksum leaves the rest alone. *)
Section zeroed.
Context (buf : bytes) (Hbuf : 8 ≤ length buf).
Let z := overwrite buf 4 (zeros 4).
Lemma zeroed_eq : z = take 4 buf ++ replicate 4 x00 ++ drop 8 buf.
Proof. done. Qed.
Lemma zeroed_length : length z = length buf.
Proof. rewrite zeroed_eq, !length_app, length_take, length_replicate, length_drop. lia. Qed.
Lemma zeroed_slice lo hi : (8 ≤ lo)%N → slice z lo hi = slice buf lo hi.
Proof.
  intros Hlo. unfold slice. f_equal. rewrite zeroed_eq, app_assoc, drop_app_ge; rewrite length_app, length_take, length_replicate; [|lia].
  rewrite drop_drop. f_equal. lia.
Qed.
Lemma zeroed_le name w lo : (8 ≤ lo)%N → le_at name w z lo = le_at name w buf lo.
Proof.
  intros Hlo. unfold le_at, get_range. destruct (checked_add 64 lo w); [|done]. simpl.
  unfold blen. rewrite zeroed_length. destruct (_ && _); [|done]. simpl. by rewrite zeroed_slice.
Qed.
End zeroed.

Lemma table_region b table regions guid r :
  file_copy b parse_region_table table REGION_TABLE_LEN regions → find_region guid regions = Some r →
  region_at b table guid (re_file_offset r).
Proof.
  intros (buf&Hbuf&Hp) Hf. change (N.to_nat REGION_TABLE_LEN) with (N.to_nat 65536) in Hbuf.
  pose proof Hbuf as [Hlen _]%bytes_of_Some. assert (8 ≤ length buf) as H8 by (rewrite Hlen; lia).
  unfold parse_region_table in Hp. apply result_bind_Ok in Hp as (z&Hz&Hp).
  apply result_bind_Ok in Hp as (count&Hc&Hp). unfold verified in Hz.
  case_bool_decide as Hsig; [|done]. apply result_bind_Ok in Hz as (stored&Hst&Hz).
  destruct (N.eqb_spec (crc32c (overwrite buf 4 (zeros 4))) stored) as [Hcrc|]; [|done]. injection Hz as <-.
  destruct (N.ltb_spec 2047 count) as [|H2047]; [done|].
  apply find_some in Hf as [Hin%list_elem_of_In Hg%bool_decide_eq_true_1].
  assert (∃ i, i < N.to_nat count ∧ parse_region (overwrite buf 4 (zeros 4)) i = Ok r) as (i&Hi&Hr).
  { clear -Hp Hin. assert (∀ l, collect (parse_region (overwrite buf 4 (zeros 4))) l = Ok regions →
      ∃ i, i ∈ l ∧ parse_region (overwrite buf 4 (zeros 4)) i = Ok r) as Hall.
    { intros l. clear Hp. revert regions Hin. induction l as [|x l IH]; intros ys Hin; cbn [collect]; [intros [= <-]; by apply elem_of_nil in Hin|].
      intros (y&Hy&Hr)%result_bind_Ok. apply result_bind_Ok in Hr as (zs&Hzs&[= <-]).
      apply elem_of_cons in Hin as [-> | Hin]; [exists x; split; [by left|done]|].
      destruct (IH _ Hin Hzs) as (i&?&?). exists i. split; [by right|done]. }
    destruct (Hall _ Hp) as (i&Hi%elem_of_seq&?). exists i. split; [lia|done]. }
  unfold parse_region in Hr. apply result_bind_Ok in Hr as (g&Hget&Hr). apply result_bind_Ok in Hr as (fo&Hfo&Hr).
  apply result_bind_Ok in Hr as (len&_&Hr). apply result_bind_Ok in Hr as (flags&_&[= <-]).
  cbn [re_guid re_file_offset] in *. subst g. apply ok_or_Ok in Hget. unfold get_range in Hget.
  destruct (_ && _); [|done]. injection Hget as Hget.
  rewrite zeroed_slice in Hget by (done || lia). unfold le_u64, le_u32 in *. rewrite zeroed_le in Hfo, Hc by (done || lia).
  split; [|split].
  - rewrite <-Hsig, <-(N.add_0_r table). apply (bytes_of_sub _ _ _ _ 0 4 Hbuf). lia.
  - exists buf. split; [exact Hbuf|].
    eapply (le_inside _ _ b) in Hst; [|exact Hbuf|lia]. change (N.to_nat 4) with 4%nat in Hst. rewrite Hst, <-Hcrc. reflexivity.
  - exists count, (N.of_nat i). split_and!.
    + eapply (le_inside _ _ b) in Hc; [exact Hc|exact Hbuf|lia].
    + lia.
    + rewrite <-Hget. apply (bytes_of_sub _ _ _ _ _ 16 Hbuf). lia.
    + eapply (le_inside _ _ b) in Hfo; [exact Hfo|exact Hbuf|lia].
Qed.

(** The items that the metadata came from. *)
Definition items_from (Q : bytes → bytes → Prop) (acc : Items) : Prop :=
  (∀ v f, it_block_size acc = Some v → it_flags acc = Some f →
     ∃ item, Q META_FILE_PARAMETERS item ∧ le_u32 item 0 = Ok v ∧ le_u32 item 4 = Ok f) ∧
  (∀ v, it_virtual_size acc = Some v → ∃ item, Q META_VIRTUAL_DISK_SIZE item ∧ le_u64 item 0 = Ok v) ∧
  ∀ v, it_logical_sector_size acc = Some v → ∃ item, Q META_LOGICAL_SECTOR_SIZE item ∧ le_u32 item 0 = Ok v.
Lemma take_item_from Q acc guid item acc' :
  Q guid item → items_from Q acc → take_item acc guid item = Ok acc' → items_from Q acc'.
Proof.
  intros Hq (Hp&Hv&Hs) Ht. unfold take_item in Ht.
  case_decide as E1; [|case_decide as E2; [|case_decide as E3]].
  4: by injection Ht as <-.
  all: destruct (blen item <? _)%N; [done|]; apply result_bind_Ok in Ht as (size&Hsize&Ht).
  - apply result_bind_Ok in Ht as (flags&Hflags&[= <-]). subst guid. split; [|split; [exact Hv|exact Hs]].
    intros v f [= <-] [= <-]. by exists item.
  - injection Ht as <-. subst guid. split; [exact Hp|]. split; [|exact Hs]. intros v [= <-]. by exists item.
  - injection Ht as <-. subst guid. split; [exact Hp|]. split; [exact Hv|]. intros v [= <-]. by exists item.
Qed.
Lemma take_items_from Q l acc acc' :
  Forall (λ x, Q x.1 x.2) l → items_from Q acc → take_items acc l = Ok acc' → items_from Q acc'.
Proof.
  intros Hl. revert acc. induction Hl as [|[guid item] l Hx _ IH]; intros acc Ha; cbn [take_items]; [by intros [= <-]|].
  intros (acc1&H1&H2)%result_bind_Ok. eapply IH; [|exact H2]. by eapply take_item_from.
Qed.
Lemma le_at_inside name w buf off v : le_at name w buf off = Ok v → (off + w ≤ blen buf)%N.
Proof.
  unfold le_at. intros (end_&He&Hv)%result_bind_Ok. apply result_bind_Ok in Hv as (s&Hs&_).
  apply ok_or_Ok in He, Hs. unfold checked_add in He. apply checked_Some in He as [-> _].
  unfold get_range in Hs. destruct (N.leb_spec off (off + w)); [|done]. by destruct (N.leb_spec (off + w) (blen buf)).
Qed.
Lemma item_field name w b off n item lo v :
  bytes_of (byte_at b) off n = Some item → le_at name w item lo = Ok v → field_le b (off + lo)%N (N.to_nat w) = Some v.
Proof.
  intros Hi Hv. eapply le_inside; [exact Hi| |exact Hv]. apply le_at_inside in Hv.
  apply bytes_of_Some in Hi as [Hl _]. unfold blen in Hv. lia.
Qed.

(** The item of a metadata table and where it lies. *)
Definition placed (b : bytes) (meta : N) (guid item : bytes) : Prop :=
  ∃ place n, item_at b meta guid place ∧ bytes_of (byte_at b) place n = Some item.
Lemma file_item_placed b meta count i guid item :
  bytes_of (byte_at b) meta 8 = Some METADATA_SIG → field_le b (meta + 10)%N 2 = Some count →
  (i < N.to_nat count)%nat → file_item b meta i = Some (guid, item) → placed b meta guid item.
Proof.
  intros Hsig Hc Hi. unfold file_item. intros (entry&He&Hf)%bind_Some.
  apply bind_Some in Hf as (off&Ho&Hf). apply bind_Some in Hf as (len&Hl&Hf).
  destruct (_ || _); [done|]. apply bind_Some in Hf as (it&Hit&[= <- <-]).
  exists (meta + off)%N, (N.to_nat len). split; [|done]. split; [done|].
  exists count, (N.of_nat i), off. split_and!; [done|lia| |done|done].
  rewrite <-(N.add_0_r (meta + 32 + _)%N). apply (bytes_of_sub _ _ _ _ 0 16 He). lia.
Qed.

Lemma metadata_layout b meta md :
  file_metadata b meta md →
  ∃ params flags at_size at_sector,
    item_at b meta META_FILE_PARAMETERS params ∧ field_le b params 4 = Some (md_block_size md) ∧
    field_le b (params + 4)%N 4 = Some flags ∧ (md_has_parent md = false → N.testbit flags 1 = false) ∧
    item_at b meta META_VIRTUAL_DISK_SIZE at_size ∧ field_le b at_size 8 = Some (md_virtual_size md) ∧
    item_at b meta META_LOGICAL_SECTOR_SIZE at_sector ∧ field_le b at_sector 4 = Some (md_logical_sector_size md).
Proof.
  intros (Hsig&count&items&acc&Hc&_&Hitems&Hacc&Hmd).
  assert (items_from (placed b meta) acc) as (Hp&Hv&Hs).
  { apply (take_items_from _ items no_items); [|by unfold items_from; split_and!|exact Hacc].
    apply mapM_Some in Hitems. apply Forall_forall. intros [guid item] Hin.
    apply list_elem_of_lookup in Hin as [k Hk]. destruct (Forall2_lookup_r _ _ _ _ _ Hitems Hk) as (i&Hi&Hf).
    apply lookup_seq in Hi as [-> Hi]. by eapply file_item_placed. }
  unfold metadata_of in Hmd. apply result_bind_Ok in Hmd as (block&Hb%ok_or_Ok&Hmd).
  apply result_bind_Ok in Hmd as (flags&Hf%ok_or_Ok&Hmd). apply result_bind_Ok in Hmd as (size&Hz%ok_or_Ok&Hmd).
  apply result_bind_Ok in Hmd as (sector&Hr%ok_or_Ok&[= <-]). cbn.
  destruct (Hp _ _ Hb Hf) as (i1&(p1&n1&A1&B1)&C1&D1). destruct (Hv _ Hz) as (i2&(p2&n2&A2&B2)&C2).
  destruct (Hs _ Hr) as (i3&(p3&n3&A3&B3)&C3). unfold le_u32, le_u64 in *.
  eapply item_field in C1, D1, C2, C3; [|exact B3|exact B2|exact B1|exact B1].
  rewrite !N.add_0_r in *. exists p1, flags, p2, p3. split_and!; try done.
  intros Hpar%negb_false_iff%N.eqb_eq. destruct (N.testbit flags 1) eqn:E; [|done].
  apply (f_equal (λ n, N.testbit n 1)) in Hpar. by rewrite N.land_spec, E in Hpar.
Qed.

Lemma below_ceil p s k : (0 < k)%N → (p < s)%N → (p / k < div_ceil s k)%N.
Proof.
  intros Hk Hp. unfold div_ceil. apply N.Div0.div_lt_upper_bound.
  pose proof (N.div_mod s k ltac:(lia)). pose proof (N.mod_lt s k ltac:(lia)).
  destruct (N.eqb_spec (s mod k) 0); nia.
Qed.

(** The image of an opened file shows the disk of its layout. *)
Lemma vhdx_sound_disk d b :
  vhdx_sound d b →
  ∃ block sector bat, vhdx_layout b (xd_virtual_size d) block sector bat ∧
    ∀ p, (p < xd_virtual_size d)%N → vhdx_byte d b p = vhdx_disk b (xd_virtual_size d) block sector bat p.
Proof.
  intros (_&Hblk&Hratio&table&regions&bat&meta&md&Htable&Hcopy&Hbat&Hmeta&Hmd&Hparent&Hsz&Hbs&Hr&Hlen&Hent).
  destruct (metadata_layout _ _ _ Hmd) as (params&flags&at_size&at_sector&A1&A2&A3&A4&A5&A6&A7&A8).
  exists (xd_block_size d), (md_logical_sector_size md), (re_file_offset bat). split.
  { exists table, (re_file_offset meta), params, flags, at_size, at_sector. rewrite Hsz, Hbs.
    split_and!; try done; [by eapply table_region..|by apply A4]. }
  intros p Hp. unfold vhdx_byte, vhdx_disk. destruct (N.leb_spec (xd_virtual_size d) p); [lia|].
  change (2 ^ 23)%N with (N.shiftl 1 23). rewrite Hbs, <-Hr, <-Hbs. unfold block_byte, vhdx_block.
  set (n := (p / xd_block_size d)%N). set (ratio := xd_chunk_ratio d) in *.
  assert (n + n / ratio < N.of_nat (length (xd_bat d)))%N as Hin.
  { rewrite Hlen. set (blocks := div_ceil _ _).
    assert (n < blocks)%N as Hn by by apply below_ceil.
    pose proof (below_ceil n blocks ratio Hratio Hn). lia. }
  specialize (Hent (N.to_nat (n + n / ratio)) ltac:(lia)). rewrite N2Nat.id in Hent. by rewrite Hent.
Qed.
