(* ===== verification/Images.v ===== *)
(** * Images: any disk image

    crates/celimage/src/lib.rs: [open] with its format detection, over the four
    readers, and what holds of the images it returns: their reads answer with
    the bytes of the virtual disk, opening never panics but for one kind of
    VMDK header, and the checksum is that of the disk. *)
From S2P Require Import Prelude.
From S2P Require Import Errors.
From S2P Require Import Vault.
From S2P Require Import Crc.
From S2P Require Import DiskFile.
From S2P Require Import DiskImage.
From S2P Require Import Qcow2.
From S2P Require Import VmdkDisk.
From S2P Require Import VhdxDisk.
From Stdlib Require Import Strings.Byte.

(** [Box<dyn DiskImage>]. *)
Inductive AnyImage :=
| IRaw (i : RawImage) | IQcow2 (i : Qcow2Image) | IVmdk (i : VmdkImage) | IVhdx (i : VhdxImage).

(** A method of the boxed image. *)
Definition boxed {I A} (box : I → AnyImage) (m : st I Fault A) (i : I) : result Fault A * AnyImage :=
  let '(r, i') := m i in (r, box i').
#[export] Instance any_image : DiskImage AnyImage := {|
  info i := match i with IRaw i => info i | IQcow2 i => info i | IVmdk i => info i | IVhdx i => info i end;
  virtual_size i := match i with
    | IRaw i => virtual_size i | IQcow2 i => virtual_size i | IVmdk i => virtual_size i | IVhdx i => virtual_size i end;
  read_at off n := λ i, match i with
    | IRaw i => boxed IRaw (read_at off n) i
    | IQcow2 i => boxed IQcow2 (read_at off n) i
    | IVmdk i => boxed IVmdk (read_at off n) i
    | IVhdx i => boxed IVhdx (read_at off n) i
    end
|}.

Definition open (path : string) : M AnyImage :=
  kind ← detect_format path;
  match kind with
  | Raw => i ← raw_open path; mret (IRaw i)
  | Qcow2 => i ← qcow2_open path; mret (IQcow2 i)
  | Vmdk => i ← vmdk_open path; mret (IVmdk i)
  | Vhdx => i ← vhdx_open path; mret (IVhdx i)
  end.
Definition inspect (path : string) : M ImageInfo := i ← open path; mret (info i).

(** ** The virtual disk *)
Definition image_file (i : AnyImage) : Handle :=
  match i with IRaw i => im_file i | IQcow2 i => im_file i | IVmdk i => im_file i | IVhdx i => im_file i end.
Definition image_sound (i : AnyImage) (b : bytes) : Prop :=
  match i with
  | IRaw i => sound (im_data i) b
  | IQcow2 i => sound (im_data i) b
  | IVmdk i => sound (im_data i) b
  | IVhdx i => sound (im_data i) b
  end.
Definition image_byte (i : AnyImage) (b : bytes) : N → option byte :=
  match i with
  | IRaw _ => byte_at b
  | IQcow2 _ => qcow2_byte b
  | IVmdk _ => vmdk_byte b
  | IVhdx i => vhdx_byte (im_data i) b
  end.
#[export] Program Instance any_laws : DiskLaws AnyImage := {|
  disk_ok i := image_sound i (h_bytes (image_file i));
  disk_byte i := image_byte i (h_bytes (image_file i));
  disk_works i := healthy (image_file i)
|}.
Next Obligation.
  intros off n i Hok. destruct i as [i|i|i|i]; cbn in Hok.
  - pose proof (law_read off n i Hok) as Hl. change (read_at off n (IRaw i)) with (boxed IRaw (read_at off n) i).
    unfold boxed. destruct (read_at off n i) as [r i']. exact Hl.
  - pose proof (law_read off n i Hok) as Hl. change (read_at off n (IQcow2 i)) with (boxed IQcow2 (read_at off n) i).
    unfold boxed. destruct (read_at off n i) as [r i']. exact Hl.
  - pose proof (law_read off n i Hok) as Hl. change (read_at off n (IVmdk i)) with (boxed IVmdk (read_at off n) i).
    unfold boxed. destruct (read_at off n i) as [r i']. exact Hl.
  - pose proof (law_read off n i Hok) as Hl. change (read_at off n (IVhdx i)) with (boxed IVhdx (read_at off n) i).
    unfold boxed. destruct (read_at off n i) as [r i']. exact Hl.
Qed.

(** ** Opening *)
Lemma does_detect works b path G :
  does works b (detect_format path) (λ k, ∃ m, (0 < m)%N ∧ (works → m = 16%N) ∧ detect_from_bytes (upto m b) = Ok k) (b = []) G.
Proof.
  unfold detect_format. intros h Hb Hw. unfold mbind, st_bind at 1.
  pose proof (does_file_open works b (io ("open " +:+ path)) False G h Hb Hw) as Ho.
  assert (h_pos (on_error (io ("open " +:+ path)) file_open h).2 = 0%N ∨
          is_ok (on_error (io ("open " +:+ path)) file_open h).1 = false) as Hpos.
  { unfold on_error, file_open, mbind, st_bind, modify. by destruct (allowed h) as [[o|e] h1]; [left|right]. }
  destruct (on_error _ file_open h) as [[[]|[e|w]] h1]; destruct Ho as (Hb1&Hw1&Ho); [|by split_and!; try done; intros ?%Ho|by split_and!].
  destruct Hpos as [Hpos|?]; [|done]. simpl in Hpos.
  unfold st_bind. unfold on_error at 1. pose proof (read_spec works b 16 h1 Hb1 Hw1) as Hr. rewrite Hpos, from_0 in Hr.
  destruct (read 16 h1) as [[bs|e] h2]; destruct Hr as (Hb2&Hw2&Hr); [|split_and!; try done; simpl; by intros ?%Hr].
  destruct Hr as (_&m&Hm&Hm0&Hmw&->). cbn [map_err]. case_decide as Hnil.
  - split_and!; try done. cbn. intros _. unfold upto, blen in Hnil. specialize (Hm0 ltac:(done)). destruct b; [done|].
    apply (f_equal length) in Hnil. rewrite length_take in Hnil. simpl in Hnil. lia.
  - split_and!; try done. unfold try. cbn [fst]. destruct (detect_from_bytes (upto m b)) as [k|f] eqn:Ed.
    + exists m. split_and!; auto. apply Hm0. done.
    + unfold detect_from_bytes in Ed. rewrite decide_False in Ed by done. repeat case_match; discriminate Ed.
Qed.

(** The format of a file. *)
Definition file_format (b : bytes) : FormatKind :=
  match detect_from_bytes (upto 16 b) with Ok k => k | Err _ => Raw end.

(** The files [open] accepts when nothing goes wrong; of VHDX files nothing is
    claimed. *)
Definition openable (b : bytes) : Prop :=
  b ≠ [] ∧ match file_format b with
           | Raw => True | Qcow2 => qcow2_valid b | Vmdk => vmdk_valid b | Vhdx => False end.

Lemma open_does works b path :
  file_fits b →
  does works b (open path)
    (λ i, image_sound i b ∧ h_bytes (image_file i) = b ∧ (works → healthy (image_file i)))
    (¬ openable b) (vmdk_huge b).
Proof.
  intros Hfit. eapply does_bind.
  { eapply does_weaken; [apply (does_detect works b path (vmdk_huge b))|intros k Hk; exact Hk| |done]. intros _ Hn [? _]. done. }
  intros k (m&Hm0&Hmw&Hk).
  assert (works → file_format b = k) as Hformat.
  { intros Hw. unfold file_format. rewrite <-(Hmw Hw), Hk. done. }
  assert (∀ F : Prop, (works → F → ¬ match k with Raw => True | Qcow2 => qcow2_valid b | Vmdk => vmdk_valid b | Vhdx => False end) →
    works → F → ¬ openable b) as Hrefuse.
  { intros F HF Hw HF' [_ Ho]. rewrite (Hformat Hw) in Ho. by eapply HF. }
  assert (∀ D `{ReaderLaws D} (open_d : M (Image D)) (box : Image D → AnyImage) (F G : Prop),
    (∀ i, image_sound (box i) b = sound (im_data i) b ∧ image_file (box i) = im_file i) →
    opens works b open_d F G → (works → F → ¬ openable b) → (G → vmdk_huge b) →
    does works b (i ← open_d; mret (box i))
      (λ i, image_sound i b ∧ h_bytes (image_file i) = b ∧ (works → healthy (image_file i)))
      (¬ openable b) (vmdk_huge b)) as Hbox.
  { intros D HR HL open_d box F G Hbx Ho HF HG. eapply does_bind.
    - eapply does_weaken; [exact Ho|intros a Ha; exact Ha|exact HF|exact HG].
    - intros i Hi. apply does_ret. destruct (Hbx i) as [-> ->]. exact Hi. }
  destruct k.
  - eapply Hbox; [done|by apply raw_opens|apply Hrefuse; done|done].
  - eapply Hbox; [done|by apply qcow2_opens|apply Hrefuse; done|done].
  - eapply Hbox; [done|by apply vmdk_opens|apply Hrefuse; done|done].
  - eapply Hbox; [done|by apply vhdx_opens|apply Hrefuse; naive_solver|done].
Qed.

(** ** Reading an opened image *)
(** The answers to reads of [n] bytes at [off], one after the other. *)
Fixpoint run_reads (reqs : list (N * N)) (i : AnyImage) : list (result Fault bytes) * AnyImage :=
  match reqs with
  | [] => ([], i)
  | (off, n) :: reqs' =>
      let '(r, i1) := read_at off n i in
      let '(rs, i2) := run_reads reqs' i1 in
      (r :: rs, i2)
  end.
(** What a read of a disk may answer. *)
Definition read_ok (disk : N → option byte) (size : N) (works : Prop) (req : N * N) (r : result Fault bytes) : Prop :=
  match r with
  | Ok bs => read_answer disk size req.1 req.2 bs
  | Err (Fail _) => works → read_refused disk size req.1 req.2
  | Err (Panic _) => read_refused disk size req.1 req.2
  end.
Lemma run_reads_ok reqs i works :
  disk_ok i → (works → disk_works i) →
  Forall2 (read_ok (disk_byte i) (virtual_size i) works) reqs (run_reads reqs i).1.
Proof.
  revert i. induction reqs as [|[off n] reqs IH]; intros i Hok Hw; cbn [run_reads]; [constructor|].
  pose proof (law_read off n i Hok) as Hr. destruct (read_at off n i) as [r i1]. destruct Hr as (Hok1&Hb1&_&Hs1&Hw1&Hr).
  specialize (IH i1 Hok1 (λ Hp, Hw1 (Hw Hp))). destruct (run_reads reqs i1) as [rs i2]. cbn [fst] in *.
  rewrite Hb1, Hs1 in IH. constructor; [|done]. unfold read_ok. destruct r as [bs|[e|w]]; auto.
Qed.

(** ** The disk of a file

    The format is told by the first bytes, and the disk by the format. *)
Definition begins (b magic : bytes) : bool :=
  bool_decide (bytes_of (byte_at b) 0 (length magic) = Some magic).
Definition file_kind (b : bytes) : FormatKind :=
  if begins b [x51; x46; x49; xfb] then Qcow2
  else if begins b [x4b; x44; x4d; x56] then Vmdk
  else if begins b [x76; x68; x64; x78; x66; x69; x6c; x65] then Vhdx
  else Raw.
Definition file_disk (b : bytes) (size : N) (disk : N → option byte) : Prop :=
  match file_kind b with
  | Raw => size = blen b ∧ disk = byte_at b
  | Qcow2 => field_be b 24 8 = Some size ∧ disk = qcow2_byte b
  | Vmdk => ∃ capacity, field_le b 12 8 = Some capacity ∧ size = N.min (capacity * 512) (2 ^ 64 - 1) ∧
              disk = vmdk_byte b
  | Vhdx => ∃ block sector bat, vhdx_layout b size block sector bat ∧ disk = vhdx_disk b size block sector bat
  end.

(** The read of [detect_format], the second transfer, is not cut before the
    longest magic number. *)
Definition sniffs (outcomes : list (option transfer)) (b : bytes) : Prop :=
  ∀ k, outcomes !! 1%nat = Some (Some (Short k)) → 8 ≤ S k ∨ (blen b ≤ N.of_nat (S k))%N.

Lemma starts_begins b magic m :
  (0 < length magic ≤ 8)%nat → (8 ≤ m ∨ blen b ≤ m)%N → starts_with magic (upto m b) = begins b magic.
Proof.
  intros Hl Hm. unfold starts_with, begins. apply eq_true_iff_eq.
  rewrite andb_true_iff, !bool_decide_eq_true, N.leb_le, blen_upto, bytes_of_Some. unfold upto, blen in *.
  split.
  - intros [Hle Ht]. split; [done|]. intros k Hk. rewrite <-Ht, lookup_take_lt by done. rewrite lookup_take_lt by lia.
    rewrite byte_at_lookup. f_equal. lia.
  - intros [_ Hk].
    assert (length magic ≤ length b) as Hlen.
    { destruct (decide (length magic ≤ length b)) as [|Hn]; [done|]. specialize (Hk (pred (length magic)) ltac:(lia)).
      rewrite byte_at_lookup, lookup_ge_None_2 in Hk by lia. symmetry in Hk. apply lookup_ge_None_1 in Hk. lia. }
    split; [lia|]. apply list_eq. intros k. destruct (decide (k < length magic)) as [Hlt|].
    + rewrite lookup_take_lt by done. rewrite lookup_take_lt by lia. rewrite <-Hk by done. rewrite byte_at_lookup. f_equal. lia.
    + rewrite !lookup_ge_None_2; [done|lia|]. rewrite length_take. lia.
Qed.
Lemma detect_kind b m k :
  (8 ≤ m ∨ blen b ≤ m)%N → detect_from_bytes (upto m b) = Ok k → k = file_kind b.
Proof.
  intros Hm Hk. unfold detect_from_bytes in Hk. case_decide; [done|]. unfold QCOW2_MAGIC, VMDK_MAGIC, VHDX_MAGIC in Hk.
  rewrite !starts_begins in Hk by (done || simpl; lia). unfold file_kind. by repeat case_match; simplify_eq.
Qed.
Lemma allowed_run h :
  allowed h = ((match mjoin (head (h_outcomes h)) with Some (Refuse msg) => Err msg | o => Ok o end),
               mkHandle (h_bytes h) (h_pos h) (tail (h_outcomes h))).
Proof.
  unfold allowed, next_outcome, mbind, st_bind. cbv beta iota. by destruct (mjoin _) as [[]|].
Qed.
Lemma detect_sniffs path h k h' :
  sniffs (h_outcomes h) (h_bytes h) → detect_format path h = (Ok k, h') → k = file_kind (h_bytes h).
Proof.
  intros Hs Hd. unfold detect_format in Hd. apply st_bind_Ok in Hd as ([]&h1&Ho&Hd).
  apply st_bind_Ok in Hd as (bs&h2&Hr&Hd). case_decide; [done|]. unfold try in Hd. injection Hd as Hd _.
  unfold on_error, file_open, mbind, st_bind in Ho. rewrite allowed_run in Ho.
  assert (h1 = mkHandle (h_bytes h) 0 (tail (h_outcomes h))) as ->.
  { unfold modify, set_pos in Ho. destruct (mjoin (head (h_outcomes h))) as [[n|msg]|]; cbn in Ho; [by injection Ho as <-|done|by injection Ho as <-]. }
  unfold on_error, read, mbind, st_bind in Hr. rewrite allowed_run in Hr. cbn [h_bytes h_pos h_outcomes] in Hr.
  assert (∃ m, bs = upto m (h_bytes h) ∧ (8 ≤ m ∨ blen (h_bytes h) ≤ m)%N) as (m&->&Hm).
  { unfold get_st, modify, mret, st_ret in Hr. cbn [h_bytes h_pos] in Hr. rewrite from_0 in Hr.
    assert (head (tail (h_outcomes h)) = h_outcomes h !! 1%nat) as E by by destruct (h_outcomes h) as [|? []].
    rewrite E in Hr. unfold sniffs in Hs.
    destruct (h_outcomes h !! 1%nat) as [[[n|msg]|]|]; cbn in Hr; [|done|..]; injection Hr as <- _; eexists; (split; [done|]).
    - destruct (Hs n eq_refl); lia.
    - lia.
    - lia. }
  by eapply detect_kind.
Qed.

Definition image_kind (i : AnyImage) : FormatKind :=
  match i with IRaw _ => Raw | IQcow2 _ => Qcow2 | IVmdk _ => Vmdk | IVhdx _ => Vhdx end.
Lemma open_kind path h i h' :
  open path h = (Ok i, h') → ∃ h1, detect_format path h = (Ok (image_kind i), h1).
Proof.
  unfold open. intros (k&h1&Hk&Ho)%st_bind_Ok. exists h1.
  destruct k; apply st_bind_Ok in Ho as (d&h2&_&[= <- _]); exact Hk.
Qed.

(** An image of the file's kind shows the file's disk. *)
Lemma sound_disk i b :
  image_sound i b → image_kind i = file_kind b →
  ∃ disk, file_disk b (virtual_size i) disk ∧ ∀ p, (p < virtual_size i)%N → image_byte i b p = disk p.
Proof.
  intros Hs Hk. unfold file_disk. rewrite <-Hk. destruct i as [i|i|i|i]; cbn [image_kind image_sound image_byte] in *.
  - exists (byte_at b). split; [split; [apply Hs|done]|done].
  - exists (qcow2_byte b). split; [split; [apply Hs|done]|done].
  - exists (vmdk_byte b). split; [|done]. destruct Hs as (_&_&_&_&_&(c&Hc&Hsz&_)&_). exists c. split; [done|].
    split; [|done]. change (virtual_size (IVmdk i)) with (vd_virtual_size (im_data i)). rewrite Hsz.
    unfold saturating_mul, SECTOR, umax. lia.
  - destruct (vhdx_sound_disk _ _ Hs) as (block&sector&bat&Hl&Hd). eexists. split; [by exists block, sector, bat|exact Hd].
Qed.

(** A disk that agrees up to its size is read alike. *)
Lemma read_ok_ext disk disk' size works req r :
  (∀ p, (p < size)%N → disk p = disk' p) → read_ok disk size works req r → read_ok disk' size works req r.
Proof.
  intros Hd. destruct req as [off n]. unfold read_ok. cbn [fst snd].
  assert (read_refused disk size off n → read_refused disk' size off n) as Href.
  { intros (p&Hp&Hx). exists p. split; [done|]. rewrite <-Hd; [done|lia]. }
  destruct r as [bs|[e|w]]; [|auto..]. intros (H1&H2&H3&H4). split_and!; [done|done| |].
  - destruct H2 as [->|Hle]; [done|]. apply bytes_of_Some in H3 as [Hl Hk]. apply bytes_of_Some. split; [done|].
    intros k Hlt. rewrite <-Hd; [by apply Hk|]. unfold blen in Hle. lia.
  - intros Hnil. destruct (H4 Hnil) as [?|[?|Hx]]; auto. destruct (N.le_gt_cases size off); [auto|].
    right; right. by rewrite <-Hd.
Qed.

(** C4: an opened image is the virtual disk of its file.  Whatever file (below
    2^63 bytes), and whatever transfers come short or fail (but that the read of the magic
    number is not cut before its end), once [open] has answered with an image,
    it has the format that the file's first bytes tell, the size that the
    file's header gives, and every sequence of reads (empty, past the end,
    across the blocks of the format, again and again) answers with bytes of the
    disk that the tables of the file describe, at the offset asked for, as many
    as the buffer and the disk allow; a read is refused, or panics, only when a
    byte it asks for is not in the file or of an unsupported kind, or when a
    transfer fails. *)
Theorem opened_image_is_disk path h i h' reqs :
  file_fits (h_bytes h) → sniffs (h_outcomes h) (h_bytes h) → open path h = (Ok i, h') →
  ii_format (info i) = file_kind (h_bytes h) ∧
  ∃ disk, file_disk (h_bytes h) (virtual_size i) disk ∧
    Forall2 (read_ok disk (virtual_size i) (healthy h)) reqs (run_reads reqs i).1.
Proof.
  intros Hfit Hsn Ho. pose proof (open_does (healthy h) (h_bytes h) path Hfit h eq_refl id) as Hd.
  rewrite Ho in Hd. destruct Hd as (_&_&Hs&Hb&Hw).
  destruct (open_kind _ _ _ _ Ho) as [h1 Hk]. apply detect_sniffs in Hk; [|done].
  destruct (sound_disk i _ Hs Hk) as (disk&Hdisk&Hext).
  split; [by rewrite <-Hk; destruct i|]. exists disk. split; [done|].
  assert (disk_ok i) as Hok by (cbn; by rewrite Hb).
  eapply Forall2_impl; [exact (run_reads_ok reqs i (healthy h) Hok Hw)|]. intros req r. cbn [disk_byte any_laws].
  rewrite Hb. by apply read_ok_ext.
Qed.

(** C36: opening an image ends well on every file.  [open] panics only on a
    VMDK header whose grain directory would not fit in the address space, and
    otherwise answers with an image or an error; with no failing transfer it
    opens every raw file, and every QCOW2 and VMDK file whose header is valid. *)
Theorem open_ends_well path h :
  file_fits (h_bytes h) →
  match (open path h).1 with
  | Ok i => image_sound i (h_bytes h)
  | Err (Fail _) => healthy h → ¬ openable (h_bytes h)
  | Err (Panic _) => vmdk_huge (h_bytes h)
  end.
Proof.
  intros Hfit. pose proof (open_does (healthy h) (h_bytes h) path Hfit h eq_refl id) as Hd.
  destruct (open path h) as [[i|[e|w]] h']; destruct Hd as (_&_&Hr); [|exact Hr..]. by destruct Hr.
Qed.

(** The checksum of an image is the CRC-32C of its virtual disk, the same in
    every format.  [full_image_crc32c] of an opened image ends; if it answers,
    the whole disk can be read and the answer is the checksum of its bytes; and
    it answers whenever the disk has bytes, all can be read and no transfer
    fails. *)
Theorem image_checksum_exact path h i h' :
  file_fits (h_bytes h) → open path h = (Ok i, h') →
  let disk := bytes_of (image_byte i (h_bytes h)) 0 (N.to_nat (virtual_size i)) in
  match (full_image_crc32c i).1 with
  | Ok c => ∃ d, disk = Some d ∧ d ≠ [] ∧ c = crc32c d
  | Err (Fail _) => healthy h → virtual_size i = 0%N ∨ disk = None
  | Err (Panic _) => disk = None
  end.
Proof.
  intros Hfit Ho disk. pose proof (open_does (healthy h) (h_bytes h) path Hfit h eq_refl id) as Hd.
  rewrite Ho in Hd. destruct Hd as (_&_&Hs&Hb&Hw).
  assert (disk_ok i) as Hok by (cbn; by rewrite Hb).
  pose proof (full_checksum_spec i Hok) as Hc. unfold disk_content in Hc. cbn [disk_byte any_laws] in Hc.
  rewrite Hb in Hc. fold disk in Hc. destruct (full_image_crc32c i) as [r i']. destruct Hc as (_&_&_&Hr). cbn [fst].
  destruct r as [c|[e|w]].
  - destruct Hr as [Hp (d&Hdk&->)]. exists d. split_and!; try done. intros ->.
    unfold disk in Hdk. apply bytes_of_Some in Hdk as [Hl _]. cbn [length] in Hl. lia.
  - intros Hh. by apply Hr, Hw.
  - exact Hr.
Qed.

(** ** Small files *)
Module ImageWitness.
(** A qcow2 file of 512-byte clusters: a header, the two tables, and one data
    cluster for the first 512 of 700 bytes. *)
Definition q_file : bytes :=
  QCOW2_MAGIC ++ [x00; x00; x00; x03] ++ zeros 12 ++ [x00; x00; x00; x09] ++
  [x00; x00; x00; x00; x00; x00; x02; xbc] ++ zeros 4 ++ [x00; x00; x00; x01] ++
  [x00; x00; x00; x00; x00; x00; x02; x00] ++ zeros 464 ++
  [x00; x00; x00; x00; x00; x00; x04; x00] ++ zeros 504 ++
  [x00; x00; x00; x00; x00; x00; x06; x00] ++ zeros 504 ++
  replicate 512 x42.
(** The second header read comes short. *)
Definition q_handle : Handle := mkHandle q_file 0 [None; None; None; None; Some (Short 99)].
Definition q_image : AnyImage :=
  match (open "d.qcow2" q_handle).1 with Ok i => i | Err _ => IRaw (mkImage (mkRawData "" 0) q_handle) end.

(** A VMDK header of one-entry grain tables and the largest capacity. *)
Definition huge_file : bytes :=
  VMDK_MAGIC ++ [x01; x00; x00; x00] ++ zeros 4 ++ replicate 8 xff ++
  [x08; x00; x00; x00; x00; x00; x00; x00] ++ zeros 16 ++ [x01; x00; x00; x00] ++ zeros 8 ++
  [x01; x00; x00; x00; x00; x00; x00; x00] ++ [x01; x00; x00; x00; x00; x00; x00; x00] ++ zeros 8.
(** A VHDX image of 2 MiB blocks, the first of which lies at the end of the
    address space. *)
Definition far_image : VhdxImage :=
  mkImage (mkVhdxData "far.vhdx" 0x400000 0x200000 512 [0xfffffffffff00006%N] 2048 false) (mkHandle [] 0 []).
End ImageWitness.

(** Two files that panic the program: opening the first, reading the second. *)
Example malformed_images_panic :
  (open "huge.vmdk" (mkHandle ImageWitness.huge_file 0 [])).1 = Err (Panic "capacity overflow") ∧
  (read_at 0x100000 1 ImageWitness.far_image).1 = Err (Panic "attempt to add with overflow").
Proof. by vm_compute. Qed.

Lemma opened_image_is_disk_witness :
  let reqs := [(0, 4); (510, 100); (512, 5); (698, 16); (700, 1); (9, 0)]%N in
  let answers := (run_reads reqs ImageWitness.q_image).1 in
  answers = [Ok (replicate 4 x42); Ok (replicate 2 x42); Ok (replicate 5 x00); Ok (replicate 2 x00); Ok []; Ok []] ∧
  ii_format (info ImageWitness.q_image) = Qcow2 ∧
  ∃ disk, file_disk ImageWitness.q_file 700 disk ∧
    Forall2 (read_ok disk 700 (healthy ImageWitness.q_handle)) reqs answers.
Proof.
  intros reqs answers. split; [vm_compute; reflexivity|].
  assert (sniffs (h_outcomes ImageWitness.q_handle) ImageWitness.q_file) as Hs by (intros k Hk; vm_compute in Hk; discriminate Hk).
  destruct (opened_image_is_disk "d.qcow2" ImageWitness.q_handle ImageWitness.q_image
           (open "d.qcow2" ImageWitness.q_handle).2 reqs) as [Hf (disk&Hd&Hr)];
    [vm_compute; reflexivity|exact Hs|vm_compute; reflexivity|].
  split; [rewrite Hf; vm_compute; reflexivity|].
  assert (virtual_size ImageWitness.q_image = 700%N) as Hv by (vm_compute; reflexivity). rewrite Hv in Hd, Hr.
  exists disk. split; [exact Hd|exact Hr].
Defined.

(** The first read may come short: three bytes of the magic number make a
    QCOW2 file a raw one. *)
Example short_read_opens_raw :
  ii_format <$> (inspect "d.qcow2" (mkHandle ImageWitness.q_file 0 [None; Some (Short 2)])).1 = Ok Raw ∧
  file_kind ImageWitness.q_file = Qcow2.
Proof. by vm_compute. Qed.

Lemma open_ends_well_witness :
  vmdk_huge ImageWitness.huge_file.
Proof.
  pose proof (open_ends_well "huge.vmdk" (mkHandle ImageWitness.huge_file 0 [])) as Hw.
  assert ((open "huge.vmdk" (mkHandle ImageWitness.huge_file 0 [])).1 = Err (Panic "capacity overflow")) as E
    by (vm_compute; reflexivity).
  rewrite E in Hw. apply Hw. vm_compute. reflexivity.
Defined.

Lemma image_checksum_exact_witness :
  let h := mkHandle ImageWitness.q_file 0 [] in
  let i := match (open "d.qcow2" h).1 with Ok i => i | Err _ => ImageWitness.q_image end in
  (full_image_crc32c i).1 = Ok (crc32c (replicate 512 x42 ++ replicate 188 x00)) ∧
  match (full_image_crc32c i).1 with
  | Ok c => ∃ d, bytes_of (image_byte i ImageWitness.q_file) 0 (N.to_nat (virtual_size i)) = Some d ∧ d ≠ [] ∧ c = crc32c d
  | Err (Fail _) => healthy h → virtual_size i = 0%N ∨
      bytes_of (image_byte i ImageWitness.q_file) 0 (N.to_nat (virtual_size i)) = None
  | Err (Panic _) => bytes_of (image_byte i ImageWitness.q_file) 0 (N.to_nat (virtual_size i)) = None
  end.
Proof.
  intros h i. split; [vm_compute; reflexivity|].
  apply (image_checksum_exact "d.qcow2" h i (open "d.qcow2" h).2); [vm_compute; reflexivity|vm_compute; reflexivity].
Defined.
