(* ===== verification/HyperErr.v ===== *)
(** * HyperErr: errors and capabilities of the kernel

    crates/celhyper/src/error.rs and cap.rs: the error type of the bare-metal
    kernel, the rights mask and the capability check. *)
From S2P Require Import Prelude.

Inductive HyperError : Type :=
| InvalidHandoff (msg : string)
| UnsupportedCpu (msg : string)
| Hardware (msg : string)
| Exhausted (msg : string)
| Denied (msg : string)
| Invalid (msg : string)
| Unimplemented (msg : string)
| Internal (msg : string).

Abbreviation HyperResult := (result HyperError).

#[export] Instance HyperError_eq_dec : EqDecision HyperError.
Proof. solve_decision. Defined.

(** [Rights]: a mask of four bits. *)
Module Rights.
Definition READ : N := 1.
Definition WRITE : N := 2.
Definition INVOKE : N := 4.
Definition GRANT : N := 8.
(** [bitflags]' [contains]. *)
Definition contains (self needed : N) : bool := (N.land self needed =? needed)%N.
End Rights.

Inductive Object : Type :=
| OVm (id : N)
| OVcpu (vm vcpu : N)
| OEptRange (vm : N)
| OIommuDomain (id : N).

Record Capability := mkCapability { object : Object; rights : N }.

(** [Capability::check]. *)
Definition check (self : Capability) (needed : N) : HyperResult unit :=
  if Rights.contains (rights self) needed then Ok tt else Err (Denied "rights mask").

Lemma check_Ok c n : check c n = Ok tt ↔ N.land (rights c) n = n.
Proof.
  unfold check, Rights.contains. destruct (N.eqb_spec (N.land (rights c) n) n); split; done.
Qed.

(** A check for a union of rights is the conjunction of the checks. *)
Lemma check_lor c n m : check c (N.lor n m) = Ok tt ↔ check c n = Ok tt ∧ check c m = Ok tt.
Proof.
  rewrite !check_Ok. split.
  - intros E. assert (∀ i, N.testbit (N.lor n m) i = true → N.testbit (rights c) i = true) as Hi.
    { intros i Hb. rewrite <-E, N.land_spec in Hb. by apply andb_true_iff in Hb as [? _]. }
    split; apply N.bits_inj; intros i; rewrite N.land_spec; specialize (Hi i);
      rewrite N.lor_spec in Hi; destruct (N.testbit n i), (N.testbit m i); simpl in *;
      rewrite ?andb_false_r, ?andb_true_r; auto.
  - intros [E1 E2]. rewrite N.land_lor_distr_r. by rewrite E1, E2.
Qed.
