(* ===== verification/Ept.v ===== *)
(** * Ept: the extended page tables of a guest

    crates/celhyper/src/mm.rs: the frame provider interface, the four-level
    walker [map_4k] and [translate] over it, and the kernel's bump pool.  The
    interface is the class [FrameProvider]; what the walker relies on is
    [FrameLaws], which the pool satisfies (EptProofs.v). *)
From S2P Require Import Prelude.
From S2P Require Import HyperErr.
From S2P Require Import Vault.
From S2P Require Import Crc.
From Stdlib Require Import Strings.Byte.

Definition PAGE_SIZE : N := 4096.
Definition ENTRIES_PER_TABLE : N := 512.
Definition ADDR_MASK : N := 0x000FFFFFFFFFF000.
Definition NON_LEAF_RWX : N := 7.

(** [EptFlags]. *)
Module EptFlags.
Definition READ : N := 1.
Definition WRITE : N := 2.
Definition EXEC : N := 4.
Definition MT_WB : N := 48.
Definition MT_UC : N := 0.
Definition IGNORE_PAT : N := 64.
Definition intersects (a b : N) : bool := negb (N.land a b =? 0)%N.
End EptFlags.

(** Physical addresses are numbers; [copy_bytes] is the raw copy through the
    identity map that [install_first_guest] makes. *)
Class FrameProvider (P : Type) := {
  alloc_zeroed : st P HyperError N;
  read_entry : P → N → N → N;
  write_entry : N → N → N → P → P;
  copy_bytes : N → bytes → P → P;
  peek : P → N → byte      (** the byte at a physical address *)
}.

(** The address of a frame: aligned and of 52 bits. *)
Definition page_addr (pa : N) : Prop := N.land pa ADDR_MASK = pa.

(** What the walker relies on: frames are handed out once, zeroed, and memory
    is memory.  [fp_room n] says that [n] more allocations do not wrap the
    allocator's counter. *)
Class FrameLaws (P : Type) `{FrameProvider P} := {
  fp_owned : P → N → Prop;
  fp_room : nat → P → Prop;
  law_room p n m : n ≤ m → fp_room m p → fp_room n p;
  law_page p pa : fp_owned p pa → page_addr pa;
  law_alloc p n : fp_room (S n) p →
    let '(r, p') := alloc_zeroed p in
    fp_room n p' ∧
    (∀ q, fp_owned p q → fp_owned p' q ∧
       (∀ i, (i < ENTRIES_PER_TABLE)%N → read_entry p' q i = read_entry p q i) ∧
       (∀ k, (k < PAGE_SIZE)%N → peek p' (q + k) = peek p (q + k))) ∧
    match r with
    | Ok pa => ¬ fp_owned p pa ∧ fp_owned p' pa ∧
        (∀ i, (i < ENTRIES_PER_TABLE)%N → read_entry p' pa i = 0%N)
    | Err _ => True
    end;
  law_write p pa i v : fp_owned p pa → (i < ENTRIES_PER_TABLE)%N → fits 64 v →
    (∀ n, fp_room n p → fp_room n (write_entry pa i v p)) ∧
    ∀ q, fp_owned p q → fp_owned (write_entry pa i v p) q ∧
      (∀ j, (j < ENTRIES_PER_TABLE)%N → read_entry (write_entry pa i v p) q j =
         if decide (q = pa ∧ j = i) then v else read_entry p q j) ∧
      (q ≠ pa → ∀ k, (k < PAGE_SIZE)%N → peek (write_entry pa i v p) (q + k) = peek p (q + k));
  law_copy p pa bs : fp_owned p pa → (blen bs ≤ PAGE_SIZE)%N →
    (∀ n, fp_room n p → fp_room n (copy_bytes pa bs p)) ∧
    (∀ k b, bs !! k = Some b → peek (copy_bytes pa bs p) (pa + N.of_nat k) = b) ∧
    ∀ q, fp_owned p q → fp_owned (copy_bytes pa bs p) q ∧
      (q ≠ pa → (∀ j, (j < ENTRIES_PER_TABLE)%N →
         read_entry (copy_bytes pa bs p) q j = read_entry p q j) ∧
        ∀ k, (k < PAGE_SIZE)%N → peek (copy_bytes pa bs p) (q + k) = peek p (q + k))
}.

(** ** The walker *)
Definition entry_is_present (entry : N) : bool := negb (N.land entry 7 =? 0)%N.

(** [[PT, PD, PDPT, PML4]]. *)
Definition ept_indices (gpa : N) : list N :=
  [N.land (N.shiftr gpa 12) 0x1FF; N.land (N.shiftr gpa 21) 0x1FF;
   N.land (N.shiftr gpa 30) 0x1FF; N.land (N.shiftr gpa 39) 0x1FF].
Definition idx (gpa : N) (level : nat) : N := default 0%N (ept_indices gpa !! level).

(** The levels of the loop [(1..=3).rev()]. *)
Definition levels : list nat := [3; 2; 1].

Section ept.
Context {P : Type} `{FrameProvider P}.
Abbreviation M := (st P HyperError).

(** An EPT is its root. *)
Record Ept := mkEpt { pml4 : N }.

Definition ept_new : M Ept := pa ← alloc_zeroed; mret (mkEpt pa).

Definition eptp (e : Ept) : N := N.lor (N.lor (pml4 e) (N.shiftl 3 3)) 6.

(** One turn of the loop of [map_4k]: the next table, allocated if absent. *)
Definition next_table (table i : N) : M N :=
  p ← get_st;
  let entry := read_entry p table i in
  if entry_is_present entry then mret (N.land entry ADDR_MASK)
  else
    new_table ← alloc_zeroed;
    _ ← modify (write_entry table i (N.lor new_table NON_LEAF_RWX));
    mret new_table.

Fixpoint walk_alloc (gpa : N) (ls : list nat) (table : N) : M N :=
  match ls with
  | [] => mret table
  | level :: ls' => t ← next_table table (idx gpa level); walk_alloc gpa ls' t
  end.

Definition map_4k (e : Ept) (gpa hpa flags : N) : M unit :=
  _ ← bail_if (negb (N.land gpa 0xFFF =? 0)%N || negb (N.land hpa 0xFFF =? 0)%N)
        (Hardware "ept::map_4k: misaligned GPA or HPA");
  _ ← bail_if (negb (EptFlags.intersects flags
                       (N.lor (N.lor EptFlags.READ EptFlags.WRITE) EptFlags.EXEC)))
        (Hardware "ept::map_4k: leaf must grant some access");
  table ← walk_alloc gpa levels (pml4 e);
  let leaf := N.lor (N.land hpa ADDR_MASK) flags in
  modify (write_entry table (idx gpa 0) leaf).

(** The loop of [translate]. *)
Fixpoint walk (p : P) (gpa : N) (ls : list nat) (table : N) : HyperResult N :=
  match ls with
  | [] => Ok table
  | level :: ls' =>
      let entry := read_entry p table (idx gpa level) in
      if negb (entry_is_present entry)
      then Err (Hardware "ept::translate: walk hit absent non-leaf")
      else walk p gpa ls' (N.land entry ADDR_MASK)
  end.

Definition translate (e : Ept) (p : P) (gpa : N) : HyperResult N :=
  table ← walk p gpa levels (pml4 e);
  let leaf := read_entry p table (idx gpa 0) in
  if (N.land leaf 7 =? 0)%N then Err (Hardware "ept::translate: leaf absent")
  else Ok (N.lor (N.land leaf ADDR_MASK) (N.land gpa 0xFFF)).
End ept.

(** ** [KernelFrames]: the bump pool

    The pool starts at the address of [FRAME_POOL], chosen by the linker;
    memory is its bytes, zero from the start ([.bss]). *)
Definition POOL_PAGES : N := 4096.

Module KernelFrames.
Record t := mk {
  pool_base : N;
  frame_next : N;           (** [FRAME_NEXT], usize *)
  memory : gmap N byte      (** bytes written, by address; the others are zero *)
}.

Definition byte_at (m : gmap N byte) (a : N) : byte := default x00 (m !! a).

(** Writing bytes at consecutive addresses. *)
Fixpoint store (a : N) (bs : bytes) (m : gmap N byte) : gmap N byte :=
  match bs with
  | [] => m
  | b :: bs' => store (a + 1) bs' (<[a := b]> m)
  end.

(** [u64] to and from its eight little-endian bytes. *)
Definition byte_of_N (n : N) : byte := default x00 (Byte.of_N (N.land n 0xFF)).
Fixpoint le_bytes (k : nat) (v : N) : bytes :=
  match k with
  | O => []
  | S k' => byte_of_N v :: le_bytes k' (N.shiftr v 8)
  end.
Fixpoint load (k : nat) (a : N) (m : gmap N byte) : bytes :=
  match k with
  | O => []
  | S k' => byte_at m a :: load k' (a + 1) m
  end.

Definition alloc (s : t) : HyperResult N * t :=
  let off := frame_next s in
  let s' := mk (pool_base s) (wrapping_add 64 off PAGE_SIZE) (memory s) in
  if (POOL_PAGES * PAGE_SIZE <? off + PAGE_SIZE)%N then (Err (Exhausted "frame pool"), s')
  else (Ok (pool_base s + off)%N, s').

Definition read (s : t) (pa i : N) : N := le_word (load 8 (pa + 8 * i) (memory s)).
Definition write (pa i v : N) (s : t) : t :=
  mk (pool_base s) (frame_next s) (store (pa + 8 * i) (le_bytes 8 v) (memory s)).
Definition copy (pa : N) (bs : bytes) (s : t) : t :=
  mk (pool_base s) (frame_next s) (store pa bs (memory s)).

#[export] Instance frames : FrameProvider t := {|
  alloc_zeroed := alloc;
  read_entry := read;
  write_entry := write;
  copy_bytes := copy;
  peek s a := byte_at (memory s) a
|}.
End KernelFrames.
#[export] Existing Instance KernelFrames.frames.
