(* ===== verification/EptProofs.v ===== *)
(** * EptProofs: the page tables implement a finite map

    The bump pool satisfies the frame laws; the tables under a root form a
    tree of distinct frames; [map_4k] and [translate] implement insertion and
    lookup of a finite map from guest pages to host frames. *)
From S2P Require Import Prelude.
From S2P Require Import HyperErr.
From S2P Require Import Vault.
From S2P Require Import Crc.
From S2P Require Import Ept.
From Stdlib Require Import Strings.Byte.

(** ** Addresses and entries, bit by bit *)
Lemma addr_mask_bit i : N.testbit ADDR_MASK i = ((12 <=? i) && (i <? 52))%N.
Proof.
  assert (ADDR_MASK = N.shiftl (N.ones 40) 12) as -> by (by vm_compute).
  destruct (N.leb_spec 12 i).
  - rewrite andb_true_l, N.shiftl_spec_high by lia. destruct (N.ltb_spec i 52).
    + apply N.ones_spec_low. lia.
    + apply N.ones_spec_high. lia.
  - by apply N.shiftl_spec_low.
Qed.

Lemma low_mask_bit k i : N.testbit (N.ones k) i = (i <? k)%N.
Proof.
  destruct (N.ltb_spec i k); [by apply N.ones_spec_low|by apply N.ones_spec_high].
Qed.

Lemma page_addr_bits pa :
  page_addr pa ↔ ∀ i, N.testbit pa i = true → (12 ≤ i < 52)%N.
Proof.
  unfold page_addr. split.
  - intros E i Hi. rewrite <-E, N.land_spec, addr_mask_bit in Hi.
    apply andb_true_iff in Hi as [_ [?%N.leb_le ?%N.ltb_lt]%andb_true_iff]. done.
  - intros Hb. apply N.bits_inj. intros i. rewrite N.land_spec, addr_mask_bit.
    destruct (N.testbit pa i) eqn:E; [|done]. specialize (Hb i E).
    by rewrite (proj2 (N.leb_le _ _)), (proj2 (N.ltb_lt _ _)) by lia.
Qed.

Lemma page_addr_spec pa : page_addr pa ↔ (pa mod PAGE_SIZE = 0 ∧ pa < 2 ^ 52)%N.
Proof.
  rewrite page_addr_bits. unfold PAGE_SIZE. change 4096%N with (2 ^ 12)%N.
  rewrite <-N.land_ones. split.
  - intros Hb. split.
    + apply N.bits_inj. intros i. rewrite N.land_spec, N.bits_0, low_mask_bit.
      destruct (N.ltb_spec i 12); [|by rewrite andb_false_r].
      destruct (N.testbit pa i) eqn:E; [specialize (Hb i E); lia|done].
    + apply (fits_testbit 52). intros i Hi. destruct (N.testbit pa i) eqn:E; [|done].
      specialize (Hb i E). lia.
  - intros [Hm Hlt] i Hi. split.
    + destruct (N.lt_ge_cases i 12); [|done].
      apply (f_equal (λ n, N.testbit n i)) in Hm.
      rewrite N.land_spec, N.bits_0, low_mask_bit, Hi, (proj2 (N.ltb_lt _ _)) in Hm by lia. done.
    + destruct (N.lt_ge_cases i 52) as [|Hge]; [done|].
      by rewrite (proj1 (fits_testbit 52 pa) Hlt i Hge) in Hi.
Qed.

Lemma page_addr_land x : page_addr (N.land x ADDR_MASK).
Proof. unfold page_addr. by rewrite <-N.land_assoc, N.land_diag. Qed.

Lemma page_addr_low pa x : page_addr pa → (x < PAGE_SIZE)%N → N.land pa x = 0%N.
Proof.
  intros Hp Hx. apply N.bits_inj. intros i. rewrite N.land_spec, N.bits_0.
  destruct (N.testbit pa i) eqn:E; [|done]. apply page_addr_bits in E; [|done].
  simpl. apply (proj1 (fits_testbit 12 x) Hx). lia.
Qed.

(** An entry made of a frame address and low bits gives both back. *)
Lemma entry_addr pa x : page_addr pa → (x < PAGE_SIZE)%N → N.land (N.lor pa x) ADDR_MASK = pa.
Proof.
  intros Hp Hx. rewrite N.land_lor_distr_l, Hp.
  assert (N.land x ADDR_MASK = 0%N) as ->; [|apply N.lor_0_r].
  apply N.bits_inj. intros i. rewrite N.land_spec, N.bits_0, addr_mask_bit.
  destruct (N.leb_spec 12 i); [|by rewrite andb_false_r].
  by rewrite (proj1 (fits_testbit 12 x) Hx i).
Qed.
Lemma entry_low pa x m : page_addr pa → (m < PAGE_SIZE)%N → N.land (N.lor pa x) m = N.land x m.
Proof. intros Hp Hm. by rewrite N.land_lor_distr_l, page_addr_low, N.lor_0_l. Qed.

Lemma frame_offset pa x : page_addr pa → (x < PAGE_SIZE)%N → N.lor pa x = (pa + x)%N.
Proof.
  intros Hp Hx. rewrite <-N.lxor_lor by by apply page_addr_low. rewrite N.add_nocarry_lxor; [done|].
  by apply page_addr_low.
Qed.

Lemma index_bound x : (N.land x 0x1FF < ENTRIES_PER_TABLE)%N.
Proof.
  change 0x1FF%N with (N.ones 9). rewrite N.land_ones. apply N.mod_lt. done.
Qed.
Lemma idx_bound gpa level : (idx gpa level < ENTRIES_PER_TABLE)%N.
Proof.
  unfold idx, ept_indices. do 4 (destruct level as [|level]; [apply index_bound|]).
  by vm_compute.
Qed.

(** ** The bump pool *)
Module PoolLaws.
Import KernelFrames.

Lemma store_lookup a bs m x :
  store a bs m !! x =
  if decide (a ≤ x < a + blen bs)%N then bs !! N.to_nat (x - a) else m !! x.
Proof.
  revert a m. induction bs as [|b bs IH]; intros a m; simpl.
  - case_decide; [|done]. unfold blen in *. simpl in *. lia.
  - rewrite IH. unfold blen. cbn [length]. destruct (decide (x = a)) as [->|Hne].
    + rewrite decide_False by lia. rewrite decide_True by lia.
      rewrite lookup_insert_eq. by rewrite N.sub_diag.
    + destruct (decide (a + 1 ≤ x < a + 1 + N.of_nat (length bs))%N).
      * rewrite decide_True by lia. replace (N.to_nat (x - a)) with (S (N.to_nat (x - (a + 1)))) by lia.
        done.
      * rewrite decide_False by lia. by rewrite lookup_insert_ne by done.
Qed.

Lemma load_ext k a m1 m2 :
  (∀ x, (a ≤ x < a + N.of_nat k)%N → m1 !! x = m2 !! x) → load k a m1 = load k a m2.
Proof.
  revert a. induction k as [|k IH]; intros a Hm; [done|]. cbn [load]. f_equal.
  - unfold byte_at. by rewrite Hm by lia.
  - apply IH. intros. apply Hm. lia.
Qed.

Lemma load_lookup k a m i : (i < k)%nat → load k a m !! i = Some (byte_at m (a + N.of_nat i)).
Proof.
  revert a i. induction k as [|k IH]; intros a i Hi; [lia|]. destruct i as [|i]; cbn [load].
  - simpl. by rewrite N.add_0_r.
  - simpl. rewrite IH by lia. do 2 f_equal. lia.
Qed.
Lemma load_length k a m : length (load k a m) = k.
Proof. revert a. induction k as [|k IH]; intros a; simpl; [done|]. by rewrite IH. Qed.

Lemma load_store k a bs m : length bs = k → load k a (store a bs m) = bs.
Proof.
  intros <-. apply list_eq. intros i. destruct (decide (i < length bs)%nat) as [Hi|Hi].
  - rewrite load_lookup by done. unfold byte_at. rewrite store_lookup, decide_True by (unfold blen; lia).
    replace (N.to_nat (a + N.of_nat i - a)) with i by lia.
    apply lookup_lt_is_Some_2 in Hi as [b Hb]. by rewrite Hb.
  - by rewrite !lookup_ge_None_2 by (rewrite ?load_length; lia).
Qed.

Lemma le_bytes_length k v : length (le_bytes k v) = k.
Proof. revert v. induction k as [|k IH]; intros v; simpl; [done|]. by rewrite IH. Qed.

Lemma byte_of_N_spec n : Byte.to_N (byte_of_N n) = N.land n 0xFF.
Proof.
  unfold byte_of_N. destruct (Byte.of_N (N.land n 0xFF)) as [b|] eqn:E; simpl.
  - by apply Byte.to_of_N in E.
  - exfalso. apply Byte.of_N_None_iff in E. change (N.land n 0xFF) with (N.land n (N.ones 8)) in E.
    rewrite N.land_ones in E. change (2 ^ 8)%N with 256%N in E. pose proof (N.mod_lt n 256). lia.
Qed.

Lemma le_word_bytes k v : fits (8 * N.of_nat k) v → le_word (le_bytes k v) = v.
Proof.
  revert v. induction k as [|k IH]; intros v Hv.
  - unfold fits in Hv. simpl in *. change (2 ^ (8 * 0))%N with 1%N in Hv. lia.
  - cbn [le_bytes le_word]. rewrite IH, byte_of_N_spec.
    + apply N.bits_inj. intros i. rewrite N.lxor_spec, N.land_spec.
      change 0xFF%N with (N.ones 8). rewrite low_mask_bit. destruct (N.ltb_spec i 8).
      * rewrite N.shiftl_spec_low by done. by rewrite xorb_false_r, andb_true_r.
      * rewrite N.shiftl_spec_high, N.shiftr_spec by lia. rewrite andb_false_r, xorb_false_l.
        f_equal. lia.
    + apply (fits_shiftr _ _ 8) in Hv. eapply fits_mono; [|exact Hv]. lia.
Qed.

Lemma le_word_zero k a m : (∀ x, (a ≤ x < a + N.of_nat k)%N → m !! x = None) → le_word (load k a m) = 0%N.
Proof.
  revert a. induction k as [|k IH]; intros a Hm; [done|]. cbn [load le_word].
  rewrite IH by (intros; apply Hm; lia). unfold byte_at. rewrite Hm by lia. done.
Qed.

(** The pool's own invariant. *)
Definition pool_ok (s : t) : Prop :=
  page_addr (pool_base s) ∧ (pool_base s + POOL_PAGES * PAGE_SIZE ≤ 2 ^ 52)%N ∧
  (frame_next s mod PAGE_SIZE = 0)%N ∧
  ∀ a, (pool_base s + frame_next s ≤ a)%N → memory s !! a = None.
Definition owned (s : t) (pa : N) : Prop :=
  page_addr pa ∧ (pool_base s ≤ pa)%N ∧ (pa + PAGE_SIZE ≤ pool_base s + frame_next s)%N.
Definition room (n : nat) (s : t) : Prop :=
  pool_ok s ∧ (frame_next s + N.of_nat n * PAGE_SIZE < 2 ^ 64)%N.

Lemma pages_apart pa q x y :
  page_addr pa → page_addr q → pa ≠ q → (x < PAGE_SIZE)%N → (y < PAGE_SIZE)%N → (pa + x ≠ q + y)%N.
Proof.
  intros [Hp _]%page_addr_spec [Hq _]%page_addr_spec Hne Hx Hy. unfold PAGE_SIZE in *.
  pose proof (N.div_mod pa 4096 ltac:(done)). pose proof (N.div_mod q 4096 ltac:(done)).
  intros E. apply Hne. lia.
Qed.

Lemma room_store n a bs s :
  room n s → (a + blen bs ≤ pool_base s + frame_next s)%N →
  room n (mk (pool_base s) (frame_next s) (store a bs (memory s))).
Proof.
  intros [(?&?&?&Hz) ?] Ha. split; [|done]. split; [done|]. split; [done|]. split; [done|].
  simpl. intros x Hx. rewrite store_lookup, decide_False by lia. by apply Hz.
Qed.

Lemma next_aligned s : pool_ok s → ∃ k, frame_next s = (k * PAGE_SIZE)%N.
Proof.
  intros (_&_&Hm&_). exists (frame_next s / PAGE_SIZE)%N. unfold PAGE_SIZE in *.
  pose proof (N.div_mod (frame_next s) 4096 ltac:(done)). lia.
Qed.

#[export] Instance laws : FrameLaws t.
Proof.
  refine {| fp_owned := owned; fp_room := room |}.
  - intros s n m Hnm [? ?]. split; [done|]. unfold PAGE_SIZE in *. lia.
  - intros s pa [? _]. done.
  - intros s n [Hok Hr]. unfold alloc_zeroed, frames, alloc. unfold PAGE_SIZE, POOL_PAGES in *.
    assert (wrapping_add 64 (frame_next s) 4096 = frame_next s + 4096)%N as Hw.
    { unfold wrapping_add. apply N.mod_small. lia. }
    pose proof Hok as (Hb&Hlim&Hm&Hz). set (s' := mk _ _ _).
    change (frame_next s' = frame_next s + 4096)%N in Hw.
    assert (pool_base s' = pool_base s) as Hbase by done. assert (memory s' = memory s) as Hmem by done.
    assert (room n s') as Hroom.
    { split; [|rewrite Hw; unfold PAGE_SIZE; lia]. split; [done|]. split; [done|].
      rewrite Hw. split; [|intros; rewrite Hmem; apply Hz; lia]. unfold PAGE_SIZE in *.
      rewrite <-N.Div0.add_mod_idemp_l, Hm. done. }
    assert (∀ q, owned s q → owned s' q) as Hown.
    { intros q (?&?&?). split; [done|]. rewrite Hw, Hbase. split; [done|]. unfold PAGE_SIZE in *. lia. }
    destruct (N.ltb_spec (4096 * 4096) (frame_next s + 4096)); (split; [done|split; [by auto|]]); [done|].
    assert (page_addr (pool_base s + frame_next s)) as Hpage.
    { apply page_addr_spec in Hb as [Hb1 Hb2]. apply page_addr_spec. unfold PAGE_SIZE, POOL_PAGES in *. split; [|lia].
      rewrite <-N.Div0.add_mod_idemp_l, Hb1. by rewrite N.add_0_l. }
    split; [|split].
    + intros (_&_&Hle). unfold PAGE_SIZE in *. lia.
    + split; [done|]. rewrite Hw, Hbase. unfold PAGE_SIZE. lia.
    + intros i Hi. unfold read_entry, frames, read. apply le_word_zero. intros x Hx. apply Hz. lia.
  - intros s pa i v (Hpa&Hlo&Hhi) Hi Hv. unfold write_entry, frames, write.
    unfold PAGE_SIZE, ENTRIES_PER_TABLE in *.
    assert (blen (le_bytes 8 v) = 8%N) as Hl by (unfold blen; by rewrite le_bytes_length).
    split; [intros n Hr; apply room_store; [done|lia]|].
    intros q Hq. split; [done|]. split.
    + intros j Hj. unfold read_entry, frames, read. cbn [memory]. case_decide as Hd.
      * destruct Hd as [-> ->]. rewrite load_store by apply le_bytes_length. by apply le_word_bytes.
      * f_equal. apply load_ext. intros x Hx. rewrite store_lookup, decide_False; [done|].
        intros Hx2. destruct (decide (q = pa)) as [->|Hne]; [apply Hd; split; [done|lia]|].
        destruct Hq as (Hqp&_&_). eapply (pages_apart pa q (x - pa) (x - q)); unfold PAGE_SIZE; [done..|lia|lia|lia].
    + intros Hne k Hk. unfold peek, frames, byte_at. cbn [memory]. rewrite store_lookup, decide_False; [done|].
      intros Hx. destruct Hq as (Hqp&_&_).
      eapply (pages_apart pa q (q + k - pa) k); unfold PAGE_SIZE; [done..|lia|lia|lia].
  - intros s pa bs (Hpa&Hlo&Hhi) Hl. unfold copy_bytes, frames, copy. unfold PAGE_SIZE, ENTRIES_PER_TABLE in *.
    split; [intros n Hr; apply room_store; [done|lia]|]. split.
    + intros k b Hb. unfold peek, frames, byte_at. cbn [memory]. assert (k < length bs)%nat by by eapply lookup_lt_Some.
      rewrite store_lookup, decide_True by (unfold blen; lia).
      replace (N.to_nat (pa + N.of_nat k - pa)) with k by lia. by rewrite Hb.
    + intros q Hq. split; [done|]. intros Hne. destruct Hq as (Hqp&_&_). split.
      * intros j Hj. unfold read_entry, frames, read. cbn [memory]. f_equal. apply load_ext. intros x Hx.
        rewrite store_lookup, decide_False; [done|]. intros Hx2.
        eapply (pages_apart pa q (x - pa) (x - q)); unfold PAGE_SIZE; [done..|lia|lia|lia].
      * intros k Hk. unfold peek, frames, byte_at. cbn [memory]. rewrite store_lookup, decide_False; [done|].
        intros Hx. eapply (pages_apart pa q (q + k - pa) k); unfold PAGE_SIZE; [done..|lia|lia|lia].
Defined.
End PoolLaws.
#[export] Existing Instance PoolLaws.laws.

(** ** The tree of tables *)
Section tree.
Context {P : Type} `{FrameLaws P}.
Implicit Types (p : P) (root t : N) (path : list N).

Definition next (p : P) (t i : N) : option N :=
  let e := read_entry p t i in
  if entry_is_present e then Some (N.land e ADDR_MASK) else None.

(** The table a path of indices leads to. *)
Definition node p root path : option N := foldl (λ o i, o ≫= λ t, next p t i) (Some root) path.
Definition path_ok path : Prop := length path ≤ 3 ∧ Forall (λ i, (i < ENTRIES_PER_TABLE)%N) path.

Lemma node_snoc p root path i : node p root (path ++ [i]) = node p root path ≫= λ t, next p t i.
Proof. unfold node. by rewrite foldl_app. Qed.

Lemma path_ok_snoc path i : path_ok (path ++ [i]) ↔ path_ok path ∧ length path ≤ 2 ∧ (i < ENTRIES_PER_TABLE)%N.
Proof.
  unfold path_ok. rewrite length_app, Forall_app, Forall_singleton. simpl. split.
  - intros (?&?&?). split; [split; [lia|done]|]. split; [lia|done].
  - intros ((?&?)&?&?). split; [lia|done].
Qed.

(** The tables under a root are owned, and no table is on two paths. *)
Definition tree_ok p root : Prop :=
  (∀ path t, path_ok path → node p root path = Some t → fp_owned p t) ∧
  (∀ path1 path2 t, path_ok path1 → path_ok path2 →
     node p root path1 = Some t → node p root path2 = Some t → path1 = path2).

Definition in_tree p root (t : N) : Prop := ∃ path, path_ok path ∧ node p root path = Some t.

(** The leaf entry at the end of a path of three and a last index. *)
Definition leaf p root path (i : N) : option N :=
  t ← node p root path;
  let e := read_entry p t i in
  if (N.land e 7 =? 0)%N then None else Some e.

(** What growing a tree keeps: the tables, the leaves and all other frames. *)
Record grows (root : N) (p p' : P) : Prop := {
  grows_owned q : fp_owned p q → fp_owned p' q;
  grows_leaf path i : length path = 3 → path_ok path → (i < ENTRIES_PER_TABLE)%N →
    leaf p' root path i = leaf p root path i;
  grows_new t : in_tree p' root t → in_tree p root t ∨ ¬ fp_owned p t;
  grows_frame q : fp_owned p q → ¬ in_tree p root q →
    (∀ i, (i < ENTRIES_PER_TABLE)%N → read_entry p' q i = read_entry p q i) ∧
    ∀ k, (k < PAGE_SIZE)%N → peek p' (q + k) = peek p (q + k)
}.

Lemma grows_refl root p : grows root p p.
Proof. split; auto. Qed.

(** Reading the same entries gives the same tree. *)
Lemma node_same p p' root path :
  (∀ q, fp_owned p q → ∀ i, (i < ENTRIES_PER_TABLE)%N → read_entry p' q i = read_entry p q i) →
  tree_ok p root → path_ok path → node p' root path = node p root path.
Proof.
  intros Hr [Hown _]. induction path as [|i path IH] using rev_ind; [done|].
  intros [Hp [Hl Hi]]%path_ok_snoc. rewrite !node_snoc, IH by done.
  destruct (node p root path) as [t|] eqn:E; simpl; [|done].
  unfold next. rewrite Hr; [done| |done]. eapply Hown; [|exact E]. split; [lia|apply Hp].
Qed.

(** Adding a fresh empty table under an absent entry. *)
Section add_table.
Context (p p1 : P) (root t i new : N) (pre : list N).
Context (Htree : tree_ok p root) (Hpre : path_ok pre) (Hlen : length pre ≤ 2)
  (Hi : (i < ENTRIES_PER_TABLE)%N) (Ht : node p root pre = Some t) (Habs : next p t i = None).
(** [p1] is [p] with [new] allocated. *)
Context (Hnew : ¬ fp_owned p new) (Hown : fp_owned p1 new)
  (Hzero : ∀ j, (j < ENTRIES_PER_TABLE)%N → read_entry p1 new j = 0%N)
  (Hkeep : ∀ q, fp_owned p q → fp_owned p1 q ∧
     (∀ j, (j < ENTRIES_PER_TABLE)%N → read_entry p1 q j = read_entry p q j) ∧
     ∀ k, (k < PAGE_SIZE)%N → peek p1 (q + k) = peek p (q + k)).
Let p2 : P := write_entry t i (N.lor new NON_LEAF_RWX) p1.

Lemma add_page : page_addr new.
Proof using All. by eapply law_page. Qed.
Lemma add_t_owned : fp_owned p t.
Proof using All. by eapply Htree. Qed.

Lemma add_write q : fp_owned p1 q →
  fp_owned p2 q ∧
  (∀ j, (j < ENTRIES_PER_TABLE)%N → read_entry p2 q j =
     if decide (q = t ∧ j = i) then N.lor new NON_LEAF_RWX else read_entry p1 q j) ∧
  (q ≠ t → ∀ k, (k < PAGE_SIZE)%N → peek p2 (q + k) = peek p1 (q + k)).
Proof using All.
  intros Hq. apply law_write; [|done| |done].
  - apply Hkeep, add_t_owned.
  - pose proof add_page as [_ Hb]%page_addr_spec. rewrite frame_offset; [|apply add_page|done].
    unfold fits. change NON_LEAF_RWX with 7%N.
    change (2 ^ 52)%N with 4503599627370496%N in Hb. change (2 ^ 64)%N with 18446744073709551616%N. lia.
Qed.

Lemma add_read q j : fp_owned p q → (j < ENTRIES_PER_TABLE)%N →
  read_entry p2 q j = if decide (q = t ∧ j = i) then N.lor new NON_LEAF_RWX else read_entry p q j.
Proof using All.
  intros Hq Hj. destruct (Hkeep q Hq) as (Hq1&Hr&_). destruct (add_write q Hq1) as (_&Hw&_).
  rewrite Hw by done. repeat case_decide; first [done | by apply Hr | tauto].
Qed.

Lemma add_next_new : next p2 t i = Some new.
Proof using All.
  unfold next. rewrite add_read by (apply add_t_owned || done). rewrite decide_True by done.
  unfold entry_is_present, NON_LEAF_RWX. rewrite entry_low by (apply add_page || done).
  by rewrite entry_addr by (apply add_page || done).
Qed.

Lemma add_next_same q j : fp_owned p q → (j < ENTRIES_PER_TABLE)%N → ¬ (q = t ∧ j = i) →
  next p2 q j = next p q j.
Proof using All.
  intros Hq Hj Hne. unfold next. rewrite add_read by done. by rewrite decide_False.
Qed.

Lemma add_next_empty j : (j < ENTRIES_PER_TABLE)%N → next p2 new j = None.
Proof using All.
  intros Hj. unfold next. destruct (add_write new Hown) as (_&Hw&_). rewrite Hw by done.
  rewrite decide_False; [by rewrite Hzero|]. intros [Heq _]. apply Hnew. rewrite Heq. apply add_t_owned.
Qed.

Lemma add_old path u : path_ok path → node p root path = Some u → node p2 root path = Some u.
Proof using All.
  revert u. induction path as [|j path IH] using rev_ind; intros u; [done|].
  intros [Hp [Hl Hj]]%path_ok_snoc. rewrite !node_snoc.
  destruct (node p root path) as [q|] eqn:E; simpl; [|done].
  intros Hn. rewrite (IH q) by done. simpl. rewrite <-Hn. apply add_next_same; [by eapply Htree|done|].
  intros [-> ->]. by rewrite Habs in Hn.
Qed.

Lemma add_new path u : path_ok path → node p2 root path = Some u →
  node p root path = Some u ∨ (path = pre ++ [i] ∧ u = new).
Proof using All.
  revert u. induction path as [|j path IH] using rev_ind; intros u; [by left|].
  intros [Hp [Hl Hj]]%path_ok_snoc. rewrite !node_snoc.
  destruct (node p2 root path) as [q|] eqn:E; simpl; [|done]. intros Hn.
  destruct (IH q Hp eq_refl) as [Hq|[-> ->]].
  - assert (fp_owned p q) as Hqo by by eapply Htree.
    destruct (decide (q = t ∧ j = i)) as [[-> ->]|Hne].
    + right. rewrite add_next_new in Hn. injection Hn as <-. split; [|done]. f_equal.
      by eapply (proj2 Htree).
    + left. rewrite Hq. simpl. by rewrite <-(add_next_same q j).
  - exfalso. by rewrite add_next_empty in Hn.
Qed.

Lemma add_at : node p2 root (pre ++ [i]) = Some new.
Proof using All.
  rewrite node_snoc, (add_old pre t) by done. apply add_next_new.
Qed.

Lemma add_tree : tree_ok p2 root.
Proof using All.
  split.
  - intros path u Hp [Hu|[-> ->]]%add_new; [| |done].
    + apply add_write, Hkeep. by eapply Htree.
    + by apply add_write.
  - intros path1 path2 u Hp1 Hp2 Hu1 Hu2.
    destruct (add_new path1 u Hp1 Hu1) as [Ho1|[E1 Hn1]], (add_new path2 u Hp2 Hu2) as [Ho2|[E2 Hn2]].
    + by eapply (proj2 Htree).
    + rewrite Hn2 in Ho1. exfalso. apply Hnew. exact (proj1 Htree _ _ Hp1 Ho1).
    + rewrite Hn1 in Ho2. exfalso. apply Hnew. exact (proj1 Htree _ _ Hp2 Ho2).
    + congruence.
Qed.

Lemma add_leaf path j : length path = 3 → path_ok path → (j < ENTRIES_PER_TABLE)%N →
  leaf p2 root path j = leaf p root path j.
Proof using All.
  intros H3 Hp Hj. unfold leaf. destruct (node p2 root path) as [u|] eqn:E; simpl.
  - destruct (add_new path u Hp E) as [Hu|[-> ->]].
    + rewrite Hu. simpl. rewrite add_read; [|by eapply Htree|done]. rewrite decide_False; [done|].
      intros [Heq _]. rewrite Heq in Hu. assert (path = pre) by by eapply (proj2 Htree). subst path. lia.
    + destruct (add_write new Hown) as (_&Hw&_). rewrite Hw by done.
      rewrite decide_False by (intros [Heq _]; apply Hnew; rewrite Heq; apply add_t_owned). rewrite Hzero by done.
      destruct (node p root (pre ++ [i])) as [u|] eqn:Eu; [|done].
      rewrite node_snoc, Ht in Eu. simpl in Eu. by rewrite Habs in Eu.
  - destruct (node p root path) as [u|] eqn:Eu; [|done]. apply add_old in Eu; [|done]. congruence.
Qed.

Lemma add_grows : grows root p p2.
Proof using All.
  split.
  - intros q Hq. by apply add_write, Hkeep.
  - intros. by apply add_leaf.
  - intros u (path&Hp&[Hu|[-> ->]]%add_new); [left; by exists path|by right|done].
  - intros q Hq Hnt. assert (q ≠ t) as Hqt by (intros ->; apply Hnt; by exists pre).
    destruct (Hkeep q Hq) as (Hq1&Hr&Hk). destruct (add_write q Hq1) as (_&_&Hw). split.
    + intros j Hj. rewrite add_read by done. rewrite decide_False; [done|]. by intros [? _].
    + intros k Hk'. rewrite Hw by done. by apply Hk.
Qed.
End add_table.

Lemma grows_trans root p1 p2 p3 :
  (∀ q, fp_owned p1 q → ¬ in_tree p1 root q → ¬ in_tree p2 root q) →
  grows root p1 p2 → grows root p2 p3 → grows root p1 p3.
Proof.
  intros Hout G12 G23. split.
  - intros q Hq. by apply G23, G12.
  - intros. rewrite (grows_leaf _ _ _ G23) by done. by apply G12.
  - intros t [Ht|Hn]%(grows_new _ _ _ G23); [by apply G12|]. right. intros Hq. by apply Hn, G12.
  - intros q Hq Hn. destruct (grows_frame _ _ _ G12 q Hq Hn) as [Hr1 Hk1].
    destruct (grows_frame _ _ _ G23 q) as [Hr2 Hk2]; [by apply G12|by apply Hout|]. split.
    + intros. by rewrite Hr2, Hr1.
    + intros. by rewrite Hk2, Hk1.
Qed.

(** Frames that were owned outside the tree stay outside. *)
Lemma grows_outside root p p' q : grows root p p' → fp_owned p q → ¬ in_tree p root q → ¬ in_tree p' root q.
Proof. intros G Hq Hn [?|?]%(grows_new _ _ _ G); done. Qed.

Definition step_ok (n : nat) p root (rp : HyperResult N * P) path : Prop :=
  let '(r, p') := rp in
  tree_ok p' root ∧ fp_room n p' ∧ grows root p p' ∧
  match r with Ok t => node p' root path = Some t | Err _ => True end.

(** Allocation alone does not touch the tree. *)
Lemma alloc_grows p p' root r n :
  tree_ok p root → fp_room (S n) p → alloc_zeroed p = (r, p') →
  tree_ok p' root ∧ fp_room n p' ∧ grows root p p' ∧
  ∀ path, path_ok path → node p' root path = node p root path.
Proof.
  intros Ht Hr E. pose proof (law_alloc p n Hr) as Ha. rewrite E in Ha. destruct Ha as (Hroom&Hk&_).
  assert (∀ path, path_ok path → node p' root path = node p root path) as Hnode.
  { intros path. apply node_same; [|done]. intros q Hq. by apply Hk. }
  split; [split|split; [done|split; [split|done]]].
  - intros path t Hp. rewrite Hnode by done. intros. apply Hk. by eapply Ht.
  - intros path1 path2 t Hp1 Hp2. rewrite !Hnode by done. by apply Ht.
  - intros q Hq. by apply Hk.
  - intros path i _ Hp Hi. unfold leaf. rewrite Hnode by done.
    destruct (node p root path) as [t|] eqn:Et; simpl; [|done].
    destruct (Hk t) as (_&->&_); [by eapply Ht|done|done].
  - intros t (path&Hp&Hn). left. exists path. by rewrite <-Hnode.
  - intros q Hq _. by destruct (Hk q Hq) as (_&?&?).
Qed.

Lemma next_table_spec p root pre t i n :
  tree_ok p root → path_ok (pre ++ [i]) → node p root pre = Some t → fp_room (S n) p →
  step_ok n p root (next_table t i p) (pre ++ [i]).
Proof.
  intros Htree Hp Ht Hr. pose proof Hp as [Hpre [Hlen Hi]]%path_ok_snoc.
  unfold next_table. st_unfold. destruct (entry_is_present (read_entry p t i)) eqn:Ee; simpl.
  - split; [done|]. split; [eapply law_room; [|exact Hr]; lia|]. split; [apply grows_refl|].
    rewrite node_snoc, Ht. simpl. unfold next. by rewrite Ee.
  - destruct (alloc_zeroed p) as [r p1] eqn:Ea. pose proof (law_alloc p n Hr) as Hl. rewrite Ea in Hl.
    destruct (alloc_grows _ _ _ _ _ Htree Hr Ea) as (Htree1&Hroom&G1&Hnode).
    destruct r as [new|e]; simpl; [|done]. destruct Hl as (_&Hk&Hnew&Hown&Hzero).
    assert (next p t i = None) as Habs by (unfold next; by rewrite Ee).
    split; [eapply (add_tree p p1 root t i new pre); done|]. split; [|split].
    + apply law_write; [apply Hk; by eapply Htree|done| |done].
      pose proof (law_page _ _ Hown) as Hpg. pose proof Hpg as [_ Hb]%page_addr_spec.
      rewrite frame_offset by done. unfold fits. change NON_LEAF_RWX with 7%N.
      change (2 ^ 52)%N with 4503599627370496%N in Hb. change (2 ^ 64)%N with 18446744073709551616%N. lia.
    + eapply (add_grows p p1 root t i new pre); done.
    + eapply (add_at p p1 root t i new pre); done.
Qed.

Lemma walk_alloc_spec gpa ls pre p root t n :
  tree_ok p root → path_ok (pre ++ (idx gpa <$> ls)) → node p root pre = Some t →
  fp_room (length ls + n) p →
  step_ok n p root (walk_alloc gpa ls t p) (pre ++ (idx gpa <$> ls)).
Proof.
  revert pre p t. induction ls as [|l ls IH]; intros pre p t Htree Hp Ht Hr.
  - simpl in *. rewrite app_nil_r. split; [done|]. split; [done|]. split; [apply grows_refl|done].
  - cbn [walk_alloc fmap list_fmap] in *. rewrite cons_middle, app_assoc in Hp |- *.
    assert (path_ok (pre ++ [idx gpa l])) as Hp1.
    { destruct Hp as [Hl Hf]. rewrite length_app in Hl. apply Forall_app in Hf as [Hf _].
      split; [lia|done]. }
    pose proof (next_table_spec p root pre t (idx gpa l) (length ls + n) Htree Hp1 Ht Hr) as Hs.
    unfold mbind, st_bind. destruct (next_table t (idx gpa l) p) as [[t1|e] p1].
    + destruct Hs as (Htree1&Hr1&G1&Hn1).
      specialize (IH _ p1 t1 Htree1 Hp Hn1 Hr1). destruct (walk_alloc gpa ls t1 p1) as [r p2].
      destruct IH as (?&?&G2&?). split; [done|]. split; [done|]. split; [|done].
      eapply grows_trans; [|done..]. intros q Hq Hn. by eapply grows_outside.
    + destruct Hs as (?&?&?&_). split; [done|]. split; [|done]. eapply law_room; [|done]. lia.
Qed.

(** ** Map and translate *)
Definition gpa_path (gpa : N) : list N := idx gpa <$> levels.

Lemma gpa_path_ok gpa : path_ok (gpa_path gpa).
Proof.
  split; [done|]. unfold gpa_path. apply Forall_fmap, Forall_forall. intros. apply idx_bound.
Qed.

Lemma walk_node p root gpa ls pre t :
  node p root pre = Some t →
  match walk p gpa ls t with
  | Ok u => node p root (pre ++ (idx gpa <$> ls)) = Some u
  | Err _ => node p root (pre ++ (idx gpa <$> ls)) = None
  end.
Proof.
  revert pre t. induction ls as [|l ls IH]; intros pre t Ht; cbn [walk fmap list_fmap].
  - by rewrite app_nil_r.
  - rewrite cons_middle, app_assoc. destruct (entry_is_present _) eqn:Ee; simpl.
    + apply IH. rewrite node_snoc, Ht. simpl. unfold next. by rewrite Ee.
    + assert (node p root (pre ++ [idx gpa l]) = None) as Hn.
      { rewrite node_snoc, Ht. simpl. unfold next. by rewrite Ee. }
      revert Hn. generalize (pre ++ [idx gpa l]). clear. intros q Hn.
      induction (idx gpa <$> ls) as [|i js IH] using rev_ind; [by rewrite app_nil_r|].
      by rewrite app_assoc, node_snoc, IH.
Qed.

Lemma translate_leaf e p gpa :
  match leaf p (pml4 e) (gpa_path gpa) (idx gpa 0) with
  | Some l => translate e p gpa = Ok (N.lor (N.land l ADDR_MASK) (N.land gpa 0xFFF))
  | None => is_ok (translate e p gpa) = false
  end.
Proof.
  unfold leaf, translate. pose proof (walk_node p (pml4 e) gpa levels [] (pml4 e) eq_refl) as Hw.
  rewrite app_nil_l in Hw. fold (gpa_path gpa) in Hw.
  destruct (walk p gpa levels (pml4 e)) as [t|err]; rewrite Hw; simpl; [|done].
  by destruct (N.land _ 7 =? 0)%N.
Qed.

(** Writing a leaf entry: the tables and all other leaves stay. *)
Lemma write_leaf p root path t i v :
  tree_ok p root → path_ok path → length path = 3 → node p root path = Some t →
  (i < ENTRIES_PER_TABLE)%N → fits 64 v →
  let p' := write_entry t i v p in
  tree_ok p' root ∧ (∀ pth, path_ok pth → node p' root pth = node p root pth) ∧
  (∀ pth j, path_ok pth → length pth = 3 → (j < ENTRIES_PER_TABLE)%N →
     leaf p' root pth j =
     if decide (pth = path ∧ j = i) then if (N.land v 7 =? 0)%N then None else Some v
     else leaf p root pth j).
Proof.
  intros Htree Hpath H3 Ht Hi Hv p'. assert (fp_owned p t) as Hto by by eapply Htree.
  destruct (law_write p t i v Hto Hi Hv) as [_ Hw].
  assert (∀ pth, path_ok pth → node p' root pth = node p root pth) as Hnode.
  { intros pth. induction pth as [|j pth IH] using rev_ind; [done|].
    intros [Hp [Hl Hj]]%path_ok_snoc. rewrite !node_snoc, IH by done.
    destruct (node p root pth) as [q|] eqn:Eq; simpl; [|done]. unfold next.
    assert (fp_owned p q) as Hqo by by eapply Htree.
    destruct (Hw q Hqo) as (_&Hr&_). rewrite Hr by done. rewrite decide_False; [done|].
    intros [-> _]. assert (pth = path) as -> by by eapply (proj2 Htree). lia. }
  split; [split|split; [done|]].
  - intros pth u Hp. rewrite Hnode by done. intros. apply Hw. by eapply Htree.
  - intros p1 p2 u Hp1 Hp2. rewrite !Hnode by done. by apply Htree.
  - intros pth j Hp Hl Hj. unfold leaf. rewrite Hnode by done.
    destruct (node p root pth) as [u|] eqn:Eu; simpl; cycle 1.
    { rewrite decide_False; [done|]. intros [-> _]. congruence. }
    assert (fp_owned p u) as Huo by by eapply Htree.
    destruct (Hw u Huo) as (_&Hr&_). change (read_entry p' u j) with (read_entry (write_entry t i v p) u j).
    rewrite Hr by done. destruct (decide (pth = path ∧ j = i)) as [[-> ->]|Hne].
    + simplify_eq. by rewrite decide_True by done.
    + rewrite decide_False; [done|]. intros [-> ->]. apply Hne. split; [|done].
      by eapply (proj2 Htree).
Qed.

(** What a request must satisfy for [PhysAddr] and [EptFlags]. *)
Definition request_ok (hpa flags : N) : Prop := fits 52 hpa ∧ (flags < 128)%N.

Definition accepted (gpa hpa flags : N) : bool :=
  (N.land gpa 0xFFF =? 0)%N && (N.land hpa 0xFFF =? 0)%N && negb (N.land flags 7 =? 0)%N.

Lemma aligned_page hpa : fits 52 hpa → N.land hpa 0xFFF = 0%N → page_addr hpa.
Proof.
  intros Hf Hz. apply page_addr_spec. split; [|done]. unfold PAGE_SIZE.
  change 0xFFF%N with (N.ones 12) in Hz. by rewrite N.land_ones in Hz.
Qed.

(** What a call does to the frames: [change] is the leaf it writes, if any. *)
Record mapped (root : N) (n : nat) (change : option (list N * N * N)) (p p' : P) : Prop := {
  mapped_tree : tree_ok p' root;
  mapped_room : fp_room n p';
  mapped_owned q : fp_owned p q → fp_owned p' q;
  mapped_outside q : fp_owned p q → ¬ in_tree p root q → ¬ in_tree p' root q ∧
    (∀ i, (i < ENTRIES_PER_TABLE)%N → read_entry p' q i = read_entry p q i) ∧
    ∀ k, (k < PAGE_SIZE)%N → peek p' (q + k) = peek p (q + k);
  mapped_new t : in_tree p' root t → in_tree p root t ∨ ¬ fp_owned p t;
  mapped_leaf pth j : path_ok pth → length pth = 3 → (j < ENTRIES_PER_TABLE)%N →
    leaf p' root pth j =
    match change with
    | Some (path, i, v) => if decide (pth = path ∧ j = i) then Some v else leaf p root pth j
    | None => leaf p root pth j
    end
}.

Lemma grows_mapped root n p p' :
  tree_ok p' root → fp_room n p' → grows root p p' → mapped root n None p p'.
Proof.
  intros Ht Hr G. split; [done|done|apply G| |apply G|].
  - intros q Hq Hn. split; [by eapply grows_outside|by apply G].
  - intros. by apply G.
Qed.

Lemma bind_pure {S F A B} (k : A → st S F B) (m : st S F A) a s :
  m s = (Ok a, s) → (m ≫= k) s = k a s.
Proof. intros E. unfold mbind, st_bind. by rewrite E. Qed.

(** [map_4k] on every branch: a refused call may have added empty tables, an
    accepted one changes one leaf. *)
Lemma map_4k_spec e gpa hpa flags p n :
  tree_ok p (pml4 e) → fp_room (3 + n) p → request_ok hpa flags →
  let '(r, p') := map_4k e gpa hpa flags p in
  mapped (pml4 e) n
    (if is_ok r then Some (gpa_path gpa, idx gpa 0, N.lor hpa flags) else None) p p'.
Proof.
  intros Htree Hroom [Hhpa Hfl]. unfold map_4k.
  assert (fp_room n p) as Hrn by (eapply law_room; [|exact Hroom]; lia).
  assert (mapped (pml4 e) n None p p) as Hsame by (apply grows_mapped; [done|done|apply grows_refl]).
  destruct (negb (N.land gpa 0xFFF =? 0)%N || negb (N.land hpa 0xFFF =? 0)%N) eqn:Eal; [done|].
  erewrite bind_pure by reflexivity. destruct (negb (EptFlags.intersects _ _)) eqn:Efl; [done|].
  erewrite bind_pure by reflexivity.
  apply orb_false_iff in Eal as [_ Ehpa%negb_false_iff%N.eqb_eq].
  assert (page_addr hpa) as Hpg by by apply aligned_page.
  assert (N.land flags 7 ≠ 0)%N as Hf7.
  { intros Hz. apply negb_false_iff, negb_true_iff, N.eqb_neq in Efl. by apply Efl. }
  pose proof (walk_alloc_spec gpa levels [] p (pml4 e) (pml4 e) n Htree (gpa_path_ok gpa) eq_refl Hroom) as Hs.
  unfold mbind, st_bind. destruct (walk_alloc gpa levels (pml4 e) p) as [[t|err] p1];
    destruct Hs as (Htree1&Hr1&G&Hn); [|by apply grows_mapped].
  cbn [app] in Hn. fold (gpa_path gpa) in Hn. rewrite Hpg.
  assert (flags < PAGE_SIZE)%N as Hfp by (unfold PAGE_SIZE; lia).
  assert (fits 64 (N.lor hpa flags)) as Hfits.
  { rewrite frame_offset by done. unfold fits in *.
    change (2 ^ 52)%N with 4503599627370496%N in Hhpa. change (2 ^ 64)%N with 18446744073709551616%N. lia. }
  destruct (write_leaf p1 (pml4 e) (gpa_path gpa) t (idx gpa 0) (N.lor hpa flags) Htree1
              (gpa_path_ok gpa) eq_refl Hn (idx_bound gpa 0) Hfits) as (Htree2&Hnode&Hleaf).
  set (p2 := write_entry t (idx gpa 0) (N.lor hpa flags) p1) in *.
  assert (fp_owned p1 t) as Ht1 by (eapply Htree1; [apply gpa_path_ok|done]).
  destruct (law_write p1 t (idx gpa 0) (N.lor hpa flags) Ht1 (idx_bound gpa 0) Hfits) as [Hrw Hw].
  assert (∀ q, in_tree p2 (pml4 e) q → in_tree p1 (pml4 e) q) as Hin.
  { intros q (pth&Hp&Hq). exists pth. by rewrite <-Hnode. }
  split; [done|by apply Hrw| | | |].
  - intros q Hq. by apply Hw, G.
  - intros q Hq Hnt. assert (¬ in_tree p1 (pml4 e) q) as Hn1 by by eapply grows_outside.
    destruct (grows_frame _ _ _ G q Hq Hnt) as [Hr Hk]. destruct (Hw q) as (_&Hre&Hpk); [by apply G|].
    assert (q ≠ t) as Hqt by (intros ->; apply Hn1; exists (gpa_path gpa); split; [apply gpa_path_ok|done]).
    split; [by intros ?%Hin|]. split.
    + intros i Hi. change (read_entry p2 q i = read_entry p q i). rewrite Hre by done.
      rewrite decide_False by tauto. by apply Hr.
    + intros k Hkk. change (peek p2 (q + k)%N = peek p (q + k)%N). rewrite Hpk by done. by apply Hk.
  - intros u Hu. by apply G, Hin.
  - intros pth j Hp H3 Hj. change (leaf p2 (pml4 e) pth j =
      if decide (pth = gpa_path gpa ∧ j = idx gpa 0) then Some (N.lor hpa flags)
      else leaf p (pml4 e) pth j).
    rewrite Hleaf by done. case_decide; [|by apply G].
    rewrite entry_low by done. destruct (N.eqb_spec (N.land flags 7) 0); done.
Qed.

(** A fresh root: one empty table. *)
Lemma new_spec p n :
  fp_room (S n) p →
  let '(r, p') := ept_new p in
  fp_room n p' ∧
  (∀ q, fp_owned p q → fp_owned p' q ∧
     (∀ i, (i < ENTRIES_PER_TABLE)%N → read_entry p' q i = read_entry p q i) ∧
     ∀ k, (k < PAGE_SIZE)%N → peek p' (q + k) = peek p (q + k)) ∧
  match r with
  | Ok e => tree_ok p' (pml4 e) ∧ ¬ fp_owned p (pml4 e) ∧
      (∀ t, in_tree p' (pml4 e) t → t = pml4 e) ∧
      ∀ pth j, path_ok pth → length pth = 3 → leaf p' (pml4 e) pth j = None
  | Err _ => True
  end.
Proof.
  intros Hr. unfold ept_new, mbind, st_bind. pose proof (law_alloc p n Hr) as Ha.
  destruct (alloc_zeroed p) as [[root|e] p']; destruct Ha as (Hroom&Hk&Hm); simpl; [|done].
  split; [done|]. split; [done|]. destruct Hm as (Hnew&Hown&Hzero).
  assert (∀ pth i, path_ok (i :: pth) → node p' root (i :: pth) = None) as Hnone.
  { intros pth i [_ [Hi _]%Forall_cons]. unfold node. cbn [foldl mbind option_bind].
    assert (next p' root i = None) as ->.
    { unfold next. by rewrite Hzero. }
    induction pth as [|j pth IH]; [done|exact IH]. }
  assert (∀ pth t, path_ok pth → node p' root pth = Some t → pth = [] ∧ t = root) as Hall.
  { intros [|i pth] t Hp; [by intros [= ->]|]. by rewrite Hnone. }
  split; [split|split; [done|split]].
  - intros pth t Hp Ht. by apply Hall in Ht as [_ ->].
  - intros p1 p2 t H1 H2 [-> _]%Hall [-> _]%Hall; done.
  - intros t (pth&Hp&[_ ?]%Hall); done.
  - intros [|i pth] j Hp H3; [done|]. unfold leaf. by rewrite Hnone.
Qed.

(** An accepted request is aligned. *)
Lemma map_4k_aligned e gpa hpa flags p :
  is_ok (map_4k e gpa hpa flags p).1 = true → N.land hpa 0xFFF = 0%N.
Proof.
  unfold map_4k. destruct (negb (N.land gpa 0xFFF =? 0)%N || negb (N.land hpa 0xFFF =? 0)%N) eqn:E; [done|].
  intros _. by apply orb_false_iff in E as [_ ?%negb_false_iff%N.eqb_eq].
Qed.

(** *** Requests in sequence, against the map from pages to frames *)

(** A guest page: bits 12 to 47 of the address. *)
Definition page_of (gpa : N) : N := ((gpa / PAGE_SIZE) mod 2 ^ 36)%N.

Fixpoint map_all (e : Ept) (reqs : list (N * N * N)) (p : P) (m : gmap N N) : P * gmap N N :=
  match reqs with
  | [] => (p, m)
  | (gpa, hpa, flags) :: reqs' =>
      let '(r, p') := map_4k e gpa hpa flags p in
      map_all e reqs' p' (if is_ok r then <[page_of gpa := hpa]> m else m)
  end.

Lemma bits_index gpa sh i : N.testbit (N.land (N.shiftr gpa sh) 0x1FF) i = ((i <? 9)%N && N.testbit gpa (i + sh)).
Proof.
  change 0x1FF%N with (N.ones 9). rewrite N.land_spec, low_mask_bit, N.shiftr_spec by lia.
  by rewrite andb_comm.
Qed.

Lemma bits_page gpa i : N.testbit (page_of gpa) i = ((i <? 36)%N && N.testbit gpa (i + 12)).
Proof.
  assert (page_of gpa = N.land (N.shiftr gpa 12) (N.ones 36)) as ->
    by (rewrite N.land_ones, N.shiftr_div_pow2; reflexivity).
  rewrite N.land_spec, low_mask_bit, N.shiftr_spec by lia. by rewrite andb_comm.
Qed.

(** Two addresses have the same indices exactly when they are of one page. *)
Lemma same_page g1 g2 :
  gpa_path g1 = gpa_path g2 ∧ idx g1 0 = idx g2 0 ↔ page_of g1 = page_of g2.
Proof.
  unfold gpa_path, levels, idx, ept_indices. simpl. split.
  - intros [[= E3 E2 E1] E0]. apply N.bits_inj. intros i. rewrite !bits_page.
    destruct (N.ltb_spec i 36) as [Hi|]; [|done]. simpl.
    assert (∀ sh j, N.land (N.shiftr g1 sh) 511 = N.land (N.shiftr g2 sh) 511 → (j < 9)%N →
              N.testbit g1 (j + sh) = N.testbit g2 (j + sh)) as Hb.
    { intros sh j E Hj. apply (f_equal (λ n, N.testbit n j)) in E.
      rewrite !bits_index, (proj2 (N.ltb_lt _ _)) in E by done. exact E. }
    destruct (decide (i < 9)%N); [by apply Hb|].
    destruct (decide (i < 18)%N).
    { replace (i + 12)%N with ((i - 9) + 21)%N by lia. apply Hb; [done|lia]. }
    destruct (decide (i < 27)%N).
    { replace (i + 12)%N with ((i - 18) + 30)%N by lia. apply Hb; [done|lia]. }
    replace (i + 12)%N with ((i - 27) + 39)%N by lia. apply Hb; [done|lia].
  - intros E. assert (∀ i, (i < 36)%N → N.testbit g1 (i + 12) = N.testbit g2 (i + 12)) as Hb.
    { intros i Hi. apply (f_equal (λ n, N.testbit n i)) in E.
      rewrite !bits_page, (proj2 (N.ltb_lt _ _)) in E by done. exact E. }
    assert (∀ sh, (12 ≤ sh ≤ 39)%N → N.land (N.shiftr g1 sh) 511 = N.land (N.shiftr g2 sh) 511) as Hi.
    { intros sh Hsh. apply N.bits_inj. intros i. rewrite !bits_index.
      destruct (N.ltb_spec i 9); [|done]. simpl.
      replace (i + sh)%N with ((i + (sh - 12)) + 12)%N by lia. apply Hb. lia. }
    rewrite !Hi by lia. done.
Qed.

Definition frame_in (hpa : N) (l : N) : Prop := N.land l ADDR_MASK = hpa.

(** The tables hold [m]. *)
Definition holds_map (e : Ept) (p : P) (m : gmap N N) : Prop :=
  ∀ gpa, match m !! page_of gpa with
         | Some hpa => ∃ l, leaf p (pml4 e) (gpa_path gpa) (idx gpa 0) = Some l ∧ frame_in hpa l
         | None => leaf p (pml4 e) (gpa_path gpa) (idx gpa 0) = None
         end.

Lemma map_all_holds e reqs p m n :
  tree_ok p (pml4 e) → fp_room (3 * length reqs + n) p →
  Forall (λ '(_, hpa, flags), request_ok hpa flags) reqs →
  holds_map e p m →
  let '(p', m') := map_all e reqs p m in holds_map e p' m' ∧ tree_ok p' (pml4 e) ∧ fp_room n p'.
Proof.
  revert p m. induction reqs as [|[[gpa hpa] flags] reqs IH]; intros p m Htree Hroom Hreq Hm; [done|].
  apply Forall_cons in Hreq as [Hr Hreqs]. cbn [map_all].
  assert (fp_room (3 + (3 * length reqs + n)) p) as Hroom'.
  { eapply law_room; [|exact Hroom]. simpl. lia. }
  pose proof (map_4k_spec e gpa hpa flags p _ Htree Hroom' Hr) as Hs.
  pose proof (map_4k_aligned e gpa hpa flags p) as Hal.
  destruct (map_4k e gpa hpa flags p) as [r p'] eqn:Er. apply IH; [apply Hs..|done|].
  intros g. rewrite (mapped_leaf _ _ _ _ _ Hs) by (apply gpa_path_ok || done || apply idx_bound).
  destruct r as [[]|err]; cbn [is_ok fst snd] in *; [|apply Hm].
  destruct (decide (page_of g = page_of gpa)) as [E|Hne].
  - rewrite E, lookup_insert_eq. apply same_page in E as [E1 E2]. rewrite decide_True by done.
    exists (N.lor hpa flags). split; [done|]. apply entry_addr; [|destruct Hr; unfold PAGE_SIZE; lia].
    apply aligned_page; [apply Hr|by apply Hal].
  - rewrite lookup_insert_ne by done. rewrite decide_False; [apply Hm|].
    intros E. apply Hne. by apply same_page.
Qed.

(** C16: the page tables of a guest implement a finite map from guest pages to
    host frames, over any frame provider.  From a fresh root, after any
    sequence of map requests, accepted or refused (misaligned, no access,
    frame pool exhausted in the middle of a walk), translating any guest
    address gives the frame of the last accepted request for its page plus the
    page offset, and an error if there is none. *)
Theorem ept_refines_map p0 e p1 reqs gpa :
  fp_room (1 + 3 * length reqs) p0 →
  Forall (λ '(_, hpa, flags), request_ok hpa flags) reqs →
  ept_new p0 = (Ok e, p1) →
  let '(p2, m) := map_all e reqs p1 ∅ in
  match m !! page_of gpa with
  | Some hpa => translate e p2 gpa = Ok (hpa + gpa mod PAGE_SIZE)%N
  | None => is_ok (translate e p2 gpa) = false
  end.
Proof.
  intros Hroom Hreq Hnew. pose proof (new_spec p0 (3 * length reqs + 0)) as Hs. rewrite Hnew in Hs.
  destruct Hs as (Hr1&_&Htree&_&_&Hleaf); [eapply law_room; [|exact Hroom]; lia|].
  pose proof (map_all_holds e reqs p1 ∅ 0 Htree Hr1 Hreq) as Hm.
  destruct (map_all e reqs p1 ∅) as [p2 m].
  destruct Hm as (Hm&_&_).
  { intros g. rewrite lookup_empty. by apply Hleaf; [apply gpa_path_ok|]. }
  specialize (Hm gpa). pose proof (translate_leaf e p2 gpa) as Ht.
  destruct (m !! page_of gpa) as [hpa|].
  - destruct Hm as (l&Hl&<-). rewrite Hl in Ht. rewrite Ht. f_equal.
    change 0xFFF%N with (N.ones 12). rewrite N.land_ones. apply frame_offset; [apply page_addr_land|].
    apply N.mod_lt. done.
  - by rewrite Hm in Ht.
Qed.
End tree.

Definition witness_pool : KernelFrames.t := KernelFrames.mk 0x200000 0 ∅.

Lemma witness_room n : (N.of_nat n < 4294967296)%N → fp_room n witness_pool.
Proof.
  intros Hn. split; [|simpl; unfold PAGE_SIZE; change (2 ^ 64)%N with 18446744073709551616%N; lia].
  split; [by vm_compute|]. split; [by vm_compute|]. split; [by vm_compute|]. done.
Qed.

(** Two pages mapped, one twice, one request refused; three addresses. *)
Definition witness_reqs : list (N * N * N) :=
  [(0x1000, 0xabc000, 55); (0x40002000, 0xdef000, 55); (0x1008, 0x123000, 55); (0x1000, 0x777000, 7)]%N.

Lemma ept_refines_map_witness :
  let '(p2, m) := map_all (mkEpt 0x200000) witness_reqs (ept_new witness_pool).2 ∅ in
  translate (mkEpt 0x200000) p2 0x1234 = Ok 0x777234%N ∧
  translate (mkEpt 0x200000) p2 0x40002fff = Ok 0xdeffff%N ∧
  is_ok (translate (mkEpt 0x200000) p2 0x2000) = false.
Proof.
  assert (fp_room (1 + 3 * length witness_reqs) witness_pool) as Hr by (apply witness_room; simpl; lia).
  assert (Forall (λ '(_, hpa, flags), request_ok hpa flags) witness_reqs) as Hq
    by (repeat constructor).
  assert (ept_new witness_pool = (Ok (mkEpt 0x200000), (ept_new witness_pool).2)) as Hn by reflexivity.
  pose proof (ept_refines_map witness_pool (mkEpt 0x200000) _ witness_reqs 0x1234 Hr Hq Hn) as H1.
  pose proof (ept_refines_map witness_pool (mkEpt 0x200000) _ witness_reqs 0x40002fff Hr Hq Hn) as H2.
  pose proof (ept_refines_map witness_pool (mkEpt 0x200000) _ witness_reqs 0x2000 Hr Hq Hn) as H3.
  assert ((map_all (mkEpt 0x200000) witness_reqs (ept_new witness_pool).2 ∅).2 =
    <[1%N := 0x777000%N]> {[ 0x40002%N := 0xdef000%N ]}) as Hm by (by vm_compute).
  destruct (map_all _ _ _ _) as [p2 m]. simpl in Hm. subst m. auto.
Defined.
