(* ===== verification/Vm.v ===== *)
(** * Vm: the lifecycle of one guest

    crates/celhyper/src/vm.rs.  The state of a [Vm] is an atomic [u32] that
    compare-and-swap moves along Created, Running and the three terminal
    states; the file defines the operations and the lifecycle relation they
    follow. *)
From S2P Require Import Prelude.
From S2P Require Import HyperErr.

Inductive VmState := Created | Running | Halted | Stopped | Faulted.

#[export] Instance VmState_eq_dec : EqDecision VmState.
Proof. solve_decision. Defined.

(** [VmState as u32] and [VmState::from_u32]. *)
Definition state_code (s : VmState) : N :=
  match s with Created => 0 | Running => 1 | Halted => 2 | Stopped => 3 | Faulted => 4 end.
Definition from_u32 (v : N) : option VmState :=
  match v with
  | 0 => Some Created
  | 1 => Some Running
  | 2 => Some Halted
  | 3 => Some Stopped
  | 4 => Some Faulted
  | _ => None
  end%N.

Definition is_terminal (s : VmState) : bool :=
  match s with Halted | Stopped | Faulted => true | _ => false end.

Inductive ExitOutcome := OHalted | OFaulted.

Record Vm := mkVm {
  vm_id : N;               (** [VmId], u32 *)
  vm_raw_state : N;        (** AtomicU32 *)
  vm_vmcs_pa : N;
  vm_eptp : N;
  vm_raw_exit : N          (** AtomicU32, [u32::MAX] until the first exit *)
}.

Definition vm_new (id vmcs_pa eptp : N) : Vm := mkVm id (state_code Created) vmcs_pa eptp u32_max.

(** [Vm::state] and [Vm::last_exit_reason]. *)
Definition vm_state (v : Vm) : VmState := default Faulted (from_u32 (vm_raw_state v)).
Definition last_exit_reason (v : Vm) : option N :=
  if (vm_raw_exit v =? u32_max)%N then None else Some (vm_raw_exit v).

Definition set_raw_state (s : N) (v : Vm) : Vm :=
  mkVm (vm_id v) s (vm_vmcs_pa v) (vm_eptp v) (vm_raw_exit v).
Definition set_raw_exit (r : N) (v : Vm) : Vm :=
  mkVm (vm_id v) (vm_raw_state v) (vm_vmcs_pa v) (vm_eptp v) r.

(** [compare_exchange]: whether the swap was made. *)
Definition compare_exchange (from to : N) (v : Vm) : bool * Vm :=
  if (vm_raw_state v =? from)%N then (true, set_raw_state to v) else (false, v).

Definition transition (from to : VmState) : st Vm HyperError unit := λ v,
  match compare_exchange (state_code from) (state_code to) v with
  | (true, v') => (Ok tt, v')
  | (false, v') => (Err (Denied "Vm::transition: bad source state"), v')
  end.

Definition mark_running : st Vm HyperError unit := transition Created Running.

Definition on_exit (basic_reason : N) (kind : ExitOutcome) : st Vm HyperError VmState :=
  _ ← modify (set_raw_exit basic_reason);
  let next := match kind with OHalted => Halted | OFaulted => Faulted end in
  _ ← transition Running next;
  mret next.

Definition vm_stop : st Vm HyperError unit := λ v,
  match compare_exchange (state_code Created) (state_code Stopped) v with
  | (true, v') => (Ok tt, v')
  | (false, v') =>
      match compare_exchange (state_code Running) (state_code Stopped) v' with
      | (true, v'') => (Ok tt, v'')
      | (false, v'') => (Err (Denied "Vm::stop: not in Created/Running"), v'')
      end
  end.

(** ** The lifecycle *)

(** The edges of the diagram in the module's header. *)
Inductive edge : VmState → VmState → Prop :=
| edge_start : edge Created Running
| edge_halt : edge Running Halted
| edge_fault : edge Running Faulted
| edge_stop_created : edge Created Stopped
| edge_stop_running : edge Running Stopped.

(** A [Vm] seen twice: the same guest, further along the lifecycle. *)
Definition later (v v' : Vm) : Prop :=
  vm_id v' = vm_id v ∧ vm_vmcs_pa v' = vm_vmcs_pa v ∧ vm_eptp v' = vm_eptp v ∧
  rtc edge (vm_state v) (vm_state v').

(** The stored number is the code of a state. *)
Definition vm_ok (v : Vm) : Prop := ∃ s, vm_raw_state v = state_code s.

Lemma from_state_code s : from_u32 (state_code s) = Some s.
Proof. by destruct s. Qed.
Lemma state_code_inj s1 s2 : state_code s1 = state_code s2 → s1 = s2.
Proof. intros E. apply (f_equal from_u32) in E. rewrite !from_state_code in E. by injection E. Qed.

#[export] Instance later_preorder : PreOrder later.
Proof.
  split.
  - intros v. done.
  - intros v1 v2 v3 (?&?&?&?) (?&?&?&?). split; [congruence|]. split; [congruence|].
    split; [congruence|]. by etrans.
Qed.

Lemma terminal_stays s s' : rtc edge s s' → is_terminal s = true → s' = s.
Proof. intros [->|(y&He&_)]%rtc_inv Ht; [done|]. by inversion He; subst. Qed.

Lemma transition_spec from to v :
  edge from to → vm_ok v →
  let '(r, v') := transition from to v in
  vm_ok v' ∧ later v v' ∧ vm_raw_exit v' = vm_raw_exit v ∧
  if decide (vm_state v = from) then r = Ok tt ∧ vm_state v' = to
  else r = Err (Denied "Vm::transition: bad source state") ∧ v' = v.
Proof.
  intros He [s Hs]. unfold transition, compare_exchange. rewrite Hs.
  assert (vm_state v = s) as Hvs by (unfold vm_state; by rewrite Hs, from_state_code).
  destruct (N.eqb_spec (state_code s) (state_code from)) as [E|E].
  - apply state_code_inj in E as ->. rewrite decide_True by done. split; [by exists to|]. split.
    + split; [done|]. split; [done|]. split; [done|]. rewrite Hvs. unfold vm_state. simpl.
      rewrite from_state_code. by apply rtc_once.
    + split; [done|]. split; [done|]. unfold vm_state. simpl. by rewrite from_state_code.
  - rewrite decide_False by congruence. split; [by exists s|]. done.
Qed.

Lemma set_raw_exit_later r v : later v (set_raw_exit r v).
Proof. done. Qed.

Lemma on_exit_spec r k v :
  vm_ok v →
  let next := match k with OHalted => Halted | OFaulted => Faulted end in
  let '(res, v') := on_exit r k v in
  vm_ok v' ∧ later v v' ∧ vm_raw_exit v' = r ∧
  if decide (vm_state v = Running) then res = Ok next ∧ vm_state v' = next
  else is_ok res = false ∧ vm_state v' = vm_state v.
Proof.
  intros Hv next. unfold on_exit. st_unfold.
  assert (vm_ok (set_raw_exit r v)) as Hv' by done.
  assert (edge Running next) as He by (destruct k; constructor).
  fold next. pose proof (transition_spec Running next (set_raw_exit r v) He Hv') as Hs.
  change (vm_state (set_raw_exit r v)) with (vm_state v) in Hs.
  destruct (transition Running next (set_raw_exit r v)) as [[[]|e] v'];
    destruct Hs as (?&?&?&Hd); (split; [done|]); (split; [done|]); (split; [done|]);
    case_decide; destruct Hd; try done; subst; done.
Qed.

Lemma vm_stop_spec v :
  vm_ok v →
  let '(r, v') := vm_stop v in
  vm_ok v' ∧ later v v' ∧ vm_raw_exit v' = vm_raw_exit v ∧
  if is_terminal (vm_state v) then is_ok r = false ∧ v' = v else r = Ok tt ∧ vm_state v' = Stopped.
Proof.
  intros [s Hs]. assert (vm_state v = s) as Hvs by (unfold vm_state; by rewrite Hs, from_state_code).
  unfold vm_stop, compare_exchange. rewrite Hs, Hvs.
  destruct s; simpl; rewrite ?Hs; simpl.
  all: try (split; [by exists Stopped|]; split; [|done]).
  all: try (split; [done|]; split; [done|]; split; [done|]; rewrite Hvs;
            unfold vm_state; simpl; apply rtc_once; constructor).
  all: split; [eexists; exact Hs|done].
Qed.
