(* ===== verification/Vmx.v ===== *)
(** * Vmx: programming the processor

    crates/celhyper/src/vmx (vmcs.rs, cpu.rs, region.rs, host_state.rs,
    launch.rs) and the register helpers of arch/x86.rs.  The instructions are
    the processor's: the class [Cpu] gives each one's effect and the RFLAGS it
    leaves, and [CpuLaws] states what the manual documents of them, down to
    the frames a running guest can touch.  The bytes of a VMCS region are the
    processor's own: the kernel writes the revision identifier, clears the
    region and from then on uses VMREAD and VMWRITE only. *)
From S2P Require Import Prelude.
From S2P Require Import HyperErr.
From S2P Require Import Vault.
From S2P Require Import Ept.
From Stdlib Require Import Strings.Byte.

(** ** The encodings of vmx/fields.rs *)
Module F.
(** *** 16-bit guest-state fields *)
Definition GUEST_ES_SELECTOR : N := 0x00000800.
Definition GUEST_CS_SELECTOR : N := 0x00000802.
Definition GUEST_SS_SELECTOR : N := 0x00000804.
Definition GUEST_DS_SELECTOR : N := 0x00000806.
Definition GUEST_FS_SELECTOR : N := 0x00000808.
Definition GUEST_GS_SELECTOR : N := 0x0000080A.
Definition GUEST_LDTR_SELECTOR : N := 0x0000080C.
Definition GUEST_TR_SELECTOR : N := 0x0000080E.
(** *** 16-bit host-state fields *)
Definition HOST_ES_SELECTOR : N := 0x00000C00.
Definition HOST_CS_SELECTOR : N := 0x00000C02.
Definition HOST_SS_SELECTOR : N := 0x00000C04.
Definition HOST_DS_SELECTOR : N := 0x00000C06.
Definition HOST_FS_SELECTOR : N := 0x00000C08.
Definition HOST_GS_SELECTOR : N := 0x00000C0A.
Definition HOST_TR_SELECTOR : N := 0x00000C0C.
(** *** 64-bit control fields *)
Definition IO_BITMAP_A : N := 0x00002000.
Definition IO_BITMAP_B : N := 0x00002002.
Definition MSR_BITMAP : N := 0x00002004.
Definition VM_EXIT_MSR_STORE_ADDR : N := 0x00002006.
Definition VM_EXIT_MSR_LOAD_ADDR : N := 0x00002008.
Definition VM_ENTRY_MSR_LOAD_ADDR : N := 0x0000200A.
Definition EPT_POINTER : N := 0x0000201A.
(** *** 64-bit guest-state fields *)
Definition VMCS_LINK_POINTER : N := 0x00002800.
Definition GUEST_IA32_DEBUGCTL : N := 0x00002802.
Definition GUEST_IA32_EFER : N := 0x00002806.
(** *** 32-bit control fields *)
Definition PIN_BASED_VM_EXEC_CTL : N := 0x00004000.
Definition CPU_BASED_VM_EXEC_CTL : N := 0x00004002.
Definition EXCEPTION_BITMAP : N := 0x00004004.
Definition VM_EXIT_CTLS : N := 0x0000400C.
Definition VM_ENTRY_CTLS : N := 0x00004012.
Definition SECONDARY_VM_EXEC_CTL : N := 0x0000401E.
(** *** 32-bit RO data fields *)
Definition VM_INSTRUCTION_ERROR : N := 0x00004400.
Definition EXIT_REASON : N := 0x00004402.
(** *** 32-bit guest-state fields *)
Definition GUEST_ES_LIMIT : N := 0x00004800.
Definition GUEST_CS_LIMIT : N := 0x00004802.
Definition GUEST_SS_LIMIT : N := 0x00004804.
Definition GUEST_DS_LIMIT : N := 0x00004806.
Definition GUEST_FS_LIMIT : N := 0x00004808.
Definition GUEST_GS_LIMIT : N := 0x0000480A.
Definition GUEST_LDTR_LIMIT : N := 0x0000480C.
Definition GUEST_TR_LIMIT : N := 0x0000480E.
Definition GUEST_GDTR_LIMIT : N := 0x00004810.
Definition GUEST_IDTR_LIMIT : N := 0x00004812.
Definition GUEST_ES_AR : N := 0x00004814.
Definition GUEST_CS_AR : N := 0x00004816.
Definition GUEST_SS_AR : N := 0x00004818.
Definition GUEST_DS_AR : N := 0x0000481A.
Definition GUEST_FS_AR : N := 0x0000481C.
Definition GUEST_GS_AR : N := 0x0000481E.
Definition GUEST_LDTR_AR : N := 0x00004820.
Definition GUEST_TR_AR : N := 0x00004822.
Definition GUEST_INTERRUPTIBILITY : N := 0x00004824.
Definition GUEST_ACTIVITY_STATE : N := 0x00004826.
Definition GUEST_SYSENTER_CS : N := 0x0000482A.
(** *** Natural-width guest-state fields *)
Definition GUEST_CR0 : N := 0x00006800.
Definition GUEST_CR3 : N := 0x00006802.
Definition GUEST_CR4 : N := 0x00006804.
Definition GUEST_ES_BASE : N := 0x00006806.
Definition GUEST_CS_BASE : N := 0x00006808.
Definition GUEST_SS_BASE : N := 0x0000680A.
Definition GUEST_DS_BASE : N := 0x0000680C.
Definition GUEST_FS_BASE : N := 0x0000680E.
Definition GUEST_GS_BASE : N := 0x00006810.
Definition GUEST_LDTR_BASE : N := 0x00006812.
Definition GUEST_TR_BASE : N := 0x00006814.
Definition GUEST_GDTR_BASE : N := 0x00006816.
Definition GUEST_IDTR_BASE : N := 0x00006818.
Definition GUEST_DR7 : N := 0x0000681A.
Definition GUEST_RSP : N := 0x0000681C.
Definition GUEST_RIP : N := 0x0000681E.
Definition GUEST_RFLAGS : N := 0x00006820.
Definition GUEST_PENDING_DBG_EXC : N := 0x00006822.
Definition GUEST_SYSENTER_ESP : N := 0x00006824.
Definition GUEST_SYSENTER_EIP : N := 0x00006826.
(** *** Natural-width host-state fields *)
Definition HOST_CR0 : N := 0x00006C00.
Definition HOST_CR3 : N := 0x00006C02.
Definition HOST_CR4 : N := 0x00006C04.
Definition HOST_FS_BASE : N := 0x00006C06.
Definition HOST_GS_BASE : N := 0x00006C08.
Definition HOST_TR_BASE : N := 0x00006C0A.
Definition HOST_GDTR_BASE : N := 0x00006C0C.
Definition HOST_IDTR_BASE : N := 0x00006C0E.
Definition HOST_RSP : N := 0x00006C14.
Definition HOST_RIP : N := 0x00006C16.
(** *** Exit-information natural-width fields *)
Definition EXIT_QUALIFICATION : N := 0x00006400.
Definition GUEST_LINEAR_ADDRESS : N := 0x0000640A.
(** *** Exit reasons (subset, SDM Vol 3 App C) *)
Definition EXIT_REASON_HLT : N := 12.
Definition EXIT_REASON_CR_ACCESS : N := 28.
Definition EXIT_REASON_EPT_VIOLATION : N := 48.
(** *** Pin-based control bits (subset) *)
Definition PINBASED_EXT_INTR_EXITING : N := N.shiftl 1 0.
Definition PINBASED_NMI_EXITING : N := N.shiftl 1 3.
(** *** Primary processor-based control bits (subset) *)
Definition CPUBASED_HLT_EXITING : N := N.shiftl 1 7.
Definition CPUBASED_USE_MSR_BITMAPS : N := N.shiftl 1 28.
Definition CPUBASED_ACTIVATE_SECONDARY : N := N.shiftl 1 31.
(** *** Secondary processor-based control bits (subset) *)
Definition SECONDARY_ENABLE_EPT : N := N.shiftl 1 1.
Definition SECONDARY_UNRESTRICTED_GUEST : N := N.shiftl 1 7.
(** *** VM-exit / entry control bits (subset) *)
Definition VMEXIT_HOST_ADDR_SPACE_SIZE : N := N.shiftl 1 9.
Definition VMENTRY_IA32E_MODE_GUEST : N := N.shiftl 1 9.
End F.

(** Selectors are u16, the rest u64. *)
Record HostState := mkHostState {
  hs_cr0 : N; hs_cr3 : N; hs_cr4 : N;
  hs_cs : N; hs_ds : N; hs_es : N; hs_fs : N; hs_gs : N; hs_ss : N; hs_tr : N;
  hs_fs_base : N; hs_gs_base : N; hs_tr_base : N; hs_gdtr_base : N; hs_idtr_base : N
}.

(** The processor [C] with physical memory [P].  [vmlaunch] answers [Some]
    RFLAGS when the entry failed, and [None] when the guest ran until its next
    VM exit.  The launch programs no preemption timer: a guest that never
    causes an exit keeps the processor, and the call that started it does not
    return; such runs are not in the model. *)
Class Cpu (C P : Type) := {
  rdmsr : C → N → N;
  read_cr0 : C → N;
  write_cr0 : N → C → C;
  read_cr4 : C → N;
  write_cr4 : N → C → C;
  hw_vmxon : N → C → N * C;
  hw_vmclear : N → C → N * C;
  hw_vmptrld : N → C → N * C;
  hw_vmwrite : N → N → C → N * C;
  hw_vmread : N → C → N * N;      (** value and RFLAGS *)
  hw_vmlaunch : C → P → option N * (C * P);
  capture : C → HostState;
  trampoline : N;                 (** address of [vmexit_trampoline] *)
  host_stack : N                  (** address of [HOST_STACK] *)
}.

Definition flag (rflags bit : N) : bool := N.testbit rflags bit.

(** [check_vmx_status]. *)
Definition check_vmx_status (rflags : N) : HyperResult unit :=
  if flag rflags 0 then Err (Hardware "vmx: VMfailInvalid")
  else if flag rflags 6 then Err (Hardware "vmx: VMfailValid")
  else Ok tt.

Section vmx.
Context {C P : Type} `{Cpu C P}.
Abbreviation M := (st C HyperError).

(** ** vmcs.rs *)
Definition vmclear (pa : N) : M unit := λ c,
  let '(f, c') := hw_vmclear pa c in (check_vmx_status f, c').
Definition vmptrld (pa : N) : M unit := λ c,
  let '(f, c') := hw_vmptrld pa c in (check_vmx_status f, c').
Definition vmwrite (field value : N) : M unit := λ c,
  let '(f, c') := hw_vmwrite field value c in (check_vmx_status f, c').
Definition vmread (field : N) (c : C) : HyperResult N :=
  let '(v, f) := hw_vmread field c in _ ← check_vmx_status f; Ok v.

(** A run of [vmwrite]s with [?] after each. *)
Fixpoint vmwrites (l : list (N * N)) : M unit :=
  match l with
  | [] => mret tt
  | (f, v) :: l' => _ ← vmwrite f v; vmwrites l'
  end.

(** ** arch/x86.rs *)
Definition IA32_FEATURE_CONTROL : N := 0x3A.
Definition IA32_VMX_BASIC : N := 0x480.

Definition ensure_vmx_available (c : C) : HyperResult unit :=
  let fc := rdmsr c IA32_FEATURE_CONTROL in
  let lock := negb (N.land fc 1 =? 0)%N in
  let vmx_outside := negb (N.land fc 4 =? 0)%N in
  if lock && negb vmx_outside then Err (UnsupportedCpu "VMX disabled by firmware (locked)")
  else Ok tt.

(** ** cpu.rs *)
Definition IA32_VMX_CR0_FIXED0 : N := 0x486.
Definition IA32_VMX_CR0_FIXED1 : N := 0x487.
Definition IA32_VMX_CR4_FIXED0 : N := 0x488.
Definition IA32_VMX_CR4_FIXED1 : N := 0x489.
Definition CR4_VMXE : N := N.shiftl 1 13.

Definition revision_id (c : C) : HyperResult N :=
  let basic := rdmsr c IA32_VMX_BASIC in
  if flag basic 31 then Err (UnsupportedCpu "IA32_VMX_BASIC width bit set")
  else Ok (N.land basic 0x7FFFFFFF).

Definition enable (vmxon_phys : N) : M unit := λ c,
  let cr0 := N.land (N.lor (read_cr0 c) (rdmsr c IA32_VMX_CR0_FIXED0)) (rdmsr c IA32_VMX_CR0_FIXED1) in
  let c := write_cr0 cr0 c in
  let cr4 := N.land (N.lor (read_cr4 c) (N.lor CR4_VMXE (rdmsr c IA32_VMX_CR4_FIXED0)))
               (rdmsr c IA32_VMX_CR4_FIXED1) in
  let c := write_cr4 cr4 c in
  let '(f, c) := hw_vmxon vmxon_phys c in
  (if flag f 0 then Err (Hardware "vmxon: VMfailInvalid (CF=1)")
   else if flag f 6 then Err (Hardware "vmxon: VMfailValid (ZF=1)")
   else Ok tt, c).

(** ** host_state.rs *)
Definition SEL_MASK : N := 0xFFF8.

Definition host_fields (host : HostState) (host_rip host_rsp : N) : list (N * N) :=
  [(F.HOST_CR0, hs_cr0 host); (F.HOST_CR3, hs_cr3 host); (F.HOST_CR4, hs_cr4 host);
   (F.HOST_CS_SELECTOR, N.land (hs_cs host) SEL_MASK);
   (F.HOST_DS_SELECTOR, N.land (hs_ds host) SEL_MASK);
   (F.HOST_ES_SELECTOR, N.land (hs_es host) SEL_MASK);
   (F.HOST_FS_SELECTOR, N.land (hs_fs host) SEL_MASK);
   (F.HOST_GS_SELECTOR, N.land (hs_gs host) SEL_MASK);
   (F.HOST_SS_SELECTOR, N.land (hs_ss host) SEL_MASK);
   (F.HOST_TR_SELECTOR, N.land (hs_tr host) SEL_MASK);
   (F.HOST_FS_BASE, hs_fs_base host); (F.HOST_GS_BASE, hs_gs_base host);
   (F.HOST_TR_BASE, hs_tr_base host); (F.HOST_GDTR_BASE, hs_gdtr_base host);
   (F.HOST_IDTR_BASE, hs_idtr_base host);
   (F.HOST_RIP, host_rip); (F.HOST_RSP, host_rsp)].
Definition write_host_state (host : HostState) (host_rip host_rsp : N) : M unit :=
  vmwrites (host_fields host host_rip host_rsp).

(** [exit::host_rsp_top]: the top of the 16 KiB stack less the return slot. *)
Definition host_rsp_top : N := (host_stack + 16 * 1024 - 8)%N.

(** ** launch.rs *)
Definition IA32_VMX_PINBASED_CTLS : N := 0x481.
Definition IA32_VMX_PROCBASED_CTLS : N := 0x482.
Definition IA32_VMX_EXIT_CTLS : N := 0x483.
Definition IA32_VMX_ENTRY_CTLS : N := 0x484.
Definition IA32_VMX_PROCBASED_CTLS2 : N := 0x48B.
Definition IA32_VMX_TRUE_PINBASED_CTLS : N := 0x48D.
Definition IA32_VMX_TRUE_PROCBASED_CTLS : N := 0x48E.
Definition IA32_VMX_TRUE_EXIT_CTLS : N := 0x48F.
Definition IA32_VMX_TRUE_ENTRY_CTLS : N := 0x490.

Definition rebase_ctl (c : C) (desired msr_addr : N) : N :=
  let v := rdmsr c msr_addr in
  let allowed_0 := N.land v (N.ones 32) in
  let allowed_1 := N.land (N.shiftr v 32) (N.ones 32) in
  N.land (N.lor desired allowed_0) allowed_1.

Definition ctl_msr (c : C) (true_msr legacy_msr : N) : N :=
  if N.testbit (rdmsr c IA32_VMX_BASIC) 55 then true_msr else legacy_msr.

Definition rebase_cr (c : C) (desired fixed0 fixed1 : N) : N :=
  N.land (N.lor desired (rdmsr c fixed0)) (rdmsr c fixed1).

Record LaunchPlan := mkLaunchPlan { lp_eptp : N; lp_guest_rip : N; lp_guest_rsp : N }.

Definition CODE_AR : N := 0x9B.
Definition DATA_AR : N := 0x93.
Definition LDTR_AR : N := 0x10082.
Definition TR_AR : N := 0x8B.

Definition segs : list (N * N * N * N * N) :=
  [(F.GUEST_ES_SELECTOR, F.GUEST_ES_BASE, F.GUEST_ES_LIMIT, F.GUEST_ES_AR, DATA_AR);
   (F.GUEST_CS_SELECTOR, F.GUEST_CS_BASE, F.GUEST_CS_LIMIT, F.GUEST_CS_AR, CODE_AR);
   (F.GUEST_SS_SELECTOR, F.GUEST_SS_BASE, F.GUEST_SS_LIMIT, F.GUEST_SS_AR, DATA_AR);
   (F.GUEST_DS_SELECTOR, F.GUEST_DS_BASE, F.GUEST_DS_LIMIT, F.GUEST_DS_AR, DATA_AR);
   (F.GUEST_FS_SELECTOR, F.GUEST_FS_BASE, F.GUEST_FS_LIMIT, F.GUEST_FS_AR, DATA_AR);
   (F.GUEST_GS_SELECTOR, F.GUEST_GS_BASE, F.GUEST_GS_LIMIT, F.GUEST_GS_AR, DATA_AR)].

(** The controls, with [!0u64] written out where the code has it. *)
Definition control_fields (c : C) (plan : LaunchPlan) : list (N * N) :=
  let pin_ctl := rebase_ctl c 0 (ctl_msr c IA32_VMX_TRUE_PINBASED_CTLS IA32_VMX_PINBASED_CTLS) in
  let proc_ctl := rebase_ctl c (N.lor F.CPUBASED_HLT_EXITING F.CPUBASED_ACTIVATE_SECONDARY)
                    (ctl_msr c IA32_VMX_TRUE_PROCBASED_CTLS IA32_VMX_PROCBASED_CTLS) in
  let sec_ctl := rebase_ctl c (N.lor F.SECONDARY_ENABLE_EPT F.SECONDARY_UNRESTRICTED_GUEST)
                   IA32_VMX_PROCBASED_CTLS2 in
  let exit_ctl := rebase_ctl c F.VMEXIT_HOST_ADDR_SPACE_SIZE
                    (ctl_msr c IA32_VMX_TRUE_EXIT_CTLS IA32_VMX_EXIT_CTLS) in
  let entry_ctl := rebase_ctl c 0 (ctl_msr c IA32_VMX_TRUE_ENTRY_CTLS IA32_VMX_ENTRY_CTLS) in
  [(F.PIN_BASED_VM_EXEC_CTL, pin_ctl); (F.CPU_BASED_VM_EXEC_CTL, proc_ctl);
   (F.SECONDARY_VM_EXEC_CTL, sec_ctl); (F.EXCEPTION_BITMAP, 0%N);
   (F.VM_EXIT_CTLS, exit_ctl); (F.VM_ENTRY_CTLS, entry_ctl); (F.EPT_POINTER, lp_eptp plan)].

Definition guest_cr0 (c : C) : N :=
  N.ldiff (N.ldiff (rebase_cr c 0x30 IA32_VMX_CR0_FIXED0 IA32_VMX_CR0_FIXED1)
             (N.shiftl 1 0)) (N.shiftl 1 31).

Definition guest_fields (c : C) (plan : LaunchPlan) : list (N * N) :=
  [(F.GUEST_CR0, guest_cr0 c); (F.GUEST_CR3, 0%N);
   (F.GUEST_CR4, rebase_cr c 0 IA32_VMX_CR4_FIXED0 IA32_VMX_CR4_FIXED1)] ++
  mjoin ((λ '(sel, base, limit, ar_enc, ar_val),
            [(sel, 0%N); (base, 0%N); (limit, 0xFFFF%N); (ar_enc, ar_val)]) <$> segs) ++
  [(F.GUEST_LDTR_SELECTOR, 0%N); (F.GUEST_LDTR_BASE, 0%N); (F.GUEST_LDTR_LIMIT, 0xFFFF%N);
   (F.GUEST_LDTR_AR, LDTR_AR);
   (F.GUEST_TR_SELECTOR, 0%N); (F.GUEST_TR_BASE, 0%N); (F.GUEST_TR_LIMIT, 0xFFFF%N);
   (F.GUEST_TR_AR, TR_AR);
   (F.GUEST_GDTR_BASE, 0%N); (F.GUEST_GDTR_LIMIT, 0xFFFF%N);
   (F.GUEST_IDTR_BASE, 0%N); (F.GUEST_IDTR_LIMIT, 0xFFFF%N);
   (F.GUEST_RIP, lp_guest_rip plan); (F.GUEST_RSP, lp_guest_rsp plan); (F.GUEST_RFLAGS, 2%N);
   (F.VMCS_LINK_POINTER, umax 64); (F.GUEST_IA32_DEBUGCTL, 0%N); (F.GUEST_DR7, 0x400%N);
   (F.GUEST_SYSENTER_CS, 0%N); (F.GUEST_SYSENTER_ESP, 0%N); (F.GUEST_SYSENTER_EIP, 0%N);
   (F.GUEST_INTERRUPTIBILITY, 0%N); (F.GUEST_ACTIVITY_STATE, 0%N); (F.GUEST_PENDING_DBG_EXC, 0%N)].

(** [write_vmcs]: the MSRs behind the controls are read before the first
    write, those behind CR0 and CR4 after the controls. *)
Definition write_vmcs (plan : LaunchPlan) : M unit :=
  c ← get_st;
  _ ← vmwrites (control_fields c plan);
  c ← get_st;
  vmwrites (guest_fields c plan).
End vmx.

(** ** region.rs and the loading of a guest *)
Section memory.
Context {P : Type} `{FrameProvider P}.

Definition alloc_in_pool (revision : N) : st P HyperError N :=
  pa ← alloc_zeroed;
  _ ← modify (write_entry pa 0 revision);
  mret pa.

Definition GUEST_FLAGS : N :=
  N.lor (N.lor (N.lor EptFlags.READ EptFlags.WRITE) EptFlags.EXEC) EptFlags.MT_WB.

Definition install_first_guest (blob : bytes) : st P HyperError Ept :=
  _ ← bail_if (PAGE_SIZE <? blen blob)%N (Hardware "guest blob > 4 KiB");
  ept ← ept_new;
  hpa ← alloc_zeroed;
  _ ← modify (copy_bytes hpa blob);
  _ ← map_4k ept 0x1000 hpa GUEST_FLAGS;
  mret ept.
End memory.

(** ** What the manual documents of the instructions *)

(** The tables the current VMCS points to. *)
Definition eptp_root (eptp : N) : Ept := mkEpt (N.land eptp ADDR_MASK).

(** The fields of a VMCS that decide how its guest reaches memory, and when
    they say through the tables of [EPT_POINTER]: "enable EPT" counts only
    under "activate secondary controls". *)
Definition exec_fields : list N :=
  [F.CPU_BASED_VM_EXEC_CTL; F.SECONDARY_VM_EXEC_CTL; F.EPT_POINTER].
Definition ept_in_force (field : N → N) : bool :=
  N.testbit (field F.CPU_BASED_VM_EXEC_CTL) 31 && N.testbit (field F.SECONDARY_VM_EXEC_CTL) 1.

Class CpuLaws (C P : Type) `{Cpu C P} `{FrameLaws P} := {
  (** The processor has secondary controls and EPT: the capability MSRs,
      which are constants, let the two controls be 1. *)
  law_has_ept c :
    N.testbit (rdmsr c (ctl_msr c IA32_VMX_TRUE_PROCBASED_CTLS IA32_VMX_PROCBASED_CTLS)) 63 = true ∧
    N.testbit (rdmsr c IA32_VMX_PROCBASED_CTLS2) 33 = true;
  cpu_current : C → option N;              (** the current VMCS *)
  cpu_field : C → N → N → N;               (** a field of the VMCS at an address *)
  law_vmclear pa c : let '(_, c') := hw_vmclear pa c in
    ∀ q f, q ≠ pa → cpu_field c' q f = cpu_field c q f;
  law_vmptrld pa c : let '(fl, c') := hw_vmptrld pa c in
    (∀ q f, cpu_field c' q f = cpu_field c q f) ∧
    (check_vmx_status fl = Ok tt → cpu_current c' = Some pa);
  law_vmwrite f v c : let '(fl, c') := hw_vmwrite f v c in
    cpu_current c' = cpu_current c ∧
    (∀ q g, Some q ≠ cpu_current c ∨ g ≠ f → cpu_field c' q g = cpu_field c q g) ∧
    (check_vmx_status fl = Ok tt → ∀ q, cpu_current c = Some q → cpu_field c' q f = v);
  (** Entering a guest and leaving it writes no execution control.  With EPT
      in force, and only then, the guest writes memory through its tables
      alone.  (A guest may also use I/O ports, which the launch does not
      intercept: the devices behind them are taken to write no memory.) *)
  law_vmlaunch c p cur :
    cpu_current c = Some cur → ept_in_force (cpu_field c cur) = true →
    let '(_, (c', p')) := hw_vmlaunch c p in
    (∀ q f, f ∈ exec_fields → cpu_field c' q f = cpu_field c q f) ∧
    (∀ n, fp_room n p → fp_room n p') ∧
    ∀ frame, fp_owned p frame → fp_owned p' frame ∧
      ((∀ gpa h,
          translate (eptp_root (cpu_field c cur F.EPT_POINTER)) p gpa = Ok h →
          N.land h ADDR_MASK ≠ frame) →
       (∀ i, (i < ENTRIES_PER_TABLE)%N → read_entry p' frame i = read_entry p frame i) ∧
       ∀ k, (k < PAGE_SIZE)%N → peek p' (frame + k) = peek p (frame + k))
}.
