(* ===== verification/Manager.v ===== *)
(** * Manager: the VM manager of the kernel

    crates/celhyper/src/manager.rs, sched.rs and the exit dispatcher of
    vmx/exit.rs over one kernel state: physical memory, the processor, the
    fixed table of VMs with its occupied and deleted bitmaps, the round-robin
    cursor and the active VM.  The kernel runs on one processor, so each entry
    point is one computation; logging and metrics counters are left out. *)
From S2P Require Import Prelude.
From S2P Require Import Text.
From S2P Require Import Vault.
From S2P Require Import HyperErr.
From S2P Require Import Ept.
From S2P Require Import Vm.
From S2P Require Import Vmx.
From Stdlib Require Import Strings.Byte.

Definition MAX_VMS : N := 4.
(** [0..MAX_VMS]. *)
Definition slots : list N := [0; 1; 2; 3]%N.

Record Kernel (C P : Type) := mkKernel {
  k_frames : P;
  k_cpu : C;
  k_ready : bool;               (** [RUNTIME_READY] *)
  k_occupied : N;               (** [OCCUPIED], u32 bitmap *)
  k_registry : gmap N Vm;       (** [REGISTRY], by slot *)
  k_deleted : N;                (** [DELETED], u32 bitmap *)
  k_cursor : N;                 (** [RR_CURSOR], u32 *)
  k_active : option N           (** [sched::ACTIVE], the VM's slot *)
}.
Arguments mkKernel {C P}.
Arguments k_frames {C P}.
Arguments k_cpu {C P}.
Arguments k_ready {C P}.
Arguments k_occupied {C P}.
Arguments k_registry {C P}.
Arguments k_deleted {C P}.
Arguments k_cursor {C P}.
Arguments k_active {C P}.

Record CreateVmRequest := mkCreateVmRequest {
  req_blob : bytes; req_guest_rip : N; req_guest_rsp : N
}.

Inductive ExitKind := KHlt | KCrAccess | KEptViolation | KOther (reason : N).

Record VmListEntry := mkVmListEntry {
  ls_id : N; ls_state : VmState; ls_last_exit : option N
}.

Section manager.
Context {C P : Type} `{Cpu C P} `{FrameProvider P}.
Abbreviation K := (Kernel C P).
Abbreviation M := (st K HyperError).

Definition set_frames (p : P) (k : K) : K :=
  mkKernel p (k_cpu k) (k_ready k) (k_occupied k) (k_registry k) (k_deleted k) (k_cursor k) (k_active k).
Definition set_cpu (c : C) (k : K) : K :=
  mkKernel (k_frames k) c (k_ready k) (k_occupied k) (k_registry k) (k_deleted k) (k_cursor k) (k_active k).
Definition set_ready (b : bool) (k : K) : K :=
  mkKernel (k_frames k) (k_cpu k) b (k_occupied k) (k_registry k) (k_deleted k) (k_cursor k) (k_active k).
Definition set_occupied (n : N) (k : K) : K :=
  mkKernel (k_frames k) (k_cpu k) (k_ready k) n (k_registry k) (k_deleted k) (k_cursor k) (k_active k).
Definition set_registry (r : gmap N Vm) (k : K) : K :=
  mkKernel (k_frames k) (k_cpu k) (k_ready k) (k_occupied k) r (k_deleted k) (k_cursor k) (k_active k).
Definition set_deleted (n : N) (k : K) : K :=
  mkKernel (k_frames k) (k_cpu k) (k_ready k) (k_occupied k) (k_registry k) n (k_cursor k) (k_active k).
Definition set_cursor (n : N) (k : K) : K :=
  mkKernel (k_frames k) (k_cpu k) (k_ready k) (k_occupied k) (k_registry k) (k_deleted k) n (k_active k).
Definition set_active_slot (a : option N) (k : K) : K :=
  mkKernel (k_frames k) (k_cpu k) (k_ready k) (k_occupied k) (k_registry k) (k_deleted k) (k_cursor k) a.

Definition on_frames {A} (m : st P HyperError A) : M A := zoom k_frames set_frames m.
Definition on_cpu {A} (m : st C HyperError A) : M A := zoom k_cpu set_cpu m.

Definition lookup (id : N) (k : K) : HyperResult Vm :=
  if (MAX_VMS <=? id)%N then Err (Denied "manager: VmId out of range")
  else ok_or (k_registry k !! id) (Denied "manager: VmId not allocated").

(** A method of the [Vm] in a slot known to be allocated. *)
Definition on_vm {A} (id : N) (v : Vm) (m : st Vm HyperError A) : M A := λ k,
  let '(r, v') := m (default v (k_registry k !! id)) in
  (r, set_registry (<[id := v']> (k_registry k)) k).

(** ** sched.rs *)
Definition set_active (id : N) (vm : Vm) : M unit :=
  _ ← on_cpu (vmptrld (vm_vmcs_pa vm));
  modify (set_active_slot (Some id)).

Definition clear_active : M (option N) :=
  k ← get_st; _ ← modify (set_active_slot None); mret (k_active k).

Definition dispatch_exit (basic_reason : N) (outcome : ExitOutcome) : M VmState :=
  k ← get_st;
  id ← try (ok_or (k_active k) (Denied "scheduler: no active VM"));
  vm ← try (ok_or (k_registry k !! id) (Denied "scheduler: no active VM"));
  on_vm id vm (on_exit basic_reason outcome).

(** ** exit.rs *)
Definition read_exit (c : C) : HyperResult ExitKind :=
  raw ← vmread F.EXIT_REASON c;
  if flag raw 31 then Err (Hardware "vm-exit on entry failure")
  else
    let basic := N.land raw 0xFFFF in
    Ok (if (basic =? F.EXIT_REASON_HLT)%N then KHlt
        else if (basic =? F.EXIT_REASON_CR_ACCESS)%N then KCrAccess
        else if (basic =? F.EXIT_REASON_EPT_VIOLATION)%N then KEptViolation
        else KOther basic).

(** [let _ = ...]. *)
Definition dropped {A} (m : M A) : M unit := λ k, (Ok tt, (m k).2).

Definition vm_exit_dispatch : M unit :=
  k ← get_st;
  match read_exit (k_cpu k) with
  | Ok KHlt => dropped (dispatch_exit F.EXIT_REASON_HLT OHalted)
  | Ok KCrAccess => dropped (dispatch_exit F.EXIT_REASON_CR_ACCESS OFaulted)
  | Ok KEptViolation => dropped (dispatch_exit F.EXIT_REASON_EPT_VIOLATION OFaulted)
  | Ok (KOther r) => dropped (dispatch_exit r OFaulted)
  | Err _ => mret tt
  end.

(** ** Runtime and creation *)
Definition init_runtime : M unit :=
  k ← get_st;
  _ ← modify (set_ready true);
  _ ← bail_if (k_ready k) (Denied "manager: runtime already initialised");
  _ ← try (ensure_vmx_available (k_cpu k));
  rev ← try (revision_id (k_cpu k));
  vmxon_pa ← on_frames (alloc_in_pool rev);
  on_cpu (enable vmxon_pa).

Definition reserve_slot : M N :=
  k ← get_st;
  idx ← try (ok_or (List.find (λ i, negb (N.testbit (k_occupied k) i)) slots)
               (Exhausted "manager: VM table full"));
  _ ← modify (set_occupied (N.lor (k_occupied k) (N.shiftl 1 idx)));
  mret idx.

Definition create_vm_with (req : CreateVmRequest) : M N :=
  slot ← reserve_slot;
  ept ← on_frames (install_first_guest (req_blob req));
  k ← get_st;
  rev ← try (revision_id (k_cpu k));
  vmcs_pa ← on_frames (alloc_in_pool rev);
  _ ← on_cpu (vmclear vmcs_pa);
  _ ← on_cpu (vmptrld vmcs_pa);
  k ← get_st;
  _ ← on_cpu (write_host_state (capture (k_cpu k)) trampoline host_rsp_top);
  _ ← on_cpu (write_vmcs (mkLaunchPlan (eptp ept) (req_guest_rip req) (req_guest_rsp req)));
  _ ← modify (λ k, match k_registry k !! slot with
                   | Some _ => k
                   | None => set_registry (<[slot := vm_new slot vmcs_pa (eptp ept)]> (k_registry k)) k
                   end);
  mret slot.

Definition create_vm (req : CreateVmRequest) : M N :=
  k ← get_st;
  _ ← bail_if (negb (k_ready k)) (Denied "manager: runtime not initialised");
  create_vm_with req.

(** The answer of a failed [vmlaunch]. *)
Definition vmlaunch_result (rflags : N) : HyperResult unit :=
  if flag rflags 0 then Err (Hardware "vmlaunch: VMfailInvalid")
  else if flag rflags 6 then Err (Hardware "vmlaunch: VMfailValid")
  else Err (Internal "vmlaunch returned without entering guest").

(** [start_vm]: when the guest ran, the dispatcher has come back through
    [longjmp]. *)
Definition start_vm (id : N) : M unit :=
  k ← get_st;
  vm ← try (lookup id k);
  _ ← set_active id vm;
  _ ← on_vm id vm mark_running;
  k ← get_st;
  let '(launched, (c, p)) := hw_vmlaunch (k_cpu k) (k_frames k) in
  _ ← modify (λ k, set_frames p (set_cpu c k));
  match launched with
  | None => vm_exit_dispatch
  | Some rflags =>
      match vmlaunch_result rflags with
      | Ok _ => mret tt
      | Err (Internal _) | Err (Hardware _) => dropped (on_vm id vm vm_stop)
      | Err other => mthrow other
      end
  end.

Definition stop_vm (id : N) : M unit :=
  k ← get_st;
  vm ← try (lookup id k);
  if is_terminal (vm_state vm) then mret tt else on_vm id vm vm_stop.

Definition delete_vm (id : N) : M unit :=
  k ← get_st;
  vm ← try (lookup id k);
  _ ← bail_if (negb (is_terminal (vm_state vm))) (Invalid "manager: vm not terminal");
  let bit := N.shiftl 1 id in
  let old := k_deleted k in
  _ ← modify (set_deleted (N.lor old bit));
  bail_if (negb (N.land old bit =? 0)%N) (Denied "manager: vm already deleted").

Definition get_vm_state (id : N) (k : K) : HyperResult VmState := vm_state <$> lookup id k.
Definition vm_last_exit (id : N) (k : K) : HyperResult (option N) := last_exit_reason <$> lookup id k.

(** [count_ones] on 32 bits. *)
Definition vm_count (k : K) : nat :=
  length (List.filter (λ i, N.testbit (k_occupied k) (N.of_nat i)) (seq 0 32)).

Definition list_entry (k : K) (i : N) : option VmListEntry :=
  if negb (N.land (k_deleted k) (N.shiftl 1 i) =? 0)%N then None
  else
    vm ← k_registry k !! i;
    Some (mkVmListEntry i (vm_state vm) (last_exit_reason vm)).
Definition list_vms (k : K) : list (option VmListEntry) * nat :=
  let out := list_entry k <$> slots in
  (out, length (omap id out)).

(** ** Paths *)
Definition VM_NAMESPACE_ROOT : string := "/vms".
Definition U32_DECIMAL_MAX : N := 10.

Definition parse_u32 (s : string) : option N :=
  if str_is_empty s then None else parse_digits 32 0 s.

Definition resolve_path (path : string) (k : K) : HyperResult N :=
  stripped ← ok_or (strip_prefix VM_NAMESPACE_ROOT path) (Invalid "path: missing /vms root");
  suffix ← ok_or (strip_prefix "/" stripped) (Invalid "path: expected /vms/<n>");
  if str_is_empty suffix || contains_char "/" suffix
  then Err (Invalid "path: expected exactly one segment")
  else
    idx ← ok_or (parse_u32 suffix) (Invalid "path: VM id is not a u32");
    _ ← lookup idx k;
    Ok idx.

(** The digits of [format_u32], least significant first; [None] if the buffer
    of [U32_DECIMAL_MAX] bytes would overflow. *)
Fixpoint decimal_digits (buf : nat) (n : N) : option (list ascii) :=
  if (n =? 0)%N then Some []
  else match buf with
       | O => None
       | S buf' => ds ← decimal_digits buf' (n / 10);
                   Some (ascii_of_N (48 + n mod 10) :: ds)
       end.
Fixpoint string_of (l : list ascii) : string :=
  match l with [] => EmptyString | c :: l' => String c (string_of l') end.
Definition format_u32 (n : N) : option string :=
  if (n =? 0)%N then Some "0"
  else string_of ∘ reverse <$> decimal_digits (N.to_nat U32_DECIMAL_MAX) n.

(** [path_for] into a buffer of [buf] bytes; [None] is the out-of-bounds panic
    of [format_u32]. *)
Definition path_for (id : N) (buf : N) : option (HyperResult string) :=
  if (buf <? len VM_NAMESPACE_ROOT + 1 + U32_DECIMAL_MAX)%N
  then Some (Err (Exhausted "path_for: buffer too small"))
  else d ← format_u32 id; Some (Ok (VM_NAMESPACE_ROOT +:+ String "/" d)).

(** ** Round-robin *)
Fixpoint next_from (offsets : list N) (start : N) (k : K) : option (N * N) :=
  match offsets with
  | [] => None
  | o :: os =>
      let i := ((start + o) mod MAX_VMS)%N in
      match k_registry k !! i with
      | Some vm => if decide (vm_state vm = Created) then Some (i, ((i + 1) mod MAX_VMS)%N)
                   else next_from os start k
      | None => next_from os start k
      end
  end.
Definition next_runnable (k : K) : option N * K :=
  match next_from slots (k_cursor k) k with
  | Some (i, next) => (Some i, set_cursor next k)
  | None => (None, k)
  end.
Definition reset_runqueue_cursor (k : K) : K := set_cursor 0 k.

(** ** [VmNamespace] *)
Definition namespace_new (cap : Capability) : HyperResult Capability :=
  _ ← match object cap with
      | OVm _ => Ok tt
      | _ => Err (Denied "VmNamespace: cap is not a Vm object")
      end;
  _ ← check cap Rights.INVOKE;
  Ok cap.

Definition ns_create_vm (cap : Capability) (req : CreateVmRequest) : M N :=
  _ ← try (check cap (N.lor Rights.INVOKE Rights.WRITE)); create_vm req.
Definition ns_start_vm (cap : Capability) (id : N) : M unit :=
  _ ← try (check cap Rights.INVOKE); start_vm id.
Definition ns_stop_vm (cap : Capability) (id : N) : M unit :=
  _ ← try (check cap (N.lor Rights.INVOKE Rights.WRITE)); stop_vm id.
Definition ns_vm_state (cap : Capability) (id : N) (k : K) : HyperResult VmState :=
  _ ← check cap Rights.READ; get_vm_state id k.
Definition ns_vm_last_exit (cap : Capability) (id : N) (k : K) : HyperResult (option N) :=
  _ ← check cap Rights.READ; vm_last_exit id k.
Definition ns_list_vms (cap : Capability) (k : K) : HyperResult (list (option VmListEntry) * nat) :=
  _ ← check cap Rights.READ; Ok (list_vms k).
Definition ns_vm_count (cap : Capability) (k : K) : HyperResult nat :=
  _ ← check cap Rights.READ; Ok (vm_count k).
Definition ns_resolve_path (cap : Capability) (path : string) (k : K) : HyperResult N :=
  _ ← check cap Rights.READ; resolve_path path k.
Definition ns_path_for (cap : Capability) (id buf : N) : option (HyperResult string) :=
  match check cap Rights.READ with Err e => Some (Err e) | Ok _ => path_for id buf end.
End manager.
