(* ===== verification/ManagerProofs.v ===== *)
(** * ManagerProofs: guests are isolated and follow their lifecycle

    The invariant of the kernel state: every VM has page tables of its own
    that map one page, its memory, its tables and its VMCS are frames no other
    VM uses, and the VMCS points to its tables.  Every entry point preserves
    it. *)
From S2P Require Import Prelude.
From S2P Require Import Text.
From S2P Require Import Vault.
From S2P Require Import HyperErr.
From S2P Require Import Ept.
From S2P Require Import EptProofs.
From S2P Require Import Vm.
From S2P Require Import Vmx.
From S2P Require Import Manager.
From Stdlib Require Import Strings.Byte.

(** ** Memory *)
Section memory.
Context {P : Type} `{FrameLaws P}.
Implicit Types (p : P) (root frame : N).

(** Every owned frame outside [X] is as it was. *)
Definition same_but (X : N → Prop) p p' : Prop :=
  ∀ q, fp_owned p q → fp_owned p' q ∧
    (¬ X q → (∀ i, (i < ENTRIES_PER_TABLE)%N → read_entry p' q i = read_entry p q i) ∧
             ∀ k, (k < PAGE_SIZE)%N → peek p' (q + k) = peek p (q + k)).
Abbreviation untouched := (same_but (λ _, False)).

Lemma same_but_refl X p : same_but X p p.
Proof. intros q Hq. done. Qed.
Lemma same_but_trans X p1 p2 p3 : same_but X p1 p2 → same_but X p2 p3 → same_but X p1 p3.
Proof.
  intros H12 H23 q Hq. destruct (H12 q Hq) as [Hq2 S12]. destruct (H23 q Hq2) as [Hq3 S23].
  split; [done|]. intros Hx. destruct (S12 Hx) as [R12 K12]. destruct (S23 Hx) as [R23 K23].
  split; intros; [by rewrite R23, R12|by rewrite K23, K12].
Qed.

Lemma root_in_tree p root : in_tree p root root.
Proof. exists []. split; [split; [simpl; lia|constructor]|done]. Qed.
Lemma tree_owned p root q : tree_ok p root → in_tree p root q → fp_owned p q.
Proof. intros [Ho _] (path&?&?). by eapply Ho. Qed.

(** A tree outside [X] is as it was. *)
Lemma node_same_but X p p' root path :
  same_but X p p' → tree_ok p root → (∀ q, in_tree p root q → ¬ X q) → path_ok path →
  node p' root path = node p root path.
Proof.
  intros Hs [Hown Hinj] Hx. induction path as [|i path IH] using rev_ind; [done|].
  intros [Hp [Hl Hi]]%path_ok_snoc. rewrite !node_snoc, IH by done.
  destruct (node p root path) as [t|] eqn:E; simpl; [|done]. unfold next.
  destruct (Hs t) as [_ Hr]; [by eapply Hown|].
  destruct Hr as [-> _]; [|done|done]. apply Hx. by exists path.
Qed.

Lemma tree_same_but X p p' root :
  same_but X p p' → tree_ok p root → (∀ q, in_tree p root q → ¬ X q) →
  tree_ok p' root ∧ (∀ q, in_tree p' root q ↔ in_tree p root q) ∧
  ∀ pth j, path_ok pth → length pth = 3 → (j < ENTRIES_PER_TABLE)%N →
    leaf p' root pth j = leaf p root pth j.
Proof.
  intros Hs Ht Hx.
  assert (∀ path, path_ok path → node p' root path = node p root path) as Hn
    by (intros; by eapply node_same_but).
  split; [split|split].
  - intros path t Hp. rewrite Hn by done. intros. apply Hs. by eapply Ht.
  - intros p1 p2 t Hp1 Hp2. rewrite !Hn by done. by apply Ht.
  - intros q. split; intros (path&Hp&Hq); exists path; (split; [done|]).
    + by rewrite <-Hn.
    + by rewrite Hn.
  - intros pth j Hp H3 Hj. unfold leaf. rewrite Hn by done.
    destruct (node p root pth) as [t|] eqn:E; simpl; [|done].
    destruct (Hs t) as [_ Hr]; [by eapply Ht|]. destruct Hr as [-> _]; [|done|done].
    apply Hx. by exists pth.
Qed.

(** The memory of a guest: tables that map the page at 0x1000 to [frame]. *)
Definition guest_mem p root frame : Prop :=
  tree_ok p root ∧ fp_owned p frame ∧ ¬ in_tree p root frame ∧
  ∀ gpa, if decide (page_of gpa = 1%N)
         then ∃ l, leaf p root (gpa_path gpa) (idx gpa 0) = Some l ∧ N.land l ADDR_MASK = frame
         else leaf p root (gpa_path gpa) (idx gpa 0) = None.

Lemma guest_mem_same_but X p p' root frame :
  same_but X p p' → guest_mem p root frame → (∀ q, in_tree p root q → ¬ X q) →
  guest_mem p' root frame ∧ ∀ q, in_tree p' root q ↔ in_tree p root q.
Proof.
  intros Hs (Ht&Ho&Hni&Hl) Hx. destruct (tree_same_but X p p' root Hs Ht Hx) as (Ht'&Hin&Hlf).
  split; [|done]. split; [done|]. split; [by apply Hs|]. split; [by rewrite Hin|].
  intros gpa. rewrite Hlf by (apply gpa_path_ok || done || apply idx_bound). apply Hl.
Qed.

Lemma guest_translate p root frame gpa :
  guest_mem p root frame → page_addr frame →
  if decide (page_of gpa = 1%N)
  then translate (mkEpt root) p gpa = Ok (frame + gpa mod PAGE_SIZE)%N
  else is_ok (translate (mkEpt root) p gpa) = false.
Proof.
  intros (_&_&_&Hl) Hpg. specialize (Hl gpa).
  pose proof (translate_leaf (mkEpt root) p gpa) as Ht. cbn [pml4] in Ht. case_decide.
  - destruct Hl as (l&El&Ef). rewrite El in Ht. rewrite Ht, Ef. f_equal.
    change 0xFFF%N with (N.ones 12). rewrite N.land_ones. apply frame_offset; [done|].
    by apply N.mod_lt.
  - by rewrite Hl in Ht.
Qed.

(** A stamped page of the pool. *)
Lemma alloc_in_pool_spec rev p n :
  fits 64 rev → fp_room (S n) p →
  let '(r, p') := alloc_in_pool rev p in
  fp_room n p' ∧ untouched p p' ∧
  match r with Ok pa => ¬ fp_owned p pa ∧ fp_owned p' pa | Err _ => True end.
Proof.
  intros Hrev Hr. unfold alloc_in_pool, mbind, st_bind. pose proof (law_alloc p n Hr) as Ha.
  destruct (alloc_zeroed p) as [[pa|e] p1]; destruct Ha as (Hroom&Hk&Hm); simpl.
  - destruct Hm as (Hnew&Hown&_).
    destruct (law_write p1 pa 0 rev Hown ltac:(done) Hrev) as [Hrw Hw].
    split; [by apply Hrw|]. split; [|split; [done|by apply Hw]].
    intros q Hq. destruct (Hk q Hq) as (Hq1&Hr1&Hk1). destruct (Hw q Hq1) as (Hq2&Hr2&Hk2).
    assert (q ≠ pa) as Hne by (intros ->; done). split; [done|]. intros _. split.
    + intros i Hi. rewrite Hr2 by done. rewrite decide_False by tauto. by apply Hr1.
    + intros k Hkk. rewrite Hk2 by done. by apply Hk1.
  - split; [done|]. split; [|done]. intros q Hq. destruct (Hk q Hq) as (?&?&?). done.
Qed.

Lemma guest_flags_ok : (GUEST_FLAGS < 128)%N.
Proof. by vm_compute. Qed.

(** Installing a guest uses fresh frames only. *)
Lemma install_spec blob p n :
  fp_room (5 + n) p →
  let '(r, p') := install_first_guest blob p in
  fp_room n p' ∧ untouched p p' ∧
  match r with
  | Ok e => ∃ frame, page_addr (pml4 e) ∧ guest_mem p' (pml4 e) frame ∧ ¬ fp_owned p frame ∧
      (∀ t, in_tree p' (pml4 e) t → ¬ fp_owned p t) ∧
      (∀ k b, blob !! k = Some b → peek p' (frame + N.of_nat k) = b) ∧ (blen blob ≤ PAGE_SIZE)%N
  | Err _ => True
  end.
Proof.
  intros Hr. unfold install_first_guest.
  assert (fp_room n p) as Hrn by (eapply law_room; [|exact Hr]; lia).
  unfold bail_if. destruct (N.ltb_spec PAGE_SIZE (blen blob)) as [|Hblob].
  { split; [done|]. split; [apply same_but_refl|done]. }
  erewrite bind_pure by reflexivity. unfold mbind at 1, st_bind.
  pose proof (new_spec p (4 + n) Hr) as Hn. destruct (ept_new p) as [[e|err] p1];
    destruct Hn as (Hr1&Hk1&Hm); cycle 1.
  { split; [eapply law_room; [|exact Hr1]; lia|]. split; [|done].
    intros q Hq. destruct (Hk1 q Hq) as (?&?&?). done. }
  destruct Hm as (Ht1&Hnew1&Hroot&Hleaf1).
  assert (untouched p p1) as U1 by (intros q Hq; destruct (Hk1 q Hq) as (?&?&?); done).
  unfold mbind at 1, st_bind. pose proof (law_alloc p1 (3 + n) Hr1) as Ha.
  destruct (alloc_zeroed p1) as [[frame|err] p2] eqn:E2; destruct Ha as (Hr2&Hk2&Hm2); cycle 1.
  { split; [eapply law_room; [|exact Hr2]; lia|]. split; [|done]. eapply same_but_trans; [exact U1|].
    intros q Hq. destruct (Hk2 q Hq) as (?&?&?). done. }
  destruct Hm2 as (Hnew2&Hown2&_).
  destruct (alloc_grows _ _ _ _ _ Ht1 Hr1 E2) as (Ht2&_&G2&Hnode2).
  assert (untouched p1 p2) as U2 by (intros q Hq; destruct (Hk2 q Hq) as (?&?&?); done).
  unfold mbind at 1, st_bind, modify.
  destruct (law_copy p2 frame blob Hown2 Hblob) as (Hrc&Hbytes&Hc).
  set (p3 := copy_bytes frame blob p2) in *.
  assert (∀ q, in_tree p2 (pml4 e) q → in_tree p1 (pml4 e) q) as Hin2.
  { intros q (pth&Hp&Hn). exists pth. by rewrite <-Hnode2. }
  assert (∀ q, in_tree p1 (pml4 e) q → q ≠ frame) as Hnf1.
  { intros q (pth&Hp&Hn) ->. apply Hnew2. by eapply Ht1. }
  assert (same_but (λ q, q = frame) p2 p3) as U3.
  { intros q Hq. destruct (Hc q Hq) as (?&Hs). split; [done|]. intros Hne. by apply Hs. }
  destruct (tree_same_but _ _ _ (pml4 e) U3 Ht2) as (Ht3&Hin3&Hleaf3).
  { intros q Hq. by apply Hnf1, Hin2. }
  assert (page_addr frame) as Hpf by by eapply law_page.
  pose proof Hpf as [_ Hf52]%page_addr_spec.
  assert (request_ok frame GUEST_FLAGS) as Hreq by (split; [exact Hf52|apply guest_flags_ok]).
  assert (fp_room (3 + n) p3) as Hr3 by by apply Hrc.
  pose proof (map_4k_spec e 0x1000 frame GUEST_FLAGS p3 n Ht3 Hr3 Hreq) as Hmap.
  unfold mbind, st_bind. destruct (map_4k e 0x1000 frame GUEST_FLAGS p3) as [r p4] eqn:E4.
  assert (untouched p p4) as U4.
  { intros q Hq. destruct (U1 q Hq) as [Hq1 S1]. destruct (U2 q Hq1) as [Hq2 S2].
    assert (q ≠ frame) as Hne by (intros ->; done).
    destruct (U3 q Hq2) as [Hq3 S3]. destruct (S3 Hne) as [R3 K3].
    destruct (S1 id) as [R1 K1]. destruct (S2 id) as [R2 K2].
    destruct (mapped_outside _ _ _ _ _ Hmap q Hq3) as (_&R4&K4).
    { rewrite Hin3. intros Hi%Hin2%Hroot. by subst q. }
    split; [by eapply mapped_owned|]. intros _.
    split; intros; [by rewrite R4, R3, R2, R1|by rewrite K4, K3, K2, K1]. }
  destruct r as [[]|err]; simpl; (split; [by eapply mapped_room|]; split; [done|]); [|done].
  exists frame. split; [eapply law_page, tree_owned; [exact Ht1|apply root_in_tree]|].
  assert (∀ q, in_tree p4 (pml4 e) q → q = pml4 e ∨ ¬ fp_owned p3 q) as Hin4.
  { intros q [Hi|Hn]%(mapped_new _ _ _ _ _ Hmap); [|by right]. left. by apply Hroot, Hin2, Hin3. }
  assert (fp_owned p3 frame) as Hof3 by by apply Hc.
  assert (¬ in_tree p4 (pml4 e) frame) as Hnt4.
  { intros [Hi|Hn]%Hin4; [|done]. apply (Hnf1 (pml4 e)); [apply root_in_tree|done]. }
  split; [split; [by eapply mapped_tree|split; [by eapply mapped_owned|split; [done|]]]|split; [|split; [|split; [|done]]]].
  - intros gpa. rewrite (mapped_leaf _ _ _ _ _ Hmap) by (apply gpa_path_ok || done || apply idx_bound).
    cbn [is_ok].
    assert (leaf p3 (pml4 e) (gpa_path gpa) (idx gpa 0) = None) as Hnone.
    { rewrite Hleaf3 by (apply gpa_path_ok || done || apply idx_bound).
      rewrite (grows_leaf _ _ _ G2) by (apply gpa_path_ok || done || apply idx_bound).
      apply Hleaf1; [apply gpa_path_ok|done]. }
    assert (page_of gpa = 1%N ↔ gpa_path gpa = gpa_path 0x1000 ∧ idx gpa 0 = idx 0x1000 0) as Hpage.
    { rewrite same_page. by change (page_of 0x1000) with 1%N. }
    destruct (decide (page_of gpa = 1%N)) as [E|E].
    + rewrite decide_True by by apply Hpage. exists (N.lor frame GUEST_FLAGS). split; [done|].
      apply entry_addr; [done|]. by vm_compute.
    + rewrite decide_False; [done|]. by rewrite <-Hpage.
  - intros Hq. destruct (U1 _ Hq) as [? _]. done.
  - intros t [->|Hn]%Hin4; [done|]. intros Hq. apply Hn.
    destruct (U1 _ Hq) as [Hq1 _]. destruct (U2 _ Hq1) as [Hq2 _]. by destruct (U3 _ Hq2).
  - intros k b Hb. assert (k < length blob)%nat by by eapply lookup_lt_Some.
    assert (¬ in_tree p3 (pml4 e) frame) as Hnt3 by (rewrite Hin3; intros Hi%Hin2%Hnf1; done).
    destruct (mapped_outside _ _ _ _ _ Hmap frame Hof3 Hnt3) as (_&_&Hk4).
    rewrite Hk4 by (unfold blen in Hblob; lia). by apply Hbytes.
Qed.
End memory.

(** ** The processor *)
Section cpu.
Context {C P : Type} `{CpuLaws C P}.

Lemma vmwrites_spec l c :
  NoDup l.*1 →
  let '(r, c') := vmwrites l c in
  cpu_current c' = cpu_current c ∧
  (∀ q g, Some q ≠ cpu_current c ∨ g ∉ l.*1 → cpu_field c' q g = cpu_field c q g) ∧
  (r = Ok tt → ∀ q f v, cpu_current c = Some q → (f, v) ∈ l → cpu_field c' q f = v).
Proof.
  revert c. induction l as [|[f v] l IH]; intros c Hnd.
  - simpl. split; [done|]. split; [done|]. intros _ q f v _ []%elem_of_nil.
  - apply NoDup_cons in Hnd as [Hni Hnd]. cbn [vmwrites fst fmap list_fmap].
    unfold vmwrite, mbind, st_bind. pose proof (law_vmwrite f v c) as Hw.
    destruct (hw_vmwrite f v c) as [fl c1]. destruct Hw as (Hc1&Hf1&Hok).
    destruct (check_vmx_status fl) as [[]|e].
    + specialize (IH c1 Hnd). destruct (vmwrites l c1) as [r c2]. destruct IH as (Hc2&Hf2&Hr2).
      split; [congruence|]. split.
      * intros q g Hg. rewrite Hf2, Hf1; [done| |].
        -- destruct Hg as [?|Hg]; [by left|]. right. set_solver.
        -- destruct Hg as [?|Hg]; [left; congruence|]. right. set_solver.
      * intros -> q g w Hq [[= -> ->]|Hin]%elem_of_cons.
        -- rewrite Hf2; [by apply Hok|]. by right.
        -- apply Hr2; [done|congruence|done].
    + split; [done|]. split; [|done]. intros q g Hg. apply Hf1.
      destruct Hg as [?|Hg]; [by left|]. right. set_solver.
Qed.

Lemma host_fields_nodup h a b : NoDup (host_fields h a b).*1.
Proof. apply (bool_decide_unpack _). by vm_compute. Qed.
Lemma control_fields_nodup c plan : NoDup (control_fields c plan).*1.
Proof. apply (bool_decide_unpack _). by vm_compute. Qed.
Lemma guest_fields_nodup c plan : NoDup (guest_fields c plan).*1.
Proof. apply (bool_decide_unpack _). by vm_compute. Qed.
Lemma host_fields_ept h a b : F.EPT_POINTER ∉ (host_fields h a b).*1.
Proof. apply (bool_decide_unpack _). by vm_compute. Qed.
Lemma guest_fields_ept c plan : F.EPT_POINTER ∉ (guest_fields c plan).*1.
Proof. apply (bool_decide_unpack _). by vm_compute. Qed.

Lemma guest_fields_exec c plan f : f ∈ exec_fields → f ∉ (guest_fields c plan).*1.
Proof.
  revert f. apply (Forall_forall (λ f, f ∉ (guest_fields c plan).*1)).
  apply (bool_decide_unpack _). by vm_compute.
Qed.

(** A control that the processor lets be 1 survives [rebase_ctl]. *)
Lemma rebase_ctl_keeps c d msr b :
  (b < 32)%N → N.testbit d b = true → N.testbit (rdmsr c msr) (b + 32) = true →
  N.testbit (rebase_ctl c d msr) b = true.
Proof.
  intros Hb Hd Hm. unfold rebase_ctl.
  by rewrite !N.land_spec, N.lor_spec, Hd, N.shiftr_spec', Hm, N.ones_spec_low.
Qed.

(** Guests of the VMCS at [q] reach memory through the tables of [eptp]. *)
Definition confined c (q eptp : N) : Prop :=
  cpu_field c q F.EPT_POINTER = eptp ∧ ept_in_force (cpu_field c q) = true.
Lemma confined_same c c' q eptp :
  (∀ f, f ∈ exec_fields → cpu_field c' q f = cpu_field c q f) → confined c q eptp → confined c' q eptp.
Proof. intros Hf. unfold confined, ept_in_force. rewrite !Hf by set_solver. done. Qed.

(** Programming a VMCS leaves every other VMCS alone, and puts the plan's
    tables in force in the current one. *)
Lemma write_vmcs_spec plan c :
  let '(r, c') := write_vmcs plan c in
  cpu_current c' = cpu_current c ∧
  (∀ q g, Some q ≠ cpu_current c → cpu_field c' q g = cpu_field c q g) ∧
  (r = Ok tt → ∀ q, cpu_current c = Some q → confined c' q (lp_eptp plan)).
Proof.
  unfold write_vmcs, get_st, mbind, st_bind.
  pose proof (vmwrites_spec (control_fields c plan) c (control_fields_nodup c plan)) as H1'.
  destruct (vmwrites (control_fields c plan) c) as [[[]|e] c1]; destruct H1' as (Hc1&Hf1&Hr1).
  - pose proof (vmwrites_spec (guest_fields c1 plan) c1 (guest_fields_nodup c1 plan)) as H2'.
    destruct (vmwrites (guest_fields c1 plan) c1) as [r c2]. destruct H2' as (Hc2&Hf2&_).
    split; [congruence|]. split.
    + intros q g Hq. rewrite Hf2, Hf1; [done|by left|left; congruence].
    + intros _ q Hq. apply (confined_same c1); [intros f Hin; apply Hf2; right; by apply guest_fields_exec|].
      destruct (law_has_ept c) as [Hp Hs]. unfold confined, ept_in_force.
      split; [apply Hr1; [done..|]; unfold control_fields; set_solver|].
      erewrite (Hr1 eq_refl q F.CPU_BASED_VM_EXEC_CTL) by (done || (right; left)).
      erewrite (Hr1 eq_refl q F.SECONDARY_VM_EXEC_CTL) by (done || (right; right; left)).
      by rewrite !rebase_ctl_keeps.
  - split; [done|]. split; [|done]. intros q g Hq. apply Hf1. by left.
Qed.

Lemma write_host_spec h a b c :
  let '(r, c') := write_host_state h a b c in
  cpu_current c' = cpu_current c ∧
  (∀ q g, Some q ≠ cpu_current c → cpu_field c' q g = cpu_field c q g).
Proof.
  pose proof (vmwrites_spec (host_fields h a b) c (host_fields_nodup h a b)) as Hw.
  unfold write_host_state. destruct (vmwrites _ c) as [r c']. destruct Hw as (?&Hf&_).
  split; [done|]. intros q g Hq. apply Hf. by left.
Qed.

Lemma vmclear_spec pa c :
  let '(_, c') := vmclear pa c in ∀ q f, q ≠ pa → cpu_field c' q f = cpu_field c q f.
Proof. unfold vmclear. pose proof (law_vmclear pa c) as Hl. by destruct (hw_vmclear pa c). Qed.
Lemma vmptrld_spec pa c :
  let '(r, c') := vmptrld pa c in
  (∀ q f, cpu_field c' q f = cpu_field c q f) ∧ (r = Ok tt → cpu_current c' = Some pa).
Proof. unfold vmptrld. pose proof (law_vmptrld pa c) as Hl. by destruct (hw_vmptrld pa c). Qed.
End cpu.

(** ** The invariant *)
Section kernel.
Context {C P : Type} `{CpuLaws C P}.
Implicit Types (k : Kernel C P) (p : P) (c : C).

Definition root_of (vm : Vm) : N := N.land (vm_eptp vm) ADDR_MASK.

Definition footprint p (vm : Vm) (frame q : N) : Prop :=
  in_tree p (root_of vm) q ∨ q = frame ∨ q = vm_vmcs_pa vm.

Definition vm_good c p (i : N) (vm : Vm) (frame : N) : Prop :=
  (i < MAX_VMS)%N ∧ vm_id vm = i ∧ vm_ok vm ∧ guest_mem p (root_of vm) frame ∧
  fp_owned p (vm_vmcs_pa vm) ∧ vm_vmcs_pa vm ≠ frame ∧ ¬ in_tree p (root_of vm) (vm_vmcs_pa vm) ∧
  confined c (vm_vmcs_pa vm) (vm_eptp vm).

Definition apart p (reg : gmap N Vm) (fr : N → N) : Prop :=
  ∀ i j vi vj q, i ≠ j → reg !! i = Some vi → reg !! j = Some vj →
    footprint p vi (fr i) q → ¬ footprint p vj (fr j) q.

(** [fr] gives the frame that holds the memory of the guest in each slot. *)
Definition kinv_at (fr : N → N) k : Prop :=
  (∀ i vm, k_registry k !! i = Some vm →
     vm_good (k_cpu k) (k_frames k) i vm (fr i) ∧ N.testbit (k_occupied k) i = true) ∧
  apart (k_frames k) (k_registry k) fr ∧
  (∀ i, N.testbit (k_deleted k) i = true →
     ∃ vm, k_registry k !! i = Some vm ∧ is_terminal (vm_state vm) = true) ∧
  (k_ready k = false → k_registry k = ∅).
Definition kinv k : Prop := ∃ fr, kinv_at fr k.

(** Frames of guests are owned. *)
Lemma footprint_owned c p i vm frame q : vm_good c p i vm frame → footprint p vm frame q → fp_owned p q.
Proof.
  intros (_&_&_&(Ht&Ho&_)&Hv&_) [Hin|[-> | ->]]; [by eapply tree_owned|done|done].
Qed.

(** The processor and the memory move, no guest's tables or VMCS fields do. *)
Lemma kinv_quiet fr k k' (X : N → Prop) :
  kinv_at fr k → same_but X (k_frames k) (k_frames k') →
  (∀ i vm q, k_registry k !! i = Some vm → in_tree (k_frames k) (root_of vm) q → ¬ X q) →
  (∀ i vm f, k_registry k !! i = Some vm → f ∈ exec_fields →
     cpu_field (k_cpu k') (vm_vmcs_pa vm) f = cpu_field (k_cpu k) (vm_vmcs_pa vm) f) →
  k_registry k' = k_registry k → k_deleted k' = k_deleted k →
  (∀ i, N.testbit (k_occupied k) i = true → N.testbit (k_occupied k') i = true) →
  (k_ready k = true → k_ready k' = true) →
  kinv_at fr k' ∧
  ∀ i vm q, k_registry k !! i = Some vm →
    footprint (k_frames k') vm (fr i) q ↔ footprint (k_frames k) vm (fr i) q.
Proof.
  intros (Hg&Ha&Hd&Hrd) Hs Hx Hf Er Ed Ho Hrr.
  assert (∀ i vm q, k_registry k !! i = Some vm →
    footprint (k_frames k') vm (fr i) q ↔ footprint (k_frames k) vm (fr i) q) as Hfp.
  { intros i vm q Hi. destruct (Hg i vm Hi) as ((_&_&_&Hm&_)&_).
    destruct (guest_mem_same_but X _ _ _ _ Hs Hm (λ q, Hx i vm q Hi)) as [_ Hin].
    unfold footprint. by rewrite Hin. }
  split; [|done]. split; [|split; [|split]].
  - intros i vm Hi. rewrite Er in Hi. destruct (Hg i vm Hi) as ((?&?&?&Hm&Hv&?&?&?)&?).
    destruct (guest_mem_same_but X _ _ _ _ Hs Hm (λ q, Hx i vm q Hi)) as [Hm' Hin].
    split; [|by apply Ho]. do 4 (split; [done|]). split; [by apply Hs|]. split; [done|].
    split; [by rewrite Hin|]. eapply confined_same; [|done]. intros f. by apply (Hf i).
  - intros i j vi vj q Hij Hi Hj. rewrite Er in Hi, Hj. rewrite (Hfp i), (Hfp j) by done. by eapply Ha.
  - rewrite Er, Ed. exact Hd.
  - rewrite Er. destruct (k_ready k); [by rewrite Hrr|auto].
Qed.

(** A VM moves along its lifecycle. *)
Lemma kinv_later fr k i vm vm' :
  kinv_at fr k → k_registry k !! i = Some vm → later vm vm' → vm_ok vm' →
  kinv_at fr (set_registry (<[i := vm']> (k_registry k)) k).
Proof.
  intros (Hg&Ha&Hd&Hrd) Hi (Eid&Evm&Eep&Hst) Hok.
  assert (root_of vm' = root_of vm) as Hroot by (unfold root_of; by rewrite Eep).
  assert (∀ q, footprint (k_frames k) vm' (fr i) q ↔ footprint (k_frames k) vm (fr i) q) as Hfp.
  { intros q. unfold footprint. by rewrite Hroot, Evm. }
  split; [|split; [|split]].
  - intros j w Hj. simpl in *. destruct (decide (j = i)) as [->|].
    + rewrite lookup_insert_eq in Hj. injection Hj as <-. destruct (Hg i vm Hi) as ((?&?&?&?&?)&?).
      split; [|done]. unfold vm_good. rewrite Hroot, Evm, Eep, Eid. done.
    + rewrite lookup_insert_ne in Hj by done. by apply Hg.
  - intros a b va vb q Hab Hva Hvb. simpl in *.
    destruct (decide (a = i)) as [->|]; [rewrite lookup_insert_eq in Hva; injection Hva as <-; rewrite Hfp|
      rewrite lookup_insert_ne in Hva by done];
    (destruct (decide (b = i)) as [->|]; [rewrite lookup_insert_eq in Hvb; injection Hvb as <-; rewrite Hfp|
      rewrite lookup_insert_ne in Hvb by done]); try done; by eapply Ha.
  - intros j Hj. simpl in *. destruct (Hd j Hj) as (w&Hw&Ht). destruct (decide (j = i)) as [->|].
    + rewrite lookup_insert_eq. exists vm'. split; [done|]. simplify_eq.
      by rewrite (terminal_stays _ _ Hst).
    + exists w. by rewrite lookup_insert_ne.
  - intros Hr. simpl in *. rewrite (Hrd Hr) in Hi. done.
Qed.

Lemma revision_fits c rev : revision_id c = Ok rev → fits 64 rev.
Proof.
  unfold revision_id. destruct (flag _ _); [done|]. intros [= <-]. unfold fits.
  change 0x7FFFFFFF%N with (N.ones 31). rewrite N.land_ones.
  eapply N.lt_trans; [by apply N.mod_lt|done].
Qed.

(** The writes that make a VMCS out of a page. *)
Definition program (pa : N) (plan : LaunchPlan) : st C HyperError unit :=
  _ ← vmclear pa;
  _ ← vmptrld pa;
  c ← get_st;
  _ ← write_host_state (capture c) trampoline host_rsp_top;
  write_vmcs plan.

Lemma program_spec pa plan c :
  let '(r, c') := program pa plan c in
  (∀ q f, q ≠ pa → cpu_field c' q f = cpu_field c q f) ∧
  (r = Ok tt → confined c' pa (lp_eptp plan)).
Proof.
  unfold program, mbind, st_bind, get_st.
  pose proof (vmclear_spec pa c) as S1. destruct (vmclear pa c) as [[[]|e] c1]; [|done].
  pose proof (vmptrld_spec pa c1) as S2. destruct (vmptrld pa c1) as [[[]|e] c2]; destruct S2 as [F2 Hcur];
    [|split; [|done]; intros; rewrite F2; auto].
  specialize (Hcur eq_refl).
  pose proof (write_host_spec (capture c2) trampoline host_rsp_top c2) as S3.
  destruct (write_host_state _ _ _ c2) as [[[]|e] c3]; destruct S3 as [E3 F3].
  - pose proof (write_vmcs_spec plan c3) as S4. destruct (write_vmcs plan c3) as [r c4].
    destruct S4 as (_&F4&Hr). split; [|intros ->; apply Hr; [done|congruence]].
    intros q f Hq. rewrite F4, F3, F2 by congruence. auto.
  - split; [|done]. intros q f Hq. rewrite F3, F2 by congruence. auto.
Qed.

(** Creation, with the writes in one piece. *)
Definition publish (slot : N) (vm : Vm) k : Kernel C P :=
  match k_registry k !! slot with
  | Some _ => k
  | None => set_registry (<[slot := vm]> (k_registry k)) k
  end.
Definition create_steps (req : CreateVmRequest) : st (Kernel C P) HyperError N :=
  slot ← reserve_slot;
  ept ← on_frames (install_first_guest (req_blob req));
  k ← get_st;
  rev ← try (revision_id (k_cpu k));
  vmcs_pa ← on_frames (alloc_in_pool rev);
  _ ← on_cpu (program vmcs_pa (mkLaunchPlan (eptp ept) (req_guest_rip req) (req_guest_rsp req)));
  _ ← modify (publish slot (vm_new slot vmcs_pa (eptp ept)));
  mret slot.

Lemma create_steps_eq req k : create_vm_with req k = create_steps req k.
Proof.
  unfold create_vm_with, create_steps, program, on_cpu, on_frames, publish. unfold zoom, try, get_st, modify.
  unfold mbind, st_bind, mret, st_ret.
  destruct (reserve_slot k) as [[slot|e] k1]; [|done].
  destruct (install_first_guest _ _) as [[ept|e] p1]; [|done].
  destruct (revision_id _) as [rev|e]; [|done].
  destruct (alloc_in_pool _ _) as [[pa|e] p2]; [|done]. cbn [k_cpu set_frames set_cpu].
  destruct (vmclear pa _) as [[[]|e] c1]; [|done]. cbn [k_cpu set_frames set_cpu].
  destruct (vmptrld pa c1) as [[[]|e] c2]; [|done]. cbn [k_cpu set_frames set_cpu].
  destruct (write_host_state _ _ _ c2) as [[[]|e] c3]; [|done]. cbn [k_cpu set_frames set_cpu].
  by destruct (write_vmcs _ c3) as [[[]|e] c4].
Qed.

Lemma reserve_slot_spec k :
  let '(r, k') := reserve_slot k in
  (∃ occ, k' = set_occupied occ k ∧
    (∀ i, N.testbit (k_occupied k) i = true → N.testbit occ i = true) ∧
    match r with
    | Ok slot => (slot < MAX_VMS)%N ∧ N.testbit (k_occupied k) slot = false ∧ N.testbit occ slot = true
    | Err _ => True
    end).
Proof.
  unfold reserve_slot, mbind, st_bind, get_st, try, ok_or, modify.
  destruct (List.find _ slots) as [slot|] eqn:E.
  - apply List.find_some in E as [Hin Hf]. apply negb_true_iff in Hf.
    eexists. split; [done|]. setoid_rewrite N.lor_spec. split; [|split; [|split]].
    + intros i ->. done.
    + destruct Hin as [<-|[<-|[<-|[<-|[]]]]]; done.
    + done.
    + rewrite N.shiftl_spec_high by lia. rewrite N.sub_diag. by rewrite orb_true_r.
  - exists (k_occupied k). split; [by destruct k|]. done.
Qed.

(** A step that no guest sees. *)
Definition quiet k k' : Prop :=
  same_but (λ _, False) (k_frames k) (k_frames k') ∧
  (∀ q f, fp_owned (k_frames k) q → cpu_field (k_cpu k') q f = cpu_field (k_cpu k) q f) ∧
  k_registry k' = k_registry k ∧ k_deleted k' = k_deleted k ∧ k_ready k' = k_ready k ∧
  (∀ i, N.testbit (k_occupied k) i = true → N.testbit (k_occupied k') i = true).

Lemma quiet_refl k : quiet k k.
Proof. split; [apply same_but_refl|done]. Qed.
Lemma quiet_trans k1 k2 k3 : quiet k1 k2 → quiet k2 k3 → quiet k1 k3.
Proof.
  intros (S1&F1&R1&D1&B1&O1) (S2&F2&R2&D2&B2&O2). split; [by eapply same_but_trans|].
  split; [|split; [congruence|split; [congruence|split; [congruence|auto]]]].
  intros q f Hq. rewrite F2; [by apply F1|]. by apply S1.
Qed.
Lemma quiet_kinv fr k k' : kinv_at fr k → quiet k k' → kinv_at fr k'.
Proof.
  intros Hi (S&F&R&D&B&O). eapply kinv_quiet; [exact Hi|exact S|..]; try done.
  - intros i vm q _ _ [].
  - intros i vm f Hr _. apply F. destruct Hi as [Hg _]. by destruct (Hg i vm Hr) as ((_&_&_&_&?&_)&_).
  - congruence.
Qed.

Lemma quiet_frames k p' : same_but (λ _, False) (k_frames k) p' → quiet k (set_frames p' k).
Proof. by intros. Qed.
Lemma quiet_cpu k c' :
  (∀ q f, fp_owned (k_frames k) q → cpu_field c' q f = cpu_field (k_cpu k) q f) → quiet k (set_cpu c' k).
Proof. intros. split; [apply same_but_refl|done]. Qed.

(** What a successful creation answers: a fresh slot, its VM and memory on
    frames nobody owned. *)
Definition created (blob : bytes) k k' (slot : N) (vm : Vm) (frame : N) : Prop :=
  (slot < MAX_VMS)%N ∧ k_registry k !! slot = None ∧
  vm_id vm = slot ∧ vm_state vm = Created ∧ last_exit_reason vm = None ∧ vm_ok vm ∧
  vm_good (k_cpu k') (k_frames k') slot vm frame ∧ N.testbit (k_occupied k') slot = true ∧
  (∀ q, footprint (k_frames k') vm frame q → ¬ fp_owned (k_frames k) q) ∧
  ∀ i b, blob !! i = Some b → peek (k_frames k') (frame + N.of_nat i) = b.

Lemma created_kinv fr blob k k' slot vm frame :
  kinv_at fr k → quiet k k' → k_ready k = true → created blob k k' slot vm frame →
  kinv_at (λ i, if decide (i = slot) then frame else fr i) (set_registry (<[slot := vm]> (k_registry k')) k').
Proof.
  intros Hk Hq Hready (Hs&Hnone&_&_&_&_&Hgood&Hocc&Hfresh&_).
  pose proof (quiet_kinv fr k k' Hk Hq) as (Hg'&Ha'&Hd'&Hr').
  destruct Hq as (Hsame&Hf&Er&_&Erd&_).
  assert (∀ i vi q, k_registry k !! i = Some vi → footprint (k_frames k') vi (fr i) q →
    ¬ footprint (k_frames k') vm frame q) as Hap.
  { intros i vi q Hi Hq Hn. apply Hfresh in Hn. apply Hn. destruct Hk as (Hg&_).
    destruct (Hg i vi Hi) as [Hgi _]. eapply footprint_owned; [exact Hgi|].
    pose proof Hgi as (_&_&_&Hm&_).
    destruct (guest_mem_same_but _ _ _ _ _ Hsame Hm (λ _ _ x, x)) as [_ Hin].
    unfold footprint in *. by rewrite <-Hin. }
  split; [|split; [|split]].
  - intros i vi Hi. simpl in Hi. destruct (decide (i = slot)) as [->|].
    + rewrite lookup_insert_eq in Hi. injection Hi as <-. done.
    + rewrite lookup_insert_ne in Hi by done. by apply Hg'.
  - intros i j vi vj q Hij Hi Hj. simpl in *. rewrite lookup_insert_Some in Hi. rewrite lookup_insert_Some in Hj.
    destruct Hi as [[<- <-]|[Hi' Hi]], Hj as [[<- <-]|[Hj' Hj]]; [done|..].
    + rewrite decide_True, decide_False by done. rewrite Er in Hj. intros Hn Hc. by eapply Hap.
    + rewrite decide_False, decide_True by done. rewrite Er in Hi. intros Hc Hn. by eapply Hap.
    + rewrite !decide_False by done. by eapply Ha'.
  - intros i Hi. simpl in *. destruct (Hd' i Hi) as (w&Hw&Ht). exists w. rewrite lookup_insert_ne; [done|].
    intros <-. rewrite Er in Hw. congruence.
  - simpl. congruence.
Qed.

Lemma create_with_spec req fr k n :
  kinv_at fr k → fp_room (6 + n) (k_frames k) →
  let '(r, k') := create_vm_with req k in
  fp_room n (k_frames k') ∧
  match r with
  | Ok slot => ∃ k2 vm frame, quiet k k2 ∧ created (req_blob req) k k2 slot vm frame ∧
                 k' = set_registry (<[slot := vm]> (k_registry k2)) k2
  | Err _ => quiet k k'
  end.
Proof.
  intros Hk Hroom. rewrite create_steps_eq. unfold create_steps. unfold mbind at 1, st_bind.
  pose proof (reserve_slot_spec k) as Hres. destruct (reserve_slot k) as [[slot|e] k1];
    destruct Hres as (occ&->&Hmono&Hslot); [|split; [eapply law_room; [|exact Hroom]; lia|done]].
  destruct Hslot as (Hlt&Hfree&Hset).
  assert (k_registry k !! slot = None) as Hnone.
  { destruct (k_registry k !! slot) as [w|] eqn:E; [|done]. destruct Hk as [Hg _].
    destruct (Hg slot w E) as [_ ?]. congruence. }
  set (k1 := set_occupied occ k). assert (quiet k k1) as Q1 by (split; [apply same_but_refl|done]).
  unfold mbind at 1, st_bind, on_frames at 1, zoom. cbn [k_frames k1 set_occupied].
  assert (fp_room (5 + (1 + n)) (k_frames k)) as Hr1 by (eapply law_room; [|exact Hroom]; lia).
  pose proof (install_spec (req_blob req) _ _ Hr1) as Hinst.
  destruct (install_first_guest _ (k_frames k)) as [[ept|e] p2]; destruct Hinst as (Hr2&U2&Hm);
    [|split; [eapply law_room; [|exact Hr2]; lia|by apply (quiet_trans k k1), quiet_frames]].
  destruct Hm as (frame&Hpg&Hmem&Hnew&Hntree&Hbytes&Hblob).
  set (k2 := set_frames p2 k1). assert (quiet k k2) as Q2 by by apply (quiet_trans k k1), quiet_frames.
  unfold mbind at 1, st_bind, get_st. unfold mbind at 1, st_bind, try.
  destruct (revision_id (k_cpu k2)) as [rev|e] eqn:Erev; [|split; [eapply law_room; [|exact Hr2]; lia|done]].
  pose proof (revision_fits _ _ Erev) as Hrev.
  unfold mbind at 1, st_bind, on_frames, zoom. cbn [k_frames k2 set_frames].
  pose proof (alloc_in_pool_spec rev p2 n Hrev Hr2) as Hal.
  destruct (alloc_in_pool rev p2) as [[pa|e] p3]; destruct Hal as (Hr3&U3&Hpa); cycle 1.
  { split; [done|]. apply (quiet_trans k k2); [done|]. by apply quiet_frames. }
  destruct Hpa as [Hpan Hpao].
  set (k3 := set_frames p3 k2). assert (quiet k k3) as Q3
    by (apply (quiet_trans k k2); [done|by apply quiet_frames]).
  unfold mbind, st_bind, on_cpu, zoom. set (plan := mkLaunchPlan _ _ _).
  pose proof (program_spec pa plan (k_cpu k3)) as Hprog.
  destruct (program pa plan (k_cpu k3)) as [r c4]; destruct Hprog as [Hother Hept].
  assert (quiet k (set_cpu c4 k3)) as Q4.
  { destruct Q3 as (S3&_&?). split; [exact S3|]. split; [|done].
    intros q f Hq. apply Hother. intros ->. apply Hpan. by apply U2. }
  destruct r as [[]|e]; [|by split].
  set (k4 := set_cpu c4 k3). unfold modify, mret, st_ret. split.
  { unfold publish. change (k_registry k4) with (k_registry k). rewrite Hnone. done. }
  exists k4, (vm_new slot pa (eptp ept)), frame. split; [done|]. split.
  2: { unfold publish. change (k_registry k4) with (k_registry k). by rewrite Hnone. }
  assert (root_of (vm_new slot pa (eptp ept)) = pml4 ept) as Hroot.
  { unfold root_of, vm_new, vm_eptp, eptp. rewrite <-N.lor_assoc. apply entry_addr; [done|]. by vm_compute. }
  destruct (guest_mem_same_but _ _ _ _ _ U3 Hmem (λ _ _ x, x)) as [Hmem3 Hin3].
  split; [done|]. split; [done|]. do 4 (split; [by try (exists Created)|]). split; [|split; [done|split]].
  - unfold vm_good. change (vm_vmcs_pa _) with pa. change (vm_eptp _) with (eptp ept). rewrite Hroot.
    split; [done|]. split; [done|]. split; [by exists Created|]. split; [done|].
    split; [done|]. split; [intros ->; by apply Hpan, Hmem|]. split; [|by apply Hept].
    intros Hin%Hin3. apply Hpan. eapply tree_owned; [apply Hmem|done].
  - unfold footprint. change (vm_vmcs_pa _) with pa. rewrite Hroot. intros q [Hin|[-> | ->]]; [|done|].
    + apply Hin3 in Hin. by apply Hntree.
    + intros Ho. apply Hpan. by apply U2.
  - intros i b Hb. pose proof Hb as Hlt'. apply lookup_lt_Some in Hlt'.
    destruct (U3 frame) as [_ Hs3]; [apply Hmem|]. destruct (Hs3 id) as [_ Hk3].
    cbn [k_frames k4 k3 set_cpu set_frames]. rewrite Hk3; [by apply Hbytes|].
    unfold blen in Hblob. lia.
Qed.

(** ** Steps of one VM *)

(** Between [k] and [k'] only the VM in slot [i] moved, along its lifecycle,
    and only its frame was written. *)
Definition moved fr (i : N) k k' : Prop :=
  kinv_at fr k' ∧ same_but (λ q, q = fr i) (k_frames k) (k_frames k') ∧
  (∀ n, fp_room n (k_frames k) → fp_room n (k_frames k')) ∧
  k_occupied k' = k_occupied k ∧ k_deleted k' = k_deleted k ∧ k_ready k' = k_ready k ∧
  k_cursor k' = k_cursor k ∧
  (∀ j, j ≠ i → k_registry k' !! j = k_registry k !! j) ∧
  ∀ vm, k_registry k !! i = Some vm → ∃ vm', k_registry k' !! i = Some vm' ∧ later vm vm'.

Lemma moved_refl fr i k : kinv_at fr k → moved fr i k k.
Proof. intros Hk. split; [done|]. split; [apply same_but_refl|]. do 6 (split; [done|]). intros vm ?. by exists vm. Qed.
Lemma moved_trans fr i k1 k2 k3 : moved fr i k1 k2 → moved fr i k2 k3 → moved fr i k1 k3.
Proof.
  intros (I1&S1&R1&O1&D1&B1&C1&Fr1&L1) (I2&S2&R2&O2&D2&B2&C2&Fr2&L2). split; [done|].
  split; [by eapply same_but_trans|]. split; [auto|]. do 4 (split; [congruence|]). split.
  - intros j Hj. by rewrite Fr2, Fr1.
  - intros vm Hvm. destruct (L1 vm Hvm) as (vm1&H1'&Hl1). destruct (L2 vm1 H1') as (vm2&?&?).
    exists vm2. split; [done|]. by etrans.
Qed.

Lemma moved_cpu fr i k c' a :
  kinv_at fr k → (∀ q f, cpu_field c' q f = cpu_field (k_cpu k) q f) →
  moved fr i k (set_active_slot a (set_cpu c' k)).
Proof.
  intros Hk Hf. split; [|split; [apply same_but_refl|do 6 (split; [done|]); intros vm ?; by exists vm]].
  eapply (kinv_quiet fr k _ (λ _, False)); [done|apply same_but_refl|..]; first [done | by intros ? ? ? _ _ [] | intros; apply Hf].
Qed.

Lemma on_vm_spec {A} fr i k vm v (m : st Vm HyperError A) :
  kinv_at fr k → k_registry k !! i = Some vm → later vm (m vm).2 → vm_ok (m vm).2 →
  moved fr i k (on_vm i v m k).2 ∧ (on_vm i v m k).1 = (m vm).1 ∧
  k_registry (on_vm i v m k).2 !! i = Some (m vm).2 ∧
  k_active (on_vm i v m k).2 = k_active k ∧ k_cursor (on_vm i v m k).2 = k_cursor k ∧
  k_cpu (on_vm i v m k).2 = k_cpu k ∧ k_frames (on_vm i v m k).2 = k_frames k.
Proof.
  intros Hk Hi Hl Hok. unfold on_vm. rewrite Hi. change (default v (Some vm)) with vm. destruct (m vm) as [r vm'] eqn:E.
  cbn [fst snd] in *. split; [|split; [done|split; [apply lookup_insert_eq|done]]].
  split; [by eapply kinv_later|]. split; [apply same_but_refl|]. do 5 (split; [done|]). split.
  - intros j Hj. simpl. by rewrite lookup_insert_ne.
  - intros w Hw. exists vm'. simpl. rewrite lookup_insert_eq. split; [done|]. congruence.
Qed.

(** The frame of a guest is a page outside every guest's tables. *)
Lemma frame_apart fr k i vi j vj q :
  kinv_at fr k → k_registry k !! i = Some vi → k_registry k !! j = Some vj →
  in_tree (k_frames k) (root_of vj) q → q ≠ fr i.
Proof.
  intros (Hg&Ha&_) Hi Hj Hq ->. destruct (decide (i = j)) as [->|Hne].
  - simplify_eq. destruct (Hg j vi Hi) as ((_&_&_&(_&_&Hni&_)&_)&_). done.
  - eapply (Ha i j vi vj); [done..| |by left]. by right; left.
Qed.

(** Running a guest whose VMCS is current. *)
Lemma launch_moved fr i vm k fl c' p' :
  kinv_at fr k → k_registry k !! i = Some vm → cpu_current (k_cpu k) = Some (vm_vmcs_pa vm) →
  hw_vmlaunch (k_cpu k) (k_frames k) = (fl, (c', p')) →
  moved fr i k (set_frames p' (set_cpu c' k)).
Proof.
  intros Hk Hi Hcur Hl.
  pose proof Hk as (Hg&_). destruct (Hg i vm Hi) as ((_&_&_&Hgm&_&_&_&Hept&Hforce)&_).
  pose proof (law_vmlaunch (k_cpu k) (k_frames k) _ Hcur Hforce) as Hlaw. rewrite Hl in Hlaw.
  destruct Hlaw as (Hfld&Hroom&Hmem).
  assert (same_but (λ q, q = fr i) (k_frames k) p') as Hs.
  { intros q Hq. destruct (Hmem q Hq) as [Hq' Hr]. split; [done|]. intros Hne. apply Hr.
    intros gpa h Ht. rewrite Hept in Ht.
    assert (page_addr (fr i)) as Hpg by (eapply law_page; apply Hgm).
    pose proof (guest_translate _ _ _ gpa Hgm Hpg) as Hgt.
    unfold eptp_root in Ht. fold (root_of vm) in Ht. destruct (decide (page_of gpa = 1%N)).
    - rewrite Hgt in Ht. injection Ht as <-. intros <-. apply Hne.
      assert (gpa mod PAGE_SIZE < PAGE_SIZE)%N by by apply N.mod_lt.
      rewrite <-frame_offset by done. by apply entry_addr.
    - by rewrite Ht in Hgt. }
  split; [|split; [exact Hs|split; [exact Hroom|do 4 (split; [done|])]; split; [done|intros w ?; by exists w]]].
  eapply (kinv_quiet fr k _ (λ q, q = fr i)); [done|exact Hs|..]; try done.
  - intros j vj q Hj Hq. by eapply frame_apart.
  - intros j vj f _. apply Hfld.
Qed.

Lemma lookup_Ok id k vm : lookup id k = Ok vm ↔ (id < MAX_VMS)%N ∧ k_registry k !! id = Some vm.
Proof.
  unfold lookup. destruct (N.leb_spec MAX_VMS id); [split; [done|lia]|]. rewrite ok_or_Ok. naive_solver.
Qed.

(** The exit of the guest that is active. *)
Lemma dispatch_moved fr i vm k :
  kinv_at fr k → k_registry k !! i = Some vm → k_active k = Some i → vm_state vm = Running →
  let k' := (vm_exit_dispatch k).2 in
  moved fr i k k' ∧ (vm_exit_dispatch k).1 = Ok tt ∧
  match read_exit (k_cpu k) with
  | Ok e => ∃ vm', k_registry k' !! i = Some vm' ∧
              vm_state vm' = match e with KHlt => Halted | _ => Faulted end
  | Err _ => k' = k
  end.
Proof.
  intros Hk Hi Ha Hrun.
  assert (∀ r o, let k' := (dropped (dispatch_exit r o) k).2 in moved fr i k k' ∧
            ∃ vm', k_registry k' !! i = Some vm' ∧
              vm_state vm' = match o with OHalted => Halted | OFaulted => Faulted end) as Hd.
  { intros r o. unfold dropped, dispatch_exit, get_st, try, ok_or, mbind, st_bind. rewrite Ha, Hi. cbn [snd].
    destruct Hk as [Hg ?]. destruct (Hg i vm Hi) as ((_&_&Hok&_)&_).
    pose proof (on_exit_spec r o vm Hok) as Hx.
    destruct (on_exit r o vm) as [res vm'] eqn:E. destruct Hx as (Hok'&Hl&_&Hst).
    rewrite decide_True in Hst by done. destruct Hst as [_ Hst].
    assert (kinv_at fr k) as Hk by done.
    destruct (on_vm_spec fr i k vm vm (on_exit r o)) as (Hm&_&Hi'&_); rewrite ?E; [done..|].
    rewrite E in Hi'. split; [done|]. by exists vm'. }
  unfold vm_exit_dispatch, get_st, mbind, st_bind.
  destruct (read_exit (k_cpu k)) as [[]|e].
  1-4: match goal with |- context [dispatch_exit ?r ?o] => destruct (Hd r o) as [Hm Hv] end; by split.
  split; [by apply moved_refl|done].
Qed.

(** The state after an attempt to start a guest. *)
Definition started (c : C) (vm : Vm) (launched : option N) : VmState :=
  match launched with
  | None => match read_exit c with Ok KHlt => Halted | Ok _ => Faulted | Err _ => Running end
  | Some _ => Stopped
  end.

Lemma vmlaunch_failed rflags e : vmlaunch_result rflags = Err e →
  (∃ s, e = Internal s) ∨ ∃ s, e = Hardware s.
Proof. unfold vmlaunch_result. repeat case_match; intros [= <-]; eauto. Qed.
Lemma vmlaunch_never rflags a : vmlaunch_result rflags ≠ Ok a.
Proof. unfold vmlaunch_result. by repeat case_match. Qed.

(** Starting a VM: only that VM moves.  An answer [Ok] means that it was in
    state [Created] and has left it. *)
Lemma start_moved fr i vm k :
  kinv_at fr k → k_registry k !! i = Some vm →
  let '(r, k') := start_vm i k in
  moved fr i k k' ∧
  (r = Ok tt → vm_state vm = Created ∧ ∃ vm', k_registry k' !! i = Some vm' ∧ vm_state vm' ≠ Created) ∧
  (vm_state vm ≠ Created → k_frames k' = k_frames k).
Proof.
  intros Hk Hi. pose proof Hk as (Hg&_). destruct (Hg i vm Hi) as ((Hlt&_&Hok&_)&_).
  unfold start_vm. unfold mbind at 1, st_bind, get_st. unfold mbind at 1, st_bind, try.
  rewrite (proj2 (lookup_Ok i k vm)) by done.
  unfold mbind at 1, st_bind, set_active. unfold mbind at 1, st_bind, on_cpu, zoom.
  pose proof (vmptrld_spec (vm_vmcs_pa vm) (k_cpu k)) as Hp.
  destruct (vmptrld _ (k_cpu k)) as [[[]|e] c1]; destruct Hp as [Hf Hcur].
  2: { split; [apply (moved_cpu fr i k c1 (k_active k) Hk Hf)|done]. }
  specialize (Hcur eq_refl). unfold modify.
  set (k1 := set_active_slot (Some i) (set_cpu c1 k)).
  assert (moved fr i k k1) as M1 by apply (moved_cpu fr i k c1 (Some i) Hk Hf).
  pose proof (transition_spec Created Running vm edge_start Hok) as Ht. fold mark_running in Ht.
  destruct (mark_running vm) as [r2 vm2] eqn:E2. destruct Ht as (Hok2&Hl2&_&Hst).
  destruct (on_vm_spec fr i k1 vm vm mark_running) as (M2&Er&Hi2&Hact&Hcu&Hcpu&Hfr);
    [apply M1|done|by rewrite E2..|]. rewrite E2 in Er, Hi2.
  unfold mbind at 1, st_bind. destruct (on_vm i vm mark_running k1) as [r k2] eqn:Ek2.
  cbn [fst snd] in M2, Er, Hi2, Hact, Hcu, Hcpu, Hfr. subst r.
  assert (moved fr i k k2) as M by exact (moved_trans _ _ _ _ _ M1 M2).
  destruct (decide (vm_state vm = Created)) as [Hcr|Hncr]; destruct Hst as [-> Hst].
  2: { split; [done|]. split; [done|]. done. }
  unfold mbind, st_bind. destruct (hw_vmlaunch (k_cpu k2) (k_frames k2)) as [fl [c3 p3]] eqn:El.
  assert (vm_vmcs_pa vm2 = vm_vmcs_pa vm) as Evm by apply Hl2.
  destruct (launch_moved fr i vm2 k2 fl c3 p3) as [Hk3 M3]; [apply M|done|by rewrite Hcpu, Evm|done|].
  set (k3 := set_frames p3 (set_cpu c3 k2)) in *.
  assert (moved fr i k k3) as M' by exact (moved_trans _ _ _ _ _ M (conj Hk3 M3)).
  assert (vm_state vm2 = Running) as Hrun2 by done.
  assert (k_registry k3 !! i = Some vm2) as Hi3 by done.
  assert (k_active k3 = Some i) as Ha3 by done.
  destruct fl as [rflags|].
  - destruct (vmlaunch_result rflags) as [[]|e] eqn:Ev; [by apply vmlaunch_never in Ev|].
    assert (moved fr i k3 (dropped (on_vm i vm vm_stop) k3).2 ∧
            ∃ vm', k_registry (dropped (on_vm i vm vm_stop) k3).2 !! i = Some vm' ∧ vm_state vm' = Stopped)
      as (Mk&Hv).
    { pose proof (vm_stop_spec vm2 Hok2) as Hs. rewrite Hrun2 in Hs. cbn [is_terminal] in Hs.
      destruct (vm_stop vm2) as [rs vm3] eqn:Es. destruct Hs as (Hok3&Hl3&_&_&Hs3).
      destruct (on_vm_spec fr i k3 vm2 vm vm_stop) as (Ms&_&His&_);
        [apply M'|done|by rewrite Es..|]. rewrite Es in His.
      unfold dropped. cbn [snd]. split; [done|]. by exists vm3. }
    destruct (vmlaunch_failed _ _ Ev) as [[s ->]|[s ->]].
    all: unfold dropped in *; cbn [snd] in *.
    all: split; [exact (moved_trans _ _ _ _ _ M' Mk)|].
    all: split; [|done]; intros _; split; [done|].
    all: destruct Hv as (vm'&?&E); exists vm'; split; [done|by rewrite E].
  - destruct (dispatch_moved fr i vm2 k3) as (Md&Hok3&Hx); [apply M'|done..|].
    destruct (vm_exit_dispatch k3) as [r k4] eqn:E4. cbn [fst snd] in *.
    split; [exact (moved_trans _ _ _ _ _ M' Md)|]. split; [|done].
    intros _. split; [done|]. destruct (read_exit (k_cpu k3)) as [e|e].
    + destruct Hx as (vm'&?&E). exists vm'. split; [done|]. rewrite E. by destruct e.
    + subst k4. exists vm2. split; [done|]. by rewrite Hrun2.
Qed.

(** Stopping a VM. *)
Lemma stop_moved fr i vm k :
  kinv_at fr k → k_registry k !! i = Some vm →
  let '(r, k') := stop_vm i k in
  moved fr i k k' ∧ k_frames k' = k_frames k ∧ r = Ok tt ∧
  ∃ vm', k_registry k' !! i = Some vm' ∧
    vm_state vm' = (if is_terminal (vm_state vm) then vm_state vm else Stopped).
Proof.
  intros Hk Hi. pose proof Hk as (Hg&_). destruct (Hg i vm Hi) as ((Hlt&_&Hok&_)&_).
  unfold stop_vm, get_st, try, mbind, st_bind. rewrite (proj2 (lookup_Ok i k vm)) by done.
  pose proof (vm_stop_spec vm Hok) as Hs. destruct (is_terminal (vm_state vm)) eqn:Et.
  - split; [by apply moved_refl|]. split; [done|]. split; [done|]. by exists vm.
  - destruct (vm_stop vm) as [rs vm'] eqn:Es. destruct Hs as (Hok'&Hl&_&Hr&Hst).
    destruct (on_vm_spec fr i k vm vm vm_stop) as (M&Er&Hi'&_&_&_&Hfr);
      [done|done|by rewrite Es..|]. rewrite Es in Er, Hi'.
    destruct (on_vm i vm vm_stop k) as [r k']. cbn [fst snd] in *. subst.
    split; [done|]. split; [done|]. split; [done|]. by exists vm'.
Qed.

(** Deleting a VM: only its tombstone is written, and only if it is terminal. *)
Lemma delete_spec fr i vm k :
  kinv_at fr k → k_registry k !! i = Some vm →
  let '(r, k') := delete_vm i k in
  kinv_at fr k' ∧ k_frames k' = k_frames k ∧ k_registry k' = k_registry k ∧
  k_ready k' = k_ready k ∧ k_cursor k' = k_cursor k ∧
  (∀ j, N.testbit (k_deleted k') j = N.testbit (k_deleted k) j || (bool_decide (j = i) && is_terminal (vm_state vm))) ∧
  (r = Ok tt ↔ is_terminal (vm_state vm) = true ∧ N.testbit (k_deleted k) i = false).
Proof.
  intros Hk Hi. pose proof Hk as (Hg&Ha&Hd&Hr). destruct (Hg i vm Hi) as ((Hlt&_)&_).
  unfold delete_vm, get_st, try, modify, bail_if, mbind, st_bind.
  rewrite (proj2 (lookup_Ok i k vm)) by done.
  destruct (is_terminal (vm_state vm)) eqn:Et; cbn [negb].
  - assert (∀ j, N.testbit (N.lor (k_deleted k) (N.shiftl 1 i)) j =
                 N.testbit (k_deleted k) j || (bool_decide (j = i) && true)) as Hbits.
    { intros j. rewrite N.lor_spec, N.shiftl_1_l, andb_true_r. f_equal.
      destruct (bool_decide_reflect (j = i)) as [->|]; [apply N.pow2_bits_true|by apply N.pow2_bits_false]. }
    assert (negb (N.land (k_deleted k) (N.shiftl 1 i) =? 0)%N = N.testbit (k_deleted k) i) as ->.
    { rewrite N.shiftl_1_l. destruct (N.testbit (k_deleted k) i) eqn:Eb; apply eq_true_iff_eq.
      - rewrite negb_true_iff, N.eqb_neq. split; [done|]. intros _ E0.
        apply (f_equal (λ n, N.testbit n i)) in E0.
        by rewrite N.land_spec, Eb, N.pow2_bits_true, N.bits_0 in E0.
      - rewrite negb_true_iff, N.eqb_neq. split; [|done]. intros []. apply N.bits_inj. intros j.
        rewrite N.land_spec, N.bits_0. destruct (decide (j = i)) as [->|]; [by rewrite Eb|].
        by rewrite N.pow2_bits_false, andb_false_r. }
    assert (kinv_at fr (set_deleted (N.lor (k_deleted k) (N.shiftl 1 i)) k)) as Hk'.
    { split; [done|]. split; [done|]. split; [|done]. intros j. simpl. rewrite Hbits, orb_true_iff.
      intros [Hj|[->%bool_decide_eq_true _]%andb_true_iff]; [by apply Hd|by exists vm]. }
    destruct (N.testbit (k_deleted k) i); (split; [exact Hk'|]); do 4 (split; [done|]);
      (split; [exact Hbits|]); (split; [done|by intros []]).
  - split; [done|]. do 4 (split; [done|]). split; [|by split; [|intros []]].
    intros j. by rewrite andb_false_r, orb_false_r.
Qed.
End kernel.
