(* ===== verification/KernelRun.v ===== *)
(** * KernelRun: runs of the VM manager

    Any sequence of the manager's entry points from the state the kernel boots
    in, accepted or refused, over any processor and frame pool that keep their
    documented behaviour: guests never share memory, and every VM follows its
    lifecycle. *)
From S2P Require Import Prelude.
From S2P Require Import Text.
From S2P Require Import Vault.
From S2P Require Import HyperErr.
From S2P Require Import Ept.
From S2P Require Import EptProofs.
From S2P Require Import Vm.
From S2P Require Import Vmx.
From S2P Require Import Manager.
From S2P Require Import ManagerProofs.
From Stdlib Require Import Strings.Byte.

(** ** A processor that keeps its documented behaviour

    A small processor over the frame pool, used to run the kernel on concrete
    inputs.  VMCS fields are kept by address; the guest writes one byte at
    0x1234 and halts.  With EPT in force the address goes through its tables,
    and without it straight to memory. *)
Module Sim.
Record t := mk { current : option N; fields : gmap (N * N) N; regs : N * N }.

Definition field (c : t) (q f : N) : N := default 0%N (fields c !! (q, f)).
Definition set_field (q f v : N) (c : t) : t := mk (current c) (<[(q, f) := v]> (fields c)) (regs c).

#[export] Instance owned_dec p pa : Decision (PoolLaws.owned p pa).
Proof. unfold PoolLaws.owned, page_addr. apply _. Defined.

Definition run_guest (c : t) (p : KernelFrames.t) : option N * (t * KernelFrames.t) :=
  match current c with
  | None => (Some 1%N, (c, p))
  | Some cur =>
      match (if ept_in_force (field c cur)
             then translate (mkEpt (N.land (field c cur F.EPT_POINTER) ADDR_MASK)) p 0x1234
             else Ok 0x1234%N) with
      | Ok h =>
          let frame := N.land h ADDR_MASK in
          if decide (PoolLaws.owned p frame)
          then (None, (set_field cur F.EXIT_REASON F.EXIT_REASON_HLT c, copy_bytes frame [x2a] p))
          else (Some 64%N, (c, p))
      | Err _ => (None, (set_field cur F.EXIT_REASON F.EXIT_REASON_EPT_VIOLATION c, p))
      end
  end.

(** Revision 1, VMX enabled, and every control and bit of CR0 and CR4 free. *)
Definition msr (a : N) : N :=
  if (a =? IA32_VMX_BASIC)%N then 1
  else if (a =? IA32_FEATURE_CONTROL)%N then 5
  else if (a =? IA32_VMX_CR0_FIXED0)%N || (a =? IA32_VMX_CR4_FIXED0)%N then 0
  else if (a =? IA32_VMX_CR0_FIXED1)%N || (a =? IA32_VMX_CR4_FIXED1)%N then umax 64
  else N.shiftl (N.ones 32) 32.

#[export] Instance cpu : Cpu t KernelFrames.t := {|
  rdmsr c a := msr a;
  read_cr0 c := (regs c).1;
  write_cr0 v c := mk (current c) (fields c) (v, (regs c).2);
  read_cr4 c := (regs c).2;
  write_cr4 v c := mk (current c) (fields c) ((regs c).1, v);
  hw_vmxon _ c := (0%N, c);
  hw_vmclear _ c := (0%N, c);
  hw_vmptrld pa c := (0%N, mk (Some pa) (fields c) (regs c));
  hw_vmwrite f v c := match current c with
                      | Some q => (0%N, set_field q f v c)
                      | None => (1%N, c)
                      end;
  hw_vmread f c := match current c with Some q => (field c q f, 0%N) | None => (0%N, 1%N) end;
  hw_vmlaunch := run_guest;
  capture c := mkHostState (regs c).1 0 (regs c).2 8 16 16 16 16 16 24 0 0 0 0 0;
  trampoline := 0x100000;
  host_stack := 0x110000
|}.

Lemma field_set q f v c q' f' :
  field (set_field q f v c) q' f' = if decide (q' = q ∧ f' = f) then v else field c q' f'.
Proof.
  unfold field, set_field. simpl. case_decide as E.
  - destruct E as [-> ->]. by rewrite lookup_insert_eq.
  - rewrite lookup_insert_ne; [done|]. intros [= -> ->]. by apply E.
Qed.

#[export] Instance cpu_laws : CpuLaws t KernelFrames.t.
Proof.
  refine {| cpu_current := current; cpu_field := field |}.
  - intros c. by vm_compute.
  - intros pa c. simpl. done.
  - intros pa c. simpl. done.
  - intros f v c. cbn [hw_vmwrite cpu]. destruct (current c) as [q|] eqn:Ec; [|done].
    split; [done|]. split.
    + intros q' g Hq. rewrite field_set, decide_False; [done|]. intros [-> ->]. destruct Hq; congruence.
    + intros _ q' [= <-]. rewrite field_set. by rewrite decide_True.
  - intros c p cur Ec Hforce. cbn [hw_vmlaunch cpu]. unfold run_guest. rewrite Ec, Hforce.
    destruct (translate _ p 0x1234) as [h|e] eqn:Et.
    + destruct (decide (PoolLaws.owned p (N.land h ADDR_MASK))) as [Ho|]; [|by split].
      assert (fp_owned p (N.land h ADDR_MASK)) as Ho' by exact Ho.
      destruct (law_copy p (N.land h ADDR_MASK) [x2a] Ho' ltac:(done)) as (Hroom&_&Hmem).
      split; [|split; [exact Hroom|]].
      * intros q f Hin. rewrite field_set, decide_False; [done|]. intros [_ ->]. by vm_compute in Hin; set_solver.
      * intros frame Hf. destruct (Hmem frame Hf) as [Hf' Hs]. split; [done|]. intros Hx. apply Hs.
        intros ->. by eapply Hx.
    + split; [|by split]. intros q f Hin. rewrite field_set, decide_False; [done|].
      intros [_ ->]. by vm_compute in Hin; set_solver.
Qed.
End Sim.
#[export] Existing Instance Sim.cpu.
#[export] Existing Instance Sim.cpu_laws.

(** The kernel at boot: an empty pool of frames at 2 MiB. *)
Definition sim_cpu : Sim.t := Sim.mk None ∅ (0, 0)%N.

(** The entry points of manager.rs that change the state. *)
Inductive call :=
| CInit
| CCreate (req : CreateVmRequest)
| CStart (id : N)
| CStop (id : N)
| CDelete (id : N)
| CNext
| CResetCursor.

(** The VM a call is about, and the allocations it may make. *)
Definition target (c : call) : option N :=
  match c with CStart id | CStop id => Some id | _ => None end.
Definition call_room (c : call) : nat :=
  match c with CInit => 1 | CCreate _ => 6 | _ => 0 end.
Fixpoint calls_room (cs : list call) : nat :=
  match cs with [] => 0 | c :: cs' => call_room c + calls_room cs' end.
Lemma calls_room_app cs cs' : calls_room (cs ++ cs') = calls_room cs + calls_room cs'.
Proof. induction cs as [|c cs IH]; simpl; lia. Qed.

Section run.
Context {C P : Type} `{CpuLaws C P}.
Implicit Types (k : Kernel C P).

Definition run_call (c : call) k : Kernel C P :=
  match c with
  | CInit => (init_runtime k).2
  | CCreate req => (create_vm req k).2
  | CStart id => (start_vm id k).2
  | CStop id => (stop_vm id k).2
  | CDelete id => (delete_vm id k).2
  | CNext => (next_runnable k).2
  | CResetCursor => reset_runqueue_cursor k
  end.
Definition run_calls (cs : list call) k : Kernel C P := fold_left (λ k c, run_call c k) cs k.

(** No VM and no tombstone, as in the kernel's statics. *)
Definition boot_state k : Prop := k_registry k = ∅ ∧ k_deleted k = 0%N.

Definition guest_ept (vm : Vm) : Ept := mkEpt (root_of vm).

(** What a call leaves of a state that satisfies the invariant. *)
Definition call_ok (fr fr' : N → N) (X : N → Prop) (t : option N) k k' : Prop :=
  kinv_at fr' k' ∧ same_but X (k_frames k) (k_frames k') ∧
  (∀ q, X q → ∃ i, t = Some i ∧ q = fr i ∧ is_Some (k_registry k !! i)) ∧
  ∀ j vm, k_registry k !! j = Some vm → fr' j = fr j ∧
    ∃ vm', k_registry k' !! j = Some vm' ∧ later vm vm' ∧ (t ≠ Some j → vm' = vm).

Lemma call_ok_quiet fr k k' t : kinv_at fr k → quiet k k' → call_ok fr fr (λ _, False) t k k'.
Proof.
  intros Hk Hq. split; [by eapply quiet_kinv|]. pose proof Hq as (Hs&_&Er&_). split; [done|].
  split; [done|]. intros j vm Hj. split; [done|]. exists vm. by rewrite Er.
Qed.
Lemma call_ok_moved fr i vm k k' :
  k_registry k !! i = Some vm → moved fr i k k' → call_ok fr fr (λ q, q = fr i) (Some i) k k'.
Proof.
  intros Hi (Hk&Hs&_&_&_&_&_&Hoth&Hself). split; [done|]. split; [done|]. split.
  - intros q ->. by exists i.
  - intros j w Hj. split; [done|]. destruct (decide (j = i)) as [->|Hne].
    + destruct (Hself w Hj) as (w'&?&?). exists w'. done.
    + exists w. by rewrite Hoth.
Qed.

Lemma init_spec fr k n :
  kinv_at fr k → fp_room (1 + n) (k_frames k) →
  let '(r, k') := init_runtime k in
  fp_room n (k_frames k') ∧ call_ok fr fr (λ _, False) None k k'.
Proof.
  intros Hk Hroom. unfold init_runtime, get_st, modify, bail_if, mbind, st_bind.
  assert (fp_room n (k_frames k)) as Hn by (eapply law_room; [|exact Hroom]; lia).
  assert (∀ p' c', same_but (λ _, False) (k_frames k) p' → k_ready k = false →
    call_ok fr fr (λ _, False) None k (set_cpu c' (set_frames p' (set_ready true k)))) as Hempty.
  { intros p' c' Hs Hr. destruct Hk as (Hg&Ha&Hd&He). pose proof (He Hr) as Hreg.
    split; [|split; [done|split; [done|]]].
    - split; [|split; [|split]]; simpl; rewrite Hreg.
      + intros i vm Hi. done.
      + intros i j vi vj q _ Hi. done.
      + intros i Hi. destruct (Hd i Hi) as (vm&Hvm&_). by rewrite Hreg in Hvm.
      + done.
    - rewrite Hreg. intros j vm Hj. done. }
  destruct (k_ready k) eqn:Hr.
  { split; [done|]. apply call_ok_quiet; [done|]. split; [apply same_but_refl|]. by rewrite Hr. }
  assert (call_ok fr fr (λ _, False) None k (set_ready true k)) as H0' by by
    apply (Hempty (k_frames k) (k_cpu k)), eq_refl; apply same_but_refl.
  unfold mret, st_ret, try. cbn [k_cpu set_ready].
  destruct (ensure_vmx_available _) as [[]|e]; [|by split].
  destruct (revision_id _) as [rev|e] eqn:Erev; [|by split].
  unfold on_frames, on_cpu, zoom. cbn [k_frames set_ready].
  pose proof (alloc_in_pool_spec rev (k_frames k) n (revision_fits _ _ Erev) Hroom) as Hal.
  destruct (alloc_in_pool rev (k_frames k)) as [[pa|e] p1]; destruct Hal as (Hr1&Hs&_).
  - cbn [k_cpu set_frames set_ready]. destruct (enable pa (k_cpu k)) as [r c']. split; [done|].
    by apply Hempty.
  - split; [done|]. by apply (Hempty p1 (k_cpu k)).
Qed.

Lemma create_vm_spec req fr k n :
  kinv_at fr k → fp_room (6 + n) (k_frames k) →
  let '(r, k') := create_vm req k in
  fp_room n (k_frames k') ∧ (∃ fr', call_ok fr fr' (λ _, False) None k k') ∧
  match r with
  | Ok slot => ∃ k2 vm frame, quiet k k2 ∧ created (req_blob req) k k2 slot vm frame ∧
                 k' = set_registry (<[slot := vm]> (k_registry k2)) k2
  | Err _ => k_registry k' = k_registry k
  end.
Proof.
  intros Hk Hroom. unfold create_vm, get_st, bail_if, mbind, st_bind.
  destruct (k_ready k) eqn:Hr; cbn [negb mret st_ret mthrow st_throw]; unfold mret, st_ret, mthrow, st_throw.
  2: { split; [eapply law_room; [|exact Hroom]; lia|]. split; [|done]. exists fr.
       apply call_ok_quiet, quiet_refl. done. }
  pose proof (create_with_spec req fr k n Hk Hroom) as Hc.
  destruct (create_vm_with req k) as [[slot|e] k']; destruct Hc as [Hn Hc]; (split; [done|]).
  - split; [|done]. destruct Hc as (k2&vm&frame&Hq&Hcr&->).
    pose proof (created_kinv fr _ k k2 slot vm frame Hk Hq Hr Hcr) as Hk'.
    eexists. split; [exact Hk'|]. split; [apply Hq|]. split; [done|]. intros j w Hj.
    assert (j ≠ slot) as Hne by (intros ->; destruct Hcr as (_&?&_); congruence).
    rewrite decide_False by done. split; [done|]. exists w. simpl.
    rewrite lookup_insert_ne by done. destruct Hq as (_&_&->&_). done.
  - split; [exists fr; by apply call_ok_quiet|]. apply Hc.
Qed.

(** A call about a slot that holds no VM is refused. *)
Lemma lookup_cases id k :
  (∃ vm, lookup id k = Ok vm ∧ k_registry k !! id = Some vm) ∨ ∃ e, lookup id k = Err e.
Proof.
  destruct (lookup id k) as [vm|e] eqn:E; [left|right; by exists e].
  exists vm. split; [done|]. by apply lookup_Ok in E as [_ ?].
Qed.

Lemma run_call_spec c fr k n :
  kinv_at fr k → fp_room (call_room c + n) (k_frames k) →
  fp_room n (k_frames (run_call c k)) ∧ ∃ fr' X, call_ok fr fr' X (target c) k (run_call c k).
Proof.
  intros Hk Hroom. destruct c as [|req|id|id|id| |]; cbn [run_call target call_room] in *.
  - pose proof (init_spec fr k n Hk Hroom) as Hi. destruct (init_runtime k) as [r k']. destruct Hi. eauto.
  - pose proof (create_vm_spec req fr k n Hk Hroom) as Hc. destruct (create_vm req k) as [r k'].
    destruct Hc as (?&(fr'&?)&_). eauto.
  - destruct (lookup_cases id k) as [(vm&_&Hi)|[e He]].
    + pose proof (start_moved fr id vm k Hk Hi) as Hs. destruct (start_vm id k) as [r k'].
      destruct Hs as [M _]. split; [by apply M|]. do 2 eexists. by eapply call_ok_moved.
    + unfold start_vm, get_st, try, mbind, st_bind. rewrite He. split; [done|].
      do 2 eexists. by apply call_ok_quiet, quiet_refl.
  - destruct (lookup_cases id k) as [(vm&_&Hi)|[e He]].
    + pose proof (stop_moved fr id vm k Hk Hi) as Hs. destruct (stop_vm id k) as [r k'].
      destruct Hs as [M _]. split; [by apply M|]. do 2 eexists. by eapply call_ok_moved.
    + unfold stop_vm, get_st, try, mbind, st_bind. rewrite He. split; [done|].
      do 2 eexists. by apply call_ok_quiet, quiet_refl.
  - destruct (lookup_cases id k) as [(vm&_&Hi)|[e He]].
    + pose proof (delete_spec fr id vm k Hk Hi) as Hs. destruct (delete_vm id k) as [r k'].
      destruct Hs as (Hk'&Ef&Er&_). cbn [snd]. rewrite Ef. split; [done|]. exists fr, (λ _, False).
      split; [done|]. rewrite Ef, Er. split; [apply same_but_refl|]. split; [done|].
      intros j w Hj. split; [done|]. by exists w.
    + unfold delete_vm, get_st, try, mbind, st_bind. rewrite He. split; [done|].
      do 2 eexists. by apply call_ok_quiet, quiet_refl.
  - unfold next_runnable. destruct (next_from _ _ _) as [[i nx]|]; (split; [done|]); do 2 eexists;
      (apply call_ok_quiet; [done|]); split; [apply same_but_refl|done|apply same_but_refl|done].
  - split; [done|]. do 2 eexists. apply call_ok_quiet; [done|]. split; [apply same_but_refl|done].
Qed.

Lemma boot_kinv k fr : boot_state k → kinv_at fr k.
Proof.
  intros [Hr Hd]. split; [|split; [|split]]; rewrite ?Hr, ?Hd.
  - intros i vm Hi. done.
  - intros i j vi vj q _ Hi. done.
  - intros i Hi. by rewrite N.bits_0 in Hi.
  - done.
Qed.

Lemma run_calls_spec cs fr k n :
  kinv_at fr k → fp_room (calls_room cs + n) (k_frames k) →
  ∃ fr', kinv_at fr' (run_calls cs k) ∧ fp_room n (k_frames (run_calls cs k)) ∧
    ∀ j vm, k_registry k !! j = Some vm → ∃ vm', k_registry (run_calls cs k) !! j = Some vm' ∧ later vm vm'.
Proof.
  revert fr k. induction cs as [|c cs IH]; intros fr k Hk Hroom.
  - exists fr. split; [done|]. split; [done|]. intros j vm Hj. by exists vm.
  - assert (fp_room (call_room c + (calls_room cs + n)) (k_frames k)) as Hroom'.
    { eapply law_room; [|exact Hroom]. simpl. lia. }
    destruct (run_call_spec c fr k _ Hk Hroom') as (Hn&fr1&X&Hk1&_&_&Hl1).
    destruct (IH fr1 (run_call c k) Hk1 Hn) as (fr2&Hk2&Hn2&Hl2).
    exists fr2. split; [done|]. split; [done|]. intros j vm Hj.
    destruct (Hl1 j vm Hj) as (_&vm1&Hj1&Hla&_). destruct (Hl2 j vm1 Hj1) as (vm2&Hj2&Hlb).
    exists vm2. split; [done|]. by etrans.
Qed.

(** ** What a guest sees *)
Lemma guest_sees fr k i vm gpa :
  kinv_at fr k → k_registry k !! i = Some vm →
  if decide (page_of gpa = 1%N)
  then translate (guest_ept vm) (k_frames k) gpa = Ok (fr i + gpa mod PAGE_SIZE)%N
  else is_ok (translate (guest_ept vm) (k_frames k) gpa) = false.
Proof.
  intros (Hg&_) Hi. destruct (Hg i vm Hi) as ((_&_&_&Hm&_)&_).
  apply guest_translate; [done|]. eapply law_page, Hm.
Qed.
Lemma guest_sees_Ok fr k i vm gpa h :
  kinv_at fr k → k_registry k !! i = Some vm →
  translate (guest_ept vm) (k_frames k) gpa = Ok h ↔
  page_of gpa = 1%N ∧ h = (fr i + gpa mod PAGE_SIZE)%N.
Proof.
  intros Hk Hi. pose proof (guest_sees fr k i vm gpa Hk Hi) as Hs.
  destruct (decide (page_of gpa = 1%N)) as [E|E].
  - rewrite Hs. naive_solver.
  - destruct (translate _ _ gpa); [done|]. naive_solver.
Qed.

Lemma frames_differ fr k i j vi vj x y :
  kinv_at fr k → k_registry k !! i = Some vi → k_registry k !! j = Some vj → i ≠ j →
  (x < PAGE_SIZE)%N → (y < PAGE_SIZE)%N → (fr i + x ≠ fr j + y)%N.
Proof.
  intros (Hg&Ha&_) Hi Hj Hij Hx Hy E.
  assert (∀ l vl, k_registry k !! l = Some vl → page_addr (fr l)) as Hpg.
  { intros l vl Hl. destruct (Hg l vl Hl) as ((_&_&_&Hm&_)&_). eapply law_page, Hm. }
  rewrite <-!frame_offset in E by eauto. apply (f_equal (λ n, N.land n ADDR_MASK)) in E.
  rewrite !entry_addr in E by eauto.
  eapply (Ha i j vi vj (fr i)); [done..| |]; right; left; congruence.
Qed.

(** C1: guests are isolated, on any VT-x processor with EPT and any frame pool
    that keep their documented behaviour.  After any calls to the VM manager,
    accepted or refused: the VMCS of every VM has EPT activated and in force
    with that VM's own tables; two different guests never translate addresses
    to the same host byte; whatever call comes next (starting a guest runs its
    code until it exits), no page table of any guest changes, so every guest
    address of every VM translates as before; and the memory and the
    descriptor of every VM that the call is not about are untouched.  Assumed:
    the calls are too few to wrap the pool's counter, a started guest exits, and the devices a guest reaches through I/O ports,
    which the launch does not intercept, write no memory. *)
Theorem guests_isolated k0 cs c :
  boot_state k0 → fp_room (calls_room (cs ++ [c])) (k_frames k0) →
  let k := run_calls cs k0 in
  let k' := run_call c k in
  ∀ j vj, k_registry k !! j = Some vj →
    confined (k_cpu k) (vm_vmcs_pa vj) (vm_eptp vj) ∧
    (∀ gpa h, translate (guest_ept vj) (k_frames k') gpa = Ok h ↔
              translate (guest_ept vj) (k_frames k) gpa = Ok h) ∧
    (target c ≠ Some j → k_registry k' !! j = Some vj ∧
       ∀ gpa h, translate (guest_ept vj) (k_frames k) gpa = Ok h → peek (k_frames k') h = peek (k_frames k) h) ∧
    ∀ i vi gi gj h, i ≠ j → k_registry k !! i = Some vi →
      translate (guest_ept vi) (k_frames k) gi = Ok h → translate (guest_ept vj) (k_frames k) gj = Ok h → False.
Proof.
  intros Hb Hroom k k' j vj Hj. rewrite calls_room_app in Hroom.
  destruct (run_calls_spec cs (λ _, 0%N) k0 _ (boot_kinv k0 _ Hb) Hroom) as (fr&Hk&Hn&_). fold k in Hk, Hn.
  assert (fp_room (call_room c + 0) (k_frames k)) as Hn' by (eapply law_room; [|exact Hn]; simpl; lia).
  destruct (run_call_spec c fr k 0 Hk Hn') as (_&fr'&X&Hk'&Hs&HX&Hl). fold k' in Hk', Hs, Hl.
  destruct (Hl j vj Hj) as (Efr&vj'&Hj'&Hla&Hsame).
  assert (guest_ept vj' = guest_ept vj) as Eept.
  { unfold guest_ept, root_of. by destruct Hla as (_&_&->&_). }
  split; [|split; [|split]].
  - destruct Hk as (Hg&_). destruct (Hg j vj Hj) as ((_&_&_&_&_&_&_&?)&_). done.
  - intros gpa h. rewrite <-Eept at 1. rewrite (guest_sees_Ok fr' k' j vj'), (guest_sees_Ok fr k j vj) by done.
    by rewrite Efr.
  - intros Ht. split; [rewrite Hj'; by rewrite Hsame|]. intros gpa h.
    rewrite (guest_sees_Ok fr k j vj) by done. intros [_ ->].
    pose proof Hk as (Hg&Ha&_). destruct (Hg j vj Hj) as ((_&_&_&Hm&_)&_).
    destruct (Hs (fr j)) as [_ Hun]; [apply Hm|]. apply Hun; [|by apply N.mod_lt].
    intros HXj. destruct (HX _ HXj) as (i&Et&Ef&[vi Hi]).
    assert (i ≠ j) as Hij by congruence.
    eapply (frames_differ fr k i j vi vj 0 0); [done..|congruence].
  - intros i vi gi gj h Hij Hi.
    rewrite (guest_sees_Ok fr k i vi), (guest_sees_Ok fr k j vj) by done. intros [_ ->] [_ E].
    eapply (frames_differ fr k i j vi vj); [done..|by apply N.mod_lt|by apply N.mod_lt|exact E].
Qed.

Lemma create_vm_loads req fr k n :
  kinv_at fr k → fp_room (6 + n) (k_frames k) →
  let '(r, k') := create_vm req k in
  match r with
  | Ok id => k_registry k !! id = None ∧ (id < MAX_VMS)%N ∧ ∃ vm,
      k_registry k' = <[id := vm]> (k_registry k) ∧ vm_state vm = Created ∧ last_exit_reason vm = None ∧
      confined (k_cpu k') (vm_vmcs_pa vm) (vm_eptp vm) ∧
      ∀ gpa, if decide (page_of gpa = 1%N)
             then ∃ h, translate (guest_ept vm) (k_frames k') gpa = Ok h ∧
                    ∀ b, req_blob req !! N.to_nat (gpa mod PAGE_SIZE) = Some b → peek (k_frames k') h = b
             else is_ok (translate (guest_ept vm) (k_frames k') gpa) = false
  | Err _ => k_registry k' = k_registry k
  end.
Proof.
  intros Hk Hn.
  pose proof (create_vm_spec req fr k n Hk Hn) as Hc. destruct (create_vm req k) as [[id|e] k'];
    destruct Hc as (_&_&Hc); [|done].
  destruct Hc as (k2&vm&frame&Hq&Hcr&->). destruct Hcr as (Hlt&Hnone&_&Hst&Hex&_&Hgood&_&_&Hbytes).
  destruct Hgood as (_&_&_&Hm&_&_&_&Hept).
  split; [done|]. split; [done|]. exists vm. destruct Hq as (_&_&Er&_). simpl. rewrite Er.
  do 4 (split; [done|]). intros gpa. pose proof (guest_translate _ _ _ gpa Hm) as Ht.
  assert (page_addr frame) as Hpg by (eapply law_page, Hm). specialize (Ht Hpg).
  destruct (decide (page_of gpa = 1%N)); [|done]. eexists. split; [exact Ht|].
  intros b Hb'%Hbytes. by rewrite N2Nat.id in Hb'.
Qed.

(** Creating a guest.  After any calls, an accepted [create_vm] takes a
    slot that held no VM, records a VM in state [Created] with no exit, and
    leaves a guest whose only page, at 0x1000, holds the boot blob at its
    start: every other address is unmapped, and the guest's VMCS points to its
    tables.  A refused one, at any step, records no VM. *)
Theorem create_loads_guest k0 cs req :
  boot_state k0 → fp_room (calls_room (cs ++ [CCreate req])) (k_frames k0) →
  let k := run_calls cs k0 in
  let '(r, k') := create_vm req k in
  match r with
  | Ok id => k_registry k !! id = None ∧ (id < MAX_VMS)%N ∧ ∃ vm,
      k_registry k' = <[id := vm]> (k_registry k) ∧ vm_state vm = Created ∧ last_exit_reason vm = None ∧
      confined (k_cpu k') (vm_vmcs_pa vm) (vm_eptp vm) ∧
      ∀ gpa, if decide (page_of gpa = 1%N)
             then ∃ h, translate (guest_ept vm) (k_frames k') gpa = Ok h ∧
                    ∀ b, req_blob req !! N.to_nat (gpa mod PAGE_SIZE) = Some b → peek (k_frames k') h = b
             else is_ok (translate (guest_ept vm) (k_frames k') gpa) = false
  | Err _ => k_registry k' = k_registry k
  end.
Proof.
  intros Hb Hroom k. rewrite calls_room_app in Hroom.
  destruct (run_calls_spec cs (λ _, 0%N) k0 _ (boot_kinv k0 _ Hb) Hroom) as (fr&Hk&Hn&_).
  exact (create_vm_loads req fr k 0 Hk Hn).
Qed.

(** C7: VMs follow their lifecycle.  Whatever calls are made after some point,
    every VM stays in its slot, with its id, VMCS and tables; its state, always
    one of the five, moves only along the edges Created to Running or Stopped,
    and Running to Halted, Faulted or Stopped; a terminal VM stays as it is
    for ever, and a tombstone is only ever put on a terminal VM. *)
Theorem vms_follow_lifecycle k0 cs cs' :
  boot_state k0 → fp_room (calls_room (cs ++ cs')) (k_frames k0) →
  let k := run_calls cs k0 in
  let k' := run_calls cs' k in
  (∀ j vm, k_registry k !! j = Some vm →
     (j < MAX_VMS)%N ∧ vm_id vm = j ∧ from_u32 (vm_raw_state vm) = Some (vm_state vm) ∧
     ∃ vm', k_registry k' !! j = Some vm' ∧ later vm vm' ∧
       (is_terminal (vm_state vm) = true → vm_state vm' = vm_state vm)) ∧
  ∀ j, N.testbit (k_deleted k) j = true →
    ∃ vm, k_registry k !! j = Some vm ∧ is_terminal (vm_state vm) = true.
Proof.
  intros Hb Hroom k k'. rewrite calls_room_app in Hroom.
  destruct (run_calls_spec cs (λ _, 0%N) k0 _ (boot_kinv k0 _ Hb) Hroom) as (fr&Hk&Hn&_). fold k in Hk, Hn.
  assert (fp_room (calls_room cs' + 0) (k_frames k)) as Hn' by (eapply law_room; [|exact Hn]; lia).
  destruct (run_calls_spec cs' fr k 0 Hk Hn') as (fr'&_&_&Hl). fold k' in Hl.
  pose proof Hk as (Hg&_&Hd&_). split; [|exact Hd].
  intros j vm Hj. destruct (Hg j vm Hj) as ((?&?&[s Hs]&_)&_). split; [done|]. split; [done|]. split.
  - unfold vm_state. by rewrite Hs, from_state_code.
  - destruct (Hl j vm Hj) as (vm'&?&Hla). exists vm'. split; [done|]. split; [done|].
    apply terminal_stays. apply Hla.
Qed.
End run.

(** ** A run *)
Definition sim_kernel : Kernel Sim.t KernelFrames.t := mkKernel witness_pool sim_cpu false 0 ∅ 0 0 None.
Definition sim_req (b : byte) : CreateVmRequest := mkCreateVmRequest [b; xf4] 0x1000 0.
(** Two guests; the first one has run. *)
Definition sim_calls : list call := [CInit; CCreate (sim_req x90); CCreate (sim_req x91); CStart 0].

Lemma sim_boot : boot_state sim_kernel.
Proof. done. Qed.

(** The second guest runs and writes its own memory; the first sees nothing. *)
Lemma guests_isolated_witness :
  let k := run_calls sim_calls sim_kernel in
  let k' := run_call (CStart 1) k in
  let v0 := default (vm_new 9 0 0) (k_registry k !! 0%N) in
  let v1 := default (vm_new 9 0 0) (k_registry k !! 1%N) in
  (∀ gpa h, translate (guest_ept v0) (k_frames k') gpa = Ok h ↔ translate (guest_ept v0) (k_frames k) gpa = Ok h) ∧
  (k_registry k' !! 0%N = Some v0 ∧
   ∀ gpa h, translate (guest_ept v0) (k_frames k) gpa = Ok h → peek (k_frames k') h = peek (k_frames k) h) ∧
  (peek (k_frames k) <$> translate (guest_ept v1) (k_frames k) 0x1000) = Ok x91 ∧
  (peek (k_frames k') <$> translate (guest_ept v1) (k_frames k') 0x1000) = Ok x2a ∧
  vm_state v0 = Halted ∧ vm_state v1 = Created.
Proof.
  intros k k' v0 v1.
  assert (fp_room (calls_room (sim_calls ++ [CStart 1])) (k_frames sim_kernel)) as Hr
    by (apply witness_room; simpl; lia).
  assert (k_registry k !! 0%N = Some v0) as Hj by (vm_compute; reflexivity).
  destruct (guests_isolated sim_kernel sim_calls (CStart 1) sim_boot Hr 0%N v0 Hj) as (_&Ht&Hm&_).
  split; [exact Ht|]. split; [apply Hm; discriminate|].
  split; [vm_compute; reflexivity|]. split; [vm_compute; reflexivity|].
  split; vm_compute; reflexivity.
Defined.

Lemma create_loads_guest_witness :
  let k := run_calls sim_calls sim_kernel in
  let '(r, k') := create_vm (sim_req x92) k in
  r = Ok 2%N ∧ ∃ vm, k_registry k' !! 2%N = Some vm ∧ vm_state vm = Created ∧
    ∃ h, translate (guest_ept vm) (k_frames k') 0x1001 = Ok h ∧ peek (k_frames k') h = xf4.
Proof.
  intros k.
  assert (fp_room (calls_room (sim_calls ++ [CCreate (sim_req x92)])) (k_frames sim_kernel)) as Hr
    by (apply witness_room; simpl; lia).
  assert ((create_vm (sim_req x92) k).1 = Ok 2%N) as Hok by (vm_compute; reflexivity).
  pose proof (create_loads_guest sim_kernel sim_calls (sim_req x92) sim_boot Hr) as Hc.
  cbv zeta in Hc. fold k in Hc. clearbody k.
  destruct (create_vm (sim_req x92) k) as [r k']. cbn [fst] in Hok. subst r. split; [reflexivity|].
  destruct Hc as (_&_&vm&Hreg&Hst&_&_&Hgpa). exists vm. rewrite Hreg, lookup_insert_eq.
  split; [reflexivity|]. split; [exact Hst|].
  specialize (Hgpa 0x1001%N). destruct (decide (page_of 0x1001 = 1%N)) as [_|Hne]; [|by destruct Hne].
  destruct Hgpa as (h&Hh&Hb). exists h. split; [exact Hh|]. apply Hb. vm_compute. reflexivity.
Defined.

Lemma vms_follow_lifecycle_witness :
  let k := run_calls sim_calls sim_kernel in
  let k' := run_calls [CStop 0; CStop 1; CDelete 1] k in
  let v0 := default (vm_new 9 0 0) (k_registry k !! 0%N) in
  (∃ v0', k_registry k' !! 0%N = Some v0' ∧ later v0 v0' ∧ vm_state v0' = Halted) ∧
  ∃ v1, k_registry k' !! 1%N = Some v1 ∧ is_terminal (vm_state v1) = true.
Proof.
  intros k k' v0. subst k'.
  assert (fp_room (calls_room (sim_calls ++ [CStop 0; CStop 1; CDelete 1])) (k_frames sim_kernel)) as Hr
    by (apply witness_room; simpl; lia).
  assert (fp_room (calls_room ((sim_calls ++ [CStop 0; CStop 1; CDelete 1]) ++ [])) (k_frames sim_kernel)) as Hr'
    by (apply witness_room; simpl; lia).
  assert (k_registry k !! 0%N = Some v0) as Hj by (vm_compute; reflexivity).
  split.
  - destruct (vms_follow_lifecycle sim_kernel sim_calls [CStop 0; CStop 1; CDelete 1] sim_boot Hr) as [Hl _].
    destruct (Hl 0%N v0 Hj) as (_&_&_&v0'&Hj'&Hla&Hterm). exists v0'. split; [exact Hj'|]. split; [exact Hla|].
    rewrite Hterm; vm_compute; reflexivity.
  - destruct (vms_follow_lifecycle sim_kernel (sim_calls ++ [CStop 0; CStop 1; CDelete 1]) [] sim_boot Hr')
      as [_ Hd].
    assert (run_calls [CStop 0; CStop 1; CDelete 1] k = run_calls (sim_calls ++ [CStop 0; CStop 1; CDelete 1]) sim_kernel) as ->
      by (unfold run_calls; rewrite fold_left_app; reflexivity).
    apply (Hd 1%N). vm_compute. reflexivity.
Defined.

(** ** The names of VMs

    [path_for] and [resolve_path] of crates/celhyper/src/manager.rs are inverse
    to each other on the VMs there are, and the digit buffer of [format_u32]
    is large enough for every u32. *)
Lemma string_of_app l1 l2 s : string_of (l1 ++ l2) +:+ s = string_of l1 +:+ (string_of l2 +:+ s).
Proof. induction l1 as [|c l1 IH]; [done|]. cbn [app string_of]. by rewrite !app_string_cons, IH. Qed.

Lemma pretty_char d : (d < 10)%N → ascii_of_N (48 + d) = pretty_N_char d.
Proof.
  intros Hd. assert (In d [0; 1; 2; 3; 4; 5; 6; 7; 8; 9]%N) as Hin by (simpl; lia).
  repeat (destruct Hin as [<-|Hin]; [done|]). done.
Qed.

(** Enough room for the digits gives the decimal rendering. *)
Lemma decimal_digits_go buf n s :
  (n < 10 ^ N.of_nat buf)%N →
  ∃ ds, decimal_digits buf n = Some ds ∧ string_of (reverse ds) +:+ s = pretty_N_go n s.
Proof.
  revert n s. induction buf as [|buf IH]; intros n s Hn.
  - change (10 ^ N.of_nat 0)%N with 1%N in Hn. assert (n = 0%N) as -> by lia. exists []. done.
  - cbn [decimal_digits]. destruct (N.eqb_spec n 0) as [->|Hpos].
    + exists []. by rewrite pretty_N_go_0.
    + destruct (IH (n / 10)%N (String (pretty_N_char (n mod 10)) s)) as (ds&E&Hs).
      { apply N.Div0.div_lt_upper_bound. rewrite Nat2N.inj_succ, N.pow_succ_r' in Hn. lia. }
      exists (ascii_of_N (48 + n mod 10) :: ds). rewrite E. split; [done|].
      rewrite reverse_cons, string_of_app, pretty_N_go_step by lia. rewrite <-Hs.
      rewrite pretty_char by by apply N.mod_lt. done.
Qed.

Lemma string_app_nil s : s +:+ EmptyString = s.
Proof. induction s as [|c s IH]; [done|]. by rewrite app_string_cons, IH. Qed.

Lemma format_u32_fmt n : fits 32 n → format_u32 n = Some (fmt_u n).
Proof.
  intros Hn. unfold format_u32, fmt_u, pretty, pretty_N. destruct (N.eqb_spec n 0) as [->|Hpos]; [done|].
  rewrite decide_False by done.
  destruct (decimal_digits_go (N.to_nat U32_DECIMAL_MAX) n EmptyString) as (ds&->&Hs).
  { unfold fits in Hn. rewrite N2Nat.id. unfold U32_DECIMAL_MAX.
    change (10 ^ 10)%N with 10000000000%N. change (2 ^ 32)%N with 4294967296%N in Hn. lia. }
  simpl. by rewrite <-Hs, string_app_nil.
Qed.

Section paths.
Context {C P : Type} `{Cpu C P} `{FrameProvider P}.
Implicit Types (k : Kernel C P).

(** A VM's path names it.  In a buffer of the documented size [path_for]
    renders every u32 without running over its digit buffer, and resolving the
    rendered path answers exactly what looking the id up does: the id if the
    slot holds a VM, and the lookup's refusal if not.  A smaller buffer is
    refused. *)
Theorem path_roundtrip id buf :
  fits 32 id →
  ((buf < 15)%N → path_for id buf = Some (Err (Exhausted "path_for: buffer too small"))) ∧
  ((15 ≤ buf)%N → ∃ s, path_for id buf = Some (Ok s) ∧
     ∀ k, resolve_path s k = (_ ← lookup id k; Ok id)).
Proof.
  intros Hid. unfold path_for. change (len VM_NAMESPACE_ROOT + 1 + U32_DECIMAL_MAX)%N with 15%N.
  destruct (N.ltb_spec buf 15); (split; [intros|intros]); [done|lia|lia|].
  rewrite format_u32_fmt by done. eexists. split; [done|]. intros k. unfold resolve_path.
  rewrite strip_prefix_app. cbn [ok_or mbind result_bind].
  change (strip_prefix "/" (String "/" (fmt_u id))) with (Some (fmt_u id)).
  cbn [ok_or mbind result_bind]. rewrite (fmt_u_no_char "/" id eq_refl).
  assert (str_is_empty (fmt_u id) = false) as Hne.
  { pose proof (fmt_u_nonempty id). by destruct (fmt_u id). }
  unfold parse_u32. rewrite Hne. cbn [orb]. rewrite parse_digits_fmt_u by done. done.
Qed.
End paths.

Lemma path_roundtrip_witness :
  (path_for 4294967295 32) = Some (Ok "/vms/4294967295") ∧
  let k := mkKernel (C := Sim.t) (P := KernelFrames.t) (KernelFrames.mk 0 0 ∅) sim_cpu true 4
             {[ 2%N := vm_new 2 0 0 ]} 0 0 None in
  ∃ s, path_for 2 15 = Some (Ok s) ∧ resolve_path s k = Ok 2%N.
Proof.
  split; [vm_compute; reflexivity|]. intros k.
  destruct (path_roundtrip (C := Sim.t) (P := KernelFrames.t) 2 15) as [_ Hp]; [vm_compute; reflexivity|].
  destruct Hp as (s&Hs&Hr); [discriminate|]. exists s. split; [exact Hs|].
  rewrite Hr. vm_compute. reflexivity.
Defined.
