(* ===== verification/Wire.v ===== *)
(** * Wire: the kernel's end of the CelHyper bridge

    crates/celhyper/src/wire.rs: the decoder of request frames and the encoder
    of reply lines.  A [Scanner] is the part of the frame not read yet, in which
    strings and numbers are cut out between two positions, as in the code; a
    [Writer] is the part of the output buffer written so far, with its
    capacity.  The loops of the decoder carry fuel (the bytes left), and a slice
    out of bounds would be a panic: both show as [Stuck], which WireProofs.v
    proves never happens. *)
From S2P Require Import Prelude.
From S2P Require Import Vault.
From S2P Require Import HyperErr.
From Stdlib Require Import Strings.Byte.

Definition LABEL_MAX : N := 32.
Definition IMAGE_PATH_MAX : N := 128.
Definition ERROR_MSG_MAX : N := 96.
Definition ROWS_MAX : nat := 4.

Inductive Halt := Fail (e : HyperError) | Stuck.

(** Byte strings: in [q] a quote stands for the double quote. *)
Definition b (s : string) : bytes := String.list_byte_of_string s.
Definition q (s : string) : bytes := (λ c, if decide (c = x27) then x22 else c) <$> b s.

Inductive Request :=
| RCreate (label : bytes) (image_path : option bytes) (cpu_count : option N)
          (memory_mib : option N) (boot_blob_crc32c : option N)
| RStart (vm_id : N)
| RStop (vm_id : N)
| RDelete (vm_id : N)
| RList
| RImageLoad (len crc32c : N) (bytes_hex : bytes).

Inductive StateTag := TCreated | TRunning | THalted | TStopped | TFaulted.
Definition as_str (t : StateTag) : string :=
  match t with
  | TCreated => "created" | TRunning => "running" | THalted => "halted"
  | TStopped => "stopped" | TFaulted => "faulted"
  end.

(** [LabelBuf], [ImagePathBuf] and [ErrorBuf]: a fixed array and the length of
    its valid prefix. *)
Record Buf := mkBuf { buf_bytes : bytes; buf_len : N }.
Definition buf_empty (cap : N) : Buf := mkBuf (replicate (N.to_nat cap) x00) 0.
Definition buf_copy (cap : N) (src : bytes) : Buf :=
  mkBuf (src ++ drop (length src) (buf_bytes (buf_empty cap))) (blen src).
Definition buf_from_slice (cap : N) (src : bytes) : option Buf :=
  if (cap <? blen src)%N then None else Some (buf_copy cap src).
Definition as_slice (x : Buf) : bytes := take (N.to_nat (buf_len x)) (buf_bytes x).
Definition is_empty (x : Buf) : bool := (buf_len x =? 0)%N.
Definition from_slice_truncating (src : bytes) : Buf :=
  let n := if (ERROR_MSG_MAX <? blen src)%N then ERROR_MSG_MAX else blen src in
  buf_copy ERROR_MSG_MAX (take (N.to_nat n) src).

Record Row := mkRow {
  row_vm_id : N; row_label : Buf; row_state : StateTag; row_last_exit : option N;
  row_image_path : Buf; row_cpu_count : option N; row_memory_mib : option N;
  row_boot_blob_crc32c : option N
}.

Inductive Reply :=
| PCreated (vm_id : N)
| PState (vm_id : N) (state : StateTag) (last_exit : option N)
| PDeleted (vm_id : N)
| PListed (rows : list (option Row))
| PImageLoaded (len crc32c : N)
| PError (message : Buf).

(** ** Decoder *)
Abbreviation M := (st bytes Halt).

Definition fail {S A} (e : HyperError) : st S Halt A := mthrow (Fail e).

Definition peek : M (option byte) := s ← get_st; mret (head s).
Definition bump : M (option byte) := λ s,
  match s with [] => (Ok None, []) | c :: s' => (Ok (Some c), s') end.
Definition is_eof : M bool := s ← get_st; mret (bool_decide (s = [])).

Definition expect (want : byte) : M unit :=
  o ← bump;
  if decide (o = Some want) then mret tt else fail (Invalid "wire: unexpected byte").

Definition is_ws (c : byte) : bool := bool_decide (c ∈ [x20; x09; x0d; x0a]).
Fixpoint span (p : byte → bool) (s : bytes) : bytes * bytes :=
  match s with
  | [] => ([], [])
  | c :: s' => if p c then let '(l, r) := span p s' in (c :: l, r) else ([], s)
  end.
Definition skip_ws : M unit := modify (λ s, (span is_ws s).2).

(** [&buf[start..stop]], which panics out of bounds. *)
Definition buf_slice (buf : bytes) (start stop : nat) : result Halt bytes :=
  if decide (start ≤ stop ∧ stop ≤ length buf) then Ok (take (stop - start) (drop start buf))
  else Err Stuck.

(** A loop over positions, which are counted here from the first byte not read
    yet (the code counts them from the start of the frame): its result, and the
    position it leaves. *)
Definition from_here {A} (f : bytes → result Halt A * nat) : M A :=
  λ s, let '(r, pos) := f s in (r, drop pos s).

(** The loop of [string] up to the closing quote. *)
Fixpoint string_loop (fuel : nat) (buf : bytes) (start pos : nat) : result Halt bytes * nat :=
  match fuel with
  | O => (Err Stuck, pos)
  | S fuel' =>
      match buf !! pos with
      | None => (Err (Fail (Invalid "wire: unterminated string")), pos)
      | Some c =>
          if decide (c = x22) then
            match buf_slice buf start pos with Ok s => (Ok s, S pos) | Err e => (Err e, pos) end
          else if decide (c = x5c) then (Err (Fail (Invalid "wire: escapes not allowed")), pos)
          else string_loop fuel' buf start (S pos)
      end
  end.
Definition scan_string : M bytes :=
  _ ← expect x22; from_here (λ buf, string_loop (S (length buf)) buf 0 0).

Definition is_digit (c : byte) : bool := bool_decide (48 ≤ Byte.to_N c ≤ 57)%N.
Fixpoint digits_value (w acc : N) (ds : bytes) : option N :=
  match ds with
  | [] => Some acc
  | d :: ds' => v ← checked_mul w acc 10; v ← checked_add w v (Byte.to_N d - 48); digits_value w v ds'
  end.

(** The loop over the digits: the position after them. *)
Fixpoint digits_stop (fuel : nat) (buf : bytes) (pos : nat) : nat :=
  match fuel, buf !! pos with
  | S fuel', Some c => if is_digit c then digits_stop fuel' buf (S pos) else pos
  | _, _ => pos
  end.

(** [u32_value] and [u64_value]. *)
Definition number (w : N) (overflow : string) : M N :=
  from_here (λ buf,
    let stop := digits_stop (length buf) buf 0 in
    (if decide (stop = 0) then Err (Fail (Invalid "wire: expected number"))
     else ds ← buf_slice buf 0 stop; ok_or (digits_value w 0 ds) (Fail (Invalid overflow)), stop)).
Definition u32_value : M N := number 32 "wire: u32 overflow".
Definition u64_value : M N := number 64 "wire: u64 overflow".

Definition try_consume_null : M bool :=
  s ← get_st;
  if decide (take 4 s = b "null") then _ ← put_st (drop 4 s); mret true else mret false.

(** The loop of [skip_value] over an object or array. *)
Fixpoint skip_nested (fuel : nat) (open close : byte) (depth : nat) : M unit :=
  match fuel with
  | O => mthrow Stuck
  | S fuel' =>
      match depth with
      | O => mret tt
      | S depth' =>
          _ ← skip_ws;
          o ← peek;
          match o with
          | None => fail (Invalid "wire: eof")
          | Some c =>
              if decide (c = x22) then _ ← scan_string; skip_nested fuel' open close depth
              else if decide (c = open) then _ ← bump; skip_nested fuel' open close (S depth)
              else if decide (c = close) then _ ← bump; skip_nested fuel' open close depth'
              else _ ← bump; skip_nested fuel' open close depth
          end
      end
  end.

Definition is_delimiter (c : byte) : bool := bool_decide (c ∈ [x2c; x7d; x5d; x20; x09; x0d; x0a]).
Definition skip_value : M unit :=
  _ ← skip_ws;
  s ← get_st;
  match head s with
  | None => fail (Invalid "wire: eof in value")
  | Some c =>
      if decide (c = x22) then _ ← scan_string; mret tt
      else if decide (c = x7b ∨ c = x5b)
           then _ ← bump; skip_nested (S (length s)) c (if decide (c = x7b) then x7d else x5d) 1
           else modify (λ s, (span (λ c, negb (is_delimiter c)) s).2)
  end.

(** The locals of [decode_request]. *)
Record Fields := mkFields {
  f_op : option bytes; f_label : option bytes; f_vm_id : option N; f_image_path : option bytes;
  f_cpu_count : option N; f_memory_mib : option N; f_boot_blob_crc32c : option N;
  f_len : option N; f_crc32c : option N; f_bytes_hex : option bytes
}.
Definition no_fields : Fields := mkFields None None None None None None None None None None.

Definition set_op v f := mkFields v (f_label f) (f_vm_id f) (f_image_path f) (f_cpu_count f) (f_memory_mib f) (f_boot_blob_crc32c f) (f_len f) (f_crc32c f) (f_bytes_hex f).
Definition set_label v f := mkFields (f_op f) v (f_vm_id f) (f_image_path f) (f_cpu_count f) (f_memory_mib f) (f_boot_blob_crc32c f) (f_len f) (f_crc32c f) (f_bytes_hex f).
Definition set_vm_id v f := mkFields (f_op f) (f_label f) v (f_image_path f) (f_cpu_count f) (f_memory_mib f) (f_boot_blob_crc32c f) (f_len f) (f_crc32c f) (f_bytes_hex f).
Definition set_image_path v f := mkFields (f_op f) (f_label f) (f_vm_id f) v (f_cpu_count f) (f_memory_mib f) (f_boot_blob_crc32c f) (f_len f) (f_crc32c f) (f_bytes_hex f).
Definition set_cpu_count v f := mkFields (f_op f) (f_label f) (f_vm_id f) (f_image_path f) v (f_memory_mib f) (f_boot_blob_crc32c f) (f_len f) (f_crc32c f) (f_bytes_hex f).
Definition set_memory_mib v f := mkFields (f_op f) (f_label f) (f_vm_id f) (f_image_path f) (f_cpu_count f) v (f_boot_blob_crc32c f) (f_len f) (f_crc32c f) (f_bytes_hex f).
Definition set_boot_blob v f := mkFields (f_op f) (f_label f) (f_vm_id f) (f_image_path f) (f_cpu_count f) (f_memory_mib f) v (f_len f) (f_crc32c f) (f_bytes_hex f).
Definition set_len v f := mkFields (f_op f) (f_label f) (f_vm_id f) (f_image_path f) (f_cpu_count f) (f_memory_mib f) (f_boot_blob_crc32c f) v (f_crc32c f) (f_bytes_hex f).
Definition set_crc v f := mkFields (f_op f) (f_label f) (f_vm_id f) (f_image_path f) (f_cpu_count f) (f_memory_mib f) (f_boot_blob_crc32c f) (f_len f) v (f_bytes_hex f).
Definition set_bytes_hex v f := mkFields (f_op f) (f_label f) (f_vm_id f) (f_image_path f) (f_cpu_count f) (f_memory_mib f) (f_boot_blob_crc32c f) (f_len f) (f_crc32c f) v.

Definition required {A} (m : M A) : M (option A) := _ ← skip_ws; v ← m; mret (Some v).
Definition nullable {A} (m : M A) : M (option A) :=
  _ ← skip_ws;
  null ← try_consume_null;
  if null : bool then mret None else v ← m; mret (Some v).

(** The match on the key. *)
Definition read_field (key : bytes) (f : Fields) : M Fields :=
  if decide (key = b "op") then v ← required scan_string; mret (set_op v f)
  else if decide (key = b "label") then v ← required scan_string; mret (set_label v f)
  else if decide (key = b "vm_id") then v ← required u32_value; mret (set_vm_id v f)
  else if decide (key = b "image_path") then v ← nullable scan_string; mret (set_image_path v f)
  else if decide (key = b "cpu_count") then v ← nullable u32_value; mret (set_cpu_count v f)
  else if decide (key = b "memory_mib") then v ← nullable u64_value; mret (set_memory_mib v f)
  else if decide (key = b "boot_blob_crc32c") then v ← nullable u32_value; mret (set_boot_blob v f)
  else if decide (key = b "len") then v ← required u32_value; mret (set_len v f)
  else if decide (key = b "crc32c") then v ← required u32_value; mret (set_crc v f)
  else if decide (key = b "bytes_hex") then v ← required scan_string; mret (set_bytes_hex v f)
  else _ ← skip_value; mret f.

Fixpoint fields_loop (fuel : nat) (f : Fields) : M Fields :=
  match fuel with
  | O => mthrow Stuck
  | S fuel' =>
      _ ← skip_ws;
      o ← peek;
      if decide (o = Some x7d) then _ ← bump; mret f
      else
        key ← scan_string;
        _ ← skip_ws;
        _ ← expect x3a;
        f ← read_field key f;
        _ ← skip_ws;
        o ← peek;
        if decide (o = Some x2c) then _ ← bump; fields_loop fuel' f
        else _ ← expect x7d; mret f
  end.

Definition of_opt {A} (o : option A) (msg : string) : result Halt A := ok_or o (Fail (Invalid msg)).
Definition refuse {A} (msg : string) : result Halt A := Err (Fail (Invalid msg)).

(** From the fields to the request. *)
Definition build_request (f : Fields) : result Halt Request :=
  op ← of_opt (f_op f) "wire: request missing op";
  if decide (op = b "create") then
    lbl ← of_opt (f_label f) "wire: create missing label";
    if (LABEL_MAX <? blen lbl)%N then refuse "wire: label > 32 chars"
    else if (IMAGE_PATH_MAX <? from_option blen 0 (f_image_path f))%N
         then refuse "wire: image_path > 128 chars"
    else Ok (RCreate lbl (f_image_path f) (f_cpu_count f) (f_memory_mib f) (f_boot_blob_crc32c f))
  else if decide (op = b "start") then
    id ← of_opt (f_vm_id f) "wire: start missing vm_id"; Ok (RStart id)
  else if decide (op = b "stop") then
    id ← of_opt (f_vm_id f) "wire: stop missing vm_id"; Ok (RStop id)
  else if decide (op = b "delete") then
    id ← of_opt (f_vm_id f) "wire: delete missing vm_id"; Ok (RDelete id)
  else if decide (op = b "list") then Ok RList
  else if decide (op = b "image_load") then
    len ← of_opt (f_len f) "wire: image_load missing len";
    crc ← of_opt (f_crc32c f) "wire: image_load missing crc32c";
    hex ← of_opt (f_bytes_hex f) "wire: image_load missing bytes_hex";
    if negb (blen hex =? saturating_mul 64 len 2)%N
    then refuse "wire: image_load bytes_hex length != 2*len"
    else Ok (RImageLoad len crc hex)
  else refuse "wire: unknown op".

Definition decode_steps (frame : bytes) : M Request :=
  _ ← expect x7b;
  f ← fields_loop (S (length frame)) no_fields;
  _ ← skip_ws;
  eof ← is_eof;
  _ ← bail_if (negb eof) (Fail (Invalid "wire: trailing bytes after request"));
  try (build_request f).
Definition decode_request (frame : bytes) : result Halt Request := (decode_steps frame frame).1.

(** ** Encoder *)
Record Writer := mkWriter { w_cap : N; w_out : bytes }.
Abbreviation W := (st Writer Halt).
Definition pos (w : Writer) : N := blen (w_out w).
Definition full {A} : W A := fail (Exhausted "wire: reply buffer too small").

Definition put_u8 (c : byte) : W unit :=
  w ← get_st;
  if (w_cap w <=? pos w)%N then full
  else put_st (mkWriter (w_cap w) (w_out w ++ [c])).
Definition put_str (s : bytes) : W unit :=
  w ← get_st;
  if (w_cap w <? pos w + blen s)%N then full
  else put_st (mkWriter (w_cap w) (w_out w ++ s)).

(** The digit loop: [i] free bytes before the digits written; [None] is the
    panic of the index. *)
Definition digit_byte (d : N) : byte := default x00 (Byte.of_N (48 + d)).
Fixpoint digit_loop (i : nat) (n : N) (acc : bytes) : option bytes :=
  if (n =? 0)%N then Some acc
  else match i with
       | O => None
       | S i' => digit_loop i' (n / 10) (digit_byte (n mod 10) :: acc)
       end.
Definition put_num (buf : nat) (v : N) : W unit :=
  match (if (v =? 0)%N then Some [digit_byte 0] else digit_loop buf v []) with
  | Some ds => put_str ds
  | None => mthrow Stuck
  end.
Definition put_u32 : N → W unit := put_num 10.
Definition put_u64 : N → W unit := put_num 20.

(** [if let Some(v) = o { put_str(key); put(v) }]. *)
Definition put_opt {A} (key : string) (put : A → W unit) (o : option A) : W unit :=
  match o with Some v => _ ← put_str (q key); put v | None => mret tt end.

Definition put_row (row : Row) : W unit :=
  _ ← put_str (q "{'vm_id':");
  _ ← put_u32 (row_vm_id row);
  _ ← put_str (q ",'label':'");
  _ ← put_str (as_slice (row_label row));
  _ ← put_str (q "','state':'");
  _ ← put_str (b (as_str (row_state row)));
  _ ← put_u8 x22;
  _ ← put_opt ",'last_exit':" put_u32 (row_last_exit row);
  _ ← (if is_empty (row_image_path row) then mret tt
       else _ ← put_str (q ",'image_path':'"); _ ← put_str (as_slice (row_image_path row)); put_u8 x22);
  _ ← put_opt ",'cpu_count':" put_u32 (row_cpu_count row);
  _ ← put_opt ",'memory_mib':" put_u64 (row_memory_mib row);
  _ ← put_opt ",'boot_blob_crc32c':" put_u32 (row_boot_blob_crc32c row);
  put_u8 x7d.

Fixpoint put_rows (first : bool) (rows : list Row) : W unit :=
  match rows with
  | [] => mret tt
  | row :: rows' =>
      _ ← (if first then mret tt else put_u8 x2c);
      _ ← put_row row;
      put_rows false rows'
  end.

(** The bytes of an error message, escaped; control bytes are dropped. *)
Definition put_escaped (c : byte) : W unit :=
  if decide (c = x22) then put_str [x5c; x22]
  else if decide (c = x5c) then put_str [x5c; x5c]
  else if decide (Byte.to_N c ≤ 0x1F)%N then mret tt
  else put_u8 c.
Fixpoint put_message (s : bytes) : W unit :=
  match s with [] => mret tt | c :: s' => _ ← put_escaped c; put_message s' end.

Definition put_reply (reply : Reply) : W unit :=
  match reply with
  | PCreated id =>
      _ ← put_str (q "{'reply':'created','vm_id':"); _ ← put_u32 id; put_u8 x7d
  | PState id state last_exit =>
      _ ← put_str (q "{'reply':'state','vm_id':");
      _ ← put_u32 id;
      _ ← put_str (q ",'state':'");
      _ ← put_str (b (as_str state));
      _ ← put_u8 x22;
      _ ← put_opt ",'last_exit':" put_u32 last_exit;
      put_u8 x7d
  | PDeleted id =>
      _ ← put_str (q "{'reply':'deleted','vm_id':"); _ ← put_u32 id; put_u8 x7d
  | PListed rows =>
      _ ← put_str (q "{'reply':'listed','rows':["); _ ← put_rows true (omap id rows); put_str (b "]}")
  | PError message =>
      _ ← put_str (q "{'reply':'error','message':'"); _ ← put_message (as_slice message); put_str (q "'}")
  | PImageLoaded len crc =>
      _ ← put_str (q "{'reply':'image_loaded','len':");
      _ ← put_u32 len;
      _ ← put_str (q ",'crc32c':");
      _ ← put_u32 crc;
      put_u8 x7d
  end.

(** The answer is the length of the line; the line is in the writer. *)
Definition encode_reply (reply : Reply) (cap : N) : result Halt N * Writer :=
  (_ ← put_reply reply; _ ← put_u8 x0a; w ← get_st; mret (pos w)) (mkWriter cap []).

(** ** Hex *)
Definition hex_nibble (c : byte) : HyperResult N :=
  let n := Byte.to_N c in
  if decide (48 ≤ n ≤ 57)%N then Ok (n - 48)%N
  else if decide (97 ≤ n ≤ 102)%N then Ok (10 + (n - 97))%N
  else Err (Invalid "wire: hex_decode non-hex byte").
(** The loop of [hex_decode]: the answer, and the bytes written before the
    first bad digit. *)
Fixpoint hex_bytes (src : bytes) : HyperResult unit * bytes :=
  match src with
  | hi :: lo :: src' =>
      match (h ← hex_nibble hi; l ← hex_nibble lo;
             Ok (default x00 (Byte.of_N (N.lor (N.shiftl h 4) l)))) with
      | Ok c => let '(r, out) := hex_bytes src' in (r, c :: out)
      | Err e => (Err e, [])
      end
  | _ => (Ok tt, [])
  end.
(** [hex_decode] into [dst], which is returned with the bytes written. *)
Definition hex_decode (src dst : bytes) : HyperResult N * bytes :=
  if negb (blen src mod 2 =? 0)%N then (Err (Invalid "wire: hex_decode odd input length"), dst)
  else if (blen dst <? blen src / 2)%N
       then (Err (Exhausted "wire: hex_decode dst too small"), dst)
  else let '(r, out) := hex_bytes src in
       ((λ _, blen src / 2)%N <$> r, out ++ drop (length out) dst).
