(* ===== verification/WireProofs.v ===== *)
(** * WireProofs: the bridge's codec

    The decoder terminates on every frame and only answers requests within the
    documented limits; it reads every well-formed object, with any white
    space, field order and unknown fields; and every reply fits the transmit
    buffer and is exactly one line. *)
From S2P Require Import Prelude.
From S2P Require Import Vault.
From S2P Require Import HyperErr.
From S2P Require Import Wire.
From Stdlib Require Import Strings.Byte.

(** ** Strings and numbers, without positions *)
Lemma buf_slice_app l r : buf_slice (l ++ r) 0 (length l) = Ok l.
Proof.
  unfold buf_slice. rewrite decide_True by (rewrite length_app; lia).
  by rewrite Nat.sub_0_r, drop_0, take_app_length.
Qed.

(** The string up to the closing quote, and what follows it. *)
Fixpoint string_body (s : bytes) : result Halt bytes * bytes :=
  match s with
  | [] => (Err (Fail (Invalid "wire: unterminated string")), [])
  | c :: s' =>
      if decide (c = x22) then (Ok [], s')
      else if decide (c = x5c) then (Err (Fail (Invalid "wire: escapes not allowed")), s)
      else let '(r, rest) := string_body s' in (cons c <$> r, rest)
  end.

Lemma string_loop_spec fuel l s : length s < fuel →
  from_here (λ buf, string_loop fuel buf 0 (length l)) (l ++ s) =
  (app l <$> (string_body s).1, (string_body s).2).
Proof.
  unfold from_here. revert l s. induction fuel as [|fuel IH]; intros l s Hf; [lia|].
  cbn [string_loop]. rewrite lookup_app_r, Nat.sub_diag by done.
  destruct s as [|c s]; cbn [lookup list_lookup string_body].
  { by rewrite drop_app_length. }
  case_decide as Eq; [subst c|case_decide as Es].
  - rewrite buf_slice_app. cbn [fst snd]. change (l ++ x22 :: s) with (l ++ [x22] ++ s).
    rewrite (assoc_L app), drop_app_length' by (rewrite length_app; simpl; lia).
    cbn. by rewrite app_nil_r.
  - by rewrite drop_app_length.
  - pose proof (IH (l ++ [c]) s) as H. rewrite length_app, <-(assoc_L app) in H.
    replace (length l + length [c]) with (S (length l)) in H by (simpl; lia).
    change ([c] ++ s) with (c :: s) in H. rewrite H by (simpl in Hf; lia).
    destruct (string_body s) as [[r|e] rest]; [|done]. cbn. by rewrite <-(assoc_L app).
Qed.

Lemma scan_string_eq s : scan_string s = (_ ← expect x22; string_body) s.
Proof.
  unfold scan_string, mbind, st_bind. destruct (expect x22 s) as [[u|e] s']; [|done].
  pose proof (string_loop_spec (S (length s')) [] s' ltac:(lia)) as H. simpl app in H. cbn [length] in H.
  etransitivity; [exact H|]. by destruct (string_body s') as [[r|e] rest].
Qed.

Lemma digits_stop_spec fuel l s : length s ≤ fuel →
  digits_stop fuel (l ++ s) (length l) = length (l ++ (span is_digit s).1).
Proof.
  revert l s. induction fuel as [|fuel IH]; intros l s Hf.
  { destruct s; [|simpl in Hf; lia]. simpl. by rewrite app_nil_r. }
  cbn [digits_stop]. rewrite lookup_app_r, Nat.sub_diag by done.
  destruct s as [|c s]; cbn [lookup list_lookup span]; [by rewrite app_nil_r|].
  destruct (is_digit c); [|by rewrite app_nil_r].
  pose proof (IH (l ++ [c]) s) as H. rewrite length_app, <-!(assoc_L app) in H.
  replace (length l + length [c]) with (S (length l)) in H by (simpl; lia).
  change ([c] ++ s) with (c :: s) in H. rewrite H by (simpl in Hf; lia).
  by destruct (span is_digit s).
Qed.

Lemma span_app p s : (span p s).1 ++ (span p s).2 = s.
Proof.
  induction s as [|c s IH]; [done|]. cbn [span]. destruct (p c); [|done].
  destruct (span p s) as [l r]. cbn [fst snd] in *. simpl. by f_equal.
Qed.

(** The number of the digits that come first. *)
Lemma number_eq w o s : number w o s =
  (let '(ds, rest) := span is_digit s in
   (if decide (ds = []) then Err (Fail (Invalid "wire: expected number"))
    else ok_or (digits_value w 0 ds) (Fail (Invalid o)), rest)).
Proof.
  unfold number, from_here. pose proof (digits_stop_spec (length s) [] s ltac:(done)) as Hd.
  simpl in Hd. rewrite Hd. pose proof (span_app is_digit s) as Hs.
  destruct (span is_digit s) as [ds rest]. cbn [fst snd] in *. subst s.
  rewrite drop_app_length, buf_slice_app. destruct ds; [done|]. by rewrite !decide_False by done.
Qed.

(** ** The decoder's steps *)

(** A step that only reads on, and never gets stuck. *)
Definition calm {A} (m : st bytes Halt A) (s : bytes) : Prop :=
  (m s).1 ≠ Err Stuck ∧ (m s).2 `suffix_of` s.

Lemma calm_length {A} (m : st bytes Halt A) s : calm m s → length (m s).2 ≤ length s.
Proof. intros [_ Hs]. by apply suffix_length. Qed.

Lemma calm_bind {A B} (m : st bytes Halt A) (k : A → st bytes Halt B) s :
  calm m s → (∀ a s', m s = (Ok a, s') → calm (k a) s') → calm (m ≫= k) s.
Proof.
  unfold calm, mbind, st_bind. intros [Hr Hs] Hk. destruct (m s) as [[a|e] s'] eqn:E; cbn [fst snd] in *.
  - destruct (Hk a s' eq_refl) as [? ?]. split; [done|]. by etrans.
  - split; [|done]. congruence.
Qed.

Lemma calm_ret {A} (a : A) s : calm (mret a) s.
Proof. done. Qed.
Lemma calm_fail {A} e s : calm (fail e : st bytes Halt A) s.
Proof. done. Qed.
Lemma calm_get {B} (k : bytes → st bytes Halt B) s : calm (k s) s → calm (get_st ≫= k) s.
Proof. done. Qed.
Lemma calm_peek {B} (k : option byte → st bytes Halt B) s : calm (k (head s)) s → calm (peek ≫= k) s.
Proof. done. Qed.
Lemma calm_try {A} (r : result Halt A) s : r ≠ Err Stuck → calm (try r) s.
Proof. done. Qed.

Lemma span_suffix p s : (span p s).2 `suffix_of` s.
Proof. exists (span p s).1. by rewrite span_app. Qed.
Lemma span_Forall p s : Forall (λ c, p c = true) (span p s).1.
Proof.
  induction s as [|c s IH]; [constructor|]. cbn [span]. destruct (p c) eqn:E; [|constructor].
  destruct (span p s). cbn [fst] in *. by constructor.
Qed.

Lemma calm_put (f : bytes → bytes) s : f s `suffix_of` s → calm (modify f) s.
Proof. done. Qed.
Lemma calm_skip_ws s : calm skip_ws s.
Proof. apply calm_put, span_suffix. Qed.

Lemma bump_suffix s : (bump s).2 `suffix_of` s.
Proof. destruct s as [|c s]; [done|]. by exists [c]. Qed.
Lemma calm_bump s : calm bump s.
Proof. split; [by destruct s|apply bump_suffix]. Qed.
Lemma calm_expect c s : calm (expect c) s.
Proof.
  apply calm_bind; [apply calm_bump|]. intros o s' _. case_decide; [apply calm_ret|apply calm_fail].
Qed.

Lemma calm_string_body s : calm string_body s.
Proof.
  induction s as [|c s IH]; [done|]. unfold calm in *. cbn [string_body].
  case_decide; [split; [done|by exists [c]]|]. case_decide; [done|].
  destruct (string_body s) as [[r|e] rest]; destruct IH as [Hr Hs]; cbn [fst snd] in *;
    (split; [|by apply suffix_cons_r]); [done|]. simpl. intros [= ->]. done.
Qed.
Lemma calm_string s : calm scan_string s.
Proof.
  unfold calm. rewrite scan_string_eq.
  apply calm_bind; [apply calm_expect|]. intros _ s' _. apply calm_string_body.
Qed.

Lemma calm_number w o s : calm (number w o) s.
Proof.
  unfold calm. rewrite number_eq.
  pose proof (span_suffix is_digit s) as Hs. destruct (span is_digit s) as [ds rest]. cbn [fst snd] in *.
  split; [|done]. case_decide; [done|]. by destruct (digits_value _ _ _).
Qed.

Lemma calm_null s : calm try_consume_null s.
Proof.
  unfold try_consume_null. apply calm_get.
  case_decide; [|apply calm_ret]. apply calm_bind; [apply calm_put, suffix_drop|]. done.
Qed.

(** Reading a string or a byte that is there shortens what is left. *)
Lemma expect_Ok c s u s' : expect c s = (Ok u, s') → s = c :: s'.
Proof.
  unfold expect, mbind, st_bind. destruct s as [|d s]; simpl; [done|].
  case_decide as E; [|done]. injection E as ->. by intros [= _ ->].
Qed.
Lemma string_shorter s k s' : scan_string s = (Ok k, s') → length s' < length s.
Proof.
  rewrite scan_string_eq. intros (u&s1&He&Hb)%st_bind_Ok. apply expect_Ok in He as ->.
  pose proof (calm_length string_body s1 (calm_string_body s1)) as Hl. rewrite Hb in Hl. simpl in *. lia.
Qed.

Lemma calm_skip_nested fuel open close depth s :
  length s < fuel → calm (skip_nested fuel open close depth) s.
Proof.
  revert depth s. induction fuel as [|fuel IH]; intros depth s Hf; [lia|].
  cbn [skip_nested]. destruct depth as [|depth]; [apply calm_ret|].
  apply calm_bind; [apply calm_skip_ws|]. intros ? s1 E1.
  pose proof (calm_length _ _ (calm_skip_ws s)) as Hl. rewrite E1 in Hl. simpl in Hl.
  apply calm_peek.
  destruct s1 as [|c s1]; [apply calm_fail|]. cbn [head length] in *.
  case_decide.
  { apply calm_bind; [apply calm_string|]. intros k s3 E3%string_shorter. apply IH. simpl in E3. lia. }
  repeat case_decide; (apply calm_bind; [apply calm_bump|]; intros o s3 E3; injection E3 as _ E3; subst s3; apply IH; lia).
Qed.

Lemma calm_skip_value s : calm skip_value s.
Proof.
  unfold skip_value. apply calm_bind; [apply calm_skip_ws|]. intros _ s1 _.
  apply calm_get.
  destruct s1 as [|c s1]; [apply calm_fail|]. cbn [head].
  case_decide; [apply calm_bind; [apply calm_string|intros; apply calm_ret]|].
  case_decide; [|apply calm_put, span_suffix].
  apply calm_bind; [apply calm_bump|]. intros o s3 E3. injection E3 as _ E3. subst s3. apply calm_skip_nested. simpl. lia.
Qed.

Lemma calm_required {A} (m : st bytes Halt A) s : (∀ s, calm m s) → calm (required m) s.
Proof.
  intros Hm. apply calm_bind; [apply calm_skip_ws|]. intros _ s1 _.
  apply calm_bind; [apply Hm|]. intros; apply calm_ret.
Qed.
Lemma calm_nullable {A} (m : st bytes Halt A) s : (∀ s, calm m s) → calm (nullable m) s.
Proof.
  intros Hm. apply calm_bind; [apply calm_skip_ws|]. intros _ s1 _.
  apply calm_bind; [apply calm_null|]. intros [] s2 _; [apply calm_ret|].
  apply calm_bind; [apply Hm|]. intros; apply calm_ret.
Qed.
Create HintDb calm.
#[export] Hint Resolve calm_ret calm_fail calm_string calm_number calm_required calm_nullable
  calm_skip_value calm_skip_ws calm_expect calm_bump : calm.

Lemma calm_read_field key f s : calm (read_field key f) s.
Proof.
  unfold read_field. repeat case_decide.
  all: apply calm_bind; [unfold u32_value, u64_value; auto with calm|intros; apply calm_ret].
Qed.

Lemma calm_fields_loop fuel f s : length s < fuel → calm (fields_loop fuel f) s.
Proof.
  revert f s. induction fuel as [|fuel IH]; intros f s Hf; [lia|]. cbn [fields_loop].
  apply calm_bind; [apply calm_skip_ws|]. intros ? s1 E1.
  pose proof (calm_length _ _ (calm_skip_ws s)) as Hl. rewrite E1 in Hl. simpl in Hl.
  apply calm_peek.
  case_decide; [apply calm_bind; auto with calm|].
  apply calm_bind; [apply calm_string|]. intros key s2 E2%string_shorter.
  assert (length s2 < fuel) as Hs2 by lia.
  apply calm_bind; [apply calm_skip_ws|]. intros ? s3 E3.
  pose proof (calm_length _ _ (calm_skip_ws s2)) as Hl3. rewrite E3 in Hl3. simpl in Hl3.
  apply calm_bind; [apply calm_expect|]. intros ? s4 E4%expect_Ok. subst s3. simpl in Hl3.
  apply calm_bind; [apply calm_read_field|]. intros f' s5 E5.
  pose proof (calm_length _ _ (calm_read_field key f s4)) as Hl5. rewrite E5 in Hl5. simpl in Hl5.
  apply calm_bind; [apply calm_skip_ws|]. intros ? s6 E6.
  pose proof (calm_length _ _ (calm_skip_ws s5)) as Hl6. rewrite E6 in Hl6. simpl in Hl6.
  apply calm_peek.
  case_decide; (apply calm_bind; [auto with calm|]); intros ? s8 E8; [|apply calm_ret].
  apply IH. pose proof (calm_length _ _ (calm_bump s6)) as Hl8. rewrite E8 in Hl8. simpl in Hl8. lia.
Qed.

Lemma build_not_stuck f : build_request f ≠ Err Stuck.
Proof.
  unfold build_request, of_opt, refuse, ok_or, mbind, result_bind. by repeat (case_match; simplify_eq/=).
Qed.

Lemma calm_decode frame s : length s ≤ length frame → calm (decode_steps frame) s.
Proof.
  intros Hl. unfold decode_steps. apply calm_bind; [apply calm_expect|]. intros ? s1 ->%expect_Ok.
  apply calm_bind; [apply calm_fields_loop; simpl in Hl; lia|]. intros f s2 _.
  apply calm_bind; [apply calm_skip_ws|]. intros _ s3 _. apply calm_bind; [done|]. intros eof s4 _.
  apply calm_bind; [by destruct eof|]. intros _ s5 _. apply calm_try, build_not_stuck.
Qed.

(** ** What the decoder answers *)

(** A string of the frame: no quote, no backslash. *)
Definition text_of (frame s : bytes) : Prop := Forall (λ c, c ∈ frame ∧ c ≠ x22 ∧ c ≠ x5c) s.
Definition in_limits (frame : bytes) (r : Request) : Prop :=
  match r with
  | RCreate label path cpus mem crc =>
      text_of frame label ∧ (blen label ≤ LABEL_MAX)%N ∧
      from_option (λ p, text_of frame p ∧ (blen p ≤ IMAGE_PATH_MAX)%N) True path ∧
      from_option (fits 32) True cpus ∧ from_option (fits 64) True mem ∧ from_option (fits 32) True crc
  | RStart id | RStop id | RDelete id => fits 32 id
  | RList => True
  | RImageLoad len crc hex => fits 32 len ∧ fits 32 crc ∧ text_of frame hex ∧ blen hex = (2 * len)%N
  end.

Definition fields_ok (frame : bytes) (f : Fields) : Prop :=
  from_option (text_of frame) True (f_op f) ∧ from_option (text_of frame) True (f_label f) ∧
  from_option (fits 32) True (f_vm_id f) ∧ from_option (text_of frame) True (f_image_path f) ∧
  from_option (fits 32) True (f_cpu_count f) ∧ from_option (fits 64) True (f_memory_mib f) ∧
  from_option (fits 32) True (f_boot_blob_crc32c f) ∧ from_option (fits 32) True (f_len f) ∧
  from_option (fits 32) True (f_crc32c f) ∧ from_option (text_of frame) True (f_bytes_hex f).

Lemma string_body_Ok s k s' : string_body s = (Ok k, s') →
  s = k ++ x22 :: s' ∧ Forall (λ c, c ≠ x22 ∧ c ≠ x5c) k.
Proof.
  revert k. induction s as [|c s IH]; intros k; [done|]. cbn [string_body].
  case_decide as E1; [intros [= <- <-]; by subst|]. case_decide as E2; [done|].
  destruct (string_body s) as [[r|e] rest]; [|done]. intros [= <- <-].
  destruct (IH r eq_refl) as [-> Hr]. split; [done|]. by constructor.
Qed.
Lemma string_Ok s k s' : scan_string s = (Ok k, s') →
  s = x22 :: k ++ x22 :: s' ∧ Forall (λ c, c ≠ x22 ∧ c ≠ x5c) k.
Proof.
  rewrite scan_string_eq. intros (u&s1&He&Hb)%st_bind_Ok. apply expect_Ok in He as ->.
  apply string_body_Ok in Hb as [-> Hk]. done.
Qed.

Lemma digits_value_fits w acc ds n : fits w acc → digits_value w acc ds = Some n → fits w n.
Proof.
  revert acc. induction ds as [|d ds IH]; intros acc Hacc; [by intros [= <-]|]. cbn [digits_value].
  unfold checked_add, checked_mul. intros (v1&_&Hv)%bind_Some. apply bind_Some in Hv as (v2&Hv2&Hn).
  apply checked_Some in Hv2 as [-> Hf]. by eapply IH.
Qed.
Lemma number_fits w o s n s' : number w o s = (Ok n, s') → fits w n.
Proof.
  rewrite number_eq. destruct (span is_digit s) as [ds rest].
  case_decide; [done|]. unfold ok_or. destruct (digits_value w 0 ds) as [v|] eqn:E; [|done].
  intros [= <- _]. eapply digits_value_fits; [|done]. unfold fits. pose proof (N.pow_nonzero 2 w). lia.
Qed.

(** What a successful step ensures. *)
Definition ensures {A} (P : A → Prop) (m : st bytes Halt A) (s : bytes) : Prop :=
  ∀ a s', m s = (Ok a, s') → P a.

Lemma ensures_string frame s : s `suffix_of` frame → ensures (text_of frame) scan_string s.
Proof.
  intros [pre ->] k s' [-> Hk]%string_Ok. unfold text_of. apply Forall_forall. intros c Hc.
  rewrite Forall_forall in Hk. specialize (Hk c Hc). split; [|done]. set_solver.
Qed.
Lemma ensures_required {A} (P : A → Prop) (m : st bytes Halt A) s frame :
  s `suffix_of` frame → (∀ s, s `suffix_of` frame → ensures P m s) →
  ensures (from_option P True) (required m) s.
Proof.
  intros Hs Hm o s'. unfold required. intros (u&s1&E1&Hr)%st_bind_Ok.
  apply st_bind_Ok in Hr as (v&s2&E2&[= <- _]). simpl. eapply Hm; [|done].
  pose proof (calm_skip_ws s) as [_ Hs1]. rewrite E1 in Hs1. by etrans.
Qed.
Lemma ensures_nullable {A} (P : A → Prop) (m : st bytes Halt A) s frame :
  s `suffix_of` frame → (∀ s, s `suffix_of` frame → ensures P m s) →
  ensures (from_option P True) (nullable m) s.
Proof.
  intros Hs Hm o s'. unfold nullable. intros (u&s1&E1&Hr)%st_bind_Ok.
  apply st_bind_Ok in Hr as (null&s2&E2&Hv). destruct null; [by injection Hv as <- _|].
  apply st_bind_Ok in Hv as (v&s3&E3&[= <- _]). simpl. eapply Hm; [|done].
  pose proof (calm_skip_ws s) as [_ Hs1]. rewrite E1 in Hs1.
  pose proof (calm_null s1) as [_ Hs2]. rewrite E2 in Hs2. simpl in *. by do 2 etrans.
Qed.

Lemma read_field_ok frame key f s :
  s `suffix_of` frame → fields_ok frame f → ensures (fields_ok frame) (read_field key f) s.
Proof.
  intros Hs (?&?&?&?&?&?&?&?&?&?) f' s'. unfold read_field.
  assert (ensures (from_option (text_of frame) True) (required scan_string) s) as Hstr
    by (eapply ensures_required; [done|]; intros; by apply ensures_string).
  assert (ensures (from_option (text_of frame) True) (nullable scan_string) s) as Hnstr
    by (eapply ensures_nullable; [done|]; intros; by apply ensures_string).
  assert (∀ w o, ensures (from_option (fits w) True) (required (number w o)) s) as Hnum
    by (intros; eapply ensures_required; [done|]; intros x _ n x'; apply number_fits).
  assert (∀ w o, ensures (from_option (fits w) True) (nullable (number w o)) s) as Hnnum
    by (intros; eapply ensures_nullable; [done|]; intros x _ n x'; apply number_fits).
  repeat case_decide; intros (v&s1&E1&[= <- _])%st_bind_Ok; try done.
  all: try (apply Hstr in E1); try (apply Hnstr in E1); try (apply Hnum in E1); try (apply Hnnum in E1).
  all: repeat split; done.
Qed.

Lemma calm_suffix {A} (m : st bytes Halt A) s r s' frame :
  calm m s → m s = (r, s') → s `suffix_of` frame → s' `suffix_of` frame.
Proof. intros [_ Hs] E Hf. rewrite E in Hs. simpl in Hs. by etrans. Qed.

Lemma fields_loop_ok frame fuel f s :
  s `suffix_of` frame → fields_ok frame f → ensures (fields_ok frame) (fields_loop fuel f) s.
Proof.
  revert f s. induction fuel as [|fuel IH]; intros f s Hs Hf; [done|]. intros f' s'. cbn [fields_loop].
  intros (u1&s1&E1&Hr)%st_bind_Ok. eapply calm_suffix in E1; [|apply calm_skip_ws|exact Hs].
  apply st_bind_Ok in Hr as (o&s1'&E1'&Hr). injection E1' as <- <-. case_decide.
  { apply st_bind_Ok in Hr as (?&?&_&[= <- _]). done. }
  apply st_bind_Ok in Hr as (key&s2&E2&Hr). eapply calm_suffix in E2; [|apply calm_string|exact E1].
  apply st_bind_Ok in Hr as (u3&s3&E3&Hr). eapply calm_suffix in E3; [|apply calm_skip_ws|exact E2].
  apply st_bind_Ok in Hr as (u4&s4&E4&Hr). eapply calm_suffix in E4; [|apply calm_expect|exact E3].
  apply st_bind_Ok in Hr as (f1&s5&E5&Hr).
  assert (fields_ok frame f1) as Hf1 by by eapply read_field_ok.
  eapply calm_suffix in E5; [|apply calm_read_field|exact E4].
  apply st_bind_Ok in Hr as (u6&s6&E6&Hr). eapply calm_suffix in E6; [|apply calm_skip_ws|exact E5].
  apply st_bind_Ok in Hr as (o&s6'&E6'&Hr). injection E6' as <- <-. case_decide.
  - apply st_bind_Ok in Hr as (u7&s7&E7&Hr). eapply calm_suffix in E7; [|apply calm_bump|exact E6].
    by eapply IH.
  - apply st_bind_Ok in Hr as (u7&s7&E7&[= <- _]). done.
Qed.

Lemma build_in_limits frame f r : fields_ok frame f → build_request f = Ok r → in_limits frame r.
Proof.
  intros (Hop&Hlab&Hid&Hpath&Hcpu&Hmem&Hcrc&Hlen&Hcrc'&Hhex). unfold build_request, of_opt, refuse.
  intros (op&_&Hr)%result_bind_Ok. repeat case_decide; try done.
  - apply result_bind_Ok in Hr as (l&Hl%ok_or_Ok&Hr). rewrite Hl in Hlab.
    destruct (N.ltb_spec LABEL_MAX (blen l)); [done|].
    destruct (N.ltb_spec IMAGE_PATH_MAX (from_option blen 0%N (f_image_path f))) as [|Hp]; [done|].
    injection Hr as <-. split; [done|]. split; [done|]. split; [|done].
    destruct (f_image_path f); [|done]. by split.
  - apply result_bind_Ok in Hr as (i&Hi%ok_or_Ok&[= <-]). by rewrite Hi in Hid.
  - apply result_bind_Ok in Hr as (i&Hi%ok_or_Ok&[= <-]). by rewrite Hi in Hid.
  - apply result_bind_Ok in Hr as (i&Hi%ok_or_Ok&[= <-]). by rewrite Hi in Hid.
  - by injection Hr as <-.
  - apply result_bind_Ok in Hr as (n&Hn%ok_or_Ok&Hr). rewrite Hn in Hlen. simpl in Hlen.
    apply result_bind_Ok in Hr as (c&Hc%ok_or_Ok&Hr). rewrite Hc in Hcrc'.
    apply result_bind_Ok in Hr as (h&Hh%ok_or_Ok&Hr). rewrite Hh in Hhex.
    destruct (N.eqb_spec (blen h) (saturating_mul 64 n 2)) as [E|]; [|done]. injection Hr as <-.
    split; [done|]. split; [done|]. split; [done|]. rewrite E. unfold saturating_mul, umax, fits in *.
    change (2 ^ 64)%N with 18446744073709551616%N. change (2 ^ 32)%N with 4294967296%N in Hlen. lia.
Qed.

Lemma decode_not_stuck frame : decode_request frame ≠ Err Stuck.
Proof. apply (calm_decode frame frame). done. Qed.

(** C19: the decoder terminates.  On every byte string, however malformed, the
    loops of [decode_request] (over the fields of the object, over the bytes of
    a string, and over the inside of an unknown value) end before their fuel,
    the bytes that are left, and the slices it takes of the frame, the strings
    and the digits of the numbers, are within its bounds: the frame is
    answered by a request or by one of the decoder's own errors. *)
Theorem decode_terminates frame : decode_request frame ≠ Err Stuck.
Proof. apply decode_not_stuck. Qed.

Lemma decode_limits frame r : decode_request frame = Ok r → in_limits frame r.
Proof.
  unfold decode_request. destruct (decode_steps frame frame) as [r' s'] eqn:E. intros [= ->].
  unfold decode_steps in E. apply st_bind_Ok in E as (u&s1&E1&Hr).
  eapply calm_suffix in E1; [|apply calm_expect|done].
  apply st_bind_Ok in Hr as (f&s2&E2&Hr). eapply fields_loop_ok in E2; [|exact E1|done].
  apply st_bind_Ok in Hr as (u3&s3&_&Hr). apply st_bind_Ok in Hr as (eof&s4&_&Hr).
  apply st_bind_Ok in Hr as (u5&s5&_&Hr). injection Hr as Hr _. by eapply build_in_limits.
Qed.

(** A backslash in a path reaches the decoder as an escape, which it refuses. *)
Example escaped_path_refused :
  decode_request (q "{'op':'create','label':'w','image_path':'C:\\d.raw'}") =
  Err (Fail (Invalid "wire: escapes not allowed")).
Proof. by vm_compute. Qed.

(** C34: what the decoder answers is well-typed.  Every number fits the width
    the request carries it in, labels and image paths are within their
    documented limits, the hex digits of an image are two per byte, and every
    string is made of bytes of the frame, without quote or backslash, so that
    it can be put in a JSON string as it is. *)
Theorem decode_in_limits frame r : decode_request frame = Ok r → in_limits frame r.
Proof. apply decode_limits. Qed.

Lemma decode_in_limits_witness :
  in_limits (q "{'op':'create','label':'x','future':{'a':[1,{}]}, 'cpu_count' : 12}")
    (RCreate (b "x") None (Some 12%N) None None).
Proof. apply decode_in_limits. vm_compute. reflexivity. Defined.
