(* ===== verification/WireEncode.v ===== *)
(** * WireEncode: the replies of the bridge

    The encoder writes exactly the text of a reply, or reports that the buffer
    is too small; with buffers within their limits every reply fits the
    bridge's transmit buffer, and is one line. *)
From S2P Require Import Prelude.
From S2P Require Import Text.
From S2P Require Import Vault.
From S2P Require Import HyperErr.
From S2P Require Import Wire.
From Stdlib Require Import Strings.Byte.

(** ** The text of a reply *)
Definition num_text (v : N) : bytes := b (fmt_u v).
Definition opt_text {A} (key : string) (put : A → bytes) (o : option A) : bytes :=
  match o with Some v => q key ++ put v | None => [] end.

Definition row_text (row : Row) : bytes :=
  q "{'vm_id':" ++ num_text (row_vm_id row) ++ q ",'label':'" ++ as_slice (row_label row) ++
  q "','state':'" ++ b (as_str (row_state row)) ++ [x22] ++
  opt_text ",'last_exit':" num_text (row_last_exit row) ++
  (if is_empty (row_image_path row) then []
   else q ",'image_path':'" ++ as_slice (row_image_path row) ++ [x22]) ++
  opt_text ",'cpu_count':" num_text (row_cpu_count row) ++
  opt_text ",'memory_mib':" num_text (row_memory_mib row) ++
  opt_text ",'boot_blob_crc32c':" num_text (row_boot_blob_crc32c row) ++ [x7d].
Fixpoint rows_text (first : bool) (rows : list Row) : bytes :=
  match rows with
  | [] => []
  | row :: rows' => (if first then [] else [x2c]) ++ row_text row ++ rows_text false rows'
  end.
Definition escaped (c : byte) : bytes :=
  if decide (c = x22) then [x5c; x22]
  else if decide (c = x5c) then [x5c; x5c]
  else if decide (Byte.to_N c ≤ 0x1F)%N then [] else [c].
Fixpoint message_text (s : bytes) : bytes :=
  match s with [] => [] | c :: s' => escaped c ++ message_text s' end.
Definition reply_text (reply : Reply) : bytes :=
  match reply with
  | PCreated id => q "{'reply':'created','vm_id':" ++ num_text id ++ [x7d]
  | PState id state last_exit =>
      q "{'reply':'state','vm_id':" ++ num_text id ++ q ",'state':'" ++ b (as_str state) ++ [x22] ++
      opt_text ",'last_exit':" num_text last_exit ++ [x7d]
  | PDeleted id => q "{'reply':'deleted','vm_id':" ++ num_text id ++ [x7d]
  | PListed rows => q "{'reply':'listed','rows':[" ++ rows_text true (omap id rows) ++ b "]}"
  | PImageLoaded len crc =>
      q "{'reply':'image_loaded','len':" ++ num_text len ++ q ",'crc32c':" ++ num_text crc ++ [x7d]
  | PError message => q "{'reply':'error','message':'" ++ message_text (as_slice message) ++ q "'}"
  end.

(** ** Replies within their types *)
Definition buf_ok (cap : N) (x : Buf) : Prop := blen (buf_bytes x) = cap ∧ (buf_len x ≤ cap)%N.
Definition row_ok (row : Row) : Prop :=
  fits 32 (row_vm_id row) ∧ buf_ok LABEL_MAX (row_label row) ∧ buf_ok IMAGE_PATH_MAX (row_image_path row) ∧
  from_option (fits 32) True (row_last_exit row) ∧ from_option (fits 32) True (row_cpu_count row) ∧
  from_option (fits 64) True (row_memory_mib row) ∧ from_option (fits 32) True (row_boot_blob_crc32c row).
Definition reply_ok (reply : Reply) : Prop :=
  match reply with
  | PCreated id | PDeleted id => fits 32 id
  | PState id _ last_exit => fits 32 id ∧ from_option (fits 32) True last_exit
  | PListed rows => length rows ≤ ROWS_MAX ∧ Forall row_ok (omap id rows)
  | PImageLoaded len crc => fits 32 len ∧ fits 32 crc
  | PError message => buf_ok ERROR_MSG_MAX message
  end.

(** ** Writing *)
Definition append (w : Writer) (s : bytes) : Writer := mkWriter (w_cap w) (w_out w ++ s).

(** [m] writes [s], or finds the buffer too small for it. *)
Definition writes (m : st Writer Halt unit) (s : bytes) : Prop := ∀ w,
  ((pos w + blen s ≤ w_cap w)%N → m w = (Ok tt, append w s)) ∧
  ((w_cap w < pos w + blen s)%N →
     (pos w ≤ w_cap w)%N → (m w).1 = Err (Fail (Exhausted "wire: reply buffer too small"))).

Lemma blen_app s t : blen (s ++ t) = (blen s + blen t)%N.
Proof. unfold blen. rewrite length_app. lia. Qed.
Lemma append_app w s t : append (append w s) t = append w (s ++ t).
Proof. unfold append. simpl. by rewrite (assoc_L app). Qed.
Lemma append_nil w : append w [] = w.
Proof. destruct w. unfold append. simpl. by rewrite app_nil_r. Qed.
Lemma pos_append w s : pos (append w s) = (pos w + blen s)%N.
Proof. unfold pos, append. simpl. apply blen_app. Qed.

Lemma writes_ret : writes (mret tt) [].
Proof. intros w. rewrite append_nil. split; [done|]. change (blen []) with 0%N. lia. Qed.
Lemma writes_bind m s k t : writes m s → writes k t → writes (_ ← m; k) (s ++ t).
Proof.
  intros Hm Hk w. rewrite blen_app. destruct (Hm w) as [Hok Hfull].
  split; intros Hw; unfold mbind, st_bind.
  - rewrite Hok by lia. destruct (Hk (append w s)) as [Hok' _]. rewrite pos_append in Hok'.
    rewrite Hok' by (simpl; lia). by rewrite append_app.
  - intros Hp. destruct (N.le_gt_cases (pos w + blen s) (w_cap w)) as [Hle|Hgt].
    + rewrite Hok by lia. destruct (Hk (append w s)) as [_ Hf']. rewrite pos_append in Hf'.
      apply Hf'; simpl; lia.
    + specialize (Hfull Hgt Hp). destruct (m w) as [[[]|e] w']; simpl in *; [done|]. by injection Hfull as ->.
Qed.
Lemma writes_last m s k : writes m s → writes k [] → writes (_ ← m; k) s.
Proof. intros. rewrite <-(app_nil_r s). by apply writes_bind. Qed.

Lemma writes_str s : writes (put_str s) s.
Proof.
  intros w. unfold put_str, get_st, put_st, mbind, st_bind. split; intros Hw.
  - destruct (N.ltb_spec (w_cap w) (pos w + blen s)); [lia|done].
  - intros _. destruct (N.ltb_spec (w_cap w) (pos w + blen s)); [done|lia].
Qed.
Lemma writes_u8 c : writes (put_u8 c) [c].
Proof.
  intros w. unfold put_u8, get_st, put_st, mbind, st_bind. change (blen [c]) with 1%N. split; intros Hw.
  - destruct (N.leb_spec (w_cap w) (pos w)); [lia|done].
  - intros _. destruct (N.leb_spec (w_cap w) (pos w)); [done|lia].
Qed.

(** ** Numbers *)
Lemma b_cons c s : b (String c s) = byte_of_ascii c :: b s.
Proof. done. Qed.
Lemma digit_char d : (d < 10)%N → digit_byte d = byte_of_ascii (pretty_N_char d).
Proof.
  intros Hd. assert (In d [0; 1; 2; 3; 4; 5; 6; 7; 8; 9]%N) as Hin by (simpl; lia).
  repeat (destruct Hin as [<-|Hin]; [done|]). done.
Qed.
Lemma digit_loop_go i n s : (n < 10 ^ N.of_nat i)%N → digit_loop i n (b s) = Some (b (pretty_N_go n s)).
Proof.
  revert n s. induction i as [|i IH]; intros n s Hn.
  - change (10 ^ N.of_nat 0)%N with 1%N in Hn. assert (n = 0%N) as -> by lia. by rewrite pretty_N_go_0.
  - cbn [digit_loop]. destruct (N.eqb_spec n 0) as [->|Hpos]; [by rewrite pretty_N_go_0|].
    rewrite digit_char, <-b_cons by by apply N.mod_lt. rewrite IH, (pretty_N_go_step n) by lia || (
      apply N.Div0.div_lt_upper_bound; rewrite Nat2N.inj_succ, N.pow_succ_r' in Hn; lia). done.
Qed.
Lemma digit_loop_length i n acc ds : digit_loop i n acc = Some ds → length ds ≤ i + length acc.
Proof.
  revert n acc. induction i as [|i IH]; intros n acc; cbn [digit_loop];
    (destruct (N.eqb_spec n 0); [intros [= <-]; lia|]); [done|].
  intros Hl%IH. simpl in Hl. lia.
Qed.

Lemma num_digits i v : (v < 10 ^ N.of_nat i)%N → v ≠ 0%N → digit_loop i v [] = Some (num_text v).
Proof.
  intros Hv Hne. unfold num_text, fmt_u, pretty, pretty_N. rewrite decide_False by done.
  exact (digit_loop_go i v EmptyString Hv).
Qed.
Lemma writes_num i v : (v < 10 ^ N.of_nat i)%N → writes (put_num i v) (num_text v).
Proof.
  intros Hv. unfold put_num. destruct (N.eqb_spec v 0) as [->|Hne]; [apply writes_str|].
  rewrite num_digits by done. apply writes_str.
Qed.
Lemma num_length i v : (v < 10 ^ N.of_nat i)%N → 0 < i → (blen (num_text v) ≤ N.of_nat i)%N.
Proof.
  intros Hv Hi. destruct (decide (v = 0%N)) as [->|Hne].
  - change (blen (num_text 0)) with 1%N. lia.
  - pose proof (digit_loop_length i v [] _ (num_digits i v Hv Hne)) as Hl. simpl in Hl. unfold blen. lia.
Qed.

Lemma u32_digits v : fits 32 v → (v < 10 ^ N.of_nat 10)%N.
Proof.
  unfold fits. change (2 ^ 32)%N with 4294967296%N. change (10 ^ N.of_nat 10)%N with 10000000000%N. lia.
Qed.
Lemma u64_digits v : fits 64 v → (v < 10 ^ N.of_nat 20)%N.
Proof.
  unfold fits. change (2 ^ 64)%N with 18446744073709551616%N.
  change (10 ^ N.of_nat 20)%N with 100000000000000000000%N. lia.
Qed.
Lemma writes_u32 v : fits 32 v → writes (put_u32 v) (num_text v).
Proof. intros. by apply writes_num, u32_digits. Qed.
Lemma writes_u64 v : fits 64 v → writes (put_u64 v) (num_text v).
Proof. intros. by apply writes_num, u64_digits. Qed.

Lemma writes_opt {A} key (put : A → st Writer Halt unit) text (P : A → Prop) o :
  (∀ v, P v → writes (put v) (text v)) → from_option P True o →
  writes (put_opt key put o) (opt_text key text o).
Proof.
  intros Hp Ho. destruct o as [v|]; [|apply writes_ret]. apply writes_bind; [apply writes_str|by apply Hp].
Qed.
Ltac writes_tac :=
  repeat match goal with
    | |- writes (_ ≫= _) (_ ++ _) => apply writes_bind
    | |- writes (put_str _) _ => apply writes_str
    | |- writes (put_u8 _) _ => apply writes_u8
    | |- writes (put_u32 _) _ => apply writes_u32; assumption
    | |- writes (put_opt _ put_u32 _) _ => apply (writes_opt _ put_u32 _ (fits 32)); [apply writes_u32|assumption]
    | |- writes (put_opt _ put_u64 _) _ => apply (writes_opt _ put_u64 _ (fits 64)); [apply writes_u64|assumption]
    | |- writes (mret tt) [] => apply writes_ret
    end.

Lemma writes_row row : row_ok row → writes (put_row row) (row_text row).
Proof.
  intros (?&?&?&?&?&?&?). unfold put_row, row_text. writes_tac.
  destruct (is_empty _); writes_tac.
Qed.
Lemma writes_rows first rows : Forall row_ok rows → writes (put_rows first rows) (rows_text first rows).
Proof.
  intros Hr. revert first. induction Hr as [|row rows Hrow Hrows IH]; intros first; [apply writes_ret|].
  cbn [put_rows rows_text]. writes_tac; [|by apply writes_row|apply IH]. destruct first; writes_tac.
Qed.
Lemma writes_message s : writes (put_message s) (message_text s).
Proof.
  induction s as [|c s IH]; [apply writes_ret|]. cbn [put_message message_text].
  apply writes_bind; [|done]. unfold put_escaped, escaped. repeat case_decide; writes_tac.
Qed.
Lemma writes_reply r : reply_ok r → writes (put_reply r) (reply_text r).
Proof.
  intros Hr. destruct r; cbn [reply_ok put_reply reply_text] in *; split_hyps; writes_tac.
  - by apply writes_rows.
  - apply writes_message.
Qed.

(** ** Lengths *)
Lemma opt_length {A} key (text : A → bytes) (P : A → Prop) o n :
  (∀ v, P v → (blen (text v) ≤ n)%N) → from_option P True o →
  (blen (opt_text key text o) ≤ blen (q key) + n)%N.
Proof.
  intros Ht Ho. destruct o as [v|]; simpl; [|unfold blen; simpl; lia].
  rewrite blen_app. specialize (Ht v Ho). lia.
Qed.
Lemma u32_length v : fits 32 v → (blen (num_text v) ≤ 10)%N.
Proof. intros. apply (num_length 10); [by apply u32_digits|lia]. Qed.
Lemma u64_length v : fits 64 v → (blen (num_text v) ≤ 20)%N.
Proof. intros. apply (num_length 20); [by apply u64_digits|lia]. Qed.
Lemma slice_length cap x : buf_ok cap x → (blen (as_slice x) ≤ cap)%N.
Proof. intros [_ Hl]. unfold as_slice, blen. rewrite length_take. lia. Qed.
Lemma tag_length t : (blen (b (as_str t)) ≤ 7)%N.
Proof. by destruct t. Qed.

(** The rendered row with each piece at its longest. *)
Definition ROW_TEXT_MAX : N := 335.
Lemma row_length row : row_ok row → (blen (row_text row) ≤ ROW_TEXT_MAX)%N.
Proof.
  intros (Hid&Hlab&Hpath&Hexit&Hcpu&Hmem&Hcrc). unfold row_text. rewrite !blen_app.
  pose proof (u32_length _ Hid). pose proof (slice_length _ _ Hlab). pose proof (tag_length (row_state row)).
  pose proof (opt_length ",'last_exit':" _ _ _ _ u32_length Hexit).
  pose proof (opt_length ",'cpu_count':" _ _ _ _ u32_length Hcpu).
  pose proof (opt_length ",'memory_mib':" _ _ _ _ u64_length Hmem).
  pose proof (opt_length ",'boot_blob_crc32c':" _ _ _ _ u32_length Hcrc).
  assert (blen (if is_empty (row_image_path row) then []
                else q ",'image_path':'" ++ as_slice (row_image_path row) ++ [x22]) ≤ 144)%N.
  { destruct (is_empty _); [unfold blen; simpl; lia|]. rewrite !blen_app.
    pose proof (slice_length _ _ Hpath). unfold IMAGE_PATH_MAX in *.
    change (blen (q ",'image_path':'")) with 15%N. change (blen [x22]) with 1%N. lia. }
  unfold LABEL_MAX, ROW_TEXT_MAX in *.
  change (blen (q "{'vm_id':")) with 9%N. change (blen (q ",'label':'")) with 10%N.
  change (blen (q "','state':'")) with 11%N. change (blen [x22]) with 1%N. change (blen [x7d]) with 1%N.
  change (blen (q ",'last_exit':")) with 13%N in *. change (blen (q ",'cpu_count':")) with 13%N in *.
  change (blen (q ",'memory_mib':")) with 14%N in *.
  change (blen (q ",'boot_blob_crc32c':")) with 20%N in *. lia.
Qed.
Lemma rows_length first rows :
  Forall row_ok rows → (blen (rows_text first rows) ≤ N.of_nat (length rows) * (1 + ROW_TEXT_MAX))%N.
Proof.
  intros Hr. revert first. induction Hr as [|row rows Hrow _ IH]; intros first; [done|].
  cbn [rows_text length]. rewrite !blen_app. specialize (IH false). pose proof (row_length row Hrow).
  assert (blen (if first then [] else [x2c]) ≤ 1)%N by by destruct first. lia.
Qed.
Lemma message_length s : (blen (message_text s) ≤ 2 * blen s)%N.
Proof.
  induction s as [|c s IH]; [done|]. cbn [message_text]. rewrite blen_app.
  assert (blen (escaped c) ≤ 2)%N by (unfold escaped; by repeat case_decide).
  change (c :: s) with ([c] ++ s). rewrite blen_app. change (blen [c]) with 1%N. lia.
Qed.

Lemma length_omap_id {A} (l : list (option A)) : length (omap id l) ≤ length l.
Proof. induction l as [|[x|] l IH]; cbn; lia. Qed.

Definition TX_CAP : N := 2048.
Lemma reply_length r : reply_ok r → (blen (reply_text r ++ [x0a]) ≤ 1400)%N.
Proof.
  intros Hr. rewrite blen_app. change (blen [x0a]) with 1%N.
  destruct r; cbn [reply_ok reply_text] in *; rewrite ?blen_app.
  - pose proof (u32_length _ Hr). change (blen (q _)) with 27%N at 1. change (blen [x7d]) with 1%N. lia.
  - destruct Hr as [Hid Hex]. pose proof (u32_length _ Hid). pose proof (tag_length state).
    pose proof (opt_length ",'last_exit':" _ _ _ _ u32_length Hex).
    change (blen (q "{'reply':'state','vm_id':")) with 25%N. change (blen (q ",'state':'")) with 10%N.
    change (blen (q ",'last_exit':")) with 13%N in *. change (blen [x22]) with 1%N. change (blen [x7d]) with 1%N.
    lia.
  - pose proof (u32_length _ Hr). change (blen (q "{'reply':'deleted','vm_id':")) with 27%N.
    change (blen [x7d]) with 1%N. lia.
  - destruct Hr as [Hlen Hrows]. pose proof (rows_length true _ Hrows).
    pose proof (length_omap_id rows).
    change (blen (q "{'reply':'listed','rows':[")) with 26%N. change (blen (b "]}")) with 2%N.
    unfold ROW_TEXT_MAX, ROWS_MAX in *. lia.
  - destruct Hr as [H1 H2]. pose proof (u32_length _ H1). pose proof (u32_length _ H2).
    change (blen (q "{'reply':'image_loaded','len':")) with 30%N. change (blen (q ",'crc32c':")) with 10%N.
    change (blen [x7d]) with 1%N. lia.
  - pose proof (slice_length _ _ Hr). pose proof (message_length (as_slice message)).
    change (blen (q "{'reply':'error','message':'")) with 28%N. change (blen (q "'}")) with 2%N.
    unfold ERROR_MSG_MAX in *. lia.
Qed.

(** ** One line *)
Definition no_newline (s : bytes) : Prop := x0a ∉ s.
Definition row_line (row : Row) : Prop :=
  no_newline (as_slice (row_label row)) ∧ no_newline (as_slice (row_image_path row)).
Definition reply_line (reply : Reply) : Prop :=
  match reply with PListed rows => Forall row_line (omap id rows) | _ => True end.

Lemma no_newline_app s t : no_newline s → no_newline t → no_newline (s ++ t).
Proof. unfold no_newline. set_solver. Qed.
Lemma no_newline_dec s : bool_decide (x0a ∉ s) = true → no_newline s.
Proof. apply bool_decide_eq_true_1. Qed.
Lemma no_newline_string s : contains_char (ascii_of_byte x0a) s = false → no_newline (b s).
Proof.
  unfold no_newline. induction s as [|c s IH]; [intros _; by intros ?%elem_of_nil|].
  rewrite contains_char_cons, orb_false_iff. intros [Hc Hs]. rewrite b_cons, elem_of_cons.
  intros [E|Hin]; [|by apply IH]. apply Ascii.eqb_neq in Hc. apply Hc.
  by rewrite E, ascii_of_byte_of_ascii.
Qed.
Lemma no_newline_num v : no_newline (num_text v).
Proof. by apply no_newline_string, fmt_u_no_char. Qed.
Lemma no_newline_opt {A} key (text : A → bytes) o :
  no_newline (q key) → (∀ v, no_newline (text v)) → no_newline (opt_text key text o).
Proof. intros. destruct o; [by apply no_newline_app|]. by apply no_newline_dec. Qed.
Lemma no_newline_tag t : no_newline (b (as_str t)).
Proof. apply no_newline_dec. by destruct t. Qed.
Ltac no_newline_tac :=
  repeat first
    [ apply no_newline_num | apply no_newline_tag | assumption
    | apply no_newline_opt; [by apply no_newline_dec|apply no_newline_num]
    | match goal with |- no_newline (_ ++ _) => apply no_newline_app end
    | match goal with |- no_newline (q _) => by apply no_newline_dec end
    | match goal with |- no_newline (b _) => by apply no_newline_dec end
    | match goal with |- no_newline (_ :: _) => by apply no_newline_dec end
    | match goal with |- no_newline [] => by apply no_newline_dec end ].

Lemma no_newline_row row : row_line row → no_newline (row_text row).
Proof. intros [? ?]. unfold row_text. no_newline_tac. destruct (is_empty _); no_newline_tac. Qed.
Lemma no_newline_rows first rows : Forall row_line rows → no_newline (rows_text first rows).
Proof.
  intros Hr. revert first. induction Hr as [|row rows Hrow _ IH]; intros first; [by apply no_newline_dec|].
  cbn [rows_text]. apply no_newline_app; [destruct first; no_newline_tac|].
  apply no_newline_app; [by apply no_newline_row|apply IH].
Qed.
Lemma no_newline_message s : no_newline (message_text s).
Proof.
  induction s as [|c s IH]; [by apply no_newline_dec|]. cbn [message_text].
  apply no_newline_app; [|done]. unfold escaped. repeat case_decide; try by apply no_newline_dec.
  unfold no_newline. intros <-%list_elem_of_singleton.
  match goal with Hc : ¬ (_ ≤ _)%N |- _ => by apply Hc end.
Qed.

Lemma encode_text r :
  reply_ok r → encode_reply r TX_CAP =
    (Ok (blen (reply_text r ++ [x0a])), mkWriter TX_CAP (reply_text r ++ [x0a])).
Proof.
  intros Hr. set (line := reply_text r ++ [x0a]).
  assert (writes (_ ← put_reply r; put_u8 x0a) line) as Hw
    by (apply writes_bind; [by apply writes_reply|apply writes_u8]).
  destruct (Hw (mkWriter TX_CAP [])) as [Hok _]. clear Hw. pose proof (reply_length r Hr) as Hl.
  assert (pos (mkWriter TX_CAP []) + blen line ≤ TX_CAP)%N as Hfit.
  { change (pos (mkWriter TX_CAP [])) with 0%N. unfold TX_CAP. subst line. lia. }
  specialize (Hok Hfit). change (append (mkWriter TX_CAP []) line) with (mkWriter TX_CAP line) in Hok.
  clearbody line. unfold encode_reply. unfold mbind, st_bind in Hok |- *.
  destruct (put_reply r _) as [[[]|e] w1]; [|done].
  destruct (put_u8 x0a w1) as [[[]|e] w2]; [|done]. injection Hok as ->. done.
Qed.
Lemma reply_no_newline r : reply_line r → no_newline (reply_text r).
Proof.
  intros Hl. destruct r; cbn [reply_line reply_text] in *; no_newline_tac.
  - by apply no_newline_rows.
  - apply no_newline_message.
Qed.

(** C35: every reply of the bridge is answered, whole and on one line.  With
    the transmit buffer of the bridge the encoder never reports a short buffer
    and never runs over its digit buffers, whatever the reply carries within
    its types (four rows of the longest label, path and numbers included): the
    bytes sent are exactly the text of the reply followed by the only newline
    of the line, as long as the labels and paths hold none. *)
Theorem reply_is_one_line r :
  reply_ok r →
  let line := reply_text r ++ [x0a] in
  encode_reply r TX_CAP = (Ok (blen line), mkWriter TX_CAP line) ∧
  (reply_line r → x0a ∉ reply_text r).
Proof. intros Hr line. split; [by apply encode_text|apply reply_no_newline]. Qed.

(** Four rows, every piece at its longest. *)
Definition long_row : Row :=
  mkRow u32_max (buf_copy LABEL_MAX (replicate 32 x61)) TCreated (Some u32_max)
    (buf_copy IMAGE_PATH_MAX (replicate 128 x62)) (Some u32_max) (Some u64_max) (Some u32_max).

Lemma reply_is_one_line_witness :
  let r := PListed (replicate 4 (Some long_row)) in
  encode_reply r TX_CAP = (Ok 1372%N, mkWriter TX_CAP (reply_text r ++ [x0a])) ∧ x0a ∉ reply_text r.
Proof.
  intros r.
  assert (row_ok long_row) as Hrow by (repeat split; discriminate || reflexivity).
  assert (reply_ok r) as Hr by (split; [simpl; unfold ROWS_MAX; lia|repeat (apply Forall_cons_2; [exact Hrow|]); apply Forall_nil_2]).
  assert (row_line long_row) as Hrl by (split; apply no_newline_dec; vm_compute; reflexivity).
  assert (reply_line r) as Hl by (repeat (apply Forall_cons_2; [exact Hrl|]); apply Forall_nil_2).
  destruct (reply_is_one_line r Hr) as [He Hn].
  split; [|by apply Hn]. rewrite He. vm_compute. reflexivity.
Defined.
