(* ===== verification/WireRead.v ===== *)
(** * WireRead: the requests the bridge understands

    The text of an object of strings, numbers and nulls, with white space
    between its tokens, and what [decode_request] reads in it.  The controller
    sends the compact form that serde_json documents for its derived
    [Serialize] (crates/celmesh/src/hyper_host.rs), which is one such text. *)
From S2P Require Import Prelude.
From S2P Require Import Text.
From S2P Require Import Vault.
From S2P Require Import HyperErr.
From S2P Require Import Wire.
From S2P Require Import WireProofs.
From S2P Require Import WireEncode.
From Stdlib Require Import Strings.Byte.

Inductive value := VStr (s : bytes) | VNum (v : N) | VNull.
Definition value_text (v : value) : bytes :=
  match v with VStr s => [x22] ++ s ++ [x22] | VNum n => num_text n | VNull => b "null" end.

(** A field, with the white space around its four tokens. *)
Record field := mkField {
  fd_ws1 : bytes; fd_key : bytes; fd_ws2 : bytes; fd_ws3 : bytes; fd_value : value; fd_ws4 : bytes
}.
Definition field_text (x : field) : bytes :=
  fd_ws1 x ++ ([x22] ++ fd_key x ++ [x22]) ++ fd_ws2 x ++ [x3a] ++ fd_ws3 x ++ value_text (fd_value x) ++ fd_ws4 x.
(** The fields up to the closing brace. *)
Fixpoint fields_text (x : field) (xs : list field) : bytes :=
  field_text x ++ match xs with [] => [x7d] | y :: ys => [x2c] ++ fields_text y ys end.
Definition object_text (x : field) (xs : list field) (ws : bytes) : bytes :=
  [x7b] ++ fields_text x xs ++ ws.

Definition white (s : bytes) : Prop := Forall (λ c, is_ws c = true) s.
Definition plain (s : bytes) : Prop := Forall (λ c, c ≠ x22 ∧ c ≠ x5c) s.
Definition field_ok (x : field) : Prop :=
  white (fd_ws1 x) ∧ white (fd_ws2 x) ∧ white (fd_ws3 x) ∧ white (fd_ws4 x) ∧ plain (fd_key x) ∧
  match fd_value x with VStr s => plain s | _ => True end.

(** What a field does to the locals of the decoder; [None] if the value is not
    of the type of the key. *)
Definition as_str_field (v : value) : option bytes := match v with VStr s => Some s | _ => None end.
Definition as_num_field (w : N) (v : value) : option N := match v with VNum n => checked w n | _ => None end.
Definition or_null {A} (get : value → option A) (v : value) : option (option A) :=
  match v with VNull => Some None | _ => Some <$> get v end.
Definition apply_field (f : Fields) (x : field) : option Fields :=
  let v := fd_value x in
  if decide (fd_key x = b "op") then (λ s, set_op (Some s) f) <$> as_str_field v
  else if decide (fd_key x = b "label") then (λ s, set_label (Some s) f) <$> as_str_field v
  else if decide (fd_key x = b "vm_id") then (λ n, set_vm_id (Some n) f) <$> as_num_field 32 v
  else if decide (fd_key x = b "image_path") then (λ s, set_image_path s f) <$> or_null as_str_field v
  else if decide (fd_key x = b "cpu_count") then (λ n, set_cpu_count n f) <$> or_null (as_num_field 32) v
  else if decide (fd_key x = b "memory_mib") then (λ n, set_memory_mib n f) <$> or_null (as_num_field 64) v
  else if decide (fd_key x = b "boot_blob_crc32c") then (λ n, set_boot_blob n f) <$> or_null (as_num_field 32) v
  else if decide (fd_key x = b "len") then (λ n, set_len (Some n) f) <$> as_num_field 32 v
  else if decide (fd_key x = b "crc32c") then (λ n, set_crc (Some n) f) <$> as_num_field 32 v
  else if decide (fd_key x = b "bytes_hex") then (λ s, set_bytes_hex (Some s) f) <$> as_str_field v
  else Some f.
Fixpoint apply_fields (f : Fields) (xs : list field) : option Fields :=
  match xs with [] => Some f | x :: xs' => f ← apply_field f x; apply_fields f xs' end.

(** ** Reading tokens *)
Lemma skip_ws_app ws c s : white ws → is_ws c = false → skip_ws (ws ++ c :: s) = (Ok tt, c :: s).
Proof.
  intros Hw Hc. unfold skip_ws, modify. f_equal. induction Hw as [|d ws Hd _ IH]; simpl.
  - by rewrite Hc.
  - rewrite Hd. destruct (span is_ws (ws ++ c :: s)) as [l r]. exact IH.
Qed.
Lemma scan_string_app k s : plain k → scan_string ([x22] ++ k ++ [x22] ++ s) = (Ok k, s).
Proof.
  intros Hk. rewrite scan_string_eq. change (string_body (k ++ [x22] ++ s) = (Ok k, s)).
  induction Hk as [|c k [? ?] _ IH]; [done|]. cbn [app string_body].
  rewrite !decide_False by done. cbn [app] in IH. by rewrite IH.
Qed.

(** What follows a value. *)
Definition stop (s : bytes) : Prop := ∃ c s', s = c :: s' ∧ c ∈ [x2c; x7d; x20; x09; x0d; x0a].
Lemma stop_ws ws c s : white ws → c = x2c ∨ c = x7d → stop (ws ++ c :: s).
Proof.
  intros [|d ws' Hd _] Hc; [exists c, s|exists d, (ws' ++ c :: s)]; (split; [done|]); [set_solver|].
  unfold is_ws in Hd. apply bool_decide_eq_true_1 in Hd. set_solver.
Qed.

Lemma span_stop (p : byte → bool) l s :
  Forall (λ c, p c = true) l → stop s → (∀ c, c ∈ [x2c; x7d; x20; x09; x0d; x0a] → p c = false) →
  span p (l ++ s) = (l, s).
Proof.
  intros Hl (c&s'&->&Hc) Hp. induction Hl as [|d l Hd _ IH]; simpl.
  - by rewrite Hp.
  - rewrite Hd. by rewrite IH.
Qed.

Lemma num_text_digits v : Forall (λ c, is_digit c = true) (num_text v).
Proof.
  unfold num_text. assert (∀ c, is_ascii_digit c = false → contains_char c (fmt_u v) = false) as Hc
    by (intros; by apply fmt_u_no_char).
  revert Hc. induction (fmt_u v) as [|a s IH]; intros Hc; [constructor|]. rewrite b_cons. constructor.
  - destruct (is_ascii_digit a) eqn:Ea.
    + clear -Ea. destruct a as [[] [] [] [] [] [] [] []]; vm_compute in Ea |- *; done.
    + specialize (Hc a Ea). rewrite contains_char_cons, Ascii.eqb_refl in Hc. done.
  - apply IH. intros c Hd. specialize (Hc c Hd). rewrite contains_char_cons in Hc.
    by apply orb_false_iff in Hc as [_ ?].
Qed.
Lemma to_N_byte_of_ascii a : Byte.to_N (byte_of_ascii a) = byte_of a.
Proof. by destruct a as [[] [] [] [] [] [] [] []]. Qed.
Lemma digits_value_b w acc s v : parse_digits w acc s = Some v → digits_value w acc (b s) = Some v.
Proof.
  revert acc. induction s as [|a s IH]; intros acc; [done|]. rewrite b_cons. cbn [parse_digits digits_value].
  rewrite to_N_byte_of_ascii. unfold digit_of. destruct (is_ascii_digit a); [|done]. simpl.
  intros (m&->&Hm)%bind_Some. apply bind_Some in Hm as (x&Hx&Hp). simpl. rewrite Hx. by apply IH.
Qed.
Lemma num_text_nonempty v : num_text v ≠ [].
Proof. unfold num_text. pose proof (fmt_u_nonempty v) as Hn. by destruct (fmt_u v). Qed.
Lemma number_app w o v s : fits w v → stop s → number w o (num_text v ++ s) = (Ok v, s).
Proof.
  intros Hv Hs. rewrite number_eq, (span_stop is_digit);
    [|apply num_text_digits|done|].
  - rewrite decide_False by apply num_text_nonempty. unfold ok_or.
    assert (digits_value w 0%N (num_text v) = Some v) as ->; [|done].
    exact (digits_value_b w 0%N _ v (parse_digits_fmt_u w v Hv)).
  - intros c Hc. set_unfold in Hc. by destruct_or! Hc; subst.
Qed.
Lemma null_app s : try_consume_null (b "null" ++ s) = (Ok true, s).
Proof. done. Qed.
Lemma not_null_app c s : c ≠ x6e → try_consume_null (c :: s) = (Ok false, c :: s).
Proof.
  intros Hc. unfold try_consume_null, get_st, mbind, st_bind. rewrite decide_False; [done|].
  intros E. cbn in E. congruence.
Qed.

Lemma value_head v : match v with VNull => True | _ => ∃ c s, value_text v = c :: s ∧ is_ws c = false ∧ c ≠ x6e end.
Proof.
  destruct v as [s|n|]; [by exists x22, (s ++ [x22])| |done].
  pose proof (num_text_digits n) as Hd. pose proof (num_text_nonempty n). simpl.
  destruct (num_text n) as [|c s]; [done|]. exists c, s. split; [done|].
  apply Forall_cons in Hd as [Hd _]. unfold is_digit in Hd. by destruct c.
Qed.

(** ** Reading a value *)
Lemma required_app {A} (m : st bytes Halt A) ws t s a :
  white ws → (∃ c t', t = c :: t' ∧ is_ws c = false) → m (t ++ s) = (Ok a, s) →
  required m (ws ++ t ++ s) = (Ok (Some a), s).
Proof.
  intros Hw (c&t'&->&Hc) Hm. unfold required, mbind, st_bind. cbn [app] in *.
  rewrite skip_ws_app by done. by rewrite Hm.
Qed.
Lemma nullable_app {A} (m : st bytes Halt A) ws t s a :
  white ws → (∃ c t', t = c :: t' ∧ is_ws c = false ∧ c ≠ x6e) → m (t ++ s) = (Ok a, s) →
  nullable m (ws ++ t ++ s) = (Ok (Some a), s).
Proof.
  intros Hw (c&t'&->&Hc&Hn) Hm. unfold nullable, mbind, st_bind. cbn [app] in *.
  rewrite skip_ws_app by done. rewrite not_null_app by done. by rewrite Hm.
Qed.
Lemma nullable_null {A} (m : st bytes Halt A) ws s :
  white ws → nullable m (ws ++ b "null" ++ s) = (Ok None, s).
Proof.
  intros Hw. unfold nullable, mbind, st_bind.
  change (b "null" ++ s) with (x6e :: (drop 1 (b "null") ++ s)). rewrite skip_ws_app by done.
  change (x6e :: (drop 1 (b "null") ++ s)) with (b "null" ++ s). by rewrite null_app.
Qed.

Lemma skip_value_bare ws t c t' s :
  white ws → t = c :: t' → is_ws c = false → c ≠ x22 → ¬ (c = x7b ∨ c = x5b) →
  Forall (λ c, negb (is_delimiter c) = true) t → stop s → skip_value (ws ++ t ++ s) = (Ok tt, s).
Proof.
  intros Hw -> Hc Hq Hb Ht Hs. unfold skip_value, mbind, st_bind. cbn [app].
  rewrite skip_ws_app by done. unfold get_st. cbn [head]. rewrite !decide_False by done.
  unfold modify. f_equal. change (c :: t' ++ s) with ((c :: t') ++ s).
  rewrite span_stop; [done|done|done|]. intros d Hd. set_unfold in Hd. by destruct_or! Hd; subst.
Qed.

Lemma skip_value_app ws v s :
  white ws → match v with VStr t => plain t | _ => True end → stop s →
  skip_value (ws ++ value_text v ++ s) = (Ok tt, s).
Proof.
  intros Hw Hv Hs. destruct v as [t|n|]; cbn [value_text].
  - unfold skip_value, mbind, st_bind.
    change (([x22] ++ t ++ [x22]) ++ s) with (x22 :: (t ++ [x22]) ++ s).
    rewrite skip_ws_app by done. unfold get_st. cbn [head]. rewrite decide_True by done.
    assert (scan_string (x22 :: (t ++ [x22]) ++ s) = (Ok t, s)) as ->; [|done].
    rewrite <-(assoc_L app). by apply scan_string_app.
  - pose proof (num_text_digits n) as Hd. pose proof (num_text_nonempty n).
    assert (∀ d, is_digit d = true →
      negb (is_delimiter d) = true ∧ is_ws d = false ∧ d ≠ x22 ∧ ¬ (d = x7b ∨ d = x5b)) as Hdig.
    { intros d Hdd. unfold is_digit in Hdd. destruct d; vm_compute in Hdd; try done;
        (split; [done|split; [done|split; [done|by intros []]]]). }
    destruct (num_text n) as [|c t] eqn:E; [done|].
    assert (is_digit c = true) as Hc by by apply Forall_cons in Hd as [? _].
    destruct (Hdig c Hc) as (?&?&?&?). eapply skip_value_bare; [done..| |done].
    eapply Forall_impl; [exact Hd|]. intros d Hdd. by apply Hdig.
  - eapply (skip_value_bare ws (b "null")); [done..|by intros []| |done].
    vm_compute. repeat constructor.
Qed.

Lemma as_str_Some v s : as_str_field v = Some s ↔ v = VStr s.
Proof. destruct v; simpl; naive_solver. Qed.
Lemma as_num_Some w v n : as_num_field w v = Some n ↔ v = VNum n ∧ fits w n.
Proof.
  destruct v as [s|m|]; simpl; [naive_solver| |naive_solver]. rewrite checked_Some. naive_solver.
Qed.

Lemma read_str ws v k s :
  white ws → match v with VStr s => plain s | _ => True end → as_str_field v = Some k →
  required scan_string (ws ++ value_text v ++ s) = (Ok (Some k), s).
Proof.
  intros Hw Hv ->%as_str_Some. apply required_app; [done|by eexists _, _|].
  cbn [value_text]. rewrite <-!(assoc_L app). by apply scan_string_app.
Qed.
Lemma read_num w o ws v n s :
  white ws → as_num_field w v = Some n → stop s →
  required (number w o) (ws ++ value_text v ++ s) = (Ok (Some n), s).
Proof.
  intros Hw [-> Hn]%as_num_Some Hs. apply required_app; [done| |by apply number_app].
  destruct (value_head (VNum n)) as (c&t&?&?&_). by exists c, t.
Qed.
Lemma read_null_or {A} (m : st bytes Halt A) (get : value → option A) ws v o s :
  white ws → or_null get v = Some o →
  (∀ a c t, get v = Some a → value_text v = c :: t → is_ws c = false → c ≠ x6e →
     m (value_text v ++ s) = (Ok a, s)) →
  nullable m (ws ++ value_text v ++ s) = (Ok o, s).
Proof.
  intros Hw Ho Hm. assert (v = VNull ∨ v ≠ VNull) as [->|Hn] by (destruct v; auto).
  - injection Ho as <-. by apply nullable_null.
  - assert (Some <$> get v = Some o) as Hg by by destruct v.
    apply fmap_Some in Hg as (a&Ha&->).
    assert (∃ c t, value_text v = c :: t ∧ is_ws c = false ∧ c ≠ x6e) as (c&t&Et&Hc&Hne).
    { pose proof (value_head v) as Hh. by destruct v. }
    apply nullable_app; [done|by exists c, t|by eapply Hm].
Qed.

Lemma read_field_app x f f' s :
  field_ok x → apply_field f x = Some f' → stop s →
  read_field (fd_key x) f (fd_ws3 x ++ value_text (fd_value x) ++ s) = (Ok f', s).
Proof.
  intros (_&_&Hw&_&_&Hv) Ha Hs. unfold apply_field in Ha. unfold read_field.
  assert (∀ o, or_null as_str_field (fd_value x) = Some o →
    nullable scan_string (fd_ws3 x ++ value_text (fd_value x) ++ s) = (Ok o, s)) as Hnstr.
  { intros o Ho. eapply read_null_or; [done|exact Ho|]. intros a c t Hg _ _ _. apply as_str_Some in Hg.
    rewrite Hg in *. cbn [value_text]. rewrite <-!(assoc_L app). by apply scan_string_app. }
  assert (∀ w msg o, or_null (as_num_field w) (fd_value x) = Some o →
    nullable (number w msg) (fd_ws3 x ++ value_text (fd_value x) ++ s) = (Ok o, s)) as Hnnum.
  { intros w msg o Ho. eapply read_null_or; [done|exact Ho|]. intros a c t Hg _ _ _.
    apply as_num_Some in Hg as [-> Hf]. by apply number_app. }
  unfold u32_value, u64_value.
  repeat case_decide; try (apply fmap_Some in Ha as (a&Ha&->)); unfold mbind, st_bind.
  all: try by erewrite read_str by done.
  all: try by rewrite (read_num _ _ _ _ a) by done.
  all: try by rewrite (Hnstr a) by done.
  all: try by rewrite (Hnnum _ _ a) by done.
  injection Ha as <-. by rewrite skip_value_app.
Qed.

Lemma fields_text_stop (xs : list field) (ws : bytes) : stop (match xs with [] => [x7d] | y :: ys => [x2c] ++ fields_text y ys end ++ ws).
Proof. destruct xs; eexists _, _; (split; [done|]); set_solver. Qed.

Lemma fields_loop_app fuel f x (xs : list field) (s : bytes) f' :
  length (x :: xs) ≤ fuel → field_ok x → Forall field_ok xs →
  apply_fields f (x :: xs) = Some f' →
  fields_loop fuel f (fields_text x xs ++ s) = (Ok f', s).
Proof.
  revert f x xs. induction fuel as [|fuel IH]; intros f x xs Hf Hx Hxs Ha; [simpl in Hf; lia|].
  cbn [apply_fields] in Ha. apply bind_Some in Ha as (f1&Ha&Hrest).
  pose proof Hx as (Hw1&Hw2&Hw3&Hw4&Hk&Hv).
  set (next := match xs with [] => [x7d] | y :: ys => [x2c] ++ fields_text y ys end).
  assert (fields_text x xs ++ s =
    fd_ws1 x ++ x22 :: (fd_key x ++ [x22] ++ fd_ws2 x ++ x3a ::
    (fd_ws3 x ++ value_text (fd_value x) ++ fd_ws4 x ++ next ++ s))) as ->.
  { destruct xs; cbn [fields_text]; unfold field_text, next; rewrite <-!(assoc_L app); done. }
  assert (∃ c t, next ++ s = c :: t ∧ (c = x2c ∨ c = x7d) ∧ is_ws c = false) as (c&t&Enext&Hc&Hcw).
  { unfold next. destruct xs; eexists _, _; (split; [done|]); auto. }
  assert (stop (fd_ws4 x ++ next ++ s)) as Hstop by (rewrite Enext; by apply stop_ws).
  cbn [fields_loop]. unfold mbind, st_bind. rewrite (skip_ws_app (fd_ws1 x)) by done.
  change (peek (x22 :: ?r)) with (Ok (E := Halt) (Some x22), x22 :: r). cbn [head].
  rewrite decide_False by done.
  change (x22 :: fd_key x ++ [x22] ++ ?r) with ([x22] ++ fd_key x ++ [x22] ++ r).
  rewrite (scan_string_app (fd_key x)) by done. rewrite (skip_ws_app (fd_ws2 x)) by done.
  change (expect x3a (x3a :: ?r)) with (Ok (E := Halt) tt, r). cbv iota beta.
  rewrite (read_field_app x f f1) by done. rewrite Enext, skip_ws_app by done.
  change (peek (c :: t)) with (Ok (E := Halt) (Some c), c :: t). cbv iota beta.
  destruct xs as [|y ys].
  - injection Hrest as <-. injection Enext as <- <-. rewrite decide_False by done. done.
  - injection Enext as <- <-. rewrite decide_True by done.
    change (bump (x2c :: ?r)) with (Ok (E := Halt) (Some x2c), r). cbv iota beta.
    apply Forall_cons in Hxs as [Hy Hys]. apply IH; [simpl in *; lia|done..].
Qed.

Lemma fields_text_length x xs : length (x :: xs) ≤ length (fields_text x xs).
Proof.
  revert x. induction xs as [|y ys IH]; intros x; cbn [fields_text]; rewrite length_app; [simpl; lia|].
  specialize (IH y). rewrite length_app. simpl in *. lia.
Qed.

Lemma decode_object x xs ws f :
  field_ok x → Forall field_ok xs → white ws → apply_fields no_fields (x :: xs) = Some f →
  decode_request (object_text x xs ws) = build_request f.
Proof.
  intros Hx Hxs Hw Hf. unfold decode_request, decode_steps, object_text. unfold mbind, st_bind.
  change (expect x7b ([x7b] ++ ?r)) with (Ok (E := Halt) tt, r). cbv iota beta.
  rewrite (fields_loop_app _ no_fields x xs ws f); [|pose proof (fields_text_length x xs); simpl in *; rewrite ?length_app; lia|done..].
  assert (skip_ws ws = (Ok tt, [])) as ->.
  { unfold skip_ws, modify. f_equal. clear -Hw. induction Hw as [|c ws Hc _ IH]; [done|]. simpl. rewrite Hc.
    by destruct (span is_ws ws). }
  done.
Qed.

(** The decoder understands every object of the wire grammar: any fields,
    in any order and number, with any white space between their tokens and
    after the object, known keys with a value of their type (null too where
    the code allows it; the last one counts), and unknown keys with any
    string, number or null, which are ignored.  The request is the one those
    fields make. *)
Theorem decode_reads_object x xs ws f :
  field_ok x → Forall field_ok xs → white ws → apply_fields no_fields (x :: xs) = Some f →
  decode_request (object_text x xs ws) = build_request f.
Proof. apply decode_object. Qed.

Lemma decode_reads_object_witness :
  decode_request (object_text
    (mkField (b " ") (b "op") [] (b " ") (VStr (b "create")) [])
    [mkField [] (b "label") [] [] (VStr (b "web-1")) (b " ");
     mkField [] (b "future") [] [] (VNum 3) [];
     mkField [] (b "image_path") [] [] VNull [];
     mkField [] (b "cpu_count") [] [] (VNum 12) []] [x0a])
  = Ok (RCreate (b "web-1") None (Some 12%N) None None).
Proof.
  rewrite (decode_reads_object _ _ _
    (mkFields (Some (b "create")) (Some (b "web-1")) None None (Some 12%N) None None None None None)).
  - reflexivity.
  - repeat split; repeat constructor; discriminate.
  - repeat constructor; try reflexivity; discriminate.
  - repeat constructor.
  - vm_compute. reflexivity.
Defined.
