(* ===== verification/ImageLoader.v ===== *)
(** * ImageLoader: boot images

    crates/celhyper/src/image_loader.rs and guest.rs: the embedded guest, the
    image handed over by the boot loader, and the slot that holds the image
    the controller streamed over the bridge. *)
From S2P Require Import Prelude.
From S2P Require Import Vault.
From S2P Require Import Crc.
From S2P Require Import HyperErr.
From S2P Require Import Ept.
From S2P Require Import Manager.
From S2P Require Import Wire.
From Stdlib Require Import Strings.Byte.

(** ** guest.rs *)
Definition GUEST_MARKER : bytes := b "Celium Guest Alive!" ++ [x0a].
(** [mov al, c; out 0xE9, al] per byte of the marker, then [hlt]. *)
Fixpoint build_blob (marker : bytes) : bytes :=
  match marker with
  | [] => [xf4]
  | c :: marker' => [xb0; c; xe6; xe9] ++ build_blob marker'
  end.
Definition HELLO_BLOB : bytes := build_blob GUEST_MARKER.

(** ** Boot images *)
Definition MAX_IMAGE_BYTES : N := PAGE_SIZE.
Definition GUEST_LOAD_GPA : N := 0x1000.
Definition HLT_FALLBACK : bytes := [xf4].

Record BootImage := mkBootImage {
  img_blob : bytes; img_entry_rip : N; img_entry_rsp : N; img_crc32c : option N
}.

Definition from_raw_bytes (blob : bytes) (entry_rip entry_rsp : N) (crc : option N) : HyperResult BootImage :=
  if decide (blob = []) then Err (Invalid "image_loader: empty blob")
  else if (MAX_IMAGE_BYTES <? blen blob)%N
       then Err (Invalid "image_loader: blob > MAX_IMAGE_BYTES (4 KiB W23-D cap)")
  else
    let lo := GUEST_LOAD_GPA in
    let hi := (GUEST_LOAD_GPA + blen blob)%N in
    if (entry_rip <? lo)%N || (hi <=? entry_rip)%N
    then Err (Invalid "image_loader: entry_rip outside loaded blob region")
    else Ok (mkBootImage blob entry_rip entry_rsp crc).

Definition embedded : BootImage :=
  match from_raw_bytes HELLO_BLOB GUEST_LOAD_GPA 0 None with
  | Ok img => img
  | Err _ => mkBootImage HLT_FALLBACK GUEST_LOAD_GPA 0 None
  end.

Definition from_boot_image (image : BootImage) : CreateVmRequest :=
  mkCreateVmRequest (img_blob image) (img_entry_rip image) (img_entry_rsp image).

(** ** The handed-over image: [len] bytes of memory at a physical address *)
Section handoff.
Context {P : Type} `{FrameProvider P}.

Definition read_slice (p : P) (phys len : N) : bytes :=
  (λ i, Ept.peek p (phys + N.of_nat i)) <$> seq 0 (N.to_nat len).

Definition from_handoff (p : P) (phys len crc : N) : HyperResult (option BootImage) :=
  if (phys =? 0)%N && (len =? 0)%N then Ok None
  else if (phys =? 0)%N || (len =? 0)%N
       then Err (InvalidHandoff "image_loader: boot_image_phys/len half-set")
  else if (MAX_IMAGE_BYTES <? len)%N
       then Err (InvalidHandoff "image_loader: handoff boot image > MAX_IMAGE_BYTES")
  else
    let crc := if (crc =? 0)%N then None else Some crc in
    img ← from_raw_bytes (read_slice p phys len) GUEST_LOAD_GPA 0 crc;
    Ok (Some img).
Definition from_handoff_or_embedded (p : P) (phys len crc : N) : BootImage :=
  match from_handoff p phys len crc with Ok (Some img) => img | _ => embedded end.
End handoff.

(** ** The staged image *)
Record StagedImage := mkStagedImage {
  sg_bytes : bytes; sg_len : N; sg_crc32c : N; sg_present : bool
}.
Definition staged_empty : StagedImage := mkStagedImage (replicate (N.to_nat MAX_IMAGE_BYTES) x00) 0 0 false.

(** Overwrite the first bytes of a buffer. *)
Definition fill_prefix (new old : bytes) : bytes := new ++ drop (length new) old.

Definition stage_from_hex (hex : bytes) (expected_len expected_crc : N) : st StagedImage HyperError unit :=
  _ ← bail_if (expected_len =? 0)%N (Invalid "image_loader: stage len == 0");
  _ ← bail_if (MAX_IMAGE_BYTES <? expected_len)%N (Invalid "image_loader: stage len > MAX_IMAGE_BYTES");
  _ ← bail_if (negb (blen hex =? saturating_mul 64 expected_len 2)%N)
        (Invalid "image_loader: stage hex len mismatch");
  s ← get_st;
  let n := N.to_nat expected_len in
  let '(decoded, dst) := hex_decode hex (take n (sg_bytes s)) in
  _ ← put_st (mkStagedImage (fill_prefix dst (sg_bytes s)) 0 0 false);
  _ ← try decoded;
  let actual_crc := crc32c dst in
  if negb (actual_crc =? expected_crc)%N
  then _ ← put_st (mkStagedImage (fill_prefix (replicate n x00) (sg_bytes s)) 0 0 false);
       mthrow (Invalid "image_loader: stage CRC mismatch")
  else put_st (mkStagedImage (fill_prefix dst (sg_bytes s)) expected_len actual_crc true).

Definition staged_meta (s : StagedImage) : option (N * N) :=
  if sg_present s then Some (sg_len s, sg_crc32c s) else None.
Definition discard_staged (s : StagedImage) : StagedImage := mkStagedImage (sg_bytes s) 0 0 false.

Definition from_staged_or_embedded (expected_crc : option N) (s : StagedImage) : BootImage :=
  match expected_crc with
  | Some want =>
      if sg_present s && (sg_crc32c s =? want)%N
      then match from_raw_bytes (take (N.to_nat (sg_len s)) (sg_bytes s)) GUEST_LOAD_GPA 0 (Some want) with
           | Ok img => img
           | Err _ => embedded
           end
      else embedded
  | None => embedded
  end.

Example hello_blob_fits : embedded = mkBootImage HELLO_BLOB GUEST_LOAD_GPA 0 None ∧ blen HELLO_BLOB = 81%N.
Proof. by vm_compute. Qed.

(** ** What the loader promises *)

(** The slot holds an image that has been checked. *)
Definition staged_ok (s : StagedImage) : Prop :=
  blen (sg_bytes s) = MAX_IMAGE_BYTES ∧
  (sg_present s = true → (0 < sg_len s ≤ MAX_IMAGE_BYTES)%N ∧
     crc32c (take (N.to_nat (sg_len s)) (sg_bytes s)) = sg_crc32c s).

(** A length the loader refuses before taking the lock leaves the image staged
    before in its slot. *)
Lemma stage_keeps_old hex len crc s :
  len = 0%N ∨ (MAX_IMAGE_BYTES < len)%N →
  ∃ e, stage_from_hex hex len crc s = (Err e, s).
Proof.
  intros [-> | Hl]; [by eexists|]. unfold stage_from_hex, mbind, st_bind, bail_if.
  destruct (N.eqb_spec len 0) as [->|_]; [by eexists|].
  apply N.ltb_lt in Hl as ->. by eexists.
Qed.

Lemma hex_bytes_length src : length (hex_bytes src).2 ≤ length src / 2.
Proof.
  induction src as [src IH] using (induction_ltof1 _ length).
  destruct src as [|hi [|lo src]]; [done|done|]. unfold ltof in IH. cbn [hex_bytes].
  specialize (IH src). simpl in IH. specialize (IH ltac:(lia)).
  change (length (hi :: lo :: src)) with (S (S (length src))).
  replace (S (S (length src))) with (length src + 1 * 2) by lia. rewrite Nat.div_add by lia.
  destruct (_ ≫= _) as [c|e]; [|simpl; lia]. destruct (hex_bytes src) as [r out]. simpl in *. lia.
Qed.
Lemma hex_decode_length src dst : length (hex_decode src dst).2 = length dst.
Proof.
  unfold hex_decode. destruct (negb _); [done|].
  destruct (N.ltb_spec (blen dst) (blen src / 2)) as [|Hle]; [done|].
  pose proof (hex_bytes_length src) as Hl. destruct (hex_bytes src) as [r out]. cbn [snd] in *.
  rewrite length_app, length_drop. unfold blen in Hle.
  assert (N.of_nat (length src) / 2 = N.of_nat (length src / 2))%N as E
    by (rewrite Nat2N.inj_div; done). rewrite E in Hle. lia.
Qed.

Lemma fill_prefix_length new old : length new ≤ length old → length (fill_prefix new old) = length old.
Proof. intros. unfold fill_prefix. rewrite length_app, length_drop. lia. Qed.
Lemma fill_prefix_take new old : take (length new) (fill_prefix new old) = new.
Proof. unfold fill_prefix. by rewrite take_app_length. Qed.

Lemma hex_bytes_Ok src bs : hex_bytes src = (Ok tt, bs) → length bs = length src / 2.
Proof.
  revert bs. induction src as [src IH] using (induction_ltof1 _ length). intros bs.
  destruct src as [|hi [|lo src]]; [by intros [= <-]..|]. unfold ltof in IH. cbn [hex_bytes].
  specialize (IH src). cbn [length] in IH. specialize (IH ltac:(lia)).
  change (length (hi :: lo :: src)) with (S (S (length src))).
  replace (S (S (length src))) with (length src + 1 * 2) by lia. rewrite Nat.div_add by lia.
  destruct (_ ≫= _) as [c|e]; [|done]. destruct (hex_bytes src) as [r out]. intros [= -> <-].
  cbn [length]. rewrite (IH out) by done. lia.
Qed.

(** Staging accepts exactly the hex of [expected_len] bytes with the expected
    checksum; a refusal leaves the slot as it was or empty. *)
Lemma stage_spec hex len crc s :
  staged_ok s → fits 32 len →
  let '(r, s') := stage_from_hex hex len crc s in
  staged_ok s' ∧
  match r with
  | Ok _ => ∃ bs, hex_bytes hex = (Ok tt, bs) ∧ blen bs = len ∧ (0 < len)%N ∧ crc32c bs = crc ∧
      staged_meta s' = Some (len, crc) ∧ take (N.to_nat len) (sg_bytes s') = bs
  | Err _ => s' = s ∨ staged_meta s' = None
  end.
Proof.
  intros Hs Hfits. pose proof Hs as [Hb _]. unfold stage_from_hex, get_st, put_st, try, bail_if, mbind, st_bind, mret, st_ret, mthrow, st_throw.
  destruct (N.eqb_spec len 0) as [|H0]; [by split; [|left]|].
  destruct (N.ltb_spec MAX_IMAGE_BYTES len) as [|Hmax]; [by split; [|left]|].
  destruct (N.eqb_spec (blen hex) (saturating_mul 64 len 2)) as [Hlen|]; [|by split; [|left]]. cbn [negb].
  assert (blen hex = (2 * len)%N) as Hhex.
  { rewrite Hlen. unfold saturating_mul, umax, fits in *. change (2 ^ 64)%N with 18446744073709551616%N.
    change (2 ^ 32)%N with 4294967296%N in Hfits. lia. }
  assert (length (take (N.to_nat len) (sg_bytes s)) = N.to_nat len) as Htake.
  { rewrite length_take. unfold blen in *. lia. }
  pose proof (hex_decode_length hex (take (N.to_nat len) (sg_bytes s))) as Hdl. rewrite Htake in Hdl.
  assert (hex_decode hex (take (N.to_nat len) (sg_bytes s)) =
    let '(r, out) := hex_bytes hex in ((λ _, len) <$> r, out ++ drop (length out) (take (N.to_nat len) (sg_bytes s)))) as Hd.
  { unfold hex_decode. rewrite Hhex, (N.mul_comm 2), N.Div0.mod_mul. cbn [N.eqb negb].
    rewrite N.div_mul by done. destruct (N.ltb_spec (blen (take (N.to_nat len) (sg_bytes s))) len) as [Hc|]; [|done].
    unfold blen in Hc. rewrite Htake in Hc. lia. }
  rewrite Hd in Hdl |- *. clear Hd. destruct (hex_bytes hex) as [r out] eqn:Ehex. cbn [snd] in Hdl.
  set (dst := out ++ drop (length out) (take (N.to_nat len) (sg_bytes s))) in *.
  assert (∀ new, length new = N.to_nat len → blen (fill_prefix new (sg_bytes s)) = MAX_IMAGE_BYTES) as Hfill.
  { intros new Hn. unfold blen in *. rewrite fill_prefix_length; lia. }
  destruct r as [[]|e]; cbn [fmap result_fmap].
  2: { split; [|by right]. split; [by apply Hfill|done]. }
  destruct (N.eqb_spec (crc32c dst) crc) as [Hcrc|]; cbn [negb].
  - assert (dst = out) as Edst.
    { unfold dst. rewrite (drop_ge (take _ _)), app_nil_r; [done|].
      rewrite Htake, (hex_bytes_Ok _ _ Ehex). unfold blen in Hhex.
      apply Nat.div_le_lower_bound; lia. }
    assert (take (N.to_nat len) (fill_prefix dst (sg_bytes s)) = dst) as Ht by
      (rewrite <-Hdl; apply fill_prefix_take).
    split.
    + split; [by apply Hfill|]. intros _. cbn [sg_len sg_bytes sg_crc32c]. split; [lia|]. by rewrite Ht.
    + exists out. rewrite <-Edst. split; [done|]. split; [unfold blen; lia|]. split; [lia|].
      split; [done|]. split; [|exact Ht]. unfold staged_meta. cbn. by rewrite Hcrc.
  - split; [|by right]. split; [apply Hfill, length_replicate|done].
Qed.

Lemma stage_accepts hex bs len crc s :
  staged_ok s → (0 < len ≤ MAX_IMAGE_BYTES)%N → blen hex = (2 * len)%N → hex_bytes hex = (Ok tt, bs) → crc32c bs = crc →
  (stage_from_hex hex len crc s).1 = Ok tt.
Proof.
  intros [Hb _] [H0 Hmax] Hhex Ebs Hcrc. unfold stage_from_hex, get_st, put_st, try, bail_if, mbind, st_bind, mret, st_ret, mthrow, st_throw.
  destruct (N.eqb_spec len 0); [lia|]. destruct (N.ltb_spec MAX_IMAGE_BYTES len); [lia|].
  assert (saturating_mul 64 len 2 = blen hex) as ->.
  { rewrite Hhex. unfold saturating_mul, umax, MAX_IMAGE_BYTES, PAGE_SIZE in *.
    change (2 ^ 64)%N with 18446744073709551616%N. lia. }
  rewrite N.eqb_refl. cbn [negb]. assert (length (take (N.to_nat len) (sg_bytes s)) = N.to_nat len) as Htake.
  { rewrite length_take. unfold blen in *. lia. }
  assert (length bs = N.to_nat len) as Hbs.
  { rewrite (hex_bytes_Ok _ _ Ebs). unfold blen in Hhex.
    replace (length hex) with (N.to_nat len * 2) by lia. by apply Nat.div_mul. }
  assert (hex_decode hex (take (N.to_nat len) (sg_bytes s)) = (Ok len, bs)) as ->; [|by rewrite Hcrc, N.eqb_refl].
  unfold hex_decode. rewrite Hhex, (N.mul_comm 2), N.Div0.mod_mul. cbn [N.eqb negb].
  rewrite N.div_mul by done. destruct (N.ltb_spec (blen (take (N.to_nat len) (sg_bytes s))) len) as [Hc|].
  { unfold blen in Hc. lia. }
  rewrite Ebs. cbn [fmap result_fmap]. by rewrite drop_ge, app_nil_r by lia.
Qed.

(** A create whose checksum is the staged one boots the staged bytes. *)
Lemma from_staged_spec want s :
  staged_ok s → staged_meta s = Some (sg_len s, want) →
  from_staged_or_embedded (Some want) s =
    mkBootImage (take (N.to_nat (sg_len s)) (sg_bytes s)) GUEST_LOAD_GPA 0 (Some want).
Proof.
  intros [Hb Hp] Hm. unfold staged_meta in Hm. unfold from_staged_or_embedded.
  destruct (sg_present s) eqn:E; [|done]. injection Hm as <-. rewrite N.eqb_refl. cbn [andb].
  destruct (Hp eq_refl) as [[H0 Hmax] _]. unfold from_raw_bytes.
  assert (blen (take (N.to_nat (sg_len s)) (sg_bytes s)) = sg_len s) as Hl.
  { unfold blen in *. rewrite length_take. lia. }
  rewrite decide_False; [|intros Hn; rewrite Hn in Hl; change (blen []) with 0%N in Hl; lia].
  rewrite Hl. destruct (N.ltb_spec MAX_IMAGE_BYTES (sg_len s)); [lia|].
  destruct (N.ltb_spec GUEST_LOAD_GPA GUEST_LOAD_GPA); [lia|].
  destruct (N.leb_spec (GUEST_LOAD_GPA + sg_len s) GUEST_LOAD_GPA); [lia|done].
Qed.
