(* ===== verification/Bridge.v ===== *)
(** * Bridge: the kernel's main loop

    crates/celhyper/src/bridge.rs, with [read_line] of serial_io.rs: frames off
    the serial line, dispatch into the VM manager, the side tables of labels
    and image metadata, and the reply line.  The state is the kernel's, the two
    tables and the staged image.  The UART registers are left out: the line is
    the sequence of bytes received, and what is written is the output. *)
From S2P Require Import Prelude.
From S2P Require Import Vault.
From S2P Require Import HyperErr.
From S2P Require Import Ept.
From S2P Require Import Vm.
From S2P Require Import Vmx.
From S2P Require Import Manager.
From S2P Require Import Wire.
From S2P Require Import WireEncode.
From S2P Require Import ImageLoader.
From Stdlib Require Import Strings.Byte.

Definition MAX_FRAME_BYTES : N := 12 * 1024.

Record Extras := mkExtras {
  ex_image_path : Buf; ex_cpu_count : option N; ex_memory_mib : option N; ex_boot_blob_crc32c : option N
}.
Definition extras_empty : Extras := mkExtras (buf_empty IMAGE_PATH_MAX) None None None.

Record Bridge (C P : Type) := mkBridge {
  br_kernel : Kernel C P;
  br_labels : list Buf;        (** [LABELS], ROWS_MAX of them *)
  br_extras : list Extras;     (** [EXTRAS] *)
  br_staged : StagedImage      (** [STAGED] *)
}.
Arguments mkBridge {C P}.
Arguments br_kernel {C P}.
Arguments br_labels {C P}.
Arguments br_extras {C P}.
Arguments br_staged {C P}.

(** ** serial_io::read_line

    [None] is waiting for more bytes. *)
Fixpoint read_line (cap : N) (out : bytes) (overflow : bool) (input : bytes) :
    option (HyperResult bytes * bytes) :=
  match input with
  | [] => None
  | c :: rest =>
      if decide (c = x0a) then
        Some (if overflow then Err (Exhausted "serial_io: line exceeded buffer") else Ok out, rest)
      else if decide (c = x0d) then read_line cap out overflow rest
      else if (blen out <? cap)%N then read_line cap (out ++ [c]) overflow rest
      else read_line cap out true rest
  end.

Section bridge.
Context {C P : Type} `{Cpu C P} `{FrameProvider P}.
Abbreviation B := (Bridge C P).
Abbreviation M := (st B HyperError).

Definition set_kernel (k : Kernel C P) (s : B) : B := mkBridge k (br_labels s) (br_extras s) (br_staged s).
Definition set_labels (l : list Buf) (s : B) : B := mkBridge (br_kernel s) l (br_extras s) (br_staged s).
Definition set_extras (e : list Extras) (s : B) : B := mkBridge (br_kernel s) (br_labels s) e (br_staged s).
Definition set_staged (g : StagedImage) (s : B) : B := mkBridge (br_kernel s) (br_labels s) (br_extras s) g.
Definition on_kernel {A} (m : st (Kernel C P) HyperError A) : M A := zoom br_kernel set_kernel m.
Definition on_staged {A} (m : st StagedImage HyperError A) : M A := zoom br_staged set_staged m.

Definition state_tag (s : VmState) : StateTag :=
  match s with
  | Created => TCreated | Running => TRunning | Halted => THalted | Stopped => TStopped | Faulted => TFaulted
  end.

(** ** Side tables *)
Definition remember_label (id : N) (label : bytes) : M unit :=
  _ ← bail_if (N.of_nat ROWS_MAX <=? id)%N (Denied "bridge: VmId out of range");
  buf ← try (ok_or (buf_from_slice LABEL_MAX label) (Invalid "bridge: label > 32 chars"));
  modify (λ s, set_labels (<[N.to_nat id := buf]> (br_labels s)) s).
Definition forget_label (id : N) (s : B) : B :=
  if (id <? N.of_nat ROWS_MAX)%N
  then set_labels (<[N.to_nat id := buf_empty LABEL_MAX]> (br_labels s)) s else s.
Definition remember_extras (id : N) (image_path : option bytes)
    (cpu_count memory_mib boot_blob_crc32c : option N) : M unit :=
  _ ← bail_if (N.of_nat ROWS_MAX <=? id)%N (Denied "bridge: VmId out of range");
  path ← try (match image_path with
              | None => Ok (buf_empty IMAGE_PATH_MAX)
              | Some p => ok_or (buf_from_slice IMAGE_PATH_MAX p) (Invalid "bridge: image_path > 128 chars")
              end);
  modify (λ s, set_extras (<[N.to_nat id := mkExtras path cpu_count memory_mib boot_blob_crc32c]> (br_extras s)) s).
Definition forget_extras (id : N) (s : B) : B :=
  if (id <? N.of_nat ROWS_MAX)%N
  then set_extras (<[N.to_nat id := extras_empty]> (br_extras s)) s else s.

(** [build_rows]: the rows of the slots that hold a VM not deleted. *)
Definition build_row (s : B) (i : N) : option Row :=
  e ← list_entry (br_kernel s) i;
  label ← br_labels s !! N.to_nat i;
  extras ← br_extras s !! N.to_nat i;
  Some (mkRow (ls_id e) label (state_tag (ls_state e)) (ls_last_exit e) (ex_image_path extras)
          (ex_cpu_count extras) (ex_memory_mib extras) (ex_boot_blob_crc32c extras)).
Definition build_rows (s : B) : list (option Row) := build_row s <$> slots.

(** ** [dispatch] *)
Definition reply_state (id : N) : M Reply :=
  s ← get_st;
  state ← try (get_vm_state id (br_kernel s));
  last_exit ← try (vm_last_exit id (br_kernel s));
  mret (PState id (state_tag state) last_exit).

Definition dispatch (req : Request) : M Reply :=
  match req with
  | RCreate label image_path cpu_count memory_mib crc =>
      _ ← bail_if (LABEL_MAX <? blen label)%N (Invalid "bridge: label > 32 chars");
      _ ← bail_if (IMAGE_PATH_MAX <? from_option blen 0%N image_path)%N (Invalid "bridge: image_path > 128 chars");
      s ← get_st;
      let image := from_staged_or_embedded crc (br_staged s) in
      id ← on_kernel (create_vm (from_boot_image image));
      _ ← remember_label id label;
      _ ← remember_extras id image_path cpu_count memory_mib crc;
      mret (PCreated id)
  | RStart id => _ ← on_kernel (start_vm id); reply_state id
  | RStop id => _ ← on_kernel (stop_vm id); reply_state id
  | RDelete id =>
      _ ← on_kernel (delete_vm id);
      _ ← modify (forget_label id);
      _ ← modify (forget_extras id);
      mret (PDeleted id)
  | RList => s ← get_st; mret (PListed (build_rows s))
  | RImageLoad len crc hex => _ ← on_staged (stage_from_hex hex len crc); mret (PImageLoaded len crc)
  end.

(** ** The loop *)
Definition error_message (e : HyperError) : bytes :=
  match e with
  | InvalidHandoff m | UnsupportedCpu m | Hardware m | Exhausted m | Denied m
  | Invalid m | Unimplemented m | Internal m => b m
  end.
Definition error_reply (e : HyperError) : Reply := PError (from_slice_truncating (error_message e)).

(** The bytes [encode_reply] and [write_all] put on the line; nothing when the
    encoder fails. *)
Definition send (reply : Reply) : bytes :=
  match encode_reply reply TX_CAP with
  | (Ok n, w) => take (N.to_nat n) (w_out w)
  | (Err _, _) => []
  end.

Definition is_blank (frame : bytes) : bool := forallb (λ c, bool_decide (c ∈ [x20; x09])) frame.

(** One turn of [run] on a frame: the bytes written, and the state. *)
Definition serve_frame (frame : bytes) (s : B) : bytes * B :=
  if is_blank frame then ([], s)
  else match decode_request frame with
       | Err (Fail e) => (send (error_reply e), s)
       | Err Stuck => ([], s)
       | Ok req =>
           let '(r, s') := dispatch req s in
           (send (match r with Ok reply => reply | Err e => error_reply e end), s')
       end.

(** [run] until no complete line is left: one output per frame read, the
    bytes of the unfinished line, and the state. *)
Fixpoint run (fuel : nat) (input : bytes) (s : B) : list bytes * bytes * B :=
  match fuel with
  | O => ([], input, s)
  | S fuel' =>
      match read_line MAX_FRAME_BYTES [] false input with
      | None => ([], input, s)
      | Some (Err _, rest) => run fuel' rest s
      | Some (Ok frame, rest) =>
          let '(out, s') := serve_frame frame s in
          let '(outs, unread, s'') := run fuel' rest s' in
          (out :: outs, unread, s'')
      end
  end.
End bridge.
