(* ===== verification/BridgeProofs.v ===== *)
(** * BridgeProofs: every frame is answered

    Whatever bytes arrive on the serial line, the bridge answers each line
    that is not blank by exactly one line, and all it does to the kernel is a
    sequence of the manager's entry points; an image is only booted with the
    bytes whose checksum the controller asked for. *)
From S2P Require Import Prelude.
From S2P Require Import Vault.
From S2P Require Import Crc.
From S2P Require Import HyperErr.
From S2P Require Import Ept.
From S2P Require Import EptProofs.
From S2P Require Import Vm.
From S2P Require Import Vmx.
From S2P Require Import Manager.
From S2P Require Import ManagerProofs.
From S2P Require Import KernelRun.
From S2P Require Import Wire.
From S2P Require Import WireProofs.
From S2P Require Import WireEncode.
From S2P Require Import ImageLoader.
From S2P Require Import Bridge.
From Stdlib Require Import Strings.Byte.

(** ** Buffers *)
Lemma buf_copy_ok cap src : (blen src ≤ cap)%N → buf_ok cap (buf_copy cap src) ∧ as_slice (buf_copy cap src) = src.
Proof.
  intros Hl. unfold buf_copy, buf_ok, as_slice, blen in *. cbn [buf_bytes buf_len buf_empty].
  rewrite length_app, length_drop, length_replicate. split; [split; lia|].
  by rewrite Nat2N.id, take_app_length.
Qed.
Lemma from_slice_ok cap src x : buf_from_slice cap src = Some x → buf_ok cap x ∧ as_slice x = src.
Proof.
  unfold buf_from_slice. destruct (N.ltb_spec cap (blen src)); [done|]. intros [= <-]. by apply buf_copy_ok.
Qed.
Lemma empty_ok cap : buf_ok cap (buf_empty cap) ∧ as_slice (buf_empty cap) = [].
Proof.
  unfold buf_ok, buf_empty, as_slice, blen. cbn [buf_bytes buf_len]. rewrite length_replicate.
  split; [split; lia|]. done.
Qed.
Lemma truncating_ok src : buf_ok ERROR_MSG_MAX (from_slice_truncating src).
Proof.
  unfold from_slice_truncating. apply buf_copy_ok. unfold blen, ERROR_MSG_MAX. rewrite length_take.
  destruct (N.ltb_spec 96 (N.of_nat (length src))); lia.
Qed.
Lemma error_reply_ok e : reply_ok (error_reply e) ∧ reply_line (error_reply e).
Proof. split; [apply truncating_ok|done]. Qed.

Lemma send_text r : reply_ok r → send r = reply_text r ++ [x0a].
Proof.
  intros Hr. unfold send. rewrite encode_text by done. cbn [w_out]. unfold blen. rewrite Nat2N.id. by rewrite take_ge.
Qed.

Section bridge.
Context {C P : Type} `{Cpu C P} `{FrameProvider P}.
Implicit Types (k : Kernel C P) (s : Bridge C P).

(** ** Exit reasons stay u32 *)
Definition exits_ok k : Prop := ∀ i vm, k_registry k !! i = Some vm → fits 32 (vm_raw_exit vm).
Definition keeps {A} (m : st (Kernel C P) HyperError A) : Prop := ∀ k, exits_ok k → exits_ok (m k).2.

Lemma keeps_bind {A B} (m : st (Kernel C P) HyperError A) (f : A → st (Kernel C P) HyperError B) :
  keeps m → (∀ a, keeps (f a)) → keeps (m ≫= f).
Proof.
  intros Hm Hf k Hk. specialize (Hm k Hk). unfold mbind, st_bind.
  destruct (m k) as [[a|e] k']; [by apply Hf|done].
Qed.
Lemma keeps_same {A} (m : st (Kernel C P) HyperError A) :
  (∀ k, k_registry (m k).2 = k_registry k) → keeps m.
Proof. intros Hm k Hk i vm. rewrite Hm. apply Hk. Qed.
Lemma keeps_on_frames {A} (m : st P HyperError A) : keeps (on_frames m).
Proof. apply keeps_same. intros k. unfold on_frames, zoom. by destruct (m (k_frames k)). Qed.
Lemma keeps_on_cpu {A} (m : st C HyperError A) : keeps (on_cpu m).
Proof. apply keeps_same. intros k. unfold on_cpu, zoom. by destruct (m (k_cpu k)). Qed.
Lemma keeps_get {B} (f : Kernel C P → st (Kernel C P) HyperError B) : (∀ k, keeps (f k)) → keeps (get_st ≫= f).
Proof. intros Hf k Hk. by apply Hf. Qed.
Lemma keeps_on_vm {A} id v (m : st Vm HyperError A) :
  fits 32 (vm_raw_exit v) → (∀ w, fits 32 (vm_raw_exit w) → fits 32 (vm_raw_exit (m w).2)) → keeps (on_vm id v m).
Proof.
  intros Hv Hm k Hk i vm. unfold on_vm.
  set (w := default v (k_registry k !! id)).
  assert (fits 32 (vm_raw_exit w)) as Hw.
  { unfold w. destruct (k_registry k !! id) as [u|] eqn:E; [by apply (Hk id)|done]. }
  specialize (Hm w Hw). destruct (m w) as [r w']. cbn [snd k_registry set_registry].
  rewrite lookup_insert_Some. intros [[_ <-]|[_ Hi]]; [done|by apply (Hk i)].
Qed.

Lemma exit_transition from to w : vm_raw_exit (transition from to w).2 = vm_raw_exit w.
Proof. unfold transition, compare_exchange. by destruct (_ =? _)%N. Qed.
Lemma exit_stop w : vm_raw_exit (vm_stop w).2 = vm_raw_exit w.
Proof. unfold vm_stop, compare_exchange. destruct (_ =? _)%N; [done|]. by destruct (_ =? _)%N. Qed.
Lemma exit_on_exit r o w : vm_raw_exit (on_exit r o w).2 = r.
Proof.
  unfold on_exit, mbind, st_bind, modify. pose proof (exit_transition Running (match o with OHalted => Halted | OFaulted => Faulted end) (set_raw_exit r w)) as E.
  destruct (transition _ _ _) as [[[]|e] w']; exact E.
Qed.

Lemma keeps_dispatch_exit r o : fits 32 r → keeps (dropped (dispatch_exit r o)).
Proof.
  intros Hr k Hk. unfold dropped, dispatch_exit, get_st, try, ok_or, mbind, st_bind. cbn [snd].
  destruct (k_active k) as [i|]; [|done]. destruct (k_registry k !! i) as [vm|] eqn:E; [|done].
  apply keeps_on_vm; [by apply (Hk i)|intros w _; by rewrite exit_on_exit|done].
Qed.
Lemma read_exit_fits c r : read_exit c = Ok (KOther r) → fits 32 r.
Proof.
  unfold read_exit. intros (raw&_&Hr)%result_bind_Ok. destruct (flag raw 31); [done|].
  assert (fits 32 (N.land raw 0xFFFF)) as Hf.
  { unfold fits. change 0xFFFF%N with (N.ones 16). rewrite N.land_ones.
    eapply N.lt_trans; [by apply N.mod_lt|done]. }
  revert Hr. repeat (case_match; try done). by intros [= <-].
Qed.
Lemma keeps_exit : keeps vm_exit_dispatch.
Proof.
  intros k Hk. unfold vm_exit_dispatch, get_st, mbind, st_bind.
  destruct (read_exit (k_cpu k)) as [[| | |r]|e] eqn:E; try by apply keeps_dispatch_exit.
  - apply keeps_dispatch_exit; [by eapply read_exit_fits|done].
  - done.
Qed.

Lemma lookup_found id k vm : lookup id k = Ok vm → (id < MAX_VMS)%N ∧ k_registry k !! id = Some vm.
Proof.
  unfold lookup. destruct (N.leb_spec MAX_VMS id); [done|]. intros Hl%ok_or_Ok. done.
Qed.

Lemma keeps_start id : keeps (start_vm id).
Proof.
  intros k Hk. unfold start_vm. unfold mbind at 1, st_bind, get_st. unfold mbind at 1, st_bind, try.
  destruct (lookup id k) as [vm|e] eqn:El; [|done]. apply lookup_found in El as [_ Hvm].
  assert (fits 32 (vm_raw_exit vm)) as Hf by by apply (Hk id).
  revert k Hk Hvm.
  enough (keeps (_ ← set_active id vm; _ ← on_vm id vm mark_running; k ← get_st;
    let '(launched, (c, p)) := hw_vmlaunch (k_cpu k) (k_frames k) in
    _ ← modify (λ k, set_frames p (set_cpu c k));
    match launched with
    | None => vm_exit_dispatch
    | Some rflags => match vmlaunch_result rflags with
        | Ok _ => mret tt
        | Err (Internal _) | Err (Hardware _) => dropped (on_vm id vm vm_stop)
        | Err other => mthrow other end
    end)) as Hm by (intros k Hk _; exact (Hm k Hk)).
  apply keeps_bind.
  { apply keeps_bind; [apply keeps_on_cpu|]. intros _. by apply keeps_same. }
  intros _. apply keeps_bind.
  { apply keeps_on_vm; [done|]. intros w Hw. unfold mark_running. by rewrite exit_transition. }
  intros _. apply keeps_get. intros k. destruct (hw_vmlaunch _ _) as [fl [c p]].
  apply keeps_bind; [by apply keeps_same|]. intros _. destruct fl as [rflags|]; [|apply keeps_exit].
  assert (keeps (dropped (on_vm id vm vm_stop))) as Hs.
  { intros k' Hk'. apply keeps_on_vm; [done|intros w Hw; by rewrite exit_stop|done]. }
  destruct (vmlaunch_result rflags) as [[]|[]]; try done; by apply keeps_same.
Qed.

Lemma keeps_stop id : keeps (stop_vm id).
Proof.
  intros k Hk. unfold stop_vm, get_st, try, mbind, st_bind.
  destruct (lookup id k) as [vm|e] eqn:El; [|done]. apply lookup_found in El as [_ Hvm].
  destruct (is_terminal _); [done|].
  apply keeps_on_vm; [by apply (Hk id)|intros w Hw; by rewrite exit_stop|done].
Qed.
Lemma keeps_delete_vm id : keeps (delete_vm id).
Proof.
  intros k Hk. unfold delete_vm, get_st, try, bail_if, modify, mbind, st_bind.
  destruct (lookup id k) as [vm|e]; [|done]. destruct (is_terminal _); [|done]. cbn [negb].
  by destruct (negb _).
Qed.
Lemma keeps_create_vm req : keeps (create_vm req).
Proof.
  unfold create_vm. apply keeps_get. intros k. apply keeps_bind; [by destruct (negb _); apply keeps_same|].
  intros _. unfold create_vm_with. apply keeps_bind.
  { unfold reserve_slot. apply keeps_get. intros k1. apply keeps_bind; [by apply keeps_same|].
    intros slot. apply keeps_bind; [by apply keeps_same|]. intros _. by apply keeps_same. }
  intros slot. apply keeps_bind; [apply keeps_on_frames|]. intros ept. apply keeps_get. intros k1.
  apply keeps_bind; [by apply keeps_same|]. intros rev. apply keeps_bind; [apply keeps_on_frames|].
  intros pa. apply keeps_bind; [apply keeps_on_cpu|]. intros _.
  apply keeps_bind; [apply keeps_on_cpu|]. intros _. apply keeps_get. intros k2.
  apply keeps_bind; [apply keeps_on_cpu|]. intros _. apply keeps_bind; [apply keeps_on_cpu|].
  intros _. apply keeps_bind; [|intros _; by apply keeps_same].
  intros k3 Hk3 i vm. unfold modify. cbn [snd].
  destruct (k_registry k3 !! slot); [apply Hk3|]. cbn [k_registry set_registry].
  rewrite lookup_insert_Some. intros [[_ <-]|[_ Hi]]; [done|by apply (Hk3 i)].
Qed.

(** The slot a creation answers is in the table. *)
Lemma create_slot req k id k' : create_vm req k = (Ok id, k') → (id < MAX_VMS)%N.
Proof.
  unfold create_vm. intros (k0&k1&_&Hr)%st_bind_Ok. apply st_bind_Ok in Hr as (u&k2&_&Hr).
  unfold create_vm_with in Hr. apply st_bind_Ok in Hr as (slot&k3&Hs&Hr).
  assert (slot < MAX_VMS)%N as Hlt.
  { pose proof (reserve_slot_spec k2) as Hres. rewrite Hs in Hres. by destruct Hres as (?&_&_&?&_). }
  clear Hs. do 10 (apply st_bind_Ok in Hr as (?&?&_&Hr)). by injection Hr as ->.
Qed.

(** ** The side tables *)
Definition bridge_ok s : Prop :=
  length (br_labels s) = ROWS_MAX ∧ length (br_extras s) = ROWS_MAX ∧
  Forall (λ x, buf_ok LABEL_MAX x ∧ no_newline (as_slice x)) (br_labels s) ∧
  Forall (λ e, buf_ok IMAGE_PATH_MAX (ex_image_path e) ∧ no_newline (as_slice (ex_image_path e)) ∧
    from_option (fits 32) True (ex_cpu_count e) ∧ from_option (fits 64) True (ex_memory_mib e) ∧
    from_option (fits 32) True (ex_boot_blob_crc32c e)) (br_extras s) ∧
  exits_ok (br_kernel s) ∧ staged_ok (br_staged s).

Lemma list_entry_ok k i e :
  exits_ok k → list_entry k i = Some e → ls_id e = i ∧ from_option (fits 32) True (ls_last_exit e).
Proof.
  intros Hk. unfold list_entry. destruct (negb _); [done|]. intros (vm&Hvm&[= <-])%bind_Some.
  split; [done|]. cbn. unfold last_exit_reason. specialize (Hk i vm Hvm). by destruct (_ =? _)%N.
Qed.
Lemma build_rows_ok s : bridge_ok s → reply_ok (PListed (build_rows s)) ∧ reply_line (PListed (build_rows s)).
Proof.
  intros (_&_&Hl&He&Hk&_).
  assert (∀ i row, build_row s i = Some row → fits 32 i → row_ok row ∧ row_line row) as Hrow.
  { intros i row. unfold build_row. intros (e&Hent&Hr)%bind_Some. apply bind_Some in Hr as (l&Hlab&Hr).
    apply bind_Some in Hr as (x&Hx&[= <-]). intros Hi.
    destruct (list_entry_ok _ _ _ Hk Hent) as [-> Hexit].
    rewrite Forall_lookup in Hl. destruct (Hl _ _ Hlab) as [? ?].
    rewrite Forall_lookup in He. destruct (He _ _ Hx) as (?&?&?&?&?). done. }
  assert (Forall (λ row, row_ok row ∧ row_line row) (omap id (build_rows s))) as Hall.
  { apply Forall_forall. intros row (o&Ho&Eo)%list_elem_of_omap. unfold build_rows in Ho.
    apply list_elem_of_fmap in Ho as (i&->&Hi). eapply Hrow; [exact Eo|].
    unfold slots in Hi. unfold fits. change (2 ^ 32)%N with 4294967296%N. set_unfold in Hi.
    destruct_or! Hi; lia. }
  split.
  - split; [done|]. eapply Forall_impl; [exact Hall|]. by intros row [? _].
  - eapply Forall_impl; [exact Hall|]. by intros row [_ ?].
Qed.

Lemma bridge_ok_kernel s k : bridge_ok s → exits_ok k → bridge_ok (set_kernel k s).
Proof. intros (?&?&?&?&_&?) Hk. done. Qed.
Lemma text_no_newline frame t : text_of frame t → x0a ∉ frame → no_newline t.
Proof. unfold text_of, no_newline. rewrite Forall_forall. intros Ht Hf Hin. by apply Hf, Ht. Qed.

Lemma remember_label_ok s id label frame :
  bridge_ok s → (id < MAX_VMS)%N → text_of frame label → x0a ∉ frame → (blen label ≤ LABEL_MAX)%N →
  ∃ s', remember_label id label s = (Ok tt, s') ∧ bridge_ok s' ∧ br_kernel s' = br_kernel s.
Proof.
  intros (Hl1&Hl2&Hl&He&Hk&Hg) Hid Ht Hf Hlen.
  unfold remember_label, bail_if, try, modify, mbind, st_bind, mret, st_ret.
  change (N.of_nat ROWS_MAX) with MAX_VMS. destruct (N.leb_spec MAX_VMS id); [lia|].
  destruct (buf_from_slice LABEL_MAX label) as [x|] eqn:E; cbn [ok_or].
  - eexists. split; [done|]. split; [|done]. destruct (from_slice_ok _ _ _ E) as [Hx Es].
    split; [by cbn; rewrite length_insert|]. split; [done|]. split; [|done]. cbn; apply Forall_insert; [done|].
    split; [done|]. rewrite Es. by eapply text_no_newline.
  - unfold buf_from_slice in E. destruct (N.ltb_spec LABEL_MAX (blen label)); [lia|done].
Qed.
Lemma remember_extras_ok s id path cpus mem crc frame :
  bridge_ok s → (id < MAX_VMS)%N → x0a ∉ frame →
  from_option (λ p, text_of frame p ∧ (blen p ≤ IMAGE_PATH_MAX)%N) True path →
  from_option (fits 32) True cpus → from_option (fits 64) True mem → from_option (fits 32) True crc →
  ∃ s', remember_extras id path cpus mem crc s = (Ok tt, s') ∧ bridge_ok s' ∧ br_kernel s' = br_kernel s.
Proof.
  intros (Hl1&Hl2&Hl&He&Hk&Hg) Hid Hf Hpath Hc Hm Hcr.
  unfold remember_extras, bail_if, try, modify, mbind, st_bind, mret, st_ret.
  change (N.of_nat ROWS_MAX) with MAX_VMS. destruct (N.leb_spec MAX_VMS id); [lia|].
  assert (∃ x, match path with
     | Some p => ok_or (buf_from_slice IMAGE_PATH_MAX p) (Invalid "bridge: image_path > 128 chars")
     | None => Ok (buf_empty IMAGE_PATH_MAX) end = Ok x ∧ buf_ok IMAGE_PATH_MAX x ∧ no_newline (as_slice x))
    as (x&->&Hx).
  { destruct path as [p|].
    - destruct Hpath as [Ht Hlen]. unfold buf_from_slice. destruct (N.ltb_spec IMAGE_PATH_MAX (blen p)); [lia|].
      eexists. split; [done|]. destruct (buf_copy_ok IMAGE_PATH_MAX p Hlen) as [? ->]. split; [done|].
      by eapply text_no_newline.
    - eexists. split; [done|]. destruct (empty_ok IMAGE_PATH_MAX) as [? ->]. split; [done|].
      by apply no_newline_dec. }
  eexists. split; [done|]. split; [|done]. split; [done|]. split; [by cbn; rewrite length_insert|].
  split; [done|]. split; [|done]. cbn; apply Forall_insert; [done|]. destruct Hx. done.
Qed.
Lemma forget_ok s id : bridge_ok s →
  bridge_ok (forget_extras id (forget_label id s)) ∧
  br_kernel (forget_extras id (forget_label id s)) = br_kernel s.
Proof.
  intros (Hl1&Hl2&Hl&He&Hk&Hg). unfold forget_extras, forget_label.
  destruct (_ <? _)%N; [|done]. split; [|done].
  split; [by cbn; rewrite length_insert|]. split; [by cbn; rewrite length_insert|]. split; [|split; [|done]].
  - cbn; apply Forall_insert; [done|]. destruct (empty_ok LABEL_MAX) as [? ->]. split; [done|].
    by apply no_newline_dec.
  - cbn; apply Forall_insert; [done|]. cbn. destruct (empty_ok IMAGE_PATH_MAX) as [? ->]. split; [done|].
    split; [by apply no_newline_dec|done].
Qed.

Definition good_reply (r : HyperResult Reply) : Prop :=
  match r with Ok reply => reply_ok reply ∧ reply_line reply | Err _ => True end.

Lemma reply_state_ok s id : bridge_ok s → fits 32 id →
  (reply_state id s).2 = s ∧ good_reply (reply_state id s).1.
Proof.
  intros (_&_&_&_&Hk&_) Hid. unfold reply_state, get_st, try, mbind, st_bind, get_vm_state, vm_last_exit.
  destruct (lookup id (br_kernel s)) as [vm|e] eqn:E; cbn; [|done].
  apply lookup_found in E as [_ Hvm]. split; [done|]. split; [|done]. split; [done|].
  unfold last_exit_reason. specialize (Hk id vm Hvm). by destruct (_ =? _)%N.
Qed.

(** A request does one of the manager's calls, or none. *)
Lemma dispatch_ok frame req s :
  bridge_ok s → in_limits frame req → x0a ∉ frame →
  let '(r, s') := dispatch req s in
  bridge_ok s' ∧ good_reply r ∧ ∃ cs, br_kernel s' = run_calls cs (br_kernel s) ∧ length cs ≤ 1.
Proof.
  intros Hs Hreq Hf. pose proof Hs as (_&_&_&_&Hk&Hstaged).
  destruct req as [label path cpus mem crc|id|id|id| |len crc hex]; cbn [dispatch in_limits] in *.
  - destruct Hreq as (Ht&Hlen&Hpath&?&?&?). unfold bail_if, get_st, mbind, st_bind.
    destruct (N.ltb_spec LABEL_MAX (blen label)); [lia|].
    destruct (N.ltb_spec IMAGE_PATH_MAX (from_option blen 0%N path)) as [Hc|_].
    { destruct path as [p|]; [simpl in *; lia|]. simpl in Hc. lia. }
    cbn [mret st_ret]. unfold mret, st_ret, on_kernel, zoom.
    set (creq := from_boot_image _). pose proof (keeps_create_vm creq (br_kernel s) Hk) as Hk'.
    destruct (create_vm creq (br_kernel s)) as [[id|e] k'] eqn:Ec; cbn [snd] in Hk'.
    + pose proof (create_slot _ _ _ _ Ec) as Hid.
      pose proof (bridge_ok_kernel s k' Hs Hk') as Hs1.
      destruct (remember_label_ok _ id label frame Hs1 Hid Ht Hf Hlen) as (s2&->&Hs2&Ek2).
      destruct (remember_extras_ok s2 id path cpus mem crc frame) as (s3&->&Hs3&Ek3); [done..|].
      split; [done|]. split.
      * split; [|done]. cbn [reply_ok]. unfold fits, MAX_VMS in *. change (2 ^ 32)%N with 4294967296%N. lia.
      * exists [CCreate creq]. rewrite Ek3, Ek2. cbn. by rewrite Ec.
    + split; [by apply bridge_ok_kernel|]. split; [done|]. exists [CCreate creq]. cbn. by rewrite Ec.
  - unfold mbind, st_bind, on_kernel, zoom. pose proof (keeps_start id (br_kernel s) Hk) as Hk'.
    destruct (start_vm id (br_kernel s)) as [[[]|e] k'] eqn:Ec; cbn [snd] in Hk';
      pose proof (bridge_ok_kernel s k' Hs Hk') as Hs1.
    + destruct (reply_state_ok (set_kernel k' s) id Hs1 Hreq) as [E2 Hr].
      destruct (reply_state id (set_kernel k' s)) as [r s2]. simpl in E2, Hr. subst s2.
      split; [done|]. split; [done|]. exists [CStart id]. cbn. rewrite Ec. split; [done|lia].
    + split; [done|]. split; [done|]. exists [CStart id]. cbn. rewrite Ec. split; [done|lia].
  - unfold mbind, st_bind, on_kernel, zoom. pose proof (keeps_stop id (br_kernel s) Hk) as Hk'.
    destruct (stop_vm id (br_kernel s)) as [[[]|e] k'] eqn:Ec; cbn [snd] in Hk';
      pose proof (bridge_ok_kernel s k' Hs Hk') as Hs1.
    + destruct (reply_state_ok (set_kernel k' s) id Hs1 Hreq) as [E2 Hr].
      destruct (reply_state id (set_kernel k' s)) as [r s2]. simpl in E2, Hr. subst s2.
      split; [done|]. split; [done|]. exists [CStop id]. cbn. rewrite Ec. split; [done|lia].
    + split; [done|]. split; [done|]. exists [CStop id]. cbn. rewrite Ec. split; [done|lia].
  - unfold mbind, st_bind, on_kernel, zoom, modify. pose proof (keeps_delete_vm id (br_kernel s) Hk) as Hk'.
    destruct (delete_vm id (br_kernel s)) as [[[]|e] k'] eqn:Ec; cbn [snd] in Hk';
      pose proof (bridge_ok_kernel s k' Hs Hk') as Hs1.
    + destruct (forget_ok (set_kernel k' s) id Hs1) as [Hs2 Ek]. cbn [mret st_ret]. unfold mret, st_ret.
      split; [done|]. split; [done|]. exists [CDelete id]. rewrite Ek. cbn. rewrite Ec. split; [done|lia].
    + split; [done|]. split; [done|]. exists [CDelete id]. cbn. rewrite Ec. split; [done|lia].
  - split; [done|]. split; [by apply build_rows_ok|]. exists []. split; [done|cbn; lia].
  - destruct Hreq as (Hlen&Hcrc&_&_). unfold mbind, st_bind, on_staged, zoom.
    pose proof (stage_spec hex len crc (br_staged s) Hstaged Hlen) as Hst.
    destruct (stage_from_hex hex len crc (br_staged s)) as [[[]|e] g]; destruct Hst as [Hg _].
    + destruct Hs as (?&?&?&?&?&_). split; [done|]. split; [done|]. exists []. split; [done|cbn; lia].
    + destruct Hs as (?&?&?&?&?&_). split; [done|]. split; [done|]. exists []. split; [done|cbn; lia].
Qed.

(** ** Lines *)
Lemma read_line_ok cap out o input frame rest :
  x0a ∉ out → (blen out ≤ cap)%N → read_line cap out o input = Some (Ok frame, rest) →
  x0a ∉ frame ∧ (blen frame ≤ cap)%N.
Proof.
  revert out o. induction input as [|c input IH]; intros out o Hn Hl; [done|]. cbn [read_line].
  case_decide as E; [destruct o; [done|]; by intros [= <- <-]|].
  case_decide; [by apply IH|]. destruct (N.ltb_spec (blen out) cap) as [Hlt|]; [|by apply IH].
  apply IH.
  - rewrite not_elem_of_app, list_elem_of_singleton. split; [done|congruence].
  - rewrite blen_app. change (blen [c]) with 1%N. lia.
Qed.
Lemma read_line_rest cap out o input r rest :
  read_line cap out o input = Some (r, rest) → length rest < length input.
Proof.
  revert out o. induction input as [|c input IH]; intros out o; [done|]. cbn [read_line length].
  case_decide; [intros [= _ <-]; lia|]. case_decide; [intros ?%IH; lia|].
  destruct (_ <? _)%N; intros ?%IH; lia.
Qed.

(** One turn of the dialogue.  A blank frame is passed over.  Any other gets
    the text of one reply and a newline: the one [dispatch] gives to the
    request read from the frame, or the error of a frame that holds none. *)
Definition reply_of (r : HyperResult Reply) : Reply :=
  match r with Ok reply => reply | Err e => error_reply e end.
Definition answers (s : Bridge C P) (frame out : bytes) (s' : Bridge C P) : Prop :=
  if is_blank frame then out = [] ∧ s' = s
  else ∃ reply, out = reply_text reply ++ [x0a] ∧ x0a ∉ reply_text reply ∧ (blen out ≤ TX_CAP)%N ∧
         match decode_request frame with
         | Ok req => reply = reply_of (dispatch req s).1 ∧ s' = (dispatch req s).2
         | Err (Fail e) => reply = error_reply e ∧ s' = s
         | Err Stuck => False
         end.
Inductive dialogue : Bridge C P → list bytes → list bytes → Bridge C P → Prop :=
| dialogue_nil s : dialogue s [] [] s
| dialogue_cons s1 frame out s2 frames outs s3 :
    answers s1 frame out s2 → dialogue s2 frames outs s3 →
    dialogue s1 (frame :: frames) (out :: outs) s3.

Lemma send_answer r : reply_ok r → reply_line r →
  send r = reply_text r ++ [x0a] ∧ x0a ∉ reply_text r ∧ (blen (send r) ≤ TX_CAP)%N.
Proof.
  intros Hr Hl. rewrite send_text by done. split; [done|]. split; [by apply reply_no_newline|].
  pose proof (reply_length r Hr). unfold TX_CAP. lia.
Qed.
Lemma serve_frame_ok frame s :
  bridge_ok s → x0a ∉ frame →
  let '(out, s') := serve_frame frame s in
  bridge_ok s' ∧ answers s frame out s' ∧ ∃ cs, br_kernel s' = run_calls cs (br_kernel s) ∧ length cs ≤ 1.
Proof.
  intros Hs Hf. unfold serve_frame, answers. destruct (is_blank frame).
  { split; [done|]. split; [done|]. exists []. split; [done|cbn; lia]. }
  pose proof (decode_not_stuck frame) as Hns.
  destruct (decode_request frame) as [req|[e|]] eqn:Ed; [| |done].
  - pose proof (dispatch_ok frame req s Hs (decode_limits _ _ Ed) Hf) as Hd.
    destruct (dispatch req s) as [r s']. destruct Hd as (Hs'&Hr&Hcs). split; [done|]. split; [|done].
    assert (reply_ok (reply_of r) ∧ reply_line (reply_of r)) as [Ho Hl]
      by (destruct r as [reply|e]; [exact Hr|apply error_reply_ok]).
    change (match r with Ok reply => reply | Err e => error_reply e end) with (reply_of r).
    destruct (send_answer _ Ho Hl) as (?&?&?). by exists (reply_of r).
  - split; [done|]. destruct (error_reply_ok e) as [Ho Hl]. destruct (send_answer _ Ho Hl) as (?&?&?).
    split; [by exists (error_reply e)|]. exists []. split; [done|cbn; lia].
Qed.

(** The frames of the input: its complete lines, without the overlong ones. *)
Fixpoint frames (fuel : nat) (input : bytes) : list bytes :=
  match fuel with
  | O => []
  | S fuel' =>
      match read_line MAX_FRAME_BYTES [] false input with
      | None => []
      | Some (Err _, rest) => frames fuel' rest
      | Some (Ok frame, rest) => frame :: frames fuel' rest
      end
  end.

Lemma read_line_None cap out o input : read_line cap out o input = None ↔ x0a ∉ input.
Proof.
  revert out o. induction input as [|c input IH]; intros out o; cbn [read_line].
  - split; [intros _; by intros ?%elem_of_nil|done].
  - rewrite not_elem_of_cons. case_decide as E; [split; [done|naive_solver]|].
    assert (x0a ≠ c ∧ x0a ∉ input ↔ x0a ∉ input) as -> by naive_solver.
    case_decide; [apply IH|]. destruct (_ <? _)%N; apply IH.
Qed.

Lemma run_calls_app cs cs' k : run_calls (cs ++ cs') k = run_calls cs' (run_calls cs k).
Proof. unfold run_calls. by rewrite fold_left_app. Qed.

Lemma run_answers fuel input s :
  length input < fuel → bridge_ok s →
  let '(outs, unread, s') := run fuel input s in
  x0a ∉ unread ∧ dialogue s (frames fuel input) outs s' ∧ bridge_ok s' ∧
  ∃ cs, br_kernel s' = run_calls cs (br_kernel s) ∧ length cs ≤ length outs.
Proof.
  revert input s. induction fuel as [|fuel IH]; intros input s Hf Hs; [lia|].
  cbn [run frames]. destruct (read_line _ _ _ input) as [[[frame|e] rest]|] eqn:Er.
  - pose proof (read_line_rest _ _ _ _ _ _ Er) as Hrest.
    apply read_line_ok in Er as [Hn _]; [|by intros ?%elem_of_nil|done].
    pose proof (serve_frame_ok frame s Hs Hn) as Hsv.
    destruct (serve_frame frame s) as [out s1]. destruct Hsv as (Hs1&Ha&cs1&Ek1&Hc1).
    specialize (IH rest s1 ltac:(lia) Hs1). destruct (run fuel rest s1) as [[outs unread] s2].
    destruct IH as (Hun&Hall&Hs2&cs2&Ek2&Hc2). split; [exact Hun|]. split; [by econstructor|]. split; [done|].
    exists (cs1 ++ cs2). rewrite run_calls_app, <-Ek1, length_app. split; [done|]. cbn [length]. lia.
  - pose proof (read_line_rest _ _ _ _ _ _ Er) as Hrest. apply IH; [lia|done].
  - apply read_line_None in Er. split; [done|]. split; [constructor|]. split; [done|]. by exists [].
Qed.

Lemma calls_room_bound cs : calls_room cs ≤ 6 * length cs.
Proof. induction cs as [|c cs IH]; [done|]. cbn [calls_room length]. destruct c; cbn; lia. Qed.

End bridge.

Section laws.
Context {C P : Type} `{CpuLaws C P}.

(** C8: the bridge answers every frame.  Whatever bytes are received, and from
    any state its tables can be in, the loop gets through them: what is left
    over holds no complete line, and every complete line within the receive
    buffer has its turn, in order.  A blank one is passed over; any other is
    answered by exactly one line of at most TX_CAP bytes, the text of the reply
    that the dispatcher gives to the request read from it in the state the
    turns before have left, or of the error when it holds no request.  The
    tables stay well-formed, the kernel has been through a sequence of the
    manager's calls, at most one per frame, and so the manager's invariant is
    kept as long as six allocations per answer do not wrap the pool's counter.  Assumed: a
    guest that [start] runs comes back to the kernel by a VM exit. *)
Theorem bridge_answers_every_frame input s :
  bridge_ok s →
  let '(outs, unread, s') := run (S (length input)) input s in
  x0a ∉ unread ∧ dialogue s (frames (S (length input)) input) outs s' ∧ bridge_ok s' ∧
  (∃ cs, br_kernel s' = run_calls cs (br_kernel s) ∧ length cs ≤ length outs) ∧
  (kinv (br_kernel s) → fp_room (6 * length outs) (k_frames (br_kernel s)) → kinv (br_kernel s')).
Proof.
  intros Hs. pose proof (run_answers (S (length input)) input s ltac:(lia) Hs) as Hr.
  destruct (run _ input s) as [[outs unread] s']. destruct Hr as (?&?&?&cs&Ek&Hc).
  split; [done|]. split; [done|]. split; [done|]. split; [by exists cs|].
  intros [fr Hk] Hroom. rewrite Ek. pose proof (calls_room_bound cs).
  destruct (run_calls_spec cs fr (br_kernel s) 0 Hk) as (fr'&Hk'&_); [|by exists fr'].
  eapply law_room; [|exact Hroom]. lia.
Qed.
End laws.

(** ** A session *)
Definition sim_bridge : Bridge Sim.t KernelFrames.t :=
  mkBridge (run_call CInit sim_kernel) (replicate 4 (buf_empty LABEL_MAX)) (replicate 4 extras_empty) staged_empty.

Lemma sim_bridge_ok : bridge_ok sim_bridge.
Proof.
  split; [done|]. split; [done|]. split; [|split; [|split]].
  - apply Forall_replicate. destruct (empty_ok LABEL_MAX) as [? ->]. split; [done|by apply no_newline_dec].
  - apply Forall_replicate. cbn. destruct (empty_ok IMAGE_PATH_MAX) as [? ->].
    split; [done|]. split; [by apply no_newline_dec|done].
  - intros i vm Hi. vm_compute in Hi. done.
  - split; [done|]. done.
Qed.

(** Two requests, garbage, a blank line and the start of another line. *)
Definition sim_input : bytes :=
  q "{'op':'create','label':'web'}" ++ [x0a] ++ q "{'op':'start','vm_id':0}" ++ [x0d; x0a] ++
  b "hello" ++ [x0a; x20; x0a] ++ q "{'op':'list'".

Lemma bridge_answers_every_frame_witness :
  let '(outs, unread, s') := run (S (length sim_input)) sim_input sim_bridge in
  outs = [q "{'reply':'created','vm_id':0}" ++ [x0a];
          q "{'reply':'state','vm_id':0,'state':'halted','last_exit':12}" ++ [x0a];
          q "{'reply':'error','message':'wire: unexpected byte'}" ++ [x0a]; []] ∧
  unread = q "{'op':'list'" ∧ bridge_ok s'.
Proof.
  pose proof (bridge_answers_every_frame sim_input sim_bridge sim_bridge_ok) as Hr.
  assert ((run (S (length sim_input)) sim_input sim_bridge).1 =
    ([q "{'reply':'created','vm_id':0}" ++ [x0a];
      q "{'reply':'state','vm_id':0,'state':'halted','last_exit':12}" ++ [x0a];
      q "{'reply':'error','message':'wire: unexpected byte'}" ++ [x0a]; []], q "{'op':'list'")) as E
    by (vm_compute; reflexivity).
  destruct (run _ sim_input sim_bridge) as [[outs unread] s']. cbn [fst] in E. injection E as -> ->.
  destruct Hr as (_&_&Hs&_). split; [reflexivity|]. split; [reflexivity|exact Hs].
Defined.
