(* ===== verification/Smp.v ===== *)
(** * Smp: processors and their local interrupt controller

    crates/celhyper/src/handoff.rs, lapic.rs and smp.rs: the facts the boot
    loader hands over, the local APIC behind its registers, the per-processor
    records and the interrupts between processors.  The APIC is a device: the
    class [Apic] gives the effect of reading and writing a register and of the
    two MSR instructions. *)
From S2P Require Import Prelude.
From S2P Require Import HyperErr.
From S2P Require Import Crc.
From S2P Require Import Ept.
From S2P Require Import Vault.
From Stdlib Require Import Strings.Byte.

(** ** handoff.rs *)
Definition MAGIC : N := le_word [x43; x45; x4c; x49; x55; x4d; x00; x00].
Definition VERSION : N := 3.

Record CpuFacts := mkCpuFacts { cf_vendor : bytes; cf_vmx : bool; cf_svm : bool; cf_x2apic : bool; cf_gib_pages : bool }.
Record CeliumHandoff := mkCeliumHandoff {
  ho_magic : N; ho_version : N; ho_cpu : CpuFacts;
  ho_acpi_rsdp_phys : N; ho_kernel_image_phys : N; ho_kernel_image_len : N;
  ho_boot_image_phys : N; ho_boot_image_len : N; ho_boot_image_crc32c : N;
  ho_cpu_count : N; ho_bsp_apic_id : N; ho_ap_apic_ids_phys : N;
  ho_fb_phys : N; ho_fb_width : N; ho_fb_height : N; ho_fb_pitch : N; ho_fb_format : N
}.
(** [align_of::<CeliumHandoff>()]: the record holds u64s. *)
Definition HANDOFF_ALIGN : N := 8.

(** [from_raw] at an address where memory holds [h]. *)
Definition from_raw (ptr : N) (h : CeliumHandoff) : HyperResult CeliumHandoff :=
  if (ptr =? 0)%N then Err (InvalidHandoff "null pointer")
  else if negb (ptr mod HANDOFF_ALIGN =? 0)%N then Err (InvalidHandoff "misaligned")
  else if negb (ho_magic h =? MAGIC)%N then Err (InvalidHandoff "bad magic")
  else if negb (ho_version h =? VERSION)%N then Err (InvalidHandoff "version mismatch")
  else Ok h.

Inductive FbFormat := FbUnknown | FbBgra8 | FbRgba8.
Definition fb_from_raw (raw : N) : FbFormat :=
  if (raw =? 1)%N then FbBgra8 else if (raw =? 2)%N then FbRgba8 else FbUnknown.

(** ** lapic.rs *)
Definition IA32_APIC_BASE_MSR : N := 0x1B.
Definition LAPIC_DEFAULT_BASE : N := 0xFEE00000.
Definition APIC_BASE_ENABLE : N := N.shiftl 1 11.
Definition REG_ID : N := 0x020.
Definition REG_VERSION : N := 0x030.
Definition REG_EOI : N := 0x0B0.
Definition REG_SVR : N := 0x0F0.
Definition REG_ICR_LOW : N := 0x300.
Definition REG_ICR_HIGH : N := 0x310.
Definition SVR_SOFTWARE_ENABLE : N := N.shiftl 1 8.

Inductive DeliveryMode := DFixed | DLowestPriority | DSmi | DNmi | DInit | DStartUp.
Definition mode_code (m : DeliveryMode) : N :=
  match m with DFixed => 0 | DLowestPriority => 1 | DSmi => 2 | DNmi => 4 | DInit => 5 | DStartUp => 6 end.
Inductive DestShorthand := SNone | SSelfOnly | SAllIncludingSelf | SAllExcludingSelf.
Definition shorthand_code (s : DestShorthand) : N :=
  match s with SNone => 0 | SSelfOnly => 1 | SAllIncludingSelf => 2 | SAllExcludingSelf => 3 end.

Definition encode_icr_low (vector : N) (mode : DeliveryMode) (shorthand : DestShorthand)
    (assert_level trigger_level : bool) : N :=
  let v := vector in
  let v := N.lor v (N.shiftl (mode_code mode) 8) in
  let v := if assert_level then N.lor v (N.shiftl 1 14) else v in
  let v := if trigger_level then N.lor v (N.shiftl 1 15) else v in
  N.lor v (N.shiftl (shorthand_code shorthand) 18).

(** The device at a base address: reads may have effects (delivery makes
    progress). *)
Class Apic (A : Type) := {
  apic_rdmsr : A → N → N;
  apic_wrmsr : N → N → A → A;
  reg_read : N → A → N * A;
  reg_write : N → N → A → A
}.

(** ** smp.rs *)
Definition MAX_PCPUS : nat := 8.
(** A guest by its slot; zero is no guest in the code. *)
Record PcpuState := mkPcpuState { pc_apic_id : N; pc_vmxon_ready : N; pc_active_vm : option N }.
Definition pcpu_new : PcpuState := mkPcpuState 0 0 None.

Record Smp (A : Type) := mkSmp {
  sm_apic : A; sm_lapic_base : N; sm_pcpus : list PcpuState; sm_online : N; sm_ipis : N
}.
Arguments mkSmp {A}.
Arguments sm_apic {A}.
Arguments sm_lapic_base {A}.
Arguments sm_pcpus {A}.
Arguments sm_online {A}.
Arguments sm_ipis {A}.

Definition enter_guest (vm : N) : st PcpuState HyperError unit := λ p,
  match pc_active_vm p with
  | None => (Ok tt, mkPcpuState (pc_apic_id p) (pc_vmxon_ready p) (Some vm))
  | Some _ => (Err (Denied "smp: pcpu already has an active vm"), p)
  end.
Definition leave_guest (p : PcpuState) : option N * PcpuState :=
  (pc_active_vm p, mkPcpuState (pc_apic_id p) (pc_vmxon_ready p) None).
Definition current_vm (p : PcpuState) : option N := pc_active_vm p.

Record Topology := mkTopology { tp_cpu_count : N; tp_bsp_apic_id : N; tp_ap_apic_ids_phys : N }.
Definition from_handoff_topology (h : CeliumHandoff) : HyperResult Topology :=
  if (ho_cpu_count h =? 0)%N then Err (InvalidHandoff "smp: cpu_count == 0")
  else if (N.of_nat MAX_PCPUS <? ho_cpu_count h)%N then Err (Exhausted "smp: cpu_count exceeds MAX_PCPUS")
  else if (1 <? ho_cpu_count h)%N && (ho_ap_apic_ids_phys h =? 0)%N
       then Err (InvalidHandoff "smp: cpu_count > 1 but ap_apic_ids_phys == 0")
  else if (ho_cpu_count h =? 1)%N && negb (ho_ap_apic_ids_phys h =? 0)%N
       then Err (InvalidHandoff "smp: cpu_count == 1 but ap_apic_ids_phys is set")
  else Ok (mkTopology (ho_cpu_count h) (ho_bsp_apic_id h) (ho_ap_apic_ids_phys h)).

Inductive Ipi := Wakeup | Drain | Panic.
Definition ipi_vector (i : Ipi) : N := match i with Wakeup => 0x40 | Drain => 0x41 | Panic => 0 end.
Definition ipi_delivery_mode (i : Ipi) : DeliveryMode :=
  match i with Wakeup | Drain => DFixed | Panic => DNmi end.

Section smp.
Context {A : Type} `{Apic A}.
Abbreviation S := (Smp A).
Abbreviation M := (st S HyperError).

Definition set_apic (a : A) (s : S) : S := mkSmp a (sm_lapic_base s) (sm_pcpus s) (sm_online s) (sm_ipis s).
Definition read_reg (base off : N) : M N := λ s,
  let '(v, a) := reg_read (base + off)%N (sm_apic s) in (Ok v, set_apic a s).
Definition write_reg (base off v : N) : M unit := λ s,
  (Ok tt, set_apic (reg_write (base + off)%N v (sm_apic s)) s).

(** [Lapic::init]: the answer is the base. *)
Definition lapic_init : M N :=
  s ← get_st;
  _ ← bail_if (negb (sm_lapic_base s =? 0)%N) (Internal "lapic: already initialised");
  let raw := apic_rdmsr (sm_apic s) IA32_APIC_BASE_MSR in
  let base := N.land raw 0x000FFFFFFFFFF000 in
  let base := if (base =? 0)%N then LAPIC_DEFAULT_BASE else base in
  _ ← (if (N.land raw APIC_BASE_ENABLE =? 0)%N
       then modify (λ s, set_apic (apic_wrmsr IA32_APIC_BASE_MSR (N.lor raw APIC_BASE_ENABLE) (sm_apic s)) s)
       else mret tt);
  prev ← read_reg base REG_SVR;
  _ ← write_reg base REG_SVR (N.lor (N.lor prev SVR_SOFTWARE_ENABLE) 0xFF);
  _ ← modify (λ s, mkSmp (sm_apic s) base (sm_pcpus s) (sm_online s) (sm_ipis s));
  mret base.
Definition lapic_current (s : S) : HyperResult N :=
  if (sm_lapic_base s =? 0)%N then Err (Internal "lapic: not initialised") else Ok (sm_lapic_base s).

(** [wait_idle]: a million polls. *)
Definition WAIT_TURNS : nat := 1000 * 1000.
Fixpoint wait_idle (turns : nat) (base : N) : M unit :=
  match turns with
  | O => mthrow (Hardware "lapic: ICR delivery never settled")
  | Datatypes.S turns' =>
      v ← read_reg base REG_ICR_LOW;
      if (N.land v (N.shiftl 1 12) =? 0)%N then mret tt else wait_idle turns' base
  end.

Definition lapic_send_ipi (base dest_apic_id vector : N) (mode : DeliveryMode) (shorthand : DestShorthand) : M unit :=
  _ ← wait_idle WAIT_TURNS base;
  let low := encode_icr_low vector mode shorthand true false in
  _ ← write_reg base REG_ICR_HIGH (N.land (N.shiftl dest_apic_id 24) (umax 32));
  _ ← write_reg base REG_ICR_LOW low;
  wait_idle WAIT_TURNS base.
Definition init_sipi_sipi (base dest_apic_id trampoline_page : N) : M unit :=
  _ ← lapic_send_ipi base dest_apic_id 0 DInit SNone;
  _ ← lapic_send_ipi base dest_apic_id trampoline_page DStartUp SNone;
  lapic_send_ipi base dest_apic_id trampoline_page DStartUp SNone.

Definition mark_bsp_online (t : Topology) : M unit :=
  s ← get_st;
  _ ← bail_if (negb (sm_online s =? 0)%N) (Internal "smp: BSP already marked online");
  modify (λ s, mkSmp (sm_apic s) (sm_lapic_base s)
    (alter (λ p, mkPcpuState (tp_bsp_apic_id t) 1 (pc_active_vm p)) 0 (sm_pcpus s)) 1 (sm_ipis s)).
Definition online_count (s : S) : N := sm_online s.
Definition bring_up_aps (t : Topology) : HyperResult unit :=
  if (tp_cpu_count t <=? 1)%N then Ok tt
  else Err (Unimplemented "smp::bring_up_aps: trampoline + AP stacks pending (W26)").

Definition send_ipi (target_pcpu : N) (kind : Ipi) : M unit :=
  _ ← bail_if (N.of_nat MAX_PCPUS <=? target_pcpu)%N (Invalid "smp: target_pcpu >= MAX_PCPUS");
  s ← get_st;
  let entry := default pcpu_new (sm_pcpus s !! N.to_nat target_pcpu) in
  let apic_id := pc_apic_id entry in
  _ ← bail_if (pc_vmxon_ready entry =? 0)%N (Denied "smp: target pCPU not online");
  lapic ← try (lapic_current s);
  _ ← lapic_send_ipi lapic apic_id (ipi_vector kind) (ipi_delivery_mode kind) SNone;
  modify (λ s, mkSmp (sm_apic s) (sm_lapic_base s) (sm_pcpus s) (sm_online s) (wrapping_add 64 (sm_ipis s) 1)).
End smp.

(** The fields of the command register do not overlap: each can be read back
    from its bits. *)
Lemma icr_fields vector mode shorthand a t :
  fits 8 vector →
  let v := encode_icr_low vector mode shorthand a t in
  N.land v 0xFF = vector ∧ N.land (N.shiftr v 8) 7 = mode_code mode ∧
  N.testbit v 14 = a ∧ N.testbit v 15 = t ∧ N.testbit v 12 = false ∧
  N.land (N.shiftr v 18) 3 = shorthand_code shorthand ∧ fits 20 v.
Proof.
  intros Hv.
  assert (vector ∈ (N.of_nat <$> seq 0 256)) as Hin.
  { apply list_elem_of_fmap. exists (N.to_nat vector). split; [lia|].
    apply elem_of_seq. unfold fits in Hv. change (2 ^ 8)%N with 256%N in Hv. lia. }
  clear Hv. revert vector Hin. apply Forall_forall.
  destruct mode, shorthand, a, t; apply (bool_decide_unpack _); vm_compute; done.
Qed.
