(* ===== verification/Bringup.v ===== *)
(** * Bringup: the kernel's boot sequence

    crates/celhyper/src/bringup.rs over the VM manager and the processors'
    state.  [jmp::init] and [host_gdt::install] set up assembly that the
    processor's class stands for; logging is left out. *)
From S2P Require Import Prelude.
From S2P Require Import Vault.
From S2P Require Import HyperErr.
From S2P Require Import Ept.
From S2P Require Import Vm.
From S2P Require Import Vmx.
From S2P Require Import Manager.
From S2P Require Import ImageLoader.
From S2P Require Import Smp.

Record Boot (C P A : Type) := mkBoot { bo_kernel : Kernel C P; bo_smp : Smp A }.
Arguments mkBoot {C P A}.
Arguments bo_kernel {C P A}.
Arguments bo_smp {C P A}.

Definition root_cap : Capability :=
  mkCapability (OVm 0) (N.lor (N.lor (N.lor Rights.READ Rights.WRITE) Rights.INVOKE) Rights.GRANT).

Section drain.
Context {C P : Type} `{Cpu C P} `{FrameProvider P}.
Abbreviation K := (Kernel C P).

(** The loop of step 4; [None] is running out of fuel. *)
Fixpoint launch_all (fuel : nat) (ns : Capability) (launched : N) : st K HyperError (option N) :=
  match fuel with
  | O => mret None
  | S fuel' =>
      k ← get_st;
      let '(o, k) := next_runnable k in
      _ ← put_st k;
      match o with
      | None => mret (Some launched)
      | Some id =>
          _ ← ns_start_vm ns id;
          k ← get_st;
          _ ← try (ns_vm_state ns id k);
          launch_all fuel' ns (launched + 1)
      end
  end.
(** One turn per slot, and one to find nothing left. *)
Definition DRAIN_FUEL : nat := 5.

Definition is_faulted (e : option VmListEntry) : bool :=
  match e with Some e => bool_decide (ls_state e = Faulted) | None => false end.

(** Step 6: the answers of [stop_vm] are dropped. *)
Fixpoint stop_all (ns : Capability) (entries : list (option VmListEntry)) : st K HyperError unit :=
  match entries with
  | [] => mret tt
  | Some e :: es => _ ← dropped (ns_stop_vm ns (ls_id e)); stop_all ns es
  | None :: es => stop_all ns es
  end.

(** From the creation of the two VMs on. *)
Definition bring_up_guests (ns : Capability) (image : BootImage) : st K HyperError unit :=
  let create_req := from_boot_image image in
  id_a ← ns_create_vm ns create_req;
  _ ← ns_create_vm ns create_req;
  k ← get_st;
  _ ← try (ns_vm_count ns k);
  path_a ← try (default (Err (Internal "panic")) (ns_path_for ns id_a 32));
  resolved ← try (ns_resolve_path ns path_a k);
  _ ← bail_if (negb (resolved =? id_a)%N) (Internal "path round-trip mismatch");
  _ ← modify reset_runqueue_cursor;
  _ ← launch_all DRAIN_FUEL ns 0;
  k ← get_st;
  snapshot ← try (ns_list_vms ns k);
  let faulted_any := existsb is_faulted snapshot.1 in
  _ ← stop_all ns snapshot.1;
  if faulted_any then mthrow (Hardware "one or more guest VMs faulted") else mret tt.
End drain.

Section boot.
Context {C P A : Type} `{Cpu C P} `{FrameProvider P} `{Apic A}.
Abbreviation M := (st (Boot C P A) HyperError).

Definition on_kernel {X} (m : st (Kernel C P) HyperError X) : M X :=
  zoom bo_kernel (λ k s, mkBoot k (bo_smp s)) m.
Definition on_smp {X} (m : st (Smp A) HyperError X) : M X :=
  zoom bo_smp (λ p s, mkBoot (bo_kernel s) p) m.
(** Errors that are only logged. *)
Definition best_effort {X} (m : M X) : M unit := λ s, (Ok tt, (m s).2).

Definition bring_up (handoff : CeliumHandoff) : M unit :=
  let cpu := ho_cpu handoff in
  _ ← bail_if (negb (cf_vmx cpu || cf_svm cpu)) (UnsupportedCpu "no VMX and no SVM");
  _ ← bail_if (negb (cf_vmx cpu)) (Unimplemented "AMD-V bring-up (Week-8)");
  ns ← try (namespace_new root_cap);
  _ ← on_kernel init_runtime;
  _ ← best_effort (on_smp lapic_init);
  _ ← match from_handoff_topology handoff with
      | Ok topology => best_effort (on_smp (mark_bsp_online topology))
      | Err _ => mret tt
      end;
  s ← get_st;
  let image := from_handoff_or_embedded (k_frames (bo_kernel s))
                 (ho_boot_image_phys handoff) (ho_boot_image_len handoff) (ho_boot_image_crc32c handoff) in
  on_kernel (bring_up_guests ns image).
End boot.
