(* ===== verification/BringupProofs.v ===== *)
(** * BringupProofs: the boot sequence ends, and ends clean

    The launch loop of the boot sequence starts every created VM once and
    terminates; a successful boot leaves both guests in a clean terminal
    state. *)
From S2P Require Import Prelude.
From S2P Require Import Text.
From S2P Require Import Vault.
From S2P Require Import HyperErr.
From S2P Require Import Ept.
From S2P Require Import EptProofs.
From S2P Require Import Vm.
From S2P Require Import Vmx.
From S2P Require Import Manager.
From S2P Require Import ManagerProofs.
From S2P Require Import KernelRun.
From S2P Require Import ImageLoader.
From S2P Require Import Smp.
From S2P Require Import Bringup.
From Stdlib Require Import Strings.Byte.

Section proofs.
Context {C P : Type} `{CpuLaws C P}.
Implicit Types (k : Kernel C P).

Definition is_created k (i : N) : bool :=
  match k_registry k !! i with Some vm => bool_decide (vm_state vm = Created) | None => false end.
Definition created_count k : nat := length (List.filter (is_created k) slots).

Lemma next_from_spec offsets start k :
  match next_from offsets start k with
  | Some (i, next) => is_created k i = true ∧ (i < MAX_VMS)%N
  | None => ∀ o, o ∈ offsets → is_created k ((start + o) mod MAX_VMS) = false
  end.
Proof.
  induction offsets as [|o os IH]; cbn [next_from]; [by intros o ?%elem_of_nil|].
  assert (((start + o) mod MAX_VMS) < MAX_VMS)%N as Hlt by by apply N.mod_lt.
  destruct (k_registry k !! ((start + o) mod MAX_VMS)%N) as [vm|] eqn:E.
  - case_decide as Ec.
    + split; [|done]. unfold is_created. rewrite E. by apply bool_decide_eq_true_2.
    + destruct (next_from os start k) as [[i nx]|]; [done|]. intros o' [->|Hin]%elem_of_cons; [|by apply IH].
      unfold is_created. rewrite E. by apply bool_decide_eq_false_2.
  - destruct (next_from os start k) as [[i nx]|]; [done|]. intros o' [->|Hin]%elem_of_cons; [|by apply IH].
    unfold is_created. by rewrite E.
Qed.

Lemma next_runnable_spec k :
  let '(o, k') := next_runnable k in
  k' = set_cursor (k_cursor k') k ∧
  match o with
  | Some i => is_created k i = true ∧ (i < MAX_VMS)%N
  | None => ∀ i, (i < MAX_VMS)%N → is_created k i = false
  end.
Proof.
  unfold next_runnable. pose proof (next_from_spec slots (k_cursor k) k) as Hs.
  destruct (next_from slots (k_cursor k) k) as [[i nx]|]; (split; [by destruct k|]); [done|].
  intros i Hi. unfold MAX_VMS in *. pose proof (N.mod_lt (k_cursor k) 4 ltac:(done)) as Hc.
  specialize (Hs ((i + 4 - k_cursor k mod 4) mod 4)%N).
  assert (((k_cursor k + (i + 4 - k_cursor k mod 4) mod 4) mod 4)%N = i) as Eo.
  { rewrite N.Div0.add_mod_idemp_r, <-N.Div0.add_mod_idemp_l.
    replace (k_cursor k mod 4 + (i + 4 - k_cursor k mod 4))%N with (i + 1 * 4)%N by lia.
    rewrite N.Div0.mod_add. by apply N.mod_small. }
  rewrite Eo in Hs. apply Hs.
  assert (((i + 4 - k_cursor k mod 4) mod 4) < 4)%N as Hx by by apply N.mod_lt.
  revert Hx. generalize ((i + 4 - k_cursor k mod 4) mod 4)%N. clear. intros x Hx.
  unfold slots. rewrite !elem_of_cons. lia.
Qed.

(** A VM that leaves [Created] leaves the count. *)
Lemma created_drops k k' i :
  (i < MAX_VMS)%N → is_created k i = true → is_created k' i = false →
  (∀ j, j ≠ i → k_registry k' !! j = k_registry k !! j) → created_count k = S (created_count k').
Proof.
  intros Hi Hc Hc' Hoth.
  assert (∀ j, j ≠ i → is_created k' j = is_created k j) as Hj by (intros j Hj; unfold is_created; by rewrite Hoth).
  unfold created_count, slots, MAX_VMS in *.
  assert (i = 0 ∨ i = 1 ∨ i = 2 ∨ i = 3)%N as Hcases by lia.
  destruct_or! Hcases; subst i; cbn [List.filter]; rewrite Hc, Hc';
    repeat (rewrite Hj by done); by repeat (destruct (is_created k _)).
Qed.
Lemma created_none k : (∀ i, (i < MAX_VMS)%N → is_created k i = false) ↔ created_count k = 0.
Proof.
  unfold created_count, slots, MAX_VMS. cbn [List.filter]. split.
  - intros Hn. by rewrite !Hn by lia.
  - intros E i Hi. assert (i = 0 ∨ i = 1 ∨ i = 2 ∨ i = 3)%N as Hcases by lia.
    destruct (is_created k 0) eqn:E0; [done|]. destruct (is_created k 1) eqn:E1; [done|].
    destruct (is_created k 2) eqn:E2; [done|]. destruct (is_created k 3) eqn:E3; [done|].
    by destruct_or! Hcases; subst.
Qed.

Lemma kinv_cursor fr k n : kinv_at fr k → kinv_at fr (set_cursor n k).
Proof. by intros. Qed.

(** What the loop leaves: VMs further along, and none created if it answers. *)
Definition along k k' : Prop :=
  (∀ i, is_Some (k_registry k' !! i) ↔ is_Some (k_registry k !! i)) ∧
  (∀ i vm, k_registry k !! i = Some vm → ∃ vm', k_registry k' !! i = Some vm' ∧ later vm vm') ∧
  k_deleted k' = k_deleted k.
Lemma along_refl k : along k k.
Proof. split; [done|]. split; [|done]. intros i vm Hi. by exists vm. Qed.
Lemma along_trans k1 k2 k3 : along k1 k2 → along k2 k3 → along k1 k3.
Proof.
  intros (S1&L1&D1) (S2&L2&D2). split; [intros i; by rewrite S2|]. split; [|congruence].
  intros i vm Hi. destruct (L1 i vm Hi) as (vm1&Hi1&?). destruct (L2 i vm1 Hi1) as (vm2&?&?).
  exists vm2. split; [done|]. by etrans.
Qed.
Lemma along_moved fr i vm k k' : k_registry k !! i = Some vm → moved fr i k k' → along k k'.
Proof.
  intros Hi (_&_&_&_&Hd&_&_&Hoth&Hself). destruct (Hself vm Hi) as (vm'&Hi'&Hla). split; [|split; [|done]].
  - intros j. destruct (decide (j = i)) as [->|Hne]; [|by rewrite Hoth]. rewrite Hi, Hi'. by split; eauto.
  - intros j w Hj. destruct (decide (j = i)) as [->|Hne].
    + exists vm'. split; [done|]. congruence.
    + exists w. by rewrite Hoth.
Qed.

Lemma launch_all_spec fuel fr ns k m :
  kinv_at fr k → created_count k < fuel →
  let '(r, k') := launch_all fuel ns m k in
  kinv_at fr k' ∧ along k k' ∧
  match r with
  | Ok (Some n) => n = (m + N.of_nat (created_count k))%N ∧ created_count k' = 0
  | Ok None => False
  | Err _ => True
  end.
Proof.
  revert k m. induction fuel as [|fuel IH]; intros k m Hk Hf; [lia|]. cbn [launch_all].
  unfold mbind at 1, st_bind, get_st. pose proof (next_runnable_spec k) as Hn.
  destruct (next_runnable k) as [o k1]. destruct Hn as [-> Ho]. unfold put_st.
  assert (∀ c, created_count (set_cursor c k) = created_count k) as Ec by done.
  destruct o as [i|].
  2: { split; [done|]. split; [exact (along_refl k)|]. rewrite Ec. apply created_none in Ho. rewrite Ho. split; [lia|done]. }
  destruct Ho as [Hcr Hi]. set (k2 := set_cursor _ k) in *.
  assert (∃ vm, k_registry k2 !! i = Some vm ∧ vm_state vm = Created) as (vm&Hvm2&Est).
  { change (k_registry k2) with (k_registry k). unfold is_created in Hcr.
    destruct (k_registry k !! i) as [vm|]; [|done].
    exists vm. split; [done|]. by apply bool_decide_eq_true in Hcr. }
  assert (kinv_at fr k2) as Hk2 by done. assert (along k k2) as Ha2 by exact (along_refl k).
  assert (is_created k2 i = true) as Hcr2 by done.
  assert (created_count k2 = created_count k) as Ek2 by done. rewrite <-Ek2 in *. clearbody k2.
  assert (start_moved_ok : ∀ r k3, start_vm i k2 = (r, k3) →
    kinv_at fr k3 ∧ along k2 k3 ∧ (r = Ok tt → created_count k2 = S (created_count k3))).
  { intros r k3 Es. pose proof (start_moved fr i vm k2 Hk2 Hvm2) as Hs. rewrite Es in Hs.
    destruct Hs as (M&Hok&_). split; [apply M|]. split; [by eapply along_moved|]. intros ->.
    destruct (Hok eq_refl) as (_&vm'&Hvm'&Hne). destruct M as (_&_&_&_&_&_&_&Hoth&_).
    eapply (created_drops k2 k3 i); [done|done| |done]. unfold is_created. rewrite Hvm'.
    by apply bool_decide_eq_false_2. }
  unfold ns_start_vm, try, mbind, st_bind.
  destruct (check ns Rights.INVOKE) as [[]|e]; [|split; [done|split; [exact Ha2|done]]].
  destruct (start_vm i k2) as [[[]|e] k3] eqn:Es; destruct (start_moved_ok _ _ eq_refl) as (Hk3&Ha3&Hc3).
  2: { split; [done|]. split; [by eapply along_trans|done]. }
  specialize (Hc3 eq_refl).
  destruct (ns_vm_state ns i k3) as [stt|e]; [|split; [done|split; [by eapply along_trans|done]]].
  specialize (IH k3 (m + 1)%N Hk3 ltac:(lia)). destruct (launch_all fuel ns (m + 1) k3) as [r k4].
  destruct IH as (Hk4&Ha4&Hr). split; [done|]. split; [eapply along_trans; [exact Ha2|by eapply along_trans]|].
  destruct r as [[n|]|e]; [|done|done]. destruct Hr as [-> Hr]. split; [lia|done].
Qed.

(** The launch loop of the boot sequence ends, and starts every VM once.
    In any state the manager can be in, with any capability, the loop is over
    within one turn per slot and one more (the model never runs out of fuel);
    if no start was refused, it launched exactly as many guests as there were
    created VMs, and no VM is left created. *)
Theorem launch_loop_drains k0 cs ns :
  boot_state k0 → fp_room (calls_room cs) (k_frames k0) →
  let k := run_calls cs k0 in
  let '(r, k') := launch_all DRAIN_FUEL ns 0 k in
  r ≠ Ok None ∧
  ∀ n, r = Ok (Some n) → n = N.of_nat (created_count k) ∧ ∀ i, (i < MAX_VMS)%N → is_created k' i = false.
Proof.
  intros Hb Hroom k.
  assert (fp_room (calls_room cs + 0) (k_frames k0)) as Hroom' by (eapply law_room; [|exact Hroom]; lia).
  destruct (run_calls_spec cs (λ _, 0%N) k0 0 (boot_kinv k0 _ Hb) Hroom') as (fr&Hk&_&_). fold k in Hk.
  assert (created_count k < DRAIN_FUEL) as Hf.
  { unfold created_count, DRAIN_FUEL, slots. cbn [List.filter].
    destruct (is_created k 0), (is_created k 1), (is_created k 2), (is_created k 3); simpl; lia. }
  pose proof (launch_all_spec DRAIN_FUEL fr ns k 0 Hk Hf) as Hs.
  destruct (launch_all DRAIN_FUEL ns 0 k) as [r k']. destruct Hs as (_&_&Hr).
  destruct r as [[n|]|e]; [|done|done]. split; [done|]. intros ? [= <-]. destruct Hr as [-> Hr].
  split; [done|]. by apply created_none.
Qed.

(** ** The clean-up *)
Lemma stop_all_spec fr entries k :
  kinv_at fr k → (∀ e, Some e ∈ entries → is_Some (k_registry k !! ls_id e)) →
  let k' := (stop_all root_cap entries k).2 in
  (stop_all root_cap entries k).1 = Ok tt ∧ kinv_at fr k' ∧ along k k' ∧
  ∀ i vm, k_registry k !! i = Some vm → ∃ vm', k_registry k' !! i = Some vm' ∧
    (vm_state vm' = vm_state vm ∨ vm_state vm' = Stopped) ∧
    ((∃ e, Some e ∈ entries ∧ ls_id e = i) → is_terminal (vm_state vm') = true).
Proof.
  revert k. induction entries as [|[e|] entries IH]; intros k Hk He; cbn [stop_all].
  - split; [done|]. split; [done|]. split; [apply along_refl|]. intros i vm Hi. exists vm.
    split; [done|]. split; [by left|]. by intros (e&?%elem_of_nil&_).
  - unfold mbind, st_bind, dropped. destruct (He e) as [vm Hvm]; [set_solver|].
    assert (ns_stop_vm root_cap (ls_id e) k = stop_vm (ls_id e) k) as -> by done.
    pose proof (stop_moved fr (ls_id e) vm k Hk Hvm) as Hs.
    destruct (stop_vm (ls_id e) k) as [r k1]. destruct Hs as (M&_&_&vm1&Hvm1&Est). cbn [snd].
    assert (along k k1) as Ha by by eapply along_moved.
    destruct (IH k1) as (Hok&Hk'&Ha'&Hst); [apply M| |].
    { intros e' He'. apply Ha, He. set_solver. }
    split; [done|]. split; [done|]. split; [by eapply along_trans|].
    intros i w Hi. destruct (decide (i = ls_id e)) as [->|Hne].
    + destruct (Hst _ vm1 Hvm1) as (vm'&Hvm'&Hor&_). exists vm'. split; [done|].
      assert (vm = w) as -> by congruence.
      assert (is_terminal (vm_state vm1) = true) as Ht by (rewrite Est; by destruct (is_terminal (vm_state w)) eqn:?).
      split.
      * destruct Hor as [->| ->]; [|by right]. rewrite Est. destruct (is_terminal (vm_state w)); auto.
      * intros _. destruct Hor as [->| ->]; done.
    + destruct M as (_&_&_&_&_&_&_&Hoth&_). rewrite <-Hoth in Hi by done.
      destruct (Hst i w Hi) as (vm'&?&?&Hin). exists vm'. split; [done|]. split; [done|].
      intros (e'&Hin'&<-). apply Hin. exists e'. split; [|done].
      apply elem_of_cons in Hin' as [[= ->]|]; [done|done].
  - destruct (IH k Hk) as (?&?&?&Hst); [intros; apply He; set_solver|]. split; [done|]. split; [done|].
    split; [done|]. intros i vm Hi. destruct (Hst i vm Hi) as (vm'&?&?&Hin). exists vm'. split; [done|].
    split; [done|]. intros (e&Hin'&<-). apply Hin. exists e. split; [|done].
    by apply elem_of_cons in Hin' as [|].
Qed.

Lemma list_vms_in k e : Some e ∈ (list_vms k).1 → ∃ vm, k_registry k !! ls_id e = Some vm ∧ ls_state e = vm_state vm.
Proof.
  unfold list_vms. cbn [fst]. intros (i&Hl&_)%list_elem_of_fmap. unfold list_entry in Hl.
  destruct (negb _); [done|]. symmetry in Hl. apply bind_Some in Hl as (vm&Hvm&[= <-]). by exists vm.
Qed.
Lemma list_vms_all k i vm :
  k_deleted k = 0%N → (i < MAX_VMS)%N → k_registry k !! i = Some vm →
  ∃ e, Some e ∈ (list_vms k).1 ∧ ls_id e = i ∧ ls_state e = vm_state vm.
Proof.
  intros Hd Hi Hvm. exists (mkVmListEntry i (vm_state vm) (last_exit_reason vm)). split; [|done].
  unfold list_vms. cbn [fst]. apply list_elem_of_fmap. exists i. split.
  - unfold list_entry. rewrite Hd, N.land_0_l. cbn. by rewrite Hvm.
  - unfold slots, MAX_VMS in *. rewrite !elem_of_cons. lia.
Qed.

(** ** The whole sequence *)
Lemma get_Ok {S E} (s s' a : S) : get_st (E := E) s = (Ok a, s') → a = s ∧ s' = s.
Proof. by intros [= -> ->]. Qed.
Lemma try_Ok {S E X} (m : result E X) (a : X) (s s' : S) : try m s = (Ok a, s') → m = Ok a ∧ s' = s.
Proof. by intros [= -> ->]. Qed.
Lemma bail_Ok {S E} (c : bool) (e : E) (u : unit) (s s' : S) : bail_if c e s = (Ok u, s') → s' = s.
Proof. unfold bail_if. destruct c; [done|]. by intros [= _ ->]. Qed.

Lemma init_registry k : k_registry (init_runtime k).2 = k_registry k ∧ k_deleted (init_runtime k).2 = k_deleted k.
Proof.
  unfold init_runtime, get_st, modify, bail_if, try, on_frames, on_cpu, zoom, mbind, st_bind, mret, st_ret, mthrow, st_throw.
  destruct (k_ready k); [done|]. destruct (ensure_vmx_available _); [|done]. destruct (revision_id _); [|done].
  destruct (alloc_in_pool _ _) as [[pa|e] p]; [|done]. by destruct (enable _ _).
Qed.

Lemma create_in fr k req n id k' :
  kinv_at fr k → fp_room (6 + n) (k_frames k) → create_vm req k = (Ok id, k') →
  (∃ fr', kinv_at fr' k') ∧ fp_room n (k_frames k') ∧ k_deleted k' = k_deleted k ∧
  (id < MAX_VMS)%N ∧ k_registry k !! id = None ∧
  ∃ vm, k_registry k' = <[id := vm]> (k_registry k) ∧ vm_state vm = Created.
Proof.
  intros Hk Hroom E. pose proof (create_vm_spec req fr k n Hk Hroom) as Hc. rewrite E in Hc.
  destruct Hc as (Hn&(fr'&Hk'&_)&k2&vm&frame&Hq&Hcr&->).
  destruct Hcr as (Hid&Hnone&_&Hst&_). destruct Hq as (_&_&Er&Ed&_).
  split; [by exists fr'|]. split; [done|]. split; [exact Ed|]. split; [done|]. split; [done|].
  exists vm. simpl. by rewrite Er.
Qed.

(** What a clean boot leaves. *)
Definition clean k : Prop :=
  ∃ a b va vb, a ≠ b ∧ (a < MAX_VMS)%N ∧ (b < MAX_VMS)%N ∧ k_registry k = <[b := vb]> {[ a := va ]} ∧
    (vm_state va = Halted ∨ vm_state va = Stopped) ∧ (vm_state vb = Halted ∨ vm_state vb = Stopped).

Lemma along_pair k k' a b va vb :
  k_registry k = <[b := vb]> {[ a := va ]} → a ≠ b → along k k' →
  ∃ va' vb', k_registry k' = <[b := vb']> {[ a := va' ]} ∧ later va va' ∧ later vb vb'.
Proof.
  intros Er Hab (Hdom&Hl&_).
  destruct (Hl a va) as (va'&Ha&?); [rewrite Er, lookup_insert_ne by done; apply lookup_singleton_eq|].
  destruct (Hl b vb) as (vb'&Hb&?); [rewrite Er; apply lookup_insert_eq|].
  exists va', vb'. split; [|done]. apply map_eq. intros i.
  destruct (decide (i = b)) as [->|]; [by rewrite lookup_insert_eq|].
  rewrite lookup_insert_ne by done. destruct (decide (i = a)) as [->|]; [by rewrite lookup_singleton_eq|].
  rewrite lookup_singleton_ne by done. apply eq_None_not_Some. rewrite Hdom, Er.
  rewrite lookup_insert_ne, lookup_singleton_ne by done. by intros [].
Qed.

Lemma guests_clean fr k image n :
  kinv_at fr k → k_registry k = ∅ → k_deleted k = 0%N → fp_room (12 + n) (k_frames k) →
  let '(r, k') := bring_up_guests root_cap image k in r = Ok tt → clean k'.
Proof.
  intros Hk Hreg Hdel Hroom. destruct (bring_up_guests root_cap image k) as [r k'] eqn:E. intros ->.
  unfold bring_up_guests in E. apply st_bind_Ok in E as (a&k1&Ea&E).
  change (ns_create_vm root_cap (from_boot_image image) k) with (create_vm (from_boot_image image) k) in Ea.
  apply st_bind_Ok in E as (b&k2&Eb&E).
  change (ns_create_vm root_cap (from_boot_image image) k1) with (create_vm (from_boot_image image) k1) in Eb.
  destruct (create_in fr k _ (6 + n) _ _ Hk Hroom Ea) as ([fr1 Hk1]&Hroom1&Hd1&Ha&_&va&Hr1&Hsa).
  destruct (create_in fr1 k1 _ n _ _ Hk1 Hroom1 Eb) as ([fr2 Hk2]&_&Hd2&Hb&Hfree&vb&Hr2&Hsb).
  rewrite Hreg in Hr1. change (<[a := va]> ∅) with ({[ a := va ]} : gmap N Vm) in Hr1. rewrite Hr1 in Hr2, Hfree.
  assert (a ≠ b) as Hab by (intros ->; by rewrite lookup_singleton_eq in Hfree).
  apply st_bind_Ok in E as (kg&k2'&E'&E). apply get_Ok in E' as [-> ->].
  apply st_bind_Ok in E as (cnt&k2'&E'&E). apply try_Ok in E' as [_ ->].
  apply st_bind_Ok in E as (pth&k2'&E'&E). apply try_Ok in E' as [_ ->].
  apply st_bind_Ok in E as (res&k2'&E'&E). apply try_Ok in E' as [_ ->].
  apply st_bind_Ok in E as (u&k2'&E'&E). apply bail_Ok in E' as ->. clear cnt pth res u Ea Eb.
  apply st_bind_Ok in E as (u&k3&E'&E). assert (k3 = reset_runqueue_cursor k2) as -> by (by injection E').
  clear E'. set (k3 := reset_runqueue_cursor k2) in *. assert (kinv_at fr2 k3) as Hk3 by done.
  assert (k_registry k3 = <[b:=vb]> {[ a := va ]}) as Hr3 by done.
  assert (k_deleted k3 = 0%N) as Hd3 by (change (k_deleted k3) with (k_deleted k2); congruence). clearbody k3.
  apply st_bind_Ok in E as (o&k4&El&E).
  assert (created_count k3 < DRAIN_FUEL) as Hf.
  { unfold created_count, DRAIN_FUEL, slots. cbn [List.filter].
    destruct (is_created k3 0), (is_created k3 1), (is_created k3 2), (is_created k3 3); simpl; lia. }
  pose proof (launch_all_spec DRAIN_FUEL fr2 root_cap k3 0 Hk3 Hf) as Hl. rewrite El in Hl.
  destruct Hl as (Hk4&Ha4&_). clear El Hf.
  apply st_bind_Ok in E as (kg&k4'&E'&E). apply get_Ok in E' as [-> ->].
  apply st_bind_Ok in E as (snap&k4'&E'&E). apply try_Ok in E' as [Esnap ->].
  assert (snap = list_vms k4) as -> by by injection Esnap as <-. clear Esnap.
  apply st_bind_Ok in E as (w5&k5&Es&E).
  destruct (along_pair _ _ _ _ _ _ Hr3 Hab Ha4) as (va4&vb4&Hr4&_&_).
  assert (k_deleted k4 = 0%N) as Hd4 by (destruct Ha4 as (_&_&->); exact Hd3).
  destruct (stop_all_spec fr2 (list_vms k4).1 k4 Hk4) as (_&_&Ha5&Hst).
  { intros e (vm&Hvm&_)%list_vms_in. by exists vm. }
  rewrite Es in Ha5, Hst. cbn [snd] in Ha5, Hst.
  destruct (existsb is_faulted (list_vms k4).1) eqn:Ef; [done|]. assert (k' = k5) as -> by by injection E.
  destruct (along_pair _ _ _ _ _ _ Hr4 Hab Ha5) as (va5&vb5&Hr5&_&_).
  exists a, b, va5, vb5. do 4 (split; [done|]).
  assert (∀ i vm vm', (i < MAX_VMS)%N → k_registry k4 !! i = Some vm → k_registry k5 !! i = Some vm' →
    vm_state vm' = Halted ∨ vm_state vm' = Stopped) as Hend.
  { intros i vm vm' Hi Hvm Hvm'. destruct (Hst i vm Hvm) as (w&Hw&Hor&Hterm).
    assert (w = vm') as -> by congruence. destruct (list_vms_all k4 i vm Hd4 Hi Hvm) as (e&He&Hid&Hls).
    destruct Hor as [Eq|Eq]; [|by right]. specialize (Hterm (ex_intro _ e (conj He Hid))).
    assert (vm_state vm' ≠ Faulted) as Hnf.
    { rewrite Eq, <-Hls. intros Hfl. assert (existsb is_faulted (list_vms k4).1 = true) as Ht; [|by rewrite Ht in Ef].
      apply existsb_exists. exists (Some e). split; [by apply list_elem_of_In|]. cbn. by apply bool_decide_eq_true_2. }
    destruct (vm_state vm'); naive_solver. }
  split.
  - apply (Hend a va4); [done|by rewrite Hr4, lookup_insert_ne, lookup_singleton_eq|by rewrite Hr5, lookup_insert_ne, lookup_singleton_eq].
  - apply (Hend b vb4); [done|by rewrite Hr4, lookup_insert_eq|by rewrite Hr5, lookup_insert_eq].
Qed.
End proofs.

Section boot.
Context {C P A : Type} `{CpuLaws C P} `{Apic A}.
Implicit Types (s : Boot C P A).

Lemma best_effort_kernel {X} (m : st (Smp A) HyperError X) s :
  bo_kernel (best_effort (on_smp m) s).2 = bo_kernel s.
Proof. unfold best_effort, on_smp, zoom. cbn [snd]. by destruct (m (bo_smp s)). Qed.

(** A boot that succeeds is clean.  From the state of the kernel's
    statics, and whatever the boot loader handed over (an image, none, or a
    broken one), the interrupt controller and the guests do: if [bring_up]
    answers Ok then the processor has VMX, and the table holds exactly the two
    guests it created, in two slots, each halted or stopped: none is left
    created, running or faulted. *)
Theorem bring_up_clean handoff s :
  boot_state (bo_kernel s) → fp_room 13 (k_frames (bo_kernel s)) →
  let '(r, s') := bring_up handoff s in
  r = Ok tt → cf_vmx (ho_cpu handoff) = true ∧ clean (bo_kernel s').
Proof.
  intros Hb Hroom. destruct (bring_up handoff s) as [r s'] eqn:E. intros ->. unfold bring_up in E.
  apply st_bind_Ok in E as (u&s1&E1&E). apply bail_Ok in E1 as ->. clear u.
  apply st_bind_Ok in E as (u&s1&E1&E). unfold bail_if in E1.
  destruct (cf_vmx (ho_cpu handoff)); [|done]. injection E1 as <- <-. split; [done|].
  apply st_bind_Ok in E as (ns&s1&E1&E). apply try_Ok in E1 as [Ens ->].
  assert (ns = root_cap) as -> by by injection Ens as <-. clear Ens.
  apply st_bind_Ok in E as (u&s1&E1&E). unfold on_kernel, zoom in E1.
  pose proof (init_spec (λ _, 0%N) (bo_kernel s) 12 (boot_kinv _ _ Hb) Hroom) as Hi.
  pose proof (init_registry (bo_kernel s)) as [Hreg Hdel].
  destruct (init_runtime (bo_kernel s)) as [r1 k1]. injection E1 as -> <-. cbn [snd] in Hreg, Hdel.
  destruct Hi as [Hn (Hk1&_)]. destruct Hb as [Hb1 Hb2]. rewrite Hb1 in Hreg. rewrite Hb2 in Hdel.
  apply st_bind_Ok in E as (u1&s2&E2&E).
  assert (bo_kernel s2 = k1) as Ek2.
  { pose proof (best_effort_kernel lapic_init (mkBoot k1 (bo_smp s))) as Eb. by rewrite E2 in Eb. }
  apply st_bind_Ok in E as (u2&s3&E3&E).
  assert (bo_kernel s3 = k1) as Ek3.
  { destruct (from_handoff_topology handoff) as [tp|e]; [|injection E3 as _ <-; done].
    pose proof (best_effort_kernel (mark_bsp_online tp) s2) as Eb. rewrite E3 in Eb. by rewrite <-Ek2. }
  apply st_bind_Ok in E as (s4&s5&E4&E). apply get_Ok in E4 as [-> ->].
  unfold on_kernel, zoom in E. rewrite Ek3 in E. set (image := from_handoff_or_embedded _ _ _ _) in E.
  pose proof (guests_clean (λ _, 0%N) k1 image 0 Hk1 Hreg Hdel Hn) as Hc.
  destruct (bring_up_guests root_cap image k1) as [r5 k5]. injection E as -> <-. by apply Hc.
Qed.
End boot.

(** ** A boot *)
#[export] Instance map_apic : Apic (gmap N N) := {|
  apic_rdmsr a m := 0xFEE00900%N;
  apic_wrmsr m v a := a;
  reg_read r a := (default 0%N (a !! r), a);
  reg_write r v a := <[r := v]> a
|}.
Definition sim_handoff : CeliumHandoff :=
  mkCeliumHandoff MAGIC VERSION (mkCpuFacts [] true false false false) 0 0 0 0 0 0 1 0 0 0 0 0 0 0.
Definition sim_boot_state : Boot Sim.t KernelFrames.t (gmap N N) :=
  mkBoot sim_kernel (mkSmp ∅ 0 (replicate 8 pcpu_new) 0 0).

Lemma bring_up_clean_witness :
  let '(r, s') := bring_up sim_handoff sim_boot_state in
  r = Ok tt ∧ clean (bo_kernel s') ∧ sm_online (bo_smp s') = 1%N.
Proof.
  pose proof (bring_up_clean sim_handoff sim_boot_state) as Hc.
  assert ((bring_up sim_handoff sim_boot_state).1 = Ok tt) as Hr by (vm_compute; reflexivity).
  assert (sm_online (bo_smp (bring_up sim_handoff sim_boot_state).2) = 1%N) as Ho by (vm_compute; reflexivity).
  destruct (bring_up sim_handoff sim_boot_state) as [r s']. cbn [fst snd] in Hr, Ho.
  split; [exact Hr|]. split; [|exact Ho].
  apply Hc; [split; reflexivity|apply witness_room; lia|exact Hr].
Defined.

Lemma launch_loop_drains_witness :
  let k := run_calls [CInit; CCreate (sim_req x90); CCreate (sim_req x91)] sim_kernel in
  let '(r, k') := launch_all DRAIN_FUEL root_cap 0 k in
  r = Ok (Some 2%N) ∧ r ≠ Ok None ∧ is_created k' 1 = false.
Proof.
  intros k.
  assert (fp_room (calls_room [CInit; CCreate (sim_req x90); CCreate (sim_req x91)]) (k_frames sim_kernel)) as Hr
    by (apply witness_room; simpl; lia).
  pose proof (launch_loop_drains sim_kernel _ root_cap sim_boot Hr) as Hd. cbv zeta in Hd. fold k in Hd.
  assert ((launch_all DRAIN_FUEL root_cap 0 k).1 = Ok (Some 2%N)) as E by (vm_compute; reflexivity).
  clearbody k. destruct (launch_all DRAIN_FUEL root_cap 0 k) as [r k']. cbn [fst] in E.
  destruct Hd as [Hne Hn]. split; [exact E|]. split; [exact Hne|].
  destruct (Hn 2%N E) as [_ Hi]. apply Hi. reflexivity.
Defined.
