(* ===== verification/FileVault.v ===== *)
(** * FileVault: the disk-backed volume store of [celvault]

    crates/celvault/src/file_store.rs.  The manifest (metadata and id
    counters) is in memory and in the file manifest.json, written to a
    temporary file, synced and renamed; the bodies are files of their own,
    named after the volume or snapshot id with the characters of [safe_id]
    replaced.  The directory is the [Fs] of Files.v; the JSON codec of the
    manifest is the class [ManifestCodec]. *)
From S2P Require Import Prelude.
From S2P Require Import Text.
From S2P Require Import Errors.
From S2P Require Import Maps.
From S2P Require Import Vault.
From S2P Require Import Files.
From Stdlib Require Import Strings.Byte.

Record Manifest := mkManifest {
  next_per_owner : gmap string N;
  next_snap : gmap VolumeId N;
  volumes : gmap VolumeId VolumeMeta;
  snapshots : gmap SnapshotId SnapshotMeta
}.
Definition manifest_default : Manifest := mkManifest ∅ ∅ ∅ ∅.

(** [serde_json::to_vec_pretty] and [from_slice]; errors are their messages. *)
Class ManifestCodec := {
  encode_manifest : Manifest → result string bytes;
  decode_manifest : bytes → result string Manifest
}.
(** What serde documents of a derived codec. *)
Class ManifestCodecLaws `{ManifestCodec} := {
  manifest_round m : ∃ b, encode_manifest m = Ok b ∧ decode_manifest b = Ok m
}.

Definition set_next_per_owner (x : gmap string N) (m : Manifest) : Manifest :=
  mkManifest x (next_snap m) (volumes m) (snapshots m).
Definition set_next_snap (x : gmap VolumeId N) (m : Manifest) : Manifest :=
  mkManifest (next_per_owner m) x (volumes m) (snapshots m).
Definition set_volumes (x : gmap VolumeId VolumeMeta) (m : Manifest) : Manifest :=
  mkManifest (next_per_owner m) (next_snap m) x (snapshots m).
Definition set_snapshots (x : gmap SnapshotId SnapshotMeta) (m : Manifest) : Manifest :=
  mkManifest (next_per_owner m) (next_snap m) (volumes m) x.

Definition safe_char (c : ascii) : ascii :=
  if Ascii.eqb c "/" || Ascii.eqb c "@" || Ascii.eqb c ":" || Ascii.eqb c backslash then "_"%char
  else c.
Definition safe_id (s : string) : string := str_map safe_char s.

Definition manifest_path : string := "manifest.json".
Definition manifest_tmp : string := "manifest.json.tmp".
Definition volume_path (id : VolumeId) : string := "volumes/" +:+ (safe_id id +:+ ".bin").
Definition snapshot_path (id : SnapshotId) : string := "snapshots/" +:+ (safe_id id +:+ ".bin").

Module FileVolumeStore.
Section file_volume_store.
Context `{ManifestCodec}.

(** The store: the root directory and the locked manifest. *)
Record t := mk { fv_root : Fs; fv_manifest : Manifest }.
Abbreviation M := (st t CelError).

(** [map_io(ctx)] on an operation of the directory. *)
Definition map_io (ctx e : string) : CelError := Io ("file vault: " +:+ ctx +:+ ": " +:+ e).
Definition io {A} (ctx : string) (m : st Fs string A) : st Fs CelError A :=
  λ d, let '(r, d') := m d in (map_err (map_io ctx) r, d').
Definition at_root {A} (m : st Fs CelError A) : M A :=
  zoom fv_root (λ d g, mk d (fv_manifest g)) m.
(** [let _ = ...]: the outcome is dropped. *)
Definition ignore {A} (m : st Fs string A) : M unit :=
  at_root (λ d, (Ok tt, (m d).2)).
Definition update (f : Manifest → Manifest) : M unit :=
  modify (λ g, mk (fv_root g) (f (fv_manifest g))).

Definition load_manifest : st Fs CelError Manifest :=
  exists_ ← io "exists" (fs_exists manifest_path);
  if negb exists_ then mret manifest_default
  else
    bytes ← io "read manifest" (fs_read manifest_path);
    try (map_err (map_io "parse manifest") (decode_manifest bytes)).

Definition open_or_create (root : Fs) : result CelError t * Fs :=
  (_ ← io "create volumes/" create_dir_all;
   _ ← io "create snapshots/" create_dir_all;
   m ← load_manifest;
   d ← get_st;
   mret (mk d m)) root.

Definition save_manifest (m : Manifest) : st Fs CelError unit :=
  bytes ← try (map_err (map_io "encode manifest") (encode_manifest m));
  _ ← io "create manifest tmp" (file_create manifest_tmp);
  _ ← io "write manifest tmp" (file_write manifest_tmp 0 bytes);
  _ ← io "fsync manifest tmp" file_sync;
  io "rename manifest" (fs_rename manifest_tmp manifest_path).

Definition save : M unit := g ← get_st; at_root (save_manifest (fv_manifest g)).

Definition read_body (path : string) : st Fs CelError bytes :=
  _ ← io "open body" (file_open path);
  io "read body" (file_read_to_end path).

Definition write_body (path : string) (bs : bytes) : st Fs CelError unit :=
  _ ← io "create body" (file_create path);
  _ ← io "write body" (file_write path 0 bs);
  io "fsync body" file_sync.

Definition validate_name (name : string) : CelResult unit :=
  if str_is_empty name then Err (Invalid "volume name: empty")
  else if (VAULT_MAX_NAME <? len name)%N then Err (Invalid "volume name: too long")
  else Ok tt.

Definition create (owner name : string) (size_bytes : N) : M VolumeMeta :=
  _ ← try (validate_name name);
  _ ← bail_if (size_bytes =? 0)%N (Invalid "volume size: must be > 0");
  _ ← bail_if (MAX_VOLUME_BYTES <? size_bytes)%N
        (Invalid "volume size: exceeds MAX_VOLUME_BYTES");
  g ← get_st;
  let counter := saturating_add 64 (default 0%N (next_per_owner (fv_manifest g) !! owner)) 1 in
  _ ← update (λ m, set_next_per_owner (<[owner := counter]> (next_per_owner m)) m);
  let id := MemVolumeStore.volume_id owner counter in
  let meta := mkVolumeMeta id owner name size_bytes in
  let body := replicate (N.to_nat size_bytes) x00 in
  _ ← at_root (write_body (volume_path id) body);
  _ ← update (λ m, set_volumes (<[id := meta]> (volumes m)) m);
  _ ← save;
  mret meta.

(** The loop over [to_drop]. *)
Fixpoint drop_snapshots (to_drop : list SnapshotId) : M unit :=
  match to_drop with
  | [] => mret tt
  | k :: ks =>
      _ ← ignore (fs_remove_file (snapshot_path k));
      _ ← update (λ m, set_snapshots (delete k (snapshots m)) m);
      drop_snapshots ks
  end.

Definition delete_volume (id : VolumeId) : M unit :=
  g ← get_st;
  _ ← update (λ m, set_volumes (delete id (volumes m)) m);
  _ ← (if bool_decide (is_Some (volumes (fv_manifest g) !! id))
       then ignore (fs_remove_file (volume_path id)) else mret tt);
  _ ← update (λ m, set_next_snap (delete id (next_snap m)) m);
  g ← get_st;
  let to_drop := (retain (λ ks, bool_decide (snap_volume ks.2 = id))
                    (btree_iter String.le (snapshots (fv_manifest g)))).*1 in
  _ ← drop_snapshots to_drop;
  save.

Definition list_volumes (g : t) : list VolumeMeta := str_btree_values (volumes (fv_manifest g)).

Definition get (g : t) (id : VolumeId) : option VolumeMeta := volumes (fv_manifest g) !! id.

(** The bounds check of [read] and [write] against the declared size. *)
Definition check_range (overflow past_end : string) (size offset n : N) : CelResult unit :=
  end_ ← ok_or (checked_add 64 offset n) (Invalid overflow);
  if (size <? end_)%N then Err (Invalid past_end) else Ok tt.

Definition read (id : VolumeId) (offset n : N) : M bytes :=
  g ← get_st;
  meta ← try (ok_or (volumes (fv_manifest g) !! id) (Invalid "volume: unknown id"));
  _ ← try (check_range "volume: read range overflow" "volume: read past end"
             (vol_size meta) offset n);
  let path := volume_path id in
  at_root (_ ← io "open volume" (file_open path);
           _ ← io "seek volume" file_seek;
           io "read volume" (file_read_exact path offset n)).

Definition write (id : VolumeId) (offset : N) (data : bytes) : M unit :=
  g ← get_st;
  meta ← try (ok_or (volumes (fv_manifest g) !! id) (Invalid "volume: unknown id"));
  _ ← try (check_range "volume: write range overflow" "volume: write past end"
             (vol_size meta) offset (blen data));
  let path := volume_path id in
  at_root (_ ← io "open volume rw" (file_open path);
           _ ← io "seek volume" file_seek;
           _ ← io "write volume" (file_write path offset data);
           io "fsync volume" file_sync).

Definition create_snapshot (id : VolumeId) (name : string) : M SnapshotMeta :=
  _ ← try (validate_name name);
  g ← get_st;
  vol_meta ← try (ok_or (volumes (fv_manifest g) !! id) (Invalid "snapshot: unknown volume"));
  body ← at_root (read_body (volume_path id));
  _ ← bail_if (negb (blen body =? vol_size vol_meta)%N)
        (Io "file vault: volume body size diverges from manifest");
  let counter := saturating_add 64 (default 0%N (next_snap (fv_manifest g) !! id)) 1 in
  _ ← update (λ m, set_next_snap (<[id := counter]> (next_snap m)) m);
  let sid := MemVolumeStore.snapshot_id id counter in
  let meta := mkSnapshotMeta sid id name (vol_size vol_meta) in
  _ ← at_root (write_body (snapshot_path sid) body);
  _ ← update (λ m, set_snapshots (<[sid := meta]> (snapshots m)) m);
  _ ← save;
  mret meta.

Definition list_snapshots (g : t) (volume : option VolumeId) : list SnapshotMeta :=
  retain (λ s, match volume with None => true | Some v => bool_decide (snap_volume s = v) end)
    (str_btree_values (snapshots (fv_manifest g))).

Definition delete_snapshot (id : SnapshotId) : M unit :=
  g ← get_st;
  _ ← update (λ m, set_snapshots (delete id (snapshots m)) m);
  _ ← (if bool_decide (is_Some (snapshots (fv_manifest g) !! id))
       then ignore (fs_remove_file (snapshot_path id)) else mret tt);
  save.

Definition restore_snapshot (id : SnapshotId) : M unit :=
  g ← get_st;
  snap ← try (ok_or (snapshots (fv_manifest g) !! id) (Invalid "restore: unknown snapshot"));
  vol ← try (ok_or (volumes (fv_manifest g) !! snap_volume snap) (Invalid "restore: volume gone"));
  _ ← bail_if (negb (vol_size vol =? snap_size snap)%N) (Invalid "restore: volume size changed");
  bytes ← at_root (read_body (snapshot_path id));
  at_root (write_body (volume_path (snap_volume snap)) bytes).

Definition flush : M unit :=
  λ g, let '(r, g') := save g in
       (map_err (λ e, match e with Io s => Storage s | other => other end) r, g').

(** One file of [integrity_check]: its length against the declared one. *)
Definition length_error (what id path : string) (size : N) : st Fs CelError (list string) :=
  λ d, match fs_metadata_len path d with
       | (Ok n, d') =>
           (Ok (if (n =? size)%N then []
                else [what +:+ " " +:+ id +:+ ": on-disk len " +:+ fmt_u n +:+ " != declared "
                      +:+ fmt_u size]), d')
       | (Err e, d') => (Ok [what +:+ " " +:+ id +:+ ": stat: " +:+ e], d')
       end.

Fixpoint check_volumes (l : list (VolumeId * VolumeMeta)) (rep : IntegrityReport)
  : st Fs CelError IntegrityReport :=
  match l with
  | [] => mret rep
  | (id, meta) :: l' =>
      errs ← length_error "volume" id (volume_path id) (vol_size meta);
      check_volumes l' (mkIntegrityReport (saturating_add 32 (volumes_checked rep) 1)
                          (snapshots_checked rep) (report_errors rep ++ errs))
  end.

Fixpoint check_snapshots (l : list (SnapshotId * SnapshotMeta)) (rep : IntegrityReport)
  : st Fs CelError IntegrityReport :=
  match l with
  | [] => mret rep
  | (id, meta) :: l' =>
      errs ← length_error "snapshot" id (snapshot_path id) (snap_size meta);
      check_snapshots l' (mkIntegrityReport (volumes_checked rep)
                            (saturating_add 32 (snapshots_checked rep) 1)
                            (report_errors rep ++ errs))
  end.

Definition integrity_check : M IntegrityReport :=
  g ← get_st;
  at_root
    (rep ← check_volumes (btree_iter String.le (volumes (fv_manifest g))) report_default;
     check_snapshots (btree_iter String.le (snapshots (fv_manifest g))) rep).

(** The trait instance; a read of a store whose disk works changes nothing
    (see FileVaultProofs.v). *)
#[export] Instance file_volume_store : VolumeStore t := {|
  vs_create := create;
  vs_delete := delete_volume;
  vs_list := list_volumes;
  vs_get := get;
  vs_read g id off n := (read id off n g).1;
  vs_write := write;
  vs_create_snapshot := create_snapshot;
  vs_list_snapshots := list_snapshots;
  vs_delete_snapshot := delete_snapshot;
  vs_restore_snapshot := restore_snapshot
|}.
End file_volume_store.
End FileVolumeStore.
