(* ===== verification/FileVaultProofs.v ===== *)
(** * FileVaultProofs: the disk-backed store keeps the vault contract

    The names of the body files do not collide for well-formed owners; the
    store on a disk that works implements the same [VolumeStoreLaws] as the
    in-memory one; the manifest on disk is what a reopen finds, under any
    failures. *)
From S2P Require Import Prelude.
From S2P Require Import Text.
From S2P Require Import Codecs.
From S2P Require Import Errors.
From S2P Require Import Maps.
From S2P Require Import Vault.
From S2P Require Import VaultProofs.
From S2P Require Import Files.
From S2P Require Import FileVault.
From Stdlib Require Import Strings.Byte.

(** ** File names *)
Lemma safe_id_app s t : safe_id (s +:+ t) = safe_id s +:+ safe_id t.
Proof.
  induction s as [|c s IH]; [done|]. rewrite !app_string_cons. unfold safe_id in *. simpl.
  by rewrite IH.
Qed.

Lemma safe_id_fixed s :
  contains_char "/" s = false → contains_char "@" s = false → contains_char ":" s = false →
  contains_char backslash s = false → safe_id s = s.
Proof.
  induction s as [|c s IH]; [done|].
  rewrite !contains_char_cons, !orb_false_iff. intros [Hc1 ?] [Hc2 ?] [Hc3 ?] [Hc4 ?].
  unfold safe_id in *. simpl. rewrite IH by done. unfold safe_char.
  rewrite !(Ascii.eqb_sym c), Hc1, Hc2, Hc3, Hc4. done.
Qed.

Lemma safe_id_fmt_u n : safe_id (fmt_u n) = fmt_u n.
Proof. by apply safe_id_fixed; apply fmt_u_no_char. Qed.

Definition volume_name (id : VolumeId) : Prop :=
  ∃ o n, owner_ok o ∧ id = MemVolumeStore.volume_id o n.
Definition snapshot_name (sid : SnapshotId) : Prop :=
  ∃ id k, volume_name id ∧ sid = MemVolumeStore.snapshot_id id k.

Lemma safe_volume_id o n : owner_ok o → safe_id (MemVolumeStore.volume_id o n) = o +:+ String "_" ("v" +:+ fmt_u n).
Proof.
  intros (?&?&?&?). unfold MemVolumeStore.volume_id.
  rewrite !safe_id_app, safe_id_fixed, safe_id_fmt_u by done. done.
Qed.

Lemma safe_volume_inj id1 id2 :
  volume_name id1 → volume_name id2 → safe_id id1 = safe_id id2 → id1 = id2.
Proof.
  intros (o1&n1&Ho1&->) (o2&n2&Ho2&->). rewrite !safe_volume_id by done.
  assert (∀ k, contains_char "_" ("v" +:+ fmt_u k) = false) as Hno.
  { intros k. by rewrite contains_char_app, fmt_u_no_char. }
  intros [-> Hs]%app_last_sep_inj; [|apply Hno..].
  injection Hs as Hs. by apply fmt_u_inj in Hs as ->.
Qed.

Lemma safe_snapshot_inj s1 s2 :
  snapshot_name s1 → snapshot_name s2 → safe_id s1 = safe_id s2 → s1 = s2.
Proof.
  intros (i1&n1&Hi1&->) (i2&n2&Hi2&->). unfold MemVolumeStore.snapshot_id.
  rewrite !safe_id_app, !safe_id_fmt_u.
  change (safe_id "@s" +:+ ?x) with (String "_" ("s" +:+ x)).
  assert (∀ k, contains_char "_" ("s" +:+ fmt_u k) = false) as Hno.
  { intros k. by rewrite contains_char_app, fmt_u_no_char. }
  intros [Hi Hs]%app_last_sep_inj; [|apply Hno..].
  injection Hs as Hs. apply fmt_u_inj in Hs as ->. by apply safe_volume_inj in Hi as ->.
Qed.

Lemma volume_path_inj id1 id2 :
  volume_name id1 → volume_name id2 → volume_path id1 = volume_path id2 → id1 = id2.
Proof. intros ?? E%app_string_inj_l%app_string_inj_r. by apply safe_volume_inj. Qed.
Lemma snapshot_path_inj s1 s2 :
  snapshot_name s1 → snapshot_name s2 → snapshot_path s1 = snapshot_path s2 → s1 = s2.
Proof. intros ?? E%app_string_inj_l%app_string_inj_r. by apply safe_snapshot_inj. Qed.
Lemma volume_snapshot_path id s : volume_path id ≠ snapshot_path s.
Proof. done. Qed.

(** The body files are none of the manifest's. *)
Definition body_path (p : string) : Prop := p ≠ manifest_path ∧ p ≠ manifest_tmp.
Lemma volume_body_path id : body_path (volume_path id).
Proof. done. Qed.
Lemma snapshot_body_path sid : body_path (snapshot_path sid).
Proof. done. Qed.

(** ** The healthy store *)
Module FileVaultInv.
Import FileVolumeStore.
Section inv.
Context `{ManifestCodecLaws}.
Implicit Types (mf : Manifest) (fs : gmap string bytes).

Definition on_disk (p : string) (n : N) fs : Prop := ∃ b, fs !! p = Some b ∧ blen b = n.

Definition vol_ok mf fs (id : VolumeId) (m : VolumeMeta) : Prop :=
  vol_id m = id ∧ (vol_size m ≤ MAX_VOLUME_BYTES)%N ∧ on_disk (volume_path id) (vol_size m) fs ∧
  ∃ o n, owner_ok o ∧ id = MemVolumeStore.volume_id o n ∧ (n ≤ default 0 (next_per_owner mf !! o))%N.

Definition snap_ok mf fs (sid : SnapshotId) (s : SnapshotMeta) : Prop :=
  snap_id s = sid ∧ on_disk (snapshot_path sid) (snap_size s) fs ∧
  (∃ m, volumes mf !! snap_volume s = Some m ∧ vol_size m = snap_size s) ∧
  ∃ k, sid = MemVolumeStore.snapshot_id (snap_volume s) k ∧
       (k ≤ default 0 (next_snap mf !! snap_volume s))%N.

Definition inv_on mf fs : Prop :=
  map_Forall (vol_ok mf fs) (volumes mf) ∧ map_Forall (snap_ok mf fs) (snapshots mf).
Definition inv (g : t) : Prop :=
  healthy (fv_root g) ∧ inv_on (fv_manifest g) (fs_files (fv_root g)).

Definition room (g : t) : Prop :=
  map_Forall (λ _ n, (n < u64_max)%N) (next_per_owner (fv_manifest g)) ∧
  map_Forall (λ _ n, (n < u64_max)%N) (next_snap (fv_manifest g)).

Definition with_body {A} (path : string → string) fs (id : string) (x : A) : option (A * bytes) :=
  b ← fs !! path id; Some (x, b).
Definition abs_on mf fs : AVault :=
  mkAVault (map_imap (with_body volume_path fs) (volumes mf))
    (map_imap (with_body snapshot_path fs) (snapshots mf)).
Definition abs (g : t) : AVault := abs_on (fv_manifest g) (fs_files (fv_root g)).

Lemma inv_volume_name mf fs id : inv_on mf fs → is_Some (volumes mf !! id) → volume_name id.
Proof. intros [Hv _] [m (_&_&_&o&n&?&->&_)%Hv]. by exists o, n. Qed.
Lemma inv_snapshot_name mf fs sid :
  inv_on mf fs → is_Some (snapshots mf !! sid) → snapshot_name sid.
Proof.
  intros Hi [s Hs]. destruct (proj2 Hi _ _ Hs) as (_&_&(m&Hm&_)&k&->&_).
  exists (snap_volume s), k. split; [|done]. eapply inv_volume_name; eauto.
Qed.

(** The file after [save_manifest]. *)
Definition saved (b : bytes) fs := <[manifest_path := b]> (delete manifest_tmp fs).
Lemma saved_lookup b fs p : body_path p → saved b fs !! p = fs !! p.
Proof. intros [? ?]. unfold saved. by rewrite lookup_insert_ne, lookup_delete_ne. Qed.
Lemma saved_twice b fs fs' :
  (∀ p, body_path p → fs' !! p = fs !! p) → ∀ p, body_path p → saved b fs' !! p = fs !! p.
Proof. intros Hf p Hp. rewrite saved_lookup by done. by apply Hf. Qed.

(** *** The pieces of the operations on a disk that works *)
Lemma at_root_good {A} (m : st Fs CelError A) r fs fs' mf :
  m (good fs) = (r, good fs') → at_root m (mk (good fs) mf) = (r, mk (good fs') mf).
Proof. intros E. unfold at_root, zoom. simpl. by rewrite E. Qed.

Lemma io_good {A} ctx (m : st Fs string A) (a : A) fs fs' :
  m (good fs) = (Ok a, good fs') → io ctx m (good fs) = (Ok a, good fs').
Proof. intros E. unfold io. by rewrite E. Qed.

Lemma bind_good {S F A B} (m : st S F A) (k : A → st S F B) s s' a :
  m s = (Ok a, s') → (m ≫= k) s = k a s'.
Proof. intros E. unfold mbind, st_bind. by rewrite E. Qed.

Lemma bind_run {S F A B} (m : st S F A) (k : A → st S F B) s s' a r :
  m s = (Ok a, s') → k a s' = r → (m ≫= k) s = r.
Proof. intros E <-. by apply bind_good. Qed.

Lemma write_body_good path bs fs :
  write_body path bs (good fs) = (Ok tt, good (<[path := bs]> fs)).
Proof.
  unfold write_body. rewrite (bind_good _ _ _ _ _ (io_good _ _ _ _ _ (good_create path fs))).
  erewrite bind_good; [|apply io_good, good_write, lookup_insert_eq].
  rewrite pwrite_empty, insert_insert_eq. by apply io_good.
Qed.

Lemma read_body_good path fs b :
  fs !! path = Some b → read_body path (good fs) = (Ok b, good fs).
Proof.
  intros E. unfold read_body.
  rewrite (bind_good _ _ _ _ _ (io_good _ _ _ _ _ (good_open path fs b E))).
  by apply io_good, good_read_to_end.
Qed.

Lemma save_good mf fs :
  ∃ b, decode_manifest b = Ok mf ∧ save (mk (good fs) mf) = (Ok tt, mk (good (saved b fs)) mf).
Proof.
  destruct (manifest_round mf) as (b&He&Hd). exists b. split; [done|]. unfold save.
  apply at_root_good. cbn [fv_manifest]. unfold save_manifest.
  erewrite bind_good; [|unfold try; by rewrite He].
  rewrite (bind_good _ _ _ _ _ (io_good _ _ _ _ _ (good_create manifest_tmp fs))).
  erewrite bind_good; [|apply io_good, good_write, lookup_insert_eq].
  rewrite pwrite_empty, insert_insert_eq.
  erewrite bind_good; [|apply io_good, good_sync].
  erewrite io_good; [|apply good_rename, lookup_insert_eq].
  unfold saved. by rewrite delete_insert_eq.
Qed.

Lemma ignore_remove_good path mf fs :
  ignore (fs_remove_file path) (mk (good fs) mf) = (Ok tt, mk (good (delete path fs)) mf).
Proof. unfold ignore. apply at_root_good. by rewrite good_remove. Qed.

(** Dropping a list of snapshots. *)
Lemma drop_snapshots_good l mf fs :
  ∃ fs', drop_snapshots l (mk (good fs) mf) =
    (Ok tt, mk (good fs') (set_snapshots (map_retain (λ k _, bool_decide (k ∉ l)) (snapshots mf)) mf)) ∧
    ∀ p, (∀ k, k ∈ l → p ≠ snapshot_path k) → fs' !! p = fs !! p.
Proof.
  revert mf fs. induction l as [|k l IH]; intros mf fs.
  - exists fs. split; [|done]. simpl. unfold mret, st_ret. f_equal. f_equal.
    destruct mf. unfold set_snapshots. simpl. f_equal. apply map_eq. intros i. apply option_eq.
    intros x. rewrite map_retain_lookup. naive_solver.
  - cbn [drop_snapshots]. rewrite (bind_good _ _ _ _ _ (ignore_remove_good _ _ _)).
    edestruct (IH (set_snapshots (delete k (snapshots mf)) mf) (delete (snapshot_path k) fs)) as (fs'&E&Hfs).
    exists fs'. split.
    + erewrite bind_good; [|reflexivity]. cbn [fv_root fv_manifest]. rewrite E. f_equal. f_equal.
      unfold set_snapshots. simpl. f_equal. apply map_eq. intros i. apply option_eq.
      intros x. rewrite !map_retain_lookup, !bool_decide_eq_true, lookup_delete_Some. set_solver.
    + intros p Hp. rewrite Hfs by set_solver. rewrite lookup_delete_ne; [done|].
      intros <-. apply (Hp k); set_solver.
Qed.

(** *** The abstraction, one body file changed *)
Section one_file.
Context {A : Type} (path : string → string).
Implicit Types (ms : gmap string A).

Lemma bodies_same ms fs fs' :
  (∀ id, is_Some (ms !! id) → fs' !! path id = fs !! path id) →
  map_imap (with_body path fs') ms = map_imap (with_body path fs) ms.
Proof.
  intros Hf. apply map_eq. intros id. rewrite !map_lookup_imap.
  destruct (ms !! id) as [x|] eqn:E; simpl; [|done]. unfold with_body. by rewrite Hf by eauto.
Qed.

Lemma bodies_insert ms fs fs' id x b :
  fs' !! path id = Some b →
  (∀ id', id' ≠ id → is_Some (ms !! id') → fs' !! path id' = fs !! path id') →
  map_imap (with_body path fs') (<[id := x]> ms) = <[id := (x, b)]> (map_imap (with_body path fs) ms).
Proof.
  intros Hb Hf. apply map_eq. intros id'. rewrite map_lookup_imap.
  destruct (decide (id' = id)) as [->|Hne].
  - rewrite !lookup_insert_eq. simpl. unfold with_body. by rewrite Hb.
  - rewrite !lookup_insert_ne, map_lookup_imap by done.
    destruct (ms !! id') as [y|] eqn:E; simpl; [|done]. unfold with_body. by rewrite Hf by eauto.
Qed.

Lemma bodies_retain (p : string → A → bool) ms fs fs' :
  (∀ id x, ms !! id = Some x → p id x = true → fs' !! path id = fs !! path id) →
  map_imap (with_body path fs') (map_retain p ms) =
  map_retain (λ id y, p id y.1) (map_imap (with_body path fs) ms).
Proof.
  intros Hf. apply map_eq. intros id. apply option_eq. intros [x b].
  rewrite map_retain_lookup, !map_lookup_imap. unfold with_body. split.
  - destruct (map_retain p ms !! id) as [y|] eqn:E; simpl; [|done].
    apply map_retain_lookup in E as [E Hp]. rewrite E, (Hf _ _ E Hp). simpl.
    destruct (fs !! path id); simpl; [|done]. by intros [= -> ->].
  - destruct (ms !! id) as [y|] eqn:E; simpl; [|by intros []].
    destruct (fs !! path id) as [b'|] eqn:Eb; simpl; [|by intros []]. intros [[= -> ->] Hp].
    assert (map_retain p ms !! id = Some x) as -> by by apply map_retain_lookup.
    simpl. by rewrite (Hf _ _ E Hp), Eb.
Qed.

Lemma bodies_lookup ms fs id x b :
  map_imap (with_body path fs) ms !! id = Some (x, b) ↔ ms !! id = Some x ∧ fs !! path id = Some b.
Proof.
  rewrite map_lookup_imap. unfold with_body. destruct (ms !! id); simpl; [|naive_solver].
  destruct (fs !! path id); simpl; naive_solver.
Qed.

Lemma bodies_None ms fs id : ms !! id = None → map_imap (with_body path fs) ms !! id = None.
Proof. intros E. by rewrite map_lookup_imap, E. Qed.
End one_file.

Lemma retain_delete {A} (m : gmap string A) k : map_retain (λ i _, bool_decide (i ≠ k)) m = delete k m.
Proof.
  apply map_eq. intros i. apply option_eq. intros x.
  rewrite map_retain_lookup, bool_decide_eq_true, lookup_delete_Some. naive_solver.
Qed.

(** *** The invariant under the same changes *)
Lemma vol_ok_files mf mf' fs fs' id m :
  vol_ok mf fs id m → fs' !! volume_path id = fs !! volume_path id →
  (∀ o, (default 0 (next_per_owner mf !! o) ≤ default 0 (next_per_owner mf' !! o))%N) →
  vol_ok mf' fs' id m.
Proof.
  intros (?&?&(b&?&?)&o&n&?&?&?) E Hn. split; [done|]. split; [done|]. split.
  - exists b. by rewrite E.
  - exists o, n. split; [done|]. split; [done|]. specialize (Hn o). lia.
Qed.

Lemma snap_ok_files mf mf' fs fs' sid s m :
  snap_ok mf fs sid s → fs' !! snapshot_path sid = fs !! snapshot_path sid →
  volumes mf' !! snap_volume s = Some m → volumes mf !! snap_volume s = Some m →
  (default 0 (next_snap mf !! snap_volume s) ≤ default 0 (next_snap mf' !! snap_volume s))%N →
  snap_ok mf' fs' sid s.
Proof.
  intros (?&(b&?&?)&(m'&Hm'&?)&k&?&?) E Hv' Hv Hn. simplify_eq. split; [done|]. split.
  - exists b. by rewrite E.
  - split; [eauto|]. exists k. split; [done|lia].
Qed.

(** Replacing the bytes of one body by as many. *)
Lemma inv_on_body mf fs fs' p b b' :
  inv_on mf fs → fs !! p = Some b → fs' !! p = Some b' → length b' = length b →
  (∀ q, q ≠ p → fs' !! q = fs !! q) → inv_on mf fs'.
Proof.
  intros [Hv Hs] Hb Hb' Hl Hq.
  assert (∀ q n, on_disk q n fs → on_disk q n fs') as Hod.
  { intros q n (c&Hc&Hn). destruct (decide (q = p)) as [->|].
    - exists b'. simplify_eq. unfold blen in *. split; [done|]. by rewrite Hl.
    - exists c. by rewrite Hq. }
  split.
  - intros id m (?&?&?&?)%Hv. split_and!; try done. by apply Hod.
  - intros sid s (?&?&?&?)%Hs. split_and!; try done. by apply Hod.
Qed.

Lemma default_insert_le (m : gmap string N) k o :
  (default 0 (m !! o) ≤ default 0 (<[k := default 0 (m !! k) + 1]> m !! o))%N.
Proof.
  destruct (decide (o = k)) as [->|]; [|by rewrite lookup_insert_ne].
  rewrite lookup_insert_eq. simpl. lia.
Qed.

Lemma fv_succ_exact (m : gmap string N) k :
  map_Forall (λ _ n, (n < u64_max)%N) m →
  saturating_add 64 (default 0%N (m !! k)) 1 = (default 0 (m !! k) + 1)%N.
Proof.
  intros Hm. apply saturating_add_exact, fits_umax.
  destruct (m !! k) as [n|] eqn:E; simpl; [specialize (Hm _ _ E); simpl in Hm; lia|].
  by vm_compute.
Qed.

Lemma fresh_volume mf fs o :
  inv_on mf fs →
  volumes mf !! MemVolumeStore.volume_id o (default 0%N (next_per_owner mf !! o) + 1) = None.
Proof.
  intros [Hv _]. destruct (volumes mf !! _) as [m|] eqn:E; [|done].
  destruct (Hv _ _ E) as (_&_&_&o'&n&_&[<- <-]%volume_id_inj&?). lia.
Qed.

Lemma fresh_snapshot mf fs id :
  inv_on mf fs →
  snapshots mf !! MemVolumeStore.snapshot_id id (default 0%N (next_snap mf !! id) + 1) = None.
Proof.
  intros [_ Hs]. destruct (snapshots mf !! _) as [s|] eqn:E; [|done].
  destruct (Hs _ _ E) as (_&_&_&k&[<- <-]%snapshot_id_inj&?). lia.
Qed.

(** *** Every call refines the contract *)
(** The calls that write the manifest. *)
Definition saves (c : vcall) : bool :=
  match c with VWrite _ _ _ | VRestoreSnapshot _ => false | _ => true end.

Definition good_step (c : vcall) mf fs : Prop :=
  ∃ r mf' fs', (vexec c (mk (good fs) mf) = (r, mk (good fs') mf') ∧
      (is_ok r && saves c = false → mf' = mf)) ∧
    inv_on mf' fs' ∧ vault_spec c r (abs_on mf fs) (abs_on mf' fs').

Lemma good_step_error c mf fs e :
  inv_on mf fs → vexec c (mk (good fs) mf) = (Err e, mk (good fs) mf) →
  vault_error (abs_on mf fs) c → good_step c mf fs.
Proof. intros. exists (Err e), mf, fs. split; [done|]. split; [done|]. by constructor. Qed.

Lemma bind_error {S F A B} (m : st S F A) (k : A → st S F B) s s' e :
  m s = (Err e, s') → (m ≫= k) s = (Err e, s').
Proof. intros E. unfold mbind, st_bind. by rewrite E. Qed.

(** What an accepted [create] leaves behind. *)
Section create.
Context (o n : string) (s : N) (mf : Manifest).
Definition new_counter : N := (default 0 (next_per_owner mf !! o) + 1)%N.
Definition new_volume : VolumeMeta :=
  mkVolumeMeta (MemVolumeStore.volume_id o new_counter) o n s.
Definition created_manifest : Manifest :=
  set_volumes (<[vol_id new_volume := new_volume]> (volumes mf))
    (set_next_per_owner (<[o := new_counter]> (next_per_owner mf)) mf).
Definition created_files fs :=
  <[volume_path (vol_id new_volume) := replicate (N.to_nat s) x00]> fs.
End create.

Lemma create_run o n s mf fs :
  MemVolumeStore.validate_name n = Ok tt → s ≠ 0%N → (s ≤ MAX_VOLUME_BYTES)%N →
  map_Forall (λ _ n, (n < u64_max)%N) (next_per_owner mf) →
  ∃ b, create o n s (mk (good fs) mf) =
    (Ok (new_volume o n s mf), mk (good (saved b (created_files o n s mf fs))) (created_manifest o n s mf)).
Proof.
  intros En Hz Hm Hroom.
  destruct (save_good (created_manifest o n s mf) (created_files o n s mf fs)) as (b&_&Hsave).
  exists b. unfold create. erewrite bind_good; [|unfold try; f_equal; exact En].
  rewrite (proj2 (N.eqb_neq _ _)), (proj2 (N.ltb_ge _ _)) by done.
  do 3 (erewrite bind_good; [|reflexivity]). cbn [fv_manifest].
  rewrite fv_succ_exact by done.
  erewrite bind_good; [|reflexivity]. cbn [fv_manifest fv_root].
  erewrite bind_good; [|apply at_root_good, write_body_good].
  erewrite bind_good; [|reflexivity]. cbn [fv_manifest fv_root].
  erewrite bind_good; [|exact Hsave]. done.
Qed.

Lemma good_create_volume o n s mf fs :
  inv_on mf fs → room (mk (good fs) mf) → owner_ok o → good_step (VCreate o n s) mf fs.
Proof.
  intros Hi [Hroom _] Ho. pose proof (fresh_volume mf fs o Hi) as Hfresh.
  destruct (validate_name_cases n) as [[En Hok]|(e&En&Hno)]; cycle 1.
  { eapply good_step_error; [done| |simpl; tauto]. apply bind_error, bind_error.
    unfold try. change (validate_name n) with (MemVolumeStore.validate_name n). by rewrite En. }
  destruct (N.eqb_spec s 0) as [Hz|Hz].
  { eapply good_step_error; [done| |simpl; lia].
    apply bind_error. unfold vs_create. simpl. unfold create. st_unfold.
    change (validate_name n) with (MemVolumeStore.validate_name n). by rewrite En, Hz. }
  destruct (N.ltb_spec MAX_VOLUME_BYTES s) as [Hm|Hm].
  { eapply good_step_error; [done| |simpl; lia].
    apply bind_error. unfold vs_create. simpl. unfold create. st_unfold.
    change (validate_name n) with (MemVolumeStore.validate_name n).
    rewrite En, (proj2 (N.eqb_neq _ _)), (proj2 (N.ltb_lt _ _)) by done. done. }
  destruct (create_run o n s mf fs En Hz Hm Hroom) as (b&Hrun).
  set (k := new_counter o mf) in *. set (m := new_volume o n s mf) in *.
  set (id := vol_id m). change (volumes mf !! id = None) in Hfresh.
  set (body := replicate (N.to_nat s) x00).
  set (mf' := created_manifest o n s mf) in *.
  set (fs' := saved b (created_files o n s mf fs)) in *.
  assert (∀ q, body_path q → q ≠ volume_path id → fs' !! q = fs !! q) as Hq.
  { intros q Hb Hne. unfold fs'. rewrite saved_lookup by done. unfold created_files.
    by rewrite lookup_insert_ne. }
  assert (fs' !! volume_path id = Some body) as Hbody.
  { unfold fs'. rewrite saved_lookup by apply volume_body_path. apply lookup_insert_eq. }
  assert (∀ id', is_Some (volumes mf !! id') → fs' !! volume_path id' = fs !! volume_path id') as Hvols.
  { intros id' Hid'. apply Hq; [apply volume_body_path|]. intros E.
    apply volume_path_inj in E as ->; [by rewrite Hfresh in Hid'; destruct Hid'| |by exists o, k].
    by eapply inv_volume_name. }
  exists (Ok (RVolume m)), mf', fs'. split; [split; [by eapply bind_run|done]|].
  split; [split|].
  - apply map_Forall_insert_2.
    + split_and!; [done|done| |].
      * exists body. split; [done|apply blen_replicate].
      * exists o, k. split; [done|]. split; [done|]. simpl. by rewrite lookup_insert_eq.
    + intros id' m' Hm'. eapply vol_ok_files; [by apply Hi|apply Hvols; eauto|].
      apply default_insert_le.
  - intros sid sn Hsn. destruct (proj2 Hi _ _ Hsn) as (_&_&(mv&Hmv&_)&_).
    eapply snap_ok_files; [by apply Hi|by apply Hq| |done|done].
    simpl. rewrite lookup_insert_ne; [done|]. intros E.
    change (id = snap_volume sn) in E. by rewrite <-E, Hfresh in Hmv.
  - assert (abs_on mf' fs' = mkAVault (<[vol_id m := (m, body)]> (av_vols (abs_on mf fs)))
                               (av_snaps (abs_on mf fs))) as ->.
    { unfold abs_on. simpl. f_equal.
      - apply bodies_insert; [done|]. intros id' _. apply Hvols.
      - apply bodies_same. intros. by apply Hq. }
    apply (spec_create o n s m); try done; [|lia]. by apply bodies_None.
Qed.

Lemma good_delete id mf fs : inv_on mf fs → good_step (VDelete id) mf fs.
Proof.
  intros Hi. pose proof (λ id', inv_volume_name mf fs id' Hi) as Hnames.
  set (fs1 := if bool_decide (is_Some (volumes mf !! id)) then delete (volume_path id) fs else fs).
  set (keep := λ (k : SnapshotId) (s : SnapshotMeta), negb (bool_decide (snap_volume s = id))).
  set (dropped := (retain (λ ks : SnapshotId * SnapshotMeta, bool_decide (snap_volume ks.2 = id))
                    (btree_iter String.le (snapshots mf))).*1).
  set (mf1 := set_next_snap (delete id (next_snap mf)) (set_volumes (delete id (volumes mf)) mf)).
  destruct (drop_snapshots_good dropped mf1 fs1) as (fs2&Hdrop&Hfs2).
  assert (∀ k, k ∈ dropped ↔ ∃ s, snapshots mf !! k = Some s ∧ snap_volume s = id) as Hdropped.
  { intros k. unfold dropped. rewrite list_elem_of_fmap. split.
    - intros ([k' s]&->&[Hk Hs]%elem_of_retain). apply elem_of_btree_iter in Hk.
      apply bool_decide_eq_true in Hs. eauto.
    - intros (s&Hk&Hs). exists (k, s). rewrite elem_of_retain, elem_of_btree_iter.
      by rewrite bool_decide_eq_true. }
  set (mf' := set_snapshots (map_retain keep (snapshots mf)) mf1).
  assert (set_snapshots (map_retain (λ k _, bool_decide (k ∉ dropped)) (snapshots mf1)) mf1 = mf') as Emf.
  { unfold mf', set_snapshots. f_equal. apply map_eq. intros k. apply option_eq. intros s.
    rewrite !map_retain_lookup, bool_decide_eq_true, Hdropped. unfold keep.
    rewrite negb_true_iff, bool_decide_eq_false. simpl. naive_solver. }
  rewrite Emf in Hdrop. destruct (save_good mf' fs2) as (b&_&Hsave).
  set (fs' := saved b fs2) in *.
  assert (vexec (VDelete id) (mk (good fs) mf) = (Ok RUnit, mk (good fs') mf')) as Hrun.
  { eapply bind_run; [|done]. unfold vs_delete. simpl. unfold delete_volume.
    do 2 (erewrite bind_good; [|reflexivity]). cbn [fv_manifest].
    apply (bind_run _ _ _ (mk (good fs1) (set_volumes (delete id (volumes mf)) mf)) tt).
    { unfold fs1. case_bool_decide; [apply ignore_remove_good|done]. }
    do 2 (erewrite bind_good; [|reflexivity]). cbn [fv_manifest fv_root].
    erewrite bind_good; [exact Hsave|exact Hdrop]. }
  assert (∀ id', id' ≠ id → is_Some (volumes mf !! id') → fs' !! volume_path id' = fs !! volume_path id') as Hvols.
  { intros id' Hne Hid'. unfold fs'. rewrite saved_lookup, Hfs2 by done. unfold fs1.
    case_bool_decide; [|done]. rewrite lookup_delete_ne; [done|].
    intros E%volume_path_inj; [done|auto..]. }
  assert (∀ sid s, snapshots mf !! sid = Some s → keep sid s = true →
            fs' !! snapshot_path sid = fs !! snapshot_path sid) as Hsnaps.
  { intros sid s Hs Hk. unfold keep in Hk. apply negb_true_iff, bool_decide_eq_false in Hk.
    unfold fs'. rewrite saved_lookup, Hfs2; [unfold fs1; case_bool_decide; by rewrite ?lookup_delete_ne| |done].
    intros k (s'&Hk'&<-)%Hdropped E. apply snapshot_path_inj in E as ->.
    - by simplify_eq.
    - eapply inv_snapshot_name; eauto.
    - eapply inv_snapshot_name; eauto. }
  exists (Ok RUnit), mf', fs'. split; [by split|]. split; [split|].
  - intros id' m Hm. change (delete id (volumes mf) !! id' = Some m) in Hm.
    apply lookup_delete_Some in Hm as [Hne Hm]. eapply vol_ok_files; [by apply Hi|apply Hvols; eauto|done].
  - intros sid s Hs. change (map_retain keep (snapshots mf) !! sid = Some s) in Hs.
    apply map_retain_lookup in Hs as [Hs Hk]. pose proof (proj2 Hi _ _ Hs) as Hok.
    assert (snap_volume s ≠ id) as Hne.
    { unfold keep in Hk. by apply negb_true_iff, bool_decide_eq_false in Hk. }
    destruct Hok as (_&_&(m&Hm&_)&_).
    eapply snap_ok_files; [by apply Hi|by eapply Hsnaps| |done|].
    + simpl. by rewrite lookup_delete_ne.
    + simpl. by rewrite lookup_delete_ne.
  - assert (abs_on mf' fs' = mkAVault (delete id (av_vols (abs_on mf fs)))
       (map_retain (λ _ s, negb (bool_decide (snap_volume s.1 = id))) (av_snaps (abs_on mf fs)))) as ->.
    { unfold abs_on. simpl. f_equal; [|by apply (bodies_retain snapshot_path keep)].
      rewrite <-!retain_delete. apply bodies_retain. intros id' m Hm Hne%bool_decide_eq_true.
      apply Hvols; eauto. }
    apply spec_delete.
Qed.

(** A body the manifest knows is on disk at its declared size. *)
Lemma volume_on_disk mf fs id m :
  inv_on mf fs → volumes mf !! id = Some m → ∃ b, fs !! volume_path id = Some b ∧ blen b = vol_size m.
Proof. intros Hi Hm. by destruct (proj1 Hi _ _ Hm) as (_&_&?&_). Qed.
Lemma snapshot_on_disk mf fs sid s :
  inv_on mf fs → snapshots mf !! sid = Some s →
  ∃ b, fs !! snapshot_path sid = Some b ∧ blen b = snap_size s.
Proof. intros Hi Hs. by destruct (proj2 Hi _ _ Hs) as (_&?&_). Qed.

Lemma fv_abs_vol_Some mf fs id m b :
  av_vols (abs_on mf fs) !! id = Some (m, b) ↔ volumes mf !! id = Some m ∧ fs !! volume_path id = Some b.
Proof. apply bodies_lookup. Qed.
Lemma fv_abs_snap_Some mf fs sid s b :
  av_snaps (abs_on mf fs) !! sid = Some (s, b) ↔
  snapshots mf !! sid = Some s ∧ fs !! snapshot_path sid = Some b.
Proof. apply bodies_lookup. Qed.

(** The whole state after the bytes of one volume have been replaced. *)
Lemma abs_set_body mf fs id m b :
  inv_on mf fs → volumes mf !! id = Some m →
  abs_on mf (<[volume_path id := b]> fs) =
  mkAVault (<[id := (m, b)]> (av_vols (abs_on mf fs))) (av_snaps (abs_on mf fs)).
Proof.
  intros Hi Hm. unfold abs_on. simpl. f_equal.
  - rewrite <-(insert_id (volumes mf) id m) at 1 by done. apply bodies_insert.
    + apply lookup_insert_eq.
    + intros id' Hne Hid'. rewrite lookup_insert_ne; [done|]. intros E.
      apply volume_path_inj in E; [done|eapply inv_volume_name; eauto..].
  - apply bodies_same. intros sid _. by rewrite lookup_insert_ne.
Qed.

Lemma inv_set_body mf fs p b b' :
  inv_on mf fs → fs !! p = Some b → length b' = length b → inv_on mf (<[p := b']> fs).
Proof.
  intros Hi Hb Hl. eapply (inv_on_body mf fs _ p b b'); try done.
  - apply lookup_insert_eq.
  - intros q Hne. by rewrite lookup_insert_ne.
Qed.

(** The bounds check accepts exactly the ranges inside the declared size. *)
Lemma check_range_spec ov pe size off n :
  (size ≤ MAX_VOLUME_BYTES)%N →
  (∃ e, check_range ov pe size off n = Err e ∧ (size < off + n)%N) ∨
  (check_range ov pe size off n = Ok tt ∧ (off + n ≤ size)%N).
Proof.
  intros Hl. unfold check_range, checked_add. assert (MAX_VOLUME_BYTES < 2 ^ 64)%N by (by vm_compute).
  destruct (checked 64 (off + n)) as [e|] eqn:Ee; cbn [ok_or mbind result_bind].
  - apply checked_Some in Ee as [-> _]. destruct (N.ltb_spec size (off + n)); [left|right]; eauto.
  - left. eexists. split; [done|]. unfold checked in Ee. case_match eqn:E; [done|].
    apply N.ltb_ge in E. lia.
Qed.

Lemma good_write_call id off d mf fs : inv_on mf fs → good_step (VWrite id off d) mf fs.
Proof.
  intros Hi. destruct (volumes mf !! id) as [m|] eqn:Em; cycle 1.
  { eapply good_step_error; [done| |].
    - apply bind_error. unfold vs_write. simpl. unfold write. st_unfold. by rewrite Em.
    - intros m b [? _]%fv_abs_vol_Some. by simplify_eq. }
  destruct (volume_on_disk _ _ _ _ Hi Em) as (b&Hb&Hsz).
  destruct (proj1 Hi _ _ Em) as (_&Hmax&_&_).
  destruct (check_range_spec "volume: write range overflow" "volume: write past end"
              (vol_size m) off (blen d)) as [(e&Ec&Hlt)|[Ec Hle]]; [done| |].
  { eapply good_step_error; [done| |].
    - apply bind_error. unfold vs_write. simpl. unfold write. st_unfold. rewrite Em. simpl. by rewrite Ec.
    - intros m' b' [? ?]%fv_abs_vol_Some. simplify_eq. by rewrite Hsz. }
  exists (Ok RUnit), mf, (<[volume_path id := overwrite b off d]> fs). split; [split; [|done]|split].
  - eapply bind_run; [|done]. unfold vs_write. simpl. unfold write.
    erewrite bind_good; [|reflexivity]. cbn [fv_manifest].
    erewrite bind_good; [|unfold try, ok_or; by rewrite Em].
    erewrite bind_good; [|unfold try; by rewrite Ec].
    apply at_root_good. erewrite bind_good; [|by eapply io_good, good_open].
    erewrite bind_good; [|by apply io_good].
    erewrite bind_good; [|by apply io_good, good_write].
    rewrite pwrite_inside by lia. by apply io_good.
  - eapply inv_set_body; [done..|]. apply overwrite_length. lia.
  - rewrite (abs_set_body _ _ _ m) by done. apply spec_write; [by apply fv_abs_vol_Some|lia].
Qed.

Lemma good_restore sid mf fs : inv_on mf fs → good_step (VRestoreSnapshot sid) mf fs.
Proof.
  intros Hi. destruct (snapshots mf !! sid) as [s|] eqn:Es; cycle 1.
  { eapply good_step_error; [done| |].
    - apply bind_error. unfold vs_restore_snapshot. simpl. unfold restore_snapshot. st_unfold.
      by rewrite Es.
    - intros s sb m b [? _]%fv_abs_snap_Some. by simplify_eq. }
  destruct (proj2 Hi _ _ Es) as (_&(sb&Hsb&Hssz)&(m&Hm&Hsz)&_).
  destruct (volume_on_disk _ _ _ _ Hi Hm) as (b&Hb&Hbsz).
  assert (length sb = length b) as Hlen by (unfold blen in *; lia).
  exists (Ok RUnit), mf, (<[volume_path (snap_volume s) := sb]> fs). split; [split; [|done]|split].
  - eapply bind_run; [|done]. unfold vs_restore_snapshot. simpl. unfold restore_snapshot.
    erewrite bind_good; [|reflexivity]. cbn [fv_manifest].
    erewrite bind_good; [|unfold try, ok_or; by rewrite Es].
    erewrite bind_good; [|unfold try, ok_or; by rewrite Hm].
    erewrite bind_good; [|unfold bail_if; by rewrite Hsz, N.eqb_refl].
    erewrite bind_good; [|by apply at_root_good, read_body_good].
    apply at_root_good, write_body_good.
  - by eapply inv_set_body.
  - rewrite (abs_set_body _ _ _ m) by done.
    eapply (spec_restore sid s sb m b); [by apply fv_abs_snap_Some|by apply fv_abs_vol_Some|done].
Qed.

Lemma good_create_snapshot id n mf fs :
  inv_on mf fs → room (mk (good fs) mf) → good_step (VCreateSnapshot id n) mf fs.
Proof.
  intros Hi [_ Hroom]. pose proof (fresh_snapshot mf fs id Hi) as Hfresh.
  destruct (validate_name_cases n) as [[En Hok]|(e&En&Hno)]; cycle 1.
  { eapply good_step_error; [done| |simpl; tauto]. apply bind_error, bind_error.
    unfold try. change (validate_name n) with (MemVolumeStore.validate_name n). by rewrite En. }
  destruct (volumes mf !! id) as [m|] eqn:Em; cycle 1.
  { eapply good_step_error; [done| |].
    - apply bind_error. unfold vs_create_snapshot. simpl. unfold create_snapshot. st_unfold.
      change (validate_name n) with (MemVolumeStore.validate_name n). by rewrite En, Em.
    - intros [_ [[m b] [? _]%fv_abs_vol_Some]]. by simplify_eq. }
  destruct (volume_on_disk _ _ _ _ Hi Em) as (b&Hb&Hsz).
  set (k := (default 0 (next_snap mf !! id) + 1)%N) in *.
  set (sid := MemVolumeStore.snapshot_id id k) in *.
  set (s := mkSnapshotMeta sid id n (vol_size m)).
  set (mf' := set_snapshots (<[sid := s]> (snapshots mf))
                (set_next_snap (<[id := k]> (next_snap mf)) mf)).
  destruct (save_good mf' (<[snapshot_path sid := b]> fs)) as (eb&_&Hsave).
  set (fs' := saved eb (<[snapshot_path sid := b]> fs)) in *.
  assert (create_snapshot id n (mk (good fs) mf) = (Ok s, mk (good fs') mf')) as Hrun.
  { unfold create_snapshot. erewrite bind_good; [|unfold try; f_equal; exact En].
    erewrite bind_good; [|reflexivity]. cbn [fv_manifest].
    erewrite bind_good; [|unfold try, ok_or; by rewrite Em].
    erewrite bind_good; [|by apply at_root_good, read_body_good].
    erewrite bind_good; [|unfold bail_if; by rewrite Hsz, N.eqb_refl].
    rewrite fv_succ_exact by done. fold k. fold sid. fold s.
    erewrite bind_good; [|reflexivity]. cbn [fv_manifest fv_root].
    erewrite bind_good; [|apply at_root_good, write_body_good].
    erewrite bind_good; [|reflexivity]. cbn [fv_manifest fv_root].
    erewrite bind_good; [|exact Hsave]. done. }
  assert (∀ q, body_path q → q ≠ snapshot_path sid → fs' !! q = fs !! q) as Hq.
  { intros q Hbq Hne. unfold fs'. rewrite saved_lookup by done. by rewrite lookup_insert_ne. }
  assert (fs' !! snapshot_path sid = Some b) as Hbody.
  { unfold fs'. rewrite saved_lookup by apply snapshot_body_path. apply lookup_insert_eq. }
  assert (snapshot_name sid) as Hname by (exists id, k; split; [eapply inv_volume_name; eauto|done]).
  assert (∀ i, is_Some (snapshots mf !! i) → fs' !! snapshot_path i = fs !! snapshot_path i) as Hsnaps.
  { intros i Hii. apply Hq; [apply snapshot_body_path|]. intros E.
    apply snapshot_path_inj in E as ->; [by rewrite Hfresh in Hii; destruct Hii| |done].
    by eapply inv_snapshot_name. }
  exists (Ok (RSnapshot s)), mf', fs'. split; [split; [by eapply bind_run|done]|]. split; [split|].
  - intros i m' Hm'. eapply vol_ok_files; [by apply Hi|by apply Hq|done].
  - apply map_Forall_insert_2.
    + split; [done|]. split; [by exists b|]. split; [by exists m|]. exists k. split; [done|].
      simpl. by rewrite lookup_insert_eq.
    + intros i s' Hs'. destruct (proj2 Hi _ _ Hs') as (_&_&(mv&Hmv&_)&_).
      eapply snap_ok_files; [by apply Hi|apply Hsnaps; eauto|done|done|]. apply default_insert_le.
  - assert (abs_on mf' fs' = mkAVault (av_vols (abs_on mf fs))
                               (<[snap_id s := (s, b)]> (av_snaps (abs_on mf fs)))) as ->.
    { unfold abs_on. simpl. f_equal.
      - apply bodies_same. intros. by apply Hq.
      - apply bodies_insert; [done|]. intros i _. apply Hsnaps. }
    apply (spec_snapshot id n m b s); try done; [by apply fv_abs_vol_Some|by apply bodies_None].
Qed.

Lemma good_delete_snapshot sid mf fs : inv_on mf fs → good_step (VDeleteSnapshot sid) mf fs.
Proof.
  intros Hi.
  set (fs1 := if bool_decide (is_Some (snapshots mf !! sid)) then delete (snapshot_path sid) fs else fs).
  set (mf' := set_snapshots (delete sid (snapshots mf)) mf).
  destruct (save_good mf' fs1) as (b&_&Hsave). set (fs' := saved b fs1) in *.
  assert (∀ i, fs' !! volume_path i = fs !! volume_path i) as Hvols.
  { intros i. unfold fs'. rewrite saved_lookup by done. unfold fs1. case_bool_decide; [|done].
    by rewrite lookup_delete_ne. }
  assert (∀ i, i ≠ sid → is_Some (snapshots mf !! i) → fs' !! snapshot_path i = fs !! snapshot_path i)
    as Hsnaps.
  { intros i Hne Hii. unfold fs'. rewrite saved_lookup by done. unfold fs1. case_bool_decide; [|done].
    rewrite lookup_delete_ne; [done|]. intros E%snapshot_path_inj; [done|eapply inv_snapshot_name; eauto..]. }
  exists (Ok RUnit), mf', fs'. split; [split; [|done]|split; [split|]].
  - eapply bind_run; [|done]. unfold vs_delete_snapshot. simpl. unfold delete_snapshot.
    do 2 (erewrite bind_good; [|reflexivity]). cbn [fv_manifest fv_root].
    apply (bind_run _ _ _ (mk (good fs1) mf') tt); [|exact Hsave].
    unfold fs1. case_bool_decide; [apply ignore_remove_good|done].
  - intros i m Hm. by eapply vol_ok_files; [apply Hi|apply Hvols|].
  - intros i s Hs. change (delete sid (snapshots mf) !! i = Some s) in Hs.
    apply lookup_delete_Some in Hs as [Hne Hs]. destruct (proj2 Hi _ _ Hs) as (_&_&(m&Hm&_)&_).
    eapply snap_ok_files; [by apply Hi|apply Hsnaps; eauto|done|done|done].
  - assert (abs_on mf' fs' = mkAVault (av_vols (abs_on mf fs)) (delete sid (av_snaps (abs_on mf fs)))) as ->.
    { unfold abs_on. simpl. f_equal; [apply bodies_same; intros; apply Hvols|].
      rewrite <-!retain_delete. apply bodies_retain. intros i s Hs Hne%bool_decide_eq_true.
      apply Hsnaps; eauto. }
    apply spec_delete_snapshot.
Qed.

Lemma good_vexec c mf fs :
  inv_on mf fs → room (mk (good fs) mf) → vcall_ok c → good_step c mf fs.
Proof.
  intros Hi Hr Hc. destruct c.
  - by apply good_create_volume.
  - by apply good_delete.
  - by apply good_write_call.
  - by apply good_create_snapshot.
  - by apply good_delete_snapshot.
  - by apply good_restore.
Qed.

(** A read of a known range leaves the store alone. *)
Lemma read_good id m b off n mf fs :
  inv_on mf fs → av_vols (abs_on mf fs) !! id = Some (m, b) → (off + n ≤ blen b)%N →
  read id off n (mk (good fs) mf) = (Ok (slice b off (off + n)), mk (good fs) mf).
Proof.
  intros Hi [Hm Hb]%fv_abs_vol_Some Hn. destruct (proj1 Hi _ _ Hm) as (_&Hmax&(b'&Hb'&Hsz)&_).
  simplify_eq. unfold read. erewrite bind_good; [|reflexivity]. cbn [fv_manifest].
  erewrite bind_good; [|unfold try, ok_or; by rewrite Hm].
  destruct (check_range_spec "volume: read range overflow" "volume: read past end"
              (vol_size m) off n) as [(e&_&Hlt)|[Ec _]]; [done|lia|].
  erewrite bind_good; [|unfold try; by rewrite Ec].
  apply at_root_good. erewrite bind_good; [|by eapply io_good, good_open].
  erewrite bind_good; [|by apply io_good]. by apply io_good, good_read_exact.
Qed.

#[export] Instance laws : VolumeStoreLaws t.
Proof.
  refine {| vs_inv := inv; vs_room := room; vs_abs := abs |}.
  - intros [d mf] id [_ Hi]. unfold vs_get. simpl. unfold get, abs. simpl.
    destruct (volumes mf !! id) as [m|] eqn:Em.
    + destruct (volume_on_disk _ _ _ _ Hi Em) as (b&Hb&_).
      assert (av_vols (abs_on mf (fs_files d)) !! id = Some (m, b)) as Ha by by apply fv_abs_vol_Some.
      unfold abs_on in Ha. simpl in Ha. by rewrite Ha.
    + by rewrite bodies_None.
  - intros [d mf] id m b off n [Hd Hi] Hm Hn. unfold vs_read. simpl in *.
    rewrite (healthy_good d Hd). erewrite read_good; [done|done| |done]. exact Hm.
  - intros c [d mf] [Hd Hi] Hr Hc. unfold abs. simpl in *. rewrite (healthy_good d Hd) in Hr |- *.
    destruct (good_vexec c mf (fs_files d) Hi Hr Hc) as (r&mf'&fs'&[-> _]&_&Hs). exact Hs.
  - intros c [d mf] [Hd Hi] Hr Hc. simpl in *. rewrite (healthy_good d Hd) in Hr |- *.
    destruct (good_vexec c mf (fs_files d) Hi Hr Hc) as (r&mf'&fs'&[-> _]&Hi'&_). done.
Defined.
End inv.
End FileVaultInv.

(** ** The manifest file, whatever the disk does *)
Module FileVaultDisk.
Import FileVolumeStore FileVaultInv.
Section disk.
Context `{ManifestCodecLaws}.

(** What a reopen would read. *)
Definition holds (d : Fs) (m : Manifest) : Prop :=
  match fs_files d !! manifest_path with
  | None => m = manifest_default
  | Some b => decode_manifest b = Ok m
  end.

(** Operations of the directory that leave the manifest file alone, and
    operations of the store that do. *)
Definition quiet {E A} (m : st Fs E A) : Prop :=
  ∀ d, fs_files (m d).2 !! manifest_path = fs_files d !! manifest_path.
Definition tame {A} (m : st t CelError A) : Prop :=
  ∀ g, fs_files (fv_root (m g).2) !! manifest_path = fs_files (fv_root g) !! manifest_path.
(** Operations that end by saving: the file holds the manifest in memory if
    they succeed, and is what it was if they fail. *)
Definition saving {A} (m : st t CelError A) : Prop :=
  ∀ g, let '(r, g') := m g in
    if is_ok r then holds (fv_root g') (fv_manifest g')
    else fs_files (fv_root g') !! manifest_path = fs_files (fv_root g) !! manifest_path.

Create HintDb vault_disk.

Lemma quiet_bind {E A B} (m : st Fs E A) (k : A → st Fs E B) :
  quiet m → (∀ a, quiet (k a)) → quiet (m ≫= k).
Proof.
  intros Hm Hk d. specialize (Hm d). unfold mbind, st_bind.
  destruct (m d) as [[a|e] d']; simpl in *; [|done]. by rewrite Hk.
Qed.
Lemma quiet_pure {E A} (r : result E A) : quiet (λ d, (r, d)).
Proof. done. Qed.
Lemma quiet_try {E A} (r : result E A) : quiet (try r).
Proof. done. Qed.
Lemma quiet_get {E} : quiet (get_st : st Fs E Fs).
Proof. done. Qed.
Lemma quiet_outcome : quiet outcome.
Proof. done. Qed.
Lemma quiet_throw {A} (e : string) : quiet (mthrow e : st Fs string A).
Proof. done. Qed.
Lemma quiet_ret {E A} (a : A) : quiet (mret a : st Fs E A).
Proof. done. Qed.
Lemma quiet_syscall : quiet syscall.
Proof. apply quiet_bind; [done|]. by intros []. Qed.
Lemma quiet_content p : quiet (fs_content p).
Proof. by apply quiet_bind. Qed.
Lemma quiet_set p b : p ≠ manifest_path → quiet (modify (E:=string) (λ d, set_files (<[p := b]> (fs_files d)) d)).
Proof. intros Hp d. simpl. by rewrite lookup_insert_ne. Qed.
Hint Resolve quiet_bind quiet_try quiet_get quiet_outcome quiet_throw quiet_ret quiet_syscall
  quiet_content quiet_set : vault_disk.

Lemma quiet_create p : p ≠ manifest_path → quiet (file_create p).
Proof. unfold file_create. auto with vault_disk. Qed.
Lemma quiet_open p : quiet (file_open p).
Proof. unfold file_open. auto with vault_disk. Qed.
Lemma quiet_write p off data : p ≠ manifest_path → quiet (file_write p off data).
Proof.
  intros Hp. apply quiet_bind; [done|]. intros o. apply quiet_bind; [apply quiet_content|].
  intros b. destruct o; [apply quiet_bind; [by apply quiet_set|done]|by apply quiet_set].
Qed.
Lemma quiet_read_to_end p : quiet (file_read_to_end p).
Proof. unfold file_read_to_end. auto with vault_disk. Qed.
Lemma quiet_remove p : p ≠ manifest_path → quiet (fs_remove_file p).
Proof.
  intros Hp. apply quiet_bind; [apply quiet_syscall|]. intros _.
  apply quiet_bind; [apply quiet_content|]. intros b d. simpl. by rewrite lookup_delete_ne.
Qed.
Lemma quiet_io {A} ctx (m : st Fs string A) : quiet m → quiet (io ctx m).
Proof. intros Hm d. unfold io. specialize (Hm d). by destruct (m d). Qed.
Hint Resolve quiet_create quiet_open quiet_write quiet_read_to_end quiet_remove quiet_io : vault_disk.

Lemma quiet_write_body p b : p ≠ manifest_path → quiet (write_body p b).
Proof. intros. unfold write_body, file_sync. auto 8 with vault_disk. Qed.
Lemma quiet_read_body p : quiet (read_body p).
Proof. unfold read_body. auto with vault_disk. Qed.
Hint Resolve quiet_write_body quiet_read_body : vault_disk.

Lemma tame_bind {A B} (m : st t CelError A) (k : A → st t CelError B) :
  tame m → (∀ a, tame (k a)) → tame (m ≫= k).
Proof.
  intros Hm Hk g. specialize (Hm g). unfold mbind, st_bind.
  destruct (m g) as [[a|e] g']; simpl in *; [|done]. by rewrite Hk.
Qed.
Lemma tame_try {A} (r : CelResult A) : tame (try r).
Proof. done. Qed.
Lemma tame_get : tame get_st.
Proof. done. Qed.
Lemma tame_ret {A} (a : A) : tame (mret a).
Proof. done. Qed.
Lemma tame_bail b e : tame (bail_if b e).
Proof. by destruct b. Qed.
Lemma tame_update f : tame (update f).
Proof. done. Qed.
Lemma tame_at_root {A} (m : st Fs CelError A) : quiet m → tame (at_root m).
Proof. intros Hm g. unfold at_root, zoom. specialize (Hm (fv_root g)). by destruct (m _). Qed.
Lemma tame_ignore {A} (m : st Fs string A) : quiet m → tame (ignore m).
Proof. intros Hm. apply tame_at_root. exact Hm. Qed.
Lemma tame_if {A} (b : bool) (m n : st t CelError A) : tame m → tame n → tame (if b then m else n).
Proof. by destruct b. Qed.
Hint Resolve tame_bind tame_try tame_get tame_ret tame_bail tame_update tame_at_root tame_ignore
  tame_if : vault_disk.

Lemma tame_drop l : tame (drop_snapshots l).
Proof. induction l as [|k l IH]; simpl; auto with vault_disk. Qed.
Hint Resolve tame_drop : vault_disk.

Lemma saving_bind {A B} (m : st t CelError A) (k : A → st t CelError B) :
  tame m → (∀ a, saving (k a)) → saving (m ≫= k).
Proof.
  intros Hm Hk g. specialize (Hm g). unfold mbind, st_bind.
  destruct (m g) as [[a|e] g']; simpl in *; [|done].
  specialize (Hk a g'). destruct (k a g') as [r g'']. destruct (is_ok r); [done|]. by rewrite Hk.
Qed.

Lemma create_then_write (b : bytes) d :
  let m := (_ ← io "create manifest tmp" (file_create manifest_tmp);
            io "write manifest tmp" (file_write manifest_tmp 0 b)) in
  is_ok (m d).1 = true → fs_files (m d).2 !! manifest_tmp = Some b.
Proof.
  destruct d as [fs o]. unfold io, file_create, file_write, fs_content, syscall, outcome. st_unfold.
  destruct (mjoin (head o)); [done|]. simpl. rewrite lookup_insert_eq.
  destruct (mjoin (head (tail o))); [done|]. simpl.
  by rewrite lookup_insert_eq, pwrite_empty.
Qed.

Lemma bind_assoc {S F A B C} (m : st S F A) (k : A → st S F B) (l : B → st S F C) s :
  ((m ≫= k) ≫= l) s = (m ≫= λ a, k a ≫= l) s.
Proof. unfold mbind, st_bind. by destruct (m s) as [[]]. Qed.

Lemma manifest_tmp_ne : manifest_tmp ≠ manifest_path.
Proof. done. Qed.
Hint Resolve manifest_tmp_ne : vault_disk.

Lemma save_disk mf d :
  let '(r, d') := save_manifest mf d in
  if is_ok r then holds d' mf else fs_files d' !! manifest_path = fs_files d !! manifest_path.
Proof.
  destruct (manifest_round mf) as (b&He&Hd). unfold save_manifest.
  erewrite bind_good; [|unfold try; by rewrite He]. rewrite <-bind_assoc.
  set (m := io "create manifest tmp" (file_create manifest_tmp) ≫=
              λ _, io "write manifest tmp" (file_write manifest_tmp 0 b)).
  pose proof (create_then_write b d) as Hw. cbv zeta in Hw.
  assert (quiet m) as Hq by (unfold m; auto 6 with vault_disk). specialize (Hq d).
  change (is_ok (m d).1 = true → fs_files (m d).2 !! manifest_tmp = Some b) in Hw.
  clearbody m. unfold mbind at 1, st_bind. destruct (m d) as [[[]|e] d1]; simpl in *; [|done].
  specialize (Hw eq_refl). destruct d1 as [fs o].
  unfold io, file_sync, fs_rename, fs_content, syscall, outcome. st_unfold.
  destruct (mjoin (head o)); [done|]. simpl. destruct (mjoin (head (tail o))); [done|]. simpl.
  rewrite Hw. simpl. unfold holds. simpl. by rewrite lookup_insert_eq.
Qed.

Lemma saving_save {A} (a : A) : saving (save ≫= λ _, mret a).
Proof.
  intros [d mf]. unfold save, at_root, zoom. st_unfold. pose proof (save_disk mf d) as Hs.
  by destruct (save_manifest mf d) as [[[]|e] d'].
Qed.
Lemma saving_save' : saving save.
Proof.
  intros [d mf]. unfold save, at_root, zoom. st_unfold. pose proof (save_disk mf d) as Hs.
  by destruct (save_manifest mf d) as [[[]|e] d'].
Qed.
Lemma saving_map {A B} (m : st t CelError A) (f : A → B) :
  saving m → saving (m ≫= λ a, mret (f a)).
Proof. intros Hm g. specialize (Hm g). unfold mbind, st_bind. by destruct (m g) as [[a|e] g']. Qed.
Lemma volume_path_ne id : volume_path id ≠ manifest_path.
Proof. done. Qed.
Lemma snapshot_path_ne id : snapshot_path id ≠ manifest_path.
Proof. done. Qed.
Hint Resolve saving_bind saving_save saving_save' saving_map volume_path_ne snapshot_path_ne : vault_disk.

(** Every call saves, or leaves the file alone. *)
Lemma vexec_saves c : saves c = true → saving (vexec c).
Proof.
  destruct c; try done; intros _; apply saving_map; simpl;
    unfold create, delete_volume, create_snapshot, delete_snapshot; auto 20 with vault_disk.
Qed.

Lemma vexec_tame c : saves c = false → tame (vexec c).
Proof.
  destruct c; try done; intros _; unfold vexec; simpl; unfold write, restore_snapshot;
    auto 20 with vault_disk.
Qed.
End disk.
End FileVaultDisk.

(** ** Properties *)
#[export] Existing Instance FileVolumeStore.file_volume_store.
#[export] Existing Instance FileVaultInv.laws.

Section properties.
Context `{ManifestCodecLaws}.
Import FileVolumeStore FileVaultInv FileVaultDisk.

(** The histories of a directory: the store is opened and called, and the
    second component is the manifest of the last open or saving call that was
    answered [Ok]. *)
Definition acked (c : vcall) (m : Manifest) (g : t) : Manifest :=
  if is_ok (vexec c g).1 && saves c then fv_manifest (vexec c g).2 else m.

(** The third system call of an open, the [exists] of the manifest, is
    answered: [exists] takes a failing one for "there is none". *)
Definition exists_answers (d : Fs) : Prop := mjoin (fs_outcomes d !! 2%nat) = None.

Inductive history : t → Manifest → Prop :=
| history_open d g d' :
    exists_answers d → open_or_create d = (Ok g, d') → history g (fv_manifest g)
| history_call c g m : history g m → history (vexec c g).2 (acked c m g).

Lemma holds_same d d' m :
  fs_files d' !! manifest_path = fs_files d !! manifest_path → holds d m → holds d' m.
Proof. intros E. unfold holds. by rewrite E. Qed.

Lemma syscall_Ok d a d' : syscall d = (Ok a, d') → fs_files d' = fs_files d.
Proof. unfold syscall, outcome. st_unfold. by destruct (mjoin _); intros [= <- <-]. Qed.
Lemma content_Ok p d b d' : fs_content p d = (Ok b, d') → fs_files d !! p = Some b ∧ d' = d.
Proof. unfold fs_content. st_unfold. by destruct (fs_files d !! p) eqn:E; intros [= <- <-]. Qed.
Lemma io_Ok {A} ctx (m : st Fs string A) d a d' : io ctx m d = (Ok a, d') → m d = (Ok a, d').
Proof. unfold io. destruct (m d) as [[]]; simpl; congruence. Qed.

Lemma read_Ok p d b d' : fs_read p d = (Ok b, d') → fs_files d !! p = Some b ∧ fs_files d' = fs_files d.
Proof.
  unfold fs_read, file_open, file_read_to_end.
  intros ([]&d1&(?&d2&Hs%syscall_Ok&(b1&d3&[Hb ->]%content_Ok&[= <-])%st_bind_Ok)%st_bind_Ok&
          (?&d4&Hs2%syscall_Ok&[Hb2 ->]%content_Ok)%st_bind_Ok)%st_bind_Ok.
  rewrite Hs2, Hs in Hb2. by rewrite Hs2, Hs.
Qed.

Lemma load_manifest_holds d m d' :
  answered d → load_manifest d = (Ok m, d') → holds d m ∧ fs_files d' = fs_files d.
Proof.
  unfold load_manifest. intros Ha (ex&d0&Hex%io_Ok&Hl)%st_bind_Ok.
  pose proof (exists_spec manifest_path d) as He. rewrite Hex in He.
  rewrite decide_True in He by done. destruct He as (Hd0&[= ->]). revert Hl. unfold holds, fs_present.
  case_bool_decide as Hp; simpl.
  - intros (b&d1&[Hb Hd]%io_Ok%read_Ok&Hm)%st_bind_Ok. rewrite Hd0 in Hb, Hd. rewrite Hb. unfold try in Hm.
    injection Hm as Hm <-. split; [|done]. destruct (decode_manifest b); simpl in Hm; congruence.
  - intros [= <- <-]. split; [|done]. apply eq_None_not_Some in Hp. by rewrite Hp.
Qed.

Lemma syscall_outcomes d : fs_outcomes (syscall d).2 = tail (fs_outcomes d).
Proof. unfold syscall, outcome, mbind, st_bind. simpl. by destruct (mjoin _). Qed.
Lemma open_holds d g d' :
  exists_answers d → open_or_create d = (Ok g, d') → holds (fv_root g) (fv_manifest g).
Proof.
  unfold open_or_create, create_dir_all. intros Ha (?&d1&H1%io_Ok&Hr)%st_bind_Ok.
  apply st_bind_Ok in Hr as (?&d2&H2%io_Ok&Hr).
  assert (answered d2) as Ha2.
  { pose proof (syscall_outcomes d) as O1. rewrite H1 in O1. pose proof (syscall_outcomes d1) as O2. rewrite H2 in O2.
    simpl in O1, O2. unfold answered. rewrite O2, O1. unfold exists_answers in Ha. by destruct (fs_outcomes d) as [|? [|? []]]. }
  apply st_bind_Ok in Hr as (m&d3&[Hm Hd]%load_manifest_holds&(d4&?&[= <- <-]&[= <- <-])%st_bind_Ok); [|done].
  simpl. revert Hm. apply holds_same. by rewrite Hd.
Qed.

(** When the [exists] fails, the store opens empty, and its next save
    replaces the manifest on disk. *)
Lemma unanswered_exists_forgets fs e :
  open_or_create (mkFs fs [None; None; Some e]) = (Ok (mk (good fs) manifest_default), good fs).
Proof. done. Qed.

Lemma history_holds g m : history g m → holds (fv_root g) m.
Proof.
  induction 1 as [d g d' Ha Ho|c g m _ IH]; [by eapply open_holds|].
  unfold acked. destruct (saves c) eqn:Es.
  - pose proof (vexec_saves c Es g) as Hs. destruct (vexec c g) as [r g'].
    destruct r as [a|e]; simpl in *; [done|]. eapply holds_same; eauto.
  - rewrite andb_false_r. eapply holds_same; [|exact IH]. by apply vexec_tame.
Qed.

Lemma open_good fs m : holds (good fs) m → open_or_create (good fs) = (Ok (mk (good fs) m), good fs).
Proof.
  intros Hm. unfold open_or_create. do 2 (erewrite bind_good; [|by apply io_good]).
  apply (bind_run _ _ _ (good fs) m); [|done]. unfold load_manifest.
  erewrite bind_good; [|apply io_good, good_exists]. revert Hm. unfold holds. simpl.
  destruct (fs !! manifest_path) as [b|] eqn:Eb.
  - intros Hd. rewrite bool_decide_eq_true_2 by eauto. simpl.
    erewrite bind_good; [|by apply io_good, good_read]. unfold try. by rewrite Hd.
  - intros ->. rewrite bool_decide_eq_false_2; [done|]. by intros [].
Qed.

(** C13: the manifest survives.  Take any history of opens and calls, whatever
    file operations failed in it but the [exists] of an open (a failing one
    opens the store empty): reopening on a disk that works finds every body
    file as it is and exactly the manifest in memory at the last open or the
    last saving call that was answered [Ok]: a failed call never damages the file, an
    acknowledged one is never lost. *)
Theorem file_vault_durable g m :
  history g m →
  open_or_create (good (fs_files (fv_root g))) =
    (Ok (mk (good (fs_files (fv_root g))) m), good (fs_files (fv_root g))).
Proof. intros Hh. apply open_good. exact (history_holds g m Hh). Qed.

Lemma good_run_history cs g0 g :
  vault_run cs g0 g → inv g0 → history g0 (fv_manifest g0) → history g (fv_manifest g).
Proof.
  induction 1 as [|c cs g0 g Hr Hc _ IH]; intros Hi Hh; [done|].
  apply IH; [exact (law_inv c g0 Hi Hr Hc)|]. assert (acked c (fv_manifest g0) g0 = fv_manifest (vexec c g0).2) as <-;
    [|by constructor].
  destruct g0 as [d mf], Hi as [Hd Hi]. simpl in Hd, Hi. rewrite (healthy_good d Hd) in Hr |- *.
  destruct (good_vexec c mf (fs_files d) Hi Hr Hc) as (r&mf'&fs'&[E Hk]&_). unfold acked.
  rewrite E. simpl. destruct (is_ok r && saves c); [done|]. by rewrite Hk.
Qed.

Definition fresh_dir : t := mk (good ∅) manifest_default.

Lemma fresh_inv : inv fresh_dir.
Proof. split; [done|]. split; apply map_Forall_empty. Qed.
Lemma fresh_history : history fresh_dir (fv_manifest fresh_dir).
Proof. apply (history_open (good ∅) _ (good ∅)); [done|by apply open_good]. Qed.

(** C29: the disk-backed store implements the same contract as the in-memory
    one.  From an empty directory on a disk whose operations all succeed, after
    any history of calls in which every owner is a name without @, slash, colon
    and backslash (with them two owners can share a file:
    [aliased_create_zeroes]) and no counter of ids has reached its maximum,
    every call does exactly what [vault_spec] allows on the bodies in the
    files, and closing and reopening the directory between two calls changes
    nothing. *)
Theorem file_vault_refines_contract cs g c :
  vault_run cs fresh_dir g → vs_room g → vcall_ok c →
  vault_spec c (vexec c g).1 (vs_abs g) (vs_abs (vexec c g).2) ∧
  vs_inv (vexec c g).2 ∧
  open_or_create (fv_root g) = (Ok g, fv_root g).
Proof.
  intros Hrun Hr Hc.
  assert (inv g) as Hi by exact (vault_run_inv cs fresh_dir g Hrun fresh_inv).
  split; [exact (law_refines c g Hi Hr Hc)|]. split; [exact (law_inv c g Hi Hr Hc)|].
  pose proof (good_run_history _ _ _ Hrun fresh_inv fresh_history) as Hh.
  apply history_holds in Hh. destruct g as [d mf], Hi as [Hd _]. simpl in *.
  rewrite (healthy_good d Hd) in Hh |- *. by apply open_good.
Qed.

(** Two owners that [safe_id] maps to the same name share body files:
    creating a volume for the second one replaces the bytes of the first
    one's volume by zeros, and both stay in the manifest. *)
Lemma aliased_create_zeroes o1 o2 n sz m fs mf :
  o1 ≠ o2 → safe_id o1 = safe_id o2 →
  let id1 := MemVolumeStore.volume_id o1 (new_counter o2 mf) in
  volumes mf !! id1 = Some m → MemVolumeStore.validate_name n = Ok tt →
  sz ≠ 0%N → (vol_size m ≤ sz ≤ MAX_VOLUME_BYTES)%N →
  map_Forall (λ _ n, (n < u64_max)%N) (next_per_owner mf) →
  let '(r, g') := create o2 n sz (mk (good fs) mf) in
  is_ok r = true ∧ volumes (fv_manifest g') !! id1 = Some m ∧
  read id1 0 (vol_size m) g' = (Ok (replicate (N.to_nat (vol_size m)) x00), g').
Proof.
  intros Hne Hsafe id1 Hm Hn Hz [Hle Hmax] Hroom.
  destruct (create_run o2 n sz mf fs Hn Hz Hmax Hroom) as (b&->). cbn [is_ok fv_manifest].
  set (body := replicate (N.to_nat sz) x00).
  assert (volumes (created_manifest o2 n sz mf) !! id1 = Some m) as Hm'.
  { unfold created_manifest. simpl. rewrite lookup_insert_ne; [done|]. subst id1.
    by intros [-> _]%volume_id_inj. }
  assert (saved b (created_files o2 n sz mf fs) !! volume_path id1 = Some body) as Hb.
  { rewrite saved_lookup by apply volume_body_path. unfold created_files.
    assert (volume_path (vol_id (new_volume o2 n sz mf)) = volume_path id1) as ->;
      [|apply lookup_insert_eq].
    subst id1. unfold volume_path, new_volume, MemVolumeStore.volume_id. simpl.
    by rewrite !safe_id_app, Hsafe. }
  split; [done|]. split; [done|]. unfold read. erewrite bind_good; [|reflexivity]. cbn [fv_manifest].
  erewrite bind_good; [|unfold try, ok_or; by rewrite Hm'].
  destruct (check_range_spec "volume: read range overflow" "volume: read past end"
              (vol_size m) 0 (vol_size m)) as [(e&_&Hlt)|[Ec _]]; [lia..|].
  erewrite bind_good; [|unfold try; by rewrite Ec].
  apply at_root_good. erewrite bind_good; [|by eapply io_good, good_open].
  erewrite bind_good; [|by apply io_good]. apply io_good.
  erewrite good_read_exact; [|exact Hb|unfold body; rewrite blen_replicate; lia].
  do 2 f_equal. unfold slice, body. rewrite drop_replicate, take_replicate. f_equal. lia.
Qed.
End properties.

(** ** Witnesses *)
#[export] Instance VolumeMeta_countable : Countable VolumeMeta.
Proof.
  refine (inj_countable' (λ m, (vol_id m, vol_owner m, vol_name m, vol_size m))
            (λ '(i, o, n, s), mkVolumeMeta i o n s) _); by intros [].
Defined.
#[export] Instance SnapshotMeta_countable : Countable SnapshotMeta.
Proof.
  refine (inj_countable' (λ m, (snap_id m, snap_volume m, snap_name m, snap_size m))
            (λ '(i, o, n, s), mkSnapshotMeta i o n s) _); by intros [].
Defined.
#[export] Instance Manifest_eq_dec : EqDecision Manifest.
Proof. solve_decision. Defined.
#[export] Instance Manifest_countable : Countable Manifest.
Proof.
  refine (inj_countable' (λ m, (next_per_owner m, next_snap m, volumes m, snapshots m))
            (λ '(a, b, c, d), mkManifest a b c d) _); by intros [].
Defined.

Module FileVaultWitness.
Import FileVolumeStore FileVaultInv.

#[export] Instance codec : ManifestCodec := {|
  encode_manifest m := Ok (String.list_byte_of_string (print_bits m));
  decode_manifest b := ok_or (parse_bits (String.string_of_list_byte b)) "manifest"
|}.
#[export] Instance codec_laws : ManifestCodecLaws.
Proof.
  constructor. intros m. exists (String.list_byte_of_string (print_bits m)). split; [done|].
  unfold decode_manifest, codec. by rewrite String.string_of_list_byte_of_string, parse_print_bits.
Defined.

Lemma fv_room_by_compute g :
  forallb (λ n, n <? u64_max)%N
    ((map_to_list (next_per_owner (fv_manifest g))).*2 ++ (map_to_list (next_snap (fv_manifest g))).*2)
    = true → room g.
Proof.
  rewrite forallb_forall. intros Hs.
  split; intros id n Hid; apply N.ltb_lt, Hs, list_elem_of_In, elem_of_app; [left|right];
    apply list_elem_of_fmap; exists (id, n); (split; [done|]); by apply elem_of_map_to_list.
Qed.

Definition calls : list vcall :=
  [VCreate "n1" "disk" 4; VWrite "n1/v1" 1 [x01; x02; x03]; VCreateSnapshot "n1/v1" "s"].
Definition step (g : t) (c : vcall) : t := (vexec c g).2.
Definition w : t := foldl step fresh_dir calls.

Ltac run := repeat (first [apply vrun_nil | apply vrun_cons; [by apply fv_room_by_compute; vm_compute|done|]]).

Lemma w_run : vault_run calls fresh_dir w.
Proof. run. Qed.

(** A disk on which the fsync of the manifest in the second [create] fails. *)
Definition failing : Fs :=
  mkFs ∅ (repeat None 15 ++ [Some (mkIoError 0 "disk full")]).
Definition f0 : t := mk (mkFs ∅ (drop 3 (fs_outcomes failing))) manifest_default.
Definition f1 : t := step f0 (VCreate "n1" "disk" 4).
Definition f2 : t := step f1 (VCreate "n1" "more" 2).
End FileVaultWitness.
#[export] Existing Instances FileVaultWitness.codec FileVaultWitness.codec_laws.

Lemma file_vault_refines_contract_witness :
  let c := VRestoreSnapshot "n1/v1@s1" in
  let g := FileVaultWitness.w in
  vault_spec c (vexec c g).1 (vs_abs g) (vs_abs (vexec c g).2) ∧ vs_inv (vexec c g).2 ∧
  FileVolumeStore.open_or_create (FileVolumeStore.fv_root g) = (Ok g, FileVolumeStore.fv_root g).
Proof.
  apply (file_vault_refines_contract _ _ _ FileVaultWitness.w_run).
  - by apply FileVaultWitness.fv_room_by_compute; vm_compute.
  - done.
Defined.

(** The second volume is in memory but its call failed: the reopened store has
    the first one only. *)
Lemma file_vault_durable_witness :
  size (volumes (FileVolumeStore.fv_manifest FileVaultWitness.f2)) = 2 ∧
  FileVolumeStore.open_or_create (good (fs_files (FileVolumeStore.fv_root FileVaultWitness.f2))) =
    (Ok (FileVolumeStore.mk (good (fs_files (FileVolumeStore.fv_root FileVaultWitness.f2)))
           (FileVolumeStore.fv_manifest FileVaultWitness.f1)),
     good (fs_files (FileVolumeStore.fv_root FileVaultWitness.f2))).
Proof.
  split; [by vm_compute|].
  apply (file_vault_durable FileVaultWitness.f2).
  pose proof (history_open FileVaultWitness.failing FileVaultWitness.f0 _ eq_refl eq_refl) as Hh0.
  pose proof (history_call (VCreate "n1" "disk" 4) _ _ Hh0) as Hh1.
  exact (history_call (VCreate "n1" "more" 2) _ _ Hh1).
Defined.

(** The hypotheses of [aliased_create_zeroes] hold of the store's own states:
    volumes of ["a:b"] and ["a_b"]. *)
Example aliased_owners :
  let g1 := FileVaultWitness.step fresh_dir (VCreate "a:b" "disk" 2) in
  let g2 := FileVaultWitness.step g1 (VWrite "a:b/v1" 0 [x01; x02]) in
  let g3 := FileVaultWitness.step g2 (VCreate "a_b" "other" 2) in
  vs_read g2 "a:b/v1" 0 2 = Ok [x01; x02] ∧ vs_read g3 "a:b/v1" 0 2 = Ok [x00; x00].
Proof. by vm_compute. Qed.
