(* ===== verification/Network.v ===== *)
(** * Network: [celvault::network]

    Virtual networks, NICs, security groups and load balancers: the records,
    the IPv4 blocks and their parser, the [NetworkStore] trait as a class of
    operations and the in-memory store.  An IPv4 address is its [u32]. *)
From S2P Require Import Prelude.
From S2P Require Import Text.
From S2P Require Import Errors.
From S2P Require Import Maps.

Abbreviation NetworkId := string (only parsing).
Abbreviation NicId := string (only parsing).
Abbreviation SecurityGroupId := string (only parsing).
Abbreviation LoadBalancerId := string (only parsing).
Abbreviation Ipv4Addr := N (only parsing).

Definition NET_MAX_NAME : N := 64.
Definition MAX_NICS_PER_NETWORK : N := 256.
Definition MAX_RULES_PER_GROUP : N := 32.
Definition MAX_BACKENDS_PER_LB : N := 32.

(** ** IPv4 addresses as text *)

(** One dotted group of [Ipv4Addr::from_str]: one to three digits, no leading
    zero, at most 255. *)
Definition parse_octet (s : string) : option N :=
  match s with
  | EmptyString => None
  | String c r =>
      if (3 <? len s)%N then None
      else if Ascii.eqb c "0" && negb (str_is_empty r) then None
      else parse_digits 8 0 s
  end.

Definition parse_ipv4 (s : string) : option Ipv4Addr :=
  match split_on "." s with
  | [a; b; c; d] =>
      a ← parse_octet a; b ← parse_octet b; c ← parse_octet c; d ← parse_octet d;
      Some (((a * 256 + b) * 256 + c) * 256 + d)%N
  | _ => None
  end.

Definition fmt_ipv4 (a : Ipv4Addr) : string :=
  fmt_u (a / 2 ^ 24) +:+ "." +:+ fmt_u (a / 2 ^ 16 mod 256) +:+ "."
  +:+ fmt_u (a / 2 ^ 8 mod 256) +:+ "." +:+ fmt_u (a mod 256).

(** ** CIDR blocks *)
Record Cidr4 := mkCidr4 {
  base : Ipv4Addr;
  prefix_len : N    (** u8 *)
}.

(** [!0u32 << (32 - prefix_len)]. *)
Definition mask (p : N) : N := N.land (N.shiftl u32_max (32 - p)) u32_max.

(** [Cidr4::parse]. *)
Definition cidr_parse (s : string) : CelResult Cidr4 :=
  '(ip, p) ← ok_or (split_once "/" s) (Invalid "cidr: missing '/'");
  ip ← ok_or (parse_ipv4 ip) (Invalid "cidr: bad ipv4");
  prefix_len ← ok_or (parse_uint 8 p) (Invalid "cidr: bad prefix");
  if (prefix_len =? 0)%N || (32 <=? prefix_len)%N
  then Err (Invalid "cidr: prefix must be in 1..32")
  else Ok (mkCidr4 (N.land ip (mask prefix_len)) prefix_len).

Definition capacity (c : Cidr4) : N :=
  saturating_sub (N.shiftl 1 (32 - prefix_len c) mod 2 ^ 32) 2.

Definition nth_host (c : Cidr4) (n : N) : option Ipv4Addr :=
  if (n =? 0)%N || (capacity c <? n)%N then None else Some (base c + n)%N.

Definition cidr_contains (c : Cidr4) (addr : Ipv4Addr) : bool :=
  let m := if (prefix_len c =? 0)%N then 0%N else mask (prefix_len c) in
  (N.land addr m =? base c)%N.

Definition fmt_cidr (c : Cidr4) : string :=
  fmt_ipv4 (base c) +:+ "/" +:+ fmt_u (prefix_len c).

(** ** Records *)
Record VirtualNetwork := mkVirtualNetwork {
  net_id : NetworkId;
  net_owner : string;
  net_name : string;
  net_cidr : Cidr4
}.

Record Nic := mkNic {
  nic_id : NicId;
  nic_network_id : NetworkId;
  nic_vm_id : N;        (** u32 *)
  nic_ip : Ipv4Addr;
  nic_mac : list N      (** six bytes *)
}.

Inductive Direction := Ingress | Egress.
Inductive L4Proto := Tcp | Udp | Icmp | Any.

Record SecurityRule := mkSecurityRule {
  rule_direction : Direction;
  rule_proto : L4Proto;
  rule_port_min : N;    (** u16 *)
  rule_port_max : N;
  rule_cidr : Cidr4;
  rule_allow : bool
}.

Record SecurityGroup := mkSecurityGroup {
  sg_id : SecurityGroupId;
  sg_owner : string;
  sg_name : string;
  sg_rules : list SecurityRule
}.

Inductive LbAlgo := RoundRobin | LeastConn.

Record LbBackend := mkLbBackend {
  be_vm_id : N;
  be_ip : Ipv4Addr;
  be_port : N
}.

Record LoadBalancer := mkLoadBalancer {
  lb_id : LoadBalancerId;
  lb_owner : string;
  lb_name : string;
  lb_network_id : NetworkId;
  lb_vip : Ipv4Addr;
  lb_frontend_port : N;
  lb_algo : LbAlgo;
  lb_backends : list LbBackend
}.

#[export] Instance Cidr4_eq_dec : EqDecision Cidr4.
Proof. solve_decision. Defined.
#[export] Instance VirtualNetwork_eq_dec : EqDecision VirtualNetwork.
Proof. solve_decision. Defined.
#[export] Instance Nic_eq_dec : EqDecision Nic.
Proof. solve_decision. Defined.

(** ** [LoadBalancer::pick] *)

(** The least-connection loop: [i] is the index of the head, [best] and
    [best_n] the running minimum. *)
Fixpoint least_loop {A} (backends : list A) (conns : list N) (i best : nat) (best_n : N) : nat :=
  match backends with
  | [] => best
  | _ :: bs =>
      let n := default 0%N (conns !! i) in
      if (n <? best_n)%N then least_loop bs conns (S i) i n
      else least_loop bs conns (S i) best best_n
  end.

Definition pick (lb : LoadBalancer) (tick : N) (least_conn : list N) : option nat :=
  match lb_backends lb with
  | [] => None
  | bs =>
      Some (match lb_algo lb with
            | RoundRobin => N.to_nat (tick mod N.of_nat (length bs))
            | LeastConn => least_loop bs least_conn 0 0 u32_max
            end)
  end.

(** ** The [NetworkStore] trait *)
Class NetworkStore (W : Type) := {
  ns_create_network : string → string → Cidr4 → st W CelError VirtualNetwork;
  ns_delete_network : NetworkId → st W CelError unit;
  ns_list_networks : W → list VirtualNetwork;
  ns_get_network : W → NetworkId → option VirtualNetwork;
  ns_attach_nic : NetworkId → N → option Ipv4Addr → st W CelError Nic;
  ns_detach_nic : NicId → st W CelError unit;
  ns_list_nics : W → list Nic;
  ns_create_security_group : string → string → list SecurityRule → st W CelError SecurityGroup;
  ns_delete_security_group : SecurityGroupId → st W CelError unit;
  ns_list_security_groups : W → list SecurityGroup;
  ns_create_load_balancer : string → string → NetworkId → Ipv4Addr → N → LbAlgo →
    list LbBackend → st W CelError LoadBalancer;
  ns_delete_load_balancer : LoadBalancerId → st W CelError unit;
  ns_list_load_balancers : W → list LoadBalancer
}.

(** ** [MemNetworkStore] *)
Module MemNetworkStore.

Record MemInner := mkMemInner {
  next_net : N;   (** u64 *)
  next_sg : N;
  next_lb : N;
  next_nic : gmap NetworkId N;    (** u32 values *)
  used_ips : gmap NetworkId (gmap Ipv4Addr NicId);
  networks : gmap NetworkId VirtualNetwork;
  nics : gmap NicId Nic;
  sgs : gmap SecurityGroupId SecurityGroup;
  lbs : gmap LoadBalancerId LoadBalancer
}.

Abbreviation M := (st MemInner CelError).

Definition new : MemInner := mkMemInner 0 0 0 ∅ ∅ ∅ ∅ ∅ ∅.

Definition set_nets (nn : N) (ns : gmap NetworkId VirtualNetwork) (cs : gmap NetworkId N)
    (us : gmap NetworkId (gmap Ipv4Addr NicId)) (g : MemInner) : MemInner :=
  mkMemInner nn (next_sg g) (next_lb g) cs us ns (nics g) (sgs g) (lbs g).
Definition set_nics (cs : gmap NetworkId N) (us : gmap NetworkId (gmap Ipv4Addr NicId))
    (ns : gmap NicId Nic) (g : MemInner) : MemInner :=
  mkMemInner (next_net g) (next_sg g) (next_lb g) cs us (networks g) ns (sgs g) (lbs g).
Definition set_sgs (n : N) (m : gmap SecurityGroupId SecurityGroup) (g : MemInner) : MemInner :=
  mkMemInner (next_net g) n (next_lb g) (next_nic g) (used_ips g) (networks g) (nics g) m (lbs g).
Definition set_lbs (n : N) (m : gmap LoadBalancerId LoadBalancer) (g : MemInner) : MemInner :=
  mkMemInner (next_net g) (next_sg g) n (next_nic g) (used_ips g) (networks g) (nics g) (sgs g) m.

Definition validate_name (name : string) : CelResult unit :=
  if str_is_empty name then Err (Invalid "name: empty")
  else if (NET_MAX_NAME <? len name)%N then Err (Invalid "name: too long")
  else Ok tt.

(** The 64-bit FNV-1a step of [make_mac]. *)
Definition fnv_step (h b : N) : N := wrapping_mul 64 (N.lxor h b) 0x100000001b3.

Fixpoint fnv (h : N) (s : string) : N :=
  match s with
  | EmptyString => h
  | String c s' => fnv (fnv_step h (byte_of c)) s'
  end.

Definition make_mac (network : NetworkId) (idx : N) : list N :=
  let h := fnv_step (fnv 0xcbf29ce484222325 network) idx in
  [2; N.land (N.shiftr h 32) 255; N.land (N.shiftr h 24) 255; N.land (N.shiftr h 16) 255;
   N.land (N.shiftr h 8) 255; N.land h 255]%N.

Definition network_id_of (owner : string) (n : N) : NetworkId := owner +:+ "/n" +:+ fmt_u n.
Definition nic_id_of (network : NetworkId) (n : N) : NicId := network +:+ "/nic" +:+ fmt_u n.
Definition sg_id_of (owner : string) (n : N) : SecurityGroupId := owner +:+ "/sg" +:+ fmt_u n.
Definition lb_id_of (owner : string) (n : N) : LoadBalancerId := owner +:+ "/lb" +:+ fmt_u n.

Definition create_network (owner name : string) (cidr : Cidr4) : M VirtualNetwork :=
  _ ← try (validate_name name);
  g ← get_st;
  let n := saturating_add 64 (next_net g) 1 in
  let id := network_id_of owner n in
  let net := mkVirtualNetwork id owner name cidr in
  _ ← put_st (set_nets n (<[id := net]> (networks g)) (<[id := 0%N]> (next_nic g))
                (<[id := ∅]> (used_ips g)) g);
  mret net.

Definition delete_network (id : NetworkId) : M unit :=
  g ← get_st;
  _ ← bail_if (match used_ips g !! id with
               | Some used => negb (bool_decide (used = ∅))
               | None => false
               end) (Invalid "network: NICs still attached");
  let g := set_nets (next_net g) (delete id (networks g)) (delete id (next_nic g))
             (delete id (used_ips g)) g in
  put_st (set_lbs (next_lb g)
            (map_retain (λ _ lb, negb (bool_decide (lb_network_id lb = id))) (lbs g)) g).

Definition list_networks (g : MemInner) : list VirtualNetwork := str_btree_values (networks g).
Definition get_network (g : MemInner) (id : NetworkId) : option VirtualNetwork := networks g !! id.

(** The linear scan of [attach_nic]: the first free host ordinal from [n], with
    [k] ordinals left. *)
Fixpoint scan_hosts (c : Cidr4) (used : gmap Ipv4Addr NicId) (n : N) (k : nat)
  : option Ipv4Addr :=
  match k with
  | O => None
  | S k' =>
      match nth_host c n with
      | Some addr =>
          match used !! addr with
          | None => Some addr
          | Some _ => scan_hosts c used (n + 1) k'
          end
      | None => scan_hosts c used (n + 1) k'
      end
  end.

(** The address choice of [attach_nic]. *)
Definition choose_ip (c : Cidr4) (used : gmap Ipv4Addr NicId) (ip : option Ipv4Addr)
  : CelResult Ipv4Addr :=
  match ip with
  | Some req =>
      if negb (cidr_contains c req) then Err (Invalid "attach_nic: ip outside network")
      else if bool_decide (is_Some (used !! req)) then Err (Invalid "attach_nic: ip already in use")
      else Ok req
  | None =>
      ok_or (scan_hosts c used 1 (N.to_nat (capacity c))) (Exhausted "attach_nic: CIDR exhausted")
  end.

Definition attach_nic (network_id : NetworkId) (vm_id : N) (ip : option Ipv4Addr) : M Nic :=
  g ← get_st;
  net ← try (ok_or (networks g !! network_id) (Invalid "attach_nic: unknown network"));
  let used := default ∅ (used_ips g !! network_id) in
  _ ← bail_if (MAX_NICS_PER_NETWORK <=? N.of_nat (size used))%N
        (Exhausted "attach_nic: per-network NIC cap");
  chosen ← try (choose_ip (net_cidr net) used ip);
  let counter := saturating_add 32 (default 0%N (next_nic g !! network_id)) 1 in
  let id := nic_id_of network_id counter in
  let nic := mkNic id network_id vm_id chosen (make_mac network_id counter) in
  _ ← put_st (set_nics (<[network_id := counter]> (next_nic g))
                (<[network_id := <[chosen := id]> used]> (used_ips g))
                (<[id := nic]> (nics g)) g);
  mret nic.

Definition detach_nic (id : NicId) : M unit :=
  g ← get_st;
  match nics g !! id with
  | Some nic =>
      let us := match used_ips g !! nic_network_id nic with
                | Some m => <[nic_network_id nic := delete (nic_ip nic) m]> (used_ips g)
                | None => used_ips g
                end in
      put_st (set_nics (next_nic g) us (delete id (nics g)) g)
  | None => mret tt
  end.

Definition list_nics (g : MemInner) : list Nic := str_btree_values (nics g).

Definition create_security_group (owner name : string) (rules : list SecurityRule)
  : M SecurityGroup :=
  _ ← try (validate_name name);
  _ ← bail_if (MAX_RULES_PER_GROUP <? N.of_nat (length rules))%N (Invalid "sg: too many rules");
  _ ← bail_if (existsb (λ r, rule_port_max r <? rule_port_min r)%N rules)
        (Invalid "sg: port_min > port_max");
  g ← get_st;
  let n := saturating_add 64 (next_sg g) 1 in
  let id := sg_id_of owner n in
  let sg := mkSecurityGroup id owner name rules in
  _ ← put_st (set_sgs n (<[id := sg]> (sgs g)) g);
  mret sg.

Definition delete_security_group (id : SecurityGroupId) : M unit :=
  modify (λ g, set_sgs (next_sg g) (delete id (sgs g)) g).
Definition list_security_groups (g : MemInner) : list SecurityGroup := str_btree_values (sgs g).

Definition create_load_balancer (owner name : string) (network_id : NetworkId) (vip : Ipv4Addr)
    (frontend_port : N) (algo : LbAlgo) (backends : list LbBackend) : M LoadBalancer :=
  _ ← try (validate_name name);
  _ ← bail_if (MAX_BACKENDS_PER_LB <? N.of_nat (length backends))%N
        (Invalid "lb: too many backends");
  g ← get_st;
  net ← try (ok_or (networks g !! network_id) (Invalid "lb: unknown network"));
  _ ← bail_if (negb (cidr_contains (net_cidr net) vip)) (Invalid "lb: vip outside network");
  _ ← bail_if (existsb (λ b, negb (cidr_contains (net_cidr net) (be_ip b))) backends)
        (Invalid "lb: backend ip outside network");
  let n := saturating_add 64 (next_lb g) 1 in
  let id := lb_id_of owner n in
  let lb := mkLoadBalancer id owner name network_id vip frontend_port algo backends in
  _ ← put_st (set_lbs n (<[id := lb]> (lbs g)) g);
  mret lb.

Definition delete_load_balancer (id : LoadBalancerId) : M unit :=
  modify (λ g, set_lbs (next_lb g) (delete id (lbs g)) g).
Definition list_load_balancers (g : MemInner) : list LoadBalancer := str_btree_values (lbs g).

#[export] Instance store : NetworkStore MemInner := {|
  ns_create_network := create_network;
  ns_delete_network := delete_network;
  ns_list_networks := list_networks;
  ns_get_network := get_network;
  ns_attach_nic := attach_nic;
  ns_detach_nic := detach_nic;
  ns_list_nics := list_nics;
  ns_create_security_group := create_security_group;
  ns_delete_security_group := delete_security_group;
  ns_list_security_groups := list_security_groups;
  ns_create_load_balancer := create_load_balancer;
  ns_delete_load_balancer := delete_load_balancer;
  ns_list_load_balancers := list_load_balancers
|}.
End MemNetworkStore.
