(* ===== verification/NetworkProofs.v ===== *)
(** * NetworkProofs: CIDR arithmetic, address allocation and the store invariant *)
From S2P Require Import Prelude.
From S2P Require Import Text.
From S2P Require Import Errors.
From S2P Require Import Maps.
From S2P Require Import Network.
Local Open Scope N_scope.

(** ** CIDR arithmetic *)
Definition host_bits (c : Cidr4) : N := 32 - prefix_len c.

(** What [cidr_parse] produces: a prefix in [1..31] and a base with its host
    bits clear. *)
Definition cidr_ok (c : Cidr4) : Prop :=
  0 < prefix_len c < 32 ∧ fits 32 (base c) ∧ (2 ^ host_bits c | base c).

Lemma umax_ones w : umax w = N.ones w.
Proof. unfold umax. rewrite N.ones_equiv. lia. Qed.

Lemma land_mask a p : fits 32 a → p ≤ 32 → N.land a (mask p) = a / 2 ^ (32 - p) * 2 ^ (32 - p).
Proof.
  intros Ha Hp. unfold mask. rewrite !umax_ones. apply N.bits_inj. intros i.
  rewrite <-N.shiftr_div_pow2, <-N.shiftl_mul_pow2, !N.land_spec.
  destruct (N.ltb_spec i 32) as [Hi|Hi].
  - rewrite (N.ones_spec_low 32 i) by lia. rewrite andb_true_r.
    destruct (N.ltb_spec i (32 - p)) as [Hl|Hl].
    + by rewrite !N.shiftl_spec_low, andb_false_r.
    + rewrite !N.shiftl_spec_high' by lia. rewrite N.ones_spec_low by lia.
      rewrite andb_true_r, N.shiftr_spec'. f_equal. lia.
  - rewrite (N.ones_spec_high 32 i) by lia. rewrite !andb_false_r.
    rewrite N.shiftl_spec_high' by lia. rewrite N.shiftr_spec'.
    replace (i - (32 - p) + (32 - p)) with i by lia. symmetry.
    destruct (decide (a = 0)) as [->|]; [apply N.bits_0|].
    apply N.bits_above_log2. unfold fits in Ha.
    assert (N.log2 a < 32) by (apply N.log2_lt_pow2; lia). lia.
Qed.

Lemma host_bits_bound c : cidr_ok c → 1 ≤ host_bits c ≤ 31.
Proof. intros [? _]. unfold host_bits. lia. Qed.

Lemma pow_host_bits c : cidr_ok c → 2 * 2 ^ (31 - host_bits c) * 2 ^ host_bits c = 2 ^ 32.
Proof.
  intros Hc%host_bits_bound. rewrite <-N.pow_succ_r', <-N.pow_add_r. f_equal. lia.
Qed.

(** The last address of a block is a [u32]: [nth_host] does not overflow. *)
Lemma cidr_top c : cidr_ok c → base c + 2 ^ host_bits c ≤ 2 ^ 32.
Proof.
  intros Hc. pose proof (pow_host_bits c Hc) as Hpow.
  destruct Hc as (_&Hf&[q Hq]). unfold fits in Hf. rewrite Hq in *.
  set (P := 2 ^ host_bits c) in *. set (R := 2 ^ (31 - host_bits c)) in *.
  assert (0 < P) by (unfold P; pose proof (N.pow_nonzero 2 (host_bits c)); lia).
  rewrite <-Hpow in *. assert (q < 2 * R) by (eapply N.mul_lt_mono_pos_r; eauto). nia.
Qed.

Lemma cidr_contains_spec c a :
  cidr_ok c → fits 32 a → cidr_contains c a = true ↔ base c ≤ a < base c + 2 ^ host_bits c.
Proof.
  intros Hc Ha. pose proof Hc as ((?&?)&_&[q Hq]). unfold cidr_contains.
  rewrite (proj2 (N.eqb_neq (prefix_len c) 0)) by lia.
  rewrite land_mask by (done || lia). fold (host_bits c).
  set (P := 2 ^ host_bits c) in *.
  assert (P ≠ 0) by (by apply N.pow_nonzero).
  rewrite N.eqb_eq, Hq, N.mul_cancel_r by done.
  pose proof (N.div_mod a P ltac:(done)). pose proof (N.mod_lt a P ltac:(done)).
  generalize dependent (a mod P). generalize dependent (a / P). intros d r Hr Hlt.
  split; [intros <-; nia|]. intros. nia.
Qed.

Lemma capacity_spec c : cidr_ok c → capacity c = 2 ^ host_bits c - 2.
Proof.
  intros Hc. pose proof (host_bits_bound c Hc). unfold capacity, saturating_sub.
  fold (host_bits c). rewrite N.shiftl_1_l, N.mod_small; [done|].
  apply N.pow_lt_mono_r; lia.
Qed.

(** The usable hosts are inside the block, and are neither the network nor the
    broadcast address. *)
Lemma nth_host_spec c n a :
  cidr_ok c → nth_host c n = Some a ↔
  1 ≤ n ∧ n ≤ capacity c ∧ a = base c + n.
Proof.
  intros Hc. unfold nth_host.
  destruct (N.eqb_spec n 0), (N.ltb_spec (capacity c) n); simpl; split; intros; simplify_eq;
    try (repeat split; lia); try lia.
  f_equal. lia.
Qed.

Lemma nth_host_in c n a :
  cidr_ok c → nth_host c n = Some a →
  fits 32 a ∧ cidr_contains c a = true ∧ base c < a < base c + 2 ^ host_bits c - 1.
Proof.
  intros Hc (?&Hn&->)%(nth_host_spec c n a Hc). rewrite capacity_spec in Hn by done.
  pose proof (cidr_top c Hc). assert (fits 32 (base c + n)) by (unfold fits; lia).
  split; [done|]. rewrite cidr_contains_spec by done. lia.
Qed.

(** *** Text round trip *)
Lemma split_on_sep c s t :
  contains_char c s = false → split_on c (s +:+ String c EmptyString +:+ t) = s :: split_on c t.
Proof. apply split_on_app. Qed.

Lemma N_forall_lt (P : N → bool) (k : nat) :
  forallb (λ i, P (N.of_nat i)) (seq 0 k) = true → ∀ n, n < N.of_nat k → P n = true.
Proof.
  rewrite forallb_forall. intros HP n Hn. rewrite <-(N2Nat.id n). apply HP, in_seq. lia.
Qed.

Lemma parse_octet_fmt n : n < 256 → parse_octet (fmt_u n) = Some n.
Proof.
  intros Hn.
  pose proof (N_forall_lt (λ n, bool_decide (parse_octet (fmt_u n) = Some n)) 256) as Hall.
  apply (bool_decide_eq_true_1 (parse_octet (fmt_u n) = Some n)).
  apply Hall; [by vm_compute|done].
Qed.

Lemma parse_fmt_ipv4 a : fits 32 a → parse_ipv4 (fmt_ipv4 a) = Some a.
Proof.
  intros Ha. unfold parse_ipv4, fmt_ipv4.
  do 3 rewrite split_on_sep by (by apply fmt_u_no_char).
  rewrite split_on_no_char by (by apply fmt_u_no_char).
  unfold fits in Ha.
  rewrite !parse_octet_fmt; try (apply N.mod_lt; done); [|apply N.Div0.div_lt_upper_bound; lia].
  simpl. f_equal.
  replace (2 ^ 24) with (256 * (256 * 256)) by done. replace (2 ^ 16) with (256 * 256) by done.
  replace (2 ^ 8) with 256 by done.
  rewrite <-!N.Div0.div_div. 
  pose proof (N.div_mod a 256 ltac:(done)). pose proof (N.div_mod (a / 256) 256 ltac:(done)).
  pose proof (N.div_mod (a / 256 / 256) 256 ltac:(done)). lia.
Qed.

Lemma parse_digits_fits w acc s n : fits w acc → parse_digits w acc s = Some n → fits w n.
Proof.
  revert acc. induction s as [|c s IH]; intros acc Hacc; cbn [parse_digits].
  - by intros [= ->].
  - destruct (digit_of c) as [d|]; [|done]. cbn [mbind option_bind].
    destruct (checked_mul w acc 10) as [m|]; [|done]. cbn [mbind option_bind].
    destruct (checked_add w m d) as [a|] eqn:Ea; [|done]. cbn [mbind option_bind].
    apply checked_Some in Ea as [-> ?]. by apply IH.
Qed.

Lemma parse_octet_fits s n : parse_octet s = Some n → n < 256.
Proof.
  unfold parse_octet. repeat case_match; try done. by apply parse_digits_fits.
Qed.

Lemma parse_ipv4_fits s a : parse_ipv4 s = Some a → fits 32 a.
Proof.
  unfold parse_ipv4. repeat case_match; try done.
  intros Hp. repeat (apply bind_Some in Hp as (?&?%parse_octet_fits&Hp)). simplify_eq.
  unfold fits. change (2 ^ 32) with 4294967296. lia.
Qed.

Lemma cidr_parse_ok s c : cidr_parse s = Ok c → cidr_ok c.
Proof.
  unfold cidr_parse. st_unfold. destruct (split_once "/" s) as [[ip p]|]; [|done].
  destruct (parse_ipv4 ip) as [a|] eqn:Ea; [|done]. apply parse_ipv4_fits in Ea.
  destruct (parse_uint 8 p) as [n|]; [|done].
  destruct (N.eqb_spec n 0), (N.leb_spec 32 n); simpl; try done. intros [= <-].
  unfold cidr_ok, host_bits. simpl. split; [lia|].
  rewrite land_mask by (done || lia). split; [|by exists (a / 2 ^ (32 - n))].
  unfold fits in *. pose proof (N.Div0.mul_div_le a (2 ^ (32 - n))). lia.
Qed.

Lemma cidr_mask_base c : cidr_ok c → N.land (base c) (mask (prefix_len c)) = base c.
Proof.
  intros (?&?&[q Hq]). rewrite land_mask by (done || lia). fold (host_bits c). rewrite Hq.
  rewrite N.div_mul; [done|]. by apply N.pow_nonzero.
Qed.

(** The text of a block has no ['/'] before the separator. *)
Lemma fmt_ipv4_no_slash a : contains_char "/" (fmt_ipv4 a) = false.
Proof.
  unfold fmt_ipv4. rewrite !contains_char_app, !fmt_u_no_char by done. done.
Qed.

(** ** The store invariant *)
Module MemNetInv.
Import MemNetworkStore.

(** An address of a network and the NIC that holds it. *)
Definition ip_of (g : MemInner) (nid : NetworkId) (ip : N) : option NicId :=
  used_ips g !! nid ≫= (.!! ip).

Record inv (g : MemInner) : Prop := {
  inv_net : ∀ nid net, networks g !! nid = Some net →
    net_id net = nid ∧ cidr_ok (net_cidr net) ∧
    ∃ o n, nid = network_id_of o n ∧ n ≤ next_net g;
  inv_used : ∀ nid m, used_ips g !! nid = Some m →
    is_Some (networks g !! nid) ∧ N.of_nat (size m) ≤ MAX_NICS_PER_NETWORK;
  inv_index : ∀ nid ip k, ip_of g nid ip = Some k ↔
    ∃ nic, nics g !! k = Some nic ∧ nic_network_id nic = nid ∧ nic_ip nic = ip;
  inv_nic : ∀ k nic, nics g !! k = Some nic →
    nic_id nic = k ∧ fits 32 (nic_ip nic) ∧
    (∃ net, networks g !! nic_network_id nic = Some net ∧
       cidr_contains (net_cidr net) (nic_ip nic) = true) ∧
    ∃ c, k = nic_id_of (nic_network_id nic) c ∧ c ≤ default 0 (next_nic g !! nic_network_id nic);
  inv_lb : ∀ k lb, lbs g !! k = Some lb →
    ∃ net, networks g !! lb_network_id lb = Some net ∧
      cidr_contains (net_cidr net) (lb_vip lb) = true ∧
      Forall (λ b, cidr_contains (net_cidr net) (be_ip b) = true) (lb_backends lb)
}.

(** The id counters have not run out. *)
Definition room (g : MemInner) : Prop :=
  next_net g < u64_max ∧ ∀ nid n, next_nic g !! nid = Some n → n < u32_max.

Lemma nic_id_inj n1 c1 n2 c2 : nic_id_of n1 c1 = nic_id_of n2 c2 → n1 = n2 ∧ c1 = c2.
Proof.
  unfold nic_id_of. change ("/nic" +:+ ?s) with (String "/" ("nic" +:+ s)).
  intros [-> He]%app_last_sep_inj.
  - split; [done|]. by apply (inj (String.append "nic")), fmt_u_inj in He.
  - rewrite contains_char_app, fmt_u_no_char by done. done.
  - rewrite contains_char_app, fmt_u_no_char by done. done.
Qed.

Lemma network_id_inj n1 c1 n2 c2 : network_id_of n1 c1 = network_id_of n2 c2 → n1 = n2 ∧ c1 = c2.
Proof.
  unfold network_id_of. change ("/n" +:+ ?s) with (String "/" ("n" +:+ s)).
  intros [-> He]%app_last_sep_inj.
  - split; [done|]. by apply (inj (String.append "n")), fmt_u_inj in He.
  - rewrite contains_char_app, fmt_u_no_char by done. done.
  - rewrite contains_char_app, fmt_u_no_char by done. done.
Qed.

Lemma net_inv_new : inv new.
Proof.
  split; simpl.
  - by intros ? ? ?%lookup_empty_Some.
  - by intros ? ? ?%lookup_empty_Some.
  - intros nid ip k. unfold ip_of. simpl. rewrite lookup_empty. simpl. split; [done|].
    by intros (?&?%lookup_empty_Some&_).
  - by intros ? ? ?%lookup_empty_Some.
  - by intros ? ? ?%lookup_empty_Some.
Qed.

(** A block that holds no address is free of NICs. *)
Lemma no_nic_on g nid :
  inv g → used_ips g !! nid = None ∨ used_ips g !! nid = Some ∅ →
  ∀ k nic, nics g !! k = Some nic → nic_network_id nic ≠ nid.
Proof.
  intros Hi Hu k nic Hk <-. pose proof (inv_index _ Hi (nic_network_id nic) (nic_ip nic) k) as Hx.
  assert (ip_of g (nic_network_id nic) (nic_ip nic) = Some k) as Hip by (apply Hx; eauto).
  unfold ip_of in Hip. destruct Hu as [Hu|Hu]; rewrite Hu in Hip; simpl in Hip; [done|].
  by rewrite lookup_empty in Hip.
Qed.

Lemma fresh_network g o :
  inv g → next_net g < u64_max →
  networks g !! network_id_of o (saturating_add 64 (next_net g) 1) = None ∧
  saturating_add 64 (next_net g) 1 = next_net g + 1.
Proof.
  intros Hi Hr. unfold saturating_add. rewrite N.min_l by lia. split; [|done].
  destruct (networks g !! _) as [net|] eqn:E; [|done].
  apply (inv_net _ Hi) in E as (_&_&o'&n&He&Hn). apply network_id_inj in He as [-> <-]. lia.
Qed.

Lemma used_None g nid : inv g → networks g !! nid = None → used_ips g !! nid = None.
Proof.
  intros Hi Hn. destruct (used_ips g !! nid) as [m|] eqn:E; [|done].
  apply (inv_used _ Hi) in E as [[? ?] _]. congruence.
Qed.

Lemma inv_create_network g o name c :
  inv g → room g → cidr_ok c → inv (create_network o name c g).2.
Proof.
  intros Hi [Hr _] Hc. unfold create_network. st_unfold.
  destruct (validate_name name) as [[]|e]; simpl; [|done].
  destruct (fresh_network g o Hi Hr) as [Hf Hs]. rewrite Hs in *.
  set (id := network_id_of o (next_net g + 1)) in *.
  pose proof (used_None _ _ Hi Hf) as Hu.
  assert (∀ k nic, nics g !! k = Some nic → nic_network_id nic ≠ id) as Hno
    by (apply no_nic_on; auto).
  split; simpl.
  - intros nid net [[<- <-]|[Hne Hn]]%lookup_insert_Some; simpl.
    + split; [done|]. split; [done|]. exists o, (next_net g + 1). split; [done|lia].
    + apply (inv_net _ Hi) in Hn as (?&?&o'&n&?&?). split; [done|]. split; [done|].
      exists o', n. split; [done|lia].
  - intros nid m [[<- <-]|[Hne Hn]]%lookup_insert_Some; simpl.
    + rewrite lookup_insert_eq, map_size_empty. split; [done|]. by apply N.leb_le.
    + rewrite lookup_insert_ne by done. by apply (inv_used _ Hi).
  - intros nid ip k. unfold ip_of. simpl. rewrite <-(inv_index _ Hi). unfold ip_of.
    destruct (decide (nid = id)) as [->|Hne].
    + rewrite lookup_insert_eq, Hu. simpl. by rewrite lookup_empty.
    + by rewrite lookup_insert_ne.
  - intros k nic Hk. pose proof (Hno _ _ Hk). rewrite !lookup_insert_ne by done.
    by apply (inv_nic _ Hi).
  - intros k lb Hk. destruct (inv_lb _ Hi _ _ Hk) as (net&Hn&?). exists net.
    rewrite lookup_insert_ne; [done|]. congruence.
Qed.

Lemma inv_delete_network g id : inv g → inv (delete_network id g).2.
Proof.
  intros Hi. unfold delete_network. st_unfold.
  destruct (match used_ips g !! id with Some u => negb (bool_decide (u = ∅)) | None => false end)
    eqn:Hb; simpl; [done|].
  assert (∀ k nic, nics g !! k = Some nic → nic_network_id nic ≠ id) as Hno.
  { apply no_nic_on; [done|]. destruct (used_ips g !! id); [right|by left].
    apply negb_false_iff, bool_decide_eq_true in Hb. by subst. }
  split; simpl.
  - intros nid net [_ Hn]%lookup_delete_Some. by apply (inv_net _ Hi).
  - intros nid m [Hne Hn]%lookup_delete_Some. rewrite lookup_delete_ne by done.
    by apply (inv_used _ Hi).
  - intros nid ip k. unfold ip_of. simpl. destruct (decide (nid = id)) as [->|Hne].
    + rewrite lookup_delete_eq. simpl. split; [done|]. intros (nic&Hk&Hn&_).
      by destruct (Hno _ _ Hk).
    + rewrite lookup_delete_ne by done. apply (inv_index _ Hi).
  - intros k nic Hk. pose proof (Hno _ _ Hk). rewrite !lookup_delete_ne by done.
    by apply (inv_nic _ Hi).
  - intros k lb Hk. rewrite map_retain_lookup in Hk. destruct Hk as [Hk Hne].
    apply negb_true_iff, bool_decide_eq_false in Hne. simpl in Hne.
    rewrite lookup_delete_ne by done. by eapply (inv_lb _ Hi).
Qed.

Lemma scan_hosts_Some c used n k a :
  scan_hosts c used n k = Some a → used !! a = None ∧ ∃ i, nth_host c i = Some a.
Proof.
  revert n. induction k as [|k IH]; intros n; simpl; [done|].
  destruct (nth_host c n) as [b|] eqn:Eb; [|apply IH].
  destruct (used !! b) eqn:Eu; [apply IH|]. intros [= <-]. eauto.
Qed.

(** The chosen address is free and lies in the block. *)
Lemma choose_ip_Ok c used req a :
  cidr_ok c → (∀ r, req = Some r → fits 32 r) → choose_ip c used req = Ok a →
  used !! a = None ∧ fits 32 a ∧ cidr_contains c a = true.
Proof.
  intros Hc Hreq. unfold choose_ip. destruct req as [r|].
  - destruct (cidr_contains c r) eqn:Ec; simpl; [|done].
    case_bool_decide as Hu; [done|]. intros [= <-]. rewrite eq_None_not_Some. auto.
  - intros Ha%ok_or_Ok. destruct (scan_hosts_Some _ _ _ _ _ Ha) as [Hu [i Hi]].
    destruct (nth_host_in c i a Hc Hi) as (?&?&_). auto.
Qed.

Lemma inv_attach_nic g nid vm req :
  inv g → room g → (∀ r, req = Some r → fits 32 r) → inv (attach_nic nid vm req g).2.
Proof.
  intros Hi [_ Hr] Hreq. unfold attach_nic. st_unfold.
  destruct (networks g !! nid) as [net|] eqn:En; simpl; [|done].
  destruct (inv_net _ Hi _ _ En) as (_&Hc&_).
  set (used := default ∅ (used_ips g !! nid)).
  destruct (N.leb_spec MAX_NICS_PER_NETWORK (N.of_nat (size used))) as [|Hsz]; simpl; [done|].
  destruct (choose_ip (net_cidr net) used req) as [a|e] eqn:Ea; simpl; [|done].
  apply choose_ip_Ok in Ea as (Hfree&Hfit&Hin); [|done|done].
  set (old := default 0 (next_nic g !! nid)).
  assert (saturating_add 32 old 1 = old + 1) as ->.
  { unfold saturating_add. apply N.min_l. unfold old. destruct (next_nic g !! nid) eqn:E; simpl.
    - apply Hr in E. lia.
    - by apply N.leb_le. }
  set (id := nic_id_of nid (old + 1)).
  assert (nics g !! id = None) as Hnew.
  { destruct (nics g !! id) as [nic|] eqn:E; [|done].
    apply (inv_nic _ Hi) in E as (_&_&_&c&He&Hle). apply nic_id_inj in He as [Hn Hold].
    rewrite <-Hn in Hle. fold old in Hle. lia. }
  split; simpl.
  - intros nid' net' Hn. destruct (inv_net _ Hi _ _ Hn) as (?&?&?). done.
  - intros nid' m [[<- <-]|[Hne Hm]]%lookup_insert_Some; [|by apply (inv_used _ Hi)].
    split; [done|]. rewrite map_size_insert_None by done. lia.
  - intros nid' ip k. unfold ip_of. simpl. destruct (decide (nid' = nid)) as [->|Hne].
    + rewrite lookup_insert_eq. simpl.
      assert (used !! ip = ip_of g nid ip) as Hu.
      { unfold used, ip_of. by destruct (used_ips g !! nid); simpl; rewrite ?lookup_empty. }
      destruct (decide (ip = a)) as [->|Hia].
      * rewrite lookup_insert_eq. split.
        -- intros [= <-]. rewrite lookup_insert_eq. by eexists.
        -- intros (nic&Hn&Hnid&Hip).
           apply lookup_insert_Some in Hn as [[<- <-]|[Hk Hn]]; [done|].
           assert (ip_of g nid a = Some k) as Hx
             by (apply (inv_index _ Hi); eauto).
           congruence.
      * rewrite lookup_insert_ne, Hu, (inv_index _ Hi) by done. split.
        -- intros (nic&Hk&?&?). exists nic. rewrite lookup_insert_ne; [done|congruence].
        -- intros (nic&Hn&?&?).
           apply lookup_insert_Some in Hn as [[<- <-]|[Hk Hn]]; [done|eauto].
    + rewrite lookup_insert_ne by done. change (used_ips g !! nid' ≫= _) with (ip_of g nid' ip).
      rewrite (inv_index _ Hi). split.
      * intros (nic&Hk&?&?). exists nic. rewrite lookup_insert_ne; [done|congruence].
      * intros (nic&Hn&?&?).
        apply lookup_insert_Some in Hn as [[<- <-]|[Hk Hn]]; [done|eauto].
  - intros k nic [[<- <-]|[Hk Hn]]%lookup_insert_Some; simpl.
    + split; [done|]. split; [done|]. split; [by exists net|].
      rewrite lookup_insert_eq. exists (old + 1). by split.
    + destruct (inv_nic _ Hi _ _ Hn) as (?&?&?&c&?&Hle). split; [done|]. split; [done|].
      split; [done|]. exists c. split; [done|].
      destruct (decide (nic_network_id nic = nid)) as [He|Hne].
      * rewrite He in Hle. rewrite He, lookup_insert_eq. fold old in Hle. simpl. lia.
      * by rewrite lookup_insert_ne.
  - intros k lb Hk. by eapply (inv_lb _ Hi).
Qed.

Lemma inv_detach_nic g id : inv g → inv (detach_nic id g).2.
Proof.
  intros Hi. unfold detach_nic. st_unfold. destruct (nics g !! id) as [nic|] eqn:En; simpl; [|done].
  destruct (inv_nic _ Hi _ _ En) as (_&_&_&_).
  assert (ip_of g (nic_network_id nic) (nic_ip nic) = Some id) as Hip
    by (apply (inv_index _ Hi); eauto).
  unfold ip_of in Hip. destruct (used_ips g !! nic_network_id nic) as [m|] eqn:Em; [|done].
  simpl in Hip. split; simpl.
  - apply (inv_net _ Hi).
  - intros nid m' [[<- <-]|[Hne Hm]]%lookup_insert_Some; [|by apply (inv_used _ Hi)].
    destruct (inv_used _ Hi _ _ Em) as [? ?]. split; [done|].
    rewrite map_size_delete_Some by done. lia.
  - intros nid ip k. unfold ip_of. simpl. destruct (decide (nid = nic_network_id nic)) as [->|Hne].
    + rewrite lookup_insert_eq. simpl.
      assert (∀ ip, m !! ip = ip_of g (nic_network_id nic) ip) as Hm
        by (intros; unfold ip_of; by rewrite Em).
      destruct (decide (ip = nic_ip nic)) as [->|Hne].
      * rewrite lookup_delete_eq. split; [done|].
        intros (nic'&[Hk Hn]%lookup_delete_Some&Hnid&Hnip).
        assert (ip_of g (nic_network_id nic) (nic_ip nic) = Some k) as Hx
          by (apply (inv_index _ Hi); eauto).
        rewrite <-Hm in Hx. congruence.
      * rewrite lookup_delete_ne, Hm, (inv_index _ Hi) by done. split.
        -- intros (nic'&Hk&?&?). exists nic'. rewrite lookup_delete_ne; [done|congruence].
        -- intros (nic'&[Hk Hn]%lookup_delete_Some&?&?). eauto.
    + rewrite lookup_insert_ne by done. change (used_ips g !! nid ≫= _) with (ip_of g nid ip).
      rewrite (inv_index _ Hi). split.
      * intros (nic'&Hk&?&?). exists nic'. rewrite lookup_delete_ne; [done|congruence].
      * intros (nic'&[Hk Hn]%lookup_delete_Some&?&?). eauto.
  - intros k nic' [_ Hk]%lookup_delete_Some. by apply (inv_nic _ Hi).
  - intros k lb Hk. by eapply (inv_lb _ Hi).
Qed.

(** Security groups touch nothing the invariant speaks of. *)
Lemma inv_set_sgs g n m : inv g → inv (set_sgs n m g).
Proof. intros Hi. by destruct Hi. Qed.

Lemma inv_create_load_balancer g o name nid vip port algo bs :
  inv g → inv (create_load_balancer o name nid vip port algo bs g).2.
Proof.
  intros Hi. unfold create_load_balancer. st_unfold.
  destruct (validate_name name) as [[]|e]; simpl; [|done].
  destruct (MAX_BACKENDS_PER_LB <? _); simpl; [done|].
  destruct (networks g !! nid) as [net|] eqn:En; simpl; [|done].
  destruct (cidr_contains (net_cidr net) vip) eqn:Ev; simpl; [|done].
  destruct (existsb _ bs) eqn:Eb; simpl; [done|].
  destruct Hi as [? ? ? ? Hlb]. split; simpl; try done.
  intros k lb [[<- <-]|[Hk Hn]]%lookup_insert_Some; [|by eapply Hlb].
  exists net. simpl. split; [done|]. split; [done|]. apply Forall_forall. intros b Hb.
  destruct (cidr_contains (net_cidr net) (be_ip b)) eqn:Ec; [done|].
  rewrite <-not_true_iff_false, existsb_exists in Eb. destruct Eb. exists b.
  rewrite <-list_elem_of_In, Ec. done.
Qed.

Lemma inv_delete_load_balancer g id : inv g → inv (delete_load_balancer id g).2.
Proof.
  intros [? ? ? ? Hlb]. split; simpl; try done.
  intros k lb [_ Hk]%lookup_delete_Some. by eapply Hlb.
Qed.

End MemNetInv.

(** ** Histories *)
Inductive net_call :=
| NCreate (owner name : string) (c : Cidr4)
| NDelete (id : NetworkId)
| NAttach (id : NetworkId) (vm : N) (ip : option Ipv4Addr)
| NDetach (id : NicId)
| NSgCreate (owner name : string) (rules : list SecurityRule)
| NSgDelete (id : SecurityGroupId)
| NLbCreate (owner name : string) (id : NetworkId) (vip port : N) (algo : LbAlgo)
    (bs : list LbBackend)
| NLbDelete (id : LoadBalancerId).

(** The state after a call of the trait, whatever it returned. *)
Definition net_step {W} `{NetworkStore W} (c : net_call) (g : W) : W :=
  match c with
  | NCreate o n c => (ns_create_network o n c g).2
  | NDelete id => (ns_delete_network id g).2
  | NAttach id vm ip => (ns_attach_nic id vm ip g).2
  | NDetach id => (ns_detach_nic id g).2
  | NSgCreate o n rs => (ns_create_security_group o n rs g).2
  | NSgDelete id => (ns_delete_security_group id g).2
  | NLbCreate o n id vip port algo bs => (ns_create_load_balancer o n id vip port algo bs g).2
  | NLbDelete id => (ns_delete_load_balancer id g).2
  end.

(** Arguments of their machine types; blocks as [Cidr4::parse] makes them. *)
Definition net_call_ok (c : net_call) : Prop :=
  match c with
  | NCreate _ _ c => cidr_ok c
  | NAttach _ _ (Some ip) => fits 32 ip
  | _ => True
  end.

#[export] Existing Instance MemNetworkStore.store.

Inductive net_run : list net_call → MemNetworkStore.MemInner → MemNetworkStore.MemInner → Prop :=
| nrun_nil g : net_run [] g g
| nrun_cons c cs g g' :
    MemNetInv.room g → net_call_ok c → net_run cs (net_step c g) g' → net_run (c :: cs) g g'.

Lemma net_step_inv c g :
  MemNetInv.inv g → MemNetInv.room g → net_call_ok c → MemNetInv.inv (net_step c g).
Proof.
  intros Hi Hr Hc. destruct c as [o n c|id|id vm ip|id|o n rs|id|o n id vip port algo bs|id]; simpl.
  - by apply MemNetInv.inv_create_network.
  - by apply MemNetInv.inv_delete_network.
  - apply MemNetInv.inv_attach_nic; [done|done|]. intros r ->. done.
  - by apply MemNetInv.inv_detach_nic.
  - unfold MemNetworkStore.create_security_group. st_unfold.
    destruct (MemNetworkStore.validate_name n) as [[]|]; simpl; [|done].
    destruct (MAX_RULES_PER_GROUP <? _); simpl; [done|].
    destruct (existsb _ rs); simpl; [done|]. by apply MemNetInv.inv_set_sgs.
  - by apply MemNetInv.inv_set_sgs.
  - by apply MemNetInv.inv_create_load_balancer.
  - by apply MemNetInv.inv_delete_load_balancer.
Qed.

Lemma net_run_inv cs g g' : net_run cs g g' → MemNetInv.inv g → MemNetInv.inv g'.
Proof. induction 1 as [|c cs g g' Hr Hc _ IH]; intros Hi; [done|]. by apply IH, net_step_inv. Qed.

(** ** Properties *)

(** C28: addresses are never shared.  After any history of the in-memory
    network store (creations, deletions, attachments, detachments, in any
    order, failing or not), every NIC sits on a network that exists, its
    address lies in that network's block, at most
    [MAX_NICS_PER_NETWORK] addresses of a network are taken, and two NICs of
    one network with the same address are the same NIC. *)
Theorem nic_addresses_unique cs g :
  net_run cs MemNetworkStore.new g →
  (∀ k nic, MemNetworkStore.nics g !! k = Some nic →
     nic_id nic = k ∧
     ∃ net, MemNetworkStore.get_network g (nic_network_id nic) = Some net ∧
       cidr_contains (net_cidr net) (nic_ip nic) = true) ∧
  (∀ k1 k2 n1 n2, MemNetworkStore.nics g !! k1 = Some n1 → MemNetworkStore.nics g !! k2 = Some n2 →
     nic_network_id n1 = nic_network_id n2 → nic_ip n1 = nic_ip n2 → k1 = k2) ∧
  (∀ nid m, MemNetworkStore.used_ips g !! nid = Some m →
     N.of_nat (size m) ≤ MAX_NICS_PER_NETWORK).
Proof.
  intros Hrun. assert (MemNetInv.inv g) as Hi by (eapply net_run_inv; [done|apply MemNetInv.net_inv_new]).
  split; [|split].
  - intros k nic Hk. destruct (MemNetInv.inv_nic _ Hi _ _ Hk) as (?&_&?&_). done.
  - intros k1 k2 n1 n2 H1 H2 Hn Hip.
    assert (MemNetInv.ip_of g (nic_network_id n1) (nic_ip n1) = Some k1)
      by (apply (MemNetInv.inv_index _ Hi); eauto).
    assert (MemNetInv.ip_of g (nic_network_id n1) (nic_ip n1) = Some k2)
      by (apply (MemNetInv.inv_index _ Hi); eauto).
    congruence.
  - intros nid m Hm. by apply (MemNetInv.inv_used _ Hi) in Hm as [_ ?].
Qed.

(** A load balancer never outlives its network nor points outside it:
    after any history, the network of every load balancer exists, and its
    front-end address and the address of each backend lie in that network's
    block. *)
Theorem load_balancers_inside cs g k lb :
  net_run cs MemNetworkStore.new g → MemNetworkStore.lbs g !! k = Some lb →
  ∃ net, MemNetworkStore.get_network g (lb_network_id lb) = Some net ∧
    cidr_contains (net_cidr net) (lb_vip lb) = true ∧
    Forall (λ b, cidr_contains (net_cidr net) (be_ip b) = true) (lb_backends lb).
Proof.
  intros Hrun Hk. assert (MemNetInv.inv g) as Hi by (eapply net_run_inv; [done|apply MemNetInv.net_inv_new]).
  by apply (MemNetInv.inv_lb _ Hi _ _ Hk).
Qed.

(** *** The linear allocator *)
Lemma scan_hosts_spec c used k : ∀ n,
  (∀ i, n ≤ i → i < n + N.of_nat k → is_Some (nth_host c i)) →
  match MemNetworkStore.scan_hosts c used n k with
  | Some a => ∃ i, n ≤ i ∧ i < n + N.of_nat k ∧ nth_host c i = Some a ∧ used !! a = None ∧
      ∀ j b, n ≤ j → j < i → nth_host c j = Some b → is_Some (used !! b)
  | None => ∀ j b, n ≤ j → j < n + N.of_nat k → nth_host c j = Some b → is_Some (used !! b)
  end.
Proof.
  induction k as [|k IH]; intros n Hall; cbn [MemNetworkStore.scan_hosts].
  - intros. lia.
  - destruct (Hall n) as [a Ha]; [lia|lia|]. rewrite Ha.
    destruct (used !! a) as [x|] eqn:Eu.
    + specialize (IH (n + 1)). destruct (MemNetworkStore.scan_hosts c used (n + 1) k) as [b|].
      * destruct IH as (i&?&?&Hi&Hb&Hlt).
        { intros. apply Hall; lia. }
        exists i. split; [lia|]. split; [lia|]. split; [done|]. split; [done|].
        intros j b' Hj1 Hj2 Hjb. destruct (decide (j = n)) as [->|]; [|apply (Hlt j); [lia|lia|done]].
        simplify_eq. by rewrite Eu.
      * intros j b Hj1 Hj2 Hjb. destruct (decide (j = n)) as [->|].
        { simplify_eq. by rewrite Eu. }
        apply (IH ltac:(intros; apply Hall; lia) j); [lia|lia|done].
    + exists n. split; [lia|]. split; [lia|]. split; [done|]. split; [done|]. intros. lia.
Qed.

(** Automatic allocation is deterministic and complete.  With no address
    requested, [choose_ip] hands out the free usable host of lowest ordinal;
    it reports the block exhausted exactly when every usable host is taken. *)
Theorem attach_picks_lowest_free c used :
  cidr_ok c →
  match MemNetworkStore.choose_ip c used None with
  | Ok a => ∃ n, nth_host c n = Some a ∧ used !! a = None ∧
      ∀ j b, j < n → nth_host c j = Some b → is_Some (used !! b)
  | Err e => e = Exhausted "attach_nic: CIDR exhausted" ∧
      ∀ j b, nth_host c j = Some b → is_Some (used !! b)
  end.
Proof.
  intros Hc. unfold MemNetworkStore.choose_ip.
  pose proof (scan_hosts_spec c used (N.to_nat (capacity c)) 1) as Hs.
  rewrite N2Nat.id in Hs.
  destruct (MemNetworkStore.scan_hosts c used 1 (N.to_nat (capacity c))) as [a|]; simpl.
  - destruct Hs as (i&?&?&Hi&Hu&Hlt).
    { intros i ??. exists (base c + i). apply nth_host_spec; [done|]. lia. }
    exists i. split; [done|]. split; [done|]. intros j b Hj Hb. apply (Hlt j); [|done|done].
    apply nth_host_spec in Hb; [lia|done].
  - split; [done|]. intros j b Hb. pose proof Hb as (?&?&?)%nth_host_spec; [|done].
    apply (Hs ltac:(intros i ??; exists (base c + i); apply nth_host_spec; [done|lia]) j); [lia|lia|done].
Qed.

(** The text form of a block is faithful: whatever [Cidr4::parse] accepts
    is a masked block with a prefix in [1..31], and printing a block with
    [Display] and parsing it back gives the same block. *)
Theorem cidr_parse_print s c :
  (cidr_parse s = Ok c → cidr_ok c) ∧ (cidr_ok c → cidr_parse (fmt_cidr c) = Ok c).
Proof.
  split; [apply cidr_parse_ok|]. intros Hc. pose proof Hc as ((Hp1&Hp2)&Hf&_).
  unfold cidr_parse, fmt_cidr.
  change (fmt_ipv4 (base c) +:+ "/" +:+ fmt_u (prefix_len c))
    with (fmt_ipv4 (base c) +:+ String "/" (fmt_u (prefix_len c))).
  rewrite split_once_app by apply fmt_ipv4_no_slash. st_unfold.
  rewrite parse_fmt_ipv4 by done. rewrite parse_uint_fmt_u by (unfold fits; lia).
  rewrite (proj2 (N.eqb_neq _ _)), (proj2 (N.leb_gt _ _)) by lia. simpl.
  rewrite cidr_mask_base by done. by destruct c.
Qed.

(** *** Load balancing *)
Section pick.
Local Open Scope nat_scope.
Variable conns : list N.
(** Connection counts are [u32]; a backend past the table counts as idle. *)
Definition conn (j : nat) : N := default 0%N (conns !! j).
Hypothesis conns_u32 : ∀ j, (conn j ≤ u32_max)%N.

(** [best] is the first least-loaded backend among the first [i]. *)
Definition least_upto (i best : nat) : Prop :=
  ∀ j, j < i → (conn best ≤ conn j)%N ∧ (j < best → (conn best < conn j)%N).

Definition least_inv (i best : nat) (n : N) : Prop :=
  (best < i ∧ n = conn best ∧ least_upto i best) ∨
  (best = 0 ∧ n = u32_max ∧ ∀ j, j < i → conn j = u32_max).

Lemma least_loop_inv {A} (bs : list A) : ∀ i best n,
  least_inv i best n → ∃ n', least_inv (i + length bs) (least_loop bs conns i best n) n'.
Proof.
  induction bs as [|b bs IH]; intros i best n Hi; simpl.
  - exists n. by rewrite Nat.add_0_r.
  - rewrite Nat.add_succ_r, <-Nat.add_succ_l. fold (conn i).
    destruct (N.ltb_spec (conn i) n) as [Hlt|Hge]; apply IH.
    + left. split; [lia|]. split; [done|]. intros j Hj.
      destruct (decide (j = i)) as [->|]; [lia|].
      destruct Hi as [(?&->&Hu)|(->&->&Hall)].
      * destruct (Hu j ltac:(lia)). lia.
      * rewrite (Hall j) by lia. lia.
    + destruct Hi as [(?&->&Hu)|(->&->&Hall)].
      * left. split; [lia|]. split; [done|]. intros j Hj.
        destruct (decide (j = i)) as [->|]; [lia|]. apply Hu. lia.
      * right. split; [done|]. split; [done|]. intros j Hj.
        destruct (decide (j = i)) as [->|]; [|apply Hall; lia].
        pose proof (conns_u32 i). lia.
Qed.

Lemma least_loop_least {A} (bs : list A) :
  bs ≠ [] →
  let r := least_loop bs conns 0 0 u32_max in r < length bs ∧ least_upto (length bs) r.
Proof.
  intros Hbs r. destruct (least_loop_inv bs 0 0 u32_max) as [n Hinv].
  { right. split; [done|]. split; [done|]. lia. }
  assert (0 < length bs) by (destruct bs; [done|simpl; lia]).
  destruct Hinv as [(?&_&?)|(Hr&_&Hall)]; [done|]. fold r in Hr. rewrite Hr.
  split; [done|]. intros j Hj. rewrite (Hall 0), (Hall j) by lia. lia.
Qed.
End pick.

(** Dispatch is safe and fair.  [pick] answers [None] only without
    backends and otherwise an index into the backend list; round robin visits
    the backends cyclically ([tick] modulo their number), and least-connection
    picks the first backend with the fewest connections. *)
Theorem pick_spec lb tick conns :
  (∀ j, conn conns j ≤ u32_max) →
  match pick lb tick conns with
  | None => lb_backends lb = []
  | Some i => (i < length (lb_backends lb))%nat ∧
      match lb_algo lb with
      | RoundRobin => N.of_nat i = tick mod N.of_nat (length (lb_backends lb))
      | LeastConn => least_upto conns (length (lb_backends lb)) i
      end
  end.
Proof.
  intros Hc. unfold pick. destruct (lb_backends lb) as [|b bs] eqn:Eb; [done|].
  destruct (lb_algo lb).
  - rewrite N2Nat.id. split; [|done].
    assert (tick mod N.of_nat (length (b :: bs)) < N.of_nat (length (b :: bs))).
    { apply N.mod_lt. simpl. lia. }
    lia.
  - by apply least_loop_least.
Qed.

(** ** Witnesses *)
Module NetWitness.
Import MemNetworkStore.
Definition block : Cidr4 := mkCidr4 (10 * 2 ^ 24) 29.
Definition calls : list net_call :=
  [NCreate "n1" "net" block; NAttach "n1/n1" 0 None; NAttach "n1/n1" 1 (Some (base block + 1));
   NAttach "n1/n1" 1 None; NDetach "n1/n1/nic1"; NDelete "n1/n1"; NAttach "n1/n1" 2 None;
   NLbCreate "n1" "lb" "n1/n1" (base block + 6) 80 LeastConn [mkLbBackend 1 (base block + 2) 80]].
Definition final : MemInner := foldl (λ g c, net_step c g) new calls.

Lemma block_ok : cidr_ok block.
Proof. split; [by compute|]. split; [by compute|]. by exists (base block / 8). Qed.

Lemma net_room_by_compute g :
  forallb (λ n, n <? u32_max) (next_net g :: (map_to_list (next_nic g)).*2) = true →
  MemNetInv.room g.
Proof.
  simpl. rewrite andb_true_iff, forallb_forall. intros [Hn%N.ltb_lt Hs]. split.
  - eapply N.lt_trans; [exact Hn|by apply N.ltb_lt].
  - intros id n Hid. apply N.ltb_lt, Hs, list_elem_of_In, list_elem_of_fmap.
    exists (id, n). split; [done|]. by apply elem_of_map_to_list.
Qed.

Lemma final_run : net_run calls new final.
Proof.
  unfold final, calls. cbn [foldl].
  repeat (apply nrun_cons;
    [apply net_room_by_compute; vm_compute; reflexivity
    |first [exact I|exact block_ok|apply N.ltb_lt; vm_compute; reflexivity]|]).
  apply nrun_nil.
Qed.
End NetWitness.

Lemma nic_addresses_unique_witness :
  ∃ net, MemNetworkStore.get_network NetWitness.final "n1/n1" = Some net ∧
    cidr_contains (net_cidr net) (base NetWitness.block + 1) = true.
Proof.
  pose proof (nic_addresses_unique _ _ NetWitness.final_run) as [Hin _].
  apply (Hin "n1/n1/nic3" (mkNic "n1/n1/nic3" "n1/n1" 2 (base NetWitness.block + 1)
           (MemNetworkStore.make_mac "n1/n1" 3))).
  by vm_compute.
Defined.

Lemma load_balancers_inside_witness :
  ∃ net, MemNetworkStore.get_network NetWitness.final "n1/n1" = Some net ∧
    cidr_contains (net_cidr net) (base NetWitness.block + 6) = true.
Proof.
  destruct (load_balancers_inside _ _ "n1/lb1"
    (mkLoadBalancer "n1/lb1" "n1" "lb" "n1/n1" (base NetWitness.block + 6) 80 LeastConn
       [mkLbBackend 1 (base NetWitness.block + 2) 80]) NetWitness.final_run) as (net&Hnet&Hvip&_).
  - by vm_compute.
  - exists net. exact (conj Hnet Hvip).
Defined.

Lemma attach_picks_lowest_free_witness :
  match MemNetworkStore.choose_ip NetWitness.block ∅ None with
  | Ok a => ∃ n, nth_host NetWitness.block n = Some a ∧ (∅ : gmap N NicId) !! a = None ∧
      ∀ j b, j < n → nth_host NetWitness.block j = Some b → is_Some ((∅ : gmap N NicId) !! b)
  | Err e => e = Exhausted "attach_nic: CIDR exhausted" ∧
      ∀ j b, nth_host NetWitness.block j = Some b → is_Some ((∅ : gmap N NicId) !! b)
  end.
Proof. exact (attach_picks_lowest_free NetWitness.block ∅ NetWitness.block_ok). Defined.

Lemma cidr_parse_print_witness : cidr_parse (fmt_cidr NetWitness.block) = Ok NetWitness.block.
Proof. apply (cidr_parse_print EmptyString NetWitness.block), NetWitness.block_ok. Defined.

Lemma pick_spec_witness :
  let lb := mkLoadBalancer "l" "o" "n" "net" 0 80 LeastConn
              [mkLbBackend 0 1 80; mkLbBackend 1 2 80; mkLbBackend 2 3 80] in
  pick lb 0 [4; 1; 1] = Some 1%nat ∧ least_upto [4; 1; 1] 3 1.
Proof.
  split; [by vm_compute|].
  refine (proj2 (pick_spec (mkLoadBalancer "l" "o" "n" "net" 0 80 LeastConn
            [mkLbBackend 0 1 80; mkLbBackend 1 2 80; mkLbBackend 2 3 80]) 0 [4; 1; 1] _)).
  intros [|[|[|j]]]; by apply N.leb_le.
Defined.
