(* ===== verification/Lww.v ===== *)
(** * Lww: last-writer-wins tables

    Membership and the VM namespace both keep a map of rows stamped
    [(epoch, hlc)] and accept an incoming row when it is new or carries a
    strictly greater stamp.  The convergence argument is shared here. *)
From S2P Require Import Prelude.
From S2P Require Import Maps.
Local Open Scope N_scope.

(** Strict lexicographic order on [(epoch, hlc)], as Rust compares tuples. *)
Definition stamp_lt (a b : N * N) : bool :=
  (a.1 <? b.1) || ((a.1 =? b.1) && (a.2 <? b.2)).

Lemma stamp_lt_spec a b : stamp_lt a b = true ↔ a.1 < b.1 ∨ (a.1 = b.1 ∧ a.2 < b.2).
Proof. unfold stamp_lt. rewrite orb_true_iff, andb_true_iff, !N.ltb_lt, N.eqb_eq. done. Qed.

Lemma stamp_ge_spec a b : stamp_lt a b = false ↔ b.1 < a.1 ∨ (b.1 = a.1 ∧ b.2 ≤ a.2).
Proof. rewrite <-not_true_iff_false, stamp_lt_spec. lia. Qed.

Lemma stamp_antisym a b : stamp_lt a b = false → stamp_lt b a = false → a = b.
Proof. rewrite !stamp_ge_spec. destruct a, b. simpl. intros. f_equal; lia. Qed.

Section lww.
Context {K V : Type} `{Countable K} (key : V → K) (stamp : V → N * N).

(** Whether an incoming row replaces what the table holds. *)
Definition lww_accepts (m : gmap K V) (x : V) : bool :=
  match m !! key x with
  | Some old => stamp_lt (stamp old) (stamp x)
  | None => true
  end.

Definition lww_merge (m : gmap K V) (x : V) : gmap K V :=
  if lww_accepts m x then <[key x := x]> m else m.

Definition lww_fold (l : list V) (m : gmap K V) : gmap K V := foldl lww_merge m l.

(** Rows filed under their own key. *)
Definition keyed (m : gmap K V) : Prop := ∀ k x, m !! k = Some x → key x = k.

(** The candidates for a key after the rows of [l] arrive at [m]. *)
Definition candidate (l : list V) (m : gmap K V) (k : K) (x : V) : Prop :=
  m !! k = Some x ∨ (x ∈ l ∧ key x = k).

Lemma keyed_merge m x : keyed m → keyed (lww_merge m x).
Proof.
  intros Hm k y. unfold lww_merge. destruct (lww_accepts m x); [|apply Hm].
  intros [[<- <-]|[_ ?]]%lookup_insert_Some; [done|by apply Hm].
Qed.

Lemma lww_merge_lookup m x k :
  lww_merge m x !! k = (if decide (key x = k)
                        then if lww_accepts m x then Some x else m !! k
                        else m !! k).
Proof.
  unfold lww_merge. destruct (lww_accepts m x), (decide (key x = k)) as [<-|];
    rewrite ?lookup_insert_eq, ?lookup_insert_ne by done; done.
Qed.

(** What the table holds after [l] is a candidate no other candidate
    supersedes; it is empty only when there is none. *)
Lemma lww_fold_max l : ∀ m k,
  match lww_fold l m !! k with
  | Some x => candidate l m k x ∧ ∀ y, candidate l m k y → stamp_lt (stamp x) (stamp y) = false
  | None => ∀ y, ¬ candidate l m k y
  end.
Proof.
  induction l as [|a l IH]; intros m k; simpl.
  - unfold candidate. destruct (m !! k) as [x|] eqn:E.
    + split; [by left|]. intros y [?|[?%elem_of_nil _]]; [|done]. simplify_eq.
      apply stamp_ge_spec. lia.
    + intros y [?|[?%elem_of_nil _]]; done.
  - specialize (IH (lww_merge m a) k).
    assert (∀ y, candidate (a :: l) m k y ↔ m !! k = Some y ∨ (y = a ∧ key a = k) ∨ (y ∈ l ∧ key y = k))
      as Hcand.
    { intros y. unfold candidate. rewrite elem_of_cons. naive_solver. }
    assert (∀ y, candidate l (lww_merge m a) k y ↔
              lww_merge m a !! k = Some y ∨ (y ∈ l ∧ key y = k)) as Hcand' by done.
    rewrite lww_merge_lookup in Hcand'. unfold lww_accepts in Hcand'.
    destruct (lww_fold l (lww_merge m a) !! k) as [x|].
    + destruct IH as [Hx Hmax]. split.
      * apply Hcand. apply Hcand' in Hx. repeat case_match; naive_solver.
      * intros y Hy%Hcand. destruct Hy as [Hy|[[-> Hk]|Hy]].
        -- destruct (decide (key a = k)) as [Hk|Hk]; [|apply Hmax, Hcand'; by left].
           rewrite Hk, Hy in Hcand'. destruct (stamp_lt (stamp y) (stamp a)) eqn:E.
           ++ assert (stamp_lt (stamp x) (stamp a) = false) as Hxa by (apply Hmax, Hcand'; by left).
              apply stamp_lt_spec in E. apply stamp_ge_spec in Hxa. apply stamp_ge_spec. lia.
           ++ apply Hmax, Hcand'. by left.
        -- rewrite decide_True in Hcand' by done. rewrite Hk in Hcand'.
           destruct (m !! k) as [o|] eqn:Eo; [|apply Hmax, Hcand'; by left].
           destruct (stamp_lt (stamp o) (stamp a)) eqn:E; [apply Hmax, Hcand'; by left|].
           assert (stamp_lt (stamp x) (stamp o) = false) as Hxo by (apply Hmax, Hcand'; by left).
           apply stamp_ge_spec in E, Hxo. apply stamp_ge_spec. lia.
        -- apply Hmax, Hcand'. by right.
    + intros y Hy%Hcand. destruct (decide (key a = k)) as [Hk|Hk].
      * rewrite Hk in Hcand'. destruct (m !! k) as [o|] eqn:Eo.
        -- destruct (stamp_lt (stamp o) (stamp a)); eapply IH, Hcand'; by left.
        -- eapply IH, Hcand'. by left.
      * eapply IH, Hcand'. naive_solver.
Qed.

(** No two different rows of one key carry the same stamp: what a correct
    owner, which bumps its clock on every change, guarantees. *)
Definition consistent (l : list V) (m : gmap K V) : Prop :=
  ∀ k x y, candidate l m k x → candidate l m k y → stamp x = stamp y → x = y.

(** Tables converge: the result depends only on the set of rows delivered,
    not on their order nor on how often each one arrives. *)
Lemma lww_fold_converges l1 l2 m :
  (∀ x, x ∈ l1 ↔ x ∈ l2) → consistent l1 m → lww_fold l1 m = lww_fold l2 m.
Proof.
  intros Hl Hcons. apply map_eq. intros k.
  pose proof (lww_fold_max l1 m k) as H1. pose proof (lww_fold_max l2 m k) as H2.
  assert (∀ y, candidate l2 m k y ↔ candidate l1 m k y) as Hc
    by (intros y; unfold candidate; by rewrite Hl).
  destruct (lww_fold l1 m !! k) as [x|], (lww_fold l2 m !! k) as [y|].
  - destruct H1 as [Hx Hmx], H2 as [Hy Hmy]. f_equal. apply (Hcons k); [done|by apply Hc|].
    apply stamp_antisym; [by apply Hmx, Hc|by apply Hmy, Hc].
  - destruct H1 as [Hx _]. by destruct (H2 x); apply Hc.
  - destruct H2 as [Hy _]. by destruct (H1 y); apply Hc.
  - done.
Qed.
End lww.
