(* ===== verification/Federation.v ===== *)
(** * Federation: [celmesh::federation]

    The cluster-wide VM namespace: rows keyed by owner and slot, merged by
    last-writer-wins, addressed as ["/cluster/<node>/vms/<n>"]. *)
From S2P Require Import Prelude.
From S2P Require Import Text.
From S2P Require Import Maps.
From S2P Require Import Lww.
From S2P Require Import Vault.

Abbreviation NodeId := string (only parsing).

Inductive RestartPolicy := Never | Always.
#[export] Instance RestartPolicy_eq_dec : EqDecision RestartPolicy.
Proof. solve_decision. Defined.

Record RemoteVm := mkRemoteVm {
  rv_owner : NodeId;
  rv_vm_id : N;                 (** u32 *)
  rv_label : string;
  rv_state : string;
  rv_last_exit : option N;
  rv_epoch : N;                 (** u64 *)
  rv_hlc : N;
  rv_owner_alive : bool;
  rv_restart_policy : RestartPolicy;
  rv_volumes : list VolumeAttachment;
  rv_image_path : option string;
  rv_cpu_count : option N;
  rv_memory_mib : option N;
  rv_boot_blob_crc32c : option N
}.
#[export] Instance RemoteVm_eq_dec : EqDecision RemoteVm.
Proof. solve_decision. Defined.

Definition with_owner (o : NodeId) (r : RemoteVm) : RemoteVm :=
  mkRemoteVm o (rv_vm_id r) (rv_label r) (rv_state r) (rv_last_exit r) (rv_epoch r) (rv_hlc r)
    (rv_owner_alive r) (rv_restart_policy r) (rv_volumes r) (rv_image_path r) (rv_cpu_count r)
    (rv_memory_mib r) (rv_boot_blob_crc32c r).
Definition with_alive (b : bool) (r : RemoteVm) : RemoteVm :=
  mkRemoteVm (rv_owner r) (rv_vm_id r) (rv_label r) (rv_state r) (rv_last_exit r) (rv_epoch r)
    (rv_hlc r) b (rv_restart_policy r) (rv_volumes r) (rv_image_path r) (rv_cpu_count r)
    (rv_memory_mib r) (rv_boot_blob_crc32c r).

(** [RemoteVm::path] and [RemoteVm::key]. *)
Definition path (r : RemoteVm) : string :=
  "/cluster/" +:+ rv_owner r +:+ "/vms/" +:+ fmt_u (rv_vm_id r).
Definition key (r : RemoteVm) : NodeId * N := (rv_owner r, rv_vm_id r).
Definition row_stamp (r : RemoteVm) : N * N := (rv_epoch r, rv_hlc r).

Record NamespaceFederation := mkFederation {
  fed_self : NodeId;
  fed_rows : gmap (NodeId * N) RemoteVm
}.

Definition fed_new (self_id : NodeId) : NamespaceFederation := mkFederation self_id ∅.

Definition set_local (local : list RemoteVm) (f : NamespaceFederation) : NamespaceFederation :=
  let kept := map_retain (λ k _, negb (bool_decide (k.1 = fed_self f))) (fed_rows f) in
  let add rows row :=
    let row := with_alive true (with_owner (fed_self f) row) in <[key row := row]> rows in
  mkFederation (fed_self f) (foldl add kept local).

Definition fed_merge (incoming : RemoteVm) (f : NamespaceFederation) : bool * NamespaceFederation :=
  if bool_decide (rv_owner incoming = fed_self f) then (false, f)
  else
    let incoming := with_alive true incoming in
    let k := key incoming in
    match fed_rows f !! k with
    | Some existing =>
        if stamp_lt (row_stamp existing) (row_stamp incoming)
        then (true, mkFederation (fed_self f) (<[k := incoming]> (fed_rows f)))
        else (false, f)
    | None => (true, mkFederation (fed_self f) (<[k := incoming]> (fed_rows f)))
    end.

Definition refresh_alive (alive_of : NodeId → bool) (f : NamespaceFederation)
  : NamespaceFederation :=
  let stamp row :=
    with_alive (if bool_decide (rv_owner row = fed_self f) then true else alive_of (rv_owner row)) row in
  mkFederation (fed_self f) (stamp <$> fed_rows f).

(** [list]: the values in key order. *)
Definition fed_list (f : NamespaceFederation) : list RemoteVm := pair_btree_values (fed_rows f).

Definition local_rows (f : NamespaceFederation) : list RemoteVm :=
  retain (λ r, bool_decide (rv_owner r = fed_self f)) (fed_list f).

(** [resolve]: [Err tt] for a malformed path, [Ok None] for one no row has. *)
Definition resolve (p : string) (f : NamespaceFederation) : result unit (option RemoteVm) :=
  suffix ← ok_or (strip_prefix "/cluster/" p) tt;
  '(node, rest) ← ok_or (split_once "/" suffix) tt;
  rest ← ok_or (strip_prefix "vms/" rest) tt;
  if str_is_empty rest || contains_char "/" rest then Err tt
  else n ← ok_or (parse_uint 32 rest) tt; Ok (fed_rows f !! (node, n)).

(** ** Lemmas *)
#[local] Arguments strip_prefix : simpl never.

Definition fed_inv (f : NamespaceFederation) : Prop := keyed key (fed_rows f).

Lemma fed_merge_spec r f :
  rv_owner r ≠ fed_self f →
  (fed_merge r f).2 =
    mkFederation (fed_self f) (lww_merge key row_stamp (fed_rows f) (with_alive true r)) ∧
  (fed_merge r f).1 = lww_accepts key row_stamp (fed_rows f) (with_alive true r).
Proof.
  intros Hne. unfold fed_merge, lww_merge, lww_accepts. rewrite bool_decide_eq_false_2 by done.
  destruct (fed_rows f !! key (with_alive true r)) as [e|]; [|done].
  destruct (stamp_lt _ _); [done|]. by destruct f.
Qed.

Lemma fed_merge_self r f : rv_owner r = fed_self f → fed_merge r f = (false, f).
Proof. intros Heq. unfold fed_merge. by rewrite bool_decide_eq_true_2. Qed.

Lemma fed_self_merge r f : fed_self (fed_merge r f).2 = fed_self f.
Proof.
  destruct (decide (rv_owner r = fed_self f)) as [E|E]; [by rewrite fed_merge_self|].
  by destruct (fed_merge_spec r f E) as [-> _].
Qed.

(** Deliver a batch of rows. *)
Definition fed_deliver (l : list RemoteVm) (f : NamespaceFederation) : NamespaceFederation :=
  foldl (λ f r, (fed_merge r f).2) f l.

Lemma fed_deliver_lww l : ∀ f,
  fed_deliver l f =
    mkFederation (fed_self f)
      (lww_fold key row_stamp
         (with_alive true <$> retain (λ r, negb (bool_decide (rv_owner r = fed_self f))) l)
         (fed_rows f)).
Proof.
  induction l as [|r l IH]; intros f; simpl; [by destruct f|].
  rewrite IH, fed_self_merge. case_bool_decide as Ho; simpl.
  - by rewrite fed_merge_self.
  - by destruct (fed_merge_spec r f Ho) as [-> _].
Qed.

Lemma fed_inv_merge r f : fed_inv f → fed_inv (fed_merge r f).2.
Proof.
  intros Hi. destruct (decide (rv_owner r = fed_self f)) as [E|E]; [by rewrite fed_merge_self|].
  destruct (fed_merge_spec r f E) as [-> _]. by apply keyed_merge.
Qed.

Lemma fed_inv_set_local l f : fed_inv f → fed_inv (set_local l f).
Proof.
  intros Hi. unfold set_local, fed_inv. simpl.
  set (kept := map_retain _ _).
  assert (keyed key kept) as Hk.
  { intros k x [Hx _]%map_retain_lookup. by apply Hi. }
  clearbody kept. revert kept Hk. induction l as [|r l IH]; intros m Hm; simpl; [done|].
  apply IH. intros k x [[<- <-]|[_ ?]]%lookup_insert_Some; [done|by apply Hm].
Qed.

Lemma fed_inv_refresh alive f : fed_inv f → fed_inv (refresh_alive alive f).
Proof.
  intros Hi k x. unfold refresh_alive. simpl. rewrite lookup_fmap. intros (y&Hy&->)%fmap_Some_1.
  by apply Hi in Hy.
Qed.

(** Owners with a ['/'] do not survive the path syntax. *)
Lemma strip_vms_slash r n rest :
  strip_prefix "vms/" (r +:+ "/vms/" +:+ n) = Some rest → contains_char "/" rest = true.
Proof.
  intros Hs%strip_prefix_Some. rewrite !app_string_cons, app_string_nil_l in Hs.
  destruct r as [|c1 [|c2 [|c3 [|c4 r]]]]; rewrite ?app_string_cons, ?app_string_nil_l in Hs;
    simplify_eq.
  - by rewrite !contains_char_cons.
  - rewrite contains_char_app, !contains_char_cons. apply orb_true_r.
Qed.

Lemma set_local_lookup_other f l k :
  k.1 ≠ fed_self f → fed_rows (set_local l f) !! k = fed_rows f !! k.
Proof.
  intros Hk. unfold set_local. simpl.
  set (kept := map_retain _ _).
  assert (kept !! k = fed_rows f !! k) as <-.
  { apply option_eq. intros x. unfold kept. rewrite map_retain_lookup.
    rewrite bool_decide_eq_false_2 by done. naive_solver. }
  clearbody kept. revert kept. induction l as [|r l IH]; intros m; simpl; [done|].
  rewrite IH, lookup_insert_ne; [done|]. intros <-. done.
Qed.

(** The rows of [l] as [set_local] files them. *)
Definition as_local (f : NamespaceFederation) (r : RemoteVm) : RemoteVm :=
  with_alive true (with_owner (fed_self f) r).

Lemma set_local_lookup_self f l n x :
  NoDup (rv_vm_id <$> l) →
  fed_rows (set_local l f) !! (fed_self f, n) = Some x ↔
  ∃ r, r ∈ l ∧ rv_vm_id r = n ∧ x = as_local f r.
Proof.
  intros Hnd. unfold set_local. simpl.
  set (kept := map_retain _ _).
  assert (∀ m : gmap (NodeId * N) RemoteVm, (m !! (fed_self f, n) = None ∨ n ∈ rv_vm_id <$> l) →
    (foldl (λ rows row, <[key (as_local f row) := as_local f row]> rows) m l !! (fed_self f, n)
       = Some x ↔ ∃ r, r ∈ l ∧ rv_vm_id r = n ∧ x = as_local f r)) as Hfold.
  { clear kept. induction l as [|r l IH]; intros m Hm; simpl.
    - destruct Hm as [->|?%elem_of_nil]; [|done]. split; [done|]. by intros (?&?%elem_of_nil&?).
    - simpl in Hnd. apply NoDup_cons in Hnd as [Hni Hnd]. simpl in Hm.
      destruct (decide (n ∈ rv_vm_id <$> l)) as [Hin|Hin].
      + rewrite IH by auto. split.
        * intros (r'&?&?). exists r'. split; [by right|done].
        * intros (r'&[->|?]%elem_of_cons&<-&?); [done|eauto].
      + assert (foldl (λ rows row, <[key (as_local f row) := as_local f row]> rows)
            (<[key (as_local f r) := as_local f r]> m) l !! (fed_self f, n) =
          <[key (as_local f r) := as_local f r]> m !! (fed_self f, n)) as ->.
        { clear IH Hni Hnd Hm. generalize (<[key (as_local f r) := as_local f r]> m). revert Hin.
          induction l as [|b l IHl]; intros Hin m'; simpl in *; [done|].
          apply not_elem_of_cons in Hin as [? ?]. rewrite IHl by done.
          rewrite lookup_insert_ne; [done|]. unfold key. simpl. congruence. }
        destruct (decide (rv_vm_id r = n)) as [<-|Hne].
        * unfold key. simpl. rewrite lookup_insert_eq. split.
          -- intros [= <-]. exists r. split; [by left|done].
          -- intros (r'&[->|Hr']%elem_of_cons&Hid&->); [done|].
             destruct Hin. rewrite <-Hid. by apply list_elem_of_fmap_2.
        * rewrite lookup_insert_ne by (unfold key; simpl; congruence).
          destruct Hm as [->|Hm]; [|by apply elem_of_cons in Hm as [?|?]].
          split; [done|]. intros (r'&[->|Hr']%elem_of_cons&Hid&->); [done|].
          destruct Hin. rewrite <-Hid. by apply list_elem_of_fmap_2. }
  apply Hfold. left. unfold kept. apply map_retain_lookup_None.
  destruct (fed_rows f !! (fed_self f, n)) as [y|]; [right|by left].
  exists y. split; [done|]. by rewrite bool_decide_eq_true_2.
Qed.

(** ** Properties *)

(** C5: the federated namespace converges.  However the rows of the peers
    reach a node (any order, any number of deliveries of each), the table ends
    the same, provided no two different rows of a VM carry the same
    [(epoch, hlc)]; and the row kept for a VM is one no delivered row
    supersedes. *)
Theorem federation_converges f l1 l2 :
  (∀ r, r ∈ l1 ↔ r ∈ l2) →
  consistent key row_stamp
    (with_alive true <$> retain (λ r, negb (bool_decide (rv_owner r = fed_self f))) l1) (fed_rows f) →
  fed_deliver l1 f = fed_deliver l2 f.
Proof.
  intros Hl Hc. rewrite !fed_deliver_lww. f_equal.
  apply lww_fold_converges; [|done]. intros x. rewrite !list_elem_of_fmap.
  by setoid_rewrite elem_of_retain; setoid_rewrite Hl.
Qed.

(** A node is the authority on its own VMs and only on those.  Merging
    whatever rows peers send never changes a row this node owns; replacing the
    local rows never changes a row of another owner, and afterwards the local
    rows are exactly the given VMs, filed under this node's id and alive, even
    if a caller passed rows carrying someone else's id. *)
Theorem local_rows_authoritative f peers l :
  NoDup (rv_vm_id <$> l) →
  (∀ n, fed_rows (fed_deliver peers f) !! (fed_self f, n) = fed_rows f !! (fed_self f, n)) ∧
  (∀ k, k.1 ≠ fed_self f → fed_rows (set_local l f) !! k = fed_rows f !! k) ∧
  (fed_inv f → ∀ x, x ∈ local_rows (set_local l f) ↔ ∃ r, r ∈ l ∧ x = as_local f r).
Proof.
  intros Hnd. split; [|split].
  - intros n. rewrite fed_deliver_lww. simpl.
    pose proof (lww_fold_max key row_stamp
      (with_alive true <$> retain (λ r, negb (bool_decide (rv_owner r = fed_self f))) peers)
      (fed_rows f) (fed_self f, n)) as Hmax.
    assert (∀ y, candidate key (with_alive true <$>
        retain (λ r, negb (bool_decide (rv_owner r = fed_self f))) peers) (fed_rows f)
        (fed_self f, n) y ↔ fed_rows f !! (fed_self f, n) = Some y) as Hc.
    { intros y. unfold candidate. split; [|by left]. intros [?|[Hy Hk]]; [done|].
      apply list_elem_of_fmap in Hy as (r&->&[_ Hr]%elem_of_retain).
      apply negb_true_iff, bool_decide_eq_false in Hr. unfold key in Hk. simpl in Hk. congruence. }
    destruct (lww_fold _ _ _ _ !! _) as [x|].
    + destruct Hmax as [Hx _]. symmetry. by apply Hc.
    + symmetry. apply eq_None_not_Some. intros [y Hy]. by apply (Hmax y), Hc.
  - intros k. apply set_local_lookup_other.
  - intros Hi x. unfold local_rows, fed_list, pair_btree_values.
    rewrite elem_of_retain, bool_decide_eq_true, elem_of_btree_values. split.
    + intros [[k Hk] Ho]. pose proof (fed_inv_set_local l f Hi _ _ Hk) as Hkey.
      unfold key in Hkey. rewrite Ho in Hkey. subst k.
      apply (set_local_lookup_self f l (rv_vm_id x) x Hnd) in Hk as (r&?&_&->). eauto.
    + intros (r&Hr&->). split; [|done]. exists (fed_self f, rv_vm_id r).
      apply set_local_lookup_self; [done|eauto].
Qed.

(** Federated paths are addresses, for owners without a slash: the path a
    row prints resolves to that row.  With a ['/'] in the owner's id the path
    is always refused as malformed, although the row is in the table. *)
Theorem resolve_path f r :
  fed_inv f → fits 32 (rv_vm_id r) → fed_rows f !! key r = Some r →
  resolve (path r) f = if contains_char "/" (rv_owner r) then Err tt else Ok (Some r).
Proof.
  intros Hi Hid Hr. unfold resolve, path. rewrite strip_prefix_app. st_unfold.
  destruct (contains_char "/" (rv_owner r)) eqn:Ec.
  - assert (∃ l t, rv_owner r = l +:+ String "/" t ∧ contains_char "/" l = false) as (l&t&->&Hl).
    { clear Hr. induction (rv_owner r) as [|c s IH]; [done|].
      rewrite contains_char_cons in Ec. destruct (Ascii.eqb_spec "/" c) as [<-|Hne].
      - by exists EmptyString, s.
      - destruct (IH Ec) as (l&t&->&Hl). exists (String c l), t. split; [done|].
        rewrite contains_char_cons, Hl. by rewrite (proj2 (Ascii.eqb_neq _ _) Hne). }
    rewrite app_string_assoc, app_string_cons, split_once_app by done.
    destruct (strip_prefix "vms/" (t +:+ "/vms/" +:+ fmt_u (rv_vm_id r))) as [rest|] eqn:Es; [|done].
    apply strip_vms_slash in Es. by rewrite Es, orb_true_r.
  - change ("/vms/" +:+ fmt_u (rv_vm_id r)) with (String "/" ("vms/" +:+ fmt_u (rv_vm_id r))).
    rewrite split_once_app, strip_prefix_app by done.
    rewrite fmt_u_no_char, parse_uint_fmt_u by done.
    assert (str_is_empty (fmt_u (rv_vm_id r)) = false) as ->.
    { pose proof (fmt_u_nonempty (rv_vm_id r)). by destruct (fmt_u (rv_vm_id r)). }
    simpl. f_equal. exact Hr.
Qed.

(** ** Witnesses *)
Module FedWitness.
Definition row (o : NodeId) (n e h : N) (l : string) : RemoteVm :=
  mkRemoteVm o n l "created" None e h true Never [] None None None None.
Definition f0 : NamespaceFederation := set_local [row "n1" 0 0 0 "mine"] (fed_new "n1").
Definition a := row "n2" 0 1 5 "old".
Definition b := row "n2" 0 2 1 "new".
Definition c := row "n3" 1 1 1 "other".
Definition evil := row "n1" 0 9 9 "evil".
Lemma f0_rows : fed_rows f0 = {[("n1", 0%N) := row "n1" 0 0 0 "mine"]}.
Proof. by vm_compute. Qed.
End FedWitness.

Lemma federation_converges_witness :
  fed_deliver [FedWitness.a; FedWitness.b; FedWitness.c; FedWitness.evil] FedWitness.f0 =
  fed_deliver [FedWitness.c; FedWitness.evil; FedWitness.b; FedWitness.a; FedWitness.b] FedWitness.f0.
Proof.
  apply federation_converges.
  - intros r. rewrite !elem_of_cons. tauto.
  - intros k x y Hx Hy Hs.
    assert (∀ z, candidate key (with_alive true <$>
        retain (λ r, negb (bool_decide (rv_owner r = fed_self FedWitness.f0)))
          [FedWitness.a; FedWitness.b; FedWitness.c; FedWitness.evil])
        (fed_rows FedWitness.f0) k z →
      z = FedWitness.a ∨ z = FedWitness.b ∨ z = FedWitness.c ∨
      z = FedWitness.row "n1" 0 0 0 "mine") as Hcases.
    { intros z [Hz|[Hz _]].
      - rewrite FedWitness.f0_rows in Hz. apply lookup_singleton_Some in Hz as [_ <-]. tauto.
      - change (z ∈ [FedWitness.a; FedWitness.b; FedWitness.c]) in Hz. set_solver. }
    apply Hcases in Hx, Hy. clear Hcases. unfold FedWitness.a, FedWitness.b, FedWitness.c in *.
    destruct Hx as [->|[->|[->| ->]]], Hy as [->|[->|[->| ->]]]; first [reflexivity|discriminate Hs].
Defined.

Lemma local_rows_authoritative_witness :
  fed_rows (fed_deliver [FedWitness.evil] FedWitness.f0) !! ("n1", 0%N) =
  fed_rows FedWitness.f0 !! ("n1", 0%N).
Proof.
  apply (local_rows_authoritative FedWitness.f0 [FedWitness.evil] []). apply NoDup_nil_2.
Defined.

Lemma resolve_path_witness :
  resolve "/cluster/n2/vms/0" (fed_merge FedWitness.b FedWitness.f0).2 = Ok (Some FedWitness.b).
Proof.
  apply (resolve_path (fed_merge FedWitness.b FedWitness.f0).2 FedWitness.b).
  - apply fed_inv_merge, fed_inv_set_local. intros k x Hx.
    change ((∅ : gmap (NodeId * N) RemoteVm) !! k = Some x) in Hx. by apply lookup_empty_Some in Hx.
  - by apply N.ltb_lt.
  - by vm_compute.
Defined.
