(* ===== verification/Membership.v ===== *)
(** * Membership: [celmesh::membership]

    The table of nodes with its failure detector.  Rows are gossiped and
    merged by last-writer-wins; when each row was last heard of is local.
    Instants and durations are numbers (nanoseconds), and the clock reading
    [Instant::now()] of each operation is an argument. *)
From S2P Require Import Prelude.
From S2P Require Import Maps.
From S2P Require Import Lww.
From S2P Require Import Federation.
Local Open Scope N_scope.

Inductive NodeStatus := Alive | Suspect | Dead | Left.
#[export] Instance NodeStatus_eq_dec : EqDecision NodeStatus.
Proof. solve_decision. Defined.

Record NodeInfo := mkNodeInfo {
  ni_id : NodeId;
  ni_addr : string;
  ni_epoch : N;    (** u64 *)
  ni_hlc : N;
  ni_status : NodeStatus
}.
#[export] Instance NodeInfo_eq_dec : EqDecision NodeInfo.
Proof. solve_decision. Defined.

Definition ni_stamp (r : NodeInfo) : N * N := (ni_epoch r, ni_hlc r).
Definition with_status (s : NodeStatus) (r : NodeInfo) : NodeInfo :=
  mkNodeInfo (ni_id r) (ni_addr r) (ni_epoch r) (ni_hlc r) s.

(** [NodeInfo::supersedes]. *)
Definition supersedes (self other : NodeInfo) : bool := stamp_lt (ni_stamp other) (ni_stamp self).

Record Membership := mkMembership {
  mem_self : NodeId;
  mem_cluster : string;
  mem_rows : gmap NodeId NodeInfo;
  mem_locals : gmap NodeId N;       (** last_seen *)
  timeout_suspect : N;
  timeout_dead : N
}.

Definition set_mem (rows : gmap NodeId NodeInfo) (locals : gmap NodeId N) (m : Membership)
  : Membership :=
  mkMembership (mem_self m) (mem_cluster m) rows locals (timeout_suspect m) (timeout_dead m).

Definition mem_new (cluster : string) (self_info : NodeInfo) (ts td now : N) : Membership :=
  mkMembership (ni_id self_info) cluster {[ni_id self_info := self_info]}
    {[ni_id self_info := now]} ts td.

Definition mem_snapshot (m : Membership) : list NodeInfo := str_btree_values (mem_rows m).
Definition alive_count (m : Membership) : nat :=
  length (retain (λ r, bool_decide (ni_status r = Alive)) (mem_snapshot m)).
Definition mem_get (m : Membership) (id : NodeId) : option NodeInfo := mem_rows m !! id.

Definition bump_self (hlc now : N) (m : Membership) : Membership :=
  let bump r := mkNodeInfo (ni_id r) (ni_addr r) (ni_epoch r) (N.max (ni_hlc r) hlc) Alive in
  set_mem (alter bump (mem_self m) (mem_rows m)) (alter (λ _, now) (mem_self m) (mem_locals m)) m.

Definition mem_merge (incoming : NodeInfo) (now : N) (m : Membership) : bool * Membership :=
  if bool_decide (ni_id incoming = mem_self m) then (false, m)
  else
    let touch := match mem_rows m !! ni_id incoming with
                 | Some existing => supersedes incoming existing
                 | None => true
                 end in
    if touch then
      (touch, set_mem (<[ni_id incoming := incoming]> (mem_rows m))
                (<[ni_id incoming := now]> (mem_locals m)) m)
    else if bool_decide (is_Some (mem_rows m !! ni_id incoming)) then
      (touch, set_mem (mem_rows m) (alter (λ _, now) (ni_id incoming) (mem_locals m)) m)
    else (touch, m).

Definition mark_left (id : NodeId) (m : Membership) : Membership :=
  if bool_decide (id = mem_self m) then m
  else set_mem (alter (with_status Left) id (mem_rows m)) (mem_locals m) m.

Record TickDelta := mkTickDelta {
  state_changes : nat;
  suspect_promotions : nat;
  dead_promotions : nat
}.
Definition tick_zero : TickDelta := mkTickDelta 0 0 0.

(** What the detector makes of a silence of [elapsed]. *)
Definition classify (m : Membership) (elapsed : N) : NodeStatus :=
  if timeout_dead m <=? elapsed then Dead
  else if timeout_suspect m <=? elapsed then Suspect
  else Alive.

(** The body of the loop of [tick], on one row. *)
Definition tick_row (m : Membership) (now : N) (acc : gmap NodeId NodeInfo * TickDelta)
    (e : NodeId * NodeInfo) : gmap NodeId NodeInfo * TickDelta :=
  let '(rows, d) := acc in
  let '(id, row) := e in
  if bool_decide (id = mem_self m) then acc
  else if bool_decide (ni_status row = Left ∨ ni_status row = Dead) then acc
  else
    let last := default now (mem_locals m !! id) in
    let elapsed := saturating_sub now last in
    let next := classify m elapsed in
    if bool_decide (next = ni_status row) then acc
    else
      let suspect := if bool_decide (ni_status row = Alive ∧ next = Suspect) then 1%nat else 0%nat in
      let dead := if bool_decide (next = Dead) then 1%nat else 0%nat in
      (<[id := with_status next row]> rows,
       mkTickDelta (S (state_changes d)) (suspect_promotions d + suspect)
         (dead_promotions d + dead)).

Definition tick (now : N) (m : Membership) : TickDelta * Membership :=
  let '(rows, d) := foldl (tick_row m now) (mem_rows m, tick_zero)
                      (btree_iter String.le (mem_rows m)) in
  (d, set_mem rows (mem_locals m) m).

(** ** Lemmas *)

(** The table is keyed by node id, holds this node's own row, and every row
    has a last-seen time. *)
Record mem_inv (m : Membership) : Prop := {
  inv_keyed : keyed ni_id (mem_rows m);
  inv_self : is_Some (mem_rows m !! mem_self m);
  inv_locals : ∀ id, is_Some (mem_rows m !! id) ↔ is_Some (mem_locals m !! id)
}.

(** The status [tick] leaves on a row. *)
Definition ticked (m : Membership) (now : N) (id : NodeId) (r : NodeInfo) : NodeInfo :=
  if bool_decide (id = mem_self m) then r
  else if bool_decide (ni_status r = Left ∨ ni_status r = Dead) then r
  else with_status (classify m (saturating_sub now (default now (mem_locals m !! id)))) r.

Lemma with_status_same r : with_status (ni_status r) r = r.
Proof. by destruct r. Qed.

Lemma tick_row_spec m now rows d id r :
  rows !! id = Some r →
  tick_row m now (rows, d) (id, r) =
    (<[id := ticked m now id r]> rows,
     if decide (ticked m now id r = r) then d
     else mkTickDelta (S (state_changes d))
            (suspect_promotions d +
               if bool_decide (ni_status r = Alive ∧ ni_status (ticked m now id r) = Suspect)
               then 1 else 0)
            (dead_promotions d +
               if bool_decide (ni_status (ticked m now id r) = Dead) then 1 else 0)).
Proof.
  intros Hr. unfold tick_row, ticked.
  assert (<[id:=r]> rows = rows) as Hins by (by apply insert_id).
  case_bool_decide; [by rewrite Hins, decide_True|].
  case_bool_decide; [by rewrite Hins, decide_True|].
  set (next := classify m _). case_bool_decide as Hn.
  - by rewrite Hn, with_status_same, Hins, decide_True.
  - rewrite decide_False; [done|]. intros Heq. apply Hn. by rewrite <-Heq.
Qed.

Lemma tick_fold m now l : ∀ rows d,
  NoDup l.*1 → (∀ id r, (id, r) ∈ l → rows !! id = Some r) →
  let res := foldl (tick_row m now) (rows, d) l in
  (∀ id, res.1 !! id = match (list_to_map l : gmap NodeId NodeInfo) !! id with
                       | Some r => Some (ticked m now id r) | None => rows !! id end) ∧
  (state_changes res.2 = state_changes d +
     length (retain (λ e, negb (bool_decide (ticked m now e.1 e.2 = e.2))) l))%nat ∧
  (dead_promotions res.2 = dead_promotions d +
     length (retain (λ e, negb (bool_decide (ticked m now e.1 e.2 = e.2)) &&
        bool_decide (ni_status (ticked m now e.1 e.2) = Dead)) l))%nat.
Proof.
  induction l as [|[id r] l IH]; intros rows d Hnd Hl; cbv zeta; cbn [foldl].
  - simpl. split; [done|]. by rewrite !Nat.add_0_r.
  - simpl in Hnd. apply NoDup_cons in Hnd as [Hni Hnd].
    rewrite tick_row_spec by (apply Hl; left).
    set (d' := if decide _ then d else _).
    destruct (IH (<[id := ticked m now id r]> rows) d' Hnd) as (Hrows&Hsc&Hdp).
    { intros i x Hx. rewrite lookup_insert_ne; [apply Hl; by right|].
      intros <-. apply Hni, list_elem_of_fmap. by exists (id, x). }
    cbv zeta in *. rewrite Hsc, Hdp. simpl. split; [|unfold d'].
    + intros i. rewrite Hrows. destruct (decide (i = id)) as [->|Hne].
      * rewrite lookup_insert_eq, not_elem_of_list_to_map_1 by done. by rewrite lookup_insert_eq.
      * rewrite !lookup_insert_ne by congruence. done.
    + destruct (decide (ticked m now id r = r)) as [He|He].
      * by rewrite (bool_decide_eq_true_2 (ticked m now id r = r)).
      * rewrite (bool_decide_eq_false_2 (ticked m now id r = r)) by done. simpl.
        destruct (bool_decide (ni_status (ticked m now id r) = Dead)); simpl; lia.
Qed.

Lemma tick_spec m now :
  (∀ id, mem_rows (tick now m).2 !! id = ticked m now id <$> mem_rows m !! id) ∧
  state_changes (tick now m).1 =
    length (retain (λ e, negb (bool_decide (ticked m now e.1 e.2 = e.2)))
              (btree_iter String.le (mem_rows m))) ∧
  dead_promotions (tick now m).1 =
    length (retain (λ e, negb (bool_decide (ticked m now e.1 e.2 = e.2)) &&
        bool_decide (ni_status (ticked m now e.1 e.2) = Dead))
              (btree_iter String.le (mem_rows m))).
Proof.
  unfold tick.
  destruct (tick_fold m now (btree_iter String.le (mem_rows m)) (mem_rows m) tick_zero)
    as (Hrows&Hsc&Hdp).
  - rewrite btree_iter_perm. apply NoDup_fst_map_to_list.
  - intros id r ?%elem_of_btree_iter. done.
  - destruct (foldl _ _ _) as [rows d]. simpl in *. split; [|done].
    intros id. rewrite Hrows.
    assert ((list_to_map (btree_iter String.le (mem_rows m)) : gmap NodeId NodeInfo) = mem_rows m) as ->; [|by destruct (mem_rows m !! id)].
    rewrite <-(list_to_map_to_list (mem_rows m)) at 2. apply list_to_map_proper; [|apply btree_iter_perm].
    rewrite btree_iter_perm. apply NoDup_fst_map_to_list.
Qed.

(** Merging as a last-writer-wins step. *)
Lemma mem_merge_rows r now m :
  mem_rows (mem_merge r now m).2 =
    (if bool_decide (ni_id r = mem_self m) then mem_rows m
     else lww_merge ni_id ni_stamp (mem_rows m) r) ∧
  mem_self (mem_merge r now m).2 = mem_self m.
Proof.
  unfold mem_merge, lww_merge, lww_accepts, supersedes. case_bool_decide; [done|].
  destruct (mem_rows m !! ni_id r) as [e|] eqn:E; [|done].
  by destruct (stamp_lt (ni_stamp e) (ni_stamp r)); simpl.
Qed.

(** Deliver a batch of rows, each at its own time. *)
Definition mem_deliver (l : list (NodeInfo * N)) (m : Membership) : Membership :=
  foldl (λ m e, (mem_merge e.1 e.2 m).2) m l.

Lemma mem_deliver_rows l : ∀ m,
  mem_rows (mem_deliver l m) =
    lww_fold ni_id ni_stamp (retain (λ r, negb (bool_decide (ni_id r = mem_self m))) l.*1)
      (mem_rows m) ∧
  mem_self (mem_deliver l m) = mem_self m.
Proof.
  induction l as [|[r t] l IH]; intros m; simpl; [done|].
  destruct (IH (mem_merge r t m).2) as [-> ->]. destruct (mem_merge_rows r t m) as [-> ->].
  split; [|done]. by case_bool_decide.
Qed.

Lemma mem_inv_new c i ts td now : mem_inv (mem_new c i ts td now).
Proof.
  split; simpl.
  - by intros k x [<- <-]%lookup_singleton_Some.
  - rewrite lookup_singleton_eq. eauto.
  - intros id. rewrite !lookup_singleton. by case_decide.
Qed.

Lemma mem_inv_merge r now m : mem_inv m → mem_inv (mem_merge r now m).2.
Proof.
  intros [Hk Hs Hl]. destruct (mem_merge_rows r now m) as [Hr Hself].
  split.
  - rewrite Hr. case_bool_decide; [done|]. by apply keyed_merge.
  - rewrite Hself, Hr. case_bool_decide as Hne; [done|].
    rewrite lww_merge_lookup, decide_False by done. done.
  - intros id. unfold mem_merge. case_bool_decide; [by apply Hl|].
    set (touch := match _ with Some e => _ | None => true end). destruct touch; simpl.
    + destruct (decide (id = ni_id r)) as [->|?].
      * rewrite !lookup_insert_eq. split; eauto.
      * by rewrite !lookup_insert_ne.
    + case_bool_decide; simpl; [|by apply Hl]. rewrite Hl, lookup_alter.
      case_decide as He; subst; by rewrite ?fmap_is_Some.
Qed.

Lemma mem_inv_mark_left id m : mem_inv m → mem_inv (mark_left id m).
Proof.
  intros [Hk Hs Hl]. unfold mark_left. case_bool_decide as Hne; [done|]. split; simpl.
  - intros k x. rewrite lookup_alter. case_decide as He; [|apply Hk].
    intros (y&Hy&->)%fmap_Some_1. apply Hk in Hy. simpl. congruence.
  - by rewrite lookup_alter_ne.
  - intros k. rewrite lookup_alter, <-Hl. case_decide as He; subst; by rewrite ?fmap_is_Some.
Qed.

Lemma ticked_id m now id r : ni_id (ticked m now id r) = ni_id r.
Proof. unfold ticked. by repeat case_bool_decide. Qed.

Lemma tick_frame m now :
  mem_self (tick now m).2 = mem_self m ∧ mem_locals (tick now m).2 = mem_locals m.
Proof. unfold tick. by destruct (foldl _ _ _). Qed.

Lemma mem_inv_tick now m : mem_inv m → mem_inv (tick now m).2.
Proof.
  intros [Hk Hs Hl]. destruct (tick_spec m now) as [Hrows _], (tick_frame m now) as [Hself Hloc].
  split.
  - intros k x. rewrite Hrows. intros (y&Hy&->)%fmap_Some_1. rewrite ticked_id. by apply Hk.
  - by rewrite Hself, Hrows, fmap_is_Some.
  - intros id. by rewrite Hloc, Hrows, fmap_is_Some.
Qed.

(** ** Properties *)

(** Membership converges.  Two nodes that start from the same rows and
    hear of the same rows from their peers, in any order, any number of times
    and at any moments, end with the same rows, provided no node ever published two
    different rows under one [(epoch, hlc)]. *)
Theorem membership_converges m l1 l2 :
  (∀ r, r ∈ l1.*1 ↔ r ∈ l2.*1) →
  consistent ni_id ni_stamp (retain (λ r, negb (bool_decide (ni_id r = mem_self m))) l1.*1)
    (mem_rows m) →
  mem_rows (mem_deliver l1 m) = mem_rows (mem_deliver l2 m).
Proof.
  intros Hl Hc. destruct (mem_deliver_rows l1 m) as [-> _], (mem_deliver_rows l2 m) as [-> _].
  apply lww_fold_converges; [|done]. intros r. by rewrite !elem_of_retain, Hl.
Qed.

(** What peers and time can do to a table. *)
Inductive mem_step : Membership → Membership → Prop :=
| step_merge r now m : mem_step m (mem_merge r now m).2
| step_left id m : mem_step m (mark_left id m)
| step_tick now m : mem_step m (tick now m).2.

Lemma mem_step_self_row m m' :
  mem_step m m' →
  mem_self m' = mem_self m ∧ mem_rows m' !! mem_self m = mem_rows m !! mem_self m.
Proof.
  destruct 1 as [r now m|id m|now m].
  - destruct (mem_merge_rows r now m) as [-> ->]. split; [done|].
    case_bool_decide; [done|]. by rewrite lww_merge_lookup, decide_False.
  - unfold mark_left. case_bool_decide; [done|]. simpl. by rewrite lookup_alter_ne.
  - destruct (tick_spec m now) as [-> _], (tick_frame m now) as [-> _]. split; [done|].
    unfold ticked. rewrite bool_decide_eq_true_2 by done. by destruct (mem_rows m !! mem_self m).
Qed.

(** A node is the authority on itself.  Whatever rows peers gossip,
    whoever is marked as departed and however often the failure detector runs,
    from a fresh table this node's own row stays exactly as it was published,
    the table stays keyed by node id, and every row has a last-seen time. *)
Theorem own_row_authoritative c info ts td now m :
  rtc mem_step (mem_new c info ts td now) m →
  mem_get m (ni_id info) = Some info ∧ mem_inv m.
Proof.
  intros Hrun.
  assert (∀ m1 m2, rtc mem_step m1 m2 → mem_inv m1 →
    mem_inv m2 ∧ mem_self m2 = mem_self m1 ∧
    mem_rows m2 !! mem_self m1 = mem_rows m1 !! mem_self m1) as Hgen.
  { induction 1 as [m1|m1 m2 m3 Hst _ IH]; intros Hi; [done|].
    destruct (mem_step_self_row _ _ Hst) as [Hs Hr].
    destruct IH as (Hi3&Hs3&Hr3).
    - destruct Hst; [by apply mem_inv_merge|by apply mem_inv_mark_left|by apply mem_inv_tick].
    - rewrite Hs in *. split; [done|]. split; [done|]. by rewrite Hr3. }
  destruct (Hgen _ _ Hrun (mem_inv_new _ _ _ _ _)) as (Hi&_&Hr). split; [|done].
  unfold mem_get. simpl in Hr. by rewrite Hr, lookup_singleton_eq.
Qed.

(** The failure detector does what it says.  A tick moves every row of
    another node that is neither dead nor departed to the status its silence
    calls for ([Alive] below the suspect timeout, [Suspect] up to the dead
    timeout, [Dead] from there on), leaves every other row untouched (so
    [Left] and [Dead] are final for the detector), changes nothing but
    statuses, and reports exactly how many rows changed and how many were
    declared dead. *)
Theorem tick_classifies m now :
  (∀ id r, mem_rows m !! id = Some r →
     mem_rows (tick now m).2 !! id = Some
       (if decide (id = mem_self m ∨ ni_status r = Left ∨ ni_status r = Dead) then r
        else with_status (classify m (now - default now (mem_locals m !! id))) r)) ∧
  dom (mem_rows (tick now m).2) = dom (mem_rows m) ∧
  state_changes (tick now m).1 =
    length (filter (λ e, mem_rows (tick now m).2 !! e.1 ≠ Some e.2) (map_to_list (mem_rows m))).
Proof.
  destruct (tick_spec m now) as (Hrows&Hsc&_). split; [|split].
  - intros id r Hr. rewrite Hrows, Hr. simpl. f_equal. unfold ticked, saturating_sub.
    destruct (decide _) as [[?|?]|Hn].
    + by rewrite bool_decide_eq_true_2.
    + rewrite (bool_decide_eq_true_2 (_ ∨ _)) by done. by case_bool_decide.
    + rewrite !bool_decide_eq_false_2; tauto.
  - apply set_eq. intros id. by rewrite !elem_of_dom, Hrows, fmap_is_Some.
  - rewrite Hsc. unfold retain.
    assert (List.filter (λ e, negb (bool_decide (ticked m now e.1 e.2 = e.2)))
        (btree_iter String.le (mem_rows m)) ≡ₚ
      List.filter (λ e, negb (bool_decide (ticked m now e.1 e.2 = e.2))) (map_to_list (mem_rows m)))
      as -> by (by apply Permutation_filter_bool, btree_iter_perm).
    assert (∀ l, (∀ e, e ∈ l → mem_rows m !! e.1 = Some e.2) →
      length (List.filter (λ e, negb (bool_decide (ticked m now e.1 e.2 = e.2))) l) =
      length (filter (λ e, mem_rows (tick now m).2 !! e.1 ≠ Some e.2) l)) as Hgen.
    { induction l as [|[id r] l IH]; intros Hl; [done|]. simpl. rewrite filter_cons.
      assert (mem_rows (tick now m).2 !! id = Some (ticked m now id r)) as Hx.
      { rewrite Hrows. pose proof (Hl (id, r) ltac:(left)) as Hid. simpl in Hid. by rewrite Hid. }
      assert (∀ i x, (i, x) ∈ l → mem_rows m !! i = Some x) as Hl' by (intros; apply (Hl (i, x)); by right).
      case_decide as Hd; cbn [fst snd] in *; rewrite Hx in Hd.
      - rewrite bool_decide_eq_false_2 by congruence. simpl. f_equal. apply IH. intros []. apply Hl'.
      - rewrite bool_decide_eq_true_2 by (apply dec_stable; congruence). apply IH. intros []. apply Hl'. }
    apply Hgen. intros [id r]. by rewrite elem_of_map_to_list.
Qed.

(** Stale gossip keeps a node alive.  A row that does not supersede what
    the table holds, even one of a previous incarnation (a strictly smaller
    epoch) relayed by a third party, leaves the rows unchanged but still counts as
    a heartbeat: a tick before the suspect timeout then finds the node alive. *)
Theorem stale_row_is_heartbeat m r old now later :
  mem_inv m → ni_id r ≠ mem_self m → mem_rows m !! ni_id r = Some old →
  ni_epoch r < ni_epoch old → ni_status old ≠ Left → ni_status old ≠ Dead →
  later - now < timeout_suspect m → later - now < timeout_dead m →
  mem_rows (mem_merge r now m).2 = mem_rows m ∧
  mem_rows (tick later (mem_merge r now m).2).2 !! ni_id r = Some (with_status Alive old).
Proof.
  intros [_ _ Hl] Hne Hold Hep Hs1 Hs2 Ht1 Ht2.
  unfold mem_merge. rewrite bool_decide_eq_false_2 by done. rewrite Hold.
  assert (supersedes r old = false) as ->.
  { unfold supersedes. apply stamp_ge_spec. simpl. by left. }
  rewrite bool_decide_eq_true_2 by eauto. simpl. split; [done|].
  set (m' := set_mem _ _ _). destruct (tick_spec m' later) as [-> _]. simpl. rewrite Hold. simpl.
  unfold ticked. simpl. rewrite !bool_decide_eq_false_2 by tauto.
  destruct (proj1 (Hl (ni_id r))) as [t Ht]; [eauto|].
  rewrite lookup_alter_eq, Ht. simpl. unfold classify, saturating_sub. simpl.
  rewrite !(proj2 (N.leb_gt _ _)) by done. done.
Qed.

(** ** Witnesses *)
Module MemWitness.
Definition me := mkNodeInfo "n1" "mem://n1" 1 0 Alive.
Definition peer := mkNodeInfo "n2" "mem://n2" 3 7 Alive.
Definition stale := mkNodeInfo "n2" "mem://n2" 2 90 Alive.
Definition m0 := mem_new "c" me 10 30 0.
Definition m1 := (mem_merge peer 5 m0).2.
Lemma m1_inv : mem_inv m1.
Proof. apply mem_inv_merge, mem_inv_new. Qed.
End MemWitness.

Lemma membership_converges_witness :
  mem_rows (mem_deliver [(MemWitness.peer, 1); (MemWitness.stale, 2)] MemWitness.m0) =
  mem_rows (mem_deliver [(MemWitness.stale, 1); (MemWitness.peer, 2); (MemWitness.stale, 9)]
              MemWitness.m0).
Proof.
  apply membership_converges.
  - intros r. simpl. rewrite !elem_of_cons. tauto.
  - intros k x y Hx Hy Hs.
    assert (∀ z, candidate ni_id
        (retain (λ r, negb (bool_decide (ni_id r = mem_self MemWitness.m0)))
           [MemWitness.peer; MemWitness.stale])
        (mem_rows MemWitness.m0) k z →
      z = MemWitness.peer ∨ z = MemWitness.stale ∨ z = MemWitness.me) as Hcases.
    { intros z [Hz|[Hz _]].
      - change (({["n1" := MemWitness.me]} : gmap NodeId NodeInfo) !! k = Some z) in Hz.
        apply lookup_singleton_Some in Hz as [_ <-]. tauto.
      - change (z ∈ [MemWitness.peer; MemWitness.stale]) in Hz.
        rewrite !elem_of_cons, elem_of_nil in Hz. tauto. }
    apply Hcases in Hx, Hy. clear Hcases. unfold MemWitness.peer, MemWitness.stale, MemWitness.me in *.
    destruct Hx as [->|[->| ->]], Hy as [->|[->| ->]]; first [reflexivity|discriminate Hs].
Defined.

Lemma own_row_authoritative_witness :
  mem_get (mark_left "n1" (tick 99 MemWitness.m1).2) "n1" = Some MemWitness.me.
Proof.
  apply (own_row_authoritative "c" MemWitness.me 10 30 0).
  eapply rtc_l; [apply (step_merge MemWitness.peer 5)|].
  eapply rtc_l; [apply (step_tick 99)|]. apply rtc_once, step_left.
Defined.

Lemma stale_row_is_heartbeat_witness :
  mem_rows (tick 104 (mem_merge MemWitness.stale 95 MemWitness.m1).2).2 !! "n2" =
    Some MemWitness.peer.
Proof.
  refine (proj2 (stale_row_is_heartbeat MemWitness.m1 MemWitness.stale MemWitness.peer 95 104
    MemWitness.m1_inv _ _ _ _ _ _ _)); first [discriminate|by vm_compute|by apply N.ltb_lt].
Defined.
