(* ===== verification/Proto.v ===== *)
(** * Proto: [celmesh::proto]

    The wire envelope, its payloads, the VM operations and their replies.
    The JSON codec is serde_json's, not code of the repository: [decode] takes
    it as an argument. *)
From S2P Require Import Prelude.
From S2P Require Import Text.
From S2P Require Import Maps.
From S2P Require Import Vault.
From S2P Require Import Network.
From S2P Require Import Federation.
From S2P Require Import Membership.

Definition PROTO_VERSION : N := 1.
Definition MAGIC : string := "celmesh/1".
Definition MAX_FRAME_BYTES : N := 64 * 1024.

(** [VmOp]. *)
Module VmOp.
Inductive t :=
| Create (label : string) (restart_policy : RestartPolicy) (image_path : option string)
    (cpu_count : option N) (memory_mib : option N) (boot_blob_crc32c : option N)
| Start (vm_id : N)
| Stop (vm_id : N)
| Delete (vm_id : N)
| List
| CreateVolume (name : string) (size_bytes : N)
| DeleteVolume (volume_id : VolumeId)
| ListVolumes
| AttachVolume (vm_id : N) (volume_id : VolumeId) (mount_name : string)
| DetachVolume (vm_id : N) (volume_id : VolumeId)
| ReadVolume (volume_id : VolumeId) (offset len : N)
| WriteVolume (volume_id : VolumeId) (offset : N) (bytes : bytes)
| CreateSnapshot (volume_id : VolumeId) (name : string)
| ListSnapshots (volume_id : option VolumeId)
| DeleteSnapshot (snapshot_id : SnapshotId)
| RestoreSnapshot (snapshot_id : SnapshotId)
| CreateNetwork (name cidr : string)
| DeleteNetwork (network_id : NetworkId)
| ListNetworks
| AttachNic (network_id : NetworkId) (vm_id : N) (ip : option string)
| DetachNic (nic_id : NicId)
| ListNics
| CreateSecurityGroup (name : string) (rules : list SecurityRule)
| DeleteSecurityGroup (sg_id : SecurityGroupId)
| ListSecurityGroups
| CreateLoadBalancer (name : string) (network_id : NetworkId) (vip : string)
    (frontend_port : N) (algo : LbAlgo) (backends : list LbBackend)
| DeleteLoadBalancer (lb_id : LoadBalancerId)
| ListLoadBalancers.
End VmOp.

(** [VmOpReply]. *)
Module VmOpReply.
Inductive t :=
| Created (vm_id : N)
| State (vm_id : N) (state : string)
| Deleted (vm_id : N)
| Listed (rows : list RemoteVm)
| VolumeCreated (volume : VolumeMeta)
| VolumeDeleted (volume_id : VolumeId)
| VolumesListed (volumes : list VolumeMeta)
| Attachments (vm_id : N) (volumes : list VolumeAttachment)
| VolumeData (volume_id : VolumeId) (bytes : bytes)
| VolumeWritten (volume_id : VolumeId) (bytes_written : N)
| SnapshotCreated (snapshot : SnapshotMeta)
| SnapshotsListed (snapshots : list SnapshotMeta)
| SnapshotDeleted (snapshot_id : SnapshotId)
| SnapshotRestored (snapshot_id : SnapshotId)
| NetworkCreated (network : VirtualNetwork)
| NetworkDeleted (network_id : NetworkId)
| NetworksListed (networks : list VirtualNetwork)
| NicAttached (nic : Nic)
| NicDetached (nic_id : NicId)
| NicsListed (nics : list Nic)
| SecurityGroupCreated (sg : SecurityGroup)
| SecurityGroupDeleted (sg_id : SecurityGroupId)
| SecurityGroupsListed (sgs : list SecurityGroup)
| LoadBalancerCreated (lb : LoadBalancer)
| LoadBalancerDeleted (lb_id : LoadBalancerId)
| LoadBalancersListed (lbs : list LoadBalancer).
End VmOpReply.

(** [VmOpResult]: the wire form of [Result<VmOpReply, String>]. *)
Definition VmOpResult := result string VmOpReply.t.

(** [Payload]. *)
Module Payload.
Inductive t :=
| Hello (node : NodeInfo)
| Sync (nodes : list NodeInfo) (vms : list RemoteVm)
| Goodbye
| Request (req_id : N) (target : string) (op : VmOp.t)
| Response (req_id : N) (res : VmOpResult).
End Payload.

Record Envelope := mkEnvelope {
  env_magic : string;
  env_version : N;
  env_from : string;
  env_cluster : string;
  env_hlc : N;
  env_payload : Payload.t
}.

Inductive DecodeError := TooLarge | Malformed | BadMagic | VersionMismatch.

(** [Envelope::decode], over the JSON parser [from_slice]. *)
Definition decode (from_slice : bytes → option Envelope) (frame : bytes)
  : result DecodeError Envelope :=
  if (MAX_FRAME_BYTES <? blen frame)%N then Err TooLarge
  else
    env ← ok_or (from_slice frame) Malformed;
    if negb (bool_decide (env_magic env = MAGIC)) then Err BadMagic
    else if negb (env_version env =? PROTO_VERSION)%N then Err VersionMismatch
    else Ok env.
