(* ===== verification/Capabilities.v ===== *)
(** * Capabilities: [celmesh::capabilities]

    The [u32] bit set that gates every operation of a host, and the capability
    each operation requires. *)
From S2P Require Import Prelude.
From S2P Require Import Text.
From S2P Require Import Proto.
Local Open Scope N_scope.

Module Capabilities.

Record t := mk { cap_bits : N }.
#[export] Instance t_eq_dec : EqDecision t.
Proof. solve_decision. Defined.

Definition NONE := mk 0.
Definition VM_LIFECYCLE_READ := mk (N.shiftl 1 0).
Definition VM_LIFECYCLE_WRITE := mk (N.shiftl 1 1).
Definition VOLUME_READ := mk (N.shiftl 1 2).
Definition VOLUME_WRITE := mk (N.shiftl 1 3).
Definition VOLUME_ATTACH := mk (N.shiftl 1 4).
Definition SNAPSHOT_READ := mk (N.shiftl 1 5).
Definition SNAPSHOT_WRITE := mk (N.shiftl 1 6).
Definition NETWORK_READ := mk (N.shiftl 1 7).
Definition NETWORK_WRITE := mk (N.shiftl 1 8).
Definition SECGROUP_READ := mk (N.shiftl 1 9).
Definition SECGROUP_WRITE := mk (N.shiftl 1 10).
Definition LB_READ := mk (N.shiftl 1 11).
Definition LB_WRITE := mk (N.shiftl 1 12).

Definition bitor (a b : t) : t := mk (N.lor (cap_bits a) (cap_bits b)).

Definition ALL : t :=
  foldl bitor VM_LIFECYCLE_READ
    [VM_LIFECYCLE_WRITE; VOLUME_READ; VOLUME_WRITE; VOLUME_ATTACH; SNAPSHOT_READ; SNAPSHOT_WRITE;
     NETWORK_READ; NETWORK_WRITE; SECGROUP_READ; SECGROUP_WRITE; LB_READ; LB_WRITE].

Definition contains (self c : t) : bool := N.land (cap_bits self) (cap_bits c) =? cap_bits c.
Definition grant (self c : t) : t := mk (N.lor (cap_bits self) (cap_bits c)).
Definition revoke (self c : t) : t := mk (N.land (cap_bits self) (bitnot 32 (cap_bits c))).

(** [Capabilities::required]. *)
Definition required (op : VmOp.t) : t :=
  match op with
  | VmOp.Create _ _ _ _ _ _ | VmOp.Start _ | VmOp.Stop _ | VmOp.Delete _ => VM_LIFECYCLE_WRITE
  | VmOp.List => VM_LIFECYCLE_READ
  | VmOp.CreateVolume _ _ | VmOp.DeleteVolume _ | VmOp.WriteVolume _ _ _ => VOLUME_WRITE
  | VmOp.ListVolumes | VmOp.ReadVolume _ _ _ => VOLUME_READ
  | VmOp.AttachVolume _ _ _ | VmOp.DetachVolume _ _ => VOLUME_ATTACH
  | VmOp.CreateSnapshot _ _ | VmOp.DeleteSnapshot _ | VmOp.RestoreSnapshot _ => SNAPSHOT_WRITE
  | VmOp.ListSnapshots _ => SNAPSHOT_READ
  | VmOp.CreateNetwork _ _ | VmOp.DeleteNetwork _ | VmOp.AttachNic _ _ _ | VmOp.DetachNic _ =>
      NETWORK_WRITE
  | VmOp.ListNetworks | VmOp.ListNics => NETWORK_READ
  | VmOp.CreateSecurityGroup _ _ | VmOp.DeleteSecurityGroup _ => SECGROUP_WRITE
  | VmOp.ListSecurityGroups => SECGROUP_READ
  | VmOp.CreateLoadBalancer _ _ _ _ _ _ | VmOp.DeleteLoadBalancer _ => LB_WRITE
  | VmOp.ListLoadBalancers => LB_READ
  end.

(** [Capabilities::op_tag]. *)
Definition op_tag (op : VmOp.t) : string :=
  match op with
  | VmOp.Create _ _ _ _ _ _ => "vm.create"
  | VmOp.Start _ => "vm.start"
  | VmOp.Stop _ => "vm.stop"
  | VmOp.Delete _ => "vm.delete"
  | VmOp.List => "vm.list"
  | VmOp.CreateVolume _ _ => "vol.create"
  | VmOp.DeleteVolume _ => "vol.delete"
  | VmOp.ListVolumes => "vol.list"
  | VmOp.ReadVolume _ _ _ => "vol.read"
  | VmOp.WriteVolume _ _ _ => "vol.write"
  | VmOp.AttachVolume _ _ _ => "vol.attach"
  | VmOp.DetachVolume _ _ => "vol.detach"
  | VmOp.CreateSnapshot _ _ => "snap.create"
  | VmOp.ListSnapshots _ => "snap.list"
  | VmOp.DeleteSnapshot _ => "snap.delete"
  | VmOp.RestoreSnapshot _ => "snap.restore"
  | VmOp.CreateNetwork _ _ => "net.create"
  | VmOp.DeleteNetwork _ => "net.delete"
  | VmOp.ListNetworks => "net.list"
  | VmOp.AttachNic _ _ _ => "net.nic.attach"
  | VmOp.DetachNic _ => "net.nic.detach"
  | VmOp.ListNics => "net.nic.list"
  | VmOp.CreateSecurityGroup _ _ => "sg.create"
  | VmOp.DeleteSecurityGroup _ => "sg.delete"
  | VmOp.ListSecurityGroups => "sg.list"
  | VmOp.CreateLoadBalancer _ _ _ _ _ _ => "lb.create"
  | VmOp.DeleteLoadBalancer _ => "lb.delete"
  | VmOp.ListLoadBalancers => "lb.list"
  end.

(** ** Lemmas *)
Lemma contains_spec a b : contains a b = true ↔
  ∀ i, N.testbit (cap_bits b) i = true → N.testbit (cap_bits a) i = true.
Proof.
  unfold contains. rewrite N.eqb_eq. split.
  - intros He i. rewrite <-He, N.land_spec. by destruct (N.testbit (cap_bits a) i).
  - intros Hsub. apply N.bits_inj. intros i. rewrite N.land_spec. specialize (Hsub i).
    destruct (N.testbit (cap_bits b) i); [|by rewrite andb_false_r]. by rewrite Hsub.
Qed.

Lemma contains_refl a : contains a a = true.
Proof. by apply contains_spec. Qed.

Lemma contains_trans a b c : contains a b = true → contains b c = true → contains a c = true.
Proof. rewrite !contains_spec. auto. Qed.

Lemma contains_grant a b : contains (grant a b) b = true ∧ contains (grant a b) a = true.
Proof. rewrite !contains_spec. split; intros i; simpl; rewrite N.lor_spec; intros ->; by rewrite ?orb_true_r. Qed.

Lemma revoke_disjoint a b i :
  N.testbit (cap_bits b) i = true → i < 32 → N.testbit (cap_bits (revoke a b)) i = false.
Proof.
  intros Hb Hi. unfold revoke, bitnot, umax. simpl. rewrite N.land_spec, N.lxor_spec, Hb.
  rewrite <-N.pred_sub. rewrite <-(N.ones_equiv 32), N.ones_spec_low by done. by rewrite andb_false_r.
Qed.
End Capabilities.
