(* ===== verification/Host.v ===== *)
(** * Host: [celmesh::host]

    The [VmHost] trait and its in-memory implementation [MemVmHost]: four VM
    slots, a volume store and a network store behind their interfaces, and
    the capability gate in front of every operation.  A handled operation is
    one step of the state; AttachVolume and DeleteVolume look at one lock and
    act under another, and are written as the two sections they consist of. *)
From S2P Require Import Prelude.
From S2P Require Import Text.
From S2P Require Import Errors.
From S2P Require Import Maps.
From S2P Require Import Vault.
From S2P Require Import Network.
From S2P Require Import Federation.
From S2P Require Import Proto.
From S2P Require Import Capabilities.

Abbreviation HostResult := (result string VmOpReply.t).

(** The [VmHost] trait.  The default body of [attach_preserved] is
    [attach_preserved_default]. *)
Class VmHost (H : Type) := {
  vh_handle : VmOp.t → st H string VmOpReply.t;
  vh_snapshot : NodeId → H → list RemoteVm * H;
  vh_attach_preserved : N → list VolumeAttachment → st H string unit
}.

Definition attach_preserved_default {H} (vm_id : N) (atts : list VolumeAttachment)
  : st H string unit := mthrow "attach_preserved: unsupported".

Definition MAX_SLOTS : N := 4.
Definition MAX_VOLUME_IO_BYTES : N := 32 * 1024.

Record Slot := mkSlot {
  sl_label : string;
  sl_state : string;
  sl_last_exit : option N;
  sl_restart_policy : RestartPolicy;
  sl_volumes : list VolumeAttachment;
  sl_image_path : option string;
  sl_cpu_count : option N;
  sl_memory_mib : option N;
  sl_boot_blob_crc32c : option N
}.

Definition slot_set_state (state : string) (last_exit : option N) (s : Slot) : Slot :=
  mkSlot (sl_label s) state last_exit (sl_restart_policy s) (sl_volumes s) (sl_image_path s)
    (sl_cpu_count s) (sl_memory_mib s) (sl_boot_blob_crc32c s).
Definition slot_set_volumes (vs : list VolumeAttachment) (s : Slot) : Slot :=
  mkSlot (sl_label s) (sl_state s) (sl_last_exit s) (sl_restart_policy s) vs (sl_image_path s)
    (sl_cpu_count s) (sl_memory_mib s) (sl_boot_blob_crc32c s).

Module MemVmHost.
Section host.
Context {V W : Type} `{VolumeStore V} `{NetworkStore W}.

Record t := mk {
  slots : list (option Slot);
  vault : V;
  nets : W;
  owner : option string;
  caps : Capabilities.t
}.

Abbreviation M := (st t string).

Definition with_stores (v : V) (w : W) : t :=
  mk (replicate (N.to_nat MAX_SLOTS) None) v w None Capabilities.ALL.
Definition with_caps (c : Capabilities.t) (h : t) : t :=
  mk (slots h) (vault h) (nets h) (owner h) c.

Definition set_slots (s : list (option Slot)) (h : t) : t :=
  mk s (vault h) (nets h) (owner h) (caps h).
Definition set_vault (v : V) (h : t) : t := mk (slots h) v (nets h) (owner h) (caps h).
Definition set_nets (w : W) (h : t) : t := mk (slots h) (vault h) w (owner h) (caps h).
Definition set_owner (o : option string) (h : t) : t :=
  mk (slots h) (vault h) (nets h) o (caps h).

Definition remember_owner (o : NodeId) (h : t) : t :=
  match owner h with None => set_owner (Some o) h | Some _ => h end.

(** [slot_mut], as the slot it borrows; [put_slot] writes it back. *)
Definition slot_mut (ss : list (option Slot)) (vm_id : N) : result string Slot :=
  if (MAX_SLOTS <=? vm_id)%N then Err "vm id out of range"
  else ok_or (mjoin (ss !! N.to_nat vm_id)) "vm not allocated".
Definition put_slot (vm_id : N) (s : option Slot) : M unit :=
  modify (λ h, set_slots (<[N.to_nat vm_id := s]> (slots h)) h).

Definition terminal (state : string) : bool :=
  bool_decide (state = "halted") || bool_decide (state = "stopped")
  || bool_decide (state = "faulted").

(** The first free slot, from index [i]. *)
Fixpoint first_free (ss : list (option Slot)) (i : nat) : option nat :=
  match ss with
  | [] => None
  | None :: _ => Some i
  | Some _ :: ss' => first_free ss' (S i)
  end.

(** Calls into the stores, their errors rendered as [format!("{msg}{e:?}")]. *)
Definition on_vault {A} (msg : string) (m : st V CelError A) : M A :=
  zoom vault set_vault (λ v, let '(r, v') := m v in (map_err (λ e, msg +:+ debug_error e) r, v')).
Definition on_nets {A} (msg : string) (m : st W CelError A) : M A :=
  zoom nets set_nets (λ w, let '(r, w') := m w in (map_err (λ e, msg +:+ debug_error e) r, w')).

Definition attached (vs : list VolumeAttachment) (id : VolumeId) : bool :=
  existsb (λ a, bool_decide (att_volume_id a = id)) vs.

(** The longer arms of [apply]. *)
Definition apply_create (label : string) (rp : RestartPolicy) (image_path : option string)
    (cpu_count memory_mib crc : option N) : M VmOpReply.t :=
  _ ← bail_if (32 <? len label)%N "label > 32 chars";
  h ← get_st;
  match first_free (slots h) 0 with
  | Some i =>
      let s := mkSlot label "created" None rp [] image_path cpu_count memory_mib crc in
      _ ← modify (set_slots (<[i := Some s]> (slots h)));
      mret (VmOpReply.Created (N.of_nat i))
  | None => mthrow "vm registry full"
  end.

Definition apply_start (vm_id : N) : M VmOpReply.t :=
  h ← get_st;
  s ← try (slot_mut (slots h) vm_id);
  _ ← bail_if (terminal (sl_state s)) "vm already terminal";
  _ ← bail_if (bool_decide (sl_state s = "running")) "vm already running";
  _ ← put_slot vm_id (Some (slot_set_state "halted" (Some 12%N) s));
  mret (VmOpReply.State vm_id "halted").

Definition apply_stop (vm_id : N) : M VmOpReply.t :=
  h ← get_st;
  s ← try (slot_mut (slots h) vm_id);
  let s' := if terminal (sl_state s) then s
            else slot_set_state "stopped" (sl_last_exit s) s in
  _ ← put_slot vm_id (Some s');
  mret (VmOpReply.State vm_id (sl_state s')).

Definition apply_delete (vm_id : N) : M VmOpReply.t :=
  h ← get_st;
  s ← try (slot_mut (slots h) vm_id);
  _ ← bail_if (negb (terminal (sl_state s))) "vm not terminal; stop first";
  _ ← put_slot vm_id None;
  mret (VmOpReply.Deleted vm_id).

(** DeleteVolume looks at the slots, lets go of them, and asks the vault. *)
Definition delete_check (id : VolumeId) : M unit :=
  h ← get_st;
  bail_if (existsb (λ s, match s with Some s => attached (sl_volumes s) id | None => false end)
             (slots h)) "vault delete: volume still attached".
Definition delete_act (id : VolumeId) : M VmOpReply.t :=
  _ ← on_vault "vault delete: " (vs_delete id);
  mret (VmOpReply.VolumeDeleted id).
Definition apply_delete_volume (id : VolumeId) : M VmOpReply.t :=
  _ ← delete_check id; delete_act id.

(** AttachVolume asks the vault, and then takes the slots. *)
Definition attach_check (id : VolumeId) (mount_name : string) : M unit :=
  _ ← bail_if (MAX_MOUNT <? len mount_name)%N "attach: mount_name > MAX_MOUNT";
  h ← get_st;
  _ ← try (ok_or (vs_get (vault h) id) "attach: unknown volume");
  mret tt.
Definition attach_act (vm_id : N) (id : VolumeId) (mount_name : string) : M VmOpReply.t :=
  h ← get_st;
  s ← try (slot_mut (slots h) vm_id);
  _ ← bail_if (attached (sl_volumes s) id) "attach: volume already attached";
  let vs := sl_volumes s ++ [mkAttachment id mount_name] in
  _ ← put_slot vm_id (Some (slot_set_volumes vs s));
  mret (VmOpReply.Attachments vm_id vs).
Definition apply_attach_volume (vm_id : N) (id : VolumeId) (mount_name : string)
  : M VmOpReply.t :=
  _ ← attach_check id mount_name; attach_act vm_id id mount_name.

Definition apply_detach_volume (vm_id : N) (id : VolumeId) : M VmOpReply.t :=
  h ← get_st;
  s ← try (slot_mut (slots h) vm_id);
  let vs := retain (λ a, negb (bool_decide (att_volume_id a = id))) (sl_volumes s) in
  _ ← put_slot vm_id (Some (slot_set_volumes vs s));
  mret (VmOpReply.Attachments vm_id vs).

Definition current_owner (msg : string) : M string :=
  h ← get_st; try (ok_or (owner h) msg).

(** [MemVmHost::apply]. *)
Definition apply (op : VmOp.t) : M VmOpReply.t :=
  h ← get_st;
  _ ← bail_if (negb (Capabilities.contains (caps h) (Capabilities.required op)))
        ("capability denied: " +:+ Capabilities.op_tag op);
  match op with
  | VmOp.Create label rp image cpu mem crc => apply_create label rp image cpu mem crc
  | VmOp.Start vm_id => apply_start vm_id
  | VmOp.Stop vm_id => apply_stop vm_id
  | VmOp.Delete vm_id => apply_delete vm_id
  | VmOp.List => mret (VmOpReply.Listed [])
  | VmOp.CreateVolume name size_bytes =>
      o ← current_owner "vault: owner not yet known; snapshot first";
      meta ← on_vault "vault create: " (vs_create o name size_bytes);
      mret (VmOpReply.VolumeCreated meta)
  | VmOp.DeleteVolume id => apply_delete_volume id
  | VmOp.ListVolumes => h ← get_st; mret (VmOpReply.VolumesListed (vs_list (vault h)))
  | VmOp.AttachVolume vm_id id mount => apply_attach_volume vm_id id mount
  | VmOp.DetachVolume vm_id id => apply_detach_volume vm_id id
  | VmOp.ReadVolume id offset n =>
      _ ← bail_if (MAX_VOLUME_IO_BYTES <? n)%N "volume io: chunk too large";
      h ← get_st;
      b ← try (map_err (λ e, "vault read: " +:+ debug_error e) (vs_read (vault h) id offset n));
      mret (VmOpReply.VolumeData id b)
  | VmOp.WriteVolume id offset b =>
      _ ← bail_if (MAX_VOLUME_IO_BYTES <? blen b)%N "volume io: chunk too large";
      _ ← on_vault "vault write: " (vs_write id offset b);
      mret (VmOpReply.VolumeWritten id (blen b))
  | VmOp.CreateSnapshot id name =>
      snap ← on_vault "vault snapshot: " (vs_create_snapshot id name);
      mret (VmOpReply.SnapshotCreated snap)
  | VmOp.ListSnapshots id =>
      h ← get_st; mret (VmOpReply.SnapshotsListed (vs_list_snapshots (vault h) id))
  | VmOp.DeleteSnapshot id =>
      _ ← on_vault "vault snapshot delete: " (vs_delete_snapshot id);
      mret (VmOpReply.SnapshotDeleted id)
  | VmOp.RestoreSnapshot id =>
      _ ← on_vault "vault snapshot restore: " (vs_restore_snapshot id);
      mret (VmOpReply.SnapshotRestored id)
  | VmOp.CreateNetwork name cidr =>
      o ← current_owner "net: owner not yet known; snapshot first";
      block ← try (map_err (λ e, "net create: " +:+ debug_error e) (cidr_parse cidr));
      net ← on_nets "net create: " (ns_create_network o name block);
      mret (VmOpReply.NetworkCreated net)
  | VmOp.DeleteNetwork id =>
      _ ← on_nets "net delete: " (ns_delete_network id); mret (VmOpReply.NetworkDeleted id)
  | VmOp.ListNetworks => h ← get_st; mret (VmOpReply.NetworksListed (ns_list_networks (nets h)))
  | VmOp.AttachNic network_id vm_id ip =>
      h ← get_st;
      _ ← try (slot_mut (slots h) vm_id);
      parsed ← try (match ip with
                    | Some s => Some <$> ok_or (parse_ipv4 s) "net.nic.attach: bad ip"
                    | None => Ok None
                    end);
      nic ← on_nets "net.nic.attach: " (ns_attach_nic network_id vm_id parsed);
      mret (VmOpReply.NicAttached nic)
  | VmOp.DetachNic id =>
      _ ← on_nets "net.nic.detach: " (ns_detach_nic id); mret (VmOpReply.NicDetached id)
  | VmOp.ListNics => h ← get_st; mret (VmOpReply.NicsListed (ns_list_nics (nets h)))
  | VmOp.CreateSecurityGroup name rules =>
      o ← current_owner "sg: owner not yet known; snapshot first";
      sg ← on_nets "sg create: " (ns_create_security_group o name rules);
      mret (VmOpReply.SecurityGroupCreated sg)
  | VmOp.DeleteSecurityGroup id =>
      _ ← on_nets "sg delete: " (ns_delete_security_group id);
      mret (VmOpReply.SecurityGroupDeleted id)
  | VmOp.ListSecurityGroups =>
      h ← get_st; mret (VmOpReply.SecurityGroupsListed (ns_list_security_groups (nets h)))
  | VmOp.CreateLoadBalancer name network_id vip port algo backends =>
      o ← current_owner "lb: owner not yet known; snapshot first";
      vip ← try (ok_or (parse_ipv4 vip) "lb create: bad vip");
      lb ← on_nets "lb create: " (ns_create_load_balancer o name network_id vip port algo backends);
      mret (VmOpReply.LoadBalancerCreated lb)
  | VmOp.DeleteLoadBalancer id =>
      _ ← on_nets "lb delete: " (ns_delete_load_balancer id);
      mret (VmOpReply.LoadBalancerDeleted id)
  | VmOp.ListLoadBalancers =>
      h ← get_st; mret (VmOpReply.LoadBalancersListed (ns_list_load_balancers (nets h)))
  end.

Definition row_of (owner : NodeId) (i : nat) (s : Slot) : RemoteVm :=
  mkRemoteVm owner (N.of_nat i) (sl_label s) (sl_state s) (sl_last_exit s) 0 0 true
    (sl_restart_policy s) (sl_volumes s) (sl_image_path s) (sl_cpu_count s) (sl_memory_mib s)
    (sl_boot_blob_crc32c s).

(** [current_rows]: remember the owner, then list the occupied slots. *)
Definition current_rows (owner : NodeId) (h : t) : list RemoteVm * t :=
  let h := remember_owner owner h in
  (omap (λ e, row_of owner e.1 <$> e.2) (imap pair (slots h)), h).

Definition attach_preserved (vm_id : N) (atts : list VolumeAttachment) : M unit :=
  h ← get_st;
  s ← try (slot_mut (slots h) vm_id);
  put_slot vm_id (Some (slot_set_volumes atts s)).

#[export] Instance host : VmHost t := {|
  vh_handle := apply;
  vh_snapshot := current_rows;
  vh_attach_preserved := attach_preserved
|}.
End host.
Arguments t : clear implicits.
End MemVmHost.
#[export] Existing Instance MemVmHost.host.
