(* ===== verification/HostProofs.v ===== *)
(** * HostProofs: the capability gate, the slot life cycle and attachments *)
From S2P Require Import Prelude.
From S2P Require Import Text.
From S2P Require Import Errors.
From S2P Require Import Maps.
From S2P Require Import Vault.
From S2P Require Import Network.
From S2P Require Import Federation.
From S2P Require Import Proto.
From S2P Require Import Capabilities.
From S2P Require Import Host.

Section host.
Context {V W : Type} `{VolumeStore V} `{NetworkStore W}.
Import MemVmHost.
Abbreviation host := (MemVmHost.t V W).
Implicit Types h : host.

(** ** Frame lemmas: what a call into a store leaves alone *)
Lemma bind_mret_state {S E A B} (m : st S E A) (f : A → B) s :
  ((m ≫= λ a, mret (f a)) s).2 = (m s).2.
Proof. unfold mbind, st_bind. by destruct (m s) as [[a|e] s']. Qed.

Lemma bind_try_state {S E A B} (r : result E A) (k : A → st S E B) s s' :
  ((try r ≫= k) s).2 = s' ↔ match r with Ok a => (k a s).2 = s' | Err _ => s = s' end.
Proof. unfold mbind, st_bind, try. by destruct r. Qed.

Lemma on_vault_state {A} msg (m : st V CelError A) h :
  (on_vault msg m h).2 = set_vault (m (vault h)).2 h.
Proof. unfold on_vault, zoom. by destruct (m (vault h)). Qed.

Lemma on_nets_state {A} msg (m : st W CelError A) h :
  (on_nets msg m h).2 = set_nets (m (nets h)).2 h.
Proof. unfold on_nets, zoom. by destruct (m (nets h)). Qed.

(** [apply] is its arm behind the gate. *)
Lemma apply_denied op h :
  Capabilities.contains (caps h) (Capabilities.required op) = false →
  apply op h = (Err ("capability denied: " +:+ Capabilities.op_tag op), h).
Proof. intros Hc. unfold apply. st_unfold. by rewrite Hc. Qed.

(** ** Read-only hosts *)

(** The bits whose operations change something. *)
Definition WRITE_CAPS : Capabilities.t :=
  foldl Capabilities.bitor Capabilities.VM_LIFECYCLE_WRITE
    [Capabilities.VOLUME_WRITE; Capabilities.VOLUME_ATTACH; Capabilities.SNAPSHOT_WRITE;
     Capabilities.NETWORK_WRITE; Capabilities.SECGROUP_WRITE; Capabilities.LB_WRITE].

Definition read_only (c : Capabilities.t) : Prop :=
  N.land (Capabilities.cap_bits c) (Capabilities.cap_bits WRITE_CAPS) = 0%N.

Lemma read_only_denies c w :
  read_only c → Capabilities.contains WRITE_CAPS w = true → w ≠ Capabilities.NONE →
  Capabilities.contains c w = false.
Proof.
  unfold read_only. intros Hro Hw Hne. apply not_true_is_false. intros Hc. apply Hne.
  rewrite Capabilities.contains_spec in Hw, Hc.
  destruct w as [b]. unfold Capabilities.NONE. f_equal. apply N.bits_inj_0. intros i.
  apply not_true_is_false. intros Hi.
  pose proof (Hw i Hi) as H1'. pose proof (Hc i Hi) as H2'.
  assert (N.testbit (N.land (Capabilities.cap_bits c) (Capabilities.cap_bits WRITE_CAPS)) i = true)
    as Hx by (by rewrite N.land_spec, H1', H2').
  by rewrite Hro, N.bits_0 in Hx.
Qed.

(** ** The slot life cycle *)

(** A legal transition of one slot, where [known] are the volumes of the
    vault. *)
Inductive slot_step (known : VolumeId → Prop) : option Slot → option Slot → Prop :=
| slot_create s :
    (len (sl_label s) ≤ 32)%N → sl_state s = "created" → sl_last_exit s = None →
    sl_volumes s = [] → slot_step known None (Some s)
| slot_start s :
    terminal (sl_state s) = false → sl_state s ≠ "running" →
    slot_step known (Some s) (Some (slot_set_state "halted" (Some 12%N) s))
| slot_stop s :
    terminal (sl_state s) = false →
    slot_step known (Some s) (Some (slot_set_state "stopped" (sl_last_exit s) s))
| slot_stop_again s : terminal (sl_state s) = true → slot_step known (Some s) (Some s)
| slot_delete s : terminal (sl_state s) = true → slot_step known (Some s) None
| slot_attach s a :
    known (att_volume_id a) → attached (sl_volumes s) (att_volume_id a) = false →
    (len (att_mount_name a) ≤ MAX_MOUNT)%N →
    slot_step known (Some s) (Some (slot_set_volumes (sl_volumes s ++ [a]) s))
| slot_detach s id :
    slot_step known (Some s) (Some (slot_set_volumes
      (retain (λ a, negb (bool_decide (att_volume_id a = id))) (sl_volumes s)) s)).

Lemma slot_mut_Ok ss vm_id s :
  slot_mut ss vm_id = Ok s → (vm_id < MAX_SLOTS)%N ∧ ss !! N.to_nat vm_id = Some (Some s).
Proof.
  unfold slot_mut. destruct (N.leb_spec MAX_SLOTS vm_id); [done|].
  intros Hs%ok_or_Ok. split; [done|]. by destruct (ss !! _) as [[]|]; simplify_eq/=.
Qed.

Lemma first_free_Some ss : ∀ i k,
  first_free ss i = Some k →
  ∃ j, k = (i + j)%nat ∧ ss !! j = Some None ∧ ∀ j', (j' < j)%nat → ∃ s, ss !! j' = Some (Some s).
Proof.
  induction ss as [|[s|] ss IH]; intros i k; simpl; [done| |].
  - intros (j&->&Hj&Hlt)%IH. exists (S j). split; [lia|]. split; [done|].
    intros [|j'] Hj'; [by exists s|]. apply Hlt. lia.
  - intros [= <-]. exists 0%nat. split; [lia|]. split; [done|]. lia.
Qed.

(** ** The effect of an operation

    Whatever an operation answers, it changed nothing, moved one slot along a
    legal transition, made one call into the volume store, or made one call
    into the network store. *)
Definition known h (id : VolumeId) : Prop := is_Some (vs_get (vault h) id).

Definition unattached h (id : VolumeId) : Prop :=
  ∀ i s, slots h !! i = Some (Some s) → attached (sl_volumes s) id = false.

Inductive host_effect h : host → Prop :=
| eff_none : host_effect h h
| eff_slot i o o' :
    slots h !! i = Some o → slot_step (known h) o o' →
    host_effect h (set_slots (<[i := o']> (slots h)) h)
| eff_vault c :
    (∀ id, c = VDelete id → unattached h id) →
    (∀ o n s, c = VCreate o n s → owner h = Some o) →
    host_effect h (set_vault (vexec c (vault h)).2 h)
| eff_nets w : host_effect h (set_nets w h).

Lemma effect_mut h vm_id s o' :
  slot_mut (slots h) vm_id = Ok s → slot_step (known h) (Some s) o' →
  host_effect h (set_slots (<[N.to_nat vm_id := o']> (slots h)) h).
Proof. intros [_ Hs]%slot_mut_Ok Hst. by eapply eff_slot. Qed.

(** One call into a store, followed by a pure answer. *)
Lemma effect_vault {A} h msg c (m : st V CelError A) (f : A → vreply) (g : A → VmOpReply.t) :
  vexec c = (x ← m; mret (f x)) →
  (∀ id, c = VDelete id → unattached h id) →
  (∀ o n s, c = VCreate o n s → owner h = Some o) →
  host_effect h ((x ← on_vault msg m; mret (g x)) h).2.
Proof.
  intros Hc Hd Ho. rewrite bind_mret_state, on_vault_state.
  assert ((m (vault h)).2 = (vexec c (vault h)).2) as ->
    by (by rewrite Hc, bind_mret_state).
  by apply eff_vault.
Qed.

Lemma effect_nets {A} h msg (m : st W CelError A) (g : A → VmOpReply.t) :
  host_effect h ((x ← on_nets msg m; mret (g x)) h).2.
Proof. rewrite bind_mret_state, on_nets_state. apply eff_nets. Qed.

Lemma effect_create label rp image cpu mem crc h :
  host_effect h (apply_create label rp image cpu mem crc h).2.
Proof.
  unfold apply_create. st_unfold. destruct (N.ltb_spec 32 (len label)); simpl; [constructor|].
  destruct (first_free (slots h) 0) as [k|] eqn:E; simpl; [|constructor].
  apply first_free_Some in E as (j&->&Hj&_). eapply eff_slot; [done|by constructor].
Qed.

Lemma effect_start vm_id h : host_effect h (apply_start vm_id h).2.
Proof.
  unfold apply_start. st_unfold.
  destruct (slot_mut (slots h) vm_id) as [s|] eqn:E; simpl; [|constructor].
  destruct (terminal (sl_state s)) eqn:Et; simpl; [constructor|].
  case_bool_decide; simpl; [constructor|]. eapply effect_mut; [done|by constructor].
Qed.

Lemma effect_stop vm_id h : host_effect h (apply_stop vm_id h).2.
Proof.
  unfold apply_stop. st_unfold.
  destruct (slot_mut (slots h) vm_id) as [s|] eqn:E; simpl; [|constructor].
  eapply effect_mut; [done|]. destruct (terminal (sl_state s)) eqn:Et; by constructor.
Qed.

Lemma effect_delete vm_id h : host_effect h (apply_delete vm_id h).2.
Proof.
  unfold apply_delete. st_unfold.
  destruct (slot_mut (slots h) vm_id) as [s|] eqn:E; simpl; [|constructor].
  destruct (terminal (sl_state s)) eqn:Et; simpl; [|constructor].
  eapply effect_mut; [done|by constructor].
Qed.

Lemma effect_attach vm_id id mount h : host_effect h (apply_attach_volume vm_id id mount h).2.
Proof.
  unfold apply_attach_volume, attach_check, attach_act. st_unfold.
  destruct (N.ltb_spec MAX_MOUNT (len mount)); simpl; [constructor|].
  destruct (vs_get (vault h) id) as [m|] eqn:Ev; simpl; [|constructor].
  destruct (slot_mut (slots h) vm_id) as [s|] eqn:E; simpl; [|constructor].
  destruct (attached (sl_volumes s) id) eqn:Ea; simpl; [constructor|].
  eapply effect_mut; [done|]. apply slot_attach; [|done|done]. unfold known. simpl. by rewrite Ev.
Qed.

Lemma effect_detach vm_id id h : host_effect h (apply_detach_volume vm_id id h).2.
Proof.
  unfold apply_detach_volume. st_unfold.
  destruct (slot_mut (slots h) vm_id) as [s|] eqn:E; simpl; [|constructor].
  eapply effect_mut; [done|constructor].
Qed.

Lemma effect_delete_volume id h : host_effect h (apply_delete_volume id h).2.
Proof.
  unfold apply_delete_volume, delete_check, get_st, bail_if.
  unfold mbind at 1 2, st_bind at 1 2. simpl.
  destruct (existsb _ (slots h)) eqn:Eb; simpl; [constructor|].
  unfold delete_act.
  eapply (effect_vault h _ (VDelete id)); [done| |done].
  intros ? [= <-] i s Hs. destruct (attached (sl_volumes s) id) eqn:Ea; [|done].
  rewrite <-not_true_iff_false, existsb_exists in Eb. destruct Eb. exists (Some s).
  split; [|done]. apply list_elem_of_In. by eapply list_elem_of_lookup_2.
Qed.

Lemma effect_owner msg (k : string → st host string VmOpReply.t) h :
  (∀ o, owner h = Some o → host_effect h (k o h).2) →
  host_effect h ((o ← current_owner msg; k o) h).2.
Proof.
  intros Hk. unfold current_owner. st_unfold. destruct (owner h) as [o|]; [by apply Hk|constructor].
Qed.

Lemma apply_effect op h : host_effect h (apply op h).2.
Proof.
  destruct (Capabilities.contains (caps h) (Capabilities.required op)) eqn:Hc;
    [|rewrite apply_denied by done; constructor].
  unfold apply. unfold mbind at 1 2, st_bind at 1 2. simpl. rewrite Hc. simpl.
  destruct op; cbn [is_Some]; try apply eff_none;
    try first [apply effect_create|apply effect_start|apply effect_stop|apply effect_delete
      |apply effect_attach|apply effect_detach|apply effect_delete_volume|apply effect_nets].
  - apply effect_owner. intros o Ho. eapply (effect_vault h _ (VCreate o name size_bytes)); [done|done|].
    by intros ??? [= <- _ _].
  - unfold mbind at 1, st_bind at 1. destruct (MAX_VOLUME_IO_BYTES <? len)%N; simpl; [constructor|].
    st_unfold. destruct (vs_read _ _ _ _); constructor.
  - unfold mbind at 1, st_bind at 1. destruct (MAX_VOLUME_IO_BYTES <? blen bytes)%N; simpl; [constructor|].
    eapply (effect_vault h _ (VWrite volume_id offset bytes)); done.
  - eapply (effect_vault h _ (VCreateSnapshot volume_id name)); done.
  - eapply (effect_vault h _ (VDeleteSnapshot snapshot_id)); done.
  - eapply (effect_vault h _ (VRestoreSnapshot snapshot_id)); done.
  - apply effect_owner. intros o Ho. st_unfold. destruct (cidr_parse cidr); simpl; [|constructor].
    apply effect_nets.
  - unfold mbind at 1 2, st_bind at 1 2. simpl.
    destruct (slot_mut (slots h) vm_id); simpl; [|constructor].
    unfold mbind at 1, st_bind at 1. unfold try.
    destruct ip as [ip|]; [destruct (parse_ipv4 ip)|]; simpl; first [apply effect_nets|constructor].
  - apply effect_owner. intros o Ho. apply effect_nets.
  - apply effect_owner. intros o Ho. unfold mbind at 1, st_bind at 1.
    destruct (parse_ipv4 vip); simpl; [apply effect_nets|constructor].
Qed.
(** ** Reachable hosts *)
Context `{!VolumeStoreLaws V}.

Record slot_ok h (s : Slot) : Prop := {
  ok_label : (len (sl_label s) ≤ 32)%N;
  ok_state : sl_state s ∈ ["created"; "halted"; "stopped"];
  ok_distinct : NoDup (att_volume_id <$> sl_volumes s);
  ok_volumes : ∀ a, a ∈ sl_volumes s →
    (len (att_mount_name a) ≤ MAX_MOUNT)%N ∧ known h (att_volume_id a)
}.

Record host_inv h : Prop := {
  hi_length : length (slots h) = N.to_nat MAX_SLOTS;
  hi_slots : ∀ i s, slots h !! i = Some (Some s) → slot_ok h s;
  hi_vault : vs_inv (vault h);
  hi_owner : ∀ o, owner h = Some o → owner_ok o
}.

Lemma attached_false vs id : attached vs id = false ↔ id ∉ (att_volume_id <$> vs).
Proof.
  unfold attached. rewrite <-not_true_iff_false, existsb_exists, list_elem_of_fmap. split.
  - intros Hn (a&->&Ha). apply Hn. exists a. rewrite <-list_elem_of_In.
    split; [done|by apply bool_decide_eq_true].
  - intros Hn (a&Ha%list_elem_of_In&Heq%bool_decide_eq_true). apply Hn. by exists a.
Qed.

Lemma slot_step_ok h s o :
  (∀ s0, o = Some s0 → slot_ok h s0) → slot_step (known h) o (Some s) → slot_ok h s.
Proof.
  intros Hok. inversion 1 as [s1 Hl Hs Hx Hv|s1|s1|s1|s1|s1 a Hk Hat Hm|s1 id]; subst.
  - split; [done| | |]; simpl.
    + rewrite Hs. by left.
    + rewrite Hv. apply NoDup_nil_2.
    + rewrite Hv. by intros a ?%elem_of_nil.
  - destruct (Hok s1 eq_refl). split; simpl; try done. right. by left.
  - destruct (Hok s1 eq_refl). split; simpl; try done. right. right. by left.
  - by apply Hok.
  - destruct (Hok s1 eq_refl). split; simpl; try done.
    + rewrite fmap_app. apply NoDup_app. split; [done|]. simpl. split.
      * intros x Hx [->|?%elem_of_nil]%elem_of_cons; [|done].
        by apply attached_false in Hat.
      * apply NoDup_singleton.
    + intros b [Hb|[->|?%elem_of_nil]%elem_of_cons]%elem_of_app; [auto|done|done].
  - destruct (Hok s1 eq_refl). split; simpl; try done.
    + by apply NoDup_fmap_retain.
    + intros b [Hb _]%elem_of_retain. auto.
Qed.

(** No call but its deletion makes a volume unknown. *)
Lemma spec_keeps_volumes c r a a' id :
  vault_spec c r a a' → c ≠ VDelete id → is_Some (av_vols a !! id) → is_Some (av_vols a' !! id).
Proof.
  intros Hst Hne Hid. destruct Hst; simpl; try done.
  - destruct (decide (vol_id m = id)) as [->|]; [by rewrite lookup_insert_eq; eauto|].
    by rewrite lookup_insert_ne.
  - rewrite lookup_delete_ne; [done|]. congruence.
  - destruct (decide (id0 = id)) as [->|]; [by rewrite lookup_insert_eq; eauto|].
    by rewrite lookup_insert_ne.
  - destruct (decide (snap_volume s = id)) as [->|]; [by rewrite lookup_insert_eq; eauto|].
    by rewrite lookup_insert_ne.
Qed.

Lemma known_abs h id : vs_inv (vault h) → known h id ↔ is_Some (av_vols (vs_abs (vault h)) !! id).
Proof. intros Hv. unfold known. rewrite law_get by done. by rewrite fmap_is_Some. Qed.

Lemma slot_ok_mono h h' s :
  (∀ a, a ∈ sl_volumes s → known h (att_volume_id a) → known h' (att_volume_id a)) →
  slot_ok h s → slot_ok h' s.
Proof. intros Hk []. split; try done. intros a Ha. destruct (ok_volumes0 a Ha). auto. Qed.

Lemma host_inv_effect h h' :
  host_inv h → vs_room (vault h) → host_effect h h' → host_inv h'.
Proof.
  intros Hi Hroom Heff. destruct Heff as [|i o o' Ho Hst|c Hd Hc|w]; [done| | |].
  - destruct Hi as [Hlen Hslots Hv Hown]. split; simpl; try done.
    + by rewrite length_insert.
    + intros j s Hj. apply (slot_ok_mono h); [done|].
      apply list_lookup_insert_Some in Hj as [(->&->&_)|[Hne Hj]]; [|by eapply Hslots].
      eapply slot_step_ok; [|done]. intros s0 ->. by eapply Hslots.
  - destruct Hi as [Hlen Hslots Hv Hown].
    assert (vcall_ok c) as Hok.
    { destruct c; try done. simpl. apply Hown. by eapply Hc. }
    pose proof (law_refines c (vault h) Hv Hroom Hok) as Hst.
    pose proof (law_inv c (vault h) Hv Hroom Hok) as Hv'.
    split; simpl; try done. intros i s Hs. apply (slot_ok_mono h); [|by eapply Hslots].
    intros a Ha. rewrite !known_abs by done. simpl.
    eapply spec_keeps_volumes; [done|]. intros ->.
    pose proof (Hd _ eq_refl i s Hs) as Hun. rewrite attached_false in Hun.
    by apply Hun, list_elem_of_fmap_2.
  - destruct Hi as [Hlen Hslots Hv Hown]. split; simpl; try done.
    intros i s Hs. apply (slot_ok_mono h); [done|by eapply Hslots].
Qed.

(** What a peer can do to a host: an operation, or a snapshot (which also
    tells the host its owner). *)
Inductive host_step : host → host → Prop :=
| hstep_op op h : vs_room (vault h) → host_step h (apply op h).2
| hstep_snapshot o h : owner_ok o → host_step h (current_rows o h).2.

Lemma host_inv_step h h' : host_step h h' → host_inv h → host_inv h'.
Proof.
  destruct 1 as [op h Hr|o h Ho]; intros Hi.
  - eapply host_inv_effect; [done|done|apply apply_effect].
  - unfold current_rows, remember_owner. simpl. destruct (owner h) as [o'|] eqn:E; [done|].
    destruct Hi as [Hlen Hslots Hv Hown]. split; simpl; try done.
    + intros i s Hs. apply (slot_ok_mono h); [done|by eapply Hslots].
    + by intros ? [= <-].
Qed.

Lemma host_inv_new v w c : vs_inv v → host_inv (with_caps c (with_stores v w)).
Proof.
  intros Hv. split; simpl; try done. intros i s Hs.
  by apply (lookup_replicate 4 None) in Hs as [? _].
Qed.

(** ** Properties *)

(** C23: the capability gate holds.  An operation whose capability the host
    does not grant is refused with "capability denied: <tag>" and changes
    nothing; no operation ever changes the granted set; and a host that grants
    no write bit is not changed by any operation at all, whatever it contains
    and whatever its stores do. *)
Theorem capability_gate op h :
  (Capabilities.contains (caps h) (Capabilities.required op) = false →
     apply op h = (Err ("capability denied: " +:+ Capabilities.op_tag op), h)) ∧
  caps (apply op h).2 = caps h ∧
  (read_only (caps h) → (apply op h).2 = h).
Proof.
  split; [apply apply_denied|]. split; [by destruct (apply_effect op h)|].
  intros Hro.
  assert (∀ w, Capabilities.required op = w → Capabilities.contains WRITE_CAPS w = true →
    w ≠ Capabilities.NONE → (apply op h).2 = h) as Hden.
  { intros w <- ??. rewrite apply_denied; [done|]. by apply read_only_denies. }
  destruct op; try (eapply Hden; [reflexivity|reflexivity|discriminate]);
    unfold apply; st_unfold; destruct (Capabilities.contains _ _); simpl; try done.
  destruct (MAX_VOLUME_IO_BYTES <? len)%N; simpl; [done|]. by destruct (vs_read _ _ _ _).
Qed.

(** The life cycle of a slot.  One operation moves at most one slot, and
    only along [slot_step]: a free slot becomes a created VM, only a VM that is
    neither terminal nor running starts (and then halts with exit 12), only a
    terminal VM frees its slot, and a volume is attached only when the vault
    has it and the VM does not hold it yet. *)
Theorem slots_follow_lifecycle op h :
  slots (apply op h).2 = slots h ∨
  ∃ i o o', slots h !! i = Some o ∧ slot_step (known h) o o' ∧
    slots (apply op h).2 = <[i := o']> (slots h).
Proof. destruct (apply_effect op h); eauto 10. Qed.

(** C30: attachments do not dangle, as long as operations do not overlap.  On
    every host reached from a fresh one by operations and snapshots that run
    one after the other (the sections of AttachVolume and DeleteVolume are not
    interleaved: [attach_delete_race]), and without [attach_preserved], which
    asks no vault ([attach_preserved_dangles]), over any volume store that
    keeps the contract (the node's name holds no @, slash, colon or backslash,
    and no counter of ids has reached its maximum): there are four slots, labels and mount names respect
    their bounds, a VM holds no volume twice, and every attached volume exists
    in the vault (so a volume in use cannot be deleted). *)
Theorem attachments_never_dangle v w c h i s a :
  vs_inv v → rtc host_step (with_caps c (with_stores v w)) h →
  slots h !! i = Some (Some s) → a ∈ sl_volumes s →
  is_Some (vs_get (vault h) (att_volume_id a)) ∧
  NoDup (att_volume_id <$> sl_volumes s) ∧ (len (sl_label s) ≤ 32)%N ∧
  (len (att_mount_name a) ≤ MAX_MOUNT)%N ∧ length (slots h) = N.to_nat MAX_SLOTS.
Proof.
  intros Hv Hrun Hs Ha. assert (host_inv h) as Hi.
  { pose proof (host_inv_new v w c Hv) as H0i. revert H0i.
    induction Hrun as [|h1 h2 h3 Hst _ IH]; [done|]. intros. by eapply IH, host_inv_step. }
  destruct (hi_slots _ Hi _ _ Hs) as [Hl _ Hnd Hvol]. destruct (Hvol _ Ha).
  pose proof (hi_length _ Hi). done.
Qed.
End host.

(** ** Witnesses *)
From S2P Require Import VaultProofs.
From S2P Require Import NetworkProofs.

Module HostWitness.
Import MemVmHost.
Definition h0 : MemVmHost.t MemVolumeStore.MemInner MemNetworkStore.MemInner :=
  with_caps Capabilities.ALL (with_stores MemVolumeStore.new MemNetworkStore.new).
Definition ops : list VmOp.t :=
  [VmOp.Create "web" Always None None None None; VmOp.CreateVolume "data" 8;
   VmOp.AttachVolume 0 "n1/v1" "disk0"; VmOp.DeleteVolume "n1/v1"; VmOp.Start 0].
Definition h1 := (current_rows "n1" h0).2.
Definition final := foldl (λ h op, (apply op h).2) h1 ops.

Lemma host_final_run : rtc host_step h0 final.
Proof.
  unfold final, ops. cbn [foldl].
  do 5 (eapply rtc_r;
    [|apply hstep_op; apply VaultWitness.room_by_compute; vm_compute; reflexivity]).
  apply rtc_once, (hstep_snapshot "n1"). done.
Qed.
End HostWitness.

(** [attach_preserved] gives a VM a volume that the vault does not have. *)
Example attach_preserved_dangles :
  let h := (MemVmHost.attach_preserved 0 [mkAttachment "n2/v7" "disk1"] HostWitness.final).2 in
  sl_volumes <$> mjoin (MemVmHost.slots h !! 0) = Some [mkAttachment "n2/v7" "disk1"] ∧
  vs_get (MemVmHost.vault h) "n2/v7" = None.
Proof. by vm_compute. Qed.

(** A volume that is deleted after AttachVolume has looked for it and before it
    takes the slots is attached although the vault no longer has it; both
    operations succeed. *)
Example attach_delete_race :
  let ops := [VmOp.Create "web" Always None None None None; VmOp.CreateVolume "data" 8] in
  let h := foldl (λ h op, (MemVmHost.apply op h).2) HostWitness.h1 ops in
  (MemVmHost.attach_check "n1/v1" "disk0" h).1 = Ok tt ∧
  let '(r, h') := MemVmHost.apply_delete_volume "n1/v1" h in
  r = Ok (VmOpReply.VolumeDeleted "n1/v1") ∧
  let '(r', h'') := MemVmHost.attach_act 0 "n1/v1" "disk0" h' in
  r' = Ok (VmOpReply.Attachments 0 [mkAttachment "n1/v1" "disk0"]) ∧
  vs_get (MemVmHost.vault h'') "n1/v1" = None.
Proof. by vm_compute. Qed.

Lemma attachments_never_dangle_witness :
  is_Some (vs_get (MemVmHost.vault HostWitness.final) "n1/v1").
Proof.
  refine (proj1 (attachments_never_dangle MemVolumeStore.new MemNetworkStore.new Capabilities.ALL
    HostWitness.final 0
    (mkSlot "web" "halted" (Some 12%N) Always [mkAttachment "n1/v1" "disk0"] None None None None)
    (mkAttachment "n1/v1" "disk0") MemVaultInv.inv_new HostWitness.host_final_run _ _)).
  - by vm_compute.
  - by left.
Defined.
