(* ===== verification/HostLaws.v ===== *)
(** * HostLaws: what a wrapper may rely on of a VM host

    The contract of the [VmHost] trait about the resources a host keeps: which
    VMs and volumes exist, and how each operation with its reply changes them.
    [MemVmHost] over any volume store that keeps its contract satisfies it. *)
From S2P Require Import Prelude.
From S2P Require Import Text.
From S2P Require Import Errors.
From S2P Require Import Maps.
From S2P Require Import Vault.
From S2P Require Import Network.
From S2P Require Import Federation.
From S2P Require Import Membership.
From S2P Require Import Proto.
From S2P Require Import Capabilities.
From S2P Require Import Host.
From S2P Require Import HostProofs.

(** The VMs and volumes before and after an operation with its reply. *)
Inductive host_change (op : VmOp.t) (vm vm' : N → Prop) (vol vol' : VolumeId → Prop)
  : HostResult → Prop :=
| change_create label rp img cpu mem crc id :
    op = VmOp.Create label rp img cpu mem crc →
    ¬ vm id → (∀ k, vm' k ↔ k = id ∨ vm k) → (∀ k, vol' k ↔ vol k) →
    host_change op vm vm' vol vol' (Ok (VmOpReply.Created id))
| change_delete id :
    op = VmOp.Delete id →
    (∀ k, vm' k ↔ k ≠ id ∧ vm k) → (∀ k, vol' k ↔ vol k) →
    host_change op vm vm' vol vol' (Ok (VmOpReply.Deleted id))
| change_create_volume name size m :
    op = VmOp.CreateVolume name size →
    ¬ vol (vol_id m) → (∀ k, vol' k ↔ k = vol_id m ∨ vol k) → (∀ k, vm' k ↔ vm k) →
    host_change op vm vm' vol vol' (Ok (VmOpReply.VolumeCreated m))
| change_delete_volume id :
    op = VmOp.DeleteVolume id →
    (∀ k, vol' k ↔ k ≠ id ∧ vol k) → (∀ k, vm' k ↔ vm k) →
    host_change op vm vm' vol vol' (Ok (VmOpReply.VolumeDeleted id))
| change_none r :
    match r with
    | Err _ => True
    | Ok _ => match op with
              | VmOp.Create _ _ _ _ _ _ | VmOp.Delete _ | VmOp.CreateVolume _ _
              | VmOp.DeleteVolume _ => False
              | _ => True
              end
    end →
    (∀ k, vm' k ↔ vm k) → (∀ k, vol' k ↔ vol k) →
    host_change op vm vm' vol vol' r.

Class VmHostLaws (H : Type) `{VmHost H} := {
  vh_inv : H → Prop;
  vh_room : H → Prop;
  vh_vm : H → N → Prop;
  vh_volume : H → VolumeId → Prop;
  law_vh_inv op h : vh_inv h → vh_room h → vh_inv (vh_handle op h).2;
  law_vh_change op h : vh_inv h → vh_room h →
    host_change op (vh_vm h) (vh_vm (vh_handle op h).2)
      (vh_volume h) (vh_volume (vh_handle op h).2) (vh_handle op h).1;
  law_vh_snapshot o h : vh_inv h → owner_ok o →
    vh_inv (vh_snapshot o h).2 ∧ (∀ k, vh_vm (vh_snapshot o h).2 k ↔ vh_vm h k) ∧
    (∀ k, vh_volume (vh_snapshot o h).2 k ↔ vh_volume h k)
}.

Section mem.
Context {V W : Type} `{VolumeStore V} `{NetworkStore W} `{!VolumeStoreLaws V}.
Import MemVmHost.
Abbreviation host := (MemVmHost.t V W).
Implicit Types h : host.

Definition occupied h (k : N) : Prop :=
  (k < MAX_SLOTS)%N ∧ ∃ s, slots h !! N.to_nat k = Some (Some s).

(** How a call of the volume store changes the known volumes. *)
Lemma known_spec c r a a' :
  vault_spec c r a a' →
  ∀ k, is_Some (av_vols a' !! k) ↔
    match c, r with
    | VCreate _ _ _, Ok (RVolume m) => k = vol_id m ∨ is_Some (av_vols a !! k)
    | VDelete id, Ok _ => k ≠ id ∧ is_Some (av_vols a !! k)
    | _, _ => is_Some (av_vols a !! k)
    end.
Proof.
  destruct 1 as [o n s m a Hn|id a|id off d m b a Hv|id n m b s a|id a|id s sb m b a _ Hv|c e a];
    intros k; simpl; try done; rewrite ?lookup_insert_is_Some, ?lookup_delete_is_Some.
  - destruct (decide (k = vol_id m)); naive_solver.
  - naive_solver.
  - destruct (decide (id = k)) as [<-|]; naive_solver.
  - destruct (decide (snap_volume s = k)) as [<-|]; naive_solver.
  - by destruct c.
Qed.

Lemma vault_known c h :
  host_inv h → vs_room (vault h) → vcall_ok c →
  ∀ k, known (set_vault (vexec c (vault h)).2 h) k ↔
    match c, (vexec c (vault h)).1 with
    | VCreate _ _ _, Ok (RVolume m) => k = vol_id m ∨ known h k
    | VDelete id, Ok _ => k ≠ id ∧ known h k
    | _, _ => known h k
    end.
Proof.
  intros Hi Hr Hok k. pose proof (hi_vault _ Hi) as Hv.
  rewrite known_abs by (simpl; by apply law_inv). cbn [vault set_vault].
  rewrite (known_spec _ _ _ _ (law_refines c (vault h) Hv Hr Hok) k).
  pose proof (known_abs h k Hv) as Ha.
  destruct c; try (destruct (vexec _ (vault h)).1 as [[]|]); tauto.
Qed.
(** Operations on the slots of the host. *)
Lemma slot_mut_occupied h k s : slot_mut (slots h) k = Ok s → occupied h k.
Proof. intros [Hk Hs]%slot_mut_Ok. split; [done|eauto]. Qed.

Lemma occupied_some h i s :
  occupied h i → ∀ k, occupied (set_slots (<[N.to_nat i := Some s]> (slots h)) h) k ↔ occupied h k.
Proof.
  intros [Hi [s0 Hs0]] k. unfold occupied. simpl. destruct (decide (k = i)) as [->|Hne].
  - rewrite list_lookup_insert_eq by (by eapply lookup_lt_Some). naive_solver.
  - rewrite list_lookup_insert_ne by lia. done.
Qed.

Lemma occupied_none h i :
  occupied h i →
  ∀ k, occupied (set_slots (<[N.to_nat i := None]> (slots h)) h) k ↔ k ≠ i ∧ occupied h k.
Proof.
  intros [Hi [s0 Hs0]] k. unfold occupied. simpl. destruct (decide (k = i)) as [->|Hne].
  - rewrite list_lookup_insert_eq by (by eapply lookup_lt_Some). naive_solver.
  - rewrite list_lookup_insert_ne by lia. naive_solver.
Qed.

Lemma occupied_new h i s :
  length (slots h) = N.to_nat MAX_SLOTS → slots h !! i = Some None →
  ¬ occupied h (N.of_nat i) ∧
  ∀ k, occupied (set_slots (<[i := Some s]> (slots h)) h) k ↔ k = N.of_nat i ∨ occupied h k.
Proof.
  intros Hlen Hi. pose proof (lookup_lt_Some _ _ _ Hi) as Hlt. unfold occupied. simpl. split.
  - rewrite Nat2N.id. intros (_&s'&?). congruence.
  - intros k. destruct (decide (k = N.of_nat i)) as [->|Hne].
    + rewrite Nat2N.id, list_lookup_insert_eq by done. split; [by left|]. intros _.
      split; [|eauto]. rewrite Hlen in Hlt. lia.
    + rewrite list_lookup_insert_ne by lia. naive_solver.
Qed.

(** A change that neither creates nor deletes anything. *)
Definition no_change h h' : Prop :=
  (∀ k, occupied h' k ↔ occupied h k) ∧ (∀ k, known h' k ↔ known h k).

Lemma no_change_refl h : no_change h h.
Proof. done. Qed.

Lemma no_change_nets h w : no_change h (set_nets w h).
Proof. done. Qed.

Lemma no_change_slot h i s s' :
  slot_mut (slots h) i = Ok s → no_change h (set_slots (<[N.to_nat i := Some s']> (slots h)) h).
Proof. intros Hs. split; [|done]. by apply occupied_some, (slot_mut_occupied _ _ s). Qed.

Lemma no_change_vault c h :
  host_inv h → vs_room (vault h) → vcall_ok c →
  match c with VCreate _ _ _ | VDelete _ => False | _ => True end →
  no_change h (set_vault (vexec c (vault h)).2 h).
Proof.
  intros Hi Hr Hok Hc. split; [done|]. intros k. rewrite (vault_known c h Hi Hr Hok k). by destruct c.
Qed.

(** Whether an operation is one of the four that create or delete. *)
Definition quiet (op : VmOp.t) : Prop :=
  match op with
  | VmOp.Create _ _ _ _ _ _ | VmOp.Delete _ | VmOp.CreateVolume _ _ | VmOp.DeleteVolume _ => False
  | _ => True
  end.

Definition outcome (op : VmOp.t) h (res : HostResult * host) : Prop :=
  host_change op (occupied h) (occupied res.2) (known h) (known res.2) res.1.

Lemma outcome_err op h h' e : no_change h h' → outcome op h (Err e, h').
Proof. intros [??]. by apply change_none. Qed.

Lemma outcome_quiet op h res : quiet op → no_change h res.2 → outcome op h res.
Proof. intros Hq [??]. apply change_none; [|done|done]. destruct res.1; [|done]. by destruct op. Qed.

(** A call into a store, as the operations make it. *)
Lemma quiet_vault {A} op h msg c (m : st V CelError A) (f : A → vreply) (g : A → VmOpReply.t) :
  host_inv h → vs_room (vault h) → vexec c = (x ← m; mret (f x)) →
  vcall_ok c → match c with VCreate _ _ _ | VDelete _ => False | _ => True end → quiet op →
  outcome op h ((x ← on_vault msg m; mret (g x)) h).
Proof.
  intros Hi Hr Hc Hok Hcq Hq. apply outcome_quiet; [done|].
  rewrite bind_mret_state, on_vault_state.
  assert ((m (vault h)).2 = (vexec c (vault h)).2) as -> by (by rewrite Hc, bind_mret_state).
  by apply no_change_vault.
Qed.

Lemma quiet_nets {A} op h msg (m : st W CelError A) (g : A → VmOpReply.t) :
  quiet op → outcome op h ((x ← on_nets msg m; mret (g x)) h).
Proof.
  intros Hq. apply outcome_quiet; [done|]. rewrite bind_mret_state, on_nets_state.
  apply no_change_nets.
Qed.

Lemma outcome_owner op msg (k : string → st host string VmOpReply.t) h :
  (∀ o, owner h = Some o → outcome op h (k o h)) →
  outcome op h ((o ← current_owner msg; k o) h).
Proof.
  intros Hk. unfold current_owner. st_unfold.
  destruct (owner h) as [o|]; [by apply Hk|by apply outcome_err].
Qed.

Lemma outcome_create label rp img cpu mem crc h :
  host_inv h →
  outcome (VmOp.Create label rp img cpu mem crc) h (apply_create label rp img cpu mem crc h).
Proof.
  intros Hi. unfold apply_create. st_unfold.
  destruct (32 <? len label)%N; simpl; [by apply outcome_err|].
  destruct (first_free (slots h) 0) as [i|] eqn:E; simpl; [|by apply outcome_err].
  apply first_free_Some in E as (j&->&Hj&_). simpl in *.
  destruct (occupied_new h j (mkSlot label "created" None rp [] img cpu mem crc)
    (hi_length _ Hi) Hj). by eapply change_create.
Qed.

Lemma outcome_delete k h : outcome (VmOp.Delete k) h (apply_delete k h).
Proof.
  unfold apply_delete. st_unfold.
  destruct (slot_mut (slots h) k) as [s|] eqn:E; simpl; [|by apply outcome_err].
  destruct (terminal (sl_state s)); simpl; [|by apply outcome_err].
  eapply change_delete; [done| |done]. by apply occupied_none, (slot_mut_occupied _ _ s).
Qed.

Lemma outcome_create_volume o name size h :
  host_inv h → vs_room (vault h) → owner h = Some o →
  outcome (VmOp.CreateVolume name size) h
    ((m ← on_vault "vault create: " (vs_create o name size); mret (VmOpReply.VolumeCreated m)) h).
Proof.
  intros Hi Hr Ho. pose proof (vault_known (VCreate o name size) h Hi Hr (hi_owner _ Hi o Ho)) as Hk.
  pose proof (law_refines (VCreate o name size) (vault h) (hi_vault _ Hi) Hr (hi_owner _ Hi o Ho)) as Hs.
  simpl in Hk, Hs. unfold on_vault, zoom. st_unfold.
  destruct (vs_create o name size (vault h)) as [[m|e] v'] eqn:E; simpl in *.
  - eapply change_create_volume; [done| |done|done]. intros Hn. apply known_abs in Hn; [|by apply hi_vault].
    inversion Hs; subst. simplify_eq. by apply eq_None_not_Some in Hn.
  - apply outcome_err. by split.
Qed.

Lemma outcome_delete_volume id h :
  host_inv h → vs_room (vault h) → outcome (VmOp.DeleteVolume id) h (apply_delete_volume id h).
Proof.
  intros Hi Hr. pose proof (vault_known (VDelete id) h Hi Hr I) as Hk. simpl in Hk.
  unfold apply_delete_volume, delete_check, delete_act, on_vault, zoom. st_unfold.
  destruct (existsb _ (slots h)); simpl; [by apply outcome_err|].
  destruct (vs_delete id (vault h)) as [[[]|e] v'] eqn:E; simpl in *.
  - by eapply change_delete_volume.
  - apply outcome_err. by split.
Qed.

(** The slot operations that keep every VM. *)
Ltac slot_op :=
  st_unfold; repeat case_match; simplify_eq/=;
  first [by apply outcome_err
        | apply outcome_quiet; [done|]; simpl; first [done | by eapply no_change_slot]].

Lemma apply_outcome op h : host_inv h → vs_room (vault h) → outcome op h (apply op h).
Proof.
  intros Hi Hr. destruct (Capabilities.contains (caps h) (Capabilities.required op)) eqn:Hc.
  2:{ rewrite apply_denied by done. by apply outcome_err. }
  unfold apply. unfold mbind at 1 2, st_bind at 1 2. simpl. rewrite Hc. simpl.
  destruct op; try (by apply outcome_quiet); try (by apply quiet_nets).
  - by apply outcome_create.
  - unfold apply_start. slot_op.
  - unfold apply_stop. slot_op.
  - apply outcome_delete.
  - apply outcome_owner. intros o Ho. by apply outcome_create_volume.
  - by apply outcome_delete_volume.
  - unfold apply_attach_volume, attach_check, attach_act. slot_op.
  - unfold apply_detach_volume. slot_op.
  - slot_op.
  - unfold mbind at 1, st_bind at 1. destruct (MAX_VOLUME_IO_BYTES <? blen bytes)%N; simpl;
      [by apply outcome_err|]. by eapply (quiet_vault _ h _ (VWrite volume_id offset bytes)).
  - by eapply (quiet_vault _ h _ (VCreateSnapshot volume_id name)).
  - by eapply (quiet_vault _ h _ (VDeleteSnapshot snapshot_id)).
  - by eapply (quiet_vault _ h _ (VRestoreSnapshot snapshot_id)).
  - apply outcome_owner. intros o Ho. st_unfold. destruct (cidr_parse cidr); simpl;
      [by apply quiet_nets|by apply outcome_err].
  - unfold mbind at 1 2, st_bind at 1 2. simpl.
    destruct (slot_mut (slots h) vm_id); simpl; [|by apply outcome_err].
    unfold mbind at 1, st_bind at 1. unfold try.
    destruct ip as [ip|]; [destruct (parse_ipv4 ip)|]; simpl;
      first [by apply quiet_nets|by apply outcome_err].
  - apply outcome_owner. intros o Ho. by apply quiet_nets.
  - apply outcome_owner. intros o Ho. unfold mbind at 1, st_bind at 1.
    destruct (parse_ipv4 vip); simpl; [by apply quiet_nets|by apply outcome_err].
Qed.

#[export] Instance mem_host_laws : VmHostLaws host.
Proof.
  refine {| vh_inv := host_inv; vh_room h := vs_room (vault h); vh_vm := occupied;
            vh_volume := known |}.
  - intros op h Hi Hr. eapply host_inv_effect; [done|done|apply apply_effect].
  - intros op h Hi Hr. by apply apply_outcome.
  - intros o h Hi Ho. split; [by eapply host_inv_step; [apply hstep_snapshot|]|].
    simpl. unfold remember_owner. by destruct (owner h).
Defined.
End mem.
