(* ===== verification/Hyper.v ===== *)
(** * Hyper: [celmesh::hyper_host], the controller's side of the bridge

    crates/celmesh/src/hyper_host.rs: the requests and replies of the bridge,
    the [HyperLink] interface, the in-process kernel simulation
    [LoopbackHyperLink], and [CelhyperVmHost], the VM host that sends the VM
    life cycle over a link and keeps everything else in an in-memory host.
    serde_json is not code of the repository: its printer and parser are the
    class [HyperCodec].  A lock is never held across a panic in this module, so
    that the recovery of poisoned locks does not show. *)
From S2P Require Import Prelude.
From S2P Require Import Text.
From S2P Require Import Errors.
From S2P Require Import Maps.
From S2P Require Import Vault.
From S2P Require Import Network.
From S2P Require Import Federation.
From S2P Require Import Proto.
From S2P Require Import Capabilities.
From S2P Require Import Host.
From S2P Require Import VaultProofs.
From S2P Require Import NetworkProofs.
From Stdlib Require Import Strings.Byte.

Definition HYPER_MAX_VMS : nat := 4.
Definition HYPER_HLT_EXIT_CODE : N := 12.
Definition MAX_STAGED_IMAGE_BYTES : N := 4096.

(** ** The wire types *)
Module HyperRequest.
Inductive t :=
| Create (label : string) (image_path : option string) (cpu_count memory_mib boot_blob_crc32c : option N)
| Start (vm_id : N)
| Stop (vm_id : N)
| Delete (vm_id : N)
| List
| ImageLoad (len crc32c : N) (bytes_hex : string).
End HyperRequest.

Record HyperVmRow := mkHyperVmRow {
  hr_vm_id : N; hr_label : string; hr_state : string; hr_last_exit : option N;
  hr_image_path : option string; hr_cpu_count : option N; hr_memory_mib : option N;
  hr_boot_blob_crc32c : option N
}.

Module HyperReply.
Inductive t :=
| Created (vm_id : N)
| State (vm_id : N) (state : string) (last_exit : option N)
| Deleted (vm_id : N)
| Listed (rows : list HyperVmRow)
| Error (message : string)
| ImageLoaded (len crc32c : N).
End HyperReply.

(** [serde_json::to_string] and [from_str] at the two types. *)
Class HyperCodec := {
  enc_req : HyperRequest.t → result string string;
  dec_req : string → result string HyperRequest.t;
  enc_reply : HyperReply.t → result string string;
  dec_reply : string → result string HyperReply.t
}.
(** What serde_json documents for derived implementations: printing succeeds
    and parsing gives the value back. *)
Class HyperCodecLaws `{HyperCodec} : Prop := {
  req_roundtrip r : ∃ s, enc_req r = Ok s ∧ dec_req s = Ok r;
  reply_roundtrip r : ∃ s, enc_reply r = Ok s ∧ dec_reply s = Ok r
}.

(** The [HyperLink] trait. *)
Class HyperLink (L : Type) := { hl_call : HyperRequest.t → st L CelError HyperReply.t }.

(** ** The wire helpers *)
Fixpoint hex_encode (bs : bytes) : string :=
  match bs with
  | [] => EmptyString
  | c :: bs' => String (hex_digit (N.shiftr (Byte.to_N c) 4))
                  (String (hex_digit (N.land (Byte.to_N c) 0x0F)) (hex_encode bs'))
  end.
Definition hex_nibble (c : byte) : CelResult N :=
  let n := Byte.to_N c in
  if (48 <=? n)%N && (n <=? 57)%N then Ok (n - 48)%N
  else if (97 <=? n)%N && (n <=? 102)%N then Ok (10 + (n - 97))%N
  else Err (Invalid "hyper: image_load: non-hex byte (lowercase required)").
Definition crc_step (state : N) : N :=
  if negb (N.land state 1 =? 0)%N then N.lxor (N.shiftr state 1) 0x82F63B78 else N.shiftr state 1.
Definition crc32c_bytes (data : bytes) : N :=
  N.lxor (foldl (λ state c, Nat.iter 8 crc_step (N.lxor state (Byte.to_N c))) 0xFFFFFFFF%N data) 0xFFFFFFFF.

(** A [u8] of a number. *)
Definition u8 (n : N) : byte := default x00 (Byte.of_N (N.land n 0xFF)).
Definition as_bytes (s : string) : bytes := String.list_byte_of_string s.

(** The decoding loop of [ImageLoad]; [None] is the index panic on a last
    single digit. *)
Fixpoint decode_pairs (bs : bytes) : option (CelResult bytes) :=
  match bs with
  | [] => Some (Ok [])
  | hi :: bs' =>
      match hex_nibble hi with
      | Err e => Some (Err e)
      | Ok h =>
          match bs' with
          | [] => None
          | lo :: rest =>
              match hex_nibble lo with
              | Err e => Some (Err e)
              | Ok l =>
                  (λ r : CelResult bytes, cons (u8 (N.lor (N.shiftl h 4) l)) <$> r) <$> decode_pairs rest
              end
          end
      end
  end.

(** ** [LoopbackHyperLink] *)
Record LoopSlot := mkLoopSlot {
  lo_label : string; lo_state : string; lo_last_exit : option N; lo_image_path : option string;
  lo_cpu_count : option N; lo_memory_mib : option N; lo_boot_blob_crc32c : option N
}.
Definition loop_set_state (state : string) (last_exit : option N) (s : LoopSlot) : LoopSlot :=
  mkLoopSlot (lo_label s) state last_exit (lo_image_path s) (lo_cpu_count s) (lo_memory_mib s)
    (lo_boot_blob_crc32c s).

Module Loopback.
Record t := mk { slots : list (option LoopSlot) }.
Definition new : t := mk (replicate HYPER_MAX_VMS None).
Abbreviation M := (st t CelError).

Definition slot_mut (ss : list (option LoopSlot)) (vm_id : N) : CelResult LoopSlot :=
  if (N.of_nat HYPER_MAX_VMS <=? vm_id)%N then Err (Invalid "hyper: vm id out of range")
  else ok_or (mjoin (ss !! N.to_nat vm_id)) (Invalid "hyper: vm not allocated").
Definition put_slot (vm_id : N) (s : option LoopSlot) : M unit :=
  modify (λ l, mk (<[N.to_nat vm_id := s]> (slots l))).
Definition terminal (state : string) : bool :=
  bool_decide (state = "halted") || bool_decide (state = "stopped") || bool_decide (state = "faulted").
Fixpoint first_free (ss : list (option LoopSlot)) (i : nat) : option nat :=
  match ss with
  | [] => None
  | None :: _ => Some i
  | Some _ :: ss' => first_free ss' (S i)
  end.

Definition row_of (i : nat) (s : LoopSlot) : HyperVmRow :=
  mkHyperVmRow (N.of_nat i) (lo_label s) (lo_state s) (lo_last_exit s) (lo_image_path s)
    (lo_cpu_count s) (lo_memory_mib s) (lo_boot_blob_crc32c s).

(** The arm of [ImageLoad]; the link keeps nothing of the image. *)
Definition check_image (n crc32c : N) (bytes_hex : string) : CelResult HyperReply.t :=
  if negb (len bytes_hex =? saturating_mul 64 n 2)%N
  then Err (Invalid "hyper: image_load: bytes_hex.len() != 2*len")
  else if (n =? 0)%N then Err (Invalid "hyper: image_load: len == 0")
  else if (4096 <? n)%N then Err (Invalid "hyper: image_load: len > MAX_IMAGE_BYTES")
  else
    decoded ← match decode_pairs (as_bytes bytes_hex) with
              | Some r => r
              | None => Err (Internal "index out of bounds")  (* excluded by the length: [pairs_even] *)
              end;
    if negb (crc32c_bytes decoded =? crc32c)%N
    then Err (Invalid "hyper: image_load: crc32c mismatch")
    else Ok (HyperReply.ImageLoaded n crc32c).

Definition apply (req : HyperRequest.t) : M HyperReply.t :=
  l ← get_st;
  match req with
  | HyperRequest.Create label image_path cpu_count memory_mib boot_blob_crc32c =>
      _ ← bail_if (32 <? len label)%N (Invalid "hyper: label > 32 chars");
      _ ← bail_if (128 <? from_option len 0%N image_path)%N (Invalid "hyper: image_path > 128 chars");
      match first_free (slots l) 0 with
      | Some i =>
          _ ← put_slot (N.of_nat i) (Some (mkLoopSlot label "created" None image_path cpu_count
                                             memory_mib boot_blob_crc32c));
          mret (HyperReply.Created (N.of_nat i))
      | None => mthrow (Invalid "hyper: vm registry full")
      end
  | HyperRequest.Start vm_id =>
      s ← try (slot_mut (slots l) vm_id);
      _ ← bail_if (terminal (lo_state s)) (Invalid "hyper: vm already terminal");
      _ ← bail_if (bool_decide (lo_state s = "running")) (Invalid "hyper: vm already running");
      let s := loop_set_state "halted" (Some HYPER_HLT_EXIT_CODE) s in
      _ ← put_slot vm_id (Some s);
      mret (HyperReply.State vm_id (lo_state s) (lo_last_exit s))
  | HyperRequest.Stop vm_id =>
      s ← try (slot_mut (slots l) vm_id);
      let s := if terminal (lo_state s) then s else loop_set_state "stopped" (lo_last_exit s) s in
      _ ← put_slot vm_id (Some s);
      mret (HyperReply.State vm_id (lo_state s) (lo_last_exit s))
  | HyperRequest.Delete vm_id =>
      s ← try (slot_mut (slots l) vm_id);
      _ ← bail_if (negb (terminal (lo_state s))) (Invalid "hyper: vm not terminal");
      _ ← put_slot vm_id None;
      mret (HyperReply.Deleted vm_id)
  | HyperRequest.List =>
      mret (HyperReply.Listed (omap (λ e, row_of e.1 <$> e.2) (imap pair (slots l))))
  | HyperRequest.ImageLoad n crc32c bytes_hex => try (check_image n crc32c bytes_hex)
  end.

(** [HyperLink::call]: the request and the reply pass through serde_json. *)
Definition serde {A} (msg : string) (r : result string A) : M A :=
  try (map_err (λ e, Io (msg +:+ ": " +:+ e)) r).
Definition call `{HyperCodec} (req : HyperRequest.t) : M HyperReply.t :=
  encoded ← serde "hyper encode" (enc_req req);
  decoded ← serde "hyper decode" (dec_req encoded);
  reply ← apply decoded;
  encoded ← serde "hyper reply encode" (enc_reply reply);
  serde "hyper reply decode" (dec_reply encoded).
#[export] Instance link `{HyperCodec} : HyperLink t := {| hl_call := call |}.
End Loopback.
#[export] Existing Instance Loopback.link.

(** [op_kind]. *)
Definition op_kind (op : VmOp.t) : string :=
  match op with
  | VmOp.Create _ _ _ _ _ _ => "Create"
  | VmOp.Start _ => "Start"
  | VmOp.Stop _ => "Stop"
  | VmOp.Delete _ => "Delete"
  | VmOp.List => "List"
  | VmOp.CreateVolume _ _ => "CreateVolume"
  | VmOp.DeleteVolume _ => "DeleteVolume"
  | VmOp.ListVolumes => "ListVolumes"
  | VmOp.AttachVolume _ _ _ => "AttachVolume"
  | VmOp.DetachVolume _ _ => "DetachVolume"
  | VmOp.ReadVolume _ _ _ => "ReadVolume"
  | VmOp.WriteVolume _ _ _ => "WriteVolume"
  | VmOp.CreateSnapshot _ _ => "CreateSnapshot"
  | VmOp.ListSnapshots _ => "ListSnapshots"
  | VmOp.DeleteSnapshot _ => "DeleteSnapshot"
  | VmOp.RestoreSnapshot _ => "RestoreSnapshot"
  | VmOp.CreateNetwork _ _ => "CreateNetwork"
  | VmOp.DeleteNetwork _ => "DeleteNetwork"
  | VmOp.ListNetworks => "ListNetworks"
  | VmOp.AttachNic _ _ _ => "AttachNic"
  | VmOp.DetachNic _ => "DetachNic"
  | VmOp.ListNics => "ListNics"
  | VmOp.CreateSecurityGroup _ _ => "CreateSecurityGroup"
  | VmOp.DeleteSecurityGroup _ => "DeleteSecurityGroup"
  | VmOp.ListSecurityGroups => "ListSecurityGroups"
  | VmOp.CreateLoadBalancer _ _ _ _ _ _ => "CreateLoadBalancer"
  | VmOp.DeleteLoadBalancer _ => "DeleteLoadBalancer"
  | VmOp.ListLoadBalancers => "ListLoadBalancers"
  end.

(** [{:08x}] of a [u32]. *)
Definition fmt_hex8 (n : N) : string :=
  foldr (λ i s, String (hex_digit (N.land (N.shiftr n (4 * i)) 0xF)) s) EmptyString
    [7; 6; 5; 4; 3; 2; 1; 0]%N.

(** ** [CelhyperVmHost] *)
Module CelhyperVmHost.
Section host.
Context {L : Type} `{HyperLink L}.
(** The derived [Debug] of a reply, for the error texts. *)
Context (debug_reply : HyperReply.t → string).
Abbreviation mem_host := (MemVmHost.t MemVolumeStore.MemInner MemNetworkStore.MemInner).

Record t := mk {
  link : L;
  fallback : mem_host;
  labels : gmap N string;
  policies : gmap N RestartPolicy;
  strict : bool
}.
Abbreviation M := (st t string).

(** [MemVmHost::new]. *)
Definition mem_new : mem_host := MemVmHost.with_stores MemVolumeStore.new MemNetworkStore.new.
Definition new (l : L) : t := mk l mem_new ∅ ∅ false.
Definition with_strict (b : bool) (h : t) : t := mk (link h) (fallback h) (labels h) (policies h) b.
Definition with_caps (caps : Capabilities.t) (h : t) : t :=
  mk (link h) (MemVmHost.with_caps caps mem_new) (labels h) (policies h) (strict h).
Definition set_link (l : L) (h : t) : t := mk l (fallback h) (labels h) (policies h) (strict h).
Definition set_fallback (f : mem_host) (h : t) : t := mk (link h) f (labels h) (policies h) (strict h).
Definition set_mirrors (ls : gmap N string) (ps : gmap N RestartPolicy) (h : t) : t :=
  mk (link h) (fallback h) ls ps (strict h).

Definition remember (vm_id : N) (label : string) (policy : RestartPolicy) (h : t) : t :=
  set_mirrors (<[vm_id := label]> (labels h)) (<[vm_id := policy]> (policies h)) h.
Definition forget (vm_id : N) (h : t) : t :=
  set_mirrors (delete vm_id (labels h)) (delete vm_id (policies h)) h.
Definition label_of (vm_id : N) (h : t) : string := default EmptyString (labels h !! vm_id).
(** [RestartPolicy::default] is [Never]. *)
Definition policy_of (vm_id : N) (h : t) : RestartPolicy := default Never (policies h !! vm_id).

(** The opening of every arm: the call, the transport error rendered, the
    kernel's refusal turned into an error. *)
Definition call (req : HyperRequest.t) : M HyperReply.t :=
  reply ← zoom link set_link (λ l, let '(r, l') := hl_call req l in
            (map_err (λ e, "hyper: " +:+ debug_error e) r, l'));
  match reply with
  | HyperReply.Error message => mthrow ("hyper: kernel: " +:+ message)
  | _ => mret reply
  end.
Definition unexpected {A} (reply : HyperReply.t) : M A :=
  mthrow ("hyper: unexpected reply " +:+ debug_reply reply).

Definition stage_image (bs : bytes) : M N :=
  _ ← bail_if (bool_decide (bs = [])) "hyper: stage_image: bytes is empty";
  _ ← bail_if (MAX_STAGED_IMAGE_BYTES <? blen bs)%N
        ("hyper: stage_image: " +:+ fmt_u (blen bs) +:+ " bytes exceeds MAX_STAGED_IMAGE_BYTES ("
         +:+ fmt_u MAX_STAGED_IMAGE_BYTES +:+ ")");
  let crc := crc32c_bytes bs in
  let n := blen bs in
  reply ← call (HyperRequest.ImageLoad n crc (hex_encode bs));
  match reply with
  | HyperReply.ImageLoaded rlen rcrc =>
      if negb (rlen =? n)%N || negb (rcrc =? crc)%N
      then mthrow ("hyper: stage_image: kernel echoed (len=" +:+ fmt_u rlen +:+ ", crc=0x"
                   +:+ fmt_hex8 rcrc +:+ "); expected (len=" +:+ fmt_u n +:+ ", crc=0x"
                   +:+ fmt_hex8 crc +:+ ")")
      else mret crc
  | reply => unexpected reply
  end.

Definition state_reply (reply : HyperReply.t) : M VmOpReply.t :=
  match reply with
  | HyperReply.State vm_id state _ => mret (VmOpReply.State vm_id state)
  | reply => unexpected reply
  end.

(** The last arm of [handle]. *)
Definition handle_other (other : VmOp.t) : M VmOpReply.t :=
  h ← get_st;
  if strict h
  then mthrow ("hyper: bridge does not implement " +:+ op_kind other +:+ " (strict mode)")
  else zoom fallback set_fallback (vh_handle other).

Definition handle (op : VmOp.t) : M VmOpReply.t :=
  match op with
  | VmOp.Create label restart_policy image_path cpu_count memory_mib boot_blob_crc32c =>
      reply ← call (HyperRequest.Create label image_path cpu_count memory_mib boot_blob_crc32c);
      match reply with
      | HyperReply.Created vm_id =>
          _ ← modify (remember vm_id label restart_policy);
          mret (VmOpReply.Created vm_id)
      | reply => unexpected reply
      end
  | VmOp.Start vm_id => reply ← call (HyperRequest.Start vm_id); state_reply reply
  | VmOp.Stop vm_id => reply ← call (HyperRequest.Stop vm_id); state_reply reply
  | VmOp.Delete vm_id =>
      reply ← call (HyperRequest.Delete vm_id);
      match reply with
      | HyperReply.Deleted vm_id =>
          _ ← modify (forget vm_id);
          mret (VmOpReply.Deleted vm_id)
      | reply => unexpected reply
      end
  | VmOp.List => mret (VmOpReply.Listed [])
  | other => handle_other other
  end.

Definition row_of (owner : NodeId) (h : t) (r : HyperVmRow) : RemoteVm :=
  mkRemoteVm owner (hr_vm_id r)
    (if str_is_empty (hr_label r) then label_of (hr_vm_id r) h else hr_label r)
    (hr_state r) (hr_last_exit r) 0 0 true (policy_of (hr_vm_id r) h) []
    (hr_image_path r) (hr_cpu_count r) (hr_memory_mib r) (hr_boot_blob_crc32c r).
Definition snapshot (owner : NodeId) (h : t) : list RemoteVm * t :=
  let '(r, l) := hl_call HyperRequest.List (link h) in
  let h := set_link l h in
  (match r with
   | Ok (HyperReply.Listed rows) => row_of owner h <$> rows
   | _ => []
   end, h).
Definition attach_preserved (vm_id : N) (atts : list VolumeAttachment) : M unit :=
  zoom fallback set_fallback (vh_attach_preserved vm_id atts).

#[export] Instance host : VmHost t := {|
  vh_handle := handle;
  vh_snapshot := snapshot;
  vh_attach_preserved := attach_preserved
|}.
End host.
Arguments t : clear implicits.
End CelhyperVmHost.
