(* ===== verification/HyperProofs.v ===== *)
(** * HyperProofs: the bridge host stands in for the in-memory host

    The wire helpers of the controller agree with the kernel's; over the
    in-process kernel the bridge host cannot be told from the in-memory host by
    the VM life cycle; and the in-memory host it contains never holds
    anything. *)
From S2P Require Import Prelude.
From S2P Require Import Text.
From S2P Require Import Errors.
From S2P Require Import Maps.
From S2P Require Import Vault.
From S2P Require Import Network.
From S2P Require Import Federation.
From S2P Require Import Proto.
From S2P Require Import Capabilities.
From S2P Require Import Host.
From S2P Require Import VaultProofs.
From S2P Require Import NetworkProofs.
From S2P Require Import Codecs.
From S2P Require Import Crc.
From S2P Require Import Hyper.
From Stdlib Require Import Strings.Byte.

(** ** The wire helpers *)
Lemma pairs_even bs : Nat.even (length bs) = true → decode_pairs bs ≠ None.
Proof.
  induction bs as [bs IH] using (induction_ltof1 _ length). unfold ltof in IH.
  destruct bs as [|hi [|lo bs]]; intros He; [done|done|]. cbn [decode_pairs].
  destruct (hex_nibble hi); [|done]. destruct (hex_nibble lo); [|done].
  specialize (IH bs ltac:(simpl; lia) He). by destruct (decode_pairs bs).
Qed.

Lemma crc_step_eq n : crc_step n = crc_bit n.
Proof.
  unfold crc_step, crc_bit. change 1%N with (N.ones 1) at 1. rewrite N.land_ones. change (2 ^ 1)%N with 2%N.
  rewrite <-N.bit0_mod, <-N.bit0_odd. unfold CRC_POLY. by destruct (N.testbit n 0).
Qed.
Lemma crc32c_bytes_eq bs : crc32c_bytes bs = crc32c bs.
Proof.
  unfold crc32c_bytes, crc32c, crc32c_continue, CRC_INIT. f_equal. generalize 0xFFFFFFFF%N.
  induction bs as [|c bs IH]; intros s; [done|]. cbn [foldl]. rewrite <-IH. f_equal.
  unfold crc_byte. cbn. by rewrite !crc_step_eq.
Qed.

(** One byte through its two digits. *)
Lemma hex_digits_byte c :
  hex_nibble (byte_of_ascii (hex_digit (N.shiftr (Byte.to_N c) 4))) = Ok (N.shiftr (Byte.to_N c) 4) ∧
  hex_nibble (byte_of_ascii (hex_digit (N.land (Byte.to_N c) 0x0F))) = Ok (N.land (Byte.to_N c) 0x0F) ∧
  u8 (N.lor (N.shiftl (N.shiftr (Byte.to_N c) 4) 4) (N.land (Byte.to_N c) 0x0F)) = c.
Proof. by destruct c. Qed.
Lemma as_bytes_cons a s : as_bytes (String a s) = byte_of_ascii a :: as_bytes s.
Proof. done. Qed.
Lemma hex_encode_decodes bs : decode_pairs (as_bytes (hex_encode bs)) = Some (Ok bs).
Proof.
  induction bs as [|c bs IH]; [done|]. destruct (hex_digits_byte c) as (Hhi&Hlo&Hc).
  cbn [hex_encode]. rewrite !as_bytes_cons. cbn [decode_pairs]. rewrite Hhi, Hlo, IH. cbn. by rewrite Hc.
Qed.
Lemma hex_encode_len bs : len (hex_encode bs) = (2 * blen bs)%N.
Proof.
  unfold len, blen. induction bs as [|c bs IH]; [done|]. cbn [hex_encode String.length length]. lia.
Qed.

(** ** Standing in for the in-memory host *)
Import CelhyperVmHost.

(** The operations of the VM life cycle, with an image path the bridge
    carries. *)
Definition lifecycle (op : VmOp.t) : bool :=
  match op with
  | VmOp.Create _ _ image_path _ _ _ => (from_option len 0%N image_path <=? 128)%N
  | VmOp.Start _ | VmOp.Stop _ | VmOp.Delete _ | VmOp.List => true
  | _ => false
  end.
(** Equal answers, up to the text of an error. *)
Definition agree {A} (r r' : result string A) : Prop :=
  match r, r' with Ok a, Ok b => a = b | Err _, Err _ => True | _, _ => False end.
Fixpoint run_ops {H} `{VmHost H} (ops : list VmOp.t) (h : H) : list HostResult * H :=
  match ops with
  | [] => ([], h)
  | op :: ops' => let '(r, h) := vh_handle op h in let '(rs, h) := run_ops ops' h in (r :: rs, h)
  end.

Section stand_in.
Context `{!HyperCodec} `{!HyperCodecLaws} {V W : Type} `{VolumeStore V} `{NetworkStore W}.
Context (debug_reply : HyperReply.t → string).
Implicit Types (h : t Loopback.t) (m : MemVmHost.t V W) (l : Loopback.t).
#[local] Existing Instance host.

Lemma loopback_call req l : Loopback.call req l = Loopback.apply req l.
Proof.
  unfold Loopback.call, Loopback.serde, try. destruct (req_roundtrip req) as (s&E1&E2).
  unfold mbind at 1, st_bind. rewrite E1. simpl. unfold mbind at 1, st_bind. rewrite E2. simpl.
  unfold mbind, st_bind. destruct (Loopback.apply req l) as [[r|e] l']; [|done].
  destruct (reply_roundtrip r) as (s'&E3&E4). rewrite E3. simpl. by rewrite E4.
Qed.

(** The in-memory slots the bridge host stands for. *)
Definition view h (i : nat) (s : LoopSlot) : Slot :=
  mkSlot (lo_label s) (lo_state s) (lo_last_exit s) (policy_of (N.of_nat i) h) [] (lo_image_path s)
    (lo_cpu_count s) (lo_memory_mib s) (lo_boot_blob_crc32c s).
Definition shown h : list (option Slot) := imap (λ i o, view h i <$> o) (Loopback.slots (link h)).
Record stands_for h m : Prop := {
  sf_length : length (Loopback.slots (link h)) = 4%nat;
  sf_slots : MemVmHost.slots m = shown h;
  sf_labels i s : Loopback.slots (link h) !! i = Some (Some s) → label_of (N.of_nat i) h = lo_label s;
  sf_caps : MemVmHost.caps m = Capabilities.ALL
}.

Lemma slot_mut_shown h id :
  match Loopback.slot_mut (Loopback.slots (link h)) id with
  | Ok s => MemVmHost.slot_mut (shown h) id = Ok (view h (N.to_nat id) s) ∧
            Loopback.slots (link h) !! N.to_nat id = Some (Some s)
  | Err _ => ∃ e, MemVmHost.slot_mut (shown h) id = Err e
  end.
Proof.
  unfold Loopback.slot_mut, MemVmHost.slot_mut, shown. rewrite list_lookup_imap.
  change (N.of_nat HYPER_MAX_VMS) with MAX_SLOTS.
  destruct (MAX_SLOTS <=? id)%N; [by eexists|].
  destruct (_ !! N.to_nat id) as [[s|]|]; simpl; [done|by eexists..].
Qed.
Lemma first_free_shown h :
  MemVmHost.first_free (shown h) 0 = Loopback.first_free (Loopback.slots (link h)) 0.
Proof.
  unfold shown. generalize (view h). generalize 0%nat. generalize (Loopback.slots (link h)).
  induction l as [|[s|] ss IH]; intros i f; [done| |done]. exact (IH (S i) (λ n, f (S n))).
Qed.
Lemma free_lookup ss i k : Loopback.first_free ss i = Some k → ∃ j, k = (i + j)%nat ∧ ss !! j = Some None.
Proof.
  revert i. induction ss as [|[s|] ss IH]; intros i; simpl; [done| |].
  - intros (j&->&Hj)%IH. exists (S j). split; [lia|done].
  - intros [= <-]. exists 0%nat. split; [lia|done].
Qed.

(** One slot written on both sides. *)
Lemma stands_for_put h h' m i o :
  stands_for h m → (i < 4)%nat →
  Loopback.slots (link h') = <[i := o]> (Loopback.slots (link h)) →
  (∀ j, j ≠ i → policy_of (N.of_nat j) h' = policy_of (N.of_nat j) h ∧
                label_of (N.of_nat j) h' = label_of (N.of_nat j) h) →
  (∀ s, o = Some s → label_of (N.of_nat i) h' = lo_label s) →
  stands_for h' (MemVmHost.set_slots (<[i := view h' i <$> o]> (MemVmHost.slots m)) m).
Proof.
  intros [Hlen Hs Hl Hc] Hi E Hne Hlab. split; [by rewrite E, length_insert| | |done].
  - cbn [MemVmHost.slots MemVmHost.set_slots]. rewrite Hs. apply list_eq. intros j. unfold shown. rewrite E.
    rewrite list_lookup_imap. destruct (decide (i = j)) as [<-|Hij].
    + rewrite !list_lookup_insert_eq; [done|lia|by rewrite length_imap, Hlen].
    + rewrite !list_lookup_insert_ne by done. rewrite list_lookup_imap.
      destruct (_ !! j) as [[s|]|]; [|done..]. simpl. unfold view. by rewrite (proj1 (Hne j ltac:(done))).
  - intros j s. rewrite E. destruct (decide (i = j)) as [<-|Hij].
    + rewrite list_lookup_insert_eq by lia. intros [= ->]. by apply Hlab.
    + rewrite list_lookup_insert_ne by done. intros Hj. rewrite (proj2 (Hne j ltac:(done))). by apply Hl.
Qed.

(** A VM changed in place. *)
Lemma stands_for_write h m i s s' w :
  stands_for h m → Loopback.slots (link h) !! i = Some (Some s) → lo_label s' = lo_label s → w = view h i s' →
  stands_for (set_link (Loopback.mk (<[i := Some s']> (Loopback.slots (link h)))) h)
    (MemVmHost.set_slots (<[i := Some w]> (MemVmHost.slots m)) m).
Proof.
  intros Hsf Hi Hlab ->. pose proof (sf_length _ _ Hsf).
  apply (stands_for_put h (set_link (Loopback.mk (<[i := Some s']> (Loopback.slots (link h)))) h) m i (Some s'));
    [done|apply lookup_lt_Some in Hi; lia|done|done|].
  intros ? [= <-]. rewrite Hlab. exact (sf_labels _ _ Hsf _ _ Hi).
Qed.

Lemma create_agrees label rp image cpu mem crc h m :
  (from_option len 0%N image <= 128)%N → stands_for h m →
  let r := handle debug_reply (VmOp.Create label rp image cpu mem crc) h in
  let r' := MemVmHost.apply_create label rp image cpu mem crc m in
  agree r.1 r'.1 ∧ stands_for r.2 r'.2.
Proof.
  intros Himg Hsf. cbv zeta. unfold handle, call, MemVmHost.apply_create. st_unfold.
  rewrite loopback_call. unfold Loopback.apply. st_unfold.
  destruct (32 <? len label)%N; [by split; [|destruct h]|].
  destruct (N.ltb_spec 128 (from_option len 0%N image)); [lia|].
  rewrite (sf_slots _ _ Hsf), first_free_shown.
  destruct (Loopback.first_free _ 0) as [i|] eqn:E; [|by split; [|destruct h]].
  apply free_lookup in E as (j&->&Hj). simpl. split; [done|].
  rewrite <-(sf_slots _ _ Hsf). pose proof (sf_length _ _ Hsf).
  assert (j < 4)%nat by (apply lookup_lt_Some in Hj; lia).
  set (h' := remember _ _ _ _). set (s := mkLoopSlot label _ _ _ _ _ _) in *.
  assert (policy_of (N.of_nat j) h' = rp ∧ label_of (N.of_nat j) h' = label) as [Hp Hl].
  { unfold h', policy_of, label_of. cbn. by rewrite !lookup_insert_eq. }
  replace (Some (mkSlot _ _ _ _ _ _ _ _ _)) with (view h' j <$> Some s)
    by (simpl; unfold view; by rewrite Hp).
  apply (stands_for_put h h' m j (Some s)); [done|done| | |by intros ? [= <-]].
  - unfold h'. cbn. by rewrite Nat2N.id.
  - intros k Hk. unfold h', policy_of, label_of. cbn. rewrite !lookup_insert_ne by lia. done.
Qed.

Lemma start_agrees id h m :
  stands_for h m →
  let r := handle debug_reply (VmOp.Start id) h in let r' := MemVmHost.apply_start id m in
  agree r.1 r'.1 ∧ stands_for r.2 r'.2.
Proof.
  intros Hsf. cbv zeta. unfold handle, call, state_reply, MemVmHost.apply_start. st_unfold.
  rewrite loopback_call. unfold Loopback.apply. st_unfold. rewrite (sf_slots _ _ Hsf).
  pose proof (slot_mut_shown h id) as Hs.
  destruct (Loopback.slot_mut _ id) as [s|e]; [|by destruct Hs as (e'&->); split; [|destruct h]].
  destruct Hs as [-> Hs]. cbn [view sl_state].
  change (Loopback.terminal (lo_state s)) with (MemVmHost.terminal (lo_state s)).
  destruct (MemVmHost.terminal (lo_state s)); [by split; [|destruct h]|].
  destruct (bool_decide (lo_state s = "running")); [by split; [|destruct h]|]. simpl. split; [done|].
  by apply (stands_for_write h m (N.to_nat id) s).
Qed.

Lemma stop_agrees id h m :
  stands_for h m →
  let r := handle debug_reply (VmOp.Stop id) h in let r' := MemVmHost.apply_stop id m in
  agree r.1 r'.1 ∧ stands_for r.2 r'.2.
Proof.
  intros Hsf. cbv zeta. unfold handle, call, state_reply, MemVmHost.apply_stop. st_unfold.
  rewrite loopback_call. unfold Loopback.apply. st_unfold. rewrite (sf_slots _ _ Hsf).
  pose proof (slot_mut_shown h id) as Hs.
  destruct (Loopback.slot_mut _ id) as [s|e]; [|by destruct Hs as (e'&->); split; [|destruct h]].
  destruct Hs as [-> Hs]. cbn [view sl_state sl_last_exit].
  change (Loopback.terminal (lo_state s)) with (MemVmHost.terminal (lo_state s)).
  destruct (MemVmHost.terminal (lo_state s)) eqn:Et; (split; [done|]);
    cbn [snd]; rewrite <-?(sf_slots _ _ Hsf); by apply (stands_for_write h m (N.to_nat id) s).
Qed.

Lemma delete_agrees id h m :
  stands_for h m →
  let r := handle debug_reply (VmOp.Delete id) h in let r' := MemVmHost.apply_delete id m in
  agree r.1 r'.1 ∧ stands_for r.2 r'.2.
Proof.
  intros Hsf. cbv zeta. unfold handle, call, MemVmHost.apply_delete. st_unfold.
  rewrite loopback_call. unfold Loopback.apply. st_unfold. rewrite (sf_slots _ _ Hsf).
  pose proof (slot_mut_shown h id) as Hs.
  destruct (Loopback.slot_mut _ id) as [s|e]; [|by destruct Hs as (e'&->); split; [|destruct h]].
  destruct Hs as [-> Hs]. cbn [view sl_state].
  change (Loopback.terminal (lo_state s)) with (MemVmHost.terminal (lo_state s)).
  destruct (MemVmHost.terminal (lo_state s)); [|by split; [|destruct h]]. simpl. split; [done|].
  pose proof (sf_length _ _ Hsf).
  apply (stands_for_put h (forget id _) m (N.to_nat id) None); [done| |done| |done].
  - apply lookup_lt_Some in Hs. lia.
  - intros k Hk. unfold policy_of, label_of. cbn. rewrite !lookup_delete_ne by lia. done.
Qed.

Lemma handle_agrees op h m :
  lifecycle op = true → stands_for h m →
  let r := handle debug_reply op h in let r' := MemVmHost.apply op m in
  agree r.1 r'.1 ∧ stands_for r.2 r'.2.
Proof.
  intros Hop Hsf r r'.
  assert (Capabilities.contains (MemVmHost.caps m) (Capabilities.required op) = true) as Hcap.
  { rewrite (sf_caps _ _ Hsf). by destruct op. }
  assert (∀ k : st (MemVmHost.t V W) string VmOpReply.t,
    (∀ m, MemVmHost.apply op m = (h ← get_st;
      _ ← bail_if (negb (Capabilities.contains (MemVmHost.caps h) (Capabilities.required op)))
            ("capability denied: " +:+ Capabilities.op_tag op); k) m) → r' = k m) as Hk.
  { intros k Hk. unfold r'. rewrite Hk. unfold mbind, st_bind, get_st, bail_if. by rewrite Hcap. }
  destruct op; try done.
  - rewrite (Hk _ (λ _, eq_refl)). apply create_agrees; [by apply N.leb_le|done].
  - rewrite (Hk _ (λ _, eq_refl)). by apply start_agrees.
  - rewrite (Hk _ (λ _, eq_refl)). by apply stop_agrees.
  - rewrite (Hk _ (λ _, eq_refl)). by apply delete_agrees.
  - rewrite (Hk _ (λ _, eq_refl)). done.
Qed.

Lemma run_agrees ops h m :
  Forall (λ op, lifecycle op = true) ops → stands_for h m →
  let '(rs, h') := @run_ops _ (host debug_reply) ops h in
  let '(rs', m') := run_ops ops m in
  Forall2 agree rs rs' ∧ stands_for h' m'.
Proof.
  intros Hops. revert h m. induction Hops as [|op ops Hop Hops IH]; intros h m Hsf; [done|].
  cbn [run_ops vh_handle host MemVmHost.host].
  destruct (handle_agrees op h m Hop Hsf) as [Ha Hsf'].
  destruct (handle debug_reply op h) as [r h1], (MemVmHost.apply op m) as [r' m1]. cbn [fst snd] in *.
  specialize (IH h1 m1 Hsf'). destruct (run_ops ops h1) as [rs h2], (run_ops ops m1) as [rs' m2].
  destruct IH as [Hrs ?]. split; [by constructor|done].
Qed.

Lemma snapshot_agrees owner h m :
  stands_for h m → (snapshot owner h).1 = (MemVmHost.current_rows owner m).1.
Proof.
  intros [Hlen Hs Hl _]. unfold snapshot. cbn [hl_call Loopback.link]. rewrite loopback_call.
  unfold Loopback.apply, get_st. unfold mbind, st_bind, mret, st_ret.
  unfold MemVmHost.current_rows. cbn [fst].
  assert (MemVmHost.slots (MemVmHost.remember_owner owner m) = shown h) as ->.
  { rewrite <-Hs. unfold MemVmHost.remember_owner. by destruct (MemVmHost.owner m). }
  assert (∀ i s, Loopback.slots (link h) !! i = Some (Some s) →
    row_of owner (set_link (link h) h) (Loopback.row_of i s) = MemVmHost.row_of owner i (view h i s)) as Hrow.
  { intros i s Hi. unfold row_of, MemVmHost.row_of, Loopback.row_of, view. cbn. specialize (Hl i s Hi).
    unfold label_of in *. cbn. f_equal. by destruct (lo_label s). }
  unfold shown. revert Hrow Hlen. generalize (Loopback.slots (link h)).
  intros ss Hrow Hlen. destruct ss as [|o0 [|o1 [|o2 [|o3 [|]]]]]; [done..| |done].
  pose proof (Hrow 0%nat) as R0. pose proof (Hrow 1%nat) as R1. pose proof (Hrow 2%nat) as R2.
  pose proof (Hrow 3%nat) as R3. clear Hrow.
  destruct o0, o1, o2, o3; simpl in *; rewrite ?R0, ?R1, ?R2, ?R3 by done; done.
Qed.
End stand_in.

(** ** The contained in-memory host *)
Definition bridged (op : VmOp.t) : bool :=
  match op with
  | VmOp.Create _ _ _ _ _ _ | VmOp.Start _ | VmOp.Stop _ | VmOp.Delete _ | VmOp.List => true
  | _ => false
  end.
(** A refusal, the listing of nothing, or the deletion of what does not
    exist. *)
Definition nothing (r : HostResult) : bool :=
  match r with
  | Err _ | Ok (VmOpReply.VolumesListed []) | Ok (VmOpReply.SnapshotsListed [])
  | Ok (VmOpReply.NetworksListed []) | Ok (VmOpReply.NicsListed [])
  | Ok (VmOpReply.SecurityGroupsListed []) | Ok (VmOpReply.LoadBalancersListed [])
  | Ok (VmOpReply.VolumeDeleted _) | Ok (VmOpReply.SnapshotDeleted _) | Ok (VmOpReply.NetworkDeleted _)
  | Ok (VmOpReply.NicDetached _) | Ok (VmOpReply.SecurityGroupDeleted _)
  | Ok (VmOpReply.LoadBalancerDeleted _) => true
  | _ => false
  end.
(** The calls of the [VmHost] trait. *)
Inductive host_call := HHandle (op : VmOp.t) | HSnapshot (owner : NodeId) | HAttach (vm_id : N) (atts : list VolumeAttachment).
Definition run_host_call {H} `{VmHost H} (c : host_call) (h : H) : H :=
  match c with
  | HHandle op => (vh_handle op h).2
  | HSnapshot owner => (vh_snapshot owner h).2
  | HAttach vm_id atts => (vh_attach_preserved vm_id atts h).2
  end.

Section inert.
Context {L : Type} `{HyperLink L} (debug_reply : HyperReply.t → string).
Implicit Types (h : t L).
#[local] Existing Instance host.

Lemma empty_slot id : ∃ e, MemVmHost.slot_mut (MemVmHost.slots mem_new) id = Err e.
Proof.
  unfold MemVmHost.slot_mut. destruct (N.leb_spec MAX_SLOTS id) as [|Hid]; [by eexists|].
  cbn [MemVmHost.slots mem_new MemVmHost.with_stores]. rewrite lookup_replicate_2; [by eexists|].
  unfold MAX_SLOTS in *. lia.
Qed.

Lemma retain_empty {A} (p : string → A → bool) : map_retain p ∅ = ∅.
Proof. apply map_empty. intros k. rewrite map_retain_lookup_None. by left. Qed.
Lemma empty_vault_delete id : MemVolumeStore.delete_volume id MemVolumeStore.new = (Ok tt, MemVolumeStore.new).
Proof.
  unfold MemVolumeStore.delete_volume, modify, mbind, st_bind, MemVolumeStore.set_rows, MemVolumeStore.set_next_snap,
    MemVolumeStore.set_snaps, MemVolumeStore.new. cbn. by rewrite !delete_empty, retain_empty.
Qed.
Lemma empty_vault_delete_snapshot id : MemVolumeStore.delete_snapshot id MemVolumeStore.new = (Ok tt, MemVolumeStore.new).
Proof. unfold MemVolumeStore.delete_snapshot, modify, MemVolumeStore.set_snaps, MemVolumeStore.new. cbn. by rewrite delete_empty. Qed.
Lemma empty_vault_snapshot id name : ∃ e, MemVolumeStore.create_snapshot id name MemVolumeStore.new = (Err e, MemVolumeStore.new).
Proof.
  unfold MemVolumeStore.create_snapshot, try, mbind, st_bind, get_st.
  destruct (MemVolumeStore.validate_name name) as [[]|e]; by eexists.
Qed.
Lemma empty_nets_delete id : MemNetworkStore.delete_network id MemNetworkStore.new = (Ok tt, MemNetworkStore.new).
Proof.
  unfold MemNetworkStore.delete_network, mbind, st_bind, get_st, bail_if, put_st, MemNetworkStore.set_nets,
    MemNetworkStore.set_lbs, MemNetworkStore.new. cbn. by rewrite !delete_empty, retain_empty.
Qed.
Lemma empty_nets_delete_sg id : MemNetworkStore.delete_security_group id MemNetworkStore.new = (Ok tt, MemNetworkStore.new).
Proof.
  unfold MemNetworkStore.delete_security_group, modify, MemNetworkStore.set_sgs, MemNetworkStore.new. cbn.
  by rewrite delete_empty.
Qed.
Lemma empty_nets_delete_lb id : MemNetworkStore.delete_load_balancer id MemNetworkStore.new = (Ok tt, MemNetworkStore.new).
Proof.
  unfold MemNetworkStore.delete_load_balancer, modify, MemNetworkStore.set_lbs, MemNetworkStore.new. cbn.
  by rewrite delete_empty.
Qed.

Lemma empty_apply op caps :
  bridged op = false →
  let m := MemVmHost.with_caps caps mem_new in
  (MemVmHost.apply op m).2 = m ∧ nothing (MemVmHost.apply op m).1 = true.
Proof.
  intros Hop m. unfold MemVmHost.apply, mbind, st_bind, get_st, bail_if.
  destruct (Capabilities.contains _ _); [|done]. cbn [negb mret]. unfold mret, st_ret.
  assert (∀ id, ∃ e, MemVmHost.slot_mut (MemVmHost.slots m) id = Err e) as Hslot by apply empty_slot.
  destruct op; try done.
  all: unfold MemVmHost.apply_attach_volume, MemVmHost.apply_detach_volume, MemVmHost.apply_delete_volume,
    MemVmHost.attach_check, MemVmHost.attach_act, MemVmHost.delete_check, MemVmHost.delete_act.
  all: unfold MemVmHost.on_vault, MemVmHost.on_nets, MemVmHost.current_owner, zoom, map_err, mbind, st_bind, get_st, try, bail_if, mret, st_ret, mthrow, st_throw.
  all: try (destruct (Hslot vm_id) as [e E]; rewrite E; done).
  all: cbn [vs_delete vs_get vs_read vs_write vs_list vs_create_snapshot vs_list_snapshots vs_delete_snapshot
    vs_restore_snapshot ns_delete_network ns_detach_nic ns_delete_security_group ns_delete_load_balancer
    MemVolumeStore.store MemNetworkStore.store].
  all: change (MemVmHost.vault m) with MemVolumeStore.new.
  all: change (MemVmHost.nets m) with MemNetworkStore.new.
  all: rewrite ?empty_vault_delete, ?empty_vault_delete_snapshot, ?empty_nets_delete, ?empty_nets_delete_sg,
    ?empty_nets_delete_lb.
  all: try (destruct (empty_vault_snapshot volume_id name) as [e' E']; rewrite E'; done).
  all: repeat (case_match; simplify_eq/=; try done).
Qed.

(** Everything a caller can do keeps the contained host empty. *)
Lemma call_fallback req h : fallback (call req h).2 = fallback h.
Proof.
  unfold call, zoom, mbind, st_bind. destruct (hl_call req (link h)) as [[r|e] l]; [|done]. by destruct r.
Qed.
Lemma handle_empty op caps h :
  fallback h = MemVmHost.with_caps caps mem_new → fallback (handle debug_reply op h).2 = fallback h.
Proof.
  intros Hf. destruct (bridged op) eqn:Hb.
  - destruct op; try done; unfold handle, mbind, st_bind, state_reply;
      match goal with |- context [call ?r h] => pose proof (call_fallback r h) as Hc; destruct (call r h) as [[r'|e] h'] end;
      (exact Hc || (cbn [snd] in Hc |- *; destruct r'; exact Hc)).
  - assert (handle debug_reply op h = handle_other op h) as -> by by destruct op.
    unfold handle_other, mbind, st_bind, get_st. destruct (strict h); [done|]. unfold zoom. cbn [vh_handle].
    pose proof (empty_apply op caps Hb) as [E _]. cbn [vh_handle MemVmHost.host]. rewrite Hf.
    by destruct (MemVmHost.apply op _) as [r m].
Qed.
Lemma host_calls_empty calls caps h :
  fallback h = MemVmHost.with_caps caps mem_new →
  fallback (fold_left (λ h c, @run_host_call _ (host debug_reply) c h) calls h) = MemVmHost.with_caps caps mem_new.
Proof.
  revert h. induction calls as [|c calls IH]; intros h Hf; [done|]. cbn [fold_left]. apply IH.
  destruct c as [op|owner|vm_id atts]; cbn [run_host_call vh_handle vh_snapshot vh_attach_preserved host].
  - by rewrite (handle_empty op caps).
  - unfold snapshot. by destruct (hl_call _ _).
  - unfold attach_preserved, zoom. rewrite Hf. cbn [vh_attach_preserved MemVmHost.host].
    unfold MemVmHost.attach_preserved, mbind, st_bind, get_st, try.
    destruct (empty_slot vm_id) as [e E].
    change (MemVmHost.slots (MemVmHost.with_caps caps mem_new)) with (MemVmHost.slots mem_new). by rewrite E.
Qed.
End inert.

(** C18: over the in-process kernel simulation nobody can tell the bridge host
    from the in-memory host by the life cycle of VMs.  After any sequence of
    create, start, stop, delete and list operations whose image paths are at
    most 128 bytes, from a fresh host on both sides, every operation has
    succeeded with the same reply on both or failed on both, and the two hosts
    show the same rows to the federation, restart policies and labels
    included. *)
Theorem bridge_host_stands_in `{!HyperCodec} `{!HyperCodecLaws} {V W : Type} `{VolumeStore V} `{NetworkStore W}
    debug_reply strict ops owner (v : V) (w : W) :
  Forall (λ op, lifecycle op = true) ops →
  let '(rs, h) := @run_ops _ (host debug_reply) ops (with_strict strict (new Loopback.new)) in
  let '(rs', m) := run_ops ops (MemVmHost.with_stores v w) in
  Forall2 agree rs rs' ∧ (snapshot owner h).1 = (vh_snapshot owner m).1.
Proof.
  intros Hops.
  assert (stands_for (with_strict strict (new Loopback.new)) (MemVmHost.with_stores v w)) as Hsf.
  { split; [done|done| |done]. intros i s Hs. apply lookup_replicate in Hs as [? _]. done. }
  pose proof (run_agrees debug_reply ops _ _ Hops Hsf) as Hrun.
  destruct (run_ops ops (with_strict _ _)) as [rs h], (run_ops ops _) as [rs' m].
  destruct Hrun as [Hrs Hsf']. split; [done|]. by apply snapshot_agrees.
Qed.

(** Nothing can be stored through the bridge host.  Over any link, with any
    capabilities and in either mode, after any calls of the host trait
    (snapshots included) the in-memory host it delegates to is as empty as it
    was built, and every operation on volumes, snapshots, networks, NICs,
    security groups and load balancers is refused, lists nothing or deletes
    nothing. *)
Theorem bridge_host_stores_nothing {L} `{HyperLink L} debug_reply (l : L) caps strict calls op :
  bridged op = false →
  let h := fold_left (λ h c, @run_host_call _ (host debug_reply) c h) calls
             (with_strict strict (with_caps caps (new l))) in
  fallback h = MemVmHost.with_caps caps mem_new ∧ nothing (handle debug_reply op h).1 = true.
Proof.
  intros Hop h. assert (fallback h = MemVmHost.with_caps caps mem_new) as Hf by by apply host_calls_empty.
  split; [done|].
  assert (handle debug_reply op h = handle_other op h) as -> by by destruct op.
  unfold handle_other, mbind, st_bind, get_st. destruct (CelhyperVmHost.strict h); [done|].
  unfold zoom. rewrite Hf. cbn [vh_handle MemVmHost.host].
  pose proof (empty_apply op caps Hop) as [_ E]. by destruct (MemVmHost.apply op _) as [r m].
Qed.

(** ** A codec for the witnesses *)
Module HyperWitness.
Definition req_parts (r : HyperRequest.t) :=
  match r with
  | HyperRequest.Create l p c m k => inl (inl (l, p, c, m, k))
  | HyperRequest.Start i => inl (inr (0%N, i))
  | HyperRequest.Stop i => inl (inr (1%N, i))
  | HyperRequest.Delete i => inl (inr (2%N, i))
  | HyperRequest.List => inr None
  | HyperRequest.ImageLoad n k h => inr (Some (n, k, h))
  end.
Definition req_of (x : string * option string * option N * option N * option N + N * N + option (N * N * string)) :=
  match x with
  | inl (inl (l, p, c, m, k)) => HyperRequest.Create l p c m k
  | inl (inr (t, i)) => if (t =? 0)%N then HyperRequest.Start i else if (t =? 1)%N then HyperRequest.Stop i
                        else HyperRequest.Delete i
  | inr None => HyperRequest.List
  | inr (Some (n, k, h)) => HyperRequest.ImageLoad n k h
  end.
#[export] Instance req_eq_dec : EqDecision HyperRequest.t.
Proof. solve_decision. Defined.
#[export] Instance req_countable : Countable HyperRequest.t.
Proof. refine (inj_countable' req_parts req_of _). by intros []. Defined.

Definition row_parts (r : HyperVmRow) :=
  (hr_vm_id r, hr_label r, hr_state r, hr_last_exit r,
   (hr_image_path r, hr_cpu_count r, hr_memory_mib r, hr_boot_blob_crc32c r)).
Definition row_of_parts (x : N * string * string * option N * (option string * option N * option N * option N)) :=
  let '(i, l, s, e, (p, c, m, k)) := x in mkHyperVmRow i l s e p c m k.
#[export] Instance row_eq_dec : EqDecision HyperVmRow.
Proof. solve_decision. Defined.
#[export] Instance row_countable : Countable HyperVmRow.
Proof. refine (inj_countable' row_parts row_of_parts _). by intros []. Defined.

Definition reply_parts (r : HyperReply.t) :=
  match r with
  | HyperReply.Created i => inl (inl (0%N, i))
  | HyperReply.Deleted i => inl (inl (1%N, i))
  | HyperReply.ImageLoaded n k => inl (inr (n, k))
  | HyperReply.State i s e => inr (inl (i, s, e))
  | HyperReply.Listed rows => inr (inr (inl rows))
  | HyperReply.Error m => inr (inr (inr m))
  end.
Definition reply_of (x : (N * N + N * N) + (N * string * option N + (list HyperVmRow + string))) :=
  match x with
  | inl (inl (t, i)) => if (t =? 0)%N then HyperReply.Created i else HyperReply.Deleted i
  | inl (inr (n, k)) => HyperReply.ImageLoaded n k
  | inr (inl (i, s, e)) => HyperReply.State i s e
  | inr (inr (inl rows)) => HyperReply.Listed rows
  | inr (inr (inr m)) => HyperReply.Error m
  end.
#[export] Instance reply_eq_dec : EqDecision HyperReply.t.
Proof. solve_decision. Defined.
#[export] Instance reply_countable : Countable HyperReply.t.
Proof. refine (inj_countable' reply_parts reply_of _). by intros []. Defined.

#[export] Instance codec : HyperCodec := {|
  enc_req r := Ok (print_bits r);
  dec_req s := ok_or (parse_bits s) "expected value";
  enc_reply r := Ok (print_bits r);
  dec_reply s := ok_or (parse_bits s) "expected value"
|}.
#[export] Instance codec_laws : HyperCodecLaws.
Proof.
  split; intros r; eexists; (split; [done|]); cbn [dec_req dec_reply codec]; by rewrite parse_print_bits.
Qed.

Definition ops : list VmOp.t :=
  [VmOp.Create "web" Always (Some "/img/web.raw") (Some 2%N) (Some 512%N) None; VmOp.Start 0; VmOp.Start 0;
   VmOp.Create EmptyString Never None None None None; VmOp.Stop 1; VmOp.Delete 0; VmOp.Delete 7;
   VmOp.Create "db" Always None None None None].
End HyperWitness.
#[export] Existing Instances HyperWitness.codec HyperWitness.codec_laws.

Lemma bridge_host_stands_in_witness :
  let '(rs, h) := @run_ops _ (host (λ _, EmptyString)) HyperWitness.ops (with_strict true (new Loopback.new)) in
  let '(rs', m) := run_ops HyperWitness.ops (MemVmHost.with_stores MemVolumeStore.new MemNetworkStore.new) in
  Forall2 agree rs rs' ∧ (snapshot "n1" h).1 = (vh_snapshot "n1" m).1.
Proof.
  apply (bridge_host_stands_in (λ _, EmptyString) true HyperWitness.ops "n1" MemVolumeStore.new MemNetworkStore.new).
  repeat constructor.
Defined.

Lemma bridge_host_stores_nothing_witness :
  let h := fold_left (λ h c, @run_host_call _ (host (λ _, EmptyString)) c h)
             [HSnapshot "n1"; HHandle (VmOp.CreateVolume "v1" 65536); HAttach 0 []]
             (with_strict false (with_caps Capabilities.ALL (new Loopback.new))) in
  fallback h = MemVmHost.with_caps Capabilities.ALL mem_new ∧
  nothing (handle (λ _, EmptyString) (VmOp.CreateVolume "v1" 65536) h).1 = true.
Proof.
  apply (bridge_host_stores_nothing (λ _, EmptyString) Loopback.new Capabilities.ALL false
    [HSnapshot "n1"; HHandle (VmOp.CreateVolume "v1" 65536); HAttach 0 []] (VmOp.CreateVolume "v1" 65536)).
  reflexivity.
Defined.

(** The two hosts on a volume. *)
Example create_volume_differs :
  let h := (snapshot "n1" (new Loopback.new)).2 in
  let m := (MemVmHost.current_rows "n1" mem_new).2 in
  (handle (λ _, EmptyString) (VmOp.CreateVolume "v1" 8) h).1 = Err "vault: owner not yet known; snapshot first" ∧
  ∃ v, (MemVmHost.apply (VmOp.CreateVolume "v1" 8) m).1 = Ok (VmOpReply.VolumeCreated v).
Proof. split; [by vm_compute|]. eexists. by vm_compute. Qed.
