(* ===== verification/HyperSerial.v ===== *)
(** * HyperSerial: the serial line to the kernel

    crates/celmesh/src/hyper_serial.rs: [SerialHyperLink], the link that writes
    one JSON line per request and reads one per reply, and [serve], the loop
    that offers any link on such a line.  What the operating system does with
    the connection is the schedule of the link: how much of what the peer
    wrote has arrived when a call stops waiting, and which transfers fail. *)
From S2P Require Import Prelude.
From S2P Require Import Text.
From S2P Require Import Errors.
From S2P Require Import Vault.
From S2P Require Import Proto.
From S2P Require Import Host.
From S2P Require Import Codecs.
From S2P Require Import Hyper.
From S2P Require Import HyperProofs.
From Stdlib Require Import Strings.Byte.

Definition SERIAL_MAX_FRAME_BYTES : N := 64 * 1024.

Definition str_of (bs : bytes) : string := String.string_of_list_byte bs.
Lemma str_of_as_bytes s : str_of (as_bytes s) = s.
Proof. apply String.string_of_list_byte_of_string. Qed.

(** ** What [read_line] of a [BufReader] does with the bytes at hand *)

(** [core::str::from_utf8] accepts. *)
Definition in_range (lo hi : N) (c : byte) : bool := ((lo <=? Byte.to_N c) && (Byte.to_N c <=? hi))%N.
Fixpoint utf8_ok (bs : bytes) : bool :=
  match bs with
  | [] => true
  | c :: bs1 =>
      if in_range 0 0x7F c then utf8_ok bs1
      else match bs1 with
      | [] => false
      | c1 :: bs2 =>
          if in_range 0xC2 0xDF c then in_range 0x80 0xBF c1 && utf8_ok bs2
          else match bs2 with
          | [] => false
          | c2 :: bs3 =>
              if in_range 0xE0 0xEF c
              then in_range (if in_range 0xE0 0xE0 c then 0xA0 else 0x80) (if in_range 0xED 0xED c then 0x9F else 0xBF) c1
                   && in_range 0x80 0xBF c2 && utf8_ok bs3
              else match bs3 with
              | [] => false
              | c3 :: bs4 =>
                  in_range 0xF0 0xF4 c
                  && in_range (if in_range 0xF0 0xF0 c then 0x90 else 0x80) (if in_range 0xF4 0xF4 c then 0x8F else 0xBF) c1
                  && in_range 0x80 0xBF c2 && in_range 0x80 0xBF c3 && utf8_ok bs4
              end
          end
      end
  end.

(** The bytes up to and with the first newline, and the rest. *)
Fixpoint split_line (bs : bytes) : option (bytes * bytes) :=
  match bs with
  | [] => None
  | c :: bs' =>
      if decide (c = x0a) then Some ([c], bs')
      else '(l, rest) ← split_line bs'; Some (c :: l, rest)
  end.
(** The line as a [String], or the [InvalidData] error. *)
Definition line_string (buf : bytes) : result string string :=
  if utf8_ok buf then Ok (str_of buf) else Err "stream did not contain valid UTF-8".

(** ** The link *)

(** The other end: what it writes back for the bytes it receives, and whether
    it has closed the connection. *)
Class Peer (K : Type) := {
  peer_feed : bytes → K → bytes * K;
  peer_closed : K → bool
}.

(** The fate of one call: the whole reply arrives; the first [n] bytes of what
    the peer wrote have arrived at the deadline; the write stops after [n]
    bytes; the read fails. *)
Inductive Delivery :=
| Delivered
| Arrived (n : nat)
| WriteFails (n : nat) (e : string)
| ReadFails (e : string).

Module SerialHyperLink.
Section link.
Context {K : Type} `{Peer K} `{HyperCodec}.
Record t := mk {
  peer : K;
  pipe : bytes;               (** written by the peer, not read yet *)
  schedule : list Delivery    (** the coming calls; all [Delivered] at its end *)
}.
Abbreviation M := (st t CelError).

Definition next_delivery : M Delivery := λ s,
  match schedule s with
  | [] => (Ok Delivered, s)
  | d :: ds => (Ok d, mk (peer s) (pipe s) ds)
  end.
Definition write (bs : bytes) (s : t) : t :=
  let '(out, k) := peer_feed bs (peer s) in mk k (pipe s ++ out) (schedule s).
Definition consume (n : nat) (s : t) : t := mk (peer s) (drop n (pipe s)) (schedule s).

(** The timed [read_line]: a call that gives up loses what it had read. *)
Definition read_reply (d : Delivery) : M bytes :=
  s ← get_st;
  let arrived := match d with Arrived n => take n (pipe s) | _ => pipe s end in
  match d, split_line arrived with
  | ReadFails e, _ => mthrow (Io ("hyper-serial read: " +:+ e))
  | _, Some (line, _) => _ ← modify (consume (length line)); mret line
  | _, None =>
      _ ← modify (consume (length arrived));
      if peer_closed (peer s) then mret arrived
      else mthrow (Timeout "hyper-serial: no reply in 1s")
  end.

Definition call (req : HyperRequest.t) : M HyperReply.t :=
  line ← try (map_err (λ e, Io ("hyper-serial encode: " +:+ e)) (enc_req req));
  let frame := as_bytes line ++ [x0a] in
  d ← next_delivery;
  _ ← match d with
      | WriteFails n e => _ ← modify (write (take n frame)); mthrow (Io ("hyper-serial write: " +:+ e))
      | _ => modify (write frame)
      end;
  raw ← read_reply d;
  buf ← try (map_err (λ e, Io ("hyper-serial read: " +:+ e)) (line_string raw));
  _ ← bail_if (len buf =? 0)%N (Io "hyper-serial: peer closed");
  _ ← bail_if (SERIAL_MAX_FRAME_BYTES <? len buf)%N (Io "hyper-serial: reply > 65536 bytes");
  try (map_err (λ e, Io ("hyper-serial decode: " +:+ e)) (dec_reply (trim_end buf))).

#[export] Instance link : HyperLink t := {| hl_call := call |}.
End link.
Arguments t : clear implicits.
End SerialHyperLink.
#[export] Existing Instance SerialHyperLink.link.

(** ** [serve] *)
Section serve.
Context {L : Type} `{HyperLink L} `{HyperCodec}.

(** One frame: the reply line, or the error that ends the connection. *)
Definition serve_line (raw : bytes) : st L CelError bytes :=
  buf ← try (map_err (λ e, Io ("hyper-serve read: " +:+ e)) (line_string raw));
  _ ← bail_if (SERIAL_MAX_FRAME_BYTES <? len buf)%N (Io "hyper-serve: request > 65536 bytes");
  req ← try (map_err (λ e, Io ("hyper-serve decode: " +:+ e)) (dec_req (trim_end buf)));
  l ← get_st;
  let '(r, l') := hl_call req l in
  _ ← put_st l';
  match r with
  | Ok reply =>
      s ← try (map_err (λ e, Io ("hyper-serve encode: " +:+ e)) (enc_reply reply));
      mret (as_bytes s ++ [x0a])
  | Err e => mthrow (Io ("hyper-serve: link error not representable on wire: " +:+ debug_error e))
  end.

(** The loop over the bytes received so far: the bytes written, those of an
    unfinished line, and how it ended, if it did.  [eof] is the end of the
    stream: what is left is then the last frame. *)
Fixpoint serve (fuel : nat) (eof : bool) (input : bytes) (l : L) : bytes * bytes * option (CelResult unit) * L :=
  match fuel with
  | O => ([], input, None, l)
  | S fuel' =>
      let frame := match split_line input with
                   | Some x => Some x
                   | None => if eof then Some (input, []) else None
                   end in
      match frame with
      | None => ([], input, None, l)
      | Some ([], rest) => ([], rest, Some (Ok tt), l)
      | Some (raw, rest) =>
          match serve_line raw l with
          | (Ok out, l') =>
              let '(outs, unread, ended, l'') := serve fuel' eof rest l' in (out ++ outs, unread, ended, l'')
          | (Err e, l') => ([], rest, Some (Err e), l')
          end
      end
  end.

(** The serving end as a peer. *)
Record Server := mkServer { sv_link : L; sv_unread : bytes; sv_closed : bool }.
#[export] Instance server_peer : Peer Server := {|
  peer_feed bs k :=
    if sv_closed k then ([], k)
    else
      let input := sv_unread k ++ bs in
      let '(out, unread, ended, l) := serve (S (length input)) false input (sv_link k) in
      (out, mkServer l unread (bool_decide (is_Some ended)));
  peer_closed := sv_closed
|}.
End serve.
Arguments Server : clear implicits.

(** ** Frames *)

(** A text that travels as one line: what serde_json documents of its compact
    output, which never holds a raw control character and ends in a brace. *)
Definition frame_text (s : string) : Prop :=
  x0a ∉ as_bytes s ∧ utf8_ok (as_bytes s) = true ∧ trim_end s = s ∧ s ≠ EmptyString.
Class HyperCodecText `{HyperCodec} : Prop := {
  req_frame r s : enc_req r = Ok s → frame_text s;
  reply_frame r s : enc_reply r = Ok s → frame_text s
}.
Definition newline : string := String (ascii_of_byte x0a) EmptyString.

Lemma split_line_app bs rest : x0a ∉ bs → split_line (bs ++ x0a :: rest) = Some (bs ++ [x0a], rest).
Proof.
  induction bs as [|c bs IH]; intros Hn; [done|]. apply not_elem_of_cons in Hn as [Hc Hn].
  cbn [app split_line]. rewrite decide_False by done. by rewrite IH.
Qed.
Lemma utf8_app bs bs' : utf8_ok bs = true → utf8_ok (bs ++ bs') = utf8_ok bs'.
Proof.
  induction bs as [bs IH] using (induction_ltof1 _ length). unfold ltof in IH.
  destruct bs as [|c bs]; [done|]. cbn [app utf8_ok]. destruct (in_range 0 0x7F c).
  { intros Hu. apply IH; [simpl; lia|done]. }
  destruct bs as [|c1 bs]; [done|]. cbn [app]. destruct (in_range 0xC2 0xDF c).
  { intros [-> Hu]%andb_true_iff. cbn [andb]. apply IH; [simpl; lia|done]. }
  destruct bs as [|c2 bs]; [done|]. cbn [app]. destruct (in_range 0xE0 0xEF c).
  { intros [[-> ->]%andb_true_iff Hu]%andb_true_iff. cbn [andb]. apply IH; [simpl; lia|done]. }
  destruct bs as [|c3 bs]; [done|]. cbn [app].
  intros [[[[-> ->]%andb_true_iff ->]%andb_true_iff ->]%andb_true_iff Hu]%andb_true_iff. cbn [andb].
  apply IH; [simpl; lia|done].
Qed.
Lemma str_of_app bs bs' : str_of (bs ++ bs') = str_of bs +:+ str_of bs'.
Proof. induction bs as [|c bs IH]; [done|]. cbn. rewrite app_string_cons. f_equal. exact IH. Qed.
Lemma trim_newline s : trim_end (s +:+ newline) = trim_end s.
Proof. induction s as [|c s IH]; [done|]. rewrite app_string_cons. cbn [trim_end]. by rewrite IH. Qed.
Lemma len_app_string s t : len (s +:+ t) = (len s + len t)%N.
Proof. unfold len. induction s as [|c s IH]; [done|]. rewrite app_string_cons. cbn [String.length]. lia. Qed.

(** A frame as it arrives. *)
Lemma frame_line s rest :
  frame_text s → split_line (as_bytes s ++ x0a :: rest) = Some (as_bytes s ++ [x0a], rest) ∧
  line_string (as_bytes s ++ [x0a]) = Ok (s +:+ newline) ∧ trim_end (s +:+ newline) = s ∧
  len (s +:+ newline) = (len s + 1)%N.
Proof.
  intros (Hn&Hu&Ht&_). split; [by apply split_line_app|]. split.
  - unfold line_string. by rewrite utf8_app, str_of_app, str_of_as_bytes.
  - split; [by rewrite trim_newline|]. by rewrite len_app_string.
Qed.

(** ** The line offers the link behind it *)
Section through.
Context {L : Type} `{HyperLink L} `{!HyperCodec} `{!HyperCodecLaws} `{!HyperCodecText}.

(** A call of the link behind the line: what does not fit a frame is refused,
    and any error closes the connection for good. *)
Definition through (req : HyperRequest.t) : st (L * bool) CelError HyperReply.t := λ '(l, closed),
  let closing l := (Err (Io "hyper-serial: peer closed"), (l, true)) in
  match enc_req req with
  | Err e => (Err (Io ("hyper-serial encode: " +:+ e)), (l, closed))
  | Ok s =>
      if closed then closing l
      else if (SERIAL_MAX_FRAME_BYTES <? len s + 1)%N then closing l
      else match hl_call req l with
           | (Err _, l') => closing l'
           | (Ok r, l') =>
               match enc_reply r with
               | Err _ => closing l'
               | Ok t => if (SERIAL_MAX_FRAME_BYTES <? len t + 1)%N
                         then (Err (Io "hyper-serial: reply > 65536 bytes"), (l', closed))
                         else (Ok r, (l', closed))
               end
           end
  end.
Fixpoint run_reqs {K} `{HyperLink K} (reqs : list HyperRequest.t) (k : K) : list (CelResult HyperReply.t) * K :=
  match reqs with
  | [] => ([], k)
  | r :: reqs' => let '(x, k) := hl_call r k in let '(xs, k) := run_reqs reqs' k in (x :: xs, k)
  end.
Definition through_link : HyperLink (L * bool) := {| hl_call := through |}.

(** The connection between two calls. *)
Definition at_rest (l : L) (closed : bool) : SerialHyperLink.t (Server L) :=
  SerialHyperLink.mk (mkServer l [] closed) [] [].

Lemma serve_feed s l :
  frame_text s → 
  peer_feed (as_bytes s ++ [x0a]) (mkServer l [] false) =
  match serve_line (as_bytes s ++ [x0a]) l with
  | (Ok out, l') => (out, mkServer l' [] false)
  | (Err e, l') => ([], mkServer l' [] true)
  end.
Proof.
  intros Hs. cbn [peer_feed server_peer sv_closed sv_unread sv_link app].
  destruct (frame_line s [] Hs) as (Hl&_). rewrite length_app. cbn [length]. rewrite Nat.add_1_r.
  cbn [serve]. rewrite Hl. destruct Hs as (_&_&_&Hne).
  destruct (as_bytes s ++ [x0a]) as [|c raw] eqn:E; [by destruct (as_bytes s)|].
  destruct (serve_line (c :: raw) l) as [[out|e] l']; cbn; [|done]. by rewrite app_nil_r.
Qed.

Lemma serve_line_frame req s l :
  enc_req req = Ok s →
  serve_line (as_bytes s ++ [x0a]) l =
  if (SERIAL_MAX_FRAME_BYTES <? len s + 1)%N then (Err (Io "hyper-serve: request > 65536 bytes"), l)
  else match hl_call req l with
       | (Ok r, l') => (s ← map_err (λ e, Io ("hyper-serve encode: " +:+ e)) (enc_reply r);
                        Ok (as_bytes s ++ [x0a]), l')
       | (Err e, l') => (Err (Io ("hyper-serve: link error not representable on wire: " +:+ debug_error e)), l')
       end.
Proof.
  intros Es. destruct (frame_line s [] (req_frame _ _ Es)) as (_&Hstr&Htrim&Hlen).
  unfold serve_line, try, mbind at 1, st_bind. rewrite Hstr. cbn [map_err]. unfold mbind at 1, st_bind, bail_if.
  rewrite Hlen. destruct (_ <? _)%N; [done|]. unfold mbind, st_bind, mret, st_ret.
  rewrite Htrim. destruct (req_roundtrip req) as (s'&Es'&Hd). rewrite Es in Es'. injection Es' as <-.
  rewrite Hd. cbn [map_err]. unfold get_st, put_st. destruct (hl_call req l) as [[r|e] l']; [|done].
  by destruct (enc_reply r).
Qed.

Lemma call_through req l closed :
  SerialHyperLink.call req (at_rest l closed) =
  let '(r, (l', closed')) := through req (l, closed) in (r, at_rest l' closed').
Proof.
  unfold SerialHyperLink.call, through. destruct (enc_req req) as [s|e] eqn:Es; [|done].
  unfold try, mbind, st_bind, map_err, SerialHyperLink.next_delivery. cbn [SerialHyperLink.schedule at_rest].
  unfold modify, SerialHyperLink.write. cbn [SerialHyperLink.peer SerialHyperLink.pipe SerialHyperLink.schedule at_rest].
  assert (∀ l', SerialHyperLink.read_reply Delivered (at_rest l' true) = (Ok [], at_rest l' true)) as Hclosed by done.
  destruct closed; [done|].
  rewrite (serve_feed s l (req_frame _ _ Es)), (serve_line_frame req s l Es).
  destruct (_ <? _)%N; [done|]. destruct (hl_call req l) as [[r|e] l']; [|done].
  destruct (enc_reply r) as [t|e] eqn:Et; [|done]. unfold mbind, result_bind, map_err.
  destruct (frame_line t [] (reply_frame _ _ Et)) as (Hl&Hstr&Htrim&Hlen).
  unfold SerialHyperLink.read_reply, mbind, st_bind, get_st.
  cbn [SerialHyperLink.pipe app]. rewrite Hl. unfold modify, mret, st_ret, SerialHyperLink.consume.
  cbn [SerialHyperLink.pipe SerialHyperLink.peer SerialHyperLink.schedule]. rewrite drop_all, Hstr.
  rewrite Hlen. unfold bail_if. destruct (N.eqb_spec (len t + 1) 0); [lia|].
  unfold mret, st_ret. destruct (_ <? _)%N; [done|].
  rewrite Htrim. destruct (reply_roundtrip r) as (t'&Et'&Hd). rewrite Et in Et'. injection Et' as <-.
  by rewrite Hd.
Qed.
End through.

(** C37: a serial line adds nothing to the link behind it but its limits.  With
    [serve] over any link at the other end of a connection that works, any
    sequence of calls is answered as the link itself would, as long as
    requests and replies fit a frame; an error of the link (which the code does
    not put on the wire, despite a comment of [serve]), or a request too long,
    closes the connection, after which no call reaches the link; a reply too
    long fails its call and leaves the connection open. *)
Theorem serial_is_link {L} `{HyperLink L} `{!HyperCodec} `{!HyperCodecLaws} `{!HyperCodecText} reqs (l : L) :
  run_reqs reqs (at_rest l false) =
  let '(rs, (l', closed)) := @run_reqs _ through_link reqs (l, false) in (rs, at_rest l' closed).
Proof.
  generalize false. revert l. induction reqs as [|req reqs IH]; intros l closed; [done|].
  cbn [run_reqs hl_call SerialHyperLink.link through_link]. rewrite call_through.
  destruct (through req (l, closed)) as [r [l1 closed1]]. rewrite IH.
  by destruct (run_reqs reqs (l1, closed1)) as [rs [l2 closed2]].
Qed.

(** ** Witnesses *)
Lemma bits_frame p : frame_text (pos_str p).
Proof.
  assert (∀ c, c = zero ∨ c = one → byte_of_ascii c ≠ x0a ∧ in_range 0 0x7F (byte_of_ascii c) = true ∧ is_white c = false)
    as Hc by (intros c [-> | ->]; done).
  assert (∀ p, ∃ c s, pos_str p = String c s ∧ (c = zero ∨ c = one)) as Hhead.
  { intros [q|q|]; eexists _, _; (split; [done|]); auto. }
  assert (∀ c, c = zero ∨ c = one → ∀ s, frame_text s → frame_text (String c s)) as Hcons.
  { intros c Hc' s (Hn&Hu&Ht&Hne). destruct (Hc c Hc') as (Hc1&Hc2&Hc3). split; [|split; [|split]].
    - rewrite as_bytes_cons. by apply not_elem_of_cons.
    - rewrite as_bytes_cons. cbn [utf8_ok]. by rewrite Hc2.
    - cbn [trim_end]. rewrite Ht, white_char_ascii, bool_decide_eq_false_2; [done|done|by destruct Hc' as [-> | ->]].
    - done. }
  induction p as [p IH|p IH|]; cbn [pos_str]; [apply Hcons; auto..|].
  split; [|done]. apply not_elem_of_cons. split; [done|apply not_elem_of_nil].
Qed.
#[export] Instance witness_codec_text : HyperCodecText.
Proof. split; intros r s [= <-]; apply bits_frame. Qed.

Definition serial_reqs : list HyperRequest.t :=
  [HyperRequest.Create "a" None None None None; HyperRequest.Start 0; HyperRequest.List; HyperRequest.Start 9;
   HyperRequest.List].
Lemma serial_is_link_witness :
  run_reqs serial_reqs (at_rest Loopback.new false) =
  let '(rs, (l', closed)) := @run_reqs _ through_link serial_reqs (Loopback.new, false) in (rs, at_rest l' closed).
Proof. apply (serial_is_link serial_reqs Loopback.new). Defined.
(** The error of the fourth call closes the connection. *)
Example serial_closes :
  (λ r, match r with Ok _ => EmptyString | Err e => display_error e end) <$> (run_reqs serial_reqs (at_rest Loopback.new false)).1 =
  [EmptyString; EmptyString; EmptyString; "i/o error: hyper-serial: peer closed"; "i/o error: hyper-serial: peer closed"].
Proof. by vm_compute. Qed.

(** A reply that comes after the deadline is taken for the answer to the next
    request: the start of VM 1 is answered with the state of VM 0. *)
Definition late_host : CelhyperVmHost.t (SerialHyperLink.t (Server Loopback.t)) :=
  CelhyperVmHost.new (SerialHyperLink.mk (mkServer Loopback.new [] false) [] [Delivered; Delivered; Arrived 0; Delivered]).
Example late_reply_answers_next_call :
  (@run_ops _ (CelhyperVmHost.host (λ _, EmptyString))
    [VmOp.Create "a" Federation.Never None None None None; VmOp.Create "b" Federation.Never None None None None;
     VmOp.Stop 0; VmOp.Start 1] late_host).1 =
  [Ok (VmOpReply.Created 0); Ok (VmOpReply.Created 1);
   Err ("hyper: " +:+ debug_error (Timeout "hyper-serial: no reply in 1s")); Ok (VmOpReply.State 0 "stopped")].
Proof. by vm_compute. Qed.
