(* ===== verification/HyperKernel.v ===== *)
(** * HyperKernel: the controller's host on the kernel's bridge

    The two ends of the serial line together: celmesh::hyper_host and
    hyper_serial on one side, the bridge of celhyper on the other.  The JSON
    the controller sends is serde_json's compact form, which the kernel's
    decoder reads back to the same request; the in-process simulation accepts
    the same images as the kernel; and an image streamed to the kernel is what
    the guest of the next create boots. *)
From S2P Require Import Prelude.
From S2P Require Import Text.
From S2P Require Import Errors.
From S2P Require Import Vault.
From S2P Require Import Proto.
From S2P Require Import Host.
From S2P Require Import Crc.
From S2P Require Import Hyper.
From S2P Require Import HyperProofs.
From S2P Require Import HyperSerial.
From S2P Require Import HyperErr.
From S2P Require Import Ept.
From S2P Require Import EptProofs.
From S2P Require Import Vm.
From S2P Require Import Vmx.
From S2P Require Import Manager.
From S2P Require Import ManagerProofs.
From S2P Require Import KernelRun.
From S2P Require Import Wire.
From S2P Require Import WireProofs.
From S2P Require Import WireEncode.
From S2P Require Import WireRead.
From S2P Require Import ImageLoader.
From S2P Require Import Bridge.
From S2P Require Import BridgeProofs.
From Stdlib Require Import Strings.Byte.

(** ** Images *)
Lemma nibbles_agree c :
  match Wire.hex_nibble c with
  | Ok n => Hyper.hex_nibble c = Ok n ∧ (n < 16)%N
  | Err _ => ∃ e, Hyper.hex_nibble c = Err e
  end.
Proof. destruct c; vm_compute; by eauto. Qed.
Lemma pair_byte h l : (h < 16)%N → (l < 16)%N → u8 (N.lor (N.shiftl h 4) l) = default x00 (Byte.of_N (N.lor (N.shiftl h 4) l)).
Proof.
  intros. assert (∃ i j, i < 16 ∧ j < 16 ∧ h = N.of_nat i ∧ l = N.of_nat j) as (i&j&Hi&Hj&->&->)
    by (exists (N.to_nat h), (N.to_nat l); lia).
  do 16 (destruct i as [|i]; [do 16 (destruct j as [|j]; [done|]); lia|]). lia.
Qed.

(** The two decoders, on an even number of digits. *)
Lemma pairs_agree bs :
  Nat.even (length bs) = true →
  match hex_bytes bs with
  | (Ok _, out) => decode_pairs bs = Some (Ok out)
  | (Err _, _) => ∃ e, decode_pairs bs = Some (Err e)
  end.
Proof.
  induction bs as [bs IH] using (induction_ltof1 _ length). unfold ltof in IH.
  destruct bs as [|hi [|lo bs]]; intros He; [done|done|]. cbn [hex_bytes decode_pairs].
  specialize (IH bs ltac:(simpl; lia) He).
  pose proof (nibbles_agree hi) as Hh. pose proof (nibbles_agree lo) as Hlo.
  destruct (Wire.hex_nibble hi) as [h|e]; [|destruct Hh as [e' ->]; by eexists]. destruct Hh as [-> Hh].
  destruct (Wire.hex_nibble lo) as [l|e]; [|destruct Hlo as [e' ->]; by eexists]. destruct Hlo as [-> Hl].
  cbn. destruct (hex_bytes bs) as [[u|e] out].
  - rewrite IH. cbn. by rewrite pair_byte.
  - destruct IH as [e' ->]. by eexists.
Qed.

Lemma len_as_bytes s : len s = blen (as_bytes s).
Proof. unfold len, blen. f_equal. induction s as [|c s IH]; [done|]. rewrite as_bytes_cons. cbn. by f_equal. Qed.

(** The in-process kernel and the real one accept the same images.  For
    every announced length, checksum and hex text, from any state of the
    staging slot, [LoopbackHyperLink] acknowledges the image exactly when the
    kernel stages it. *)
Theorem staging_agrees n crc hex s :
  fits 32 n → staged_ok s →
  is_ok (Loopback.check_image n crc hex) = is_ok (stage_from_hex (as_bytes hex) n crc s).1.
Proof.
  intros Hn Hs. unfold Loopback.check_image. rewrite len_as_bytes.
  pose proof (stage_spec (as_bytes hex) n crc s Hs Hn) as Hspec.
  assert (saturating_mul 64 n 2 = (2 * n)%N) as Hsat.
  { unfold saturating_mul, umax, fits in *. change (2 ^ 64)%N with 18446744073709551616%N.
    change (2 ^ 32)%N with 4294967296%N in Hn. lia. }
  destruct (N.eqb_spec (blen (as_bytes hex)) (saturating_mul 64 n 2)) as [Hlen|Hlen]; cbn [negb].
  2: { unfold stage_from_hex, bail_if, mbind, st_bind. destruct (n =? 0)%N; [done|].
       destruct (_ <? n)%N; [done|]. by destruct (N.eqb_spec (blen (as_bytes hex)) (saturating_mul 64 n 2)). }
  destruct (N.eqb_spec n 0) as [->|H0]; [done|].
  destruct (N.ltb_spec 4096 n) as [Hbig|Hmax].
  { unfold stage_from_hex, bail_if, mbind, st_bind. destruct (n =? 0)%N; [done|].
    change MAX_IMAGE_BYTES with 4096%N. by destruct (N.ltb_spec 4096 n); [|lia]. }
  assert (Nat.even (length (as_bytes hex)) = true) as He.
  { apply Nat.even_spec. exists (N.to_nat n). unfold blen in Hlen. lia. }
  pose proof (pairs_agree _ He) as Hp. destruct (hex_bytes (as_bytes hex)) as [[[]|e] out] eqn:Eh.
  - rewrite Hp. cbn. rewrite crc32c_bytes_eq.
    destruct (N.eqb_spec (crc32c out) crc) as [Hcrc|Hcrc]; cbn [negb].
    + rewrite (stage_accepts _ out); [done|done| |lia|done|done]. change MAX_IMAGE_BYTES with 4096%N. lia.
    + destruct (stage_from_hex _ _ _ _) as [[u|e] s']; [|done].
      destruct Hspec as (_&bs&E&_&_&Hc&_). congruence.
  - destruct Hp as [e' ->]. cbn. destruct (stage_from_hex _ _ _ _) as [[u|e1] s']; [|done].
    destruct Hspec as (_&bs&E&_). congruence.
Qed.

(** ** Requests as JSON *)
Definition fld (k : string) (v : value) : field := mkField [] (b k) [] [] v [].
Definition opt_fld {A} (k : string) (f : A → value) (o : option A) : list field :=
  match o with Some a => [fld k (f a)] | None => [] end.
Definition text_value (s : string) : value := VStr (as_bytes s).
(** The fields of the compact form: the tag, then the fields of the variant in
    their order, [skip_serializing_if] applied. *)
Definition request_fields (r : HyperRequest.t) : string * list field :=
  match r with
  | HyperRequest.Create label image_path cpu_count memory_mib boot_blob_crc32c =>
      ("create", fld "label" (text_value label) :: opt_fld "image_path" text_value image_path ++
        opt_fld "cpu_count" VNum cpu_count ++ opt_fld "memory_mib" VNum memory_mib ++
        opt_fld "boot_blob_crc32c" VNum boot_blob_crc32c)
  | HyperRequest.Start id => ("start", [fld "vm_id" (VNum id)])
  | HyperRequest.Stop id => ("stop", [fld "vm_id" (VNum id)])
  | HyperRequest.Delete id => ("delete", [fld "vm_id" (VNum id)])
  | HyperRequest.List => ("list", [])
  | HyperRequest.ImageLoad n crc hex =>
      ("image_load", [fld "len" (VNum n); fld "crc32c" (VNum crc); fld "bytes_hex" (text_value hex)])
  end.
Definition request_text (r : HyperRequest.t) : bytes :=
  let '(op, fs) := request_fields r in object_text (fld "op" (VStr (b op))) fs [].

(** Strings JSON prints as they are: no quote, backslash or control byte. *)
Definition plain_text (s : string) : Prop :=
  Forall (λ c, c ≠ x22 ∧ c ≠ x5c ∧ (32 ≤ Byte.to_N c)%N) (as_bytes s).
(** A request of well-typed fields within the limits of the kernel's wire. *)
Definition carried (r : HyperRequest.t) : Prop :=
  match r with
  | HyperRequest.Create label path cpus mem crc =>
      plain_text label ∧ (len label ≤ LABEL_MAX)%N ∧
      from_option (λ p, plain_text p ∧ (len p ≤ IMAGE_PATH_MAX)%N) True path ∧
      from_option (fits 32) True cpus ∧ from_option (fits 64) True mem ∧ from_option (fits 32) True crc
  | HyperRequest.Start id | HyperRequest.Stop id | HyperRequest.Delete id => fits 32 id
  | HyperRequest.List => True
  | HyperRequest.ImageLoad n crc hex =>
      plain_text hex ∧ fits 32 crc ∧ (n ≤ MAX_IMAGE_BYTES)%N ∧ len hex = (2 * n)%N
  end.
Definition kernel_request (r : HyperRequest.t) : Request :=
  match r with
  | HyperRequest.Create label path cpus mem crc => RCreate (as_bytes label) (as_bytes <$> path) cpus mem crc
  | HyperRequest.Start id => RStart id
  | HyperRequest.Stop id => RStop id
  | HyperRequest.Delete id => RDelete id
  | HyperRequest.List => RList
  | HyperRequest.ImageLoad n crc hex => RImageLoad n crc (as_bytes hex)
  end.

Lemma plain_plain s : plain_text s → plain (as_bytes s).
Proof. intros Hs. eapply Forall_impl; [exact Hs|]. by intros c (?&?&_). Qed.
Lemma small_fits n : (n ≤ MAX_IMAGE_BYTES)%N → fits 32 n.
Proof. unfold fits. change MAX_IMAGE_BYTES with 4096%N. change (2 ^ 32)%N with 4294967296%N. lia. Qed.
Lemma fld_ok k v : plain (b k) → match v with VStr s => plain s | _ => True end → field_ok (fld k v).
Proof. intros Hk Hv. repeat (split; [by constructor|]). split; [done|]. done. Qed.
Lemma opt_fld_ok {A} k (f : A → value) o (P : A → Prop) :
  plain (b k) → from_option P True o → (∀ a, P a → match f a with VStr s => plain s | _ => True end) →
  Forall field_ok (opt_fld k f o).
Proof. intros Hk Ho Hf. destruct o as [a|]; [|constructor]. constructor; [|constructor]. by apply fld_ok; [|apply Hf]. Qed.

(** What each key does to the locals of the decoder. *)
Lemma apply_op f v : apply_field f (fld "op" v) = (λ s, set_op (Some s) f) <$> as_str_field v.
Proof. reflexivity. Qed.
Lemma apply_label f v : apply_field f (fld "label" v) = (λ s, set_label (Some s) f) <$> as_str_field v.
Proof. reflexivity. Qed.
Lemma apply_vm_id f v : apply_field f (fld "vm_id" v) = (λ n, set_vm_id (Some n) f) <$> as_num_field 32 v.
Proof. reflexivity. Qed.
Lemma apply_path f v : apply_field f (fld "image_path" v) = (λ s, set_image_path s f) <$> or_null as_str_field v.
Proof. reflexivity. Qed.
Lemma apply_cpus f v : apply_field f (fld "cpu_count" v) = (λ n, set_cpu_count n f) <$> or_null (as_num_field 32) v.
Proof. reflexivity. Qed.
Lemma apply_mem f v : apply_field f (fld "memory_mib" v) = (λ n, set_memory_mib n f) <$> or_null (as_num_field 64) v.
Proof. reflexivity. Qed.
Lemma apply_boot f v :
  apply_field f (fld "boot_blob_crc32c" v) = (λ n, set_boot_blob n f) <$> or_null (as_num_field 32) v.
Proof. reflexivity. Qed.
Lemma apply_len f v : apply_field f (fld "len" v) = (λ n, set_len (Some n) f) <$> as_num_field 32 v.
Proof. reflexivity. Qed.
Lemma apply_crc f v : apply_field f (fld "crc32c" v) = (λ n, set_crc (Some n) f) <$> as_num_field 32 v.
Proof. reflexivity. Qed.
Lemma apply_hex f v : apply_field f (fld "bytes_hex" v) = (λ s, set_bytes_hex (Some s) f) <$> as_str_field v.
Proof. reflexivity. Qed.
Lemma as_num_fits w n : fits w n → as_num_field w (VNum n) = Some n.
Proof. intros. by apply as_num_Some. Qed.
Ltac apply_keys :=
  cbn [apply_fields app opt_fld];
  repeat (rewrite ?apply_op, ?apply_label, ?apply_vm_id, ?apply_path, ?apply_cpus, ?apply_mem, ?apply_boot,
    ?apply_len, ?apply_crc, ?apply_hex;
    cbn [as_str_field text_value or_null fmap option_fmap option_map mbind option_bind];
    rewrite ?as_num_fits by done;
    cbn [as_str_field text_value or_null fmap option_fmap option_map mbind option_bind]).

Lemma request_fields_ok r :
  carried r → Forall field_ok (request_fields r).2 ∧
  ∃ f, apply_fields no_fields (fld "op" (VStr (b (request_fields r).1)) :: (request_fields r).2) = Some f ∧
    build_request f = Ok (kernel_request r).
Proof.
  assert (∀ k, bool_decide (Forall (λ c, c ≠ x22 ∧ c ≠ x5c) (b k)) = true → plain (b k)) as Hk.
  { intros k. apply bool_decide_eq_true_1. }
  destruct r as [label path cpus mem crc|id|id|id| |n crc hex]; cbn [carried request_fields fst snd].
  - intros (Hl&Hlen&Hp&Hc&Hm&Hb). split.
    + constructor; [apply fld_ok; [by apply Hk|by apply plain_plain]|].
      repeat apply Forall_app_2; eapply opt_fld_ok; eauto; try (by apply Hk); [|done..].
      intros p [? _]. by apply plain_plain.
    + assert ((LABEL_MAX <? blen (as_bytes label))%N = false) as El by (apply N.ltb_ge; by rewrite <-len_as_bytes).
      assert ((IMAGE_PATH_MAX <? from_option blen 0%N (as_bytes <$> path))%N = false) as Ep.
      { apply N.ltb_ge. destruct path as [p|]; [|done]. cbn. rewrite <-len_as_bytes. apply Hp. }
      destruct path, cpus, mem, crc; simpl in Hc, Hm, Hb; apply_keys; (eexists; split; [reflexivity|]);
        unfold build_request; cbn; rewrite El; cbn in Ep; by rewrite ?Ep.
  - intros Hid. split; [constructor; [by apply fld_ok; [apply Hk|]|constructor]|]. apply_keys. by eexists.
  - intros Hid. split; [constructor; [by apply fld_ok; [apply Hk|]|constructor]|]. apply_keys. by eexists.
  - intros Hid. split; [constructor; [by apply fld_ok; [apply Hk|]|constructor]|]. apply_keys. by eexists.
  - intros _. split; [constructor|]. apply_keys. by eexists.
  - intros (Hh&Hcrc&Hn&Hlen). pose proof (small_fits n Hn) as Hn'. split.
    + do 3 (apply Forall_cons; split; [apply fld_ok; [by apply Hk|try done; by apply plain_plain]|]). constructor.
    + apply_keys. eexists. split; [reflexivity|]. unfold build_request. cbn [f_op of_opt ok_or].
      cbn. rewrite <-len_as_bytes, Hlen.
      assert (saturating_mul 64 n 2 = (2 * n)%N) as ->; [|by rewrite N.eqb_refl].
      unfold saturating_mul, umax, MAX_IMAGE_BYTES, PAGE_SIZE in *.
      change (2 ^ 64)%N with 18446744073709551616%N. lia.
Qed.

Lemma kernel_reads r : carried r → decode_request (request_text r) = Ok (kernel_request r).
Proof.
  intros Hr. destruct (request_fields_ok r Hr) as (Hfs&f&Ha&Hb).
  unfold request_text. destruct (request_fields r) as [op fs] eqn:Ef. cbn [fst snd] in *.
  rewrite (decode_object _ _ _ f); [done| |done|constructor|done].
  apply fld_ok; [by repeat constructor|]. destruct r; injection Ef as <- _; by repeat constructor.
Qed.

(** ** Requests as frames *)
Definition printable (bs : bytes) : Prop := Forall (λ c, (32 ≤ Byte.to_N c)%N) bs.
Lemma printable_app s t : printable s → printable t → printable (s ++ t).
Proof. apply Forall_app_2. Qed.
Lemma printable_no c bs : printable bs → (Byte.to_N c < 32)%N → c ∉ bs.
Proof. intros Hb Hc Hin. unfold printable in Hb. rewrite Forall_forall in Hb. specialize (Hb c Hin). lia. Qed.
Lemma printable_dec bs : forallb (λ c, 32 <=? Byte.to_N c)%N bs = true → printable bs.
Proof.
  intros Hb. apply Forall_forall. intros c Hc. rewrite forallb_forall in Hb.
  apply N.leb_le, Hb. by apply list_elem_of_In.
Qed.
Lemma printable_num v : printable (num_text v).
Proof.
  eapply Forall_impl; [apply num_text_digits|]. intros c Hc. unfold is_digit in Hc.
  apply bool_decide_eq_true_1 in Hc. lia.
Qed.
Definition printable_value (v : value) : Prop := match v with VStr s => printable s | _ => True end.
Lemma printable_value_text v : printable_value v → printable (value_text v).
Proof.
  destruct v as [s|n|]; intros Hv; cbn [value_text].
  - repeat apply printable_app; [by repeat constructor|done|by repeat constructor].
  - apply printable_num.
  - by repeat constructor.
Qed.
Lemma printable_fld k v : printable (b k) → printable_value v → printable (field_text (fld k v)).
Proof.
  intros Hk Hv. unfold field_text. cbn [fd_ws1 fd_key fd_ws2 fd_ws3 fd_value fd_ws4 fld app].
  rewrite app_nil_r. apply Forall_cons. split; [done|]. rewrite <-app_assoc. apply printable_app; [done|].
  repeat (apply Forall_cons; split; [done|]). by apply printable_value_text.
Qed.
Lemma printable_fields x xs :
  printable (field_text x) → Forall (λ y, printable (field_text y)) xs → printable (fields_text x xs).
Proof.
  intros Hx Hxs. revert x Hx. induction Hxs as [|y ys Hy _ IH]; intros x Hx; cbn [fields_text]; apply printable_app; try done.
  - by repeat constructor.
  - apply Forall_cons. split; [done|]. by apply IH.
Qed.
Lemma printable_opt {A} k (f : A → value) (P : A → Prop) o :
  printable (b k) → (∀ a, P a → printable_value (f a)) → from_option P True o →
  Forall (λ y, printable (field_text y)) (opt_fld k f o).
Proof. intros Hk Hf Ho. destruct o as [a|]; [|constructor]. constructor; [|constructor]. by apply printable_fld; [|apply Hf]. Qed.
Lemma plain_printable s : plain_text s → printable (as_bytes s).
Proof. intros Hs. eapply Forall_impl; [exact Hs|]. by intros c (_&_&?). Qed.

Lemma request_printable r : carried r → printable (request_text r).
Proof.
  intros Hr. unfold request_text. destruct (request_fields r) as [op fs] eqn:Ef.
  unfold object_text. rewrite app_nil_r. apply Forall_cons. split; [done|]. apply printable_fields.
  { apply printable_fld; [by apply printable_dec|]. destruct r; injection Ef as <- _; by apply printable_dec. }
  destruct r as [label path cpus mem crc|id|id|id| |n crc hex]; injection Ef as _ <-.
  - destruct Hr as (Hl&_&Hp&_).
    apply Forall_cons; split; [apply printable_fld; [by apply printable_dec|by apply plain_printable]|].
    repeat apply Forall_app_2.
    1: by apply (printable_opt _ _ (λ p, plain_text p ∧ (len p ≤ IMAGE_PATH_MAX)%N));
         [by apply printable_dec|intros p [? _]; by apply plain_printable|].
    all: apply (printable_opt _ _ (λ _, True)); [by apply printable_dec|done|].
    1: by destruct cpus. 1: by destruct mem. by destruct crc.
  - apply Forall_cons; split; [by apply printable_fld; [by apply printable_dec|]|constructor].
  - apply Forall_cons; split; [by apply printable_fld; [by apply printable_dec|]|constructor].
  - apply Forall_cons; split; [by apply printable_fld; [by apply printable_dec|]|constructor].
  - constructor.
  - destruct Hr as (Hh&_). do 2 (apply Forall_cons; split; [by apply printable_fld; [by apply printable_dec|]|]).
    apply Forall_cons. split; [|constructor]. apply printable_fld; [by apply printable_dec|by apply plain_printable].
Qed.

(** Lengths. *)
Definition total (xs : list field) : N := foldr (λ x n, blen (field_text x) + 1 + n)%N 0%N xs.
Lemma fields_total x xs : blen (fields_text x xs) = total (x :: xs).
Proof.
  revert x. induction xs as [|y ys IH]; intros x; cbn [fields_text total foldr]; rewrite blen_app;
    [change (blen [x7d]) with 1%N; lia|].
  change ([x2c] ++ fields_text y ys) with (x2c :: fields_text y ys). unfold blen at 2. cbn [length].
  specialize (IH y). unfold total, blen in *. cbn [foldr] in IH. lia.
Qed.
Lemma total_app xs ys : total (xs ++ ys) = (total xs + total ys)%N.
Proof. unfold total. induction xs as [|x xs IH]; [done|]. cbn [app foldr]. rewrite IH. lia. Qed.
Lemma fld_length k v : blen (field_text (fld k v)) = (blen (b k) + 3 + blen (value_text v))%N.
Proof.
  unfold field_text. cbn [fd_ws1 fd_key fd_ws2 fd_ws3 fd_value fd_ws4 fld app]. rewrite app_nil_r.
  unfold blen. cbn [length]. rewrite !length_app. cbn [length]. lia.
Qed.
Lemma num_value_length w v : w = 32%N ∨ w = 64%N → fits w v → (blen (value_text (VNum v)) ≤ 20)%N.
Proof.
  intros [-> | ->] Hv; cbn [value_text]; [|by apply u64_length].
  pose proof (u32_length v Hv). lia.
Qed.
Lemma text_value_length s : blen (value_text (text_value s)) = (len s + 2)%N.
Proof. unfold text_value. cbn [value_text]. rewrite len_as_bytes. unfold blen. rewrite !length_app. cbn [length]. lia. Qed.
Lemma opt_total {A} k (f : A → value) (P : A → Prop) o n :
  (∀ a, P a → blen (value_text (f a)) ≤ n)%N → from_option P True o → (total (opt_fld k f o) ≤ blen (b k) + 4 + n)%N.
Proof.
  intros Hf Ho. destruct o as [a|]; cbn [opt_fld total foldr]; [|lia]. rewrite fld_length. specialize (Hf a Ho). lia.
Qed.
Lemma request_fits r : carried r → (blen (request_text r) ≤ MAX_FRAME_BYTES)%N.
Proof.
  intros Hr. unfold request_text. destruct (request_fields r) as [op fs] eqn:Ef.
  unfold object_text. rewrite app_nil_r. change ([x7b] ++ ?l) with (x7b :: l). 
  assert (∀ l, blen (x7b :: l) = 1 + blen l)%N as -> by (intros; unfold blen; cbn [length]; lia).
  rewrite fields_total. cbn [total foldr]. change (foldr _ 0%N fs) with (total fs). rewrite fld_length.
  assert (blen (b "op") = 2%N) as -> by done.
  assert (blen (value_text (VStr (b op))) ≤ 12)%N by by destruct r; injection Ef as <- _.
  change MAX_FRAME_BYTES with 12288%N.
  destruct r as [label path cpus mem crc|id|id|id| |n crc hex]; injection Ef as _ <-.
  - destruct Hr as (_&Hl&Hp&Hc&Hm&Hb). cbn [total foldr]. change (foldr _ 0%N ?l) with (total l).
    rewrite !total_app, fld_length, text_value_length.
    pose proof (opt_total "image_path" text_value (λ p, plain_text p ∧ (len p ≤ IMAGE_PATH_MAX)%N) path 130 ltac:(intros p [_ Hp']; rewrite text_value_length;
      change IMAGE_PATH_MAX with 128%N in Hp'; lia) Hp) as L1.
    pose proof (opt_total "cpu_count" VNum (fits 32) cpus 20 (λ a, num_value_length 32 a (or_introl eq_refl)) Hc) as L2.
    pose proof (opt_total "memory_mib" VNum (fits 64) mem 20 (λ a, num_value_length 64 a (or_intror eq_refl)) Hm) as L3.
    pose proof (opt_total "boot_blob_crc32c" VNum (fits 32) crc 20 (λ a, num_value_length 32 a (or_introl eq_refl)) Hb) as L4.
    change (blen (b "image_path")) with 10%N in L1. change (blen (b "cpu_count")) with 9%N in L2.
    change (blen (b "memory_mib")) with 10%N in L3. change (blen (b "boot_blob_crc32c")) with 16%N in L4.
    change (blen (b "label")) with 5%N. change LABEL_MAX with 32%N in Hl. lia.
  - cbn [total foldr]. rewrite fld_length. pose proof (num_value_length 32 id ltac:(auto) Hr).
    change (blen (b "vm_id")) with 5%N. lia.
  - cbn [total foldr]. rewrite fld_length. pose proof (num_value_length 32 id ltac:(auto) Hr).
    change (blen (b "vm_id")) with 5%N. lia.
  - cbn [total foldr]. rewrite fld_length. pose proof (num_value_length 32 id ltac:(auto) Hr).
    change (blen (b "vm_id")) with 5%N. lia.
  - cbn [total foldr]. lia.
  - destruct Hr as (_&Hc&Hn&Hlen). cbn [total foldr]. rewrite !fld_length, text_value_length.
    pose proof (num_value_length 32 crc ltac:(auto) Hc).
    pose proof (num_value_length 32 n ltac:(auto) (small_fits n Hn)).
    change (blen (b "len")) with 3%N. change (blen (b "crc32c")) with 6%N. change (blen (b "bytes_hex")) with 9%N.
    change MAX_IMAGE_BYTES with 4096%N in Hn. lia.
Qed.

(** ** The kernel at the other end of the line *)

(** What serde_json documents, for the texts the two ends exchange: the compact
    form of a derived [Serialize], the fields of a derived [Deserialize], and
    that the tag alone decides the variant. *)
Class SerdeJson `{HyperCodec} : Prop := {
  json_request r : carried r → enc_req r = Ok (str_of (request_text r));
  json_created i : fits 32 i → dec_reply (str_of (reply_text (PCreated i))) = Ok (HyperReply.Created i);
  json_loaded n crc : fits 32 n → fits 32 crc →
    dec_reply (str_of (reply_text (PImageLoaded n crc))) = Ok (HyperReply.ImageLoaded n crc);
  json_error m r : dec_reply (str_of (reply_text (PError m))) = Ok r → ∃ t, r = HyperReply.Error t
}.

Record KernelPeer (C P : Type) := mkKernelPeer { kp_bridge : Bridge C P; kp_unread : bytes }.
Arguments mkKernelPeer {C P}.
Arguments kp_bridge {C P}.
Arguments kp_unread {C P}.

Lemma read_frame cap out line rest :
  x0a ∉ line → x0d ∉ line → (blen out + blen line ≤ cap)%N →
  read_line cap out false (line ++ x0a :: rest) = Some (Ok (out ++ line), rest).
Proof.
  revert out. induction line as [|c line IH]; intros out Hn Hr Hl; cbn [app read_line]; [by rewrite app_nil_r|].
  apply not_elem_of_cons in Hn as [? Hn], Hr as [? Hr]. rewrite !decide_False by done.
  assert (blen (c :: line) = 1 + blen line)%N as E by (unfold blen; cbn [length]; lia). rewrite E in Hl.
  destruct (N.ltb_spec (blen out) cap); [|lia]. rewrite IH; [by rewrite <-app_assoc|done|done|].
  rewrite blen_app. change (blen [c]) with 1%N. lia.
Qed.
Lemma as_bytes_str_of bs : as_bytes (str_of bs) = bs.
Proof. apply String.list_byte_of_string_of_list_byte. Qed.
Lemma ascii_utf8 bs : Forall (λ c, (Byte.to_N c ≤ 127)%N) bs → utf8_ok bs = true.
Proof.
  induction 1 as [|c bs Hc _ IH]; [done|]. cbn [utf8_ok]. unfold in_range.
  destruct (N.leb_spec (Byte.to_N c) 0x7F); [|lia]. destruct (N.leb_spec 0 (Byte.to_N c)); [done|lia].
Qed.
Lemma trim_end_brace bs : trim_end (str_of (bs ++ [x7d])) = str_of (bs ++ [x7d]).
Proof.
  induction bs as [|c bs IH]; [done|]. change (str_of ((c :: bs) ++ [x7d])) with (String (ascii_of_byte c) (str_of (bs ++ [x7d]))).
  cbn [trim_end]. rewrite IH. destruct bs as [|d [|e [|f bs]]]; try done; cbn -[N.eqb N.leb].
  - by rewrite andb_false_r.
  - by rewrite !andb_false_r.
Qed.

Section wire.
Context {C P : Type} `{Cpu C P} `{FrameProvider P} `{!HyperCodec} `{!SerdeJson}.
Implicit Types (s : Bridge C P).

#[local] Instance kernel_peer : Peer (KernelPeer C P) := {|
  peer_feed bs k :=
    let input := kp_unread k ++ bs in
    let '(outs, unread, s) := run (S (length input)) input (kp_bridge k) in
    (concat outs, mkKernelPeer s unread);
  peer_closed _ := false
|}.

(** The link between two calls, on a connection that works. *)
Definition kernel_line s : SerialHyperLink.t (KernelPeer C P) := SerialHyperLink.mk (mkKernelPeer s []) [] [].
Definition answer (r : HyperResult Reply) : Reply := match r with Ok reply => reply | Err e => error_reply e end.

Lemma kernel_feed req s :
  carried req →
  let '(r, s') := dispatch (kernel_request req) s in
  peer_feed (request_text req ++ [x0a]) (mkKernelPeer s []) = (send (answer r), mkKernelPeer s' []).
Proof.
  intros Hreq. destruct (dispatch (kernel_request req) s) as [r s'] eqn:Ed.
  pose proof (request_printable req Hreq) as Hp. pose proof (request_fits req Hreq) as Hfit.
  cbn [peer_feed kernel_peer kp_unread kp_bridge app]. cbn [Bridge.run].
  rewrite (read_frame _ [] (request_text req) []);
    [|by apply printable_no|by apply printable_no|change (blen []) with 0%N; lia].
  cbn [app]. unfold serve_frame.
  assert (is_blank (request_text req) = false) as ->.
  { unfold request_text. by destruct (request_fields req) as [op fs]. }
  rewrite (kernel_reads req Hreq), Ed.
  assert (∀ n s, Bridge.run n [] s = ([], [], s)) as E by by intros [].
  rewrite E. cbn [concat]. rewrite app_nil_r. by destruct r.
Qed.

(** What the link makes of a reply line. *)
Definition client_reads (text : bytes) : CelResult HyperReply.t :=
  buf ← map_err (λ e, Io ("hyper-serial read: " +:+ e)) (line_string (text ++ [x0a]));
  if (len buf =? 0)%N then Err (Io "hyper-serial: peer closed")
  else if (SERIAL_MAX_FRAME_BYTES <? len buf)%N then Err (Io "hyper-serial: reply > 65536 bytes")
  else map_err (λ e, Io ("hyper-serial decode: " +:+ e)) (dec_reply (trim_end buf)).

Lemma kernel_call req s :
  bridge_ok s → carried req →
  let '(r, s') := dispatch (kernel_request req) s in
  SerialHyperLink.call req (kernel_line s) = (client_reads (reply_text (answer r)), kernel_line s') ∧ bridge_ok s'.
Proof.
  intros Hs Hreq. pose proof (kernel_feed req s Hreq) as Hfeed.
  pose proof (dispatch_ok (request_text req) (kernel_request req) s Hs) as Hd.
  destruct (dispatch (kernel_request req) s) as [r s'].
  specialize (Hd (decode_limits _ _ (kernel_reads req Hreq)) (printable_no x0a _ (request_printable req Hreq) ltac:(done))).
  destruct Hd as (Hs'&Hr&_). split; [|done].
  assert (reply_ok (answer r) ∧ reply_line (answer r)) as [Hok Hline].
  { destruct r as [reply|e]; [exact Hr|apply error_reply_ok]. }
  unfold SerialHyperLink.call. rewrite (json_request req Hreq).
  unfold try, mbind, st_bind, map_err, SerialHyperLink.next_delivery, modify, SerialHyperLink.write, kernel_line.
  cbn [SerialHyperLink.schedule SerialHyperLink.peer SerialHyperLink.pipe]. rewrite as_bytes_str_of, Hfeed.
  unfold SerialHyperLink.read_reply, mbind, st_bind, get_st. cbn [SerialHyperLink.pipe app].
  rewrite (send_text _ Hok), (split_line_app _ []) by by apply reply_no_newline.
  unfold modify, mret, st_ret, SerialHyperLink.consume. cbn [SerialHyperLink.pipe SerialHyperLink.peer SerialHyperLink.schedule].
  rewrite drop_all. unfold client_reads, bail_if, mbind, result_bind, map_err.
  destruct (line_string _) as [buf|e]; [|done]. destruct (len buf =? 0)%N; [done|].
  unfold mret, st_ret. by destruct (_ <? len buf)%N.
Qed.

Lemma client_reads_ok text r :
  Forall (λ c, (32 ≤ Byte.to_N c ≤ 127)%N) (text ++ [x7d]) → (blen text ≤ 1000)%N →
  dec_reply (str_of (text ++ [x7d])) = Ok r → client_reads (text ++ [x7d]) = Ok r.
Proof.
  intros Ht Hl Hd. unfold client_reads. set (s := str_of (text ++ [x7d])) in *.
  assert (frame_text s) as Hf.
  { unfold frame_text, s. rewrite as_bytes_str_of. split; [|split; [|split]].
    - intros Hin. rewrite Forall_forall in Ht. specialize (Ht _ Hin). vm_compute in Ht. destruct Ht as [Ht _]. by apply Ht.
    - apply ascii_utf8. eapply Forall_impl; [exact Ht|]. by intros c [_ ?].
    - apply trim_end_brace.
    - by destruct text. }
  destruct (frame_line s [] Hf) as (_&Hs&Htrim&Hlen). unfold s in Hs at 1. rewrite as_bytes_str_of in Hs.
  rewrite Hs. cbn. rewrite Hlen, Htrim, Hd.
  assert (len s ≤ 1001)%N as Hls.
  { unfold s. rewrite len_as_bytes, as_bytes_str_of, blen_app. change (blen [x7d]) with 1%N. lia. }
  destruct (N.eqb_spec (len s + 1) 0); [lia|]. change SERIAL_MAX_FRAME_BYTES with 65536%N.
  by destruct (N.ltb_spec 65536 (len s + 1)); [lia|].
Qed.
Lemma client_reads_error m :
  match client_reads (reply_text (PError m)) with Ok r => ∃ t, r = HyperReply.Error t | Err _ => True end.
Proof.
  unfold client_reads. set (text := reply_text (PError m)).
  assert (∃ t, text = t ++ [x7d]) as [t Et].
  { exists (q "{'reply':'error','message':'" ++ message_text (as_slice m) ++ [x22]).
    unfold text. cbn [reply_text]. by rewrite <-!app_assoc. }
  unfold line_string. destruct (utf8_ok _); [|done]. rewrite str_of_app. change (str_of [x0a]) with newline.
  unfold map_err, mbind, result_bind.
  destruct (_ =? 0)%N; [done|]. destruct (_ <? _)%N; [done|].
  rewrite trim_newline, Et, trim_end_brace, <-Et.
  destruct (dec_reply (str_of text)) as [r|e] eqn:E; [|done]. by apply json_error in E.
Qed.
End wire.

(** ** From the image to the guest *)
Definition visible (bs : bytes) : Prop := Forall (λ c, (32 ≤ Byte.to_N c ≤ 127)%N) bs.
Lemma visible_dec bs : forallb (λ c, (32 <=? Byte.to_N c) && (Byte.to_N c <=? 127))%N bs = true → visible bs.
Proof.
  intros Hb. apply Forall_forall. intros c Hc. rewrite forallb_forall in Hb.
  apply list_elem_of_In, Hb, andb_prop in Hc as [?%N.leb_le ?%N.leb_le]. done.
Qed.
Lemma visible_num v : visible (num_text v).
Proof.
  eapply Forall_impl; [apply num_text_digits|]. intros c Hc. unfold is_digit in Hc.
  apply bool_decide_eq_true_1 in Hc. lia.
Qed.
Lemma hex_plain bs : plain_text (hex_encode bs).
Proof.
  unfold plain_text. induction bs as [|c bs IH]; [constructor|]. cbn [hex_encode]. rewrite !as_bytes_cons.
  repeat (apply Forall_cons; split); [| |done]; by destruct c; vm_compute.
Qed.
Lemma hex_encode_bytes bs : hex_bytes (as_bytes (hex_encode bs)) = (Ok tt, bs).
Proof.
  assert (Nat.even (length (as_bytes (hex_encode bs))) = true) as He.
  { apply Nat.even_spec. exists (length bs). pose proof (hex_encode_len bs) as Hl. rewrite len_as_bytes in Hl.
    unfold blen in Hl. lia. }
  pose proof (pairs_agree _ He) as Hp. rewrite hex_encode_decodes in Hp.
  destruct (hex_bytes _) as [[[]|e] out]; [by injection Hp as <-|by destruct Hp].
Qed.

Section boots.
Context {C P : Type} `{Cpu C P} `{FrameProvider P} `{!HyperCodec} `{!SerdeJson}.
Context (debug_reply : HyperReply.t → string).
Implicit Types (s : Bridge C P).
#[local] Existing Instance kernel_peer.
Import CelhyperVmHost.
Abbreviation KH := (CelhyperVmHost.t (SerialHyperLink.t (KernelPeer C P))).

Lemma reads_loaded n crc : fits 32 n → fits 32 crc →
  client_reads (reply_text (PImageLoaded n crc)) = Ok (HyperReply.ImageLoaded n crc).
Proof.
  intros Hn Hc. pose proof (json_loaded n crc Hn Hc) as Hd. cbn [reply_text] in *.
  rewrite !app_assoc in Hd |- *. apply client_reads_ok; [|  |done].
  - repeat apply Forall_app_2; try apply visible_num; by apply visible_dec.
  - pose proof (u32_length n Hn). pose proof (u32_length crc Hc). rewrite !blen_app.
    assert (blen (q "{'reply':'image_loaded','len':") ≤ 50 ∧ blen (q ",'crc32c':") ≤ 50)%N by by vm_compute.
    lia.
Qed.
Lemma reads_created i : fits 32 i → client_reads (reply_text (PCreated i)) = Ok (HyperReply.Created i).
Proof.
  intros Hi. pose proof (json_created i Hi) as Hd. cbn [reply_text] in *.
  rewrite !app_assoc in Hd |- *. apply client_reads_ok; [|  |done].
  - repeat apply Forall_app_2; try apply visible_num; by apply visible_dec.
  - pose proof (u32_length i Hi). rewrite !blen_app.
    assert (blen (q "{'reply':'created','vm_id':") ≤ 50)%N by by vm_compute. lia.
Qed.

Lemma host_call req (h : KH) s :
  link h = kernel_line s → bridge_ok s → carried req →
  let '(r, s') := dispatch (kernel_request req) s in
  bridge_ok s' ∧
  call req h = match client_reads (reply_text (answer r)) with
               | Ok (HyperReply.Error m) => (Err ("hyper: kernel: " +:+ m), set_link (kernel_line s') h)
               | Ok reply => (Ok reply, set_link (kernel_line s') h)
               | Err e => (Err ("hyper: " +:+ debug_error e), set_link (kernel_line s') h)
               end.
Proof.
  intros Hl Hs Hreq. pose proof (kernel_call req s Hs Hreq) as Hk.
  destruct (dispatch (kernel_request req) s) as [r s']. destruct Hk as [Hk Hs']. split; [done|].
  unfold call, zoom, mbind, st_bind. cbn [hl_call SerialHyperLink.link]. rewrite Hl, Hk. unfold map_err.
  by destruct (client_reads _) as [[]|e].
Qed.

Lemma stage_call bs (h : KH) s :
  link h = kernel_line s → bridge_ok s → (0 < blen bs ≤ MAX_STAGED_IMAGE_BYTES)%N →
  let '(r, h') := stage_image debug_reply bs h in
  r = Ok (crc32c_bytes bs) ∧ ∃ sg, link h' = kernel_line (set_staged sg s) ∧ bridge_ok (set_staged sg s) ∧
    staged_meta sg = Some (blen bs, crc32c_bytes bs) ∧ take (length bs) (sg_bytes sg) = bs.
Proof.
  intros Hl Hs [Hpos Hmax]. change MAX_STAGED_IMAGE_BYTES with MAX_IMAGE_BYTES in Hmax.
  set (req := HyperRequest.ImageLoad (blen bs) (crc32c_bytes bs) (hex_encode bs)).
  assert (fits 32 (crc32c_bytes bs)) as Hcrc by (rewrite crc32c_bytes_eq; apply crc32c_fits).
  assert (carried req) as Hreq.
  { split; [apply hex_plain|]. split; [done|]. split; [done|]. apply hex_encode_len. }
  pose proof (host_call req h s Hl Hs Hreq) as Hc.
  destruct Hs as (?&?&?&?&?&Hsg).
  pose proof (stage_spec (as_bytes (hex_encode bs)) (blen bs) (crc32c_bytes bs) (br_staged s) Hsg (small_fits _ Hmax)) as Hspec.
  assert ((stage_from_hex (as_bytes (hex_encode bs)) (blen bs) (crc32c_bytes bs) (br_staged s)).1 = Ok tt) as Hok.
  { apply (stage_accepts _ bs); [done|done| |apply hex_encode_bytes|by rewrite crc32c_bytes_eq].
    rewrite <-len_as_bytes. apply hex_encode_len. }
  assert (dispatch (kernel_request req) s = (Ok (PImageLoaded (blen bs) (crc32c_bytes bs)),
    set_staged (stage_from_hex (as_bytes (hex_encode bs)) (blen bs) (crc32c_bytes bs) (br_staged s)).2 s)) as Ed.
  { cbn [req kernel_request dispatch]. unfold on_staged, zoom, mbind, st_bind.
    destruct (stage_from_hex _ _ _ _) as [r sg]. cbn [fst] in Hok. by subst r. }
  rewrite Ed in Hc. cbn [answer] in Hc. rewrite (reads_loaded _ _ (small_fits _ Hmax) Hcrc) in Hc.
  destruct Hc as [Hs' Hc]. unfold stage_image. unfold mbind at 1, st_bind, bail_if.
  rewrite bool_decide_eq_false_2 by (intros ->; by apply N.lt_irrefl in Hpos).
  unfold mret at 1, st_ret. unfold mbind at 1, st_bind.
  change MAX_STAGED_IMAGE_BYTES with MAX_IMAGE_BYTES. destruct (N.ltb_spec MAX_IMAGE_BYTES (blen bs)); [lia|].
  unfold mret at 1, st_ret. unfold mbind at 1, st_bind. fold req. rewrite Hc. rewrite !N.eqb_refl. cbn [negb orb].
  split; [done|].
  destruct (stage_from_hex _ _ _ _) as [r sg]. cbn [fst snd] in *. subst r. exists sg. split; [done|]. split; [done|].
  destruct Hspec as (_&bs'&Eb&_&_&_&Hm&Ht). split; [done|].
  rewrite hex_encode_bytes in Eb. injection Eb as <-. unfold blen in Ht. by rewrite Nat2N.id in Ht.
Qed.
(** The kernel's create, with the image its slot holds for the checksum. *)
Lemma create_dispatch label cpus mem want s :
  bridge_ok s → carried (HyperRequest.Create label None cpus mem (Some want)) →
  staged_meta (br_staged s) = Some (sg_len (br_staged s), want) →
  let creq := mkCreateVmRequest (take (N.to_nat (sg_len (br_staged s))) (sg_bytes (br_staged s))) GUEST_LOAD_GPA 0 in
  let '(r, k') := create_vm creq (br_kernel s) in
  let '(r', s') := dispatch (kernel_request (HyperRequest.Create label None cpus mem (Some want))) s in
  br_kernel s' = k' ∧ match r with Ok id => r' = Ok (PCreated id) ∧ fits 32 id | Err e => r' = Err e end.
Proof.
  intros Hs Hreq Hm creq. pose proof (decode_limits _ _ (kernel_reads _ Hreq)) as Hlim.
  pose proof (printable_no x0a _ (request_printable _ Hreq) ltac:(done)) as Hf.
  destruct Hlim as (Ht&Hlen&_&?&?&?). pose proof Hs as (_&_&_&_&Hk&Hsg).
  cbn [kernel_request dispatch fmap option_fmap option_map]. unfold bail_if, get_st, mbind, st_bind.
  destruct (N.ltb_spec LABEL_MAX (blen (as_bytes label))); [lia|].
  cbn [from_option]. change (IMAGE_PATH_MAX <? 0)%N with false. unfold mret, st_ret, on_kernel, zoom.
  rewrite (from_staged_spec want _ Hsg Hm). change (from_boot_image _) with creq.
  pose proof (keeps_create_vm creq (br_kernel s) Hk) as Hk'.
  destruct (create_vm creq (br_kernel s)) as [[id|e] k'] eqn:Ec; cbn [snd] in Hk'; [|done].
  pose proof (create_slot _ _ _ _ Ec) as Hid. pose proof (bridge_ok_kernel s k' Hs Hk') as Hs1.
  destruct (remember_label_ok _ id (as_bytes label) _ Hs1 Hid Ht Hf Hlen) as (s2&->&Hs2&Ek2).
  destruct (remember_extras_ok s2 id None cpus mem (Some want) _ Hs2 Hid Hf) as (s3&->&Hs3&Ek3); [done..|].
  rewrite Ek3, Ek2. split; [done|]. split; [done|].
  unfold fits, MAX_VMS in *. change (2 ^ 32)%N with 4294967296%N. lia.
Qed.

End boots.

(** C15: an image streamed by the controller is what the guest boots.  On a
    kernel in any state its calls can bring it to (too few to wrap the counter
    of its frame pool), reached over a serial line
    that works, [stage_image] of any image of 1 to 4096 bytes answers its
    checksum; and a create that names this checksum either is refused, leaving
    the table of VMs as it was (though a slot number and frames it had already
    taken may stay taken), or takes a slot that held no VM and records a
    created VM whose memory from the load address on holds exactly the bytes
    of the image. *)
Theorem staged_image_boots {C P : Type} `{CpuLaws C P} `{!HyperCodec} `{!SerdeJson} debug_reply
    k0 cs (s : Bridge C P) (h : CelhyperVmHost.t (SerialHyperLink.t (KernelPeer C P))) bs label rp cpus mem :
  boot_state k0 → fp_room (calls_room cs + 6) (k_frames k0) → br_kernel s = run_calls cs k0 → bridge_ok s →
  CelhyperVmHost.link h = kernel_line s → (0 < blen bs ≤ MAX_STAGED_IMAGE_BYTES)%N →
  carried (HyperRequest.Create label None cpus mem (Some (crc32c_bytes bs))) →
  let '(r, h1) := @CelhyperVmHost.stage_image _ (@SerialHyperLink.link _ kernel_peer _) debug_reply bs h in
  r = Ok (crc32c_bytes bs) ∧
  let '(r', h2) := @CelhyperVmHost.handle _ (@SerialHyperLink.link _ kernel_peer _) debug_reply
                     (VmOp.Create label rp None cpus mem (Some (crc32c_bytes bs))) h1 in
  let k := br_kernel s in
  let k' := br_kernel (kp_bridge (SerialHyperLink.peer (CelhyperVmHost.link h2))) in
  match r' with
  | Ok (VmOpReply.Created id) => k_registry k !! id = None ∧ ∃ vm,
      k_registry k' = <[id := vm]> (k_registry k) ∧ vm_state vm = Created ∧
      ∀ i c, bs !! i = Some c → ∃ a,
        translate (guest_ept vm) (k_frames k') (GUEST_LOAD_GPA + N.of_nat i) = Ok a ∧ Ept.peek (k_frames k') a = c
  | Ok _ => False
  | Err _ => k_registry k' = k_registry k
  end.
Proof.
  intros Hboot Hroom Ek Hs Hl Hbs Hreq.
  pose proof (stage_call debug_reply bs h s Hl Hs Hbs) as Hst.
  destruct (CelhyperVmHost.stage_image _ bs h) as [r h1]. destruct Hst as (->&sg&Hl1&Hs1&Hm&Ht).
  split; [done|]. set (req := HyperRequest.Create _ _ _ _ _) in Hreq.
  pose proof (host_call req h1 _ Hl1 Hs1 Hreq) as Hc.
  assert (sg_len sg = blen bs ∧ staged_meta sg = Some (sg_len sg, crc32c_bytes bs)) as [Elen Hm'].
  { unfold staged_meta in *. destruct (sg_present sg); [|done]. by injection Hm as -> ->. }
  pose proof (create_dispatch label cpus mem (crc32c_bytes bs) (set_staged sg s) Hs1 Hreq Hm') as Hd.
  destruct (run_calls_spec cs (λ _, 0%N) k0 6 (boot_kinv k0 _ Hboot) Hroom) as (fr&Hk&Hn&_). rewrite <-Ek in Hk, Hn.
  cbn [set_staged br_staged br_kernel] in Hd. rewrite Elen in Hd. unfold blen in Hd. rewrite Nat2N.id, Ht in Hd.
  pose proof (create_vm_loads (mkCreateVmRequest bs GUEST_LOAD_GPA 0) fr (br_kernel s) 0 Hk Hn) as Hload.
  destruct (create_vm _ (br_kernel s)) as [r1 k1]. fold req in Hd.
  destruct (dispatch (kernel_request req) _) as [r2 s2]. destruct Hd as [<- Hd], Hc as [Hs2 Hc].
  unfold CelhyperVmHost.handle, mbind, st_bind. fold req. rewrite Hc. destruct r1 as [id|e].
  - destruct Hd as [-> Hid]. cbn [answer]. rewrite (reads_created id Hid). cbn.
    destruct Hload as (Hnone&_&vm&Ereg&Hvm&_&_&Hpages). split; [done|]. exists vm. split; [done|]. split; [done|].
    intros i c Hi. pose proof (lookup_lt_Some _ _ _ Hi) as Hlt. unfold blen in Hbs.
    change MAX_STAGED_IMAGE_BYTES with 4096%N in Hbs.
    specialize (Hpages (GUEST_LOAD_GPA + N.of_nat i)%N).
    assert (page_of (GUEST_LOAD_GPA + N.of_nat i) = 1%N ∧ ((GUEST_LOAD_GPA + N.of_nat i) mod PAGE_SIZE = N.of_nat i)%N) as [Ep Em].
    { change GUEST_LOAD_GPA with (1 * 4096)%N. unfold page_of, PAGE_SIZE. split.
      - rewrite N.add_comm, N.div_add by done. by rewrite N.div_small by lia.
      - rewrite N.add_comm, N.Div0.mod_add. apply N.mod_small. lia. }
    rewrite decide_True in Hpages by done. destruct Hpages as (a&Ha&Hbytes). exists a. split; [done|].
    apply Hbytes. cbn [req_blob]. by rewrite Em, Nat2N.id.
  - subst r2. cbn [answer]. pose proof (client_reads_error (from_slice_truncating (error_message e))) as He.
    unfold error_reply. destruct (client_reads _) as [reply|e']; [destruct He as [t ->]|]; exact Hload.
Qed.

(** C38: the kernel understands the controller.  The compact JSON of every
    request of well-typed fields within the wire limits whose strings hold no
    quote, backslash or control byte (these serde_json escapes, and the decoder
    refuses escapes: [escaped_path_refused]) and whose image has at most 4096
    bytes is read by the kernel's decoder as the same request, optional fields
    included, and fits one receive frame of printable bytes. *)
Theorem kernel_reads_requests r :
  carried r →
  decode_request (request_text r) = Ok (kernel_request r) ∧
  (blen (request_text r) ≤ MAX_FRAME_BYTES)%N ∧ printable (request_text r).
Proof. intros Hr. split; [by apply kernel_reads|]. split; [by apply request_fits|by apply request_printable]. Qed.

Lemma kernel_reads_requests_witness :
  let r := HyperRequest.Create "web" (Some "/img/web.raw") None (Some 512%N) (Some 77%N) in
  decode_request (request_text r) = Ok (RCreate (b "web") (Some (b "/img/web.raw")) None (Some 512%N) (Some 77%N)).
Proof.
  refine (proj1 (kernel_reads_requests (HyperRequest.Create "web" (Some "/img/web.raw") None (Some 512%N) (Some 77%N)) _)).
  split; [apply (bool_decide_unpack _); vm_compute; exact I|]. split; [done|].
  split; [|done]. split; [apply (bool_decide_unpack _); vm_compute; exact I|done].
Defined.

Lemma staging_agrees_witness :
  is_ok (Loopback.check_image 3 (crc32c [x01; x02; xff]) "0102ff") = true ∧
  is_ok (stage_from_hex (b "0102ff") 3 (crc32c [x01; x02; xff]) staged_empty).1 = true.
Proof.
  assert (is_ok (Loopback.check_image 3 (crc32c [x01; x02; xff]) "0102ff") = true) as E by (vm_compute; reflexivity).
  split; [exact E|]. rewrite <-E. symmetry.
  apply (staging_agrees 3 (crc32c [x01; x02; xff]) "0102ff" staged_empty); [by vm_compute|].
  by destruct sim_bridge_ok as (_&_&_&_&_&?).
Defined.

(** ** A codec that prints and reads these texts *)
Module KernelWitness.
Fixpoint strip (p s : bytes) : option bytes :=
  match p, s with
  | [], _ => Some s
  | c :: p', d :: s' => if decide (c = d) then strip p' s' else None
  | _, [] => None
  end.
Definition fields_of (s : bytes) : option Fields :=
  match fields_loop (S (length s)) no_fields s with (Ok f, []) => Some f | _ => None end.
Definition read_reply (s : string) : option HyperReply.t :=
  let bs := as_bytes s in
  match strip (q "{'reply':'created',") bs, strip (q "{'reply':'image_loaded',") bs, strip (q "{'reply':'error',") bs with
  | Some rest, _, _ => f ← fields_of rest; HyperReply.Created <$> f_vm_id f
  | _, Some rest, _ => f ← fields_of rest; n ← f_len f; HyperReply.ImageLoaded n <$> f_crc32c f
  | _, _, Some rest => Some (HyperReply.Error (str_of rest))
  | _, _, _ => None
  end.
#[export] Instance codec : HyperCodec := {|
  enc_req r := Ok (str_of (request_text r));
  dec_req s := Err "unused";
  enc_reply r := Err "unused";
  dec_reply s := ok_or (read_reply s) "expected value"
|}.
Lemma strip_app p s : strip p (p ++ s) = Some s.
Proof. induction p as [|c p IH]; [done|]. cbn [strip app]. by rewrite decide_True. Qed.
Lemma fields_of_text x xs f :
  field_ok x → Forall field_ok xs → apply_fields no_fields (x :: xs) = Some f → fields_of (fields_text x xs) = Some f.
Proof.
  intros Hx Hxs Ha. unfold fields_of. rewrite <-(app_nil_r (fields_text x xs)) at 2.
  rewrite (fields_loop_app _ no_fields x xs [] f); [done| |done..].
  pose proof (fields_text_length x xs). lia.
Qed.
#[export] Instance json : SerdeJson.
Proof.
  split.
  - done.
  - intros i Hi. cbn [dec_reply codec]. unfold read_reply. rewrite as_bytes_str_of.
    assert (reply_text (PCreated i) = q "{'reply':'created'," ++ fields_text (fld "vm_id" (VNum i)) []) as ->.
    { cbn [reply_text fields_text]. unfold field_text. cbn [fd_ws1 fd_key fd_ws2 fd_ws3 fd_value fd_ws4 fld app].
      rewrite app_nil_r. done. }
    rewrite strip_app. rewrite (fields_of_text _ _ (set_vm_id (Some i) no_fields)); [done| |constructor|].
    + apply fld_ok; [|done]. apply (bool_decide_unpack (Forall (λ c, c ≠ x22 ∧ c ≠ x5c) (b "vm_id"))). by vm_compute.
    + apply_keys. done.
  - intros n crc Hn Hc. cbn [dec_reply codec]. unfold read_reply. rewrite as_bytes_str_of.
    assert (reply_text (PImageLoaded n crc) = q "{'reply':'image_loaded'," ++
      fields_text (fld "len" (VNum n)) [fld "crc32c" (VNum crc)]) as E.
    { cbn [reply_text fields_text]. unfold field_text. cbn [fd_ws1 fd_key fd_ws2 fd_ws3 fd_value fd_ws4 fld app].
      rewrite !app_nil_r. rewrite <-!app_assoc. done. }
    assert (strip (q "{'reply':'created',") (reply_text (PImageLoaded n crc)) = None) as -> by done.
    rewrite E, strip_app.
    rewrite (fields_of_text _ _ (set_crc (Some crc) (set_len (Some n) no_fields))); [done| | |].
    + apply fld_ok; [|done]. apply (bool_decide_unpack (Forall (λ c, c ≠ x22 ∧ c ≠ x5c) (b "len"))). by vm_compute.
    + apply Forall_cons. split; [|constructor]. apply fld_ok; [|done].
      apply (bool_decide_unpack (Forall (λ c, c ≠ x22 ∧ c ≠ x5c) (b "crc32c"))). by vm_compute.
    + apply_keys. done.
  - intros m r. cbn [dec_reply codec]. unfold read_reply. rewrite as_bytes_str_of.
    assert (strip (q "{'reply':'created',") (reply_text (PError m)) = None) as -> by done.
    assert (strip (q "{'reply':'image_loaded',") (reply_text (PError m)) = None) as -> by done.
    destruct (strip (q "{'reply':'error',") (reply_text (PError m))); [|done]. intros [= <-]. by eexists.
Qed.
Definition bridge_host : CelhyperVmHost.t (SerialHyperLink.t (KernelPeer Sim.t KernelFrames.t)) :=
  CelhyperVmHost.with_strict true (CelhyperVmHost.new (kernel_line sim_bridge)).
(** [mov al, 0x41; hlt] *)
Definition image : bytes := [xb0; x41; xf4].
End KernelWitness.

Lemma staged_image_boots_witness :
  let '(r, h1) := @CelhyperVmHost.stage_image _ (@SerialHyperLink.link _ kernel_peer KernelWitness.codec) (λ _, EmptyString)
                    KernelWitness.image KernelWitness.bridge_host in
  let '(r', h2) := @CelhyperVmHost.handle _ (@SerialHyperLink.link _ kernel_peer KernelWitness.codec) (λ _, EmptyString)
                     (VmOp.Create "web" Federation.Always None (Some 1%N) None (Some (crc32c_bytes KernelWitness.image))) h1 in
  r' = Ok (VmOpReply.Created 0) ∧
  let k' := br_kernel (kp_bridge (SerialHyperLink.peer (CelhyperVmHost.link h2))) in
  ∃ vm, k_registry k' !! 0%N = Some vm ∧ ∃ a, translate (guest_ept vm) (k_frames k') (GUEST_LOAD_GPA + 1) = Ok a ∧
    Ept.peek (k_frames k') a = x41.
Proof.
  assert (0 < blen KernelWitness.image ≤ MAX_STAGED_IMAGE_BYTES)%N as Hlen by (vm_compute; done).
  assert (carried (HyperRequest.Create "web" None (Some 1%N) None (Some (crc32c_bytes KernelWitness.image)))) as Hreq.
  { split; [apply (bool_decide_unpack _); vm_compute; exact I|]. split; [by vm_compute|]. split; [exact I|].
    split; [by vm_compute|]. split; [exact I|]. cbn [from_option]. rewrite crc32c_bytes_eq. apply crc32c_fits. }
  assert (fp_room (calls_room [CInit] + 6) (k_frames sim_kernel)) as Hr by (apply witness_room; simpl; lia).
  pose proof (@staged_image_boots _ _ _ _ _ _ KernelWitness.codec KernelWitness.json (λ _, EmptyString) sim_kernel [CInit]
    sim_bridge KernelWitness.bridge_host KernelWitness.image "web" Federation.Always (Some 1%N) None sim_boot
    Hr eq_refl sim_bridge_ok eq_refl Hlen Hreq) as Hw.
  assert ((let '(r, h1) := @CelhyperVmHost.stage_image _ (@SerialHyperLink.link _ kernel_peer KernelWitness.codec) (λ _, EmptyString)
                    KernelWitness.image KernelWitness.bridge_host in
    (@CelhyperVmHost.handle _ (@SerialHyperLink.link _ kernel_peer KernelWitness.codec) (λ _, EmptyString)
      (VmOp.Create "web" Federation.Always None (Some 1%N) None (Some (crc32c_bytes KernelWitness.image))) h1).1)
    = Ok (VmOpReply.Created 0)) as E by (vm_compute; reflexivity).
  destruct (CelhyperVmHost.stage_image _ _ _) as [r h1]. destruct Hw as [_ Hw].
  destruct (CelhyperVmHost.handle _ _ h1) as [r' h2]. cbn [fst] in E. subst r'. split; [reflexivity|].
  destruct Hw as (_&vm&Ereg&_&Hb). intros k'. exists vm. split; [unfold k'; rewrite Ereg; apply lookup_insert_eq|].
  exact (Hb 1%nat x41 eq_refl).
Defined.

(** After a delete the simulation hands the slot out again; the kernel never
    does. *)
Definition reuse_reqs : list HyperRequest.t :=
  [HyperRequest.Create "a" None None None None; HyperRequest.Stop 0; HyperRequest.Delete 0;
   HyperRequest.Create "b" None None None None].
Example loopback_reuses_slots :
  last (run_reqs reuse_reqs Loopback.new).1 = Some (Ok (HyperReply.Created 0)) ∧
  last (@run_reqs _ (@SerialHyperLink.link _ kernel_peer KernelWitness.codec)
    [HyperRequest.Create "a" None None None None; HyperRequest.ImageLoad 1 (crc32c [xf4]) "f4"] (kernel_line sim_bridge)).1 =
    Some (Ok (HyperReply.ImageLoaded 1 (crc32c [xf4]))) ∧
  last (Bridge.run 5 (concat ((λ r, request_text r ++ [x0a]) <$> reuse_reqs)) sim_bridge).1.1 =
    Some (q "{'reply':'created','vm_id':1}" ++ [x0a]).
Proof. by vm_compute. Qed.
