(* ===== verification/Mesh.v ===== *)
(** * Mesh: [celmesh::mesh], the node

    crates/celmesh/src/mesh.rs with the counters of metrics.rs and the
    in-process carrier of transport.rs: the state of a node (membership,
    namespace, clock, peers, host, outstanding calls), the handler of incoming
    frames, gossip, remote calls and the supervisor that restarts orphaned
    VMs.  JSON is the class [EnvelopeCodec], the network the class
    [Transport].  Every lock-protected section of the code is one of the
    sections of this file; a handler runs its sections one after the other.
    Logging and the tasks themselves (timers, [tokio::spawn]) are left out:
    [receive], [gossip_tick] and [run_supervisor_step] are one turn of each
    loop. *)
From S2P Require Import Prelude.
From S2P Require Import Text.
From S2P Require Import Errors.
From S2P Require Import Maps.
From S2P Require Import Vault.
From S2P Require Import Network.
From S2P Require Import Federation.
From S2P Require Import Membership.
From S2P Require Import Proto.
From S2P Require Import Host.
From Stdlib Require Import Strings.Byte.

(** ** Counters (metrics.rs) *)
Inductive Counter :=
| gossip_sent | gossip_recv | decode_errors | foreign_cluster_drops | suspect_promotions_total
| dead_promotions_total | rpc_in | rpc_out | rpc_timeouts | rpc_errors | join_calls | supervisor_restarts.
#[export] Instance Counter_eq_dec : EqDecision Counter.
Proof. solve_decision. Defined.
(** Atomic [u64] counters; [fetch_add] wraps. *)
Definition MeshMetrics := Counter → N.
Definition metrics_new : MeshMetrics := λ _, 0%N.
Definition inc (c : Counter) (n : N) (m : MeshMetrics) : MeshMetrics :=
  λ c', if decide (c' = c) then wrapping_add 64 (m c) n else m c'.
Definition counter_names : list (string * Counter) :=
  [("celmesh_gossip_sent_total", gossip_sent); ("celmesh_gossip_recv_total", gossip_recv);
   ("celmesh_decode_errors_total", decode_errors);
   ("celmesh_foreign_cluster_drops_total", foreign_cluster_drops);
   ("celmesh_suspect_promotions_total", suspect_promotions_total);
   ("celmesh_dead_promotions_total", dead_promotions_total); ("celmesh_rpc_in_total", rpc_in);
   ("celmesh_rpc_out_total", rpc_out); ("celmesh_rpc_timeouts_total", rpc_timeouts);
   ("celmesh_rpc_errors_total", rpc_errors); ("celmesh_join_calls_total", join_calls);
   ("celmesh_supervisor_restarts_total", supervisor_restarts)].
Definition newline_str : string := String (ascii_of_N 10) EmptyString.
Definition render_prometheus (m : MeshMetrics) : string :=
  foldr (λ e out, ("# TYPE " +:+ e.1 +:+ " counter" +:+ newline_str +:+ e.1 +:+ " " +:+ fmt_u (m e.2) +:+ newline_str) +:+ out)
    EmptyString counter_names.

(** ** The carrier *)
Class Transport (T : Type) := { tr_send : string → bytes → st T CelError unit }.
(** What the node relies on: a send to an address that can be reached queues
    the frame there; no other queue changes. *)
Class TransportLaws (T : Type) `{Transport T} := {
  tr_queue : T → string → list bytes;
  tr_reach : T → string → bool;
  tr_send_spec peer bs c :
    is_ok (tr_send peer bs c).1 = tr_reach c peer ∧
    (∀ p, tr_reach (tr_send peer bs c).2 p = tr_reach c p) ∧
    (∀ p, tr_queue (tr_send peer bs c).2 p =
       if tr_reach c peer && bool_decide (p = peer) then tr_queue c p ++ [bs] else tr_queue c p)
}.

(** [MemTransport]: the routing table every transport of a factory shares, a
    queue of frames with their source per bound address.  A send to a full
    queue (256 frames) waits for the receiver, so it is a send that comes
    later. *)
Module MemTransport.
Abbreviation Routes := (gmap string (list (bytes * string))).
Record t := mk { addr : string; routes : Routes }.
Definition bind (a : string) (r : Routes) : Routes := <[a := []]> r.
Definition drop_addr (a : string) (r : Routes) : Routes := delete a r.
Definition send (peer : string) (bs : bytes) : st t CelError unit := λ s,
  match routes s !! peer with
  | Some q => (Ok tt, mk (addr s) (<[peer := q ++ [(bs, addr s)]]> (routes s)))
  | None => (Err (Io ("mem peer " +:+ peer +:+ " unknown")), s)
  end.
Definition recv (s : t) : option ((bytes * string) * t) :=
  match routes s !! addr s with
  | Some (f :: q) => Some (f, mk (addr s) (<[addr s := q]> (routes s)))
  | _ => None
  end.
#[export] Instance transport : Transport t := {| tr_send := send |}.
#[export] Instance transport_laws : TransportLaws t.
Proof.
  refine {| tr_queue s p := fst <$> default [] (routes s !! p);
            tr_reach s p := bool_decide (is_Some (routes s !! p)) |}.
  intros peer bs s. simpl. unfold send. destruct (routes s !! peer) as [q|] eqn:Hq; cbn [fst snd is_ok routes].
  - rewrite bool_decide_eq_true_2 by eauto. split_and!; [done| |]; intros p; simpl;
      destruct (decide (p = peer)) as [->|Hne]; rewrite ?lookup_insert_eq, ?lookup_insert_ne by done.
    + rewrite Hq. by rewrite !bool_decide_eq_true_2 by eauto.
    + done.
    + rewrite Hq, bool_decide_eq_true_2 by done. simpl. by rewrite fmap_app.
    + by rewrite bool_decide_eq_false_2.
  - rewrite bool_decide_eq_false_2 by apply is_Some_None. by split_and!.
Defined.
End MemTransport.
#[export] Existing Instances MemTransport.transport MemTransport.transport_laws.

(** [Envelope::encode] and the parser under [Envelope::decode]. *)
Class EnvelopeCodec := {
  env_to_vec : Envelope → result unit bytes;
  env_from_slice : bytes → option Envelope
}.
(** The iteration order of the set of known addresses. *)
Class KnownOrder := {
  known_list : gset string → list string;
  known_perm s : known_list s ≡ₚ elements s
}.

(** ** The node *)
Record MeshConfig := mkMeshConfig {
  mc_cluster : string; mc_node_id : NodeId; mc_advertise_addr : string; mc_epoch : N;
  mc_seeds : list string; mc_gossip_interval : N; mc_timeout_suspect : N; mc_timeout_dead : N;
  mc_supervisor_interval : N
}.
Definition config_defaults (node_id : NodeId) (addr : string) : MeshConfig :=
  mkMeshConfig "celium" node_id addr 1 [] 50 500 1500 0.

(** The state behind the mutex.  [in_now] is the monotonic clock. *)
Record Inner := mkInner {
  in_config : MeshConfig; in_membership : Membership; in_federation : NamespaceFederation;
  in_hlc : N; in_known : gset string; in_now : N
}.
Definition in_self (i : Inner) : NodeId := mc_node_id (in_config i).
Definition set_membership (m : Membership) (i : Inner) : Inner :=
  mkInner (in_config i) m (in_federation i) (in_hlc i) (in_known i) (in_now i).
Definition set_federation (f : NamespaceFederation) (i : Inner) : Inner :=
  mkInner (in_config i) (in_membership i) f (in_hlc i) (in_known i) (in_now i).
Definition set_hlc (n : N) (i : Inner) : Inner :=
  mkInner (in_config i) (in_membership i) (in_federation i) n (in_known i) (in_now i).
Definition set_known (k : gset string) (i : Inner) : Inner :=
  mkInner (in_config i) (in_membership i) (in_federation i) (in_hlc i) k (in_now i).
Definition set_now (n : N) (i : Inner) : Inner :=
  mkInner (in_config i) (in_membership i) (in_federation i) (in_hlc i) (in_known i) n.

Definition config_row (c : MeshConfig) (hlc : N) : NodeInfo :=
  mkNodeInfo (mc_node_id c) (mc_advertise_addr c) (mc_epoch c) hlc Alive.
Definition inner_new (c : MeshConfig) (now : N) : Inner :=
  mkInner c (mem_new (mc_cluster c) (config_row c 0) (mc_timeout_suspect c) (mc_timeout_dead c) now)
    (fed_new (mc_node_id c)) 0 (list_to_set (mc_seeds c)) now.
Definition tick_hlc (i : Inner) : Inner := set_hlc (saturating_add 64 (in_hlc i) 1) i.
Definition self_row (i : Inner) : NodeInfo :=
  default (config_row (in_config i) (in_hlc i)) (mem_get (in_membership i) (mem_self (in_membership i))).
Definition with_hlc (n : N) (r : NodeInfo) : NodeInfo :=
  mkNodeInfo (ni_id r) (ni_addr r) (ni_epoch r) n (ni_status r).
Definition envelope (i : Inner) (p : Payload.t) : Envelope :=
  mkEnvelope MAGIC PROTO_VERSION (in_self i) (mc_cluster (in_config i)) (in_hlc i) p.

(** ** Lock-protected sections

    Each runs under one lock of the mutex, and these are all the sections the
    code has. *)
Definition is_live_peer (m : Membership) (r : NodeInfo) : bool :=
  negb (bool_decide (ni_id r = mem_self m)) && negb (bool_decide (ni_status r = Left)).

(** The envelope of a section that ticks the clock first. *)
Definition envelope_section (f : Inner → Payload.t) (i : Inner) : Envelope * Inner :=
  let i := tick_hlc i in (envelope i (f i), i).
Definition hello_payload (i : Inner) : Payload.t := Payload.Hello (with_hlc (in_hlc i) (self_row i)).
(** Overwrite the first row with the id of [r]. *)
Fixpoint replace_row (r : NodeInfo) (l : list NodeInfo) : list NodeInfo :=
  match l with
  | [] => []
  | x :: l => if bool_decide (ni_id x = ni_id r) then r :: l else x :: replace_row r l
  end.
Definition sync_payload (i : Inner) : Payload.t :=
  let nodes := replace_row (with_hlc (in_hlc i) (self_row i)) (mem_snapshot (in_membership i)) in
  Payload.Sync nodes (local_rows (in_federation i)).

Definition stamp_local (i : Inner) (r : RemoteVm) : RemoteVm :=
  mkRemoteVm (in_self i) (rv_vm_id r) (rv_label r) (rv_state r) (rv_last_exit r)
    (mc_epoch (in_config i)) (in_hlc i) true (rv_restart_policy r) (rv_volumes r) (rv_image_path r)
    (rv_cpu_count r) (rv_memory_mib r) (rv_boot_blob_crc32c r).
(** [publish_local_vms]: the peers to sync with. *)
Definition publish_section (rows : list RemoteVm) (i : Inner) : list string * Inner :=
  let i := tick_hlc i in
  let i := set_federation (set_local (stamp_local i <$> rows) (in_federation i)) i in
  let i := set_membership (bump_self (in_hlc i) (in_now i) (in_membership i)) i in
  (ni_addr <$> retain (is_live_peer (in_membership i)) (mem_snapshot (in_membership i)), i).

Definition alive_of (m : Membership) (id : NodeId) : bool :=
  match mem_rows m !! id with Some r => bool_decide (ni_status r = Alive) | None => false end.
Definition list_section (i : Inner) : list RemoteVm * Inner :=
  let f := refresh_alive (alive_of (in_membership i)) (in_federation i) in
  (fed_list f, set_federation f i).

(** [handle_envelope]: the first section, then that of the payload. *)
Definition learn (src : string) (i : Inner) : Inner := set_known (in_known i ∪ {[src]}) i.
Definition hello_section (node : NodeInfo) (i : Inner) : Inner :=
  set_membership (mem_merge node (in_now i) (in_membership i)).2 i.
Definition sync_section (nodes : list NodeInfo) (vms : list RemoteVm) (i : Inner) : Inner :=
  let i := set_membership (mem_deliver ((λ n, (n, in_now i)) <$> nodes) (in_membership i)) i in
  set_federation (fed_deliver vms (in_federation i)) i.
Definition goodbye_section (from : NodeId) (i : Inner) : Inner :=
  set_membership (mark_left from (in_membership i)) i.

(** [pick_one] and the section of the gossip loop ([usize] has 64 bits). *)
Definition pick_one (xs : list string) (seed : N) : option string :=
  match xs with [] => None | _ => xs !! N.to_nat (seed mod N.of_nat (length xs)) end.
Definition gossip_section `{KnownOrder} (i : Inner) : (TickDelta * option string) * Inner :=
  let '(d, m) := tick (in_now i) (in_membership i) in
  let i := set_membership m i in
  let candidates :=
    (ni_addr <$> retain (is_live_peer m) (mem_snapshot m)) ++ known_list (in_known i) in
  ((d, pick_one candidates (wrapping_add 64 (mc_epoch (in_config i)) (in_hlc i))), i).

(** The least of a list of ids, as [Iterator::min]. *)
Definition min_id (l : list NodeId) : option NodeId :=
  foldl (λ o id, match o with
                 | Some b => if String.leb b id then Some b else Some id
                 | None => Some id end) None l.
Definition lowest_alive (m : Membership) : option NodeId :=
  min_id (ni_id <$> retain (λ r, bool_decide (ni_status r = Alive)) (mem_snapshot m)).
Definition is_supervisor (i : Inner) : bool :=
  bool_decide (lowest_alive (in_membership i) = Some (in_self i)).

(** What any number of sections, in any order, make of the state; time passes
    in between, and a new peer may be named at any moment ([join]). *)
Inductive section_step `{KnownOrder} : Inner → Inner → Prop :=
| sec_time i n : (in_now i ≤ n)%N → section_step i (set_now n i)
| sec_tick i : section_step i (tick_hlc i)
| sec_learn i src : section_step i (learn src i)
| sec_publish i rows : section_step i (publish_section rows i).2
| sec_list i : section_step i (list_section i).2
| sec_hello i node : section_step i (hello_section node i)
| sec_sync i nodes vms : section_step i (sync_section nodes vms i)
| sec_goodbye i from : section_step i (goodbye_section from i)
| sec_gossip i : section_step i (gossip_section i).2.

(** ** Paths *)

(** [parse_cluster_path]. *)
Definition parse_cluster_path (p : string) : CelResult (NodeId * N) :=
  suffix ← ok_or (strip_prefix "/cluster/" p) (Invalid "path: missing /cluster/ prefix");
  '(node, rest) ← ok_or (split_once "/" suffix) (Invalid "path: expected /cluster/<node>/vms/<n>");
  if str_is_empty node then Err (Invalid "path: empty node id")
  else
    rest ← ok_or (strip_prefix "vms/" rest) (Invalid "path: expected /vms/<n> segment");
    if str_is_empty rest || contains_char "/" rest
    then Err (Invalid "path: expected exactly one VM segment")
    else n ← ok_or (parse_uint 32 rest) (Invalid "path: VM id is not a u32"); Ok (node, n).

(** The rewriting of the operation in [invoke_path]. *)
Definition with_vm_id (vm_id : N) (op : VmOp.t) : VmOp.t :=
  match op with
  | VmOp.Start _ => VmOp.Start vm_id
  | VmOp.Stop _ => VmOp.Stop vm_id
  | VmOp.Delete _ => VmOp.Delete vm_id
  | VmOp.AttachVolume _ v m => VmOp.AttachVolume vm_id v m
  | VmOp.DetachVolume _ v => VmOp.DetachVolume vm_id v
  | VmOp.AttachNic n _ ip => VmOp.AttachNic n vm_id ip
  | op => op
  end.

(** ** The node *)

(** A oneshot channel: a caller of [invoke] waits on it. *)
Inductive Channel := Waiting | Sent (r : VmOpResult) | Closed.
(** How an operation of the supervisor ends other than well: slicing a string
    inside a character panics. *)
Inductive StepError := Failed (e : CelError) | Panicked.

Record RestartedVm := mkRestartedVm {
  original_owner : NodeId; original_vm_id : N; new_vm_id : N; rs_label : string
}.

Record ClusterStatus := mkClusterStatus {
  cs_self_id : NodeId; cs_cluster : string; cs_members : list NodeInfo; cs_vms : list RemoteVm;
  cs_alive : nat; cs_suspect : nat; cs_dead : nat; cs_total_vms : nat; cs_orphaned : nat
}.

Module Mesh.
Section mesh.
Context {T H : Type} `{Transport T} `{VmHost H} `{EnvelopeCodec} `{KnownOrder}.

(** [pending] maps the ids of outstanding requests to channels; channels are
    numbered as they are made.  The two background tasks run until
    [shutdown]. *)
Record t := mk {
  inner : Inner; transport : T; host : option H;
  pending : gmap N N; channels : gmap N Channel; next_chan : N;
  next_req : N; metrics : MeshMetrics; running : bool
}.
Abbreviation M := (st t CelError).

Definition set_inner (i : Inner) (s : t) : t :=
  mk i (transport s) (host s) (pending s) (channels s) (next_chan s) (next_req s) (metrics s) (running s).
Definition set_transport (c : T) (s : t) : t :=
  mk (inner s) c (host s) (pending s) (channels s) (next_chan s) (next_req s) (metrics s) (running s).
Definition put_host (h : option H) (s : t) : t :=
  mk (inner s) (transport s) h (pending s) (channels s) (next_chan s) (next_req s) (metrics s) (running s).
Definition set_calls (p : gmap N N) (c : gmap N Channel) (s : t) : t :=
  mk (inner s) (transport s) (host s) p c (next_chan s) (next_req s) (metrics s) (running s).
Definition set_counters (nc nr : N) (s : t) : t :=
  mk (inner s) (transport s) (host s) (pending s) (channels s) nc nr (metrics s) (running s).
Definition set_metrics (m : MeshMetrics) (s : t) : t :=
  mk (inner s) (transport s) (host s) (pending s) (channels s) (next_chan s) (next_req s) m (running s).
Definition set_running (b : bool) (s : t) : t :=
  mk (inner s) (transport s) (host s) (pending s) (channels s) (next_chan s) (next_req s) (metrics s) b.

Definition count (c : Counter) : M unit := modify (λ s, set_metrics (inc c 1 (metrics s)) s).
(** Run a section under the lock. *)
Definition locked {A} (f : Inner → A * Inner) : M A := λ s,
  let '(a, i) := f (inner s) in (Ok a, set_inner i s).
(** [let _ = ...;]. *)
Definition discard {A} (m : M A) : M unit := λ s, (Ok tt, (m s).2).
Fixpoint for_each {A} (f : A → M unit) (l : list A) : M unit :=
  match l with [] => mret tt | x :: l => _ ← f x; for_each f l end.

(** ** Sending *)
Definition transmit (peer : string) (bs : bytes) : M unit := zoom transport set_transport (tr_send peer bs).
Definition encode (msg : string) (e : Envelope) : M bytes :=
  try (map_err (λ _, Internal msg) (env_to_vec e)).
Definition ship (msg : string) (f : Inner → Payload.t) (peer : string) : M unit :=
  e ← locked (envelope_section f);
  bs ← encode msg e;
  _ ← transmit peer bs;
  count gossip_sent.
Definition send_hello (peer : string) : M unit := ship "encode hello" hello_payload peer.
Definition send_sync (peer : string) : M unit := ship "encode sync" sync_payload peer.

(** ** The public operations *)
Definition start (c : MeshConfig) (tr : T) (now : N) : M unit :=
  _ ← put_st (mk (inner_new c now) tr None ∅ ∅ 0 1 metrics_new true);
  for_each (λ s, discard (send_hello s)) (mc_seeds c).

Definition members (s : t) : list NodeInfo := mem_snapshot (in_membership (inner s)).
Definition self_id (s : t) : NodeId := in_self (inner s).
Definition join (addr : string) : M unit :=
  _ ← locked (λ i, (tt, learn addr i));
  _ ← count join_calls;
  send_hello addr.
Definition list_vms : M (list RemoteVm) := locked list_section.
Definition publish_local_vms (rows : list RemoteVm) : M unit :=
  peers ← locked (publish_section rows);
  for_each (λ p, discard (send_sync p)) peers.

Definition shutdown : M unit :=
  e ← locked (envelope_section (λ _, Payload.Goodbye));
  s ← get_st;
  let m := in_membership (inner s) in
  let peers := ni_addr <$> retain (λ r, negb (bool_decide (ni_id r = mem_self m))) (mem_snapshot m) in
  bs ← encode "encode goodbye" e;
  _ ← for_each (λ p, discard (transmit p bs)) peers;
  modify (set_running false).

Definition host_snapshot : M (list RemoteVm) := λ s,
  match host s with
  | Some h => let '(rows, h) := vh_snapshot (self_id s) h in (Ok rows, put_host (Some h) s)
  | None => (Ok [], s)
  end.
Definition set_host (h : H) : M unit := modify (λ s, put_host (Some (vh_snapshot (self_id s) h).2) s).
Definition republish_after_op : M unit := rows ← host_snapshot; publish_local_vms rows.

(** Run a call of the host; there is one. *)
Definition on_host {A} (wrap : string → CelError) (m : st H string A) : M A := λ s,
  match host s with
  | Some h => let '(r, h) := m h in (map_err wrap r, put_host (Some h) s)
  | None => (Err (Invalid "no VmHost registered"), s)
  end.

(** [invoke] on this node. *)
Definition invoke_local (op : VmOp.t) : M VmOpReply.t :=
  r ← on_host (λ e, Io ("host: " +:+ e)) (vh_handle op);
  _ ← republish_after_op;
  mret r.

(** [invoke] on another node, up to the wait: the id of the request and the
    channel its answer will come on.  Registering a request under an id that
    is still outstanding closes the older channel. *)
Definition register : M (N * N) := λ s,
  let id := next_req s in
  let ch := next_chan s in
  let chans := match pending s !! id with Some old => <[old := Closed]> (channels s) | None => channels s end in
  (Ok (id, ch),
   set_counters (ch + 1) (wrapping_add 64 id 1) (set_calls (<[id := ch]> (pending s)) (<[ch := Waiting]> chans) s)).
Definition forget_request (id : N) : M unit := modify (λ s, set_calls (delete id (pending s)) (channels s) s).

Definition target_addr (target : NodeId) (m : Membership) : CelResult string :=
  match mem_get m target with
  | None => Err (Invalid "unknown target node")
  | Some r => if bool_decide (ni_status r = Dead ∨ ni_status r = Left)
              then Err (Invalid "target node not Alive") else Ok (ni_addr r)
  end.

Definition invoke_send (target : NodeId) (op : VmOp.t) : M (N * N) :=
  s ← get_st;
  addr ← try (target_addr target (in_membership (inner s)));
  '(id, ch) ← register;
  e ← locked (envelope_section (λ _, Payload.Request id target op));
  bs ← encode "encode request" e;
  _ ← (λ s, match transmit addr bs s with
            | (Err e, s) => (_ ← forget_request id; mthrow e) s
            | ok => ok
            end);
  _ ← count gossip_sent;
  _ ← count rpc_out;
  mret (id, ch).

(** [timeout(wait, rx)]: what the caller gets when it looks at its channel for
    the last time. *)
Definition invoke_wait (id ch : N) : M VmOpReply.t :=
  s ← get_st;
  match default Closed (channels s !! ch) with
  | Sent (Ok r) => mret r
  | Sent (Err e) => _ ← count rpc_errors; mthrow (Io ("remote host: " +:+ e))
  | Closed => _ ← count rpc_errors; mthrow (Internal "response channel dropped")
  | Waiting => _ ← forget_request id; _ ← count rpc_timeouts; mthrow (Timeout "mesh rpc")
  end.

(** [invoke], [meanwhile] being what the node does while the caller waits. *)
Definition invoke (meanwhile : t → t) (target : NodeId) (op : VmOp.t) : M VmOpReply.t :=
  s ← get_st;
  if bool_decide (self_id s = target) then invoke_local op
  else
    '(id, ch) ← invoke_send target op;
    _ ← modify meanwhile;
    invoke_wait id ch.
Definition invoke_path (meanwhile : t → t) (p : string) (op : VmOp.t) : M VmOpReply.t :=
  '(owner, vm_id) ← try (parse_cluster_path p);
  invoke meanwhile owner (with_vm_id vm_id op).

(** ** The supervisor *)
Definition orphaned (rows : list RemoteVm) : list RemoteVm :=
  retain (λ r, negb (rv_owner_alive r) && bool_decide (rv_restart_policy r = Always)) rows.
Definition orphaned_vms : M (list RemoteVm) := rows ← list_vms; mret (orphaned rows).

(** The label of a recreated VM; [None]: the slice is not on a character
    boundary. *)
Definition is_char_boundary (s : string) (n : nat) : bool :=
  match String.get n s with
  | Some c => negb ((128 <=? byte_of c) && (byte_of c <? 192))%N
  | None => bool_decide (n = String.length s)
  end.
Definition slice_to (s : string) (n : nat) : option string :=
  if is_char_boundary s n then Some (String.substring 0 n s) else None.
Definition restart_label (o : RemoteVm) : option string :=
  let new_label := rv_label o +:+ "@" +:+ rv_owner o in
  if (32 <? len new_label)%N then slice_to new_label 32 else Some new_label.

Definition recreate_op (label : string) (o : RemoteVm) : VmOp.t :=
  VmOp.Create label Never (rv_image_path o) (rv_cpu_count o) (rv_memory_mib o) (rv_boot_blob_crc32c o).
Definition lift {A} (m : M A) : st t StepError A := λ s, let '(r, s) := m s in (map_err Failed r, s).

(** The body of the loop of [run_supervisor_step], for one orphan. *)
Definition recreate (existing : list string) (o : RemoteVm) : st t StepError (option RestartedVm) :=
  new_label ← try (ok_or (restart_label o) Panicked);
  if bool_decide (new_label ∈ existing) then mret None
  else
    reply ← lift (on_host (λ e, Io ("supervisor create: " +:+ e)) (vh_handle (recreate_op new_label o)));
    match reply with
    | VmOpReply.Created vm_id =>
        _ ← (if bool_decide (rv_volumes o = []) then mret tt
             else lift (discard (on_host Io (vh_attach_preserved vm_id (rv_volumes o)))));
        mret (Some (mkRestartedVm (rv_owner o) (rv_vm_id o) vm_id new_label))
    | _ => mret None
    end.
Fixpoint recreate_all (existing : list string) (l : list RemoteVm) : st t StepError (list RestartedVm) :=
  match l with
  | [] => mret []
  | o :: l =>
      r ← recreate existing o;
      out ← recreate_all existing l;
      mret (match r with Some r => r :: out | None => out end)
  end.

Definition run_supervisor_step : st t StepError (list RestartedVm) :=
  s ← get_st;
  if negb (is_supervisor (inner s)) then mret []
  else match host s with
  | None => mthrow (Failed (Invalid "no VmHost registered"))
  | Some _ =>
      orphans ← lift orphaned_vms;
      if bool_decide (orphans = []) then mret []
      else
        rows ← lift host_snapshot;
        out ← recreate_all (rv_label <$> rows) orphans;
        if bool_decide (out = []) then mret out
        else
          _ ← modify (λ s, set_metrics (inc supervisor_restarts (N.of_nat (length out)) (metrics s)) s);
          _ ← lift republish_after_op;
          mret out
  end.

(** ** Status *)
Definition with_status_count (p : NodeInfo → bool) (s : t) : nat := length (retain p (members s)).
Definition cluster_status (s : t) : ClusterStatus :=
  let i := inner s in
  let patch v := with_alive (if bool_decide (rv_owner v = in_self i) then true
                             else alive_of (in_membership i) (rv_owner v)) v in
  let vms := patch <$> fed_list (in_federation i) in
  mkClusterStatus (in_self i) (mc_cluster (in_config i)) (members s) vms
    (with_status_count (λ r, bool_decide (ni_status r = Alive)) s)
    (with_status_count (λ r, bool_decide (ni_status r = Suspect)) s)
    (with_status_count (λ r, bool_decide (ni_status r = Dead ∨ ni_status r = Left)) s)
    (length vms) (length (retain (λ v, negb (rv_owner_alive v)) vms)).
Definition fmt_nat (n : nat) : string := fmt_u (N.of_nat n).
Definition fmt_bool (b : bool) : string := if b then "true" else "false".
Definition degraded (c : ClusterStatus) : bool := bool_decide (cs_alive c ≤ 1).
Definition summary (s : t) : string :=
  let c := cluster_status s in
  let m := metrics s in
  "node=" +:+ cs_self_id c +:+ " cluster=" +:+ cs_cluster c +:+ " alive=" +:+ fmt_nat (cs_alive c)
  +:+ "/" +:+ fmt_nat (length (cs_members c)) +:+ " suspect=" +:+ fmt_nat (cs_suspect c)
  +:+ " dead=" +:+ fmt_nat (cs_dead c) +:+ " vms=" +:+ fmt_nat (cs_total_vms c)
  +:+ " orphaned=" +:+ fmt_nat (cs_orphaned c) +:+ " degraded=" +:+ fmt_bool (degraded c)
  +:+ " gossip=" +:+ fmt_u (m gossip_recv) +:+ "/" +:+ fmt_u (m gossip_sent)
  +:+ " decode_err=" +:+ fmt_u (m decode_errors) +:+ " rpc_err=" +:+ fmt_u (m rpc_errors).

(** ** Incoming frames *)
Definition serve_request (op : VmOp.t) : M VmOpResult :=
  s ← get_st;
  match host s with
  | None => mret (Err "no VmHost registered")
  | Some h =>
      let '(r, h) := vh_handle op h in
      _ ← modify (put_host (Some h));
      match r with
      | Ok reply => _ ← discard republish_after_op; mret (Ok reply)
      | Err e => mret (Err e)
      end
  end.
Definition send_response (req_id : N) (res : VmOpResult) (from : string) : M unit :=
  s ← get_st;
  match mem_get (in_membership (inner s)) from with
  | None => mret tt
  | Some r => discard (ship "encode" (λ _, Payload.Response req_id res) (ni_addr r))
  end.
Definition dispatch_request (req_id : N) (op : VmOp.t) (from : string) : M unit :=
  _ ← count rpc_in;
  res ← serve_request op;
  send_response req_id res from.
Definition take_response (req_id : N) (res : VmOpResult) : M unit := modify (λ s,
  match pending s !! req_id with
  | Some ch => set_calls (delete req_id (pending s)) (<[ch := Sent res]> (channels s)) s
  | None => s
  end).

Definition handle_envelope (env : Envelope) (src : string) : M unit :=
  s ← get_st;
  if negb (bool_decide (env_cluster env = mc_cluster (in_config (inner s))))
  then count foreign_cluster_drops
  else
    _ ← locked (λ i, (tt, learn src i));
    match env_payload env with
    | Payload.Hello node => locked (λ i, (tt, hello_section node i))
    | Payload.Sync nodes vms => locked (λ i, (tt, sync_section nodes vms i))
    | Payload.Goodbye => locked (λ i, (tt, goodbye_section (env_from env) i))
    | Payload.Request req_id target op =>
        if negb (bool_decide (target = self_id s)) then mret tt
        else dispatch_request req_id op (env_from env)
    | Payload.Response req_id res => take_response req_id res
    end.

(** One turn of the receiver and of the gossiper. *)
Definition receive (frame : bytes) (src : string) : M unit :=
  match decode env_from_slice frame with
  | Err _ => count decode_errors
  | Ok env => _ ← count gossip_recv; handle_envelope env src
  end.
Definition gossip_tick : M unit :=
  '(d, target) ← locked gossip_section;
  let add c n := modify (λ s, set_metrics (inc c (N.of_nat n) (metrics s)) s) in
  _ ← add suspect_promotions_total (suspect_promotions d);
  _ ← add dead_promotions_total (dead_promotions d);
  match target with Some peer => discard (send_sync peer) | None => mret tt end.
End mesh.
Arguments t : clear implicits.
End Mesh.
