(* ===== verification/MeshProofs.v ===== *)
(** * MeshProofs: a node among its peers

    What the sections of a node preserve whatever its peers send and however
    its tasks interleave; that every operation is a sequence of sections; who
    the supervisor is. *)
From S2P Require Import Prelude.
From S2P Require Import Text.
From S2P Require Import Errors.
From S2P Require Import Maps.
From S2P Require Import Lww.
From S2P Require Import Vault.
From S2P Require Import Federation.
From S2P Require Import Membership.
From S2P Require Import Proto.
From S2P Require Import Host.
From S2P Require Import Mesh.
From Stdlib Require Import Strings.Byte.

(** ** What a node holds on to *)

(** The state of the node configured by [c]: both tables are its own and well
    formed, its own row is the one it was configured with, alive and no newer
    than its clock, and so are the rows of its VMs. *)
Record node_inv (c : MeshConfig) (i : Inner) : Prop := {
  node_config : in_config i = c;
  node_mem_self : mem_self (in_membership i) = mc_node_id c;
  node_fed_self : fed_self (in_federation i) = mc_node_id c;
  node_mem : mem_inv (in_membership i);
  node_fed : fed_inv (in_federation i);
  node_row : ∃ h, mem_get (in_membership i) (mc_node_id c) =
    Some (mkNodeInfo (mc_node_id c) (mc_advertise_addr c) (mc_epoch c) h Alive) ∧ (h ≤ in_hlc i)%N;
  node_clock : (in_hlc i ≤ umax 64)%N;
  node_vms : ∀ n r, fed_rows (in_federation i) !! (mc_node_id c, n) = Some r →
    rv_epoch r = mc_epoch c ∧ (rv_hlc r ≤ in_hlc i)%N ∧ rv_owner_alive r = true
}.

Lemma node_inv_new c now : node_inv c (inner_new c now).
Proof.
  split; try done.
  - apply mem_inv_new.
  - exists 0%N. unfold mem_get. simpl. by rewrite lookup_singleton_eq.
Qed.

Lemma tick_hlc_grows i : (in_hlc i ≤ umax 64)%N →
  (in_hlc i ≤ in_hlc (tick_hlc i) ≤ umax 64)%N.
Proof. unfold tick_hlc, saturating_add. simpl. lia. Qed.

Lemma node_inv_tick c i : node_inv c i → node_inv c (tick_hlc i).
Proof.
  intros [? ? ? ? ? (h&Hh&Hle) Hc Hv]. pose proof (tick_hlc_grows i Hc) as [Hlo Hhi].
  split; try done.
  - exists h. split; [done|lia].
  - intros n r Hr. destruct (Hv n r Hr) as (?&?&?). split_and!; [done|lia|done].
Qed.

(** The membership may be replaced by any table the peers and time can make
    of it. *)
Lemma node_inv_membership c i m :
  node_inv c i → rtc mem_step (in_membership i) m → node_inv c (set_membership m i).
Proof.
  intros [? Hs ? Hm ? Hr ? ?] Hrun.
  assert (mem_inv m ∧ mem_self m = mem_self (in_membership i) ∧
    mem_rows m !! mem_self (in_membership i) = mem_rows (in_membership i) !! mem_self (in_membership i))
    as (Hm'&Hs'&Hr').
  { clear Hr. revert Hs Hm. induction Hrun as [|m1 m2 m3 Hst _ IH]; intros Hs Hm; [done|].
    destruct (mem_step_self_row _ _ Hst) as [Hs' Hr'].
    destruct IH as (?&Hs3&Hr3); [congruence| |].
    - destruct Hst; [by apply mem_inv_merge|by apply mem_inv_mark_left|by apply mem_inv_tick].
    - rewrite Hs' in *. split_and!; [done|done|congruence]. }
  split; simpl; try done; [congruence|]. unfold mem_get in *. by rewrite <-Hs, Hr', Hs.
Qed.

Lemma mem_inv_bump hlc now m : mem_inv m → mem_inv (bump_self hlc now m).
Proof.
  intros [Hk Hs Hl]. unfold bump_self. split; simpl.
  - intros k x. rewrite lookup_alter. case_decide as He; [|apply Hk].
    intros (y&Hy&->)%fmap_Some_1. apply Hk in Hy. simpl. congruence.
  - by rewrite lookup_alter_eq, fmap_is_Some.
  - intros k. rewrite !lookup_alter. case_decide; rewrite ?fmap_is_Some; apply Hl.
Qed.

Lemma node_inv_bump c i now :
  node_inv c i → node_inv c (set_membership (bump_self (in_hlc i) now (in_membership i)) i).
Proof.
  intros [? Hs ? Hm ? (h&Hh&Hle) ? ?]. split; simpl; try done.
  - by apply mem_inv_bump.
  - unfold mem_get, bump_self in *. simpl. rewrite Hs, lookup_alter_eq, Hh. simpl. eexists.
    split; [done|]. lia.
Qed.

Lemma list_to_set_local (f : NamespaceFederation) l n x :
  fed_rows (set_local l f) !! (fed_self f, n) = Some x → ∃ r, r ∈ l ∧ x = as_local f r.
Proof.
  unfold set_local. simpl. set (kept := map_retain _ _).
  assert (∀ m : gmap (NodeId * N) RemoteVm,
    (∀ y, m !! (fed_self f, n) = Some y → ∃ r, r ∈ l ∧ y = as_local f r) →
    ∀ l', (∀ r, r ∈ l' → r ∈ l) →
    foldl (λ rows row, <[key (as_local f row) := as_local f row]> rows) m l' !! (fed_self f, n) = Some x →
    ∃ r, r ∈ l ∧ x = as_local f r) as Hgen.
  { intros m Hm l'. revert m Hm. induction l' as [|b l' IH]; intros m Hm Hl' Hx; simpl in *; [by apply Hm|].
    refine (IH _ _ (λ r Hr, Hl' r (list_elem_of_further _ _ _ Hr)) Hx).
    intros y [[_ <-]|[_ ?]]%lookup_insert_Some; [|by apply Hm].
    exists b. split; [apply Hl'; by left|done]. }
  apply (Hgen kept); [|done]. intros y Hy. exfalso. unfold kept in Hy.
  apply map_retain_lookup in Hy as [_ Hy]. by rewrite bool_decide_eq_true_2 in Hy.
Qed.

Lemma node_inv_set_local c i rows :
  node_inv c i →
  node_inv c (set_federation (set_local (stamp_local i <$> rows) (in_federation i)) i).
Proof.
  intros [Hc ? Hf ? Hfi ? ? ?]. split; simpl; try done.
  - by apply fed_inv_set_local.
  - intros n r Hr. rewrite <-Hf in Hr. apply list_to_set_local in Hr as (r'&Hr'&->).
    apply list_elem_of_fmap in Hr' as (r0&->&_). simpl. by rewrite Hc.
Qed.

Lemma fed_deliver_self l : ∀ f,
  fed_self (fed_deliver l f) = fed_self f ∧
  (∀ n, fed_rows (fed_deliver l f) !! (fed_self f, n) = fed_rows f !! (fed_self f, n)) ∧
  (fed_inv f → fed_inv (fed_deliver l f)).
Proof.
  induction l as [|r l IH]; intros f; [done|]. simpl.
  destruct (IH (fed_merge r f).2) as (Hs&Hr&Hi). rewrite fed_self_merge in *.
  split_and!; [done| |intros; by apply Hi, fed_inv_merge].
  intros n. rewrite Hr. unfold fed_merge. case_bool_decide as Ho; [done|].
  assert (key (with_alive true r) ≠ (fed_self f, n)) by (unfold key; simpl; congruence).
  by repeat case_match; simplify_eq/=; rewrite ?lookup_insert_ne.
Qed.

Lemma mem_deliver_steps l : ∀ m, rtc mem_step m (mem_deliver l m).
Proof. induction l as [|[r n] l IH]; intros m; [done|]. simpl. eapply rtc_l; [apply step_merge|apply IH]. Qed.

Lemma node_inv_federation c i f :
  node_inv c i → fed_self f = fed_self (in_federation i) → fed_inv f →
  (∀ n r, fed_rows f !! (mc_node_id c, n) = Some r →
     ∃ r0 b, fed_rows (in_federation i) !! (mc_node_id c, n) = Some r0 ∧
       r = with_alive b r0 ∧ (rv_owner_alive r0 = true → b = true)) →
  node_inv c (set_federation f i).
Proof.
  intros [? ? ? ? ? ? ? Hv] ? ? Hrows. split; simpl; try done; [congruence|].
  intros n r (r0&b&Hr0&->&Hb)%Hrows. destruct (Hv n r0 Hr0) as (?&?&?). simpl. auto.
Qed.

Lemma with_alive_same r : with_alive (rv_owner_alive r) r = r.
Proof. by destruct r. Qed.

Section sections.
Context `{KnownOrder}.

Lemma node_inv_step c i i' : section_step i i' → node_inv c i → node_inv c i'.
Proof.
  intros Hst Hi. destruct Hst as [i n|i|i src|i rows|i|i node|i nodes vms|i from|i].
  - by destruct Hi.
  - by apply node_inv_tick.
  - by destruct Hi.
  - apply node_inv_tick in Hi. apply (node_inv_set_local c (tick_hlc i) rows) in Hi.
    by apply (node_inv_bump c _ (in_now i)) in Hi.
  - unfold list_section. simpl. apply node_inv_federation; [done|done| |].
    + by apply fed_inv_refresh, Hi.
    + intros n r. unfold refresh_alive. simpl. rewrite lookup_fmap. intros (r0&Hr0&->)%fmap_Some_1.
      exists r0. eexists. split_and!; [done|done|]. intros _.
      apply (node_fed _ _ Hi) in Hr0. unfold key in Hr0. rewrite (node_fed_self _ _ Hi).
      rewrite bool_decide_eq_true_2; [done|congruence].
  - apply node_inv_membership; [done|]. apply rtc_once, step_merge.
  - unfold sync_section. simpl.
    pose proof (node_inv_membership c i _ Hi (mem_deliver_steps ((λ n, (n, in_now i)) <$> nodes) _)) as Hm.
    destruct (fed_deliver_self vms (in_federation i)) as (Hs&Hr&Hf).
    apply node_inv_federation; [done|done|by apply Hf; destruct Hi|].
    
    intros n r. rewrite <-(node_fed_self _ _ Hi). simpl. rewrite Hr. intros Hr0. exists r, (rv_owner_alive r).
    by rewrite with_alive_same.
  - apply node_inv_membership; [done|]. apply rtc_once, step_left.
  - unfold gossip_section. destruct (tick (in_now i) (in_membership i)) as [d m] eqn:Et. simpl.
    apply node_inv_membership; [done|]. apply rtc_once.
    replace m with (tick (in_now i) (in_membership i)).2 by (by rewrite Et). apply step_tick.
Qed.
End sections.

(** ** What never goes back *)
Record grows (i i' : Inner) : Prop := {
  grow_clock : (in_hlc i ≤ in_hlc i')%N;
  grow_known : in_known i ⊆ in_known i';
  grow_peers : dom (mem_rows (in_membership i)) ⊆ dom (mem_rows (in_membership i'));
  grow_vms : ∀ k, k.1 ≠ fed_self (in_federation i) →
    is_Some (fed_rows (in_federation i) !! k) → is_Some (fed_rows (in_federation i') !! k)
}.

Lemma inner_grows_refl i : grows i i.
Proof. by split. Qed.
Lemma inner_grows_trans i1 i2 i3 :
  fed_self (in_federation i2) = fed_self (in_federation i1) → grows i1 i2 → grows i2 i3 → grows i1 i3.
Proof.
  intros Hs [? ? ? H1] [? ? ? H2]. split; [lia|set_solver|set_solver|].
  intros k Hk Hr. apply H2; [congruence|auto].
Qed.

Lemma fed_deliver_grows l : ∀ f k, is_Some (fed_rows f !! k) → is_Some (fed_rows (fed_deliver l f) !! k).
Proof.
  induction l as [|r l IH]; intros f k Hk; [done|]. simpl. apply IH. unfold fed_merge.
  destruct (decide (key (with_alive true r) = k)) as [<-|Hne];
    repeat case_match; simpl; rewrite ?lookup_insert_eq, ?lookup_insert_ne by done; eauto.
Qed.

Lemma mem_step_grows m m' : mem_step m m' → dom (mem_rows m) ⊆ dom (mem_rows m').
Proof.
  intros Hst id. rewrite !elem_of_dom. intros Hr. destruct Hst as [r now m|x m|now m].
  - destruct (mem_merge_rows r now m) as [-> _]. case_bool_decide; [done|].
    rewrite lww_merge_lookup. by repeat case_decide; eauto; case_match.
  - unfold mark_left. case_bool_decide; [done|]. simpl. rewrite lookup_alter.
    case_decide; subst; by rewrite ?fmap_is_Some.
  - destruct (tick_spec m now) as [-> _]. by rewrite fmap_is_Some.
Qed.

Lemma mem_steps_grow m m' : rtc mem_step m m' → dom (mem_rows m) ⊆ dom (mem_rows m').
Proof. induction 1 as [|m1 m2 m3 Hst _ IH]; [done|]. apply mem_step_grows in Hst. set_solver. Qed.

Section growth.
Context `{KnownOrder}.

Lemma section_grows c i i' : node_inv c i → section_step i i' → grows i i'.
Proof.
  intros Hi Hst. pose proof (tick_hlc_grows i (node_clock _ _ Hi)) as [Hlo _].
  destruct Hst as [i n|i|i src|i rows|i|i node|i nodes vms|i from|i]; split; simpl; try done.
  - set_solver.
  - intros id. rewrite !elem_of_dom, lookup_alter. case_decide; subst; by rewrite ?fmap_is_Some.
  - intros k Hk Hr. exact (eq_ind_r (λ o, is_Some o) Hr
      (set_local_lookup_other (in_federation i) (stamp_local (tick_hlc i) <$> rows) k Hk)).
  - intros k Hk Hr. by rewrite lookup_fmap, fmap_is_Some.
  - apply mem_step_grows, step_merge.
  - apply mem_steps_grow, mem_deliver_steps.
  - intros k _. apply fed_deliver_grows.
  - apply mem_step_grows, step_left.
  - unfold gossip_section. by destruct (tick _ _).
  - unfold gossip_section. by destruct (tick _ _).
  - unfold gossip_section. destruct (tick _ _) as [d m] eqn:Et. simpl.
    replace m with (tick (in_now i) (in_membership i)).2 by (by rewrite Et).
    apply mem_step_grows, step_tick.
  - unfold gossip_section. by destruct (tick _ _).
Qed.

(** Only [publish_section] touches the rows of this node's VMs. *)
Lemma section_keeps_vms c i i' n :
  node_inv c i → section_step i i' → (∀ rows, i' ≠ (publish_section rows i).2) →
  fed_rows (in_federation i') !! (mc_node_id c, n) = fed_rows (in_federation i) !! (mc_node_id c, n).
Proof.
  intros Hi Hst Hnp. rewrite <-(node_fed_self _ _ Hi).
  destruct Hst as [i m|i|i src|i rows|i|i node|i nodes vms|i from|i]; try done; simpl.
  - by destruct (Hnp rows).
  - rewrite lookup_fmap. destruct (fed_rows (in_federation i) !! _) as [r|] eqn:Hr; [|done]. simpl.
    pose proof (node_fed _ _ Hi _ _ Hr) as Hk. rewrite bool_decide_eq_true_2 by (unfold key in Hk; congruence).
    rewrite (node_fed_self _ _ Hi) in Hr. destruct (node_vms _ _ Hi _ _ Hr) as (_&_&Ha).
    f_equal. rewrite <-Ha. apply with_alive_same.
  - by destruct (fed_deliver_self vms (in_federation i)) as (_&Hr&_).
  - unfold gossip_section. by destruct (tick _ _).
Qed.

Lemma sections_inv c i i' : rtc section_step i i' → node_inv c i → node_inv c i' ∧ grows i i'.
Proof.
  induction 1 as [|i1 i2 i3 Hst _ IH]; intros Hi; [split; [done|apply inner_grows_refl]|].
  pose proof (node_inv_step _ _ _ Hst Hi) as Hi2. destruct (IH Hi2) as [Hi3 Hg]. split; [done|].
  eapply inner_grows_trans; [|by eapply section_grows|done].
  by rewrite (node_fed_self _ _ Hi2), (node_fed_self _ _ Hi).
Qed.

(** C14: a node stays the authority on itself among arbitrary peers.  From the
    state it starts in, whatever frames arrive and however its own tasks
    interleave (any sequence of the lock-protected sections), its membership
    row stays the configured one, alive and no newer than its clock; the rows
    of its VMs carry its epoch and are changed by nothing but its own
    publishing; its clock never goes back; and no peer, address or row of
    another node's VM it ever learned is forgotten. *)
Theorem node_keeps_authority c now i :
  rtc section_step (inner_new c now) i →
  node_inv c i ∧
  (∀ i' n, section_step i i' → (∀ rows, i' ≠ (publish_section rows i).2) →
     fed_rows (in_federation i') !! (mc_node_id c, n) = fed_rows (in_federation i) !! (mc_node_id c, n)) ∧
  (∀ i', rtc section_step i i' → grows i i').
Proof.
  intros [Hi _]%(sections_inv c); [|apply node_inv_new]. split_and!; [done| |].
  - intros i' n. by apply section_keeps_vms.
  - intros i' Hrun. by apply (sections_inv c i i' Hrun Hi).
Qed.
End growth.

(** ** Operations are sequences of sections *)
Import Mesh.
#[local] Abbreviation mesh := Mesh.t.

(** The sections of [R] are all a computation runs. *)
Definition within {T H} (R : relation Inner) {E A} (m : st (mesh T H) E A) : Prop :=
  ∀ s, rtc R (inner s) (inner (m s).2).

Create HintDb sections.

Section within.
Context {T H : Type} `{Transport T} `{VmHost H} `{EnvelopeCodec} `{KnownOrder}.
Context (R : relation Inner).
Abbreviation sectioned := (within R).

Lemma within_bind {E A B} (m : st (mesh T H) E A) (k : A → st (mesh T H) E B) :
  sectioned m → (∀ a, sectioned (k a)) → sectioned (m ≫= k).
Proof.
  intros Hm Hk s. specialize (Hm s). unfold mbind, st_bind. destruct (m s) as [[a|e] s1]; [|done].
  etransitivity; [exact Hm|apply Hk].
Qed.
Lemma within_ret {E A} (a : A) : sectioned (mret a : st (mesh T H) E A).
Proof. by intros s. Qed.
Lemma within_throw {E A} (e : E) : sectioned (mthrow e : st (mesh T H) E A).
Proof. by intros s. Qed.
Lemma within_try {E A} (r : result E A) : sectioned (try r : st (mesh T H) E A).
Proof. by intros s. Qed.
Lemma within_get {E} : sectioned (get_st : st (mesh T H) E (mesh T H)).
Proof. by intros s. Qed.
Lemma within_modify {E} (f : mesh T H → mesh T H) :
  (∀ s, inner (f s) = inner s) → sectioned (modify f : st (mesh T H) E unit).
Proof. intros Hf s. simpl. by rewrite Hf. Qed.
Lemma within_count c : sectioned (count c : st (mesh T H) CelError unit).
Proof. by apply within_modify. Qed.
Lemma within_locked {A} (f : Inner → A * Inner) :
  (∀ i, R i (f i).2) → sectioned (locked f : st (mesh T H) CelError A).
Proof.
  intros Hf s. unfold locked. specialize (Hf (inner s)). destruct (f (inner s)). simpl.
  by apply rtc_once.
Qed.
Lemma within_discard {A} (m : st (mesh T H) CelError A) : sectioned m → sectioned (discard m).
Proof. intros Hm s. apply Hm. Qed.
Lemma within_for_each {A} (f : A → st (mesh T H) CelError unit) l :
  (∀ x, sectioned (f x)) → sectioned (for_each f l).
Proof.
  intros Hf. induction l as [|x l IH]; [apply within_ret|]. by apply within_bind; [|intros _].
Qed.
Context (R_tick : ∀ i, R i (tick_hlc i)) (R_publish : ∀ rows i, R i (publish_section rows i).2)
  (R_list : ∀ i, R i (list_section i).2).
Lemma within_envelope f : sectioned (locked (envelope_section f) : st (mesh T H) CelError Envelope).
Proof. apply within_locked. intros i. apply R_tick. Qed.
Lemma within_transmit peer bs : sectioned (transmit peer bs : st (mesh T H) CelError unit).
Proof. intros s. unfold transmit, zoom. by destruct (tr_send _ _ _). Qed.
Lemma within_on_host {A} w (m : st H string A) : sectioned (on_host w m : st (mesh T H) CelError A).
Proof. intros s. unfold on_host. destruct (host s); [|done]. by destruct (m _). Qed.
Lemma within_snapshot : sectioned (host_snapshot : st (mesh T H) CelError (list RemoteVm)).
Proof. intros s. unfold host_snapshot. destruct (host s); [|done]. by destruct (vh_snapshot _ _). Qed.
Lemma within_lift {A} (m : st (mesh T H) CelError A) : sectioned m → sectioned (lift m).
Proof. intros Hm s. specialize (Hm s). unfold lift. by destruct (m s). Qed.
Lemma within_register : sectioned (register : st (mesh T H) CelError (N * N)).
Proof. by intros s. Qed.

#[local] Hint Resolve within_bind within_ret within_throw within_try within_get
  within_count within_discard within_for_each within_envelope within_transmit
  within_on_host within_snapshot within_lift within_register : sections.
#[local] Hint Resolve R_tick R_publish R_list : sections.
Ltac sectioned := repeat (intros; first
  [ progress eauto with sections | apply within_bind | (apply within_modify; intros; by repeat case_match)
  | apply within_locked; intros; solve [eauto with sections] | case_match ]).

Lemma within_ship msg f peer : sectioned (ship msg f peer : st (mesh T H) CelError unit).
Proof. unfold ship, encode. sectioned. Qed.
#[local] Hint Resolve within_ship : sections.
Lemma within_publish rows : sectioned (publish_local_vms rows : st (mesh T H) CelError unit).
Proof. unfold publish_local_vms, send_sync. sectioned. Qed.
Lemma within_list : sectioned (list_vms : st (mesh T H) CelError (list RemoteVm)).
Proof. unfold list_vms. sectioned. Qed.
#[local] Hint Resolve within_publish within_list : sections.
Lemma within_republish : sectioned (republish_after_op : st (mesh T H) CelError unit).
Proof. unfold republish_after_op. sectioned. Qed.
#[local] Hint Resolve within_republish : sections.

Lemma within_invoke_send target op : sectioned (invoke_send target op : st (mesh T H) CelError (N * N)).
Proof.
  unfold invoke_send, encode. repeat (apply within_bind; intros; sectioned).
  intros s. pose proof (within_transmit a0 a3 s) as Ht.
  destruct (transmit a0 a3 s) as [[[]|e] s1]; exact Ht.
Qed.
Lemma within_invoke_wait id ch : sectioned (invoke_wait id ch : st (mesh T H) CelError VmOpReply.t).
Proof. unfold invoke_wait, forget_request. sectioned. Qed.
Lemma within_serve op : sectioned (serve_request op : st (mesh T H) CelError VmOpResult).
Proof. unfold serve_request. sectioned. Qed.
Lemma within_dispatch id op from : sectioned (dispatch_request id op from : st (mesh T H) CelError unit).
Proof. unfold dispatch_request, serve_request, send_response. sectioned. Qed.
#[local] Hint Resolve within_dispatch : sections.
Lemma within_recreate existing o :
  sectioned (recreate existing o : st (mesh T H) StepError (option RestartedVm)).
Proof. unfold recreate. sectioned. Qed.
#[local] Hint Resolve within_recreate : sections.
Lemma within_recreate_all existing l :
  sectioned (recreate_all existing l : st (mesh T H) StepError (list RestartedVm)).
Proof. induction l; simpl; sectioned. Qed.
#[local] Hint Resolve within_recreate_all : sections.
Lemma within_supervisor : sectioned (run_supervisor_step : st (mesh T H) StepError (list RestartedVm)).
Proof. unfold run_supervisor_step, orphaned_vms. sectioned. Qed.

End within.

Ltac sectioned := repeat (intros; first
  [ progress eauto with sections | apply within_bind | (apply within_modify; intros; by repeat case_match)
  | apply within_locked; intros; solve [eauto with sections] | case_match ]).
#[export] Hint Resolve within_bind within_ret within_throw within_try within_get within_modify within_count within_locked within_discard within_for_each within_envelope within_transmit within_on_host within_snapshot within_lift within_register within_ship within_publish within_list within_republish within_invoke_send within_invoke_wait within_dispatch within_recreate within_recreate_all within_supervisor : sections.
#[export] Hint Constructors section_step : sections.

(** A part of the node that sending and publishing leave alone: one that
    sections, sends and the counters do not reach. *)
Section keeps.
Context {T H X : Type} `{Transport T} `{EnvelopeCodec} (π : mesh T H → X).
Context (π_inner : ∀ i s, π (set_inner i s) = π s)
  (π_transport : ∀ peer bs s, π (set_transport (tr_send peer bs (transport s)).2 s) = π s)
  (π_metrics : ∀ m s, π (set_metrics m s) = π s).

Lemma keeps_locked {A} (f : Inner → A * Inner) s : π (locked f s).2 = π s.
Proof. unfold locked. destruct (f (inner s)). apply π_inner. Qed.
Lemma keeps_ship msg f peer s : π (ship msg f peer s).2 = π s.
Proof.
  unfold ship, encode, transmit, count. st_unfold. destruct (env_to_vec _); simpl; [|apply π_inner].
  pose proof (π_transport peer a (set_inner (tick_hlc (inner s)) s)) as Ht. rewrite π_inner in Ht.
  revert Ht. simpl. destruct (tr_send _ _ _) as [[] ?]; simpl; by rewrite ?π_metrics.
Qed.
Lemma keeps_for_each {A} (f : A → st (mesh T H) CelError unit) l :
  (∀ x s, π (f x s).2 = π s) →
  ∀ s, π (for_each (λ x, discard (f x)) l s).2 = π s ∧ (for_each (λ x, discard (f x)) l s).1 = Ok tt.
Proof.
  intros Hf. induction l as [|x l IH]; intros s; [done|].
  destruct (IH (f x s).2) as [Hp Hok]. split; [etransitivity; [exact Hp|apply Hf]|exact Hok].
Qed.
Lemma keeps_publish rows s : π (publish_local_vms rows s).2 = π s ∧ (publish_local_vms rows s).1 = Ok tt.
Proof.
  unfold publish_local_vms. unfold mbind, st_bind, locked.
  destruct (publish_section rows (inner s)) as [peers i].
  destruct (keeps_for_each send_sync peers (keeps_ship _ _) (set_inner i s)) as [Hp Hok].
  split; [etransitivity; [exact Hp|apply π_inner]|exact Hok].
Qed.
Lemma keeps_republish `{VmHost H} s h :
  (∀ h s, π (put_host h s) = π s) → host s = Some h →
  π (republish_after_op s).2 = π s ∧ (republish_after_op s).1 = Ok tt.
Proof.
  intros π_host Hh. unfold republish_after_op, mbind, st_bind, host_snapshot. rewrite Hh.
  destruct (vh_snapshot (self_id s) h) as [rows h'].
  destruct (keeps_publish rows (put_host (Some h') s)) as [Hp Hok].
  split; [etransitivity; [exact Hp|apply π_host]|exact Hok].
Qed.
End keeps.

(** [serve_request] leaves what no host reaches alone, and always answers. *)
Lemma serve_keeps {T H X} `{Transport T} `{EnvelopeCodec} `{VmHost H} (π : mesh T H → X) op s :
  (∀ i s, π (set_inner i s) = π s) →
  (∀ peer bs s, π (set_transport (tr_send peer bs (transport s)).2 s) = π s) →
  (∀ m s, π (set_metrics m s) = π s) → (∀ h s, π (put_host h s) = π s) →
  π (serve_request op s).2 = π s ∧ (serve_request op s).1 =
    Ok match host s with Some h => (vh_handle op h).1 | None => Err "no VmHost registered" end.
Proof.
  intros Hi Ht Hm Hh. unfold serve_request, modify, get_st, mbind, st_bind.
  destruct (host s) as [h|] eqn:Eh; [|done]. destruct (vh_handle op h) as [[r|e] h1]; [|by simpl; rewrite Hh].
  unfold discard. cbv beta iota.
  destruct (keeps_republish π Hi Ht Hm (put_host (Some h1) s) h1 Hh eq_refl) as [Hp _].
  split; [|done]. etransitivity; [exact Hp|apply Hh].
Qed.

Section operations.
Context {T H : Type} `{Transport T} `{VmHost H} `{EnvelopeCodec} `{KnownOrder}.
Implicit Types (s : mesh T H).

Lemma within_receive frame src : within section_step (receive frame src : st (mesh T H) CelError unit).
Proof. unfold receive, handle_envelope, take_response. sectioned. Qed.
Lemma within_gossip : within section_step (gossip_tick : st (mesh T H) CelError unit).
Proof.
  unfold gossip_tick, send_sync. sectioned.
Qed.

(** Every operation of a node is a sequence of its lock-protected
    sections, so that what sections preserve, operations preserve however they
    interleave: sending, joining, publishing, listing, local and remote calls,
    the handling of any frame, gossip and the supervisor, errors included. *)
Theorem operations_are_sections s peer rows h target op id ch frame src :
  rtc section_step (inner s) (inner (join peer s).2) ∧
  rtc section_step (inner s) (inner (list_vms s).2) ∧
  rtc section_step (inner s) (inner (publish_local_vms rows s).2) ∧
  rtc section_step (inner s) (inner (shutdown s).2) ∧
  rtc section_step (inner s) (inner (set_host h s).2) ∧
  rtc section_step (inner s) (inner (invoke_local op s).2) ∧
  rtc section_step (inner s) (inner (invoke_send target op s).2) ∧
  rtc section_step (inner s) (inner (invoke_wait id ch s).2) ∧
  rtc section_step (inner s) (inner (receive frame src s).2) ∧
  rtc section_step (inner s) (inner (gossip_tick s).2) ∧
  rtc section_step (inner s) (inner (run_supervisor_step s).2).
Proof.
  assert (∀ E A (m : st (mesh T H) E A), within section_step m →
    rtc section_step (inner s) (inner (m s).2)) as Hw by (intros E A m Hm; apply Hm).
  split_and!; apply Hw; clear Hw; unfold join, send_hello, shutdown, encode, set_host, invoke_local;
    sectioned.
  apply within_receive.
Qed.
End operations.

(** ** Paths *)

(** [parse_cluster_path] and [NamespaceFederation::resolve] read the same
    paths, but for one with an empty node, which only [resolve] takes. *)
Theorem cluster_path_agrees p f :
  match parse_cluster_path p with
  | Ok k => resolve p f = Ok (fed_rows f !! k)
  | Err e => resolve p f = Err tt ∨ (e = Invalid "path: empty node id" ∧ ∃ rest, p = "/cluster//" +:+ rest)
  end.
Proof.
  unfold parse_cluster_path, resolve, mbind, result_bind, ok_or.
  destruct (strip_prefix "/cluster/" p) as [suffix|] eqn:Hs; [|by left].
  destruct (split_once "/" suffix) as [[node rest]|] eqn:Hn; [|by left].
  destruct node as [|c node].
  - right. split; [done|]. exists rest. apply strip_prefix_Some in Hs as ->.
    destruct (split_once_Some _ _ _ _ Hn) as [-> _]. done.
  - cbn [str_is_empty]. destruct (strip_prefix "vms/" rest) as [n|]; [|by left].
    destruct (str_is_empty n || contains_char "/" n); [by left|].
    destruct (parse_uint 32 n); [done|by left].
Qed.

