(* ===== verification/Supervisor.v ===== *)
(** * Supervisor: who restarts orphaned VMs, and that a pass is idempotent

    The election and [run_supervisor_step] of celmesh::mesh (Mesh.v) over the
    in-memory host. *)
From S2P Require Import Prelude.
From S2P Require Import Text.
From S2P Require Import Errors.
From S2P Require Import Maps.
From S2P Require Import Lww.
From S2P Require Import Vault.
From S2P Require Import Network.
From S2P Require Import VaultProofs.
From S2P Require Import NetworkProofs.
From S2P Require Import Federation.
From S2P Require Import Membership.
From S2P Require Import Proto.
From S2P Require Import Capabilities.
From S2P Require Import Host.
From S2P Require Import HostProofs.
From S2P Require Import Mesh.
From S2P Require Import MeshProofs.
From Stdlib Require Import Strings.Byte.
Import Mesh.

(** ** The election *)
Lemma min_id_fold l : ∀ o,
  match foldl (λ o id, match o with Some b => if String.leb b id then Some b else Some id
                                  | None => Some id end) o l with
  | Some m => (m ∈ l ∨ o = Some m) ∧ (∀ x, x ∈ l ∨ o = Some x → String.le m x)
  | None => l = [] ∧ o = None
  end.
Proof.
  induction l as [|x l IH]; intros o; simpl.
  - destruct o as [b|]; [|done]. split; [by right|]. by intros x [?%elem_of_nil|[= ->]].
  - set (o' := match o with Some _ => _ | None => _ end). specialize (IH o').
    assert (∃ b, o' = Some b ∧ (b = x ∨ o = Some b) ∧ String.le b x ∧
      ∀ y, o = Some y → String.le b y) as (b&Hb&Hin&Hx&Ho).
    { unfold o'. destruct o as [b|].
      - destruct (String.leb b x) eqn:E.
        + exists b. split_and!; [done|by right|by unfold String.le; rewrite E|by intros y [= ->]].
        + exists x. split_and!; [done|by left|done|]. intros y [= <-].
          destruct (String.le_total b x) as [Hle|Hle]; [|done]. unfold String.le in Hle. by rewrite E in Hle.
      - exists x. split_and!; [done|by left|done|done]. }
    fold o'. rewrite Hb in IH |- *. destruct (foldl _ (Some b) l) as [m|]; [|by destruct IH].
    destruct IH as [Hm Hle]. split.
    + destruct Hm as [?|[= ->]]; [left; by right|]. destruct Hin as [->|?]; [left; by left|by right].
    + assert (String.le m b) as Hmb by (apply Hle; by right).
      intros y [[->|?]%elem_of_cons|Hy].
      * by etransitivity.
      * apply Hle. by left.
      * etransitivity; [done|by apply Ho].
Qed.

(** The lowest live node of a table. *)
Lemma lowest_alive_spec m id :
  mem_inv m →
  lowest_alive m = Some id ↔
  (∃ r, mem_rows m !! id = Some r ∧ ni_status r = Alive) ∧
  ∀ id' r', mem_rows m !! id' = Some r' → ni_status r' = Alive → String.le id id'.
Proof.
  intros Hm.
  assert (∀ x, x ∈ ni_id <$> retain (λ r, bool_decide (ni_status r = Alive)) (mem_snapshot m) ↔
    ∃ r, mem_rows m !! x = Some r ∧ ni_status r = Alive) as Hin.
  { intros x. rewrite list_elem_of_fmap. setoid_rewrite elem_of_retain.
    unfold mem_snapshot, str_btree_values. setoid_rewrite elem_of_btree_values.
    setoid_rewrite bool_decide_eq_true. split.
    - intros (r&->&(k&Hk)&Ha). exists r. by rewrite (inv_keyed _ Hm _ _ Hk).
    - intros (r&Hr&Ha). exists r. split_and!; [by rewrite (inv_keyed _ Hm _ _ Hr)|eauto|done]. }
  unfold lowest_alive, min_id.
  pose proof (min_id_fold (ni_id <$> retain (λ r, bool_decide (ni_status r = Alive)) (mem_snapshot m)) None) as Hf.
  destruct (foldl _ _ _) as [x|].
  - destruct Hf as [[Hx|?] Hle]; [|done]. split.
    + intros [= <-]. split; [by apply Hin|]. intros id' r' Hr' Ha. apply Hle. left. apply Hin. eauto.
    + intros [Hid Hmin]. f_equal. apply (anti_symm String.le).
      * apply Hle. left. by apply Hin.
      * apply Hin in Hx as (r&Hr&Ha). by eapply Hmin.
  - destruct Hf as [Hf _]. split; [done|]. intros [Hid _]. apply Hin in Hid. rewrite Hf in Hid.
    by apply elem_of_nil in Hid.
Qed.

(** C25: exactly one node of a view is its supervisor.  Every node that sees
    the membership table [rows] names the same node, a live one with the
    lowest id, and takes itself for the supervisor only if it is that node:
    two nodes that agree never both restart orphans, and the node named does. *)
Theorem one_supervisor c i0 rows :
  node_inv c i0 → mem_rows (in_membership i0) = rows →
  ∃ id r, rows !! id = Some r ∧ ni_status r = Alive ∧
    (∀ id' r', rows !! id' = Some r' → ni_status r' = Alive → String.le id id') ∧
    ∀ c' i, node_inv c' i → mem_rows (in_membership i) = rows →
      is_supervisor i = bool_decide (mc_node_id c' = id).
Proof.
  intros Hi0 <-. destruct (lowest_alive (in_membership i0)) as [id|] eqn:El.
  - destruct (proj1 (lowest_alive_spec _ id (node_mem _ _ Hi0)) El) as [(r&Hr&Ha) Hmin].
    exists id, r. split_and!; [done|done|done|]. intros c' i Hi Heq.
    unfold is_supervisor, in_self. simpl. rewrite (node_config _ _ Hi).
    assert (lowest_alive (in_membership i) = Some id) as ->.
    { apply lowest_alive_spec; [by apply (node_mem c')|]. rewrite Heq. split; [by exists r|done]. }
    apply bool_decide_ext. split; congruence.
  - exfalso. destruct (node_row _ _ Hi0) as (h&Hrow&_). unfold mem_get in Hrow.
    unfold lowest_alive, min_id in El.
    pose proof (min_id_fold (ni_id <$> retain (λ r, bool_decide (ni_status r = Alive))
      (mem_snapshot (in_membership i0))) None) as Hf. rewrite El in Hf. destruct Hf as [Hf _].
    assert (mc_node_id c ∈ ni_id <$> retain (λ r, bool_decide (ni_status r = Alive))
      (mem_snapshot (in_membership i0))) as Hin.
    { apply list_elem_of_fmap. eexists. split; [|apply elem_of_retain; split;
        [unfold mem_snapshot, str_btree_values; apply elem_of_btree_values; by exists (mc_node_id c)|done]]. done. }
    rewrite Hf in Hin. by apply elem_of_nil in Hin.
Qed.

(** ** What a pass leaves alone *)

(** The sections a supervision pass runs. *)
Inductive pass_step : Inner → Inner → Prop :=
| pass_tick i : pass_step i (tick_hlc i)
| pass_publish rows i : pass_step i (publish_section rows i).2
| pass_list i : pass_step i (list_section i).2.
#[local] Hint Constructors pass_step : sections.

(** Two states with the same peers and, but for the flag [owner_alive], the
    same VMs of other nodes. *)
Record same_view (i i' : Inner) : Prop := {
  view_config : in_config i' = in_config i;
  view_self : mem_self (in_membership i') = mem_self (in_membership i);
  view_fed_self : fed_self (in_federation i') = fed_self (in_federation i);
  view_rows : ∀ id, id ≠ mem_self (in_membership i) →
    mem_rows (in_membership i') !! id = mem_rows (in_membership i) !! id;
  view_vms : ∀ k, k.1 ≠ fed_self (in_federation i) →
    with_alive false <$> fed_rows (in_federation i') !! k =
    with_alive false <$> fed_rows (in_federation i) !! k
}.

Lemma same_view_trans i1 i2 i3 : same_view i1 i2 → same_view i2 i3 → same_view i1 i3.
Proof.
  intros [? Hs Hf ? ?] [? ? ? Hr Hv]. split; try congruence.
  - intros id Hid. rewrite Hr by congruence. auto.
  - intros k Hk. rewrite Hv by congruence. auto.
Qed.

Lemma with_alive_twice a b r : with_alive a (with_alive b r) = with_alive a r.
Proof. done. Qed.

Lemma pass_same_view `{KnownOrder} i i' : pass_step i i' → same_view i i' ∧ section_step i i'.
Proof.
  destruct 1 as [i|rows i|i]; (split; [split|constructor]); try done; simpl.
  - intros id Hid. by rewrite lookup_alter_ne.
  - intros k Hk. f_equal. exact (set_local_lookup_other (in_federation i) (stamp_local (tick_hlc i) <$> rows) k Hk).
  - intros k Hk. rewrite lookup_fmap. by destruct (fed_rows (in_federation i) !! k).
Qed.

Lemma pass_view `{KnownOrder} c i i' :
  rtc pass_step i i' → node_inv c i → same_view i i' ∧ node_inv c i'.
Proof.
  induction 1 as [|i1 i2 i3 Hst _ IH]; intros Hi; [done|].
  apply pass_same_view in Hst as [Hv Hst]. pose proof (node_inv_step _ _ _ Hst Hi) as Hi2.
  destruct (IH Hi2). split; [by eapply same_view_trans|done].
Qed.

Lemma same_view_supervisor c i i' :
  node_inv c i → node_inv c i' → same_view i i' → is_supervisor i' = is_supervisor i.
Proof.
  intros Hi Hi' [Hc Hs _ Hr _]. unfold is_supervisor, in_self. rewrite Hc.
  assert (∀ j id, node_inv c j → (lowest_alive (in_membership j) = Some id) ↔
    (id = mc_node_id c ∨ (id ≠ mc_node_id c ∧ ∃ r, mem_rows (in_membership j) !! id = Some r ∧ ni_status r = Alive)) ∧
    String.le id (mc_node_id c) ∧
    ∀ id' r', id' ≠ mc_node_id c → mem_rows (in_membership j) !! id' = Some r' → ni_status r' = Alive → String.le id id')
    as Hspec.
  { intros j id Hj. rewrite lowest_alive_spec by apply (node_mem _ _ Hj).
    destruct (node_row _ _ Hj) as (h&Hrow&_). unfold mem_get in Hrow. split.
    - intros [Hid Hmin]. split_and!; [|by apply (Hmin _ _ Hrow)|eauto].
      destruct (decide (id = mc_node_id c)); eauto.
    - intros (Hid&Hle&Hmin). split; [destruct Hid as [->|[_ ?]]; eauto|].
      intros id' r' Hr' Ha. destruct (decide (id' = mc_node_id c)) as [->|]; eauto. }
  apply bool_decide_ext. rewrite (node_config _ _ Hi), !Hspec by done.
  rewrite (node_mem_self _ _ Hi) in Hr.
  split; intros (_&?&Hmin); (split_and!; [by left|done|]); intros id' r' Hne Hr' Ha;
    apply (Hmin id' r' Hne); [by rewrite Hr|done|by rewrite <-Hr|done].
Qed.

(** The orphans of a state: the rows of other nodes' VMs that ask for a
    restart and whose owner is not alive. *)
Lemma orphaned_spec c i o :
  node_inv c i →
  o ∈ orphaned (list_section i).1 ↔
  ∃ k r, k.1 ≠ mc_node_id c ∧ with_alive false <$> fed_rows (in_federation i) !! k = Some o ∧
    fed_rows (in_federation i) !! k = Some r ∧
    alive_of (in_membership i) k.1 = false ∧ rv_restart_policy o = Always.
Proof.
  intros Hi. unfold orphaned, list_section. simpl. rewrite elem_of_retain, andb_true_iff, negb_true_iff, bool_decide_eq_true.
  unfold fed_list, pair_btree_values. rewrite elem_of_btree_values. unfold refresh_alive. simpl.
  rewrite (node_fed_self _ _ Hi). split.
  - intros [(k&Hk) [Ha Hp]]. rewrite lookup_fmap in Hk. apply fmap_Some_1 in Hk as (r&Hr&->).
    pose proof (node_fed _ _ Hi _ _ Hr) as Hkey. simpl in Ha.
    assert (rv_owner r = k.1) as Ho by (by rewrite <-Hkey). rewrite Ho in *.
    case_bool_decide as Hne; [done|]. exists k, r. rewrite Hr, Ha. done.
  - intros (k&r&Hne&Ho&Hr&Ha&Hp). rewrite Hr in Ho. injection Ho as <-.
    pose proof (node_fed _ _ Hi _ _ Hr) as Hkey. assert (rv_owner r = k.1) as Ho by (by rewrite <-Hkey).
    split; [|done]. exists k. rewrite lookup_fmap, Hr. simpl. rewrite Ho, bool_decide_eq_false_2, Ha by done. done.
Qed.

Lemma same_view_orphans c i i' o :
  node_inv c i → node_inv c i' → same_view i i' →
  o ∈ orphaned (list_section i').1 → o ∈ orphaned (list_section i).1.
Proof.
  intros Hi Hi' [_ _ _ Hr Hv]. rewrite !(orphaned_spec c) by done.
  rewrite (node_mem_self _ _ Hi) in Hr. rewrite (node_fed_self _ _ Hi) in Hv.
  intros (k&r&Hne&Ho&Hk&Ha&Hp). rewrite Hv in Ho by done.
  destruct (fed_rows (in_federation i) !! k) as [r0|] eqn:Hr0; [|done].
  exists k, r0. rewrite Hr0. split_and!; [done|done|done| |done].
  unfold alive_of in *. by rewrite Hr in Ha by done.
Qed.

(** ** One restart on the in-memory host *)
Import MemVmHost.
Import Mesh.
Section pass.
Context {V W T : Type} `{VolumeStore V} `{NetworkStore W} `{Transport T} `{EnvelopeCodec} `{KnownOrder}.
#[local] Abbreviation hst := (MemVmHost.t V W).
#[local] Abbreviation node := (Mesh.t T hst).
Implicit Types (s : node) (h : hst) (o : RemoteVm).

Definition has_label h (l : string) : Prop := ∃ j sl, slots h !! j = Some (Some sl) ∧ sl_label sl = l.

(** More slots are taken; those that were taken are as they were. *)
Record fills h h' : Prop := {
  fills_length : length (slots h') = length (slots h);
  fills_kept : ∀ j sl, slots h !! j = Some (Some sl) → slots h' !! j = Some (Some sl)
}.
Lemma fills_refl h : fills h h.
Proof. done. Qed.
Lemma fills_trans h1 h2 h3 : fills h1 h2 → fills h2 h3 → fills h1 h3.
Proof. intros [H1l ?] [H2l ?]. split; [by rewrite H2l|auto]. Qed.

(** The slot a restarted orphan lives in. *)
Definition restarted_slot o (label : string) : Slot :=
  mkSlot label "created" None Never (rv_volumes o) (rv_image_path o) (rv_cpu_count o)
    (rv_memory_mib o) (rv_boot_blob_crc32c o).
Definition restarted_as h o (r : RestartedVm) : Prop :=
  restart_label o = Some (rs_label r) ∧ original_owner r = rv_owner o ∧ original_vm_id r = rv_vm_id o ∧
  slots h !! N.to_nat (new_vm_id r) = Some (Some (restarted_slot o (rs_label r))).

Lemma snapshot_labels owner h l : l ∈ (rv_label <$> (current_rows owner h).1) ↔ has_label h l.
Proof.
  unfold current_rows. simpl.
  assert (slots (remember_owner owner h) = slots h) as -> by (unfold remember_owner; by case_match).
  rewrite list_elem_of_fmap. setoid_rewrite list_elem_of_omap. split.
  - intros (r&->&[j [sl|]]&He&Hr); simplify_eq/=.
    apply elem_of_lookup_imap in He as (j'&y&[= -> <-]&Hj). by exists j', sl.
  - intros (j&sl&Hj&<-). exists (row_of owner j sl). split; [done|]. exists (j, Some sl).
    split; [|done]. apply elem_of_lookup_imap. by exists j, (Some sl).
Qed.

Lemma host_create_spec l rp img cpu mem crc h r h' :
  apply (VmOp.Create l rp img cpu mem crc) h = (Ok r, h') → length (slots h) = N.to_nat MAX_SLOTS →
  ∃ j, slots h !! j = Some None ∧ r = VmOpReply.Created (N.of_nat j) ∧ j < N.to_nat MAX_SLOTS ∧
    h' = set_slots (<[j := Some (mkSlot l "created" None rp [] img cpu mem crc)]> (slots h)) h.
Proof.
  unfold apply, apply_create. st_unfold. intros Ha Hlen.
  destruct (negb _); [done|]. simpl in Ha. destruct (32 <? len l)%N; [done|]. simpl in Ha.
  destruct (first_free (slots h) 0) as [i|] eqn:Ef; [|done]. simpl in Ha. injection Ha as <- <-.
  apply first_free_Some in Ef as (j&->&Hj&_). simpl. exists j. split_and!; [done|done| |done].
  apply lookup_lt_Some in Hj. lia.
Qed.

Lemma preserved_spec j sl atts h :
  slots h !! j = Some (Some sl) → j < N.to_nat MAX_SLOTS →
  attach_preserved (N.of_nat j) atts h = (Ok tt, set_slots (<[j := Some (slot_set_volumes atts sl)]> (slots h)) h).
Proof.
  intros Hj Hlt. unfold attach_preserved, slot_mut, put_slot. st_unfold.
  destruct (N.leb_spec MAX_SLOTS (N.of_nat j)); [lia|]. by rewrite Nat2N.id, Hj.
Qed.

Lemma recreate_spec existing o s h r s' :
  recreate existing o s = (Ok r, s') → host s = Some h → length (slots h) = N.to_nat MAX_SLOTS →
  ∃ h' l, host s' = Some h' ∧ inner s' = inner s ∧ fills h h' ∧ restart_label o = Some l ∧
    match r with
    | None => l ∈ existing ∧ h' = h
    | Some r => l ∉ existing ∧ restarted_as h' o r ∧ has_label h' l
    end.
Proof.
  intros Hr Hh Hlen. unfold recreate in Hr. apply st_bind_Ok in Hr as (l&s0&Hl&Hr).
  unfold try in Hl. injection Hl as Hl <-. apply ok_or_Ok in Hl.
  case_bool_decide as Hex; [injection Hr as <- <-; exists h, l; done|].
  apply st_bind_Ok in Hr as (reply&s1&Hc&Hr). unfold lift, on_host in Hc. rewrite Hh in Hc. simpl in Hc.
  destruct (apply (recreate_op l o) h) as [rr h1] eqn:Ha. destruct rr as [rep|e]; [|done].
  simpl in Hc. injection Hc as -> <-. apply host_create_spec in Ha as (j&Hj&->&Hlt&->); [|done].
  set (sl := mkSlot l "created" None Never [] _ _ _ _) in *.
  set (h1 := set_slots _ h) in *.
  assert (slots h1 !! j = Some (Some sl)) as Hj1 by (apply list_lookup_insert_eq; by apply lookup_lt_Some in Hj).
  assert (∀ x, fills h (set_slots (<[j := Some x]> (slots h)) h)) as Hfill.
  { intros x. split; simpl; [by rewrite length_insert|]. intros j' sl' Hj'.
    rewrite list_lookup_insert_ne; [done|]. intros ->. congruence. }
  apply st_bind_Ok in Hr as (u&s2&Hp&Hr). injection Hr as <- <-.
  case_bool_decide as Hv.
  - injection Hp as _ <-. exists h1, l. split_and!; [done|done|apply Hfill|done|done| |by exists j, sl].
    split_and!; [done|done|done|]. cbn [new_vm_id]. rewrite Nat2N.id. etransitivity; [exact Hj1|].
    unfold sl, restarted_slot. by rewrite Hv.
  - unfold lift, discard, on_host in Hp. simpl in Hp. rewrite (preserved_spec j sl) in Hp by done.
    simpl in Hp. injection Hp as _ <-. eexists _, l. split; [done|]. unfold h1. simpl.
    rewrite list_insert_insert_eq. split; [done|].
    change (set_slots ?x (set_slots ?y h)) with (set_slots x h).
    assert (j < length (slots h)) as Hjl by (by apply lookup_lt_Some in Hj).
    split_and!; [apply Hfill|done|done| |].
    + unfold restarted_as. simpl. by rewrite Nat2N.id, list_lookup_insert_eq by done.
    + exists j. eexists. simpl. by rewrite list_lookup_insert_eq by done.
Qed.

Definition fresh_label (existing : list string) o : bool :=
  match restart_label o with Some l => negb (bool_decide (l ∈ existing)) | None => false end.

Lemma recreate_all_spec existing l : ∀ s h out s',
  recreate_all existing l s = (Ok out, s') → host s = Some h → length (slots h) = N.to_nat MAX_SLOTS →
  ∃ h', host s' = Some h' ∧ inner s' = inner s ∧ fills h h' ∧
    Forall2 (restarted_as h') (retain (fresh_label existing) l) out ∧
    ∀ o, o ∈ l → ∃ lab, restart_label o = Some lab ∧ (lab ∈ existing ∨ has_label h' lab).
Proof.
  induction l as [|o l IH]; intros s h out s' Hr Hh Hlen; simpl in Hr.
  - injection Hr as <- <-. exists h. split_and!; [done|done|done|constructor|]. by intros o ?%elem_of_nil.
  - apply st_bind_Ok in Hr as (r&s1&Hone&Hr). apply st_bind_Ok in Hr as (out2&s2&Hrest&Hr).
    injection Hr as <- <-.
    apply (recreate_spec _ _ _ _ _ _ Hone) in Hh as (h1&lab&Hh1&Hi1&Hf1&Hlab&Hm); [|done].
    destruct (IH _ _ _ _ Hrest Hh1) as (h2&Hh2&Hi2&Hf2&Hall&Hlabs); [by rewrite (fills_length _ _ Hf1)|].
    exists h2. split_and!; [done|congruence|by eapply fills_trans| |].
    + simpl. unfold fresh_label at 1. rewrite Hlab. destruct r as [r|].
      * destruct Hm as (Hne&(?&?&?&Hs)&_). rewrite bool_decide_eq_false_2 by done. simpl.
        constructor; [|done]. split_and!; [done|done|done|]. by apply (fills_kept _ _ Hf2).
      * destruct Hm as [Hin _]. by rewrite bool_decide_eq_true_2.
    + intros x [->|Hx]%elem_of_cons; [|by apply Hlabs]. exists lab. split; [done|].
      destruct r; [right|left; apply Hm]. destruct Hm as (_&_&j&sl&Hj&?).
      exists j, sl. split; [by apply (fills_kept _ _ Hf2)|done].
Qed.

(** ** A pass *)
Lemma republish_host s h :
  host s = Some h →
  ∃ h', host (republish_after_op s).2 = Some h' ∧ slots h' = slots h ∧ (republish_after_op s).1 = Ok tt.
Proof.
  intros Hh. unfold republish_after_op, mbind, st_bind, host_snapshot. rewrite Hh. simpl.
  destruct (keeps_publish host (λ _ _, eq_refl) (λ _ _ _, eq_refl) (λ _ _, eq_refl) (omap (λ e, row_of (self_id s) e.1 <$> e.2) (imap pair (slots (remember_owner (self_id s) h))))
    (put_host (Some (remember_owner (self_id s) h)) s)) as [Hp ->].
  rewrite Hp. eexists. split_and!; [done| |done]. unfold remember_owner. by case_match.
Qed.

Definition labels_of s h : list string := rv_label <$> (current_rows (self_id s) h).1.
Definition orphans_of s : list RemoteVm := orphaned (list_section (inner s)).1.

Lemma within_pass : within pass_step (run_supervisor_step : st node StepError (list RestartedVm)).
Proof. apply within_supervisor; constructor. Qed.

Lemma run_step_Ok s h :
  host s = Some h → is_supervisor (inner s) = true → orphans_of s ≠ [] →
  ∃ s1 h1, host s1 = Some h1 ∧ slots h1 = slots h ∧
    run_supervisor_step s =
      (out ← recreate_all (labels_of s h) (orphans_of s);
       if bool_decide (out = []) then mret out
       else
         _ ← modify (λ s, set_metrics (inc supervisor_restarts (N.of_nat (length out)) (metrics s)) s);
         _ ← lift republish_after_op;
         mret out) s1.
Proof.
  intros Hh Hsup Ho. unfold run_supervisor_step, orphaned_vms, list_vms, host_snapshot, locked, lift.
  unfold mbind, st_bind, get_st. rewrite Hsup, Hh. simpl. unfold orphans_of in *. simpl in Ho.
  rewrite bool_decide_eq_false_2 by done. simpl. rewrite Hh. simpl.
  eexists _, _. split; [|split; [|done]]; [done|]. unfold remember_owner. by case_match.
Qed.

Lemma pass_spec s h out s' :
  host s = Some h → length (slots h) = N.to_nat MAX_SLOTS → run_supervisor_step s = (Ok out, s') →
  ∃ h', host s' = Some h' ∧ fills h h' ∧
    (if is_supervisor (inner s)
     then Forall2 (restarted_as h') (retain (fresh_label (labels_of s h)) (orphans_of s)) out ∧
       ∀ o, o ∈ orphans_of s → ∃ l, restart_label o = Some l ∧ has_label h' l
     else out = []).
Proof.
  intros Hh Hlen Hr. destruct (is_supervisor (inner s)) eqn:Hsup.
  2: { unfold run_supervisor_step, mbind, st_bind, get_st in Hr. rewrite Hsup in Hr. simpl in Hr.
       injection Hr as <- <-. by exists h. }
  destruct (decide (orphans_of s = [])) as [Ho|Ho].
  - unfold run_supervisor_step, orphaned_vms, list_vms, locked, lift, mbind, st_bind, get_st in Hr.
    rewrite Hsup, Hh in Hr. simpl in Hr. unfold orphans_of in *. simpl in Ho. rewrite Ho in Hr. simpl in Hr.
    injection Hr as <- <-. exists h. simpl in *. rewrite Ho. split_and!; [done|done|constructor|]. by intros o ?%elem_of_nil.
  - destruct (run_step_Ok s h Hh Hsup Ho) as (s1&h1&Hh1&Hs1&Heq). rewrite Heq in Hr. clear Heq.
    apply st_bind_Ok in Hr as (out2&s2&Hall&Hr).
    destruct (recreate_all_spec _ _ _ _ _ _ Hall Hh1) as (h2&Hh2&_&Hf&Hout&Hlabs); [by rewrite Hs1|].
    assert (∃ h', host s' = Some h' ∧ slots h' = slots h2 ∧ out = out2) as (h'&Hh'&Hs'&->).
    { case_bool_decide; [injection Hr as <- <-; by exists h2|].
      unfold modify, lift, mbind, st_bind in Hr. simpl in Hr. set (s3 := set_metrics _ s2) in Hr.
      destruct (republish_host s3 h2 Hh2) as (h3&Hh3&Hs3&Hok).
      destruct (republish_after_op s3) as [r4 s4]. simpl in *. subst r4. injection Hr as <- <-. by exists h3. }
    exists h'. destruct Hf as [Hfl Hfk]. split_and!; [done| | |].
    + split; rewrite Hs', <-Hs1; done.
    + eapply Forall2_impl; [done|]. unfold restarted_as. intros o r. by rewrite Hs'.
    + intros o (l&Hl&Hin)%Hlabs. exists l. split; [done|]. unfold has_label. rewrite Hs'.
      destruct Hin as [Hin|Hin]; [|done]. apply snapshot_labels in Hin as (j&sl&Hj&?).
      exists j, sl. rewrite <-Hs1 in Hj. auto.
Qed.

(** C17: what a supervision pass does.  On a node whose host is the in-memory
    one (over [CelhyperVmHost], whose attachments go to a host without VMs, the
    attachments of an orphan are lost), when a pass of the elected supervisor
    succeeds, it has recreated exactly the orphans that had no counterpart on
    the host, in their order, each in a slot that was free, under the label
    [label@owner], with the image, size and volume attachments of the orphan
    and no restart policy; slots that were taken are as they were; and every
    orphan now has a counterpart. *)
Theorem supervisor_restarts s h out s' :
  host s = Some h → length (slots h) = N.to_nat MAX_SLOTS → is_supervisor (inner s) = true →
  run_supervisor_step s = (Ok out, s') →
  ∃ h', host s' = Some h' ∧ fills h h' ∧
    Forall2 (restarted_as h') (retain (fresh_label (labels_of s h)) (orphans_of s)) out ∧
    ∀ o, o ∈ orphans_of s → ∃ l, restart_label o = Some l ∧ has_label h' l.
Proof.
  intros Hh Hlen Hsup Hr. destruct (pass_spec _ _ _ _ Hh Hlen Hr) as (h'&?&?&Hrest).
  rewrite Hsup in Hrest. eauto.
Qed.

Lemma second_pass existing l : ∀ s,
  (∀ o, o ∈ l → ∃ lab, restart_label o = Some lab ∧ lab ∈ existing) →
  recreate_all existing l s = (Ok [], s).
Proof.
  induction l as [|o l IH]; intros s Hl; [done|]. simpl.
  destruct (Hl o) as (lab&Hlab&Hin); [by left|]. unfold recreate, try, mbind, st_bind. rewrite Hlab. simpl.
  rewrite bool_decide_eq_true_2 by done. simpl. rewrite IH; [done|]. intros x Hx. apply Hl. by right.
Qed.

(** A pass is idempotent.  Whatever a successful pass did, the next one,
    with nothing in between, restarts nothing and leaves every slot as it is. *)
Theorem supervisor_idempotent c s h out s' :
  node_inv c (inner s) → host s = Some h → length (slots h) = N.to_nat MAX_SLOTS →
  run_supervisor_step s = (Ok out, s') →
  ∃ s'', run_supervisor_step s' = (Ok [], s'') ∧ (slots <$> host s'') = (slots <$> host s').
Proof.
  intros Hi Hh Hlen Hr. destruct (pass_spec _ _ _ _ Hh Hlen Hr) as (h'&Hh'&Hf&Hrest).
  pose proof (within_pass s) as Hw. rewrite Hr in Hw. simpl in Hw.
  destruct (pass_view c _ _ Hw Hi) as [Hv Hi'].
  destruct (is_supervisor (inner s')) eqn:Hsup.
  2: { exists s'. unfold run_supervisor_step, mbind, st_bind, get_st. by rewrite Hsup. }
  pose proof (same_view_supervisor c _ _ Hi Hi' Hv) as Hsame. rewrite <-Hsame, Hsup in Hrest.
  destruct Hrest as [_ Hlabs]. destruct (decide (orphans_of s' = [])) as [Ho|Ho].
  - unfold run_supervisor_step, orphaned_vms, list_vms, locked, lift, mbind, st_bind, get_st.
    rewrite Hsup, Hh'. simpl. unfold orphans_of in Ho. simpl in Ho. rewrite Ho. simpl. eexists. split; [done|].
    simpl. by rewrite Hh'.
  - destruct (run_step_Ok s' h' Hh' Hsup Ho) as (s1&h1&Hh1&Hs1&->). unfold mbind at 1, st_bind at 1.
    rewrite second_pass; [|].
    + simpl. exists s1. split; [done|]. rewrite Hh1, Hh'. simpl. by rewrite Hs1.
    + intros o Hoin. destruct (Hlabs o) as (l&Hl&Hin); [by eapply (same_view_orphans c)|].
      exists l. split; [done|]. by apply snapshot_labels.
Qed.
End pass.

(** ** Witnesses *)
Module SupWitness.
(** A node whose frames never leave it. *)
#[export] Instance codec : EnvelopeCodec := {| env_to_vec _ := Err tt; env_from_slice _ := None |}.
#[export] Instance order : KnownOrder := {| known_list s := elements s; known_perm s := reflexivity _ |}.
Definition config : MeshConfig := config_defaults "n1" "mem://n1".
Definition peer : NodeInfo := mkNodeInfo "n2" "mem://n2" 1 0 Alive.
Definition vm (owner : NodeId) (n : N) (label : string) : RemoteVm :=
  mkRemoteVm owner n label "running" None 1 3 true Always [mkAttachment "vol-1" "data"] None (Some 2%N) None None.
(** [n1] hears of [n2] and its VMs, which then falls silent. *)
Definition view (vms : list RemoteVm) : Inner :=
  (gossip_section (set_now 2000 (sync_section [peer] vms (inner_new config 0)))).2.
Definition node (vms : list RemoteVm) : Mesh.t MemTransport.t (MemVmHost.t _ _) :=
  Mesh.mk (view vms) (MemTransport.mk "mem://n1" ∅)
    (Some (MemVmHost.with_stores MemVolumeStore.new MemNetworkStore.new)) ∅ ∅ 0 1 metrics_new true.
Lemma view_ok vms : node_inv config (view vms).
Proof.
  apply (sections_inv config (inner_new config 0)); [|apply node_inv_new].
  eapply rtc_l; [apply (sec_sync _ [peer] vms)|].
  eapply rtc_l; [by apply (sec_time _ 2000)|]. apply rtc_once, sec_gossip.
Qed.
Definition h0 := MemVmHost.with_stores MemVolumeStore.new MemNetworkStore.new.
End SupWitness.
#[local] Existing Instances SupWitness.codec SupWitness.order.

Lemma node_keeps_authority_witness :
  node_inv SupWitness.config (SupWitness.view [SupWitness.vm "n1" 0 "forged"]) ∧
  grows (SupWitness.view [SupWitness.vm "n1" 0 "forged"])
    (goodbye_section "n1" (SupWitness.view [SupWitness.vm "n1" 0 "forged"])).
Proof.
  destruct (node_keeps_authority SupWitness.config 0 (SupWitness.view [SupWitness.vm "n1" 0 "forged"])) as (Hi&_&Hg).
  - eapply rtc_l; [apply (sec_sync _ [SupWitness.peer] [SupWitness.vm "n1" 0 "forged"])|].
    eapply rtc_l; [by apply (sec_time _ 2000)|]. apply rtc_once, sec_gossip.
  - split; [exact Hi|]. apply Hg, rtc_once, sec_goodbye.
Defined.

Lemma one_supervisor_witness :
  ∃ id r, mem_rows (in_membership (SupWitness.view [])) !! id = Some r ∧ ni_status r = Alive ∧
    (∀ id' r', mem_rows (in_membership (SupWitness.view [])) !! id' = Some r' → ni_status r' = Alive → String.le id id') ∧
    ∀ c' i, node_inv c' i → mem_rows (in_membership i) = mem_rows (in_membership (SupWitness.view [])) →
      is_supervisor i = bool_decide (mc_node_id c' = id).
Proof. exact (one_supervisor SupWitness.config (SupWitness.view []) _ (SupWitness.view_ok []) eq_refl). Defined.

Lemma supervisor_restarts_witness :
  let s := SupWitness.node [SupWitness.vm "n2" 0 "web"; SupWitness.vm "n2" 1 "db"] in
  ∃ h', host (run_supervisor_step s).2 = Some h' ∧ fills SupWitness.h0 h' ∧
    Forall2 (restarted_as h') (retain (fresh_label (labels_of s SupWitness.h0)) (orphans_of s))
      [mkRestartedVm "n2" 0 0 "web@n2"; mkRestartedVm "n2" 1 1 "db@n2"] ∧
    ∀ o, o ∈ orphans_of s → ∃ l, restart_label o = Some l ∧ has_label h' l.
Proof.
  apply (supervisor_restarts (SupWitness.node [SupWitness.vm "n2" 0 "web"; SupWitness.vm "n2" 1 "db"]) SupWitness.h0);
    by vm_compute.
Defined.

Lemma supervisor_idempotent_witness :
  let s' := (run_supervisor_step (SupWitness.node [SupWitness.vm "n2" 0 "web"])).2 in
  ∃ s'', run_supervisor_step s' = (Ok [], s'') ∧ (slots <$> host s'') = (slots <$> host s').
Proof.
  apply (supervisor_idempotent SupWitness.config (SupWitness.node [SupWitness.vm "n2" 0 "web"]) SupWitness.h0
    [mkRestartedVm "n2" 0 0 "web@n2"]); [apply SupWitness.view_ok|by vm_compute..].
Defined.

(** The label is cut at byte 32.  In the middle of a character the slice
    panics, which ends the supervisor task of the node. *)
Example supervisor_panics :
  let label := "123456789012345678901234567890" in
  let owner := String (ascii_of_N 195) (String (ascii_of_N 169) EmptyString) in
  restart_label (SupWitness.vm owner 0 label) = None ∧
  (recreate [] (SupWitness.vm owner 0 label) (SupWitness.node [])).1 = Err Panicked.
Proof. by vm_compute. Qed.

(** Cut labels collide: a VM whose label fills the 32 bytes shares the label of
    its replacement with any VM of that label, which hides it for good. *)
Example cut_labels_collide :
  let label := "12345678901234567890123456789012" in
  restart_label (SupWitness.vm "n2" 0 label) = restart_label (SupWitness.vm "n3" 1 label) ∧
  recreate [label] (SupWitness.vm "n3" 1 label) (SupWitness.node []) = (Ok None, SupWitness.node []).
Proof. by vm_compute. Qed.

(** An error in the middle of a pass: the VMs recreated before it are neither
    reported nor published. *)
Example failed_pass_is_silent :
  let vms := [SupWitness.vm "n2" 0 "a"; SupWitness.vm "n2" 1 "b"; SupWitness.vm "n2" 2 "c"; SupWitness.vm "n2" 3 "d";
              SupWitness.vm "n2" 4 "e"] in
  let res := run_supervisor_step (SupWitness.node vms) in
  res.1 = Err (Failed (Io "supervisor create: vm registry full")) ∧
  (λ h, length (omap id (slots h))) <$> host res.2 = Some 4%nat ∧
  local_rows (in_federation (inner res.2)) = [].
Proof. by vm_compute. Qed.

(** A VM its owner deleted stays in the view of its peers, and is restarted
    when the owner dies. *)
Example deleted_vm_comes_back :
  let i := sync_section [SupWitness.peer] [SupWitness.vm "n2" 0 "web"] (inner_new SupWitness.config 0) in
  let i := sync_section [mkNodeInfo "n2" "mem://n2" 1 9 Alive] [] i in
  let i := (gossip_section (set_now 5000 i)).2 in
  orphaned (list_section i).1 = [with_alive false (SupWitness.vm "n2" 0 "web")].
Proof. by vm_compute. Qed.
