(* ===== verification/RemoteCall.v ===== *)
(** * RemoteCall: a call on another node

    [Mesh::invoke] end to end: the request frame, its handling by the target,
    the response frame and the wait of the caller, over two nodes of Mesh.v
    with any hosts and any carrier that satisfies [TransportLaws]. *)
From S2P Require Import Prelude.
From S2P Require Import Text.
From S2P Require Import Errors.
From S2P Require Import Maps.
From S2P Require Import Vault.
From S2P Require Import Network.
From S2P Require Import VaultProofs.
From S2P Require Import NetworkProofs.
From S2P Require Import Federation.
From S2P Require Import Membership.
From S2P Require Import Proto.
From S2P Require Import Capabilities.
From S2P Require Import Host.
From S2P Require Import Mesh.
From S2P Require Import MeshProofs.
From S2P Require Import Supervisor.
From Stdlib Require Import Strings.Byte.
Import Mesh.

#[local] Abbreviation Node := Mesh.t.

(** ** Frames *)

(** The codec prints [e], within the size of a frame, and reads it back. *)
Definition carried `{EnvelopeCodec} (e : Envelope) : Prop :=
  ∃ bs, env_to_vec e = Ok bs ∧ env_from_slice bs = Some e ∧ (blen bs <=? MAX_FRAME_BYTES)%N = true.

Lemma decode_carried `{EnvelopeCodec} i p :
  carried (envelope i p) →
  ∃ bs, env_to_vec (envelope i p) = Ok bs ∧ decode env_from_slice bs = Ok (envelope i p).
Proof.
  intros (bs&He&Hd&Hlen%N.leb_le). exists bs. split; [done|]. unfold decode.
  rewrite (proj2 (N.ltb_ge _ _)) by done. rewrite Hd. by st_unfold.
Qed.

(** A frame that is no answer to request [id]. *)
Definition other_frame `{EnvelopeCodec} (id : N) (f : bytes) : Prop :=
  ∀ env res, decode env_from_slice f = Ok env → env_payload env ≠ Payload.Response id res.

Section call.
Context {T : Type} `{TransportLaws T} `{EnvelopeCodec} `{KnownOrder}.
Section one.
Context {Hh : Type} `{VmHost Hh}.
Implicit Types (s : Node T Hh).

(** Frames a node receives one after the other. *)
Definition deliver (l : list (bytes * string)) s : Node T Hh :=
  foldl (λ s e, (receive e.1 e.2 s).2) s l.

Lemma dispatch_pending id op from s : pending (dispatch_request id op from s).2 = pending s.
Proof.
  unfold dispatch_request, count, modify, mbind, st_bind.
  destruct (serve_keeps pending op (set_metrics (inc rpc_in 1 (metrics s)) s) (λ _ _, eq_refl)
    (λ _ _ _, eq_refl) (λ _ _, eq_refl) (λ _ _, eq_refl)) as [Hp Hr].
  destruct (serve_request op _) as [r s1]. simpl in *. subst r. rewrite <-Hp.
  unfold send_response, mbind, st_bind, get_st. destruct (mem_get _ _) as [r|]; [|done].
  apply (keeps_ship pending (λ _ _, eq_refl) (λ _ _ _, eq_refl) (λ _ _, eq_refl)).
Qed.

Lemma receive_pending f src s id : other_frame id f → pending (receive f src s).2 !! id = pending s !! id.
Proof.
  intros Hf. unfold receive. destruct (decode env_from_slice f) as [env|e] eqn:Hd; [|done].
  unfold handle_envelope, count, modify, locked, get_st, mbind, st_bind. simpl.
  destruct (negb _); [done|]. simpl.
  destruct (env_payload env) as [| | |rid target op|rid res] eqn:Hp; try done.
  - destruct (negb _); [done|]. by rewrite dispatch_pending.
  - unfold take_response, modify. simpl. destruct (pending s !! rid) as [ch|]; [|done]. simpl.
    apply lookup_delete_ne. intros ->. by apply (Hf env res Hd).
Qed.

Lemma deliver_pending l : ∀ s id, Forall (λ e, other_frame id e.1) l →
  pending (deliver l s) !! id = pending s !! id.
Proof.
  induction l as [|e l IH]; intros s id Hl; [done|]. apply Forall_cons in Hl as [He Hl]. simpl.
  rewrite IH by done. by apply receive_pending.
Qed.
Lemma deliver_inv c l : ∀ s, node_inv c (inner s) → node_inv c (inner (deliver l s)).
Proof.
  induction l as [|e l IH]; intros s Hs; [done|]. simpl. apply IH.
  by apply (sections_inv c _ _ (within_receive e.1 e.2 s)).
Qed.

(** ** The caller *)
Definition request s (target : NodeId) (op : VmOp.t) : Envelope :=
  envelope (tick_hlc (inner s)) (Payload.Request (next_req s) target op).

Lemma ship_queue msg f peer s bs :
  tr_reach (transport s) peer = true → env_to_vec (envelope (tick_hlc (inner s)) (f (tick_hlc (inner s)))) = Ok bs →
  (∀ p, tr_reach (transport (ship msg f peer s).2) p = tr_reach (transport s) p) ∧
  last (tr_queue (transport (ship msg f peer s).2) peer) = Some bs.
Proof.
  intros Hreach He. destruct (tr_send_spec peer bs (transport s)) as (Hok&Hr&Hq). specialize (Hq peer).
  rewrite Hreach in *. rewrite bool_decide_eq_true_2 in Hq by done. simpl in Hq.
  unfold ship, encode, transmit, count, locked, envelope_section. st_unfold. rewrite He. simpl.
  destruct (tr_send peer bs (transport s)) as [[[]|e] c]; [|done]. simpl in *. split; [done|].
  by rewrite Hq, last_snoc.
Qed.

Lemma invoke_send_ok s target op addr :
  target_addr target (in_membership (inner s)) = Ok addr → tr_reach (transport s) addr = true →
  carried (request s target op) →
  ∃ bs s1, invoke_send target op s = (Ok (next_req s, next_chan s), s1) ∧
    decode env_from_slice bs = Ok (request s target op) ∧
    last (tr_queue (transport s1) addr) = Some bs ∧
    pending s1 !! next_req s = Some (next_chan s) ∧ inner s1 = tick_hlc (inner s).
Proof.
  intros Hta Hreach (bs&He&Hd)%decode_carried. exists bs.
  destruct (tr_send_spec addr bs (transport s)) as (Hok&_&Hq). specialize (Hq addr). rewrite Hreach in *.
  rewrite bool_decide_eq_true_2 in Hq by done. simpl in Hq.
  unfold invoke_send, register, locked, envelope_section, encode, transmit, count, modify, mbind, st_bind,
    get_st, try, zoom, mret, st_ret.
  rewrite Hta. cbn [set_calls set_counters set_inner inner transport tick_hlc set_hlc].
  unfold request in *. unfold tick_hlc in *. rewrite He. simpl.
  destruct (tr_send addr bs (transport s)) as [[[]|e] c]; [|done]. eexists. split; [done|]. simpl in *.
  split_and!; [done|by rewrite Hq, last_snoc|by rewrite lookup_insert_eq|done].
Qed.

(** ** The answer *)
Lemma answered s c id ch bs src i res :
  node_inv c (inner s) → mc_cluster (in_config i) = mc_cluster c → pending s !! id = Some ch →
  decode env_from_slice bs = Ok (envelope i (Payload.Response id res)) →
  (invoke_wait id ch (receive bs src s).2).1 =
    match res with Ok r => Ok r | Err e => Err (Io ("remote host: " +:+ e)) end.
Proof.
  intros Hi Hc Hp Hd. unfold receive. rewrite Hd. unfold handle_envelope, count, modify, locked, get_st, mbind, st_bind.
  simpl. rewrite (node_config _ _ Hi), bool_decide_eq_true_2 by done. simpl.
  unfold take_response, modify. simpl. rewrite Hp. unfold invoke_wait, mbind, st_bind, get_st. simpl.
  rewrite lookup_insert_eq. by destruct res.
Qed.

(** ** The target *)

(** The host after an operation that came over the wire: a successful one is
    followed by a snapshot to publish. *)
Definition host_after (self : NodeId) (op : VmOp.t) (h : Hh) : Hh :=
  match (vh_handle op h).1 with
  | Ok _ => (vh_snapshot self (vh_handle op h).2).2
  | Err _ => (vh_handle op h).2
  end.

Lemma ship_host msg f peer s : host (ship msg f peer s).2 = host s.
Proof. by apply (keeps_ship host (λ _ _, eq_refl) (λ _ _ _, eq_refl) (λ _ _, eq_refl)). Qed.

Lemma serve_host op s h :
  host s = Some h → host (serve_request op s).2 = Some (host_after (self_id s) op h).
Proof.
  intros Hh0. unfold serve_request, host_after, modify, get_st, mbind, st_bind. rewrite Hh0.
  destruct (vh_handle op h) as [[r|e] h1]; [|done]. unfold discard. cbv beta iota.
  unfold republish_after_op, mbind, st_bind, host_snapshot.
  change (host (put_host (Some h1) s)) with (Some h1). cbv beta iota.
  change (self_id (put_host (Some h1) s)) with (self_id s). simpl.
  destruct (vh_snapshot (self_id s) h1) as [rows h2].
  by destruct (keeps_publish host (λ _ _, eq_refl) (λ _ _ _, eq_refl) (λ _ _, eq_refl) rows
    (put_host (Some h2) (put_host (Some h1) s))) as [-> _].
Qed.

(** The state a request is dispatched in. *)
Definition heard src s : Node T Hh :=
  set_inner (learn src (inner s)) (set_metrics (inc gossip_recv 1 (metrics s)) s).

Lemma receive_request s i bs src id op :
  mc_cluster (in_config i) = mc_cluster (in_config (inner s)) →
  decode env_from_slice bs = Ok (envelope i (Payload.Request id (self_id s) op)) →
  receive bs src s = dispatch_request id op (in_self i) (heard src s).
Proof.
  intros Hc Hd. unfold receive. rewrite Hd.
  transitivity (handle_envelope (envelope i (Payload.Request id (self_id s) op)) src
    (set_metrics (inc gossip_recv 1 (metrics s)) s)); [done|].
  unfold handle_envelope, get_st. unfold mbind at 1, st_bind at 1. cbv beta iota.
  rewrite bool_decide_eq_true_2 by done. cbn [negb].
  unfold locked, mbind, st_bind. cbv beta iota zeta. cbn [env_payload envelope env_from].
  change (self_id (set_inner ?j s)) with (in_self j).
  by rewrite bool_decide_eq_true_2.
Qed.

Lemma dispatch_response id op from s r s2 :
  serve_request op (set_metrics (inc rpc_in 1 (metrics s)) s) = (Ok r, s2) →
  dispatch_request id op from s = send_response id r from s2.
Proof. intros Hs. unfold dispatch_request, count, modify, mbind, st_bind. by rewrite Hs. Qed.

Lemma serves s c i bs src id target op h ra :
  node_inv c (inner s) → mc_cluster (in_config i) = mc_cluster c → target = mc_node_id c →
  in_self i ≠ target → host s = Some h →
  mem_get (in_membership (inner s)) (in_self i) = Some ra → tr_reach (transport s) (ni_addr ra) = true →
  decode env_from_slice bs = Ok (envelope i (Payload.Request id target op)) →
  (∀ j, node_inv c j → carried (envelope j (Payload.Response id (vh_handle op h).1))) →
  host (receive bs src s).2 = Some (host_after target op h) ∧
  ∃ j bs', in_config j = c ∧ last (tr_queue (transport (receive bs src s).2) (ni_addr ra)) = Some bs' ∧
    decode env_from_slice bs' = Ok (envelope j (Payload.Response id (vh_handle op h).1)).
Proof.
  intros Hi Hc -> Hne Hh0 Hra Hreach Hd Hcar.
  assert (self_id s = mc_node_id c) as Hself by (unfold self_id, in_self; by rewrite (node_config _ _ Hi)).
  rewrite <-Hself in Hd. rewrite (receive_request s i bs src id op) by (rewrite ?(node_config _ _ Hi); done).
  set (s1 := set_metrics (inc rpc_in 1 (metrics (heard src s))) (heard src s)).
  assert (node_inv c (inner s1)) as Hi1 by (by destruct Hi).
  pose proof (serve_host op s1 h Hh0) as Hhost. change (self_id s1) with (self_id s) in Hhost. rewrite Hself in Hhost.
  destruct (serve_keeps (λ s, tr_reach (transport s) (ni_addr ra)) op s1) as [Hr1 Hres];
    [done|intros peer b' s'; apply (tr_send_spec peer b' (transport s'))|done|done|].
  rewrite (Hh0 : host s1 = Some h) in Hres.
  destruct (pass_view c (inner s1) (inner (serve_request op s1).2)) as [Hv Hi2];
    [apply within_serve; constructor|done|].
  destruct (serve_request op s1) as [r s2] eqn:Hserve. simpl in Hres, Hr1, Hhost, Hv, Hi2. subst r.
  rewrite (dispatch_response _ _ _ _ _ _ Hserve). unfold send_response. unfold mbind, st_bind, get_st.
  assert (mem_get (in_membership (inner s2)) (in_self i) = Some ra) as ->.
  { unfold mem_get in *. etransitivity; [|exact Hra]. apply (view_rows _ _ Hv). simpl. by rewrite (node_mem_self _ _ Hi). }
  destruct (decode_carried (tick_hlc (inner s2)) (Payload.Response id (vh_handle op h).1)) as (bs'&He&Hd').
  { by apply Hcar, node_inv_tick. }
  unfold discard. cbn [snd]. rewrite ship_host. split; [done|].
  exists (tick_hlc (inner s2)), bs'. split_and!; [by apply (node_config _ _ Hi2)| |done].
  apply ship_queue; [by rewrite Hr1|done].
Qed.
End one.

(** ** End to end *)
Context {Ha Hb : Type} `{VmHost Ha} `{VmHost Hb}.

(** While the caller waits: the target receives the request, the caller
    receives any frames and then the last frame the target sent it. *)
Definition exchange (addr_b addr_a : string) (b : Node T Hb) (before : list (bytes * string))
    (a : Node T Ha) : Node T Ha :=
  match last (tr_queue (transport a) addr_b) with
  | None => a
  | Some frame =>
      match last (tr_queue (transport (receive frame addr_a b).2) addr_a) with
      | None => a
      | Some resp => (receive resp addr_b (deliver before a)).2
      end
  end.

(** C3: a remote call is a call of the host.  Take two nodes of one cluster,
    with different ids, that know each other and can reach each other; let the
    codec carry the request and whatever response the target may build (both
    encode within the 64 KiB of a frame); and let none of the other frames that
    the caller handles while it waits be a Response with the id of this call.
    Then [invoke] on the caller answers what the host of the target answers to
    the operation (its error marked as remote), and the target's host is left
    as the operation leaves it, with a snapshot taken for publishing when it
    succeeded. *)
Theorem remote_call_is_host_call (a : Node T Ha) (b : Node T Hb) ca cb op h addr_b ra before :
  node_inv ca (inner a) → node_inv cb (inner b) →
  mc_cluster ca = mc_cluster cb → mc_node_id ca ≠ mc_node_id cb →
  target_addr (mc_node_id cb) (in_membership (inner a)) = Ok addr_b →
  tr_reach (transport a) addr_b = true →
  mem_get (in_membership (inner b)) (mc_node_id ca) = Some ra →
  tr_reach (transport b) (ni_addr ra) = true →
  host b = Some h →
  carried (request a (mc_node_id cb) op) →
  (∀ j, node_inv cb j → carried (envelope j (Payload.Response (next_req a) (vh_handle op h).1))) →
  Forall (λ e, other_frame (next_req a) e.1) before →
  (invoke (exchange addr_b (ni_addr ra) b before) (mc_node_id cb) op a).1 =
    map_err (λ e, Io ("remote host: " +:+ e)) (vh_handle op h).1 ∧
  ∃ frame, decode env_from_slice frame = Ok (request a (mc_node_id cb) op) ∧
    host (receive frame (ni_addr ra) b).2 = Some (host_after (mc_node_id cb) op h).
Proof.
  intros Hia Hib Hc Hne Hta Hra Hrow Hrb Hh Hreq Hresp Hbefore.
  assert (in_self (inner a) = mc_node_id ca) as Hself by (unfold in_self; by rewrite (node_config _ _ Hia)).
  destruct (invoke_send_ok a (mc_node_id cb) op addr_b Hta Hra Hreq) as (bs&a1&Hsend&Hd&Hlast&Hpend&Hin).
  destruct (serves b cb (tick_hlc (inner a)) bs (ni_addr ra) (next_req a) (mc_node_id cb) op h ra)
    as [Hhost (j&bs'&Hj&Hlast'&Hd')]; try done.
  { simpl. by rewrite (node_config _ _ Hia). }
  { change (in_self (inner a) ≠ mc_node_id cb). by rewrite Hself. }
  { change (mem_get (in_membership (inner b)) (in_self (inner a)) = Some ra). by rewrite Hself. }
  split; [|by exists bs].
  unfold invoke, get_st. unfold mbind at 1, st_bind at 1. cbv beta iota.
  rewrite bool_decide_eq_false_2 by (change (in_self (inner a) ≠ mc_node_id cb); by rewrite Hself).
  unfold mbind at 1, st_bind at 1. rewrite Hsend. unfold modify, mbind, st_bind. cbv beta iota.
  unfold exchange. rewrite Hlast, Hlast'.
  rewrite (answered _ ca _ _ _ _ j (vh_handle op h).1).
  - by destruct (vh_handle op h).1.
  - apply deliver_inv. rewrite Hin. by apply node_inv_tick.
  - by rewrite Hj.
  - by rewrite deliver_pending.
  - done.
Qed.
End call.

(** ** Witnesses *)
Module CallWitness.
(** A codec for the frames of one call: a tag and the clock in binary. *)
Fixpoint pos_bytes (p : positive) : bytes :=
  match p with xH => [] | xO p => x00 :: pos_bytes p | xI p => x01 :: pos_bytes p end.
Fixpoint bytes_pos (bs : bytes) : positive :=
  match bs with [] => xH | x00 :: bs => xO (bytes_pos bs) | _ :: bs => xI (bytes_pos bs) end.
Lemma bytes_pos_bytes p : bytes_pos (pos_bytes p) = p.
Proof. induction p; simpl; congruence. Qed.
Lemma pos_bytes_length k : ∀ p, (Pos.to_nat p < 2 ^ S k)%nat → length (pos_bytes p) ≤ k.
Proof.
  induction k as [|k IH]; intros [p|p|] Hp; simpl; try lia; apply le_n_S || (exfalso; simpl in Hp; lia);
    apply IH; simpl in *; lia.
Qed.

Definition the_op : VmOp.t := VmOp.Create "vm" Never None None None None.
Definition req (hlc : N) : Envelope := mkEnvelope MAGIC PROTO_VERSION "n1" "celium" hlc (Payload.Request 1 "n2" the_op).
Definition resp (hlc : N) : Envelope :=
  mkEnvelope MAGIC PROTO_VERSION "n2" "celium" hlc (Payload.Response 1 (Ok (VmOpReply.Created 0))).
#[export] Instance codec : EnvelopeCodec := {|
  env_to_vec e := match env_payload e with
                  | Payload.Request _ _ _ => Ok (x00 :: pos_bytes (N.succ_pos (env_hlc e)))
                  | Payload.Response _ _ => Ok (x01 :: pos_bytes (N.succ_pos (env_hlc e)))
                  | _ => Err tt
                  end;
  env_from_slice bs := match bs with
                       | x00 :: bs => Some (req (Pos.pred_N (bytes_pos bs)))
                       | x01 :: bs => Some (resp (Pos.pred_N (bytes_pos bs)))
                       | _ => None
                       end
|}.
#[export] Instance order : KnownOrder := {| known_list s := elements s; known_perm s := reflexivity _ |}.

Lemma frame_fits (tag : byte) h : (h ≤ umax 64)%N →
  (blen (tag :: pos_bytes (N.succ_pos h)) <=? MAX_FRAME_BYTES)%N = true.
Proof.
  intros Hh. apply N.leb_le. unfold blen. simpl.
  assert (length (pos_bytes (N.succ_pos h)) ≤ 64); [|unfold MAX_FRAME_BYTES; lia].
  apply pos_bytes_length. rewrite <-N.pos_pred_succ in Hh. unfold umax in Hh.
  assert (Z.pos (N.succ_pos h) ≤ 2 ^ 64)%Z. { lia. }
  assert (Z.of_nat (2 ^ 65) = 2 ^ 65)%Z by (rewrite Nat2Z.inj_pow; done). lia.
Qed.
Lemma carried_frame (e : Envelope) tag :
  env_to_vec e = Ok (tag :: pos_bytes (N.succ_pos (env_hlc e))) →
  env_from_slice (tag :: pos_bytes (N.succ_pos (env_hlc e))) = Some e → (env_hlc e ≤ umax 64)%N →
  carried e.
Proof. intros He Hd Hh. eexists. split_and!; [done|done|]. by apply frame_fits. Qed.

Definition routes : gmap string (list (bytes * string)) := {["mem://n1" := []; "mem://n2" := []]}.
Definition config (id addr peer : string) : MeshConfig :=
  mkMeshConfig "celium" id addr 1 [peer] 50 500 1500 0.
Definition row (id addr : string) : NodeInfo := mkNodeInfo id addr 1 0 Alive.
Definition host0 := MemVmHost.with_stores MemVolumeStore.new MemNetworkStore.new.
(** A started node that has heard of its peer. *)
Definition node (id addr peer peer_addr : string) : Node MemTransport.t (MemVmHost.t _ _) :=
  let s := (start (config id addr peer_addr) (MemTransport.mk addr routes) 0
              (Mesh.mk (inner_new (config id addr peer_addr) 0) (MemTransport.mk addr routes) None ∅ ∅ 0 1 metrics_new true)).2 in
  set_inner (hello_section (row peer peer_addr) (inner s)) (set_host host0 s).2.
Definition a := node "n1" "mem://n1" "n2" "mem://n2".
Definition b := node "n2" "mem://n2" "n1" "mem://n1".
Lemma node_ok id addr peer peer_addr :
  node_inv (config id addr peer_addr) (inner (node id addr peer peer_addr)).
Proof.
  unfold node. set (s := (start _ _ _ _).2). assert (node_inv (config id addr peer_addr) (inner s)) as Hs.
  - apply (sections_inv _ (inner_new (config id addr peer_addr) 0)); [|apply node_inv_new].
    eapply rtc_l; [|apply rtc_refl]. apply sec_tick.
  - apply (node_inv_step _ _ _ (sec_hello (inner s) (row peer peer_addr)) Hs).
Qed.
End CallWitness.
#[local] Existing Instances CallWitness.codec CallWitness.order.

Lemma remote_call_is_host_call_witness :
  (invoke (exchange "mem://n2" "mem://n1" CallWitness.b []) "n2" CallWitness.the_op CallWitness.a).1 =
    Ok (VmOpReply.Created 0).
Proof.
  refine (proj1 (remote_call_is_host_call CallWitness.a CallWitness.b
    (CallWitness.config "n1" "mem://n1" "mem://n2") (CallWitness.config "n2" "mem://n2" "mem://n1") CallWitness.the_op
    (MemVmHost.set_owner (Some "n2") CallWitness.host0)
    "mem://n2" (CallWitness.row "n1" "mem://n1") [] (CallWitness.node_ok _ _ _ _) (CallWitness.node_ok _ _ _ _)
    _ _ _ _ _ _ _ _ _ _)); try by vm_compute.
  - apply (CallWitness.carried_frame _ x00); by vm_compute.
  - intros j Hj. apply (CallWitness.carried_frame _ x01).
    + done.
    + cbn [env_hlc envelope]. change (env_from_slice (x01 :: ?x)) with
        (Some (CallWitness.resp (Pos.pred_N (CallWitness.bytes_pos x)))).
      rewrite CallWitness.bytes_pos_bytes, N.pos_pred_succ. unfold envelope, in_self. by rewrite (node_config _ _ Hj).
    + apply (node_clock _ _ Hj).
Defined.

(** A request delivered twice is executed twice: nothing remembers the ids of
    requests already served. *)
Example duplicate_executes_twice :
  let f := x00 :: CallWitness.pos_bytes 2 in
  let s := deliver [(f, "mem://n1"); (f, "mem://n1")] CallWitness.b in
  (λ h, length (omap id (MemVmHost.slots h))) <$> host s = Some 2%nat.
Proof. by vm_compute. Qed.
