(* ===== verification/K8s.v ===== *)
(** * K8s: [celmesh::k8s], clusters of VMs

    [K8sCluster::create] and [destroy] over the operations of the mesh.
    [Mesh::invoke], with its time-out, is the argument [invoke]: the node and
    the operation.  The last part runs them on the in-memory host. *)
From S2P Require Import Prelude.
From S2P Require Import Text.
From S2P Require Import Errors.
From S2P Require Import Vault.
From S2P Require Import VaultProofs.
From S2P Require Import Network.
From S2P Require Import NetworkProofs.
From S2P Require Import Federation.
From S2P Require Import Membership.
From S2P Require Import Proto.
From S2P Require Import Capabilities.
From S2P Require Import Host.
From S2P Require Import HostProofs.
From S2P Require Import Supervisor.

Record K8sClusterSpec := mkK8sClusterSpec {
  k8_name : string; k8_workers : N (** u32 *); k8_cidr : string; k8_api_port : N;
  k8_api_backend_port : N; k8_algo : LbAlgo
}.
Definition spec_new (name : string) (workers : N) : K8sClusterSpec :=
  mkK8sClusterSpec name workers "10.42.0.0/24" 6443 6443 RoundRobin.

Inductive K8sNodeRole := ControlPlane | Worker.
Record K8sNodeRecord := mkK8sNodeRecord {
  kn_role : K8sNodeRole; kn_vm_id : N; kn_label : string; kn_nic : Nic
}.
Record K8sCluster := mkK8sCluster {
  kc_spec : K8sClusterSpec; kc_owner : NodeId; kc_network : VirtualNetwork; kc_lb : LoadBalancer;
  kc_nodes : list K8sNodeRecord
}.

Definition is_role (r : K8sNodeRole) (n : K8sNodeRecord) : bool :=
  match r, kn_role n with ControlPlane, ControlPlane | Worker, Worker => true | _, _ => false end.
Definition control_plane (c : K8sCluster) : list K8sNodeRecord := List.filter (is_role ControlPlane) (kc_nodes c).
Definition workers (c : K8sCluster) : list K8sNodeRecord := List.filter (is_role Worker) (kc_nodes c).

Section k8s.
Context {X : Type} (invoke : NodeId → VmOp.t → st X CelError VmOpReply.t).
Abbreviation M := (st X CelError).

(** One call whose reply must have the expected shape. *)
Definition expect {A} (what : string) (reply : VmOpReply.t) (f : VmOpReply.t → option A) : M A :=
  try (ok_or (f reply) (Internal ("k8s: unexpected reply (" +:+ what +:+ ")"))).
Definition as_network (r : VmOpReply.t) := match r with VmOpReply.NetworkCreated n => Some n | _ => None end.
Definition as_vm (r : VmOpReply.t) := match r with VmOpReply.Created id => Some id | _ => None end.
Definition as_nic (r : VmOpReply.t) := match r with VmOpReply.NicAttached n => Some n | _ => None end.
Definition as_lb (r : VmOpReply.t) := match r with VmOpReply.LoadBalancerCreated lb => Some lb | _ => None end.

(** Create, connect and start one VM. *)
Definition provision (owner : NodeId) (net : VirtualNetwork) (role : K8sNodeRole) (what label : string)
  : M K8sNodeRecord :=
  r ← invoke owner (VmOp.Create label Always None None None None);
  vm_id ← expect ("Create " +:+ what) r as_vm;
  r ← invoke owner (VmOp.AttachNic (net_id net) vm_id None);
  nic ← expect ("AttachNic " +:+ what) r as_nic;
  _ ← invoke owner (VmOp.Start vm_id);
  mret (mkK8sNodeRecord role vm_id label nic).

(** The loop over the workers, from number [i]. *)
Fixpoint provision_workers (owner : NodeId) (net : VirtualNetwork) (name : string) (n : nat) (i : N)
  : M (list K8sNodeRecord) :=
  match n with
  | O => mret []
  | S n =>
      w ← provision owner net Worker "worker" ("k8s-worker-" +:+ name +:+ "-" +:+ fmt_u i);
      ws ← provision_workers owner net name n (i + 1);
      mret (w :: ws)
  end.

Definition create (owner : NodeId) (spec : K8sClusterSpec) : M K8sCluster :=
  _ ← bail_if ((k8_workers spec =? 0) || (16 <? k8_workers spec))%N (Invalid "k8s: workers must be in 1..=16");
  _ ← try (map_err (λ _, Invalid "k8s: bad cidr") (cidr_parse (k8_cidr spec)));
  r ← invoke owner (VmOp.CreateNetwork (k8_name spec) (k8_cidr spec));
  net ← expect "CreateNetwork" r as_network;
  cp ← provision owner net ControlPlane "cp" ("k8s-cp-" +:+ k8_name spec);
  ws ← provision_workers owner net (k8_name spec) (N.to_nat (k8_workers spec)) 0;
  let backends := (λ w, mkLbBackend (kn_vm_id w) (nic_ip (kn_nic w)) (k8_api_backend_port spec)) <$> ws in
  vip ← try (ok_or (nth_host (net_cidr net) (capacity (net_cidr net))) (Invalid "k8s: no room for VIP in CIDR"));
  r ← invoke owner (VmOp.CreateLoadBalancer (k8_name spec +:+ "-api") (net_id net) (fmt_ipv4 vip)
                      (k8_api_port spec) (k8_algo spec) backends);
  lb ← expect "CreateLoadBalancer" r as_lb;
  mret (mkK8sCluster spec owner net lb (cp :: ws)).

(** [destroy]: every step is attempted; [step] keeps the first error. *)
Definition step (owner : NodeId) (op : VmOp.t) (e : option CelError) : M (option CelError) := λ s,
  let '(r, s) := invoke owner op s in
  (Ok match e, r with None, Err e => Some e | _, _ => e end, s).
Definition step_quiet (owner : NodeId) (op : VmOp.t) (e : option CelError) : M (option CelError) := λ s,
  (Ok e, (invoke owner op s).2).
Fixpoint destroy_nodes (owner : NodeId) (ns : list K8sNodeRecord) (e : option CelError) : M (option CelError) :=
  match ns with
  | [] => mret e
  | n :: ns =>
      e ← step owner (VmOp.DetachNic (nic_id (kn_nic n))) e;
      e ← step_quiet owner (VmOp.Stop (kn_vm_id n)) e;
      e ← step owner (VmOp.Delete (kn_vm_id n)) e;
      destroy_nodes owner ns e
  end.
Definition destroy (c : K8sCluster) : M unit :=
  e ← step (kc_owner c) (VmOp.DeleteLoadBalancer (lb_id (kc_lb c))) None;
  e ← destroy_nodes (kc_owner c) (kc_nodes c) e;
  e ← step (kc_owner c) (VmOp.DeleteNetwork (net_id (kc_network c))) e;
  match e with None => mret tt | Some e => mthrow e end.
End k8s.

(** ** On the in-memory host *)
Import MemVmHost.
Section mem.
Context {V W : Type} `{VolumeStore V} `{NetworkStore W}.
#[local] Abbreviation hst := (MemVmHost.t V W).
Implicit Types (h : hst).

(** [Mesh::invoke] on the node that runs the host. *)
Definition on_mem (owner : NodeId) (op : VmOp.t) : st hst CelError VmOpReply.t := λ h,
  let '(r, h) := apply op h in (map_err (λ e, Io ("host: " +:+ e)) r, h).

Definition taken h (j : nat) : Prop := ∃ sl, slots h !! j = Some (Some sl).
Definition occupied h : nat := length (omap id (slots h)).
(** No VM is lost, and [n] are new. *)
Record gains (n : nat) h h' : Prop := {
  gains_length : length (slots h') = length (slots h);
  gains_kept : ∀ j, taken h j → taken h' j;
  gains_count : occupied h' = occupied h + n
}.

Lemma occupied_insert (l : list (option Slot)) j o x :
  l !! j = Some o →
  length (omap id (<[j := Some x]> l)) = length (omap id l) + match o with None => 1 | Some _ => 0 end.
Proof.
  revert j. induction l as [|[y|] l IH]; intros [|j] Hj; simplify_eq/=; try lia; by rewrite IH.
Qed.
Lemma occupied_bound h : occupied h ≤ length (slots h).
Proof. unfold occupied. generalize (slots h). intros l. induction l as [|[x|] l IH]; csimpl in *; lia. Qed.

Lemma gains_same h h' : slots h' = slots h → gains 0 h h'.
Proof. intros Hs. unfold taken, occupied. split; unfold taken, occupied; rewrite Hs; [done|done|lia]. Qed.
Lemma gains_trans n m h1 h2 h3 : gains n h1 h2 → gains m h2 h3 → gains (n + m) h1 h3.
Proof. intros [? ? Hn] [? ? Hm]. split; [congruence|auto|lia]. Qed.
Lemma gains_insert h j o x :
  slots h !! j = Some o →
  gains match o with None => 1 | Some _ => 0 end h (set_slots (<[j := Some x]> (slots h)) h).
Proof.
  intros Hj. split; simpl.
  - by rewrite length_insert.
  - intros j' [y Hy]. destruct (decide (j' = j)) as [->|Hne]; unfold taken; simpl.
    + exists x. apply list_lookup_insert_eq. by apply lookup_lt_Some in Hj.
    + exists y. by rewrite list_lookup_insert_ne.
  - unfold occupied. simpl. by apply occupied_insert.
Qed.

Lemma on_mem_Ok owner op h r h' : on_mem owner op h = (Ok r, h') → apply op h = (Ok r, h').
Proof. unfold on_mem. destruct (apply op h) as [[x|e] h1]; [|done]. by intros [= -> ->]. Qed.

(** The operations of a cluster that create no VM. *)
Definition no_vm (op : VmOp.t) : bool :=
  match op with
  | VmOp.Start _ | VmOp.AttachNic _ _ _ | VmOp.CreateNetwork _ _ | VmOp.CreateLoadBalancer _ _ _ _ _ _ => true
  | _ => false
  end.
Lemma no_vm_gains owner op h r h' : no_vm op = true → on_mem owner op h = (Ok r, h') → gains 0 h h'.
Proof.
  intros Hop Hr%on_mem_Ok. destruct op; try done; unfold apply, apply_start, on_nets, current_owner, put_slot in Hr;
    st_unfold; repeat (case_match; simplify_eq/=); try (by apply gains_same).
  all: try match goal with Hs : slot_mut _ _ = Ok _ |- _ => apply slot_mut_Ok in Hs as [_ Hs] end.
  all: match goal with Hs : slots ?g !! ?j = Some (Some ?a) |- _ => exact (gains_insert g j (Some a) _ Hs) end.
Qed.

Lemma provision_gains owner net role what label h n h' :
  provision on_mem owner net role what label h = (Ok n, h') → length (slots h) = N.to_nat MAX_SLOTS →
  gains 1 h h' ∧ kn_role n = role ∧ taken h' (N.to_nat (kn_vm_id n)) ∧ ¬ taken h (N.to_nat (kn_vm_id n)).
Proof.
  intros Hp Hlen. unfold provision in Hp.
  apply st_bind_Ok in Hp as (r1&h1&Hc%on_mem_Ok&Hp). apply st_bind_Ok in Hp as (vm&h2&Hx&Hp).
  unfold expect, try in Hx. injection Hx as Hx <-. apply ok_or_Ok in Hx.
  apply st_bind_Ok in Hp as (r2&h3&Ha&Hp). apply st_bind_Ok in Hp as (nic&h4&Hy&Hp).
  unfold expect, try in Hy. injection Hy as _ <-. apply st_bind_Ok in Hp as (r3&h5&Hs&Hp). injection Hp as <- <-.
  apply host_create_spec in Hc as (j&Hj&->&_&->); [|done]. injection Hx as <-.
  apply no_vm_gains in Ha, Hs; [|done..]. simpl. rewrite Nat2N.id.
  pose proof (gains_insert h j None (mkSlot label "created" None Always [] None None None None) Hj) as Hg.
  pose proof (gains_trans _ _ _ _ _ Ha Hs) as Hg2. split_and!.
  - exact (gains_trans _ _ _ _ _ Hg Hg2).
  - done.
  - apply (gains_kept _ _ _ Hg2). eexists. simpl. apply list_lookup_insert_eq. by apply lookup_lt_Some in Hj.
  - intros [sl Hsl]. congruence.
Qed.

Lemma workers_gain owner net name n : ∀ i h ws h',
  provision_workers on_mem owner net name n i h = (Ok ws, h') → length (slots h) = N.to_nat MAX_SLOTS →
  gains n h h' ∧ length ws = n ∧ NoDup (kn_vm_id <$> ws) ∧
  Forall (λ w, kn_role w = Worker ∧ taken h' (N.to_nat (kn_vm_id w)) ∧ ¬ taken h (N.to_nat (kn_vm_id w))) ws.
Proof.
  induction n as [|n IH]; intros i h ws h' Hp Hlen; simpl in Hp.
  - injection Hp as <- <-. split_and!; [by apply gains_same|done|constructor|constructor].
  - apply st_bind_Ok in Hp as (w&h1&Hw&Hp). apply st_bind_Ok in Hp as (ws1&h2&Hws&Hp). injection Hp as <- <-.
    apply provision_gains in Hw as (Hg&Hrole&Ht&Hn); [|done].
    apply IH in Hws as (Hgs&Hl&Hnd&Hall); [|by rewrite (gains_length _ _ _ Hg)]. split_and!.
    + exact (gains_trans _ _ _ _ _ Hg Hgs).
    + simpl. by rewrite Hl.
    + simpl. constructor; [|done]. intros (x&Heq&Hx)%list_elem_of_fmap.
      rewrite Forall_forall in Hall. destruct (Hall _ Hx) as (_&_&Hnx). by rewrite <-Heq in Hnx.
    + constructor; [split_and!; [done|by apply (gains_kept _ _ _ Hgs)|done]|].
      eapply Forall_impl; [done|]. intros x (?&?&Hnx). split_and!; [done|done|].
      intros Hx. by apply Hnx, (gains_kept _ _ _ Hg).
Qed.

(** What a cluster takes.  When [create] succeeds on the in-memory host,
    the cluster is one control-plane VM and the requested workers, each in a
    slot of its own that was free before; no other VM is lost.  A host has
    four slots, so only clusters of at most three workers are ever created,
    although the specification allows sixteen. *)
Theorem cluster_takes_slots owner spec h c h' :
  length (slots h) = N.to_nat MAX_SLOTS → create on_mem owner spec h = (Ok c, h') →
  length (control_plane c) = 1 ∧ length (workers c) = N.to_nat (k8_workers spec) ∧
  NoDup (kn_vm_id <$> kc_nodes c) ∧
  Forall (λ n, taken h' (N.to_nat (kn_vm_id n)) ∧ ¬ taken h (N.to_nat (kn_vm_id n))) (kc_nodes c) ∧
  gains (1 + N.to_nat (k8_workers spec)) h h' ∧ (k8_workers spec ≤ 3)%N.
Proof.
  intros Hlen Hc. unfold create in Hc.
  apply st_bind_Ok in Hc as (u&h1&Hb&Hc). assert (h1 = h) as -> by (unfold bail_if in Hb; case_match; by inversion Hb).
  apply st_bind_Ok in Hc as (b&h2&Hb2&Hc). injection Hb2 as _ <-.
  apply st_bind_Ok in Hc as (r1&h3&Hnet&Hc). apply st_bind_Ok in Hc as (net&h4&Hx&Hc). injection Hx as _ <-.
  apply st_bind_Ok in Hc as (cp&h5&Hcp&Hc). apply st_bind_Ok in Hc as (ws&h6&Hws&Hc).
  apply st_bind_Ok in Hc as (vip&h7&Hv&Hc). injection Hv as _ <-.
  apply st_bind_Ok in Hc as (r2&h8&Hlb&Hc). apply st_bind_Ok in Hc as (lb&h9&Hy&Hc). injection Hy as _ <-.
  injection Hc as <- <-. apply no_vm_gains in Hnet, Hlb; [|done..].
  assert (length (slots h3) = N.to_nat MAX_SLOTS) as Hl3 by (by rewrite (gains_length _ _ _ Hnet)).
  apply provision_gains in Hcp as (Hgc&Hrc&Htc&Hnc); [|done].
  apply workers_gain in Hws as (Hgw&Hlw&Hnd&Hall); [|by rewrite (gains_length _ _ _ Hgc)].
  pose proof (gains_trans _ _ _ _ _ Hgw Hlb) as Hg2.
  pose proof (gains_trans _ _ _ _ _ Hnet (gains_trans _ _ _ _ _ Hgc Hg2)) as Hg. rewrite Nat.add_0_r in Hg.
  assert (∀ j, taken h j → taken h3 j) as Hk by apply Hnet.
  assert (Forall (λ w, is_role Worker w = true ∧ is_role ControlPlane w = false) ws) as Hroles.
  { eapply Forall_impl; [exact Hall|]. unfold is_role. by intros w (->&_). }
  assert (List.filter (is_role Worker) ws = ws ∧ List.filter (is_role ControlPlane) ws = []) as [Hfw Hfc].
  { clear -Hroles. induction Hroles as [|w ws [Hw Hc] _ [IHw IHc]]; [done|]. cbn [List.filter]. by rewrite Hw, Hc, IHw, IHc. }
  assert (is_role Worker cp = false ∧ is_role ControlPlane cp = true) as [Hcw Hcc] by (unfold is_role; by rewrite Hrc).
  unfold control_plane, workers. cbn [kc_nodes List.filter]. rewrite Hcw, Hcc, Hfw, Hfc. cbn [fmap list_fmap]. split_and!.
  - done.
  - done.
  - constructor; [|done]. intros (x&Heq&Hx)%list_elem_of_fmap.
    rewrite Forall_forall in Hall. destruct (Hall _ Hx) as (_&_&Hnx). rewrite Heq in Htc. by apply Hnx.
  - constructor.
    + split; [by apply (gains_kept _ _ _ Hg2)|]. intros Ht. by apply Hnc, Hk.
    + eapply Forall_impl; [exact Hall|]. intros x (_&Ht&Hnx). split; [by apply (gains_kept _ _ _ Hlb)|].
      intros Hx. by apply Hnx, (gains_kept _ _ _ Hgc), Hk.
  - exact Hg.
  - pose proof (occupied_bound h8) as Hb8. rewrite (gains_count _ _ _ Hg), (gains_length _ _ _ Hg), Hlen in Hb8.
    change (N.to_nat MAX_SLOTS) with 4 in Hb8. lia.
Qed.
End mem.

(** ** Witnesses *)
Module K8sWitness.
Definition host0 := (current_rows "n1" (with_stores MemVolumeStore.new MemNetworkStore.new)).2.
Definition run (workers : N) := create on_mem "n1" (spec_new "prod" workers) host0.
End K8sWitness.

Lemma cluster_takes_slots_witness :
  match K8sWitness.run 2 with
  | (Ok c, h) => NoDup (kn_vm_id <$> kc_nodes c) ∧ length (workers c) = 2%nat ∧ gains 3 K8sWitness.host0 h
  | (Err _, _) => False
  end.
Proof.
  destruct (K8sWitness.run 2) as [[c|e] h] eqn:Hr; [|by vm_compute in Hr].
  destruct (cluster_takes_slots "n1" (spec_new "prod" 2) K8sWitness.host0 c h eq_refl Hr) as (_&Hw&Hnd&_&Hg&_).
  split_and!; [exact Hnd|exact Hw|exact Hg].
Defined.

(** The addresses are the documented ones for a fresh network. *)
Example cluster_addresses :
  match K8sWitness.run 2 with
  | (Ok c, _) => (λ n, fmt_ipv4 (nic_ip (kn_nic n))) <$> kc_nodes c = ["10.42.0.1"; "10.42.0.2"; "10.42.0.3"]
      ∧ fmt_ipv4 (lb_vip (kc_lb c)) = "10.42.0.254" ∧ be_vm_id <$> lb_backends (kc_lb c) = [1%N; 2%N]
  | _ => False
  end.
Proof. by vm_compute. Qed.

(** A cluster that does not fit fails after its VMs were made, and returns no
    handle [destroy] could be called on: the VMs and the network stay. *)
Example failed_cluster_stays :
  let '(r, h) := K8sWitness.run 5 in
  r = Err (Io "host: vm registry full") ∧ occupied h = 4%nat ∧ length (ns_list_networks (nets h)) = 1%nat.
Proof. by vm_compute. Qed.

(** A cluster that was created can be taken down to nothing. *)
Example destroy_cluster :
  match K8sWitness.run 3 with
  | (Ok c, h) => let '(r, h) := destroy on_mem c h in
      r = Ok tt ∧ occupied h = 0%nat ∧ ns_list_networks (nets h) = [] ∧ ns_list_load_balancers (nets h) = []
  | _ => False
  end.
Proof. by vm_compute. Qed.
