(* ===== verification/Observe.v ===== *)
(** * Observe: [celmesh::admin] and [celmesh::observability]

    The admin HTTP server (one request per connection, read in whatever pieces
    the socket delivers) and the cluster report.  The socket is the list of
    what its reads return; [Mesh::invoke] is an argument of the report. *)
From S2P Require Import Prelude.
From S2P Require Import Text.
From S2P Require Import Errors.
From S2P Require Import Maps.
From S2P Require Import Vault.
From S2P Require Import Network.
From S2P Require Import Federation.
From S2P Require Import Membership.
From S2P Require Import Proto.
From S2P Require Import Hyper.
From S2P Require Import HyperSerial.
From S2P Require Import Host.
From S2P Require Import Mesh.
From S2P Require Import MeshProofs.
From S2P Require Import Supervisor.
From Stdlib Require Import Strings.Byte.

(** ** The admin server *)
Module Admin.
Definition MAX_REQUEST_BYTES : nat := 4 * 1024.
Inductive Read := Chunk (bs : bytes) | Failed (msg : string).

Fixpoint line_end_from (prev : option byte) (b : bytes) (i : nat) : option nat :=
  match b with
  | [] => None
  | c :: b =>
      if Byte.eqb c x0a then Some (match prev with Some p => if Byte.eqb p x0d then (i - 1)%nat else i | None => i end)
      else line_end_from (Some c) b (S i)
  end.
Definition find_line_end (b : bytes) : option nat := line_end_from None b 0.

Definition request_line (line : bytes) : CelResult string :=
  if utf8_ok line then
    let it := split_on " " (str_of line) in
    let method := default EmptyString (it !! 0) in
    let target := default EmptyString (it !! 1) in
    if bool_decide (method = "GET") || bool_decide (method = "HEAD")
    then Ok (default "/" (split_on "?" target !! 0))
    else Err (Invalid "admin: only GET/HEAD supported")
  else Err (Invalid "admin: non-UTF-8 request line").

(** [buf[..filled]]; a read returns at most the room that is left, and an
    exhausted list of reads is a closed connection. *)
Fixpoint read_request_path (buf : bytes) (reads : list Read) : CelResult string :=
  if bool_decide (length buf = MAX_REQUEST_BYTES) then Err (Invalid "admin: request header too large")
  else
    match reads with
    | [] => Err (Invalid "admin: client closed before request")
    | Failed e :: _ => Err (Io ("admin read: " +:+ e))
    | Chunk c :: reads =>
        match take (MAX_REQUEST_BYTES - length buf) c with
        | [] => Err (Invalid "admin: client closed before request")
        | c =>
            match find_line_end (buf ++ c) with
            | Some e => request_line (take e (buf ++ c))
            | None => read_request_path (buf ++ c) reads
            end
        end
    end.

(** [str::contains]. *)
Definition str_contains (sub s : string) : bool :=
  match String.index 0 sub s with Some _ => true | None => false end.

Definition crlf : string := String (ascii_of_N 13) newline_str.
Definition text_plain : string := "text/plain; charset=utf-8".

Section admin.
Context {T H : Type}.
Definition route (mesh : Mesh.t T H) (path : string) : N * string * string :=
  if bool_decide (path = "/metrics") then (200%N, "text/plain; version=0.0.4", render_prometheus (Mesh.metrics mesh))
  else if bool_decide (path = "/healthz") then (200%N, text_plain, Mesh.summary mesh +:+ newline_str)
  else if bool_decide (path = "/readyz") then
    let summary := Mesh.summary mesh in
    (if str_contains "degraded=false" summary then 200%N else 503%N, text_plain, summary +:+ newline_str)
  else if bool_decide (path = "/") then
    (200%N, text_plain, "celmesh admin" +:+ newline_str +:+ "  GET /metrics" +:+ newline_str
                        +:+ "  GET /healthz" +:+ newline_str +:+ "  GET /readyz" +:+ newline_str)
  else (404%N, text_plain, "not found" +:+ newline_str).

Definition reason (status : N) : string :=
  if (status =? 200)%N then "OK" else if (status =? 404)%N then "Not Found"
  else if (status =? 503)%N then "Service Unavailable" else "Status".
Definition write_response (status : N) (ctype body : string) : string :=
  ("HTTP/1.0 " +:+ fmt_u status +:+ " " +:+ reason status +:+ crlf +:+ "Content-Type: " +:+ ctype +:+ crlf
   +:+ "Content-Length: " +:+ fmt_u (len body) +:+ crlf +:+ "Connection: close" +:+ crlf +:+ crlf) +:+ body.

(** What a connection is answered; an error closes it without an answer. *)
Definition handle_conn (mesh : Mesh.t T H) (reads : list Read) : CelResult string :=
  path ← read_request_path [] reads;
  let '(status, ctype, body) := route mesh path in
  Ok (write_response status ctype body).
End admin.

(** *** Lemmas *)
Lemma line_end_app b1 : ∀ b2 prev i e,
  line_end_from prev b1 i = Some e → line_end_from prev (b1 ++ b2) i = Some e.
Proof.
  induction b1 as [|c b1 IH]; intros b2 prev i e; simpl; [done|]. destruct (Byte.eqb c x0a); [done|]. apply IH.
Qed.
Lemma line_end_lt b : ∀ prev i e, (prev = None → i = 0%nat) → (prev ≠ None → 1 ≤ i) →
  line_end_from prev b i = Some e → e < i + length b.
Proof.
  induction b as [|c b IH]; intros prev i e H0 H1; simpl; [done|]. destruct (Byte.eqb c x0a).
  - intros [= <-]. destruct prev as [p|]; [|lia]. destruct (Byte.eqb p x0d); lia.
  - intros He%IH; [lia|done|lia].
Qed.

(** The pieces a request arrives in do not matter: only its first line does,
    when it ends within the 4096 bytes the server reads. *)
Theorem request_chunks_irrelevant chunks e :
  Forall (λ c, c ≠ []) chunks → length (concat chunks) < MAX_REQUEST_BYTES →
  find_line_end (concat chunks) = Some e →
  read_request_path [] (Chunk <$> chunks) = request_line (take e (concat chunks)).
Proof.
  intros Hne Hlen He. change (concat chunks) with ([] ++ concat chunks) in *.
  assert (find_line_end [] = None) as Hno by done. revert Hno Hlen He. generalize (@nil byte) as buf.
  induction Hne as [|c chunks Hc _ IH]; intros buf Hno Hlen He.
  - simpl in He. rewrite app_nil_r in He. congruence.
  - cbn [concat] in *. rewrite app_assoc in *. rewrite !length_app in Hlen.
    cbn [fmap list_fmap read_request_path]. rewrite bool_decide_eq_false_2 by lia.
    rewrite take_ge by lia. destruct c as [|x c]; [done|].
    destruct (find_line_end (buf ++ x :: c)) as [e'|] eqn:Hf.
    + pose proof (line_end_app _ (concat chunks) _ _ _ Hf) as Hf2. unfold find_line_end in He. simplify_eq.
      assert (e < length (buf ++ x :: c)) as Hlt by (by apply (line_end_lt _ None 0)).
      by rewrite (take_app_le (buf ++ x :: c)) by lia.
    + apply IH; [done|by rewrite !length_app|done].
Qed.

(** [/readyz] looks for its verdict in the text of the summary, where the
    names of the node and of the cluster come first: a name can supply it. *)
Definition renamed (name : string) : Mesh.t MemTransport.t nat :=
  Mesh.mk (inner_new (config_defaults name "mem://n1") 0) (MemTransport.mk "mem://n1" ∅) None ∅ ∅ 0 1
    metrics_new true.
Example readyz_reads_names :
  Mesh.degraded (Mesh.cluster_status (renamed "n1")) = true ∧ (route (renamed "n1") "/readyz").1.1 = 503%N ∧
  Mesh.degraded (Mesh.cluster_status (renamed "n1 degraded=false")) = true ∧
  (route (renamed "n1 degraded=false") "/readyz").1.1 = 200%N.
Proof. by vm_compute. Qed.
End Admin.

(** ** The cluster report *)
Record VolumeUsage := mkVolumeUsage { vu_node : NodeId; vu_volume : VolumeMeta }.
Record NodeReport := mkNodeReport {
  nr_id : NodeId; nr_addr : string; nr_status : NodeStatus; nr_vm_count : N; nr_volume_count : N;
  nr_total_volume_bytes : N; nr_network_count : N; nr_reachable : bool
}.
Record ClusterReport := mkClusterReport {
  cr_nodes : list NodeReport; cr_volumes : list VolumeUsage; cr_networks : list VirtualNetwork;
  cr_total_vms : N; cr_total_volumes : N; cr_total_volume_bytes : N
}.
Definition empty_report (r : NodeInfo) : NodeReport :=
  mkNodeReport (ni_id r) (ni_addr r) (ni_status r) 0 0 0 0 false.

Section report.
Context {X : Type} (invoke : NodeId → VmOp.t → st X CelError VmOpReply.t).

(** The answers of one live node. *)
Definition poll (vms : list RemoteVm) (row : NodeReport) : X → (NodeReport * list VolumeUsage * list VirtualNetwork) * X := λ s,
  let id := nr_id row in
  let owned := (N.of_nat (length (retain (λ v, bool_decide (rv_owner v = id)) vms)) mod 2 ^ 32)%N in
  let with_volumes n b ok nets :=
    mkNodeReport id (nr_addr row) (nr_status row) owned n b nets ok in
  match invoke id VmOp.ListVolumes s with
  | (Ok (VmOpReply.VolumesListed volumes), s) =>
      let n := (N.of_nat (length volumes) mod 2 ^ 32)%N in
      let total := foldl (saturating_add 64) 0%N (vol_size <$> volumes) in
      let used := mkVolumeUsage id <$> volumes in
      match invoke id VmOp.ListNetworks s with
      | (Ok (VmOpReply.NetworksListed networks), s) =>
          ((with_volumes n total true (N.of_nat (length networks) mod 2 ^ 32)%N, used, networks), s)
      | (_, s) => ((with_volumes n total true 0%N, used, []), s)
      end
  | (_, s) => ((with_volumes 0%N 0%N false 0%N, [], []), s)
  end.

Definition by_node (members : list NodeInfo) : gmap NodeId NodeReport :=
  foldl (λ m r, <[ni_id r := empty_report r]> m) ∅ members.

Fixpoint poll_all (vms : list RemoteVm) (alive : list NodeInfo)
    (acc : gmap NodeId NodeReport * list VolumeUsage * list VirtualNetwork) (s : X)
  : (gmap NodeId NodeReport * list VolumeUsage * list VirtualNetwork) * X :=
  match alive with
  | [] => (acc, s)
  | r :: alive =>
      let '(m, vols, nets) := acc in
      match m !! ni_id r with
      | None => poll_all vms alive acc s
      | Some row =>
          let '((row, v, n), s) := poll vms row s in
          poll_all vms alive (<[ni_id r := row]> m, vols ++ v, nets ++ n) s
      end
  end.

(** [Mesh::cluster_report] for what [members] and [list_vms] return.  The rows
    come out in the order of their ids, so sorting them again keeps them; the
    [u32] totals wrap as in a release build. *)
Definition cluster_report (members : list NodeInfo) (vms : list RemoteVm) (s : X) : ClusterReport * X :=
  let alive := retain (λ r, bool_decide (ni_status r = Alive)) members in
  let '((m, volumes, networks), s) := poll_all vms alive (by_node members, [], []) s in
  let nodes := str_btree_values m in
  (mkClusterReport nodes volumes networks
     (foldl (wrapping_add 32) 0%N (nr_vm_count <$> nodes))
     (foldl (wrapping_add 32) 0%N (nr_volume_count <$> nodes))
     (foldl (saturating_add 64) 0%N (nr_total_volume_bytes <$> nodes)), s).

(** *** Every member is reported once, as it is *)
Definition row_ok (members : list NodeInfo) (id : NodeId) (n : NodeReport) : Prop :=
  nr_id n = id ∧ ∃ r, r ∈ members ∧ ni_id r = id ∧ nr_addr n = ni_addr r ∧ nr_status n = ni_status r.

Lemma by_node_spec members : NoDup (ni_id <$> members) →
  ∀ r, r ∈ members → by_node members !! ni_id r = Some (empty_report r).
Proof.
  unfold by_node. generalize (∅ : gmap NodeId NodeReport). induction members as [|x l IH]; intros m Hnd r Hr.
  - by apply elem_of_nil in Hr.
  - simpl in *. apply NoDup_cons in Hnd as [Hx Hnd]. apply elem_of_cons in Hr as [->|Hr]; [|by apply IH].
    clear IH. assert (<[ni_id x := empty_report x]> m !! ni_id x = Some (empty_report x)) as Hm by apply lookup_insert_eq.
    revert Hm. generalize (<[ni_id x := empty_report x]> m). clear Hnd. induction l as [|y l IHl]; intros m' Hm; [done|].
    simpl in *. apply not_elem_of_cons in Hx as [Hne Hx]. apply IHl; [done|]. by rewrite lookup_insert_ne.
Qed.
Lemma by_node_dom members id n : by_node members !! id = Some n → ∃ r, r ∈ members ∧ ni_id r = id ∧ n = empty_report r.
Proof.
  unfold by_node. assert (∀ (m : gmap NodeId NodeReport) l, (∀ i x, m !! i = Some x → ∃ r, r ∈ members ∧ ni_id r = i ∧ x = empty_report r) →
    (∀ r, r ∈ l → r ∈ members) →
    foldl (λ m r, <[ni_id r := empty_report r]> m) m l !! id = Some n → ∃ r, r ∈ members ∧ ni_id r = id ∧ n = empty_report r) as Hg.
  { intros m l. revert m. induction l as [|x l IH]; intros m Hm Hl; simpl; [apply Hm|]. apply IH.
    - intros i y [[<- <-]|[_ ?]]%lookup_insert_Some; [|by apply Hm]. exists x. split; [apply Hl; by left|done].
    - intros r Hr. apply Hl. by right. }
  apply Hg; [|done]. by intros i x ?%lookup_empty_Some.
Qed.

Lemma poll_row vms row s : nr_id (poll vms row s).1.1.1 = nr_id row ∧
  nr_addr (poll vms row s).1.1.1 = nr_addr row ∧ nr_status (poll vms row s).1.1.1 = nr_status row.
Proof. unfold poll. by repeat case_match. Qed.

Lemma poll_all_spec vms alive : ∀ m v n s,
  let '((m', _, _), _) := poll_all vms alive (m, v, n) s in
  (∀ id, id ∉ (ni_id <$> alive) → m' !! id = m !! id) ∧
  ∀ id x, m !! id = Some x → ∃ x', m' !! id = Some x' ∧
    (nr_id x = id → nr_id x' = id) ∧ nr_addr x' = nr_addr x ∧ nr_status x' = nr_status x.
Proof.
  induction alive as [|r l IH]; intros m v n s; simpl; [split; [done|]; intros id x Hx; by exists x|].
  destruct (m !! ni_id r) as [row|] eqn:Hr.
  - pose proof (poll_row vms row s) as Hrow. destruct (poll vms row s) as [[[row' v'] n'] s']. simpl in Hrow.
    specialize (IH (<[ni_id r := row']> m) (v ++ v') (n ++ n') s').
    destruct (poll_all _ _ _ _) as [[[m' v1] n1] s1]. destruct IH as [Hout Hin]. split.
    + intros id [Hne Hid]%not_elem_of_cons. rewrite Hout by done. by rewrite lookup_insert_ne.
    + intros id x Hx. destruct (decide (id = ni_id r)) as [->|Hne].
      * rewrite Hr in Hx. injection Hx as <-.
        destruct (Hin _ row' (lookup_insert_eq _ _ _)) as (x'&Hx'&Hi&Ha&Hs). exists x'.
        destruct Hrow as (Hi'&?&?). split_and!; [done| |congruence|congruence].
        intros Hid. apply Hi. congruence.
      * apply (Hin id x). by rewrite lookup_insert_ne.
  - specialize (IH m v n s). destruct (poll_all _ _ _ _) as [[[m' v1] n1] s1]. destruct IH as [Hout Hin].
    split; [|done]. intros id [_ Hid]%not_elem_of_cons. by apply Hout.
Qed.

(** The report has a row per member, with its address and status, and no
    other; a member that is not alive is not asked anything. *)
Theorem report_covers_members members vms s :
  NoDup (ni_id <$> members) →
  (∀ r, r ∈ members → ∃ n, n ∈ cr_nodes (cluster_report members vms s).1 ∧
     nr_id n = ni_id r ∧ nr_addr n = ni_addr r ∧ nr_status n = ni_status r ∧
     (ni_status r ≠ Alive → n = empty_report r)) ∧
  length (cr_nodes (cluster_report members vms s).1) = length members.
Proof.
  intros Hnd. unfold cluster_report. set (alive := retain _ members).
  pose proof (poll_all_spec vms alive (by_node members) [] [] s) as Hspec.
  destruct (poll_all _ _ _ _) as [[[m v] n] s']. destruct Hspec as [Hout Hin]. simpl.
  assert (∀ id, is_Some (m !! id) ↔ id ∈ (ni_id <$> members)) as Hdom.
  { intros id. rewrite list_elem_of_fmap. split.
    - intros [x Hx]. destruct (decide (id ∈ (ni_id <$> alive))) as [Ha|Ha].
      + apply list_elem_of_fmap in Ha as (r&->&[Hr _]%elem_of_retain). eauto.
      + rewrite Hout in Hx by done. apply by_node_dom in Hx as (r&?&<-&_). eauto.
    - intros (r&->&Hr). destruct (Hin _ _ (by_node_spec _ Hnd r Hr)) as (x&Hx&_). eauto. }
  split.
  - intros r Hr. destruct (Hin _ _ (by_node_spec _ Hnd r Hr)) as (x&Hx&Hid&Ha&Hs). exists x.
    unfold str_btree_values. rewrite elem_of_btree_values. split_and!; [by exists (ni_id r)|by apply Hid|done|done|].
    intros Hst. rewrite Hout, (by_node_spec _ Hnd r Hr) in Hx; [by simplify_eq|].
    intros (r'&Heq&[Hr' Hal]%elem_of_retain)%list_elem_of_fmap. apply bool_decide_eq_true in Hal.
    pose proof (by_node_spec _ Hnd r' Hr') as H1'. pose proof (by_node_spec _ Hnd r Hr) as H2'.
    rewrite <-Heq, H2' in H1'. injection H1'. congruence.
  - unfold str_btree_values. rewrite btree_values_length.
    rewrite <-(length_fmap ni_id members). rewrite <-(size_list_to_set (C:=gset NodeId)) by done.
    rewrite <-size_dom. f_equal. apply set_eq. intros id. by rewrite elem_of_dom, elem_of_list_to_set, Hdom.
Qed.
End report.
