(* ===== verification/Controller.v ===== *)
(** * Controller: [celcli::vm], [celcli::boot] and [celcli::bridge]

    The VM controller of the command line: four slots kept in a JSON file, the
    staging of the first page of a disk image when a VM starts, and the sink
    that ships the page to a kernel.  The image is opened and read by the
    readers of Images.v; files are those of Files.v; the JSON is the class
    [StateJson] and the sink a parameter. *)
From S2P Require Import Prelude.
From S2P Require Import Text.
From S2P Require Import Errors.
From S2P Require Import Maps.
From S2P Require Import Vault.
From S2P Require Import Crc.
From S2P Require Import Files.
From S2P Require Import DiskFile.
From S2P Require Import DiskImage.
From S2P Require Import Images.
From S2P Require Import Federation.
From S2P Require Import Hyper.
From Stdlib Require Import Strings.Byte.

(** ** The world outside the controller *)

(** The files, the outcomes of the coming transfers of image files, and the
    other end of the sink. *)
Record World (K : Type) := mkWorld { w_fs : Fs; w_reads : list (option transfer); w_sink : K }.
Arguments mkWorld {K}.
Arguments w_fs {K}.
Arguments w_reads {K}.
Arguments w_sink {K}.

(** [Path::with_extension] of a path with a file name. *)
Fixpoint rsplit_once (c : ascii) (s : string) : option (string * string) :=
  match s with
  | EmptyString => None
  | String a s' =>
      match rsplit_once c s' with
      | Some (l, r) => Some (String a l, r)
      | None => if Ascii.eqb a c then Some (EmptyString, s') else None
      end
  end.
Definition with_extension (p ext : string) : string :=
  let '(dir, name) := match rsplit_once "/" p with
                      | Some (d, n) => (d +:+ "/", n) | None => (EmptyString, p) end in
  let stem := match rsplit_once "." name with
              | Some (EmptyString, _) | None => name | Some (l, _) => l end in
  dir +:+ stem +:+ "." +:+ ext.

Section world.
Context {K : Type}.
Abbreviation WM := (st (World K) Fault).

Definition on_fs {A} (what : string) (m : st Fs string A) : WM A := λ w,
  let '(r, d) := m (w_fs w) in
  (map_err (λ e, Fail (Io (what +:+ ": " +:+ e))) r, mkWorld d (w_reads w) (w_sink w)).

(** Rename, removing the temporary file when that fails. *)
Definition rename_or_clean (tmp dst : string) : WM unit := λ w,
  match on_fs ("rename " +:+ tmp +:+ " -> " +:+ dst) (fs_rename tmp dst) w with
  | (Err e, w) => (Err e, (on_fs "" (fs_remove_file tmp) w).2)
  | ok => ok
  end.
(** Write [bs] to a temporary file, then rename it over [dst]. *)
Definition replace_file (tmp dst : string) (bs : bytes) : WM unit :=
  _ ← on_fs ("create " +:+ tmp) (file_create tmp);
  _ ← on_fs ("write " +:+ tmp) (file_write tmp 0 bs);
  _ ← on_fs ("fsync " +:+ tmp) file_sync;
  rename_or_clean tmp dst.

(** ** [boot.rs] *)
Definition BOOT_BLOB_LEN : N := 4096.
Record BootDigest := mkBootDigest { bd_blob_len : N; bd_crc32c : N; bd_blob_path : string }.

(** The start of the image, read from its file. *)
Definition page_of (want : N) (image : AnyImage) : DiskFile.M bytes := λ _,
  let '(r, i) := read_exact_at 0 want image in (r, image_file i).
Definition first_page (image_path : string) : DiskFile.M bytes :=
  image ← Images.open image_path;
  let virt := virtual_size image in
  _ ← bail_if (virt =? 0)%N (Fail (Invalid "boot blob: image has zero virtual size"));
  page_of (N.min virt BOOT_BLOB_LEN) image.
(** The same on a file of the world, which has to be there. *)
Definition read_page (image_path : string) : WM bytes := λ w,
  match fs_files (w_fs w) !! image_path with
  | None => (Err (Fail (Io ("open " +:+ image_path +:+ ": " +:+ os_not_found))), w)
  | Some b =>
      let '(r, h) := first_page image_path (mkHandle b 0 (w_reads w)) in
      (r, mkWorld (w_fs w) (h_outcomes h) (w_sink w))
  end.

Definition blob_dir (stage_root : string) (vm_id : N) : string := stage_root +:+ "/vm-" +:+ fmt_u vm_id.
Definition blob_file (stage_root : string) (vm_id : N) : string := blob_dir stage_root vm_id +:+ "/boot.blob".
Definition blob_tmp (pid : N) (stage_root : string) (vm_id : N) : string :=
  blob_file stage_root vm_id +:+ ".tmp." +:+ fmt_u pid.

Definition stage_boot_blob (pid : N) (image_path stage_root : string) (vm_id : N) : WM BootDigest :=
  buf ← read_page image_path;
  let crc := crc32c buf in
  _ ← on_fs ("mkdir " +:+ blob_dir stage_root vm_id) create_dir_all;
  _ ← replace_file (blob_tmp pid stage_root vm_id) (blob_file stage_root vm_id) buf;
  mret (mkBootDigest (blen buf) crc (blob_file stage_root vm_id)).
End world.

(** ** [vm.rs] *)
Definition CTL_MAX_VMS : N := 4.
Definition STATE_VERSION : N := 1.

Module Ctl.
Inductive VmState := Created | Running | Halted | Stopped | Faulted.
#[export] Instance VmState_eq_dec : EqDecision VmState.
Proof. solve_decision. Defined.
Definition is_terminal (s : VmState) : bool :=
  match s with Halted | Stopped | Faulted => true | _ => false end.
Definition tag (s : VmState) : string :=
  match s with
  | Created => "created" | Running => "running" | Halted => "halted" | Stopped => "stopped"
  | Faulted => "faulted"
  end.

Record VmRecord := mkVmRecord {
  id : N; state : VmState; last_exit : option N; label : string; image_path : option string;
  cpu_count : option N; memory_mib : option N; boot_blob_len : option N; boot_blob_crc32c : option N
}.
Definition set_state (s : VmState) (e : option N) (r : VmRecord) : VmRecord :=
  mkVmRecord (id r) s e (label r) (image_path r) (cpu_count r) (memory_mib r) (boot_blob_len r) (boot_blob_crc32c r).
Definition set_digest (d : BootDigest) (r : VmRecord) : VmRecord :=
  mkVmRecord (id r) (state r) (last_exit r) (label r) (image_path r) (cpu_count r) (memory_mib r)
    (Some (bd_blob_len d)) (Some (bd_crc32c d)).
Record VmSpec := mkVmSpec {
  sp_label : string; sp_image_path : option string; sp_cpu_count : option N; sp_memory_mib : option N
}.
Record ControllerState := mkState { version : N; slots : list (option VmRecord) }.
Definition state_default : ControllerState := mkState STATE_VERSION (replicate (N.to_nat CTL_MAX_VMS) None).
Record Stats := mkStats {
  slots_total : nat; slots_free : nat; allocated : nat; created : nat; running : nat; halted : nat;
  stopped : nat; faulted : nat; with_boot_blob : nat
}.

(** [stage_sink]: whether one is bound. *)
Record t := mk { ctl : ControllerState; path : option string; stage_root : option string; stage_sink : bool }.
Definition set_slots (l : list (option VmRecord)) (c : t) : t :=
  mk (mkState (version (ctl c)) l) (path c) (stage_root c) (stage_sink c).
Definition in_memory : t := mk state_default None None false.
Definition with_stage_root (p : string) (c : t) : t := mk (ctl c) (path c) (Some p) (stage_sink c).
Definition with_stage_sink (c : t) : t := mk (ctl c) (path c) (stage_root c) true.
Abbreviation M := (st t CelError).

(** *** Lookups *)
Definition slot_index (vm : N) : CelResult nat :=
  if (CTL_MAX_VMS <=? vm)%N then Err (Invalid "VmId out of range") else Ok (N.to_nat vm).
Definition lookup (vm : N) (c : t) : CelResult VmRecord :=
  i ← slot_index vm; ok_or (mjoin (slots (ctl c) !! i)) (Invalid "vm not allocated").
Definition store (vm : N) (r : option VmRecord) : M unit :=
  modify (λ c, set_slots (<[N.to_nat vm := r]> (slots (ctl c))) c).

(** *** Operations *)
Definition record_of (vm : N) (spec : VmSpec) : VmRecord :=
  mkVmRecord vm Created None (sp_label spec) (sp_image_path spec) (sp_cpu_count spec) (sp_memory_mib spec) None None.
Fixpoint first_free (ss : list (option VmRecord)) (i : nat) : option nat :=
  match ss with [] => None | None :: _ => Some i | Some _ :: ss => first_free ss (S i) end.
Definition create_vm_with (spec : VmSpec) : M N :=
  _ ← bail_if (32 <? len (sp_label spec))%N (Invalid "label > 32 chars");
  _ ← bail_if (match sp_cpu_count spec with Some c => (c =? 0) || (64 <? c) | None => false end)%N
        (Invalid "cpu_count must be in 1..=64");
  _ ← bail_if (match sp_memory_mib spec with Some m => (m =? 0) || (1024 * 1024 <? m) | None => false end)%N
        (Invalid "memory_mib must be in 1..=1048576");
  c ← get_st;
  match first_free (slots (ctl c)) 0 with
  | Some i => _ ← store (N.of_nat i) (Some (record_of (N.of_nat i) spec)); mret (N.of_nat i)
  | None => mthrow (Exhausted "vm registry full")
  end.
Definition create_vm (l : string) : M N := create_vm_with (mkVmSpec l None None None).

Definition list_vms (c : t) : list VmRecord := omap (λ s, s) (slots (ctl c)).
Definition vm_count (c : t) : nat := length (list_vms c).
Definition stats_slot (s : Stats) (slot : option VmRecord) : Stats :=
  match slot with
  | None => mkStats (slots_total s) (slots_free s + 1) (allocated s) (created s) (running s) (halted s)
              (stopped s) (faulted s) (with_boot_blob s)
  | Some r =>
      let n v := if decide (state r = v) then 1 else 0 in
      mkStats (slots_total s) (slots_free s) (allocated s + 1) (created s + n Created) (running s + n Running)
        (halted s + n Halted) (stopped s + n Stopped) (faulted s + n Faulted)
        (with_boot_blob s + match boot_blob_crc32c r with Some _ => 1 | None => 0 end)
  end.
Definition stats (c : t) : Stats :=
  foldl stats_slot (mkStats (N.to_nat CTL_MAX_VMS) 0 0 0 0 0 0 0 0) (slots (ctl c)).

Definition reset_vm (vm : N) : M VmState :=
  c ← get_st;
  r ← try (lookup vm c);
  _ ← bail_if (negb (is_terminal (state r))) (Invalid "vm not terminal; cannot reset");
  _ ← store vm (Some (set_state Created None r));
  mret Created.
Definition stop_vm (vm : N) : M VmState :=
  c ← get_st;
  r ← try (lookup vm c);
  let s := if is_terminal (state r) then state r else Stopped in
  _ ← store vm (Some (set_state s (last_exit r) r));
  mret s.
Definition vm_state (vm : N) (c : t) : CelResult VmState := r ← lookup vm c; Ok (state r).
Definition delete_vm (vm : N) : M unit :=
  c ← get_st;
  i ← try (slot_index vm);
  match mjoin (slots (ctl c) !! i) with
  | Some r => if is_terminal (state r) then store vm None else mthrow (Invalid "vm not terminal; stop first")
  | None => mthrow (Invalid "vm not allocated")
  end.

(** *** Paths *)
Definition resolve_path (p : string) (c : t) : CelResult N :=
  stripped ← ok_or (strip_prefix "/vms" p) (Invalid "path: missing /vms root");
  suffix ← ok_or (strip_prefix "/" stripped) (Invalid "path: expected /vms/<n>");
  if str_is_empty suffix || contains_char "/" suffix then Err (Invalid "path: expected exactly one segment")
  else
    idx ← ok_or (parse_uint 32 suffix) (Invalid "path: VM id is not a u32");
    _ ← lookup idx c;
    Ok idx.
Definition path_for (vm : N) : string := "/vms/" +:+ fmt_u vm.

(** *** Starting, with the world *)
Section start.
Context {K : Type} (pid : N) (sink : bytes → st K CelError N).
Record Sys := mkSys { controller : t; world : World K }.
Abbreviation SM := (st Sys Fault).
Definition on_ctl {A} (m : M A) : SM A := λ s,
  let '(r, c) := m (controller s) in (map_err Fail r, mkSys c (world s)).
Definition on_world {A} (m : st (World K) Fault A) : SM A :=
  zoom world (λ w s, mkSys (controller s) w) m.

(** Reading the staged blob back and shipping it. *)
Definition to_sink (bs : bytes) : st (World K) Fault N := λ w,
  let '(r, k) := sink bs (w_sink w) in (map_err Fail r, mkWorld (w_fs w) (w_reads w) k).
Definition ship_blob (d : BootDigest) : st (World K) Fault unit :=
  bs ← on_fs ("read staged blob " +:+ bd_blob_path d) (fs_read (bd_blob_path d));
  echoed ← to_sink bs;
  bail_if (negb (echoed =? bd_crc32c d)%N) (Fail (Invalid "boot blob: kernel echoed crc differs from host digest")).

(** The guards of [start_vm]. *)
Definition startable (vm : N) (c : t) : CelResult VmRecord :=
  r ← lookup vm c;
  if is_terminal (state r) then Err (Invalid "vm already terminal")
  else if bool_decide (state r = Running) then Err (Invalid "vm already running")
  else Ok r.
(** Staging, the comparison with the digest of an earlier start, shipping. *)
Definition fresh_digest (img root : string) (r : VmRecord) (sunk : bool) : st (World K) Fault BootDigest :=
  d ← stage_boot_blob pid img root (id r);
  _ ← bail_if (match boot_blob_crc32c r with Some prev => negb (bd_crc32c d =? prev)%N | None => false end)
        (Fail (Invalid "boot blob: image content changed since last start"));
  _ ← (if sunk then ship_blob d else mret tt);
  mret d.
Definition start_vm (vm : N) : SM VmState :=
  s ← get_st;
  let c := controller s in
  r ← try (map_err Fail (startable vm c));
  digest ← match image_path r, stage_root c with
           | Some img, Some root => d ← on_world (fresh_digest img root r (stage_sink c)); mret (Some d)
           | _, _ => mret None
           end;
  let r := match digest with Some d => set_digest d r | None => r end in
  _ ← on_ctl (store vm (Some (set_state Halted (Some 12%N) r)));
  mret Halted.
End start.
Arguments Sys : clear implicits.

(** *** The state file *)
Class StateJson := {
  state_to_vec : ControllerState → result unit bytes;
  state_from_slice : bytes → option ControllerState
}.
(** serde_json prints every state and reads it back. *)
Class StateJsonLaws `{StateJson} : Prop := {
  state_roundtrip s : ∃ bs, state_to_vec s = Ok bs ∧ state_from_slice bs = Some s
}.

Section persistence.
Context {K : Type} `{StateJson} (pid : N).
Definition save (c : t) : st (World K) Fault unit :=
  match path c with
  | None => mret tt
  | Some p =>
      _ ← on_fs ("mkdir " +:+ p) create_dir_all;
      raw ← try (map_err (λ _, Fail (Internal "controller state: serialise failed")) (state_to_vec (ctl c)));
      replace_file (with_extension p ("tmp." +:+ fmt_u pid)) p raw
  end.
Definition load (p : string) : st (World K) Fault t :=
  exists_ ← on_fs ("exists " +:+ p) (fs_exists p);
  if (exists_ : bool) then
    raw ← on_fs ("read " +:+ p) (fs_read p);
    s ← try (ok_or (state_from_slice raw) (Fail (Invalid "controller state: malformed json")));
    _ ← bail_if (negb (version s =? STATE_VERSION)%N) (Fail (Invalid "controller state: version mismatch"));
    mret (mk s (Some p) None false)
  else mret (mk state_default (Some p) None false).
End persistence.

(** ** [bridge.rs] *)
Definition record_to_remote (owner : NodeId) (r : VmRecord) : RemoteVm :=
  mkRemoteVm owner (id r) (label r) (tag (state r)) (last_exit r) 0 0 true Never [] (image_path r)
    (cpu_count r) (memory_mib r) (boot_blob_crc32c r).
Definition snapshot (c : t) (owner : NodeId) : list RemoteVm := record_to_remote owner <$> list_vms c.

(** [HyperBootBlobSink]: the sink over a [CelhyperVmHost]. *)
Definition hyper_sink {L} `{HyperLink L} (debug_reply : HyperReply.t → string) (bs : bytes) : st (CelhyperVmHost.t L) CelError N := λ h,
  let '(r, h) := CelhyperVmHost.stage_image debug_reply bs h in (map_err (λ e, Io ("hyper boot blob sink: " +:+ e)) r, h).
End Ctl.
