(* ===== verification/ControllerProofs.v ===== *)
(** * ControllerProofs: what the command line's controller guarantees

    A started VM was staged the first page of its virtual disk; a failed start
    changes nothing in the table; the digest of a VM is for life; the state
    file is replaced atomically. *)
From S2P Require Import Prelude.
From S2P Require Import Text.
From S2P Require Import Errors.
From S2P Require Import Maps.
From S2P Require Import Vault.
From S2P Require Import VaultProofs.
From S2P Require Import Crc.
From S2P Require Import Files.
From S2P Require Import DiskFile.
From S2P Require Import DiskImage.
From S2P Require Import Images.
From S2P Require Import Federation.
From S2P Require Import Hyper.
From S2P Require Import Codecs.
From S2P Require Import Controller.
From Stdlib Require Import Strings.Byte.

(** ** Reading exactly *)
Section exact.
Context {I : Type} `{DiskLaws I}.

Lemma read_exact_loop_spec fuel : ∀ n acc i,
  disk_ok i → (n < N.of_nat fuel)%N → (blen acc + n ≤ virtual_size i)%N →
  bytes_of (disk_byte i) 0 (length acc) = Some acc →
  let '(r, i') := read_exact_loop fuel (blen acc) n acc i in
  disk_ok i' ∧ disk_byte i' = disk_byte i ∧
  match r with
  | Ok bs => blen bs = (blen acc + n)%N ∧ bytes_of (disk_byte i) 0 (length bs) = Some bs
  | Err f => (∃ w, f = Panic w) ∨ disk_works i → unreadable (disk_byte i) 0 (blen acc + n)
  end.
Proof.
  induction fuel as [|fuel IH]; intros n acc i Hok Hf Hsz Hacc; [lia|]. cbn [read_exact_loop].
  destruct (N.eqb_spec n 0) as [->|Hn0]; [split_and!; [done|done|lia|done]|].
  unfold mbind, st_bind. pose proof (law_read (blen acc) n i Hok) as Hr.
  destruct (read_at (blen acc) n i) as [[bs|f] i1]; destruct Hr as (Hok1&Hb1&_&Hs1&Hw1&Hr).
  - destruct Hr as (Hn&Hin&Hbs&Hnil). case_decide as E.
    + split_and!; [done|done|]. intros _. destruct (Hnil E) as [?|[?|Hz]]; [lia|lia|].
      exists (blen acc). split; [lia|done].
    + destruct Hin as [?|Hin]; [done|].
      assert (blen (acc ++ bs) = blen acc + blen bs)%N as Happ by (unfold blen; rewrite length_app; lia).
      assert (0 < blen bs)%N by (destruct bs; [done|unfold blen; simpl; lia]).
      specialize (IH (n - blen bs)%N (acc ++ bs) i1 Hok1). rewrite Happ, Hs1, Hb1 in IH.
      destruct (read_exact_loop fuel (blen acc + blen bs) (n - blen bs) (acc ++ bs) i1) as [r i2].
      destruct IH as (Hok2&Hb2&Hr2); [lia|lia|rewrite length_app; by apply bytes_of_app|].
      split_and!; [done|done|]. replace (blen acc + n)%N with (blen acc + blen bs + (n - blen bs))%N by lia.
      destruct r as [out|f]; [done|]. intros [Hp|Hw]; apply Hr2; auto.
  - split_and!; [done|done|]. intros Hfw.
    assert (read_refused (disk_byte i) (virtual_size i) (blen acc) n) as (p&Hp&Hnone).
    { destruct f as [e|w]; [|exact Hr]. destruct Hfw as [[w Hx]|Hw]; [done|by apply Hr]. }
    exists p. split; [lia|done].
Qed.

Lemma read_exact_spec n i :
  disk_ok i → (n ≤ virtual_size i)%N →
  let '(r, i') := read_exact_at 0 n i in
  disk_ok i' ∧ disk_byte i' = disk_byte i ∧
  match r with
  | Ok bs => bytes_of (disk_byte i) 0 (N.to_nat n) = Some bs
  | Err f => (∃ w, f = Panic w) ∨ disk_works i → unreadable (disk_byte i) 0 n
  end.
Proof.
  intros Hok Hn. unfold read_exact_at.
  pose proof (read_exact_loop_spec (S (N.to_nat n)) n [] i Hok) as Hl.
  change (blen []) with 0%N in Hl. specialize (Hl ltac:(lia) ltac:(lia) eq_refl). rewrite N.add_0_l in Hl.
  destruct (read_exact_loop _ 0 n [] i) as [r i']. destruct Hl as (?&?&Hr). split_and!; [done|done|].
  destruct r as [bs|f]; [|done]. destruct Hr as [Hl Hb]. replace (N.to_nat n) with (length bs); [done|].
  unfold blen in Hl. lia.
Qed.
End exact.

(** The first page of the virtual disk of a file of content [b]: 4096 bytes,
    or all of a smaller disk. *)
Definition is_page (b : bytes) (page : bytes) : Prop :=
  ∃ size disk, file_disk b size disk ∧ (0 < size)%N ∧
    bytes_of disk 0 (N.to_nat (N.min size 4096)) = Some page.

Lemma first_page_Ok path h bs h' :
  file_fits (h_bytes h) → sniffs (h_outcomes h) (h_bytes h) →
  first_page path h = (Ok bs, h') → is_page (h_bytes h) bs.
Proof.
  intros Hfit Hsn Hp. unfold first_page in Hp. apply st_bind_Ok in Hp as (i&h1&Ho&Hp).
  pose proof (open_does (DiskFile.healthy h) (h_bytes h) path Hfit h eq_refl id) as Hd. rewrite Ho in Hd.
  destruct Hd as (_&_&Hs&Hb&_). apply st_bind_Ok in Hp as (u&h2&Hz&Hp). unfold bail_if in Hz.
  destruct (N.eqb_spec (virtual_size i) 0) as [|Hnz]; [done|]. unfold page_of in Hp.
  assert (disk_ok i) as Hok by (cbn; by rewrite Hb).
  pose proof (read_exact_spec (N.min (virtual_size i) BOOT_BLOB_LEN) i Hok ltac:(lia)) as Hr.
  destruct (read_exact_at 0 _ i) as [r i']. destruct Hr as (_&_&Hr). injection Hp as -> _.
  destruct (open_kind _ _ _ _ Ho) as [h3 Hk]. apply detect_sniffs in Hk; [|done].
  destruct (sound_disk i _ Hs Hk) as (disk&Hdisk&Hext).
  exists (virtual_size i), disk. split_and!; [done|lia|]. eapply bytes_of_shift; [|exact Hr].
  intros k Hlt. rewrite <-Hext by lia. cbn [disk_byte any_laws]. by rewrite Hb.
Qed.

Lemma page_length b page : is_page b page → (1 ≤ blen page ≤ BOOT_BLOB_LEN)%N.
Proof.
  intros (size&disk&_&H0&[Hl _]%bytes_of_Some). unfold blen. rewrite Hl. unfold BOOT_BLOB_LEN. lia.
Qed.

(** ** Replacing a file *)
Lemma syscall_files d : fs_files (syscall d).2 = fs_files d.
Proof. unfold syscall, outcome, mbind, st_bind. simpl. by destruct (mjoin _). Qed.
Lemma create_files p d :
  let '(r, d') := file_create p d in
  (∀ q, q ≠ p → fs_files d' !! q = fs_files d !! q) ∧ (is_ok r = true → fs_files d' !! p = Some []).
Proof.
  unfold file_create, mbind, st_bind. pose proof (syscall_files d) as Hs.
  destruct (syscall d) as [[[]|e] d1]; simpl in *; rewrite Hs; [|done].
  split; [intros q Hq; by rewrite lookup_insert_ne|intros _; apply lookup_insert_eq].
Qed.
Lemma write_files p bs d :
  fs_files d !! p = Some [] →
  let '(r, d') := file_write p 0 bs d in
  (∀ q, q ≠ p → fs_files d' !! q = fs_files d !! q) ∧ (is_ok r = true → fs_files d' !! p = Some bs).
Proof.
  intros Hp. unfold file_write, outcome, fs_content, get_st, try, mbind, st_bind. simpl. rewrite Hp. simpl.
  destruct (mjoin _) as [e|]; simpl; (split; [intros q Hq; by rewrite lookup_insert_ne|]); [done|].
  intros _. by rewrite lookup_insert_eq, pwrite_empty.
Qed.
Lemma rename_files src dst b d :
  fs_files d !! src = Some b → src ≠ dst →
  let '(r, d') := fs_rename src dst d in
  if is_ok r then fs_files d' = <[dst := b]> (delete src (fs_files d)) else fs_files d' = fs_files d.
Proof.
  intros Hb Hne. unfold fs_rename, fs_content, get_st, try, mbind, st_bind. pose proof (syscall_files d) as Hs.
  destruct (syscall d) as [[[]|e] d1]; simpl in *; [|done]. rewrite Hs, Hb. simpl. by rewrite Hs.
Qed.
Lemma remove_files p d : ∀ q, q ≠ p → fs_files (fs_remove_file p d).2 !! q = fs_files d !! q.
Proof.
  intros q Hq. unfold fs_remove_file, fs_content, get_st, try, mbind, st_bind. pose proof (syscall_files d) as Hs.
  destruct (syscall d) as [[[]|e] d1]; simpl in *; [|by rewrite Hs]. destruct (fs_files d1 !! p); simpl; rewrite ?Hs; [|done].
  by rewrite lookup_delete_ne.
Qed.

Section world.
Context {K : Type}.
Implicit Types w : World K.

Lemma on_fs_run {A} what (m : st Fs string A) w r d :
  m (w_fs w) = (r, d) →
  on_fs what m w = (map_err (λ e, Fail (Io (what +:+ ": " +:+ e))) r, mkWorld d (w_reads w) (w_sink w)).
Proof. intros Hm. unfold on_fs. by rewrite Hm. Qed.

(** Whatever system call fails, the file at [dst] is the old one or, when the
    answer is [Ok], the new one in full; nothing but the temporary file differs
    otherwise. *)
Lemma replace_file_spec tmp dst bs w :
  tmp ≠ dst →
  let '(r, w') := replace_file tmp dst bs w in
  w_reads w' = w_reads w ∧ w_sink w' = w_sink w ∧
  (∀ p, p ≠ tmp → p ≠ dst → fs_files (w_fs w') !! p = fs_files (w_fs w) !! p) ∧
  match r with
  | Ok _ => fs_files (w_fs w') !! dst = Some bs ∧ fs_files (w_fs w') !! tmp = None
  | Err (Fail _) => fs_files (w_fs w') !! dst = fs_files (w_fs w) !! dst
  | Err (Panic _) => False
  end.
Proof.
  intros Hne. unfold replace_file, mbind, st_bind.
  pose proof (create_files tmp (w_fs w)) as H1. destruct (file_create tmp (w_fs w)) as [r1 d1] eqn:E1.
  rewrite (on_fs_run _ _ _ _ _ E1). destruct H1 as [Hq1 Hp1]. destruct r1 as [[]|e]; cbn [map_err]; [|split_and!; auto].
  specialize (Hp1 eq_refl). set (w1 := mkWorld d1 _ _).
  pose proof (write_files tmp bs d1 Hp1) as H2. destruct (file_write tmp 0 bs d1) as [r2 d2] eqn:E2.
  rewrite (on_fs_run _ _ w1 _ _ E2). destruct H2 as [Hq2 Hp2].
  assert (∀ q, q ≠ tmp → fs_files d2 !! q = fs_files (w_fs w) !! q) as Hq by (intros q Hq; by rewrite Hq2, Hq1).
  destruct r2 as [[]|e]; cbn [map_err]; [|split_and!; auto]. specialize (Hp2 eq_refl). set (w2 := mkWorld d2 _ _).
  pose proof (syscall_files d2) as H3. destruct (syscall d2) as [r3 d3] eqn:E3. simpl in H3.
  rewrite (on_fs_run _ file_sync w2 _ _ E3). destruct r3 as [[]|e]; cbn [map_err]; [|simpl; rewrite H3; split_and!; auto].
  set (w3 := mkWorld d3 _ _). rewrite <-H3 in Hp2, Hq. clear E1 E2 E3.
  pose proof (rename_files tmp dst bs d3 Hp2 Hne) as H4. unfold rename_or_clean.
  destruct (fs_rename tmp dst d3) as [r4 d4] eqn:E4. rewrite (on_fs_run _ _ w3 _ _ E4).
  destruct r4 as [[]|e]; cbn [map_err is_ok] in *.
  - simpl. rewrite H4. split_and!; [done|done| | |].
    + intros p Hpt Hpd. rewrite lookup_insert_ne, lookup_delete_ne by done. auto.
    + apply lookup_insert_eq.
    + rewrite lookup_insert_ne by done. apply lookup_delete_eq.
  - set (w4 := mkWorld d4 _ _). pose proof (remove_files tmp d4) as H5.
    destruct (fs_remove_file tmp d4) as [r5 d5] eqn:E5. rewrite (on_fs_run _ _ w4 _ _ E5). simpl in *.
    rewrite H4 in H5. split_and!; [done|done| |].
    + intros p Hpt Hpd. rewrite H5 by done. auto.
    + rewrite H5 by done. auto.
Qed.
End world.

(** ** Staging *)
Lemma suffix_ne s c t : s +:+ String c t ≠ s.
Proof. intros Heq. apply (f_equal String.length) in Heq. rewrite app_string_length in Heq. simpl in Heq. lia. Qed.
Lemma blob_tmp_ne pid root vm : blob_tmp pid root vm ≠ blob_file root vm.
Proof. unfold blob_tmp. apply suffix_ne. Qed.

Lemma read_files p d :
  let '(r, d') := fs_read p d in
  fs_files d' = fs_files d ∧ match r with Ok b => fs_files d !! p = Some b | Err _ => True end.
Proof.
  unfold fs_read, Files.file_open, file_read_to_end, fs_content, get_st, try, mbind, st_bind.
  pose proof (syscall_files d) as Hs. destruct (syscall d) as [[[]|e] d1]; simpl in *; [|done].
  rewrite Hs. destruct (fs_files d !! p) as [b|] eqn:Hb; simpl; [|by rewrite Hs].
  pose proof (syscall_files d1) as Hs1. destruct (syscall d1) as [[[]|e] d2]; simpl in *; [|by rewrite Hs1, Hs].
  rewrite Hs1, Hs, Hb. by split.
Qed.

Section staging.
Context {K : Type} (pid : N).
Implicit Types w : World K.

(** The files but those of the staging of [vm]. *)
Definition same_elsewhere (root : string) (vm : N) w w' : Prop :=
  ∀ p, p ≠ blob_tmp pid root vm → p ≠ blob_file root vm → fs_files (w_fs w') !! p = fs_files (w_fs w) !! p.

Lemma stage_blob_spec img root vm w :
  (∀ b, fs_files (w_fs w) !! img = Some b → file_fits b ∧ sniffs (w_reads w) b) →
  let '(r, w') := stage_boot_blob pid img root vm w in
  w_sink w' = w_sink w ∧ same_elsewhere root vm w w' ∧
  match r with
  | Ok d => ∃ b page, fs_files (w_fs w) !! img = Some b ∧ is_page b page ∧
      d = mkBootDigest (blen page) (crc32c page) (blob_file root vm) ∧
      fs_files (w_fs w') !! blob_file root vm = Some page
  | Err _ => fs_files (w_fs w') !! blob_file root vm = fs_files (w_fs w) !! blob_file root vm
  end.
Proof.
  intros Hfit. unfold stage_boot_blob, mbind, st_bind, read_page.
  destruct (fs_files (w_fs w) !! img) as [b|] eqn:Hb; [|done].
  pose proof (first_page_Ok img (mkHandle b 0 (w_reads w))) as Hp.
  destruct (first_page img (mkHandle b 0 (w_reads w))) as [[page|e] h]; [|done].
  destruct (Hfit b eq_refl) as [Hf1 Hf2]. specialize (Hp page h Hf1 Hf2 eq_refl). simpl in Hp.
  set (w1 := mkWorld (w_fs w) (h_outcomes h) (w_sink w)).
  pose proof (syscall_files (w_fs w)) as Hm. destruct (syscall (w_fs w)) as [r d] eqn:Em. simpl in Hm.
  rewrite (on_fs_run _ create_dir_all w1 _ _ Em). destruct r as [[]|e]; cbn [map_err]; [|simpl; split_and!; [done|unfold same_elsewhere; intros p _ _; simpl; by rewrite Hm|by rewrite Hm]].
  set (w2 := mkWorld d _ _).
  pose proof (replace_file_spec _ _ page w2 (blob_tmp_ne pid root vm)) as Hr.
  destruct (replace_file _ _ page w2) as [r w3]. destruct Hr as (_&Hk&He&Hr).
  assert (∀ p, fs_files (w_fs w2) !! p = fs_files (w_fs w) !! p) as H2 by (intros p; simpl; by rewrite Hm).
  assert (same_elsewhere root vm w w3) as Hse by (intros p Ht Hd; by rewrite He, H2).
  destruct r as [[]|[e|v]]; simpl; (split_and!; [done|done|]).
  - exists b, page. by destruct Hr.
  - by rewrite Hr, H2.
  - done.
Qed.
End staging.

(** ** Starting *)
Import Ctl.
Section start.
Context {K : Type} (pid : N) (sink : bytes → st K CelError N).
Implicit Types (s : Sys K) (c : Ctl.t) (w : World K).

(** What a successful start did with the image [img]. *)
Definition staged (img root : string) (r : VmRecord) w w' (sunk : bool) (page : bytes) : Prop :=
  (∃ b, fs_files (w_fs w) !! img = Some b ∧ is_page b page) ∧
  fs_files (w_fs w') !! blob_file root (id r) = Some page ∧ same_elsewhere pid root (id r) w w' ∧
  (∀ prev, boot_blob_crc32c r = Some prev → crc32c page = prev) ∧
  if sunk then sink page (w_sink w) = (Ok (crc32c page), w_sink w') else w_sink w' = w_sink w.

Lemma ship_spec d page w :
  fs_files (w_fs w) !! bd_blob_path d = Some page →
  let '(r, w') := ship_blob sink d w in
  fs_files (w_fs w') = fs_files (w_fs w) ∧
  (is_ok r = true → sink page (w_sink w) = (Ok (bd_crc32c d), w_sink w')).
Proof.
  intros Hp. unfold ship_blob, mbind, st_bind. pose proof (read_files (bd_blob_path d) (w_fs w)) as Hr.
  destruct (fs_read (bd_blob_path d) (w_fs w)) as [r d1] eqn:E. rewrite (on_fs_run _ _ w _ _ E).
  destruct Hr as [Hf Hr]. destruct r as [bs|e]; cbn [map_err]; [|done]. rewrite Hp in Hr. injection Hr as <-.
  unfold to_sink. simpl. destruct (sink page (w_sink w)) as [[n|e] k]; simpl; [|done].
  unfold bail_if. destruct (N.eqb_spec n (bd_crc32c d)) as [->|]; simpl; by rewrite Hf.
Qed.

(** The record after a start. *)
Definition started (page : option bytes) (r : VmRecord) (root : string) : VmRecord :=
  set_state Halted (Some 12%N)
    match page with
    | Some page => set_digest (mkBootDigest (blen page) (crc32c page) (blob_file root (id r))) r
    | None => r
    end.

Lemma fresh_spec img root r sunk w :
  (∀ b, fs_files (w_fs w) !! img = Some b → file_fits b ∧ sniffs (w_reads w) b) →
  let '(res, w') := fresh_digest pid sink img root r sunk w in
  match res with
  | Ok d => ∃ page, d = mkBootDigest (blen page) (crc32c page) (blob_file root (id r)) ∧
      staged img root r w w' sunk page
  | Err _ => True
  end.
Proof.
  intros Hfit. unfold fresh_digest, mbind, st_bind. pose proof (stage_blob_spec pid img root (id r) w Hfit) as Hs.
  destruct (stage_boot_blob pid img root (id r) w) as [[d|e] w1]; [|done].
  destruct Hs as (Hk&He&b&page&Hb&Hp&->&Hf). unfold bail_if.
  set (drift := match boot_blob_crc32c r with Some _ => _ | None => _ end).
  destruct drift eqn:Hd; [done|]. simpl.
  assert (∀ prev, boot_blob_crc32c r = Some prev → crc32c page = prev) as Hprev.
  { intros prev Hprev. unfold drift in Hd. rewrite Hprev in Hd. simpl in Hd. by apply negb_false_iff, N.eqb_eq in Hd. }
  destruct sunk; simpl.
  - set (d := mkBootDigest _ _ _). pose proof (ship_spec d page w1 Hf) as Hship.
    destruct (ship_blob sink d w1) as [[[]|e] w2]; [|done]. destruct Hship as [Hfs Hsink].
    rewrite Hk in Hsink. exists page. split; [done|]. split_and!; [by exists b|by rewrite Hfs| |done|by apply Hsink].
    intros p Ht Hb'. rewrite Hfs. by apply He.
  - exists page. split; [done|]. by split_and!; [by exists b|..].
Qed.

Lemma startable_Ok vm c r : startable vm c = Ok r → lookup vm c = Ok r ∧ state r = Created.
Proof.
  unfold startable. intros (r'&Hl&Hr)%result_bind_Ok. destruct (is_terminal (state r')) eqn:Ht; [done|].
  case_bool_decide as Hrun; [done|]. injection Hr as <-. split; [done|]. by destruct (state r').
Qed.

(** The controller after a start that staged [page]. *)
Definition after_start (vm : N) (r : VmRecord) (page : option bytes) c : Ctl.t :=
  set_slots (<[N.to_nat vm := Some (started page r (default EmptyString (stage_root c)))]> (slots (ctl c))) c.

(** C9: a VM starts on the first page of its disk, or not at all.  When
    [start_vm] succeeds for a VM with an image and a stage root, the file that
    was staged, recorded by length and CRC-32C, and (with a sink) accepted by
    the kernel is exactly the first 4096 bytes of the virtual disk of the image
    file, or all of a smaller disk: the disk that the file's first bytes, header
    and tables describe, whatever the format and however its reads are cut (but
    for the read of the magic number, and for a file below 2^63 bytes); it has
    the checksum of the last start, if there was one; only the VM's record and
    its staging files changed.  A start that fails, by whatever file, image or
    sink error, changes nothing in the table. *)
Theorem start_boots_disk vm s :
  (∀ p b, fs_files (w_fs (world s)) !! p = Some b → file_fits b ∧ sniffs (w_reads (world s)) b) →
  let '(res, s') := start_vm pid sink vm s in
  let c := controller s in
  match res with
  | Err _ => controller s' = c
  | Ok final => final = Halted ∧ ∃ r, lookup vm c = Ok r ∧ state r = Created ∧
      match image_path r, stage_root c with
      | Some img, Some root => ∃ page, (1 ≤ blen page ≤ 4096)%N ∧
          staged img root r (world s) (world s') (stage_sink c) page ∧
          controller s' = after_start vm r (Some page) c
      | _, _ => world s' = world s ∧ controller s' = after_start vm r None c
      end
  end.
Proof.
  intros Hfit. unfold start_vm, get_st, try. unfold mbind at 1, st_bind at 1. cbv beta iota zeta.
  unfold mbind at 1, st_bind at 1. destruct (startable vm (controller s)) as [r|e] eqn:Hst; simpl; [|done].
  apply startable_Ok in Hst as [Hl Hc]. destruct (image_path r) as [img|] eqn:Hi;
    [destruct (stage_root (controller s)) as [root|] eqn:Hroot|].
  - unfold mbind, st_bind, on_world, zoom. pose proof (fresh_spec img root r (stage_sink (controller s)) (world s) (Hfit img)) as Hf.
    destruct (fresh_digest pid sink img root r _ (world s)) as [[d|e] w1]; simpl; [|done].
    destruct Hf as (page&->&Hpage). split; [done|]. exists r. rewrite Hi. split_and!; [done|done|].
    exists page. split; [|split; [done|]].
    + destruct Hpage as ((b&_&Hp)&_). exact (page_length _ _ Hp).
    + unfold after_start, started. by rewrite Hroot.
  - simpl. split; [done|]. exists r. by rewrite Hi.
  - simpl. split; [done|]. exists r. by rewrite Hi.
Qed.
End start.

(** ** The table *)

(** What an operation can make of the slot [i]; [del] for [delete_vm]. *)
Inductive rec_step (del : bool) (i : nat) : option VmRecord → option VmRecord → Prop :=
| rec_same o : rec_step del i o o
| rec_create spec : (len (sp_label spec) ≤ 32)%N → rec_step del i None (Some (record_of (N.of_nat i) spec))
| rec_start r d :
    state r = Created →
    (∀ d' prev, d = Some d' → boot_blob_crc32c r = Some prev → bd_crc32c d' = prev) →
    rec_step del i (Some r) (Some (set_state Halted (Some 12%N) (from_option (λ d, set_digest d r) r d)))
| rec_reset r : is_terminal (state r) = true → rec_step del i (Some r) (Some (set_state Created None r))
| rec_stop r : is_terminal (state r) = false → rec_step del i (Some r) (Some (set_state Stopped (last_exit r) r))
| rec_delete r : del = true → is_terminal (state r) = true → rec_step del i (Some r) None.

Definition slots_step (del : bool) (l l' : list (option VmRecord)) : Prop :=
  length l' = length l ∧ ∀ i o', l' !! i = Some o' → ∃ o, l !! i = Some o ∧ rec_step del i o o'.

Lemma slots_step_refl del l : slots_step del l l.
Proof. split; [done|]. intros i o' Ho. exists o'. split; [done|constructor]. Qed.
Lemma slots_step_insert del l j o o' : l !! j = Some o → rec_step del j o o' → slots_step del l (<[j := o']> l).
Proof.
  intros Hj Hst. split; [by rewrite length_insert|]. intros i x Hi.
  destruct (decide (i = j)) as [->|Hne].
  - rewrite list_lookup_insert_eq in Hi by (by apply lookup_lt_Some in Hj). injection Hi as <-. eauto.
  - rewrite list_lookup_insert_ne in Hi by done. exists x. split; [done|constructor].
Qed.

Lemma record_lookup_Ok vm c r : lookup vm c = Ok r → slots (ctl c) !! N.to_nat vm = Some (Some r).
Proof.
  unfold lookup, slot_index. intros (i&Hi&Hr)%result_bind_Ok. case_match; [done|]. injection Hi as <-.
  apply ok_or_Ok in Hr. by destruct (slots (ctl c) !! N.to_nat vm) as [[]|]; simplify_eq/=.
Qed.
Lemma first_free_spec l : ∀ i k, Ctl.first_free l i = Some k → ∃ j, k = i + j ∧ l !! j = Some None.
Proof.
  induction l as [|[r|] l IH]; intros i k; simpl; [done| |].
  - intros (j&->&Hj)%IH. exists (S j). split; [lia|done].
  - intros [= <-]. exists 0%nat. split; [lia|done].
Qed.

Lemma create_step spec c : slots_step false (slots (ctl c)) (slots (ctl (create_vm_with spec c).2)).
Proof.
  unfold create_vm_with, bail_if, store, get_st, modify, mbind, st_bind.
  destruct (N.ltb_spec 32 (len (sp_label spec))); [apply slots_step_refl|]. simpl.
  do 2 (match goal with |- context [if ?b then mthrow _ else _] => destruct b end; [apply slots_step_refl|]; simpl).
  destruct (Ctl.first_free (slots (ctl c)) 0) as [k|] eqn:Hf; [|apply slots_step_refl]. simpl.
  apply first_free_spec in Hf as (j&->&Hj). rewrite Nat2N.id. simpl.
  eapply slots_step_insert; [done|by constructor].
Qed.

Lemma reset_step vm c : slots_step false (slots (ctl c)) (slots (ctl (reset_vm vm c).2)).
Proof.
  unfold reset_vm, bail_if, store, get_st, try, modify, mbind, st_bind.
  destruct (lookup vm c) as [r|e] eqn:Hl; [|apply slots_step_refl]. simpl.
  destruct (is_terminal (state r)) eqn:Ht; [|apply slots_step_refl]. simpl.
  eapply slots_step_insert; [by apply record_lookup_Ok|by constructor].
Qed.
Lemma stop_step vm c : slots_step false (slots (ctl c)) (slots (ctl (stop_vm vm c).2)).
Proof.
  unfold stop_vm, store, get_st, try, modify, mbind, st_bind.
  destruct (lookup vm c) as [r|e] eqn:Hl; [|apply slots_step_refl]. simpl.
  eapply slots_step_insert; [by apply record_lookup_Ok|]. destruct (is_terminal (state r)) eqn:Ht; [|by constructor].
  replace (set_state (state r) (last_exit r) r) with r by (by destruct r). constructor.
Qed.
Lemma delete_step vm c : slots_step true (slots (ctl c)) (slots (ctl (delete_vm vm c).2)).
Proof.
  unfold delete_vm, slot_index, store, get_st, try, modify, mbind, st_bind.
  destruct (CTL_MAX_VMS <=? vm)%N; [apply slots_step_refl|]. simpl.
  destruct (slots (ctl c) !! N.to_nat vm) as [[r|]|] eqn:Hr; simpl; [|apply slots_step_refl..].
  destruct (is_terminal (state r)) eqn:Ht; [|apply slots_step_refl]. simpl.
  eapply slots_step_insert; [done|by constructor].
Qed.

Section ops.
Context {K : Type} (pid : N) (sink : bytes → st K CelError N).
Implicit Types (s : Sys K).

Lemma fresh_digest_prev img root r sunk w d w' :
  fresh_digest pid sink img root r sunk w = (Ok d, w') →
  (stage_boot_blob pid img root (id r) w).1 = Ok d ∧ ∀ prev, boot_blob_crc32c r = Some prev → bd_crc32c d = prev.
Proof.
  unfold fresh_digest. intros (d'&w1&Hs&Hf)%st_bind_Ok. apply st_bind_Ok in Hf as (u&w2&Hb&Hf).
  apply st_bind_Ok in Hf as (u2&w3&_&Hf). injection Hf as <- _. rewrite Hs. split; [done|].
  intros prev Hp. unfold bail_if in Hb. rewrite Hp in Hb. destruct (N.eqb_spec (bd_crc32c d') prev); [done|].
  discriminate Hb.
Qed.

Lemma start_step vm s : slots_step false (slots (ctl (controller s))) (slots (ctl (controller (start_vm pid sink vm s).2))).
Proof.
  unfold start_vm, get_st, try. unfold mbind at 1, st_bind at 1. cbv beta iota zeta.
  unfold mbind at 1, st_bind at 1. destruct (startable vm (controller s)) as [r|e] eqn:Hst; simpl; [|apply slots_step_refl].
  apply startable_Ok in Hst as [Hl%record_lookup_Ok Hc].
  destruct (image_path r) as [img|]; [destruct (stage_root (controller s)) as [root|]|].
  - unfold mbind, st_bind, on_world, zoom.
    pose proof (fresh_digest_prev img root r (stage_sink (controller s)) (world s)) as Hf.
    destruct (fresh_digest pid sink img root r _ (world s)) as [[d|e] w1]; simpl; [|apply slots_step_refl].
    specialize (Hf d w1 eq_refl) as [_ Hf]. eapply slots_step_insert; [done|].
    apply (rec_start _ _ r (Some d)); [done|]. intros d' prev [= <-]. apply Hf.
  - simpl. eapply slots_step_insert; [done|]. by apply (rec_start _ _ r None).
  - simpl. eapply slots_step_insert; [done|]. by apply (rec_start _ _ r None).
Qed.

(** The operations of a controller. *)
Inductive op := OpCreate (spec : VmSpec) | OpStart (vm : N) | OpReset (vm : N) | OpStop (vm : N) | OpDelete (vm : N).
Definition run_op (o : op) s : Sys K :=
  match o with
  | OpCreate spec => (on_ctl (create_vm_with spec) s).2
  | OpStart vm => (start_vm pid sink vm s).2
  | OpReset vm => (on_ctl (reset_vm vm) s).2
  | OpStop vm => (on_ctl (stop_vm vm) s).2
  | OpDelete vm => (on_ctl (delete_vm vm) s).2
  end.
Definition run_ops (l : list op) s : Sys K := foldl (λ s o, run_op o s) s l.

Lemma on_ctl_controller {A} (m : st Ctl.t CelError A) s : controller (on_ctl m s).2 = (m (controller s)).2.
Proof. unfold on_ctl. by destruct (m _). Qed.
Definition is_delete (o : op) : bool := match o with OpDelete _ => true | _ => false end.
Lemma run_op_step o s : slots_step (is_delete o) (slots (ctl (controller s))) (slots (ctl (controller (run_op o s)))).
Proof.
  destruct o; simpl; rewrite ?on_ctl_controller;
    auto using create_step, reset_step, stop_step, delete_step, start_step.
Qed.

(** The table is well formed: a record knows its slot, and has its digest
    whole or not at all; no VM is seen running. *)
Record rec_ok (i : nat) (r : VmRecord) : Prop := {
  rec_id : id r = N.of_nat i;
  rec_label : (len (label r) ≤ 32)%N;
  rec_digest : is_Some (boot_blob_len r) ↔ is_Some (boot_blob_crc32c r);
  rec_state : state r = Created ∧ last_exit r = None ∨ state r = Halted ∧ last_exit r = Some 12%N ∨
              state r = Stopped ∧ last_exit r = None
}.
Definition table_ok (l : list (option VmRecord)) : Prop :=
  length l = N.to_nat CTL_MAX_VMS ∧ ∀ i r, l !! i = Some (Some r) → rec_ok i r.

Lemma rec_step_ok del i o r : (∀ r0, o = Some r0 → rec_ok i r0) → rec_step del i o (Some r) → rec_ok i r.
Proof.
  intros Ho Hst. inversion Hst as [|spec Hl|r0 d Hc|r0 Ht|r0 Ht|]; subst; [by apply Ho|..].
  - split; simpl; [done|done| |by left]. by split; intros [].
  - destruct (Ho r0 eq_refl) as [? ? ? ?]. split; destruct d; simpl; try done; auto.
  - destruct (Ho r0 eq_refl) as [? ? ? ?]. split; simpl; auto.
  - destruct (Ho r0 eq_refl) as [? ? ? Hs]. split; simpl; auto. right. right. split; [done|].
    destruct Hs as [[_ ?]|[[Hh _]|[Hh _]]]; [done|by rewrite Hh in Ht..].
Qed.

Lemma slots_step_ok del l l' : table_ok l → slots_step del l l' → table_ok l'.
Proof.
  intros [Hlen Hok] [Hlen' Hst]. split; [congruence|]. intros i r Hr.
  destruct (Hst i _ Hr) as (o&Ho&Hstep). eapply rec_step_ok; [|exact Hstep]. intros r0 ->. by apply Hok.
Qed.

Lemma run_ops_ok l : ∀ s, table_ok (slots (ctl (controller s))) → table_ok (slots (ctl (controller (run_ops l s)))).
Proof.
  induction l as [|o l IH]; intros s Hs; [done|]. simpl. apply IH. by eapply slots_step_ok, run_op_step.
Qed.
Lemma table_ok_new : table_ok (slots state_default).
Proof. split; [done|]. intros i r Hr. by apply lookup_replicate_1 in Hr as [? _]. Qed.

(** What a VM keeps for life. *)
Definition same_vm (r r' : VmRecord) : Prop :=
  id r' = id r ∧ label r' = label r ∧ image_path r' = image_path r ∧ cpu_count r' = cpu_count r ∧
  memory_mib r' = memory_mib r ∧ ∀ c, boot_blob_crc32c r = Some c → boot_blob_crc32c r' = Some c.

Lemma rec_step_same i r o' : rec_step false i (Some r) o' → ∃ r', o' = Some r' ∧ same_vm r r'.
Proof.
  intros Hst. inversion Hst as [|spec Hl|r0 d Hc Hd|r0 Ht|r0 Ht|]; subst; [| | | |done].
  - exists r. by split_and!.
  - eexists. split; [done|]. unfold same_vm. destruct d as [d|]; simpl; [|by split_and!]. split_and!; [done..|].
    intros c Hcc. f_equal. by apply (Hd d c).
  - eexists. split; [done|]. by unfold same_vm.
  - eexists. split; [done|]. by unfold same_vm.
Qed.

Lemma delete_other vm i s : vm ≠ N.of_nat i →
  slots (ctl (controller (run_op (OpDelete vm) s))) !! i = slots (ctl (controller s)) !! i.
Proof.
  intros Hne. simpl. rewrite on_ctl_controller. unfold delete_vm, slot_index, store, get_st, try, modify, mbind, st_bind.
  destruct (CTL_MAX_VMS <=? vm)%N; [done|]. simpl. destruct (mjoin _) as [r|]; [|done].
  destruct (is_terminal (state r)); [|done]. simpl. rewrite list_lookup_insert_ne; [done|]. lia.
Qed.

Lemma run_op_keeps o s i r :
  slots (ctl (controller s)) !! i = Some (Some r) → o ≠ OpDelete (N.of_nat i) →
  ∃ r', slots (ctl (controller (run_op o s))) !! i = Some (Some r') ∧ same_vm r r'.
Proof.
  intros Hr Hne. pose proof (run_op_step o s) as [Hlen Hst]. destruct (is_delete o) eqn:Hd.
  - destruct o as [| | | |vm]; try done. exists r. rewrite delete_other by congruence. by split_and!.
  - destruct (lookup_lt_is_Some_2 (slots (ctl (controller (run_op o s)))) i) as [o' Ho'].
    { rewrite Hlen. by apply lookup_lt_Some in Hr. }
    destruct (Hst i o' Ho') as (o0&Ho0&Hstep). rewrite Hr in Ho0. injection Ho0 as <-.
    apply rec_step_same in Hstep as (r'&->&Hs). by exists r'.
Qed.

Lemma same_vm_trans r1 r2 r3 : same_vm r1 r2 → same_vm r2 r3 → same_vm r1 r3.
Proof. intros (?&?&?&?&?&Hc1) (?&?&?&?&?&Hc2). unfold same_vm. split_and!; try congruence. auto. Qed.

Lemma run_ops_keep l : ∀ s i r,
  slots (ctl (controller s)) !! i = Some (Some r) →
  OpDelete (N.of_nat i) ∉ l → ∃ r', slots (ctl (controller (run_ops l s))) !! i = Some (Some r') ∧ same_vm r r'.
Proof.
  induction l as [|o l IH]; intros s i r Hr Hl; simpl; [exists r; by split_and!|].
  apply not_elem_of_cons in Hl as [Hne Hl].
  destruct (run_op_keeps o s i r Hr) as (r1&Hr1&Hs1); [congruence|].
  destruct (IH (run_op o s) i r1) as (r2&Hr2&Hs2); [done|done|].
  exists r2. split; [done|by eapply same_vm_trans].
Qed.

(** The digest of a VM is for life.  From an empty table, through any
    operations with any outcome, the table stays well formed; and once a VM
    with an image has a boot digest, it keeps its image, resources and digest
    through every stop, reset and start until it is deleted, so that every
    later start of it is refused unless the page staged then has the same
    checksum. *)
Theorem digest_for_life before after s i r crc img root :
  table_ok (slots (ctl (controller s))) →
  let s1 := run_ops before s in
  slots (ctl (controller s1)) !! i = Some (Some r) → boot_blob_crc32c r = Some crc → image_path r = Some img →
  OpDelete (N.of_nat i) ∉ after →
  let s2 := run_ops after s1 in
  table_ok (slots (ctl (controller s2))) ∧
  ∃ r', lookup (N.of_nat i) (controller s2) = Ok r' ∧ same_vm r r' ∧
    (stage_root (controller s2) = Some root → is_ok (start_vm pid sink (N.of_nat i) s2).1 = true →
     ∃ d, (stage_boot_blob pid img root (N.of_nat i) (world s2)).1 = Ok d ∧ bd_crc32c d = crc).
Proof.
  intros Hok s1 Hr Hc Hi Hdel s2. pose proof (run_ops_ok before s Hok) as Hok1.
  pose proof (run_ops_ok after s1 Hok1) as Hok2. split; [done|].
  destruct (run_ops_keep after s1 i r Hr Hdel) as (r'&Hr'&Hsame). exists r'. fold s2 in Hr', Hok2.
  assert (i < 4) as Hi4 by (apply lookup_lt_Some in Hr'; by rewrite (proj1 Hok2) in Hr').
  assert (lookup (N.of_nat i) (controller s2) = Ok r') as Hl.
  { unfold lookup, slot_index, mbind, result_bind. destruct (N.leb_spec CTL_MAX_VMS (N.of_nat i)); [unfold CTL_MAX_VMS in *; lia|].
    by rewrite Nat2N.id, Hr'. }
  split; [done|]. split; [done|]. intros Hroot Hstart. destruct Hsame as (Hid&_&Him&_&_&Hcrc).
  unfold start_vm, get_st, try in Hstart. unfold mbind at 1, st_bind at 1 in Hstart. cbv beta iota zeta in Hstart.
  unfold mbind at 1, st_bind at 1 in Hstart. destruct (startable (N.of_nat i) (controller s2)) as [r2|e] eqn:Hst; [|done].
  apply startable_Ok in Hst as [Hl2 _]. rewrite Hl in Hl2. injection Hl2 as <-.
  cbn [map_err] in Hstart. rewrite Him, Hi, Hroot in Hstart. unfold mbind, st_bind, on_world, zoom in Hstart.
  pose proof (fresh_digest_prev img root r' (stage_sink (controller s2)) (world s2)) as Hf.
  destruct (fresh_digest pid sink img root r' _ (world s2)) as [[d|e] w1]; [|done].
  destruct (Hf d w1 eq_refl) as [Hd Hp]. rewrite (rec_id _ _ (proj2 Hok2 _ _ Hr')) in Hd.
  exists d. split; [done|]. by apply Hp, Hcrc.
Qed.
End ops.

(** ** The state file *)
Lemma rsplit_once_app c s l r : rsplit_once c s = Some (l, r) → s = l +:+ String c r ∧ contains_char c r = false.
Proof.
  revert l r. induction s as [|a s IH]; intros l r; simpl; [done|].
  destruct (rsplit_once c s) as [[l' r']|] eqn:E.
  - intros [= <- <-]. destruct (IH _ _ eq_refl) as [-> Hr]. by split.
  - destruct (Ascii.eqb_spec a c) as [->|]; [|done]. intros [= <- <-]. split; [done|]. clear IH.
    induction s as [|b s IH]; [done|]. simpl in E. rewrite contains_char_cons.
    destruct (rsplit_once c s) as [[l r]|]; [done|]. rewrite IH by done.
    destruct (Ascii.eqb_spec b c) as [->|Hne]; [done|]. apply orb_false_iff. split; [|done].
    by apply Ascii.eqb_neq.
Qed.

(** A new extension that holds a dot is another name. *)
Lemma with_extension_ne p ext : contains_char "." ext = true → with_extension p ext ≠ p.
Proof.
  intros Hext. unfold with_extension.
  assert (∀ dir name, p = dir +:+ name →
    dir +:+ match rsplit_once "." name with Some (EmptyString, _) | None => name | Some (l, _) => l end +:+ "." +:+ ext ≠ p) as Hgen.
  { intros dir name ->. intros Heq%app_string_inj_l.
    destruct (rsplit_once "." name) as [[[|c l] r]|] eqn:E; [by apply (suffix_ne name "." ext)| |by apply (suffix_ne name "." ext)].
    apply rsplit_once_app in E as [Hn Hr]. rewrite Hn in Heq at 1.
    apply app_string_inj_l in Heq. rewrite app_string_cons, app_string_nil_l in Heq.
    injection Heq as Heq. congruence. }
  destruct (rsplit_once "/" p) as [[d n]|] eqn:E.
  - apply rsplit_once_app in E as [Hp _]. apply Hgen. rewrite Hp at 1. by rewrite app_string_assoc.
  - by apply (Hgen EmptyString).
Qed.

(** Saving the table is all or nothing, and what was saved is read back.
    Whichever system call fails, [save] leaves the state file as it was or
    replaces it by the whole new state; after a save that succeeded the next
    [load] of a working disk returns the same table, and no temporary file is
    left. *)
Lemma state_file_atomic {K} `{StateJsonLaws} pid c p (w : World K) :
  path c = Some p → version (ctl c) = STATE_VERSION →
  let '(r, w') := save pid c w in
  (∀ q, q ≠ p → q ≠ with_extension p ("tmp." +:+ fmt_u pid) → fs_files (w_fs w') !! q = fs_files (w_fs w) !! q) ∧
  match r with
  | Ok _ =>
      fs_files (w_fs w') !! with_extension p ("tmp." +:+ fmt_u pid) = None ∧
      (load p (mkWorld (good (fs_files (w_fs w'))) (w_reads w') (w_sink w'))).1 = Ok (mk (ctl c) (Some p) None false)
  | Err _ => fs_files (w_fs w') !! p = fs_files (w_fs w) !! p
  end.
Proof.
  intros Hp Hv. unfold save. rewrite Hp. set (tmp := with_extension p _).
  assert (tmp ≠ p) as Hne by (by apply with_extension_ne).
  unfold mbind, st_bind. pose proof (syscall_files (w_fs w)) as Hm. destruct (syscall (w_fs w)) as [r d] eqn:Em. simpl in Hm.
  rewrite (on_fs_run _ create_dir_all w _ _ Em). destruct r as [[]|e]; cbn [map_err]; [|simpl; by rewrite Hm].
  destruct (state_roundtrip (ctl c)) as (raw&Henc&Hdec). unfold try. rewrite Henc. cbn [map_err].
  set (w1 := mkWorld d _ _). pose proof (replace_file_spec tmp p raw w1 Hne) as Hr.
  destruct (replace_file tmp p raw w1) as [r w2]. destruct Hr as (_&_&He&Hr). simpl in He, Hr. rewrite Hm in He, Hr.
  split; [intros q Hq Hqt; by rewrite He|]. destruct r as [[]|[e|v]]; [|done|done]. destruct Hr as [Hf Ht].
  split; [done|]. unfold load, mbind, st_bind.
  rewrite (on_fs_run _ _ (mkWorld (good (fs_files (w_fs w2))) (w_reads w2) (w_sink w2)) _ _ (good_exists p _)).
  simpl. rewrite Hf. rewrite bool_decide_eq_true_2 by done.
  rewrite (on_fs_run _ _ (mkWorld (good (fs_files (w_fs w2))) (w_reads w2) (w_sink w2)) _ _ (good_read p _ raw Hf)).
  simpl. unfold try. rewrite Hdec. simpl. unfold bail_if. rewrite Hv. done.
Qed.

(** ** Witnesses *)
#[export] Instance record_eq_dec : EqDecision VmRecord.
Proof. solve_decision. Defined.
#[export] Instance ctl_state_eq_dec : EqDecision ControllerState.
Proof. solve_decision. Defined.
Module CtlWitness.
Definition state_num (s : VmState) : N :=
  match s with Created => 0 | Running => 1 | Halted => 2 | Stopped => 3 | Faulted => 4 end.
Definition num_state (n : N) : VmState :=
  match n with 0 => Created | 1 => Running | 2 => Halted | 3 => Stopped | _ => Faulted end%N.
#[export] Instance record_countable : Countable VmRecord.
Proof.
  refine (inj_countable' (λ r, (id r, state_num (state r), last_exit r, label r, image_path r,
      (cpu_count r, memory_mib r, boot_blob_len r, boot_blob_crc32c r)))
    (λ '(i, s, e, l, p, (c, m, n, k)), mkVmRecord i (num_state s) e l p c m n k) _).
  by intros [? [] ? ? ? ? ? ? ?].
Defined.
#[export] Instance state_countable : Countable ControllerState.
Proof. refine (inj_countable' (λ s, (version s, slots s)) (λ '(v, l), mkState v l) _). by intros []. Defined.
#[export] Instance json : StateJson := {|
  state_to_vec s := Ok (String.list_byte_of_string (print_bits s));
  state_from_slice b := parse_bits (String.string_of_list_byte b)
|}.
#[export] Instance json_laws : StateJsonLaws.
Proof.
  constructor. intros s. exists (String.list_byte_of_string (print_bits s)). split; [done|].
  unfold state_from_slice, json. by rewrite String.string_of_list_byte_of_string, parse_print_bits.
Defined.

(** A sink that keeps what it is sent. *)
Definition sink (bs : bytes) : st (list bytes) CelError N := λ k, (Ok (crc32c bs), k ++ [bs]).
Definition spec : VmSpec := mkVmSpec "vm" (Some "d.qcow2") None (Some 256%N).
Definition files : gmap string bytes := {["d.qcow2" := ImageWitness.q_file]}.
Definition start_state : Sys (list bytes) :=
  mkSys (with_stage_sink (with_stage_root "stage" in_memory)) (mkWorld (mkFs files [None; None]) [None; Some (Short 9)] []).
Definition one_vm : Sys (list bytes) := run_ops 7 sink [OpCreate spec] start_state.
Definition page : bytes := replicate 512 x42 ++ replicate 188 x00.
End CtlWitness.
#[local] Existing Instances CtlWitness.json CtlWitness.json_laws.

Lemma start_boots_disk_witness :
  let '(res, s') := start_vm 7 CtlWitness.sink 0 CtlWitness.one_vm in
  res = Ok Halted ∧ w_sink (world s') = [CtlWitness.page] ∧
  ∃ r, lookup 0 (controller CtlWitness.one_vm) = Ok r ∧ state r = Created.
Proof.
  pose proof (start_boots_disk 7 CtlWitness.sink 0 CtlWitness.one_vm) as Hs.
  assert (∀ p b, fs_files (w_fs (world CtlWitness.one_vm)) !! p = Some b →
            file_fits b ∧ sniffs (w_reads (world CtlWitness.one_vm)) b) as Hfit.
  { intros p b Hb. change (CtlWitness.files !! p = Some b) in Hb.
    unfold CtlWitness.files in Hb. apply lookup_singleton_Some in Hb as [_ <-].
    split; [by vm_compute|]. intros k Hk. vm_compute in Hk. injection Hk as <-. left. lia. }
  specialize (Hs Hfit). clear Hfit.
  assert ((start_vm 7 CtlWitness.sink 0 CtlWitness.one_vm).1 = Ok Halted) as Hr by (by vm_compute).
  assert (w_sink (world (start_vm 7 CtlWitness.sink 0 CtlWitness.one_vm).2) = [CtlWitness.page]) as Hk by (by vm_compute).
  destruct (start_vm 7 CtlWitness.sink 0 CtlWitness.one_vm) as [res s']. simpl in Hr, Hk. subst res.
  destruct Hs as (_&r&Hl&Hc&_). split_and!; [done|done|]. exists r. split; [exact Hl|exact Hc].
Defined.

Lemma digest_for_life_witness :
  let s := run_ops 7 CtlWitness.sink [OpStop 0; OpReset 0; OpStart 1]
             (run_ops 7 CtlWitness.sink [OpCreate CtlWitness.spec; OpStart 0] CtlWitness.start_state) in
  table_ok (slots (ctl (controller s))) ∧
  ∃ d, (stage_boot_blob 7 "d.qcow2" "stage" 0 (world s)).1 = Ok d ∧ bd_crc32c d = crc32c CtlWitness.page.
Proof.
  destruct (digest_for_life 7 CtlWitness.sink [OpCreate CtlWitness.spec; OpStart 0] [OpStop 0; OpReset 0; OpStart 1]
    CtlWitness.start_state 0
    (mkVmRecord 0 Halted (Some 12%N) "vm" (Some "d.qcow2") None (Some 256%N) (Some 700%N) (Some (crc32c CtlWitness.page)))
    (crc32c CtlWitness.page) "d.qcow2" "stage" table_ok_new) as [Hok (r'&_&_&Hstart)].
  - by vm_compute.
  - done.
  - done.
  - rewrite !not_elem_of_cons. split_and!; [discriminate|discriminate|discriminate|apply not_elem_of_nil].
  - split; [exact Hok|]. apply Hstart; by vm_compute.
Defined.

Lemma state_file_atomic_witness :
  let c := mk (ctl (controller CtlWitness.one_vm)) (Some "build/celctl-state.json") None false in
  let w : World unit := mkWorld (mkFs ∅ []) [] tt in
  is_ok (save 7 c w).1 = true ∧
  fs_files (w_fs (save 7 c w).2) !! "build/celctl-state.tmp.7" = None.
Proof.
  intros c w. assert (is_ok (save 7 c w).1 = true) as Hok by (by vm_compute). split; [exact Hok|].
  pose proof (state_file_atomic 7 c "build/celctl-state.json" w eq_refl eq_refl) as Hs.
  destruct (save 7 c w) as [[r|e] w']; [|discriminate Hok]. apply Hs.
Defined.

(** The new page is renamed over the staged one before it is compared: a start
    refused because the image changed leaves the changed page staged. *)
Example refused_start_replaces_blob :
  let s := run_ops 7 CtlWitness.sink [OpStart 0; OpReset 0] CtlWitness.one_vm in
  let changed := mkWorld (mkFs (<["d.qcow2" := replicate 600 x41]> (fs_files (w_fs (world s)))) []) [] (w_sink (world s)) in
  let '(r, s') := start_vm 7 CtlWitness.sink 0 (mkSys (controller s) changed) in
  r = Err (Fail (Invalid "boot blob: image content changed since last start")) ∧
  fs_files (w_fs changed) !! "stage/vm-0/boot.blob" = Some CtlWitness.page ∧
  fs_files (w_fs (world s')) !! "stage/vm-0/boot.blob" = Some (replicate 600 x41).
Proof. by vm_compute. Qed.

(** Only the first page counts: an image changed behind it starts as before. *)
Example change_behind_first_page :
  let img n := replicate 4096 x41 ++ replicate 4 n in
  let w (f : Fs) n : World (list bytes) := mkWorld (mkFs (<["d.raw" := img n]> (fs_files f)) []) [] [] in
  let c := with_stage_root "stage" (create_vm_with (mkVmSpec "vm" (Some "d.raw") None None) in_memory).2 in
  let s := run_ops 7 CtlWitness.sink [OpStart 0; OpReset 0] (mkSys c (w (good ∅) x00)) in
  (start_vm 7 CtlWitness.sink 0 (mkSys (controller s) (w (w_fs (world s)) xff))).1 = Ok Halted.
Proof. by vm_compute. Qed.
