(* ===== verification/Caps.v ===== *)
(** * Caps: [celtenancy::caps]

    The tenancy-layer capability bits, their tag syntax, the projection to
    [celmesh::Capabilities] and the attenuation check. *)
From S2P Require Import Prelude.
From S2P Require Import Text.
From S2P Require Import Errors.
From S2P Require Import Capabilities.
Local Open Scope N_scope.

Module TenantCaps.

Record t := mk { bits : N }.   (** u32 *)
#[export] Instance t_eq_dec : EqDecision t.
Proof. solve_decision. Defined.

Definition NONE := mk 0.
Definition VM_LIFECYCLE_READ := mk (N.shiftl 1 0).
Definition VM_LIFECYCLE_WRITE := mk (N.shiftl 1 1).
Definition VOLUME_READ := mk (N.shiftl 1 2).
Definition VOLUME_WRITE := mk (N.shiftl 1 3).
Definition VOLUME_ATTACH := mk (N.shiftl 1 4).
Definition SNAPSHOT_READ := mk (N.shiftl 1 5).
Definition SNAPSHOT_WRITE := mk (N.shiftl 1 6).
Definition NETWORK_READ := mk (N.shiftl 1 7).
Definition NETWORK_WRITE := mk (N.shiftl 1 8).
Definition SECGROUP_READ := mk (N.shiftl 1 9).
Definition SECGROUP_WRITE := mk (N.shiftl 1 10).
Definition LB_READ := mk (N.shiftl 1 11).
Definition LB_WRITE := mk (N.shiftl 1 12).

Definition bitor (a b : t) : t := mk (N.lor (bits a) (bits b)).

Definition ALL : t :=
  foldl bitor VM_LIFECYCLE_READ
    [VM_LIFECYCLE_WRITE; VOLUME_READ; VOLUME_WRITE; VOLUME_ATTACH; SNAPSHOT_READ; SNAPSHOT_WRITE;
     NETWORK_READ; NETWORK_WRITE; SECGROUP_READ; SECGROUP_WRITE; LB_READ; LB_WRITE].

Definition from_bits_truncate (b : N) : t := mk (N.land b (bits ALL)).
Definition contains (self other : t) : bool := N.land (bits self) (bits other) =? bits other.
Definition grant (self other : t) : t := mk (N.lor (bits self) (bits other)).
Definition revoke (self other : t) : t := mk (N.land (bits self) (bitnot 32 (bits other))).

(** The [match] of [parse_tags]. *)
Definition tag_bit (tag : string) : option t :=
  if decide (tag = "none") then Some NONE
  else if decide (tag = "all") then Some ALL
  else if decide (tag = "vm.read") then Some VM_LIFECYCLE_READ
  else if decide (tag = "vm.write") then Some VM_LIFECYCLE_WRITE
  else if decide (tag = "vol.read") then Some VOLUME_READ
  else if decide (tag = "vol.write") then Some VOLUME_WRITE
  else if decide (tag = "vol.attach") then Some VOLUME_ATTACH
  else if decide (tag = "snap.read") then Some SNAPSHOT_READ
  else if decide (tag = "snap.write") then Some SNAPSHOT_WRITE
  else if decide (tag = "net.read") then Some NETWORK_READ
  else if decide (tag = "net.write") then Some NETWORK_WRITE
  else if decide (tag = "sg.read") then Some SECGROUP_READ
  else if decide (tag = "sg.write") then Some SECGROUP_WRITE
  else if decide (tag = "lb.read") then Some LB_READ
  else if decide (tag = "lb.write") then Some LB_WRITE
  else None.

(** One part of the comma-separated list. *)
Definition parse_tag (out : t) (raw : string) : CelResult t :=
  let tag := trim raw in
  if str_is_empty tag then Ok out
  else
    let normalised := default tag (strip_prefix "tenant." tag) in
    bit ← ok_or (tag_bit normalised) (Invalid "tenant cap tag");
    Ok (grant out bit).

Fixpoint parse_parts (parts : list string) (out : t) : CelResult t :=
  match parts with
  | [] => Ok out
  | raw :: rest => out ← parse_tag out raw; parse_parts rest out
  end.

Definition parse_tags (s : string) : CelResult t := parse_parts (split_on "," s) NONE.

(** The table of [to_tags]. *)
Definition entries : list (t * string) :=
  [(VM_LIFECYCLE_READ, "vm.read"); (VM_LIFECYCLE_WRITE, "vm.write");
   (VOLUME_READ, "vol.read"); (VOLUME_WRITE, "vol.write"); (VOLUME_ATTACH, "vol.attach");
   (SNAPSHOT_READ, "snap.read"); (SNAPSHOT_WRITE, "snap.write");
   (NETWORK_READ, "net.read"); (NETWORK_WRITE, "net.write");
   (SECGROUP_READ, "sg.read"); (SECGROUP_WRITE, "sg.write");
   (LB_READ, "lb.read"); (LB_WRITE, "lb.write")].

Definition to_tags (self : t) : string :=
  if decide (self = NONE) then "none"
  else if decide (self = ALL) then "all"
  else foldl (λ out e,
         if contains self e.1
         then (if str_is_empty out then out else out +:+ ",") +:+ e.2
         else out) EmptyString entries.

(** The pairs of [to_mesh_capabilities], in its order. *)
Definition mesh_pairs : list (t * Capabilities.t) :=
  [(VM_LIFECYCLE_READ, Capabilities.VM_LIFECYCLE_READ);
   (VM_LIFECYCLE_WRITE, Capabilities.VM_LIFECYCLE_WRITE);
   (VOLUME_READ, Capabilities.VOLUME_READ); (VOLUME_WRITE, Capabilities.VOLUME_WRITE);
   (VOLUME_ATTACH, Capabilities.VOLUME_ATTACH); (SNAPSHOT_READ, Capabilities.SNAPSHOT_READ);
   (SNAPSHOT_WRITE, Capabilities.SNAPSHOT_WRITE); (NETWORK_READ, Capabilities.NETWORK_READ);
   (NETWORK_WRITE, Capabilities.NETWORK_WRITE); (SECGROUP_READ, Capabilities.SECGROUP_READ);
   (SECGROUP_WRITE, Capabilities.SECGROUP_WRITE); (LB_READ, Capabilities.LB_READ);
   (LB_WRITE, Capabilities.LB_WRITE)].

Definition to_mesh_capabilities (self : t) : Capabilities.t :=
  foldl (λ c e, if contains self e.1 then Capabilities.bitor c e.2 else c)
    Capabilities.NONE mesh_pairs.

End TenantCaps.
#[export] Existing Instance TenantCaps.t_eq_dec.

(** [attenuate]. *)
Definition attenuate (root requested : TenantCaps.t) : CelResult TenantCaps.t :=
  if negb (TenantCaps.contains root requested)
  then Err (CapabilityDenied "tenant.user.attenuate")
  else Ok requested.

(** ** Lemmas *)
Module CapsFacts.
Import TenantCaps.

Lemma tenant_contains_spec a b :
  contains a b = true ↔ ∀ i, N.testbit (bits b) i = true → N.testbit (bits a) i = true.
Proof.
  change (contains a b) with (Capabilities.contains (Capabilities.mk (bits a)) (Capabilities.mk (bits b))).
  apply Capabilities.contains_spec.
Qed.

Lemma tenant_contains_refl a : contains a a = true.
Proof. by apply tenant_contains_spec. Qed.

Lemma tenant_contains_trans a b c : contains a b = true → contains b c = true → contains a c = true.
Proof. rewrite !tenant_contains_spec. auto. Qed.

Lemma contains_none a : contains a NONE = true.
Proof. apply tenant_contains_spec. intros i. change (bits NONE) with 0. by rewrite N.bits_0. Qed.

(** The intersection the store computes when it narrows a set. *)
Definition narrow (a b : t) : t := from_bits_truncate (N.land (bits a) (bits b)).

Lemma narrow_l a b : contains a (narrow a b) = true.
Proof. apply tenant_contains_spec. intros i. simpl. rewrite !N.land_spec, !andb_true_iff. tauto. Qed.

Lemma narrow_r a b : contains b (narrow a b) = true.
Proof. apply tenant_contains_spec. intros i. simpl. rewrite !N.land_spec, !andb_true_iff. tauto. Qed.

Lemma attenuate_Ok root req c :
  attenuate root req = Ok c ↔ c = req ∧ contains root req = true.
Proof. unfold attenuate. destruct (contains root req); simpl; naive_solver. Qed.

(** Every set of known capabilities is [mk n] for [n < 2 ^ 13]. *)
Lemma known_caps c : contains ALL c = true ↔ bits c < 8192.
Proof.
  rewrite tenant_contains_spec. change (bits ALL) with 8191. split.
  - intros Hsub. destruct (N.ltb_spec (bits c) 8192) as [|Hge]; [done|exfalso].
    assert (bits c ≠ 0) as Hnz by lia.
    pose proof (Hsub (N.log2 (bits c)) (N.bit_log2 _ Hnz)) as Hb.
    assert (13 ≤ N.log2 (bits c)) as Hl by (apply N.log2_le_pow2; lia).
    change 8191 with (N.ones 13) in Hb. by rewrite N.ones_spec_high in Hb.
  - intros Hlt i Hi. change 8191 with (N.ones 13). apply N.ones_spec_low.
    destruct (N.lt_ge_cases i 13) as [|Hge]; [done|].
    assert (bits c ≠ 0) by (intros E; by rewrite E, N.bits_0 in Hi).
    rewrite N.bits_above_log2 in Hi; [done|].
    assert (N.log2 (bits c) < 13) by (apply N.log2_lt_pow2; [lia|exact Hlt]). lia.
Qed.

(** A boolean statement about every set of known capabilities, by evaluation. *)
Definition all_caps (P : t → bool) : bool :=
  forallb (λ n, P (mk (N.of_nat n))) (seq 0 (N.to_nat 8192)).

Lemma all_caps_spec P c : all_caps P = true → contains ALL c = true → P c = true.
Proof.
  unfold all_caps. rewrite forallb_forall, known_caps. intros HP Hc.
  replace c with (mk (N.of_nat (N.to_nat (bits c)))) by (rewrite N2Nat.id; by destruct c).
  apply HP, in_seq. lia.
Qed.
End CapsFacts.

(** ** Properties *)

(** The tag syntax is faithful: for every set of known capabilities (all
    8192 of them), parsing the tags [to_tags] prints gives the set back. *)
Theorem parse_to_tags c :
  TenantCaps.contains TenantCaps.ALL c = true →
  TenantCaps.parse_tags (TenantCaps.to_tags c) = Ok c.
Proof.
  intros Hc.
  pose proof (CapsFacts.all_caps_spec (λ c,
    match TenantCaps.parse_tags (TenantCaps.to_tags c) with
    | Ok c' => TenantCaps.bits c' =? TenantCaps.bits c
    | Err _ => false
    end) c) as Hall.
  assert (CapsFacts.all_caps (λ c,
    match TenantCaps.parse_tags (TenantCaps.to_tags c) with
    | Ok c' => TenantCaps.bits c' =? TenantCaps.bits c
    | Err _ => false
    end) = true) as Hev by (vm_compute; reflexivity).
  specialize (Hall Hev Hc). cbv beta in Hall. clear Hev.
  destruct (TenantCaps.parse_tags (TenantCaps.to_tags c)) as [c'|]; [|discriminate Hall].
  apply N.eqb_eq in Hall. destruct c as [n], c' as [m]. change (m = n) in Hall. by subst.
Qed.

(** The projection to the core layer is exact: the mesh capabilities of a
    tenant set grant an operation's required capability precisely when the
    tenant set holds the bit of the same position, and projecting never
    grants an unknown bit. *)
Theorem mesh_projection_exact c :
  Capabilities.cap_bits (TenantCaps.to_mesh_capabilities c) =
    N.land (TenantCaps.bits c) (TenantCaps.bits TenantCaps.ALL) ∧
  ∀ op, Capabilities.contains (TenantCaps.to_mesh_capabilities c) (Capabilities.required op) =
        TenantCaps.contains c (TenantCaps.mk (Capabilities.cap_bits (Capabilities.required op))).
Proof.
  assert (Capabilities.cap_bits (TenantCaps.to_mesh_capabilities c) =
    N.land (TenantCaps.bits c) (TenantCaps.bits TenantCaps.ALL)) as Hb.
  { set (m := TenantCaps.mk (N.land (TenantCaps.bits c) (TenantCaps.bits TenantCaps.ALL))).
    assert (TenantCaps.to_mesh_capabilities c = TenantCaps.to_mesh_capabilities m) as ->.
    { assert (∀ e, e ∈ TenantCaps.mesh_pairs → TenantCaps.contains c e.1 = TenantCaps.contains m e.1)
        as He.
      { intros e He. unfold TenantCaps.contains, m. cbn [TenantCaps.bits].
        assert (N.land (TenantCaps.bits TenantCaps.ALL) (TenantCaps.bits e.1) = TenantCaps.bits e.1)
          as Hall.
        { revert e He. apply Forall_forall. repeat constructor. }
        by rewrite <-N.land_assoc, Hall. }
      unfold TenantCaps.to_mesh_capabilities. revert He. generalize Capabilities.NONE.
      induction TenantCaps.mesh_pairs as [|e l IH]; intros z He; simpl; [done|].
      rewrite (He e) by left. apply IH. intros. apply He. by right. }
    change (Capabilities.cap_bits (TenantCaps.to_mesh_capabilities m) = TenantCaps.bits m).
    apply N.eqb_eq.
    apply (CapsFacts.all_caps_spec (λ m,
      Capabilities.cap_bits (TenantCaps.to_mesh_capabilities m) =? TenantCaps.bits m));
      [vm_compute; reflexivity|].
    apply CapsFacts.tenant_contains_spec. intros i. simpl. rewrite N.land_spec, andb_true_iff. tauto. }
  split; [done|]. intros op. unfold Capabilities.contains, TenantCaps.contains. rewrite Hb. cbn [TenantCaps.bits].
  rewrite <-N.land_assoc. by destruct op.
Qed.

Lemma parse_to_tags_witness :
  TenantCaps.parse_tags "vm.read,vol.attach,lb.write" = Ok (TenantCaps.mk 4113).
Proof. exact (parse_to_tags (TenantCaps.mk 4113) eq_refl). Defined.
