(* ===== verification/Tenant.v ===== *)
(** * Tenant: names, namespaces, credentials and the tenant records

    [celtenancy::namespace], [celtenancy::auth], [celtenancy::tenant] and
    [celtenancy::user].  The Argon2 and SHA-256 primitives come from crates;
    they are the class [AuthPrims], and what the store needs of them is
    [AuthLaws].  Salts, token bytes and the clock are arguments. *)
From S2P Require Import Prelude.
From S2P Require Import Text.
From S2P Require Import Errors.
From S2P Require Import Caps.
From S2P Require Import Quota.
From Stdlib Require Import Strings.Byte.

(** ** [namespace] *)
Definition segment_byte (c : ascii) : bool :=
  is_ascii_alphanumeric c || Ascii.eqb c "-" || Ascii.eqb c "_".

Definition validate_segment (s : string) : CelResult unit :=
  if str_is_empty s then Err (Invalid "tenancy: name empty")
  else if (64 <? len s)%N then Err (Invalid "tenancy: name longer than 64 bytes")
  else if negb (str_forall segment_byte s)
  then Err (Invalid "tenancy: name must match [A-Za-z0-9_-]+")
  else Ok tt.

Record TenantNamespace := mkNamespace { ns_root : string }.

Definition namespace_new (tenant_name : string) : CelResult TenantNamespace :=
  _ ← validate_segment tenant_name;
  Ok (mkNamespace ("/tenants/" +:+ tenant_name)).
Definition ns_vms (n : TenantNamespace) : string := ns_root n +:+ "/vms".
Definition ns_volumes (n : TenantNamespace) : string := ns_root n +:+ "/volumes".
Definition ns_networks (n : TenantNamespace) : string := ns_root n +:+ "/networks".
Definition ns_users (n : TenantNamespace) : string := ns_root n +:+ "/users".
Definition ns_quotas (n : TenantNamespace) : string := ns_root n +:+ "/quotas".
Definition user_path (n : TenantNamespace) (user_name : string) : CelResult string :=
  _ ← validate_segment user_name;
  Ok (ns_root n +:+ "/users/" +:+ user_name).

(** ** [auth] *)
Abbreviation PasswordHashStr := string (only parsing).
Abbreviation TokenHash := (list byte) (only parsing).
#[export] Instance token_byte_eq_dec : EqDecision byte := Byte.byte_eq_dec.

(** The primitives of the [argon2] and [sha2] crates: hashing under a salt
    ([None] when the implementation fails), verification of a PHC string
    ([false] also when it is malformed), and the digest. *)
Class AuthPrims := {
  argon_hash : string → string → option PasswordHashStr;
  argon_verify : string → PasswordHashStr → bool;
  sha256 : string → TokenHash
}.

(** What is documented of them: a hash verifies exactly its own password. *)
Class AuthLaws `{AuthPrims} := {
  argon_verify_hash salt p h q : argon_hash salt p = Some h → argon_verify q h = true ↔ q = p
}.

Section auth.
Context `{AuthPrims}.

Definition hash_password (salt plain : string) : CelResult PasswordHashStr :=
  if str_is_empty plain then Err (Invalid "password must not be empty")
  else ok_or (argon_hash salt plain) (Internal "argon2 hash_password failed").

Definition verify_password (plain : string) (stored : PasswordHashStr) : CelResult unit :=
  if argon_verify plain stored then Ok tt else Err (CapabilityDenied "auth.credentials").

Definition TOKEN_BYTES : N := 32.
Definition TOKEN_HEX_LEN : N := TOKEN_BYTES * 2.

Record SessionToken := mkToken { token_str : string }.

Definition from_hex (s : string) : CelResult SessionToken :=
  if negb (len s =? TOKEN_HEX_LEN)%N || negb (str_forall is_ascii_hexdigit s)
  then Err (Invalid "token format")
  else Ok (mkToken (str_map to_ascii_lower s)).

Definition hash_token (t : SessionToken) : TokenHash := sha256 (token_str t).

(** [mint_token], over the 32 bytes drawn from the CSPRNG. *)
Fixpoint hex_of (raw : list byte) : string :=
  match raw with
  | [] => EmptyString
  | b :: rest =>
      let n := Byte.to_N b in
      String (hex_digit (N.shiftr n 4)) (String (hex_digit (N.land n 15)) (hex_of rest))
  end.

Definition mint_token (raw : list byte) : SessionToken * TokenHash :=
  let token := mkToken (hex_of raw) in (token, hash_token token).
End auth.

Definition DEFAULT_SESSION_TTL_SECS : N := 12 * 60 * 60.

(** ** [tenant] and [user] *)
Abbreviation TenantId := N (only parsing).
Abbreviation UserId := N (only parsing).

Record Session := mkSession {
  ses_token_hash : TokenHash;
  ses_tenant : TenantId;
  ses_user : UserId;
  ses_user_name : string;
  ses_caps : TenantCaps.t;
  ses_created_ms : N;    (** u64 *)
  ses_expires_ms : N
}.

Definition is_expired_at (s : Session) (now_ms : N) : bool := (ses_expires_ms s <=? now_ms)%N.

Record User := mkUser {
  u_id : UserId;
  u_name : string;
  u_caps : TenantCaps.t;
  u_password_hash : option PasswordHashStr
}.

Record TenantSpec := mkSpec {
  spec_name : string;
  spec_quotas : TenantQuotas;
  spec_parent : option TenantId
}.

Definition spec_new (name : string) (q : TenantQuotas) : CelResult TenantSpec :=
  _ ← validate_segment name; Ok (mkSpec name q None).
Definition with_parent (s : TenantSpec) (p : TenantId) : TenantSpec :=
  mkSpec (spec_name s) (spec_quotas s) (Some p).

Record Tenant := mkTenant {
  t_id : TenantId;
  t_name : string;
  t_namespace : string;
  t_root_caps : TenantCaps.t;
  t_users : list User;
  t_quotas : TenantQuotas;
  t_usage : QuotaUsage;
  t_parent : option TenantId
}.

#[export] Instance Session_eq_dec : EqDecision Session.
Proof. solve_decision. Defined.
#[export] Instance User_eq_dec : EqDecision User.
Proof. solve_decision. Defined.
#[export] Instance Tenant_eq_dec : EqDecision Tenant.
Proof. solve_decision. Defined.

Definition set_usage (u : QuotaUsage) (t : Tenant) : Tenant :=
  mkTenant (t_id t) (t_name t) (t_namespace t) (t_root_caps t) (t_users t) (t_quotas t) u
    (t_parent t).
Definition set_users (us : list User) (t : Tenant) : Tenant :=
  mkTenant (t_id t) (t_name t) (t_namespace t) (t_root_caps t) us (t_quotas t) (t_usage t)
    (t_parent t).
Definition set_root_caps (c : TenantCaps.t) (t : Tenant) : Tenant :=
  mkTenant (t_id t) (t_name t) (t_namespace t) c (t_users t) (t_quotas t) (t_usage t)
    (t_parent t).
Definition set_caps (c : TenantCaps.t) (u : User) : User :=
  mkUser (u_id u) (u_name u) c (u_password_hash u).
Definition set_hash (h : PasswordHashStr) (u : User) : User :=
  mkUser (u_id u) (u_name u) (u_caps u) (Some h).

(** ** Lemmas *)
Lemma validate_segment_Ok s :
  validate_segment s = Ok tt ↔
  s ≠ EmptyString ∧ (len s ≤ 64)%N ∧ str_forall segment_byte s = true.
Proof.
  unfold validate_segment. destruct s as [|c s]; [naive_solver|]. cbn [str_is_empty].
  destruct (N.ltb_spec 64 (len (String c s))).
  - split; [done|]. intros (_&?&_). lia.
  - destruct (str_forall segment_byte (String c s)); simpl; naive_solver.
Qed.

(** A hexadecimal digit is a lower-case hexadecimal character. *)
Definition is_lower_hex (c : ascii) : bool := is_ascii_hexdigit c && negb (is_ascii_upper c).

Lemma hex_of_spec raw :
  len (hex_of raw) = (2 * N.of_nat (length raw))%N ∧ str_forall is_lower_hex (hex_of raw) = true.
Proof.
  induction raw as [|b raw [IHl IHf]]; [done|]. cbn [hex_of]. split.
  - unfold len in *. simpl. lia.
  - cbn [str_forall]. rewrite IHf, andb_true_r.
    destruct b; vm_compute; reflexivity.
Qed.

Lemma str_map_lower_id s :
  str_forall is_lower_hex s = true → str_map to_ascii_lower s = s.
Proof.
  induction s as [|c s IH]; [done|]. cbn [str_forall str_map]. intros [Hc Hs]%andb_true_iff.
  rewrite IH by done. f_equal. unfold is_lower_hex in Hc. apply andb_true_iff in Hc as [_ Hu].
  unfold to_ascii_lower. apply negb_true_iff in Hu. by rewrite Hu.
Qed.

Lemma str_forall_impl p q s :
  (∀ c, p c = true → q c = true) → str_forall p s = true → str_forall q s = true.
Proof.
  intros Hpq. induction s as [|c s IH]; [done|]. cbn [str_forall].
  intros [? ?]%andb_true_iff. apply andb_true_iff. auto.
Qed.
