(* ===== verification/TenantStore.v ===== *)
(** * TenantStore: [celtenancy::store], the state and its operations

    [StoreState] and its methods, as both stores run them under their mutex.
    An operation is a [st StoreState CelError]: the state it leaves on the
    error path is part of the model, because the code mutates [self] in place.
    The clock, the salt and the token bytes are arguments; the iteration order
    of [HashMap::values] is the class [HashOrder]. *)
From S2P Require Import Prelude.
From S2P Require Import Text.
From S2P Require Import Errors.
From S2P Require Import Maps.
From S2P Require Import Caps.
From S2P Require Import Quota.
From S2P Require Import Tenant.

(** The values of a [HashMap] of tenants, in the order the map iterates. *)
Class HashOrder := {
  hash_values : gmap N Tenant → list Tenant;
  hash_values_perm m : hash_values m ≡ₚ (map_to_list m).*2
}.

Record RotateReport := mkRotateReport {
  rot_tenant : TenantId;
  rot_tenant_name : string;
  rot_old_caps : TenantCaps.t;
  rot_new_caps : TenantCaps.t;
  rot_attenuated_users : nat;
  rot_revoked_sessions : nat
}.

Record DeleteReport := mkDeleteReport {
  del_tenants : list (TenantId * string);
  del_revoked_sessions : nat;
  del_dropped_users : nat
}.
Definition delete_report_default : DeleteReport := mkDeleteReport [] 0 0.

Module StoreState.

Record t := mk {
  next_tenant_id : N;    (** u64 *)
  next_user_id : N;
  tenants : gmap N Tenant;
  by_name : gmap string N;
  sessions : list Session
}.

Definition default_state : t := mk 0 0 ∅ ∅ [].

Definition set_next_tenant (n : N) (s : t) : t :=
  mk n (next_user_id s) (tenants s) (by_name s) (sessions s).
Definition set_next_user (n : N) (s : t) : t :=
  mk (next_tenant_id s) n (tenants s) (by_name s) (sessions s).
Definition set_tenants (m : gmap N Tenant) (s : t) : t :=
  mk (next_tenant_id s) (next_user_id s) m (by_name s) (sessions s).
Definition set_by_name (m : gmap string N) (s : t) : t :=
  mk (next_tenant_id s) (next_user_id s) (tenants s) m (sessions s).
Definition set_sessions (l : list Session) (s : t) : t :=
  mk (next_tenant_id s) (next_user_id s) (tenants s) (by_name s) l.
(** [tenants.get_mut(&id)] followed by a change of the record. *)
Definition put_tenant (id : TenantId) (x : Tenant) (s : t) : t :=
  set_tenants (<[id := x]> (tenants s)) s.

Abbreviation M := (st t CelError).

(** [tenants.get(&id).ok_or(e)]. *)
Definition get_tenant (id : TenantId) (e : CelError) : M Tenant :=
  s ← get_st; try (ok_or (tenants s !! id) e).

Definition quotas_exceed (q pq : TenantQuotas) : bool :=
  (max_vcpus pq <? max_vcpus q)%N || (max_memory_mib pq <? max_memory_mib q)%N
  || (max_storage_bytes pq <? max_storage_bytes q)%N
  || (max_network_mbps pq <? max_network_mbps q)%N || (max_iops pq <? max_iops q)%N.

(** The subtenant checks of [create]. *)
Definition check_parent (spec : TenantSpec) (root_caps : TenantCaps.t) : M unit :=
  match spec_parent spec with
  | None => mret tt
  | Some parent_id =>
      parent ← get_tenant parent_id (Invalid "parent tenant id unknown");
      _ ← bail_if (negb (TenantCaps.contains (t_root_caps parent) root_caps))
            (CapabilityDenied "subtenant caps exceed parent");
      bail_if (quotas_exceed (spec_quotas spec) (t_quotas parent))
        (Invalid "subtenant quotas exceed parent quotas")
  end.

Definition create (spec : TenantSpec) (root_caps : TenantCaps.t) : M Tenant :=
  s ← get_st;
  _ ← bail_if (bool_decide (is_Some (by_name s !! spec_name spec)))
        (Storage ("tenant already exists: " +:+ spec_name spec));
  _ ← check_parent spec root_caps;
  id_raw ← try (ok_or (checked_add 64 (next_tenant_id s) 1) (Internal "tenant id overflow"));
  _ ← modify (set_next_tenant id_raw);
  ns ← try (namespace_new (spec_name spec));
  let x := mkTenant id_raw (spec_name spec) (ns_root ns) root_caps [] (spec_quotas spec)
             usage_default (spec_parent spec) in
  _ ← modify (λ s, set_by_name (<[spec_name spec := id_raw]> (by_name s)) s);
  _ ← modify (put_tenant id_raw x);
  mret x.

Definition is_child_of (id : TenantId) (x : Tenant) : bool := bool_decide (t_parent x = Some id).

Section ops.
Context `{HashOrder} `{AuthPrims}.

Definition delete (id : TenantId) : M unit :=
  x ← get_tenant id (Invalid "tenant id unknown");
  s ← get_st;
  _ ← bail_if (existsb (is_child_of id) (hash_values (tenants s))) (Invalid "tenant has subtenants");
  _ ← bail_if (negb (bool_decide (t_usage x = usage_default))) (Invalid "tenant in use");
  _ ← modify (λ s, set_tenants (base.delete id (tenants s)) s);
  modify (λ s, set_by_name (base.delete (t_name x) (by_name s)) s).

Definition add_user (tenant : TenantId) (user_name : string) (requested : TenantCaps.t) : M User :=
  _ ← try (validate_segment user_name);
  x ← get_tenant tenant (Invalid "tenant id unknown");
  _ ← bail_if (existsb (λ u, bool_decide (u_name u = user_name)) (t_users x))
        (Storage ("user already exists: " +:+ user_name));
  caps ← try (attenuate (t_root_caps x) requested);
  s ← get_st;
  id_raw ← try (ok_or (checked_add 64 (next_user_id s) 1) (Internal "user id overflow"));
  _ ← modify (set_next_user id_raw);
  let u := mkUser id_raw user_name caps None in
  _ ← modify (put_tenant tenant (set_users (t_users x ++ [u]) x));
  mret u.

(** [sessions.retain(|s| !(s.tenant == tenant && s.user == user))]. *)
Definition drop_user_sessions (tenant : TenantId) (user : UserId) (l : list Session)
  : list Session :=
  retain (λ s, negb (bool_decide (ses_tenant s = tenant) && bool_decide (ses_user s = user))) l.
Definition drop_tenant_sessions (tenant : TenantId) (l : list Session) : list Session :=
  retain (λ s, negb (bool_decide (ses_tenant s = tenant))) l.

Definition remove_user (tenant : TenantId) (user : UserId) : M unit :=
  x ← get_tenant tenant (Invalid "tenant id unknown");
  _ ← modify (put_tenant tenant
        (set_users (retain (λ u, negb (bool_decide (u_id u = user))) (t_users x)) x));
  modify (λ s, set_sessions (drop_user_sessions tenant user (sessions s)) s).

(** [chain_from]: the ids from a tenant up to its root.  [fuel] is 65 at
    depth 0, so it is spent exactly when [depth > 64]. *)
Fixpoint chain_loop (ts : gmap N Tenant) (fuel : nat) (cur : option TenantId)
  : CelResult (list TenantId) :=
  match cur with
  | None => Ok []
  | Some tid =>
      match fuel with
      | O => Err (Internal "tenant hierarchy too deep")
      | S fuel' =>
          x ← ok_or (ts !! tid) (Invalid "tenant id unknown");
          rest ← chain_loop ts fuel' (t_parent x);
          Ok (tid :: rest)
      end
  end.

Definition MAX_CHAIN : nat := 65.
Definition chain_from (tenant : TenantId) (s : t) : CelResult (list TenantId) :=
  chain_loop (tenants s) MAX_CHAIN (Some tenant).

(** Pass 1 of [charge]: every level must accept. *)
Fixpoint charge_check (ts : gmap N Tenant) (tenant : TenantId) (charge : QuotaCharge)
    (chain : list TenantId) : CelResult unit :=
  match chain with
  | [] => Ok tt
  | tid :: rest =>
      x ← ok_or (ts !! tid) (Internal "tenant disappeared mid-charge");
      _ ← map_err (λ e, match e with
                        | Exhausted tag => if decide (tid ≠ tenant) then Exhausted tag else e
                        | other => other
                        end)
            (charge_quota (t_usage x) (t_quotas x) charge);
      charge_check ts tenant charge rest
  end.

(** Pass 2: write the new usages; the answer is the first level's. *)
Fixpoint charge_apply (charge : QuotaCharge) (chain : list TenantId) (i : nat)
    (new_self : QuotaUsage) : M QuotaUsage :=
  match chain with
  | [] => mret new_self
  | tid :: rest =>
      x ← get_tenant tid (Internal "tenant disappeared mid-charge");
      new ← try (map_err (λ _, Internal "quota validation race")
                   (charge_quota (t_usage x) (t_quotas x) charge));
      _ ← modify (put_tenant tid (set_usage new x));
      charge_apply charge rest (S i) (if decide (i = 0) then new else new_self)
  end.

Definition charge (tenant : TenantId) (c : QuotaCharge) : M QuotaUsage :=
  s ← get_st;
  chain ← try (chain_from tenant s);
  _ ← try (charge_check (tenants s) tenant c chain);
  charge_apply c chain 0 usage_default.

Fixpoint release_apply (charge : QuotaCharge) (chain : list TenantId) (i : nat)
    (new_self : QuotaUsage) : M QuotaUsage :=
  match chain with
  | [] => mret new_self
  | tid :: rest =>
      x ← get_tenant tid (Internal "tenant disappeared mid-release");
      let new := release_quota (t_usage x) charge in
      _ ← modify (put_tenant tid (set_usage new x));
      release_apply charge rest (S i) (if decide (i = 0) then new else new_self)
  end.

Definition release (tenant : TenantId) (c : QuotaCharge) : M QuotaUsage :=
  s ← get_st;
  chain ← try (chain_from tenant s);
  release_apply c chain 0 usage_default.

(** *** Credentials and sessions *)

(** [iter_mut().find(p)] and a change of the element found. *)
Fixpoint update_first {A} (p : A → bool) (f : A → A) (l : list A) : list A :=
  match l with
  | [] => []
  | x :: l' => if p x then f x :: l' else x :: update_first p f l'
  end.

Definition has_id (user : UserId) (u : User) : bool := bool_decide (u_id u = user).

Definition set_password (salt : string) (tenant : TenantId) (user : UserId) (plain : string)
  : M unit :=
  hash ← try (hash_password salt plain);
  x ← get_tenant tenant (Invalid "tenant id unknown");
  _ ← try (ok_or (find_first (has_id user) (t_users x)) (Invalid "user id unknown"));
  _ ← modify (put_tenant tenant
        (set_users (update_first (has_id user) (set_hash hash) (t_users x)) x));
  modify (λ s, set_sessions (drop_user_sessions tenant user (sessions s)) s).

Definition denied : CelError := CapabilityDenied "auth.credentials".

Definition authenticate (tenant_name user_name password : string) (s : t)
  : CelResult (TenantId * UserId * TenantCaps.t) :=
  tid ← ok_or (by_name s !! tenant_name) denied;
  x ← ok_or (tenants s !! tid) denied;
  u ← ok_or (find_first (λ u, bool_decide (u_name u = user_name)) (t_users x)) denied;
  hash ← ok_or (u_password_hash u) denied;
  _ ← map_err (λ _, denied) (verify_password password hash);
  Ok (tid, u_id u, u_caps u).

Definition has_token (h : TokenHash) (s : Session) : bool := bool_decide (ses_token_hash s = h).

Definition create_session (raw : list Byte.byte) (now : N) (tenant : TenantId) (user : UserId)
    (requested : TenantCaps.t) (ttl_secs : option N) : M (SessionToken * Session) :=
  x ← get_tenant tenant (Invalid "tenant id unknown");
  u ← try (ok_or (find_first (has_id user) (t_users x)) (Invalid "user id unknown"));
  let caps := TenantCaps.from_bits_truncate
                (N.land (TenantCaps.bits (u_caps u)) (TenantCaps.bits requested)) in
  let '(token, token_hash) := mint_token raw in
  let ttl_ms := saturating_mul 64 (default DEFAULT_SESSION_TTL_SECS ttl_secs) 1000 in
  let session := mkSession token_hash tenant user (u_name u) caps now
                   (saturating_add 64 now ttl_ms) in
  _ ← modify (λ s, set_sessions
        (retain (λ s, negb (has_token token_hash s)) (sessions s) ++ [session]) s);
  mret (token, session).

Definition validate_token (now : N) (token : SessionToken) (s : t) : CelResult Session :=
  x ← ok_or (find_first (has_token (hash_token token)) (sessions s))
        (CapabilityDenied "auth.session");
  if is_expired_at x now then Err (CapabilityDenied "auth.session") else Ok x.

Definition revoke_token (token : SessionToken) : M unit :=
  modify (λ s, set_sessions (retain (λ x, negb (has_token (hash_token token) x)) (sessions s)) s).

(** Retain some sessions and count the others. *)
Definition retain_sessions (keep : list Session → list Session) : M nat :=
  s ← get_st;
  let kept := keep (sessions s) in
  _ ← modify (set_sessions kept);
  mret (length (sessions s) - length kept).

Definition purge_expired_sessions (now : N) : M nat :=
  retain_sessions (retain (λ x, negb (is_expired_at x now))).

Definition revoke_user_sessions (tenant : TenantId) (user : UserId) : M nat :=
  s ← get_st;
  _ ← bail_if (bool_decide (tenants s !! tenant = None)) (Invalid "tenant id unknown");
  retain_sessions (drop_user_sessions tenant user).

Definition revoke_tenant_sessions (tenant : TenantId) : M nat :=
  s ← get_st;
  _ ← bail_if (bool_decide (tenants s !! tenant = None)) (Invalid "tenant id unknown");
  retain_sessions (drop_tenant_sessions tenant).

(** *** Administration *)
Definition narrow_user (new_caps : TenantCaps.t) (u : User) : User :=
  set_caps (TenantCaps.from_bits_truncate
              (N.land (TenantCaps.bits (u_caps u)) (TenantCaps.bits new_caps))) u.

Definition rotate_root_caps (tenant : TenantId) (new_caps : TenantCaps.t) : M RotateReport :=
  x ← get_tenant tenant (Invalid "tenant id unknown");
  _ ← match t_parent x with
      | Some parent_id =>
          p ← get_tenant parent_id (Internal "parent tenant disappeared");
          bail_if (negb (TenantCaps.contains (t_root_caps p) new_caps))
            (CapabilityDenied "rotated caps exceed parent")
      | None => mret tt
      end;
  let users := narrow_user new_caps <$> t_users x in
  let attenuated :=
    length (retain (λ u, negb (bool_decide (u_caps (narrow_user new_caps u) = u_caps u)))
              (t_users x)) in
  _ ← modify (put_tenant tenant (set_users users (set_root_caps new_caps x)));
  revoked ← retain_sessions (drop_tenant_sessions tenant);
  mret (mkRotateReport tenant (t_name x) (t_root_caps x) new_caps attenuated revoked).

(** Run a fallible walk on each element and append what they push. *)
Section each.
Context {E A B : Type} (f : A → result E (list B)).
Fixpoint each (l : list A) : result E (list B) :=
  match l with
  | [] => Ok []
  | k :: ks => a ← f k; b ← each ks; Ok (a ++ b)
  end.
End each.

(** [walk]: the subtree in post-order; [fuel] counts down from 65. *)
Fixpoint walk (ts : gmap N Tenant) (fuel : nat) (root : TenantId) : CelResult (list TenantId) :=
  match fuel with
  | O => Err (Internal "tenant hierarchy too deep")
  | S fuel' =>
      let kids := t_id <$> retain (is_child_of root) (hash_values ts) in
      below ← each (walk ts fuel') kids;
      Ok (below ++ [root])
  end.

(** The validation loop: no node of the subtree is in use. *)
Fixpoint check_idle (ts : gmap N Tenant) (subtree : list TenantId) : CelResult unit :=
  match subtree with
  | [] => Ok tt
  | tid :: rest =>
      x ← ok_or (ts !! tid) (Internal "subtree node vanished");
      if bool_decide (t_usage x = usage_default) then check_idle ts rest
      else Err (Invalid "tenant in use")
  end.

(** The mutation pass, accumulating the report. *)
Fixpoint delete_each (subtree : list TenantId) (report : DeleteReport) : M DeleteReport :=
  match subtree with
  | [] => mret report
  | tid :: rest =>
      revoked ← retain_sessions (drop_tenant_sessions tid);
      x ← get_tenant tid (Internal "subtree node vanished");
      _ ← modify (λ s, set_tenants (base.delete tid (tenants s)) s);
      _ ← modify (λ s, set_by_name (base.delete (t_name x) (by_name s)) s);
      delete_each rest
        (mkDeleteReport (del_tenants report ++ [(tid, t_name x)])
           (del_revoked_sessions report + revoked)
           (del_dropped_users report + length (t_users x)))
  end.

Definition delete_tenant_recursive (tenant : TenantId) : M DeleteReport :=
  s ← get_st;
  _ ← bail_if (bool_decide (tenants s !! tenant = None)) (Invalid "tenant id unknown");
  subtree ← try (walk (tenants s) MAX_CHAIN tenant);
  _ ← try (check_idle (tenants s) subtree);
  delete_each subtree delete_report_default.

(** ** Queries of the stores *)
Definition get (id : TenantId) (s : t) : CelResult Tenant :=
  ok_or (tenants s !! id) (Invalid "tenant id unknown").

Definition get_by_name (name : string) (s : t) : CelResult Tenant :=
  id ← ok_or (by_name s !! name) (Invalid "tenant name unknown");
  ok_or (tenants s !! id) (Internal "tenant index out of sync").

Definition id_le (a b : Tenant) : Prop := (t_id a ≤ t_id b)%N.
#[export] Instance id_le_dec : RelDecision id_le.
Proof. intros a b. unfold id_le. apply _. Defined.

Definition list_tenants (s : t) : list Tenant := merge_sort id_le (hash_values (tenants s)).

(** Default methods of the trait. *)
Definition create_subtenant (parent : TenantId) (spec : TenantSpec) (root_caps : TenantCaps.t)
  : M Tenant := create (with_parent spec parent) root_caps.

Definition children (parent : TenantId) (s : t) : list Tenant :=
  retain (is_child_of parent) (list_tenants s).

(** The loop of [ancestors], which checks the depth once a parent is left to
    visit. *)
Fixpoint ancestors_loop (s : t) (fuel : nat) (cur : option TenantId) : CelResult (list Tenant) :=
  match cur with
  | None => Ok []
  | Some p =>
      match fuel with
      | O => Err (Internal "tenant hierarchy too deep")
      | S fuel' =>
          x ← get p s;
          rest ← ancestors_loop s fuel' (t_parent x);
          Ok (x :: rest)
      end
  end.

Definition ancestors (id : TenantId) (s : t) : CelResult (list Tenant) :=
  x ← get id s; ancestors_loop s MAX_CHAIN (t_parent x).

End ops.
End StoreState.
#[export] Existing Instance StoreState.id_le_dec.
