(* ===== verification/TenantInv.v ===== *)
(** * TenantInv: the invariant of the tenant store

    What every reachable [StoreState] satisfies, and that each operation keeps
    it on the success path and on every error path. *)
From S2P Require Import Prelude.
From S2P Require Import Text.
From S2P Require Import Errors.
From S2P Require Import Maps.
From S2P Require Import Caps.
From S2P Require Import Quota.
From S2P Require Import Tenant.
From S2P Require Import TenantStore.
Import StoreState.

Section inv.
Context `{HashOrder} `{AuthPrims}.
Implicit Types (s : StoreState.t) (x : Tenant) (id : N).

(** ** The invariant *)

(** Users of a tenant: distinct ids and names, ids already handed out, names
    well-formed, capabilities within the tenant's root set. *)
Record users_ok (n : N) (root : TenantCaps.t) (us : list User) : Prop := {
  users_ids : NoDup (u_id <$> us);
  users_names : NoDup (u_name <$> us);
  users_each u : u ∈ us →
    (u_id u ≤ n)%N ∧ TenantCaps.contains root (u_caps u) = true ∧
    validate_segment (u_name u) = Ok tt
}.

(** A parent has a smaller id, exists, and has quotas at least as large. *)
Definition parent_ok s x : Prop :=
  ∀ p, t_parent x = Some p →
    (p < t_id x)%N ∧ ∃ px, tenants s !! p = Some px ∧ quotas_exceed (t_quotas x) (t_quotas px) = false.

Record tenant_ok s id x : Prop := {
  ten_id : t_id x = id;
  ten_bound : (id ≤ next_tenant_id s)%N;
  ten_named : by_name s !! t_name x = Some id;
  ten_name : validate_segment (t_name x) = Ok tt;
  ten_ns : t_namespace x = "/tenants/" +:+ t_name x;
  ten_usage : within (t_usage x) (t_quotas x);
  ten_parent : parent_ok s x;
  ten_users : users_ok (next_user_id s) (t_root_caps x) (t_users x)
}.

(** A session of a tenant that still exists speaks for a user that still
    exists, under that user's name and with no more than its capabilities. *)
Definition speaks_for x (y : Session) : Prop :=
  ∃ u, u ∈ t_users x ∧ u_id u = ses_user y ∧ u_name u = ses_user_name y ∧
    TenantCaps.contains (u_caps u) (ses_caps y) = true.

Record session_ok s (y : Session) : Prop := {
  ses_bound : (ses_tenant y ≤ next_tenant_id s)%N;
  ses_live x : tenants s !! ses_tenant y = Some x → speaks_for x y
}.

Record inv s : Prop := {
  inv_tenant id x : tenants s !! id = Some x → tenant_ok s id x;
  inv_name n id : by_name s !! n = Some id → ∃ x, tenants s !! id = Some x ∧ t_name x = n;
  inv_session y : y ∈ sessions s → session_ok s y;
  inv_tokens : NoDup (ses_token_hash <$> sessions s)
}.

Lemma inv_default : inv default_state.
Proof.
  split; simpl.
  - by intros ?? ?%lookup_empty_Some.
  - by intros ?? ?%lookup_empty_Some.
  - by intros ? ?%elem_of_nil.
  - apply NoDup_nil_2.
Qed.

(** ** Changes that preserve it *)
Lemma users_ok_mono n m root us : (n ≤ m)%N → users_ok n root us → users_ok m root us.
Proof. intros Hle []. split; [done|done|]. intros u Hu. destruct (users_each0 u Hu). split; [lia|done]. Qed.

(** The counters may grow. *)
Lemma inv_counters s n m :
  (next_tenant_id s ≤ n)%N → (next_user_id s ≤ m)%N → inv s →
  inv (mk n m (tenants s) (by_name s) (sessions s)).
Proof.
  intros Hn Hm [Ht Hna Hs Htok]. split; simpl; [|done| |done].
  - intros id x Hx. destruct (Ht id x Hx). split; try done; simpl; [lia|by eapply users_ok_mono].
  - intros y Hy. destruct (Hs y Hy). split; simpl; [lia|done].
Qed.

(** Sessions may be dropped. *)
Lemma inv_drop_sessions s p : inv s → inv (set_sessions (retain p (sessions s)) s).
Proof.
  intros [Ht Hna Hs Htok]. split; simpl; [|done| |by apply NoDup_fmap_retain].
  - intros id x Hx. by destruct (Ht id x Hx).
  - intros y [Hy _]%elem_of_retain. by destruct (Hs y Hy).
Qed.

(** The parts of a tenant no operation changes. *)
Definition same_identity x x' : Prop :=
  t_id x' = t_id x ∧ t_name x' = t_name x ∧ t_namespace x' = t_namespace x ∧
  t_quotas x' = t_quotas x ∧ t_parent x' = t_parent x.

(** A tenant's usage, users and root capabilities may change, if the sessions
    kept still speak for its users. *)
Lemma inv_put s id x x' p :
  inv s → tenants s !! id = Some x → same_identity x x' →
  within (t_usage x') (t_quotas x') →
  users_ok (next_user_id s) (t_root_caps x') (t_users x') →
  (∀ y, y ∈ sessions s → p y = true → ses_tenant y = id → speaks_for x y → speaks_for x' y) →
  inv (set_sessions (retain p (sessions s)) (put_tenant id x' s)).
Proof.
  intros [Ht Hna Hs Htok] Hx (Hid&Hn&Hns&Hq&Hp) Hw Hu Hy.
  destruct (Ht id x Hx) as [Ti Tb Tn Tv Tns Tw Tp Tu].
  assert (∀ z, t_parent z = t_parent x ∨ True → parent_ok s z →
    parent_ok (set_sessions (retain p (sessions s)) (put_tenant id x' s)) z) as Hpar.
  { intros z _ Hz q Hq'. destruct (Hz q Hq') as (?&px&Hpx&Hqq). split; [done|]. simpl.
    destruct (decide (q = id)) as [->|].
    - exists x'. rewrite lookup_insert_eq. simplify_eq. by rewrite Hq.
    - exists px. by rewrite lookup_insert_ne. }
  split; simpl.
  - intros id' z [[<- <-]|[Hne Hz]]%lookup_insert_Some.
    + split; simpl; rewrite ?Hid, ?Hn, ?Hns; try done. apply Hpar; [by left|].
      intros q Hq'. rewrite Hid, Hq. apply Tp. by rewrite <-Hp.
    + destruct (Ht id' z Hz). split; try done. apply Hpar; [by right|done].
  - intros n id' Hn'. destruct (Hna n id' Hn') as (z&Hz&<-).
    destruct (decide (id = id')) as [->|Hne].
    + exists x'. rewrite lookup_insert_eq. simplify_eq. done.
    + exists z. by rewrite lookup_insert_ne.
  - intros y [Hyin Hpy]%elem_of_retain. destruct (Hs y Hyin) as [Hb Hl]. split; simpl; [done|].
    intros z [[He <-]|[Hne Hz]]%lookup_insert_Some; [|by apply Hl].
    apply Hy; [done|done|done|]. apply Hl. by rewrite <-He.
  - by apply NoDup_fmap_retain.
Qed.

Lemma retain_true {A} (l : list A) : retain (λ _, true) l = l.
Proof. unfold retain. induction l as [|a l IH]; simpl; [done|]. by rewrite IH. Qed.

Lemma set_sessions_same s : set_sessions (sessions s) s = s.
Proof. by destruct s. Qed.

(** The same without touching the sessions. *)
Lemma inv_put_keep s id x x' :
  inv s → tenants s !! id = Some x → same_identity x x' →
  within (t_usage x') (t_quotas x') →
  users_ok (next_user_id s) (t_root_caps x') (t_users x') →
  (∀ y, y ∈ sessions s → ses_tenant y = id → speaks_for x y → speaks_for x' y) →
  inv (put_tenant id x' s).
Proof.
  intros Hi Hx Hsame Hw Hu Hy.
  pose proof (inv_put s id x x' (λ _, true) Hi Hx Hsame Hw Hu) as Hput.
  rewrite retain_true in Hput. apply Hput. naive_solver.
Qed.

Lemma inv_put_usage s id x u :
  inv s → tenants s !! id = Some x → within u (t_quotas x) → inv (put_tenant id (set_usage u x) s).
Proof.
  intros Hi Hx Hw. eapply inv_put_keep; try done. by apply (inv_tenant _ Hi) in Hx as [].
Qed.

(** ** Creation and deletion *)
Lemma get_tenant_eq id e s :
  get_tenant id e s = (ok_or (tenants s !! id) e, s).
Proof. done. Qed.

Lemma check_parent_state spec caps s : (check_parent spec caps s).2 = s.
Proof.
  unfold check_parent. destruct (spec_parent spec) as [p|]; [|done]. unfold get_tenant. st_unfold.
  destruct (tenants s !! p); simpl; [|done]. destruct (negb _); simpl; [done|].
  by destruct (quotas_exceed _ _).
Qed.

Lemma check_parent_Ok spec caps s s' :
  check_parent spec caps s = (Ok tt, s') →
  s' = s ∧ ∀ p, spec_parent spec = Some p → ∃ px, tenants s !! p = Some px ∧
    TenantCaps.contains (t_root_caps px) caps = true ∧
    quotas_exceed (spec_quotas spec) (t_quotas px) = false.
Proof.
  unfold check_parent. destruct (spec_parent spec) as [p|].
  - unfold get_tenant. st_unfold. destruct (tenants s !! p) as [px|] eqn:Ep; simpl; [|done].
    destruct (TenantCaps.contains (t_root_caps px) caps) eqn:Ec; simpl; [|done].
    destruct (quotas_exceed _ _) eqn:Eq; simpl; [done|]. intros [= <-]. split; [done|].
    intros ? [= <-]. eauto.
  - intros [= <-]. done.
Qed.

(** What a creation leaves, case by case: nothing, a consumed id, or the new
    tenant. *)
Lemma create_cases spec caps s :
  (∃ e, create spec caps s = (Err e, s)) ∨
  (∃ e, create spec caps s = (Err e, set_next_tenant (next_tenant_id s + 1) s) ∧
        validate_segment (spec_name spec) = Err e) ∨
  (∃ x, create spec caps s = (Ok x, put_tenant (t_id x) x (set_by_name
            (<[t_name x := t_id x]> (by_name s)) (set_next_tenant (next_tenant_id s + 1) s))) ∧
     x = mkTenant (next_tenant_id s + 1) (spec_name spec) ("/tenants/" +:+ spec_name spec) caps []
           (spec_quotas spec) usage_default (spec_parent spec) ∧
     fits 64 (next_tenant_id s + 1) ∧
     by_name s !! spec_name spec = None ∧ validate_segment (spec_name spec) = Ok tt ∧
     ∀ p, spec_parent spec = Some p → ∃ px, tenants s !! p = Some px ∧
       TenantCaps.contains (t_root_caps px) caps = true ∧
       quotas_exceed (spec_quotas spec) (t_quotas px) = false).
Proof.
  unfold create. st_unfold.
  case_bool_decide as Hb; simpl; [by left; eauto|].
  destruct (check_parent spec caps s) as [[[]|e] s1] eqn:Ec.
  2:{ left. pose proof (check_parent_state spec caps s) as Hs. rewrite Ec in Hs. simpl in Hs.
      subst. eauto. }
  apply check_parent_Ok in Ec as [-> Hpar].
  unfold checked_add. destruct (checked 64 (next_tenant_id s + 1)) as [n|] eqn:En; simpl.
  2:{ left. eauto. }
  apply checked_Some in En as [-> Hfit]. unfold namespace_new. st_unfold.
  destruct (validate_segment (spec_name spec)) as [[]|e] eqn:Ev; simpl.
  - right. right. exists (mkTenant (next_tenant_id s + 1) (spec_name spec)
      ("/tenants/" +:+ spec_name spec) caps [] (spec_quotas spec) usage_default (spec_parent spec)).
    split; [done|]. split; [done|]. split; [done|].
    split; [by apply eq_None_not_Some|]. done.
  - right. left. exists e. done.
Qed.

Lemma inv_create spec caps s : inv s → inv (create spec caps s).2.
Proof.
  intros Hi. destruct (create_cases spec caps s) as [[e ->]|[(e&->&_)|(x&->&Hx&_&Hnone&Hv&Hpar)]];
    simpl; [done| |].
  - apply inv_counters; [lia|lia|done].
  - assert (t_name x = spec_name spec ∧ t_id x = (next_tenant_id s + 1)%N) as [Hn Hid] by (by subst).
    rewrite Hn, Hid. set (id := (next_tenant_id s + 1)%N) in *.
    assert (tenants s !! id = None) as Hfree.
    { destruct (tenants s !! id) as [z|] eqn:E; [|done]. apply (inv_tenant _ Hi) in E as []. lia. }
    assert (∀ z, parent_ok s z → parent_ok (put_tenant id x (set_by_name
      (<[spec_name spec:=id]> (by_name s)) (set_next_tenant id s))) z) as Hmono.
    { intros z Hz q Hq. destruct (Hz q Hq) as (?&px&Hpx&?). split; [done|]. exists px. simpl.
      rewrite lookup_insert_ne; [done|]. congruence. }
    split; simpl.
    + intros id' z [[<- <-]|[Hne Hz]]%lookup_insert_Some.
      * split; simpl; try done.
        -- by rewrite Hn, lookup_insert_eq.
        -- by rewrite Hn.
        -- by rewrite Hn, Hx.
        -- rewrite Hx. apply within_default.
        -- apply Hmono. intros p Hp. rewrite Hx in Hp. simpl in Hp.
           destruct (Hpar p Hp) as (px&Hpx&_&Hq). split.
           ++ apply (inv_tenant _ Hi) in Hpx as []. rewrite Hid. lia.
           ++ exists px. by rewrite Hx.
        -- rewrite Hx. split; simpl; [apply NoDup_nil_2|apply NoDup_nil_2|].
           by intros ? ?%elem_of_nil.
      * destruct (inv_tenant _ Hi _ _ Hz) as [? ? Tn]. split; simpl; try done.
        -- lia.
        -- rewrite lookup_insert_ne; [done|]. intros He. rewrite <-He in Tn. congruence.
        -- by apply Hmono.
    + intros n id' [[<- <-]|[Hne Hn']]%lookup_insert_Some.
      * exists x. by rewrite lookup_insert_eq.
      * destruct (inv_name _ Hi _ _ Hn') as (z&Hz&<-). exists z.
        rewrite lookup_insert_ne; [done|]. congruence.
    + intros y Hy. destruct (inv_session _ Hi y Hy) as [Hb Hl]. split; simpl; [lia|].
      intros z [[He _]|[_ Hz]]%lookup_insert_Some; [lia|by apply Hl].
    + apply (inv_tokens _ Hi).
Qed.

Lemma elem_of_hash_values (m : gmap N Tenant) x : x ∈ hash_values m ↔ ∃ id, m !! id = Some x.
Proof.
  rewrite hash_values_perm, list_elem_of_fmap. split.
  - intros ([id z]&->&?%elem_of_map_to_list). eauto.
  - intros (id&?%elem_of_map_to_list). by exists (id, x).
Qed.

(** Removing a set of tenants with everything below it. *)
Definition remove_tenants (ids : list N) s : StoreState.t :=
  mk (next_tenant_id s) (next_user_id s)
    (filter (λ e, e.1 ∉ ids) (tenants s)) (filter (λ e, e.2 ∉ ids) (by_name s)) (sessions s).

Lemma inv_remove ids s :
  inv s → (∀ p id x, p ∈ ids → tenants s !! id = Some x → t_parent x = Some p → id ∈ ids) →
  inv (remove_tenants ids s).
Proof.
  intros [Ht Hna Hs Htok] Hdown. split; simpl; [| | |done].
  - intros id x [Hx Hni]%map_lookup_filter_Some. simpl in Hni. destruct (Ht id x Hx) as [? ? Tn ? ? ? Tp ?].
    split; simpl; try done.
    + rewrite map_lookup_filter_Some. done.
    + intros p Hp. destruct (Tp p Hp) as (?&px&Hpx&?). split; [done|]. exists px. simpl.
      rewrite map_lookup_filter_Some. simpl. split; [|done]. split; [done|]. intros Hin.
      by apply Hni, (Hdown p id x).
  - intros n id [Hn Hni]%map_lookup_filter_Some. destruct (Hna n id Hn) as (x&Hx&?). exists x.
    rewrite map_lookup_filter_Some. done.
  - intros y Hy. destruct (Hs y Hy) as [Hb Hl]. split; simpl; [done|].
    intros x [Hx _]%map_lookup_filter_Some. by apply Hl.
Qed.

(** The name index and the tenants agree. *)
Definition index_ok s : Prop :=
  (∀ id x, tenants s !! id = Some x → by_name s !! t_name x = Some id) ∧
  (∀ n id, by_name s !! n = Some id → ∃ x, tenants s !! id = Some x ∧ t_name x = n).

Lemma inv_index s : inv s → index_ok s.
Proof.
  intros Hi. split; [|apply (inv_name _ Hi)]. intros id x Hx.
  by apply (inv_tenant _ Hi) in Hx as [].
Qed.

(** Removing one tenant and its name is [remove_tenants] of a singleton. *)
Lemma remove_one id x s :
  index_ok s → tenants s !! id = Some x →
  set_by_name (base.delete (t_name x) (by_name s)) (set_tenants (base.delete id (tenants s)) s) =
  remove_tenants [id] s.
Proof.
  intros [Ht Hn] Hx. unfold remove_tenants, set_by_name, set_tenants. simpl. f_equal.
  - apply map_eq. intros k. apply option_eq. intros z.
    rewrite lookup_delete_Some, map_lookup_filter_Some. simpl.
    rewrite list_elem_of_singleton. naive_solver.
  - apply map_eq. intros n. apply option_eq. intros k.
    rewrite lookup_delete_Some, map_lookup_filter_Some. simpl. rewrite list_elem_of_singleton.
    pose proof (Ht _ _ Hx) as Hxn. split.
    + intros [Hne Hk]. split; [done|]. intros ->. destruct (Hn _ _ Hk) as (z&Hz&<-).
      simplify_eq.
    + intros [Hk Hne]. split; [|done]. intros <-. simplify_eq.
Qed.

Lemma index_ok_remove ids s : index_ok s → index_ok (remove_tenants ids s).
Proof.
  intros [Ht Hn]. split; simpl.
  - intros id x [Hx Hni]%map_lookup_filter_Some. rewrite map_lookup_filter_Some. auto.
  - intros n id [Hk Hni]%map_lookup_filter_Some. destruct (Hn n id Hk) as (x&?&?).
    exists x. by rewrite map_lookup_filter_Some.
Qed.

Lemma remove_remove k ids s :
  remove_tenants ids (remove_tenants [k] s) = remove_tenants (k :: ids) s.
Proof.
  unfold remove_tenants. simpl. f_equal; apply map_eq; intros i; apply option_eq; intros z;
    rewrite !map_lookup_filter_Some; simpl; rewrite list_elem_of_singleton, elem_of_cons; tauto.
Qed.

Lemma delete_cases id s :
  (∃ e, delete id s = (Err e, s)) ∨
  (∃ x, tenants s !! id = Some x ∧ t_usage x = usage_default ∧
     (∀ k z, tenants s !! k = Some z → t_parent z ≠ Some id) ∧
     delete id s = (Ok tt, set_by_name (base.delete (t_name x) (by_name s))
                             (set_tenants (base.delete id (tenants s)) s))).
Proof.
  unfold delete, get_tenant. st_unfold. destruct (tenants s !! id) as [x|] eqn:Ex; simpl; [|by left; eauto].
  destruct (existsb _ _) eqn:Eb; simpl; [by left; eauto|].
  case_bool_decide as Hu; simpl; [|by left; eauto]. right. exists x. split; [done|]. split; [done|].
  split; [|done]. intros k z Hz Hp. rewrite <-not_true_iff_false, existsb_exists in Eb. apply Eb.
  exists z. rewrite <-list_elem_of_In, elem_of_hash_values. split; [eauto|].
  by apply bool_decide_eq_true.
Qed.

Lemma inv_delete id s : inv s → inv (delete id s).2.
Proof.
  intros Hi. destruct (delete_cases id s) as [[e ->]|(x&Hx&_&Hno&->)]; simpl; [done|].
  rewrite remove_one by (done || by apply inv_index). apply inv_remove; [done|].
  intros p k z ->%list_elem_of_singleton Hz Hp. by destruct (Hno k z Hz).
Qed.

(** ** Users *)
Lemma add_user_cases id name req s :
  (∃ e, add_user id name req s = (Err e, s)) ∨
  (∃ x u, tenants s !! id = Some x ∧ validate_segment name = Ok tt ∧
     (∀ v, v ∈ t_users x → u_name v ≠ name) ∧
     TenantCaps.contains (t_root_caps x) req = true ∧ fits 64 (next_user_id s + 1) ∧
     u = mkUser (next_user_id s + 1) name req None ∧
     add_user id name req s =
       (Ok u, put_tenant id (set_users (t_users x ++ [u]) x) (set_next_user (next_user_id s + 1) s))).
Proof.
  unfold add_user, get_tenant. st_unfold.
  destruct (validate_segment name) as [[]|e]; simpl; [|by left; eauto].
  destruct (tenants s !! id) as [x|] eqn:Ex; simpl; [|by left; eauto].
  destruct (existsb _ _) eqn:Eb; simpl; [by left; eauto|].
  destruct (attenuate (t_root_caps x) req) as [c|e] eqn:Ea; simpl; [|by left; eauto].
  apply CapsFacts.attenuate_Ok in Ea as [-> Hc].
  unfold checked_add. destruct (checked 64 (next_user_id s + 1)) as [n|] eqn:En; simpl; [|by left; eauto].
  apply checked_Some in En as [-> Hfit].
  right. eexists x, _. split; [done|]. split; [done|]. split.
  { intros v Hv Hn. rewrite <-not_true_iff_false, existsb_exists in Eb. apply Eb. exists v.
    rewrite <-list_elem_of_In. split; [done|]. by apply bool_decide_eq_true. }
  done.
Qed.

Lemma speaks_for_more x us y :
  (∀ u, u ∈ t_users x → u ∈ us) → speaks_for x y → speaks_for (set_users us x) y.
Proof. intros Hus (u&Hu&?). exists u. split; [by apply Hus|done]. Qed.

Lemma inv_add_user id name req s : inv s → inv (add_user id name req s).2.
Proof.
  intros Hi. destruct (add_user_cases id name req s)
    as [[e ->]|(x&u&Hx&Hv&Hfresh&Hc&_&->&->)]; simpl; [done|].
  assert (inv (set_next_user (next_user_id s + 1) s)) as Hi' by (apply inv_counters; [lia|lia|done]).
  destruct (inv_tenant _ Hi _ _ Hx) as [_ _ _ _ _ Hw _ [Hids Hnames Heach]].
  eapply inv_put_keep; [done|done|done|done| |].
  - split; simpl.
    + rewrite fmap_app. apply NoDup_app. split; [done|]. split; [|apply NoDup_singleton].
      simpl. intros i (v&->&Hv')%list_elem_of_fmap Hn%list_elem_of_singleton.
      destruct (Heach v Hv'). lia.
    + rewrite fmap_app. apply NoDup_app. split; [done|]. split; [|apply NoDup_singleton].
      simpl. intros i (v&->&Hv')%list_elem_of_fmap Hn%list_elem_of_singleton.
      by apply (Hfresh v).
    + intros v [Hv'| ->%list_elem_of_singleton]%elem_of_app; simpl; [|done].
      destruct (Heach v Hv'). split; [lia|done].
  - intros y _ _. apply speaks_for_more. intros v Hv'. apply elem_of_app. by left.
Qed.

Lemma inv_remove_user id user s : inv s → inv (remove_user id user s).2.
Proof.
  intros Hi. unfold remove_user, get_tenant. st_unfold.
  destruct (tenants s !! id) as [x|] eqn:Ex; simpl; [|done].
  destruct (inv_tenant _ Hi _ _ Ex) as [_ _ _ _ _ Hw _ [Hids Hnames Heach]].
  apply (inv_put s id x); [done|done|done|done| |].
  - split; simpl; [by apply NoDup_fmap_retain|by apply NoDup_fmap_retain|].
    intros v [Hv _]%elem_of_retain. by apply Heach.
  - intros y _ Hp Ht (u&Hu&Hid&Hrest). exists u. split; [|done]. simpl. apply elem_of_retain.
    split; [done|]. rewrite negb_true_iff, andb_false_iff, !bool_decide_eq_false in Hp.
    rewrite negb_true_iff, bool_decide_eq_false. destruct Hp as [?|Hp]; [done|]. congruence.
Qed.

End inv.
