(* ===== verification/TenantQuota.v ===== *)
(** * TenantQuota: charging and releasing along the ancestor chain *)
From S2P Require Import Prelude.
From S2P Require Import Text.
From S2P Require Import Errors.
From S2P Require Import Maps.
From S2P Require Import Caps.
From S2P Require Import Quota.
From S2P Require Import Tenant.
From S2P Require Import TenantStore.
From S2P Require Import TenantInv.
Import StoreState.

Section quota.
Context `{HashOrder} `{AuthPrims}.
Implicit Types (s : StoreState.t) (x : Tenant) (id : N).

(** ** The ancestor chain *)
Inductive ancestry (ts : gmap N Tenant) : option TenantId → list TenantId → Prop :=
| anc_root : ancestry ts None []
| anc_step id x rest :
    ts !! id = Some x → ancestry ts (t_parent x) rest → ancestry ts (Some id) (id :: rest).

Lemma ancestry_fun ts cur l1 l2 : ancestry ts cur l1 → ancestry ts cur l2 → l1 = l2.
Proof.
  intros H1. revert l2. induction H1 as [|id x rest Hx _ IH]; intros l2; inversion 1; [done|].
  simplify_eq. f_equal. by apply IH.
Qed.

(** Under the invariant every live tenant has a chain, of decreasing ids. *)
Lemma ancestry_exists s : inv s → ∀ id x, tenants s !! id = Some x →
  ∃ l, ancestry (tenants s) (Some id) l ∧ NoDup l ∧
    ∀ k, k ∈ l → (k ≤ id)%N ∧ is_Some (tenants s !! k).
Proof.
  intros Hi id. induction (N.lt_wf_0 id) as [id _ IH]. intros x Hx.
  pose proof (inv_tenant _ Hi _ _ Hx) as [Hid _ _ _ _ _ Hp _].
  destruct (t_parent x) as [p|] eqn:Ep.
  - destruct (Hp p Ep) as (Hlt&px&Hpx&_). rewrite Hid in Hlt.
    destruct (IH p Hlt px Hpx) as (l&Hl&Hnd&Hall). exists (id :: l). split; [|split].
    + econstructor; [done|]. by rewrite Ep.
    + apply NoDup_cons. split; [|done]. intros Hin. destruct (Hall id Hin). lia.
    + intros k [->|Hk]%elem_of_cons; [eauto|]. destruct (Hall k Hk). split; [lia|done].
  - exists [id]. split; [|split].
    + econstructor; [done|]. rewrite Ep. constructor.
    + apply NoDup_singleton.
    + intros k ->%list_elem_of_singleton. eauto.
Qed.

Lemma chain_loop_spec ts cur l :
  ancestry ts cur l → ∀ fuel,
  chain_loop ts fuel cur =
    if decide (length l ≤ fuel) then Ok l else Err (Internal "tenant hierarchy too deep").
Proof.
  induction 1 as [|id x rest Hx _ IH]; intros fuel.
  - destruct fuel; cbn [chain_loop length]; rewrite decide_True by lia; done.
  - destruct fuel as [|fuel]; cbn [chain_loop length]; [rewrite decide_False by lia; done|].
    rewrite Hx. cbn [ok_or mbind result_bind]. rewrite IH.
    destruct (decide (length rest ≤ fuel)), (decide (S (length rest) ≤ S fuel)); simpl;
      try done; lia.
Qed.

Lemma chain_from_spec s id x :
  inv s → tenants s !! id = Some x →
  ∃ l, ancestry (tenants s) (Some id) (id :: l) ∧ NoDup (id :: l) ∧
    (∀ k, k ∈ id :: l → is_Some (tenants s !! k)) ∧
    chain_from id s = if decide (length (id :: l) ≤ MAX_CHAIN) then Ok (id :: l)
                      else Err (Internal "tenant hierarchy too deep").
Proof.
  intros Hi Hx. destruct (ancestry_exists s Hi id x Hx) as (l&Hl&Hnd&Hall).
  pose proof (chain_loop_spec _ _ _ Hl MAX_CHAIN) as Hc.
  inversion Hl as [|? y rest Hy Hr]; subst. exists rest. split; [done|]. split; [done|].
  split; [|done]. intros k Hk. by destruct (Hall k Hk).
Qed.

Lemma chain_from_unknown s id :
  tenants s !! id = None → chain_from id s = Err (Invalid "tenant id unknown").
Proof. intros Hx. unfold chain_from, MAX_CHAIN. simpl. by rewrite Hx. Qed.

(** ** The effect on usages *)

(** Apply a function to the usage of each listed tenant. *)
Definition on_usages (f : Tenant → QuotaUsage) (l : list N) (ts : gmap N Tenant) : gmap N Tenant :=
  map_imap (λ k x, Some (if decide (k ∈ l) then set_usage (f x) x else x)) ts.

Lemma on_usages_lookup f l ts k :
  on_usages f l ts !! k =
    (λ x, if decide (k ∈ l) then set_usage (f x) x else x) <$> ts !! k.
Proof. unfold on_usages. rewrite map_lookup_imap. by destruct (ts !! k). Qed.

Lemma on_usages_cons f id x l ts :
  id ∉ l → ts !! id = Some x →
  on_usages f l (<[id := set_usage (f x) x]> ts) = on_usages f (id :: l) ts.
Proof.
  intros Hni Hx. apply map_eq. intros k. rewrite !on_usages_lookup.
  destruct (decide (k = id)) as [->|Hne].
  - rewrite lookup_insert_eq, Hx. simpl. rewrite decide_False by done.
    by rewrite decide_True by left.
  - rewrite lookup_insert_ne by done. destruct (ts !! k); [|done]. simpl.
    destruct (decide (k ∈ l)) as [Hk|Hk].
    + by rewrite decide_True by (by right).
    + rewrite decide_False; [done|]. by intros [?|?]%elem_of_cons.
Qed.

Lemma on_usages_nil f ts : on_usages f [] ts = ts.
Proof.
  apply map_eq. intros k. rewrite on_usages_lookup.
  destruct (decide (k ∈ [])) as [?%elem_of_nil|]; [done|]. by destruct (ts !! k).
Qed.

(** The usage after an accepted charge. *)
Definition charged (c : QuotaCharge) x : QuotaUsage := capped_sum (t_usage x) c.
Lemma charged_Ok c x u : charge_quota (t_usage x) (t_quotas x) c = Ok u → charged c x = u.
Proof.
  intros Hu. pose proof (charge_quota_capped (t_usage x) (t_quotas x) c) as Hc. rewrite Hu in Hc.
  by destruct Hc.
Qed.
Definition released (c : QuotaCharge) x : QuotaUsage := release_quota (t_usage x) c.

Definition accepts (c : QuotaCharge) (ts : gmap N Tenant) (k : N) : Prop :=
  ∃ x u, ts !! k = Some x ∧ charge_quota (t_usage x) (t_quotas x) c = Ok u.

Lemma charge_check_spec ts id c l :
  (∀ k, k ∈ l → is_Some (ts !! k)) →
  match charge_check ts id c l with
  | Ok _ => ∀ k, k ∈ l → accepts c ts k
  | Err e => ∃ k x tag, k ∈ l ∧ ts !! k = Some x ∧ e = Exhausted tag ∧
      charge_quota (t_usage x) (t_quotas x) c = Err e
  end.
Proof.
  induction l as [|k l IH]; intros Hall; [by intros ? ?%elem_of_nil|].
  destruct (Hall k) as [x Hx]; [by left|]. cbn [charge_check]. rewrite Hx. simpl.
  destruct (charge_quota _ _ c) as [u|e] eqn:Eq; simpl.
  - specialize (IH ltac:(intros; apply Hall; by right)).
    destruct (charge_check ts id c l) as [|e].
    + intros k' [->|Hk]%elem_of_cons; [by exists x, u|auto].
    + destruct IH as (k'&z&tag&?&?&?). exists k', z, tag. split; [by right|done].
  - pose proof (charge_quota_Err _ _ _ _ Eq) as [tag ->]. exists k, x, tag.
    split; [by left|]. split; [done|]. split; by destruct (decide (k ≠ id)).
Qed.

Lemma charge_apply_spec c l : ∀ i u s,
  NoDup l → (∀ k, k ∈ l → accepts c (tenants s) k) →
  charge_apply c l i u s =
    (Ok (match l with
         | k :: _ => if decide (i = 0) then default u (charged c <$> tenants s !! k) else u
         | [] => u
         end), set_tenants (on_usages (charged c) l (tenants s)) s).
Proof.
  induction l as [|k l IH]; intros i u s Hnd Hall; cbn [charge_apply].
  - rewrite on_usages_nil. by destruct s.
  - apply NoDup_cons in Hnd as [Hni Hnd].
    destruct (Hall k) as (x&u'&Hx&Hu); [by left|].
    assert (charged c x = u') as Hch by by apply charged_Ok.
    unfold get_tenant. st_unfold. rewrite Hx. simpl. rewrite Hu. simpl.
    rewrite IH; [|done|].
    + rewrite <-Hch. simpl. rewrite on_usages_cons by done. unfold set_tenants. simpl. f_equal. f_equal.
      destruct l as [|k' l']; [by destruct (decide (i = 0))|].
      by destruct (decide (i = 0)).
    + intros k' Hk'. destruct (Hall k') as (z&v&Hz&Hv); [by right|]. exists z, v. simpl.
      rewrite lookup_insert_ne; [done|]. intros <-. done.
Qed.

Lemma release_apply_spec c l : ∀ i u s,
  NoDup l → (∀ k, k ∈ l → is_Some (tenants s !! k)) →
  release_apply c l i u s =
    (Ok (match l with
         | k :: _ => if decide (i = 0) then default u (released c <$> tenants s !! k) else u
         | [] => u
         end), set_tenants (on_usages (released c) l (tenants s)) s).
Proof.
  induction l as [|k l IH]; intros i u s Hnd Hall; cbn [release_apply].
  - rewrite on_usages_nil. by destruct s.
  - apply NoDup_cons in Hnd as [Hni Hnd]. destruct (Hall k) as [x Hx]; [by left|].
    unfold get_tenant. st_unfold. rewrite Hx. simpl. rewrite IH; [|done|].
    + fold (released c x). simpl. rewrite on_usages_cons by done. unfold set_tenants. simpl. f_equal. f_equal.
      destruct l as [|k' l']; [by destruct (decide (i = 0))|].
      by destruct (decide (i = 0)).
    + intros k' Hk'. destruct (Hall k') as [z Hz]; [by right|]. simpl.
      rewrite lookup_insert_ne; [eauto|]. intros <-. done.
Qed.

(** [charge], case by case. *)
Lemma charge_cases id c s :
  inv s →
  (∃ e, charge id c s = (Err e, s) ∧
     (tenants s !! id = None ∨
      (∃ l, ancestry (tenants s) (Some id) l ∧ MAX_CHAIN < length l) ∨
      (∃ l k x, ancestry (tenants s) (Some id) l ∧ k ∈ l ∧ tenants s !! k = Some x ∧
         charge_quota (t_usage x) (t_quotas x) c = Err e))) ∨
  (∃ x l, tenants s !! id = Some x ∧ ancestry (tenants s) (Some id) l ∧
     length l ≤ MAX_CHAIN ∧ NoDup l ∧ (∀ k, k ∈ l → accepts c (tenants s) k) ∧
     charge id c s = (Ok (charged c x), set_tenants (on_usages (charged c) l (tenants s)) s)).
Proof.
  intros Hi. unfold charge. st_unfold.
  destruct (tenants s !! id) as [x|] eqn:Ex.
  2:{ left. rewrite chain_from_unknown by done. eauto. }
  destruct (chain_from_spec s id x Hi Ex) as (l&Hl&Hnd&Hall&->).
  destruct (decide (length (id :: l) ≤ MAX_CHAIN)) as [Hle|Hgt].
  2:{ left. eexists. split; [done|]. right. left. exists (id :: l). split; [done|lia]. }
  pose proof (charge_check_spec (tenants s) id c (id :: l) Hall) as Hcheck.
  destruct (charge_check (tenants s) id c (id :: l)) as [[]|e].
  - right. exists x, (id :: l). split; [done|]. split; [done|]. split; [done|]. split; [done|].
    split; [done|]. rewrite charge_apply_spec by done. rewrite decide_True by done.
    by rewrite Ex.
  - left. destruct Hcheck as (k&z&tag&Hk&Hz&->&Hq). eexists. split; [done|]. right. right.
    exists (id :: l), k, z. done.
Qed.

Lemma release_cases id c s :
  inv s →
  (∃ e, release id c s = (Err e, s)) ∨
  (∃ x l, tenants s !! id = Some x ∧ ancestry (tenants s) (Some id) l ∧
     length l ≤ MAX_CHAIN ∧ NoDup l ∧
     release id c s = (Ok (released c x), set_tenants (on_usages (released c) l (tenants s)) s)).
Proof.
  intros Hi. unfold release. st_unfold.
  destruct (tenants s !! id) as [x|] eqn:Ex.
  2:{ left. rewrite chain_from_unknown by done. eauto. }
  destruct (chain_from_spec s id x Hi Ex) as (l&Hl&Hnd&Hall&->).
  destruct (decide (length (id :: l) ≤ MAX_CHAIN)) as [Hle|Hgt]; [|left; eauto].
  right. exists x, (id :: l). split; [done|]. split; [done|]. split; [done|]. split; [done|].
  rewrite release_apply_spec by done. rewrite decide_True by done. by rewrite Ex.
Qed.

(** ** Preservation *)
Lemma inv_on_usages f l s :
  inv s → (∀ k x, tenants s !! k = Some x → k ∈ l → within (f x) (t_quotas x)) →
  inv (set_tenants (on_usages f l (tenants s)) s).
Proof.
  intros [Ht Hna Hs Htok] Hf.
  set (g k x := if decide (k ∈ l) then set_usage (f x) x else x).
  assert (∀ k, on_usages f l (tenants s) !! k = g k <$> tenants s !! k) as Hlk
    by (intros; apply on_usages_lookup).
  assert (∀ k x, t_id (g k x) = t_id x ∧ t_name (g k x) = t_name x ∧ t_quotas (g k x) = t_quotas x ∧
    t_parent (g k x) = t_parent x ∧ t_namespace (g k x) = t_namespace x ∧
    t_users (g k x) = t_users x ∧ t_root_caps (g k x) = t_root_caps x) as Hg
    by (intros; unfold g; by case_decide).
  split; simpl; [| | |done].
  - intros k y. rewrite Hlk. intros (x&Hx&->)%fmap_Some_1.
    destruct (Ht k x Hx) as [Ti Tb Tn Tv Tns Tw Tp Tu].
    destruct (Hg k x) as (G1&G2&G3&G4&G5&G6&G7).
    split; rewrite ?G1, ?G2, ?G3, ?G5, ?G6, ?G7; try done.
    + unfold g. case_decide; simpl; [by apply (Hf k)|done].
    + intros p Hp. rewrite G4 in Hp. rewrite G1, G3. destruct (Tp p Hp) as (?&px&Hpx&?).
      split; [done|]. exists (g p px). simpl. rewrite Hlk, Hpx. split; [done|].
      by destruct (Hg p px) as (_&_&->&_).
  - intros n k Hn. destruct (Hna n k Hn) as (x&Hx&<-). exists (g k x). rewrite Hlk, Hx.
    split; [done|]. by destruct (Hg k x) as (_&->&_).
  - intros y Hy. destruct (Hs y Hy) as [Hb Hl]. split; simpl; [done|].
    intros z. rewrite Hlk. intros (x&Hx&->)%fmap_Some_1. destruct (Hl x Hx) as (u&Hu&?).
    exists u. by destruct (Hg (ses_tenant y) x) as (_&_&_&_&_&->&_).
Qed.

Lemma inv_charge id c s : inv s → inv (charge id c s).2.
Proof.
  intros Hi. destruct (charge_cases id c s Hi) as [(e&->&_)|(x&l&_&_&_&_&Hacc&->)]; simpl; [done|].
  apply inv_on_usages; [done|]. intros k z Hz Hk. destruct (Hacc k Hk) as (z'&u&Hz'&Hu).
  simplify_eq. rewrite (charged_Ok _ _ _ Hu). by eapply charge_within.
Qed.

Lemma inv_release id c s : inv s → inv (release id c s).2.
Proof.
  intros Hi. destruct (release_cases id c s Hi) as [[e ->]|(x&l&_&_&_&_&->)]; simpl; [done|].
  apply inv_on_usages; [done|]. intros k z Hz _. apply release_within.
  by apply (inv_tenant _ Hi) in Hz as [].
Qed.

(** ** Release undoes charge *)
Lemma ancestry_on_usages f l0 ts cur l :
  ancestry ts cur l → ancestry (on_usages f l0 ts) cur l.
Proof.
  induction 1 as [|id x rest Hx _ IH]; [constructor|].
  econstructor; [by rewrite on_usages_lookup, Hx|]. by case_decide.
Qed.

Lemma release_charged_map c l ts :
  (∀ k x, k ∈ l → ts !! k = Some x →
     finite_quotas (t_quotas x) ∧ accepts c ts k) →
  on_usages (released c) l (on_usages (charged c) l ts) = ts.
Proof.
  intros Hl. apply map_eq. intros k. rewrite !on_usages_lookup.
  destruct (ts !! k) as [x|] eqn:Ex; [|done]. simpl. destruct (decide (k ∈ l)) as [Hk|]; [|done].
  destruct (Hl k x Hk Ex) as (Hfin&x'&u&Hx'&Hu). simplify_eq. f_equal.
  unfold released. rewrite (charged_Ok _ _ _ Hu). simpl.
  rewrite (charge_exact_finite _ _ _ _ Hfin Hu), release_usage_plus. by destruct x.
Qed.
End quota.
