(* ===== verification/TenantAdmin.v ===== *)
(** * TenantAdmin: passwords, sessions, cap rotation and recursive deletion *)
From S2P Require Import Prelude.
From S2P Require Import Text.
From S2P Require Import Errors.
From S2P Require Import Maps.
From S2P Require Import Caps.
From S2P Require Import Quota.
From S2P Require Import Tenant.
From S2P Require Import TenantStore.
From S2P Require Import TenantInv.
Import StoreState.

Section admin.
Context `{HashOrder} `{AuthPrims}.
Implicit Types (s : StoreState.t) (x : Tenant) (id : N).

(** ** Passwords and sessions *)
Lemma update_first_fmap {A B} (g : A → B) p f (l : list A) :
  (∀ a, g (f a) = g a) → g <$> update_first p f l = g <$> l.
Proof.
  intros Hg. induction l as [|a l IH]; [done|]. simpl. destruct (p a); csimpl; [by rewrite Hg|].
  by rewrite IH.
Qed.

Lemma elem_of_update_first {A} p f (l : list A) a :
  a ∈ update_first p f l → a ∈ l ∨ ∃ b, b ∈ l ∧ p b = true ∧ a = f b.
Proof.
  induction l as [|b l IH]; [by intros ?%elem_of_nil|]. simpl. destruct (p b) eqn:Ep.
  - intros [->|?]%elem_of_cons; [right|left; by right]. exists b. split; [by left|done].
  - intros [->|Ha]%elem_of_cons; [left; by left|].
    destruct (IH Ha) as [?|(c&?&?)]; [left; by right|right; exists c; split; [by right|done]].
Qed.

Lemma update_first_elem {A} p f (l : list A) a :
  a ∈ l → a ∈ update_first p f l ∨ f a ∈ update_first p f l.
Proof.
  induction l as [|b l IH]; [by intros ?%elem_of_nil|]. simpl. rewrite elem_of_cons.
  destruct (p b).
  - intros [->|Ha]; [right; by left|left; by right].
  - intros [->|Ha]; [left; by left|]. destruct (IH Ha); [left|right]; by right.
Qed.

Lemma set_password_cases salt id user plain s :
  (∃ e, set_password salt id user plain s = (Err e, s)) ∨
  (∃ x u h, tenants s !! id = Some x ∧ find_first (has_id user) (t_users x) = Some u ∧
     argon_hash salt plain = Some h ∧ plain ≠ EmptyString ∧
     set_password salt id user plain s =
       (Ok tt, set_sessions (drop_user_sessions id user (sessions s))
         (put_tenant id (set_users (update_first (has_id user) (set_hash h) (t_users x)) x) s))).
Proof.
  unfold set_password, hash_password, get_tenant. st_unfold.
  destruct plain as [|c plain]; simpl; [by left; eauto|].
  destruct (argon_hash salt (String c plain)) as [h|] eqn:Eh; simpl; [|by left; eauto].
  destruct (tenants s !! id) as [x|] eqn:Ex; simpl; [|by left; eauto].
  destruct (find_first _ _) as [u|] eqn:Eu; simpl; [|by left; eauto].
  right. by exists x, u, h.
Qed.

Lemma inv_set_password salt id user plain s : inv s → inv (set_password salt id user plain s).2.
Proof.
  intros Hi. destruct (set_password_cases salt id user plain s)
    as [[e ->]|(x&u&h&Hx&_&_&_&->)]; simpl; [done|].
  destruct (inv_tenant _ Hi _ _ Hx) as [_ _ _ _ _ Hw _ [Hids Hnames Heach]].
  apply (inv_put s id x); [done|done|done|done| |].
  - split; simpl.
    + by rewrite update_first_fmap.
    + by rewrite update_first_fmap.
    + intros v [Hv|(w&Hw'&_&->)]%elem_of_update_first; [by apply Heach|]. by apply (Heach w).
  - intros y _ _ _ (v&Hv&?). destruct (update_first_elem (has_id user) (set_hash h) _ _ Hv) as [?|?].
    + by exists v.
    + by exists (set_hash h v).
Qed.

Lemma create_session_cases raw now id user req ttl s :
  (∃ e, create_session raw now id user req ttl s = (Err e, s)) ∨
  (∃ x u y, tenants s !! id = Some x ∧ find_first (has_id user) (t_users x) = Some u ∧
     y = mkSession (hash_token (mkToken (hex_of raw))) id user (u_name u)
           (CapsFacts.narrow (u_caps u) req) now
           (saturating_add 64 now (saturating_mul 64 (default DEFAULT_SESSION_TTL_SECS ttl) 1000)) ∧
     create_session raw now id user req ttl s =
       (Ok (mkToken (hex_of raw), y),
        set_sessions (retain (λ z, negb (has_token (ses_token_hash y) z)) (sessions s) ++ [y]) s)).
Proof.
  unfold create_session, get_tenant. st_unfold.
  destruct (tenants s !! id) as [x|] eqn:Ex; simpl; [|by left; eauto].
  destruct (find_first _ _) as [u|] eqn:Eu; simpl; [|by left; eauto].
  right. by eexists x, u, _.
Qed.

Lemma inv_create_session raw now id user req ttl s :
  inv s → inv (create_session raw now id user req ttl s).2.
Proof.
  intros Hi. destruct (create_session_cases raw now id user req ttl s)
    as [[e ->]|(x&u&y&Hx&Hu&Hy&->)]; simpl; [done|].
  pose proof (find_first_Some _ _ _ Hu) as [Huin Huid%bool_decide_eq_true].
  destruct Hi as [Ht Hna Hs Htok]. split; simpl; [|done| |].
  - intros k z Hz. by destruct (Ht k z Hz).
  - intros z [[Hz _]%elem_of_retain| ->%list_elem_of_singleton]%elem_of_app.
    + by destruct (Hs z Hz).
    + destruct (Ht _ _ Hx) as [? Hb]. split; simpl; [by subst|]. intros x' Hx'. subst y. simpl in *.
      simplify_eq. exists u. split; [done|]. split; [done|]. split; [done|]. apply CapsFacts.narrow_l.
  - rewrite fmap_app. apply NoDup_app. split; [by apply NoDup_fmap_retain|].
    split; [|apply NoDup_singleton]. simpl.
    intros h (z&->&[_ Hz]%elem_of_retain)%list_elem_of_fmap Heq%list_elem_of_singleton.
    unfold has_token in Hz. by rewrite bool_decide_eq_true_2 in Hz.
Qed.

Lemma retain_sessions_eq keep s :
  retain_sessions keep s =
    (Ok (length (sessions s) - length (keep (sessions s)))%nat, set_sessions (keep (sessions s)) s).
Proof. done. Qed.

Lemma inv_revoke_token tok s : inv s → inv (revoke_token tok s).2.
Proof. intros Hi. by apply inv_drop_sessions. Qed.

Lemma inv_purge now s : inv s → inv (purge_expired_sessions now s).2.
Proof. intros Hi. by apply inv_drop_sessions. Qed.

Lemma inv_revoke_user id user s : inv s → inv (revoke_user_sessions id user s).2.
Proof.
  intros Hi. unfold revoke_user_sessions. st_unfold. case_bool_decide; simpl; [done|].
  by apply inv_drop_sessions.
Qed.

Lemma inv_revoke_tenant id s : inv s → inv (revoke_tenant_sessions id s).2.
Proof.
  intros Hi. unfold revoke_tenant_sessions. st_unfold. case_bool_decide; simpl; [done|].
  by apply inv_drop_sessions.
Qed.

(** ** Rotation *)
Lemma rotate_cases id caps s :
  (∃ e, rotate_root_caps id caps s = (Err e, s)) ∨
  (∃ x n, tenants s !! id = Some x ∧
     (∀ p, t_parent x = Some p → ∃ px, tenants s !! p = Some px ∧
        TenantCaps.contains (t_root_caps px) caps = true) ∧
     rotate_root_caps id caps s =
       (Ok (mkRotateReport id (t_name x) (t_root_caps x) caps n
              (length (sessions s) - length (drop_tenant_sessions id (sessions s)))),
        set_sessions (drop_tenant_sessions id (sessions s))
          (put_tenant id (set_users (narrow_user caps <$> t_users x) (set_root_caps caps x)) s))).
Proof.
  unfold rotate_root_caps, get_tenant. st_unfold.
  destruct (tenants s !! id) as [x|] eqn:Ex; simpl; [|by left; eauto].
  destruct (t_parent x) as [p|] eqn:Ep; simpl.
  - destruct (tenants s !! p) as [px|] eqn:Epx; simpl; [|by left; eauto].
    destruct (TenantCaps.contains (t_root_caps px) caps) eqn:Ec; simpl; [|by left; eauto].
    right. eexists x, _. split; [done|]. split; [|reflexivity].
    intros p' Hp'. rewrite Ep in Hp'. simplify_eq. by exists px.
  - right. eexists x, _. split; [done|]. split; [|reflexivity]. intros p' Hp'. congruence.
Qed.

Lemma inv_rotate id caps s : inv s → inv (rotate_root_caps id caps s).2.
Proof.
  intros Hi. destruct (rotate_cases id caps s) as [[e ->]|(x&n&Hx&_&->)]; simpl; [done|].
  destruct (inv_tenant _ Hi _ _ Hx) as [_ _ _ _ _ Hw _ [Hids Hnames Heach]].
  apply (inv_put s id x); [done|done|done|done| |].
  - split; simpl.
    + by rewrite <-list_fmap_compose.
    + by rewrite <-list_fmap_compose.
    + intros v (u&->&Hu)%list_elem_of_fmap. destruct (Heach u Hu) as (?&_&?). split; [done|].
      split; [|done]. apply CapsFacts.narrow_r.
  - intros y _ Hp Ht. by rewrite negb_true_iff, bool_decide_eq_false in Hp.
Qed.

(** ** The subtree walk *)
Definition child (ts : gmap N Tenant) (p k : N) : Prop :=
  ∃ x, ts !! k = Some x ∧ t_parent x = Some p.
Definition desc (ts : gmap N Tenant) : N → N → Prop := rtc (child ts).

(** What the walk needs of the tenants: ids match their keys, and parents come
    first. *)
Definition forest (ts : gmap N Tenant) : Prop :=
  (∀ k x, ts !! k = Some x → t_id x = k) ∧ ∀ p k, child ts p k → (p < k)%N.

Lemma inv_forest s : inv s → forest (tenants s).
Proof.
  intros Hi. split.
  - intros k x Hx. by apply (inv_tenant _ Hi) in Hx as [].
  - intros p k (x&Hx&Hp). destruct (inv_tenant _ Hi _ _ Hx) as [<- _ _ _ _ _ Hpar _].
    by apply Hpar.
Qed.

Lemma each_Ok {E A B} (f : A → result E (list B)) l r :
  each f l = Ok r ↔ ∃ rs, Forall2 (λ k a, f k = Ok a) l rs ∧ r = concat rs.
Proof.
  revert r. induction l as [|k l IH]; intros r; cbn [each].
  - split.
    + intros [= <-]. exists []. done.
    + intros (rs&Hrs&->). by inversion Hrs.
  - rewrite result_bind_Ok. setoid_rewrite result_bind_Ok. setoid_rewrite IH. split.
    + intros (a&Ha&b&(rs&Hrs&->)&[= <-]). exists (a :: rs). split; [by constructor|done].
    + intros (rs&Hrs&->). inversion Hrs as [|? a ? rs' Ha Hrs']; subst. exists a.
      split; [done|]. exists (concat rs'). split; [eauto|done].
Qed.

Section walk.
Context (ts : gmap N Tenant) (Hf : forest ts).

Lemma child_parent p q k : child ts p k → child ts q k → p = q.
Proof. intros (x&Hx&Hp) (y&Hy&Hq). congruence. Qed.

Lemma desc_le p k : desc ts p k → (p ≤ k)%N.
Proof. induction 1 as [|a b c Hab _ IH]; [lia|]. apply Hf in Hab. lia. Qed.

Lemma desc_linear a b k : desc ts a k → desc ts b k → desc ts a b ∨ desc ts b a.
Proof.
  intros Ha Hb. revert k Hb Ha.
  refine (rtc_ind_r (λ k, desc ts a k → desc ts a b ∨ desc ts b a) b _ _); [by left|].
  intros m k Hbm Hmk IH [->|(m'&Ha&Hm')]%rtc_inv_r.
  - right. by eapply rtc_r.
  - rewrite (child_parent _ _ _ Hm' Hmk) in Ha. auto.
Qed.

Lemma siblings_disjoint r a b k :
  child ts r a → child ts r b → desc ts a k → desc ts b k → a = b.
Proof.
  intros Hra Hrb Ha Hb.
  assert (∀ c d, child ts r c → child ts r d → desc ts c d → c = d) as Hgen.
  { intros c d Hc Hd Hcd. apply rtc_inv_r in Hcd as [->|(m&Hcm&Hmd)]; [done|].
    rewrite (child_parent _ _ _ Hmd Hd) in Hcm. apply desc_le in Hcm.
    apply Hf in Hc. lia. }
  destruct (desc_linear a b k Ha Hb) as [?|?]; [by apply Hgen|]. symmetry. by apply Hgen.
Qed.

Lemma desc_cases r k : desc ts r k ↔ k = r ∨ ∃ c, child ts r c ∧ desc ts c k.
Proof.
  split.
  - intros [->|(c&?&?)]%rtc_inv; [by left|]. right. eauto.
  - intros [->|(c&?&?)]; [apply rtc_refl|]. by eapply rtc_l.
Qed.

Lemma kids_spec r : let kids := t_id <$> retain (is_child_of r) (hash_values ts) in
  (∀ k, k ∈ kids ↔ child ts r k) ∧ NoDup kids.
Proof.
  intros kids. split.
  - intros k. unfold kids. rewrite list_elem_of_fmap. split.
    + intros (x&->&[Hx Hp%bool_decide_eq_true]%elem_of_retain).
      apply elem_of_hash_values in Hx as [k Hk]. exists x. by rewrite (proj1 Hf _ _ Hk).
    + intros (x&Hx&Hp). exists x. split; [by rewrite (proj1 Hf _ _ Hx)|].
      apply elem_of_retain. split; [|by apply bool_decide_eq_true].
      apply elem_of_hash_values. eauto.
  - apply NoDup_fmap_retain. rewrite hash_values_perm.
    assert (t_id <$> (map_to_list ts).*2 = (map_to_list ts).*1) as ->.
    { rewrite <-list_fmap_compose. apply list_fmap_ext. intros i [k x] Hl. simpl.
      apply (proj1 Hf). apply elem_of_map_to_list. by eapply list_elem_of_lookup_2. }
    apply NoDup_fst_map_to_list.
Qed.

(** Children come before their parent. *)
Definition post_order (l : list N) : Prop :=
  ∀ l1 p l2 k, l = l1 ++ p :: l2 → child ts p k → k ∈ l1.

Lemma app_eq_mid {A} (a b l1 l2 : list A) p :
  a ++ b = l1 ++ p :: l2 →
  (∃ m, a = l1 ++ p :: m ∧ l2 = m ++ b) ∨ (∃ m, l1 = a ++ m ∧ b = m ++ p :: l2).
Proof.
  intros [([|q m]&->&He)|(m&->&He)]%app_eq_inv.
  - right. exists []. by rewrite !app_nil_r.
  - simplify_eq/=. left. eauto.
  - right. eauto.
Qed.

Lemma post_order_app a b : post_order a → post_order b → post_order (a ++ b).
Proof.
  intros Ha Hb l1 p l2 k [(m&Heq&_)|(m&->&Heq)]%app_eq_mid Hp.
  - by eapply Ha.
  - apply elem_of_app. right. by eapply Hb.
Qed.

Lemma post_order_snoc a r :
  post_order a → (∀ k, child ts r k → k ∈ a) → post_order (a ++ [r]).
Proof.
  intros Ha Hr l1 p l2 k [(m&Heq&_)|(m&->&Heq)]%app_eq_mid Hp.
  - by eapply Ha.
  - destruct m as [|q [|??]]; simplify_eq/=. rewrite app_nil_r. auto.
Qed.

Lemma walk_spec fuel : ∀ r l,
  walk ts fuel r = Ok l →
  (∀ k, k ∈ l ↔ desc ts r k) ∧ NoDup l ∧ post_order l.
Proof.
  induction fuel as [|fuel IH]; intros r l; [done|]. cbn [walk].
  destruct (kids_spec r) as [Hkids Hnd]. set (kids := t_id <$> _) in *.
  intros (below&Hb&[= <-])%result_bind_Ok. apply each_Ok in Hb as (rs&Hrs&->).
  assert (∀ k a, (k, a) ∈ zip kids rs → walk ts fuel k = Ok a) as Hzip.
  { clear -Hrs. induction Hrs as [|k a kids rs Hk _ IHr]; [by intros ?? ?%elem_of_nil|].
    intros k' a' [[= -> ->]|?]%elem_of_cons; auto. }
  assert (∀ a, a ∈ rs → ∃ k, k ∈ kids ∧ walk ts fuel k = Ok a) as Hrs_kid.
  { clear -Hrs. induction Hrs as [|k a kids rs Hk _ IHr]; [by intros ? ?%elem_of_nil|].
    intros a' [->|Ha]%elem_of_cons; [exists k; split; [by left|done]|].
    destruct (IHr a' Ha) as (k'&?&?). exists k'. split; [by right|done]. }
  assert (∀ k, k ∈ kids → ∃ a, a ∈ rs ∧ walk ts fuel k = Ok a) as Hkid_rs.
  { clear -Hrs. induction Hrs as [|k a kids rs Hk _ IHr]; [by intros ? ?%elem_of_nil|].
    intros k' [->|Ha]%elem_of_cons; [exists a; split; [by left|done]|].
    destruct (IHr k' Ha) as (a'&?&?). exists a'. split; [by right|done]. }
  assert (∀ k, k ∈ concat rs ↔ ∃ c, child ts r c ∧ desc ts c k) as Hconcat.
  { intros k. rewrite list_elem_of_In, in_concat. split.
    - intros (a&Ha%list_elem_of_In&Hk%list_elem_of_In). destruct (Hrs_kid a Ha) as (c&Hc&Hw).
      exists c. split; [by apply Hkids|]. by apply (IH c a Hw).
    - intros (c&Hc&Hk). apply Hkids in Hc as Hc'. destruct (Hkid_rs c Hc') as (a&Ha&Hw).
      exists a. rewrite <-!list_elem_of_In. split; [done|]. by apply (IH c a Hw). }
  split; [|split].
  - intros k. rewrite elem_of_app, list_elem_of_singleton, Hconcat, (desc_cases r k). tauto.
  - apply NoDup_app. split; [|split; [|apply NoDup_singleton]].
    + clear Hzip Hrs_kid Hkid_rs Hconcat.
      assert (∀ c, c ∈ kids → child ts r c) as Hch by (intros; by apply Hkids). clear Hkids.
      induction Hrs as [|k a kids' rs Hk Hrs IHr]; [apply NoDup_nil_2|]. simpl.
      apply NoDup_cons in Hnd as [Hni Hnd].
      apply NoDup_app. split; [by apply (IH k a Hk)|]. split.
      * intros z Hz Hz'. apply list_elem_of_In, in_concat in Hz' as (b&Hb&Hzb).
        apply list_elem_of_In in Hb, Hzb.
        assert (∃ k', k' ∈ kids' ∧ walk ts fuel k' = Ok b) as (k'&Hk'&Hw).
        { clear -Hrs Hb. induction Hrs as [|k a kids rs Hk _ IHr]; [by apply elem_of_nil in Hb|].
          apply elem_of_cons in Hb as [->|Hb]; [exists k; split; [by left|done]|].
          destruct (IHr Hb) as (k'&?&?). exists k'. split; [by right|done]. }
        apply Hni. rewrite (siblings_disjoint r k k' z); [done| | | |].
        -- apply Hch. by left.
        -- apply Hch. by right.
        -- by apply (IH k a Hk).
        -- by apply (IH k' b Hw).
      * apply IHr; [done|]. intros. apply Hch. by right.
    + intros k (c&Hc&Hk)%Hconcat ->%list_elem_of_singleton.
      apply desc_le in Hk. apply Hf in Hc. lia.
  - apply post_order_snoc; [|intros k Hk; apply Hconcat; exists k; split; [done|apply rtc_refl]].
    assert (∀ a, a ∈ rs → post_order a) as Hpost.
    { intros a Ha. destruct (Hrs_kid a Ha) as (c&_&Hw). by apply (IH c a Hw). }
    clear -Hpost. induction rs as [|a rs IHr]; [by intros [|??] ???|].
    apply post_order_app; [apply Hpost; by left|]. apply IHr. intros. apply Hpost. by right.
Qed.
End walk.

(** ** Recursive deletion *)
#[local] Arguments walk : simpl never.

Definition drop_all (ids : list N) (l : list Session) : list Session :=
  retain (λ y, negb (bool_decide (ses_tenant y ∈ ids))) l.

Lemma drop_all_cons k ids l : drop_all ids (drop_tenant_sessions k l) = drop_all (k :: ids) l.
Proof.
  unfold drop_all, drop_tenant_sessions. rewrite retain_retain. apply retain_ext. intros y _.
  rewrite <-negb_orb. f_equal. apply eq_true_iff_eq.
  rewrite orb_true_iff, !bool_decide_eq_true, elem_of_cons. done.
Qed.

Definition name_of s id : string := default EmptyString (t_name <$> tenants s !! id).
Definition users_of s id : nat := default 0 (length ∘ t_users <$> tenants s !! id).

Lemma delete_each_spec l : ∀ rep s,
  NoDup l → index_ok s → (∀ k, k ∈ l → is_Some (tenants s !! k)) →
  delete_each l rep s =
    (Ok (mkDeleteReport (del_tenants rep ++ ((λ k, (k, name_of s k)) <$> l))
           (del_revoked_sessions rep + (length (sessions s) - length (drop_all l (sessions s))))
           (del_dropped_users rep + sum_list (users_of s <$> l))),
     set_sessions (drop_all l (sessions s)) (remove_tenants l s)).
Proof.
  induction l as [|k l IH]; intros rep s Hnd Hix Hall; cbn [delete_each].
  - assert (drop_all [] (sessions s) = sessions s) as ->.
    { unfold drop_all. rewrite <-(retain_true (sessions s)) at 2. apply retain_ext. done. }
    assert (remove_tenants [] s = s) as ->.
    { unfold remove_tenants. destruct s as [? ? ts bn ?]. simpl. f_equal; apply map_filter_id;
        intros ???; apply not_elem_of_nil. }
    rewrite set_sessions_same, app_nil_r. simpl. destruct rep; simpl. unfold mret, st_ret.
    f_equal. f_equal. f_equal; lia.
  - apply NoDup_cons in Hnd as [Hni Hnd]. destruct (Hall k) as [x Hx]; [by left|].
    unfold mbind at 1, st_bind at 1. rewrite retain_sessions_eq. cbn [mbind st_bind].
    unfold get_tenant. st_unfold. rewrite Hx. simpl.
    pose proof (remove_one k x s Hix Hx) as Hrem.
    set (s1 := set_by_name _ _).
    assert (s1 = set_sessions (drop_tenant_sessions k (sessions s)) (remove_tenants [k] s)) as ->.
    { rewrite <-Hrem. done. }
    assert (∀ j, j ∈ l → tenants (remove_tenants [k] s) !! j = tenants s !! j) as Hsame.
    { intros j Hj. simpl. apply option_eq. intros z. rewrite map_lookup_filter_Some. simpl.
      rewrite list_elem_of_singleton. split; [tauto|]. intros ?. split; [done|]. congruence. }
    rewrite IH; [|done|by apply (index_ok_remove [k] s)|].
    + simpl. f_equal.
      * f_equal. f_equal.
        -- rewrite <-app_assoc. f_equal. simpl. f_equal; [unfold name_of; by rewrite Hx|].
           apply list_fmap_ext. intros i j Hj%list_elem_of_lookup_2. f_equal. unfold name_of.
           f_equal. f_equal. by apply Hsame.
        -- rewrite drop_all_cons.
           pose proof (retain_length (λ y, negb (bool_decide (ses_tenant y = k))) (sessions s)) as Hl1.
           fold (drop_tenant_sessions k (sessions s)) in Hl1.
           pose proof (retain_length (λ y, negb (bool_decide (ses_tenant y ∈ l)))
             (drop_tenant_sessions k (sessions s))) as Hl2.
           fold (drop_all l (drop_tenant_sessions k (sessions s))) in Hl2.
           rewrite drop_all_cons in Hl2. lia.
        -- assert (users_of s k = length (t_users x)) as -> by (unfold users_of; by rewrite Hx).
           assert (users_of (set_sessions (drop_tenant_sessions k (sessions s))
             (remove_tenants [k] s)) <$> l = users_of s <$> l) as ->.
           { apply list_fmap_ext. intros i j Hj%list_elem_of_lookup_2. unfold users_of.
             f_equal. f_equal. by apply Hsame. }
           apply eq_sym, Nat.add_assoc.
      * rewrite <-(remove_remove k l s), <-drop_all_cons. done.
    + intros j Hj. destruct (Hall j) as [z Hz]; [by right|]. exists z. rewrite <-Hz. by apply Hsame.
Qed.

Lemma check_idle_spec ts l :
  match check_idle ts l with
  | Ok _ => ∀ k, k ∈ l → ∃ x, ts !! k = Some x ∧ t_usage x = usage_default
  | Err e => ∃ k, k ∈ l ∧ ((ts !! k = None ∧ e = Internal "subtree node vanished") ∨
      ∃ x, ts !! k = Some x ∧ t_usage x ≠ usage_default ∧ e = Invalid "tenant in use")
  end.
Proof.
  induction l as [|k l IH]; [by intros ? ?%elem_of_nil|]. cbn [check_idle].
  destruct (ts !! k) as [x|] eqn:Ex; simpl.
  - case_bool_decide as Hu.
    + destruct (check_idle ts l) as [|e].
      * intros j [->|Hj]%elem_of_cons; eauto.
      * destruct IH as (j&?&?). exists j. split; [by right|done].
    + exists k. split; [by left|]. right. eauto.
  - exists k. split; [by left|]. by left.
Qed.

(** [delete_tenant_recursive], case by case. *)
Lemma delete_recursive_cases id s :
  inv s →
  (∃ e, delete_tenant_recursive id s = (Err e, s) ∧
     ((tenants s !! id = None ∧ e = Invalid "tenant id unknown") ∨
      (∃ k x, desc (tenants s) id k ∧ tenants s !! k = Some x ∧ t_usage x ≠ usage_default ∧
         e = Invalid "tenant in use") ∨
      walk (tenants s) MAX_CHAIN id = Err e)) ∨
  (∃ l, walk (tenants s) MAX_CHAIN id = Ok l ∧ is_Some (tenants s !! id) ∧
     (∀ k, k ∈ l ↔ desc (tenants s) id k) ∧ NoDup l ∧ post_order (tenants s) l ∧
     (∀ k, k ∈ l → ∃ x, tenants s !! k = Some x ∧ t_usage x = usage_default) ∧
     delete_tenant_recursive id s =
       (Ok (mkDeleteReport ((λ k, (k, name_of s k)) <$> l)
              (length (sessions s) - length (drop_all l (sessions s)))
              (sum_list (users_of s <$> l))),
        set_sessions (drop_all l (sessions s)) (remove_tenants l s))).
Proof.
  intros Hi. unfold delete_tenant_recursive. st_unfold.
  case_bool_decide as Hid; simpl; [left; eauto 6|].
  destruct (walk (tenants s) MAX_CHAIN id) as [l|e] eqn:Ew;
    [|left; exists e; split; [done|]; right; by right].
  pose proof (walk_spec (tenants s) (inv_forest s Hi) _ _ _ Ew) as (Hl&Hnd&Hpo).
  assert (∀ k, k ∈ l → is_Some (tenants s !! k)) as Hsome.
  { intros k Hk%Hl. apply rtc_inv_r in Hk as [<-|(m&_&x&Hx&_)]; [|eauto].
    by apply not_eq_None_Some. }
  pose proof (check_idle_spec (tenants s) l) as Hidle.
  destruct (check_idle (tenants s) l) as [[]|e].
  - right. exists l. split; [done|]. split; [by apply not_eq_None_Some|]. split; [done|].
    split; [done|]. split; [done|]. split; [done|].
    rewrite delete_each_spec by (done || by apply inv_index). done.
  - left. exists e. split; [done|]. right. left. destruct Hidle as (k&Hk&[[Hn _]|(x&?&?&->)]).
    + destruct (Hsome k Hk). congruence.
    + exists k, x. by rewrite <-Hl.
Qed.

Lemma inv_delete_recursive id s : inv s → inv (delete_tenant_recursive id s).2.
Proof.
  intros Hi. destruct (delete_recursive_cases id s Hi) as [(e&->&_)|(l&_&_&Hl&_&_&_&->)]; simpl; [done|].
  apply (inv_drop_sessions (remove_tenants l s) (λ y, negb (bool_decide (ses_tenant y ∈ l)))).
  apply inv_remove; [done|].
  intros p k x Hp%Hl Hx Hpar. apply Hl. eapply rtc_r; [done|]. by exists x.
Qed.
End admin.
