(* ===== verification/TenantProps.v ===== *)
(** * TenantProps: what the tenant store guarantees

    Histories of store calls, and the properties of the operations. *)
From S2P Require Import Prelude.
From S2P Require Import Text.
From S2P Require Import Errors.
From S2P Require Import Maps.
From S2P Require Import Caps.
From S2P Require Import Quota.
From S2P Require Import Tenant.
From S2P Require Import TenantStore.
From S2P Require Import TenantInv.
From S2P Require Import TenantQuota.
From S2P Require Import TenantAdmin.
Import StoreState.

(** The calls of the [TenantStore] trait that lock the state to act on it, with
    the clock readings and random bytes they draw. *)
Inductive store_call :=
| CCreate (spec : TenantSpec) (caps : TenantCaps.t)
| CDelete (id : TenantId)
| CAddUser (id : TenantId) (name : string) (caps : TenantCaps.t)
| CRemoveUser (id : TenantId) (user : UserId)
| CCharge (id : TenantId) (c : QuotaCharge)
| CRelease (id : TenantId) (c : QuotaCharge)
| CSetPassword (salt : string) (id : TenantId) (user : UserId) (plain : string)
| CCreateSession (raw : list Byte.byte) (now : N) (id : TenantId) (user : UserId)
    (caps : TenantCaps.t) (ttl : option N)
| CRevokeToken (tok : SessionToken)
| CPurge (now : N)
| CRevokeUser (id : TenantId) (user : UserId)
| CRevokeTenant (id : TenantId)
| CRotate (id : TenantId) (caps : TenantCaps.t)
| CDeleteRecursive (id : TenantId)
| CAuthenticate (tenant user password : string)
| CValidate (now : N) (tok : SessionToken).

Section props.
Context `{HashOrder} `{AuthPrims}.
Implicit Types (s : StoreState.t) (x : Tenant) (id : N).

(** The state after a call, whether it succeeded or failed. *)
Definition store_exec s (c : store_call) : StoreState.t :=
  match c with
  | CCreate spec caps => (create spec caps s).2
  | CDelete id => (delete id s).2
  | CAddUser id name caps => (add_user id name caps s).2
  | CRemoveUser id u => (remove_user id u s).2
  | CCharge id c => (charge id c s).2
  | CRelease id c => (release id c s).2
  | CSetPassword salt id u p => (set_password salt id u p s).2
  | CCreateSession raw now id u caps ttl => (create_session raw now id u caps ttl s).2
  | CRevokeToken tok => (revoke_token tok s).2
  | CPurge now => (purge_expired_sessions now s).2
  | CRevokeUser id u => (revoke_user_sessions id u s).2
  | CRevokeTenant id => (revoke_tenant_sessions id s).2
  | CRotate id caps => (rotate_root_caps id caps s).2
  | CDeleteRecursive id => (delete_tenant_recursive id s).2
  | CAuthenticate _ _ _ | CValidate _ _ => s
  end.

Definition store_run (cs : list store_call) : StoreState.t := foldl store_exec default_state cs.

Lemma store_exec_inv c s : inv s → inv (store_exec s c).
Proof.
  intros Hi. destruct c; simpl.
  - by apply inv_create.
  - by apply inv_delete.
  - by apply inv_add_user.
  - by apply inv_remove_user.
  - by apply inv_charge.
  - by apply inv_release.
  - by apply inv_set_password.
  - by apply inv_create_session.
  - by apply inv_revoke_token.
  - by apply inv_purge.
  - by apply inv_revoke_user.
  - by apply inv_revoke_tenant.
  - by apply inv_rotate.
  - by apply inv_delete_recursive.
  - done.
  - done.
Qed.

Lemma store_run_inv cs : inv (store_run cs).
Proof.
  unfold store_run. assert (∀ s, inv s → inv (foldl store_exec s cs)) as Hgen.
  { induction cs as [|c cs IH]; intros s Hi; [done|]. by apply IH, store_exec_inv. }
  apply Hgen, inv_default.
Qed.

(** ** Properties *)

(** C2: the store's invariant holds after every history of calls, successful
    or failing: tenants are filed under their own ids, which never exceed the
    counter; names are well-formed, unique and indexed exactly; a parent
    exists, is older and has quotas at least as large; every usage is within
    its quotas; users have distinct ids and names and capabilities within the
    tenant's root set; and a session whose tenant still exists speaks for a
    user of that tenant who still exists, with no more than that user's
    capabilities.  Nothing is said of the sessions of a tenant that is gone:
    [delete], unlike [delete_recursive], leaves its tokens in the table. *)
Theorem store_invariant cs : inv (store_run cs).
Proof. apply store_run_inv. Qed.

(** C22: a charge is all or nothing, and bounded.  On any reachable store,
    [charge] either fails and leaves the whole store as it was (because the
    tenant is unknown, its chain has more than 65 levels, or the sum would put
    some tenant of the chain over one of its quotas), or adds the charge, in
    each of the five dimensions, to the usage of the tenant and of each of its
    ancestors, every one of them staying within its own quotas, and changes no
    other tenant; the answer is the tenant's new usage.  The sum is cut off at
    the largest value of the dimension's type, and exact wherever the quotas
    are below it. *)
Theorem charge_all_or_nothing cs id c :
  let s := store_run cs in
  match charge id c s with
  | (Err e, s') => s' = s ∧
      (tenants s !! id = None ∨ ∃ l, ancestry (tenants s) (Some id) l ∧
         (MAX_CHAIN < length l ∨
          ∃ k z, k ∈ l ∧ tenants s !! k = Some z ∧ ¬ within (charged c z) (t_quotas z)))
  | (Ok u, s') => ∃ x l, tenants s !! id = Some x ∧ u = charged c x ∧
      ancestry (tenants s) (Some id) l ∧ length l ≤ MAX_CHAIN ∧
      s' = set_tenants (tenants s') s ∧
      ∀ k z, tenants s !! k = Some z →
        tenants s' !! k = Some (if decide (k ∈ l) then set_usage (charged c z) z else z) ∧
        (k ∈ l → within (charged c z) (t_quotas z) ∧
           (finite_quotas (t_quotas z) → charged c z = usage_plus (t_usage z) c))
  end.
Proof.
  intros s. destruct (charge_cases id c s (store_run_inv cs)) as [(e&->&He)|(x&l&Hx&Hl&Hle&_&Hacc&->)].
  { split; [done|]. destruct He as [?|[(l&?&?)|(l&k&z&?&?&?&Hq)]]; [by left|right; eauto|right].
    exists l. split; [done|]. right. exists k, z. split; [done|]. split; [done|].
    pose proof (charge_quota_capped (t_usage z) (t_quotas z) c) as Hc. by rewrite Hq in Hc. }
  exists x, l. split; [done|]. split; [done|]. split; [done|]. split; [done|]. split; [done|].
  intros k z Hz. simpl. rewrite on_usages_lookup, Hz. split; [done|].
  intros Hk. destruct (Hacc k Hk) as (z'&u&Hz'&Hu). simplify_eq. rewrite (charged_Ok _ _ _ Hu).
  split; [by eapply charge_within|]. intros Hfin. by eapply charge_exact_finite.
Qed.

(** Accounting balances: when no quota along the chain is unlimited,
    releasing what was just charged restores the store exactly. *)
Theorem release_undoes_charge cs id c u s' :
  let s := store_run cs in
  charge id c s = (Ok u, s') →
  (∀ l k x, ancestry (tenants s) (Some id) l → k ∈ l → tenants s !! k = Some x →
     finite_quotas (t_quotas x)) →
  (release id c s').2 = s ∧ is_ok (release id c s').1.
Proof.
  intros s Hch Hfin.
  destruct (charge_cases id c s (store_run_inv cs)) as [(e&Heq&_)|(x&l&Hx&Hl&Hle&Hnd&Hacc&Heq)];
    [congruence|].
  rewrite Hch in Heq. injection Heq as -> ->.
  set (s' := set_tenants _ s).
  assert (inv s') as Hi'.
  { replace s' with (charge id c s).2 by (by rewrite Hch).
    apply inv_charge, store_run_inv. }
  assert (tenants s' !! id = Some (if decide (id ∈ l) then set_usage (charged c x) x else x)) as Hx'.
  { simpl. by rewrite on_usages_lookup, Hx. }
  destruct (chain_from_spec s' id _ Hi' Hx') as (l'&Hl'&_&Hall&Hc).
  rewrite (ancestry_fun _ _ _ _ Hl' (ancestry_on_usages (charged c) l _ _ _ Hl)) in Hc, Hall.
  rewrite decide_True in Hc by done.
  unfold release. st_unfold. rewrite Hc. rewrite release_apply_spec by done. simpl. split; [|done].
  rewrite release_charged_map; [by destruct s|].
  intros k z Hk Hz. split; [by eapply Hfin|by apply Hacc].
Qed.

(** A hierarchy that is too deep is unusable.  [create] bounds no depth,
    but a tenant with 65 ancestors or more can neither be charged nor
    released: both fail with "tenant hierarchy too deep" whatever the quotas. *)
Theorem deep_tenants_cannot_charge cs id c l :
  let s := store_run cs in
  ancestry (tenants s) (Some id) l → MAX_CHAIN < length l →
  charge id c s = (Err (Internal "tenant hierarchy too deep"), s) ∧
  release id c s = (Err (Internal "tenant hierarchy too deep"), s).
Proof.
  intros s Hl Hlen.
  assert (chain_from id s = Err (Internal "tenant hierarchy too deep")) as Hc.
  { unfold chain_from. rewrite (chain_loop_spec _ _ _ Hl). by rewrite decide_False by lia. }
  unfold charge, release. st_unfold. by rewrite Hc.
Qed.

(** Subtenants are confined at birth, and only then is anything created.
    A successful [create] mints a fresh id, one above the counter, for a
    well-formed name nobody had, with no usage and no users; under a parent
    the new root capabilities are a subset of the parent's and no quota
    exceeds the parent's.  A failing [create] changes no tenant, name, user or
    session: at most it consumes an id, and then only for a malformed name. *)
Theorem create_confined cs spec caps :
  let s := store_run cs in
  match create spec caps s with
  | (Ok x, s') =>
      t_id x = (next_tenant_id s + 1)%N ∧ t_name x = spec_name spec ∧
      t_usage x = usage_default ∧ t_users x = [] ∧ t_root_caps x = caps ∧
      tenants s !! t_id x = None ∧ by_name s !! t_name x = None ∧
      get_by_name (spec_name spec) s' = Ok x ∧
      (∀ p, spec_parent spec = Some p → ∃ px, tenants s !! p = Some px ∧
         TenantCaps.contains (t_root_caps px) caps = true ∧
         quotas_exceed (spec_quotas spec) (t_quotas px) = false)
  | (Err e, s') =>
      s' = s ∨
      (s' = set_next_tenant (next_tenant_id s + 1) s ∧ validate_segment (spec_name spec) = Err e)
  end.
Proof.
  intros s. pose proof (store_run_inv cs) as Hi. fold s in Hi.
  destruct (create_cases spec caps s) as [[e ->]|[(e&->&He)|(x&->&Hx&_&Hnone&_&Hpar)]];
    [by left|by right|].
  split; [by subst|]. split; [by subst|]. split; [by subst|]. split; [by subst|].
  split; [by subst|]. split.
  { destruct (tenants s !! t_id x) as [z|] eqn:E; [|done].
    apply (inv_tenant _ Hi) in E as [_ Hb]. subst x. simpl in Hb. lia. }
  split; [by subst|]. split; [|done].
  unfold get_by_name. simpl. assert (t_name x = spec_name spec) as -> by (by subst).
  by rewrite lookup_insert_eq; simpl; rewrite lookup_insert_eq.
Qed.

(** C21: recursive deletion removes exactly the subtree.  It fails only for an
    unknown tenant, a subtree with usage somewhere, or a hierarchy deeper than
    the walk follows, and then changes nothing.  On success the tenants,
    names and sessions of the whole subtree, and nothing else, are gone; the
    report lists each of its nodes once, children before parents, whatever
    order the hash map iterates in; and every removed node was idle. *)
Theorem delete_recursive_exact cs id :
  let s := store_run cs in
  match delete_tenant_recursive id s with
  | (Err e, s') => s' = s
  | (Ok rep, s') =>
      let l := (del_tenants rep).*1 in
      (∀ k, k ∈ l ↔ desc (tenants s) id k) ∧ NoDup l ∧ post_order (tenants s) l ∧
      (∀ k x, tenants s' !! k = Some x ↔ tenants s !! k = Some x ∧ ¬ desc (tenants s) id k) ∧
      (∀ n k, by_name s' !! n = Some k ↔ by_name s !! n = Some k ∧ ¬ desc (tenants s) id k) ∧
      (∀ y, y ∈ sessions s' ↔ y ∈ sessions s ∧ ¬ desc (tenants s) id (ses_tenant y)) ∧
      (∀ k, k ∈ l → ∃ x, tenants s !! k = Some x ∧ t_usage x = usage_default) ∧
      del_revoked_sessions rep + length (sessions s') = length (sessions s)
  end.
Proof.
  intros s. pose proof (store_run_inv cs) as Hi. fold s in Hi.
  destruct (delete_recursive_cases id s Hi) as [(e&->&_)|(l&_&_&Hl&Hnd&Hpo&Hidle&->)]; [done|].
  assert (((λ k, (k, name_of s k)) <$> l).*1 = l) as Hfst.
  { rewrite <-list_fmap_compose. apply list_fmap_id. }
  simpl. rewrite Hfst. split; [done|]. split; [done|]. split; [done|].
  split; [|split; [|split; [|split]]].
  - intros k x. by rewrite map_lookup_filter_Some, <-Hl.
  - intros n k. by rewrite map_lookup_filter_Some, <-Hl.
  - intros y. unfold drop_all. by rewrite elem_of_retain, negb_true_iff, bool_decide_eq_false, Hl.
  - done.
  - pose proof (retain_length (λ y, negb (bool_decide (ses_tenant y ∈ l))) (sessions s)).
    unfold drop_all. lia.
Qed.

(** *** Authentication *)
Lemma find_first_name u us :
  NoDup (u_name <$> us) → u ∈ us →
  find_first (λ v, bool_decide (u_name v = u_name u)) us = Some u.
Proof. apply find_first_key. Qed.

Lemma find_first_id u us :
  NoDup (u_id <$> us) → u ∈ us → find_first (has_id (u_id u)) us = Some u.
Proof. apply find_first_key. Qed.

Lemma update_first_key {A B} `{EqDecision B} (g : A → B) f (l : list A) a :
  NoDup (g <$> l) → (∀ b, g (f b) = g b) → a ∈ l →
  f a ∈ update_first (λ y, bool_decide (g y = g a)) f l.
Proof.
  intros Hnd Hg. induction l as [|b l IH]; [by intros ?%elem_of_nil|]. csimpl in *.
  apply NoDup_cons in Hnd as [Hni Hnd]. intros [->|Ha]%elem_of_cons.
  - rewrite bool_decide_eq_true_2 by done. by left.
  - rewrite bool_decide_eq_false_2; [right; by apply IH|]. intros Heq. apply Hni. rewrite Heq.
    by apply list_elem_of_fmap_2.
Qed.

Context `{!AuthLaws}.

(** A password opens exactly its own account.  After a successful
    [set_password], [authenticate] with that tenant and user name accepts the
    new password, answering the ids and the user's capabilities, and refuses
    every other one; and whatever is wrong (unknown tenant, unknown user, no
    password, wrong password), on any store, the refusal is always the same
    error. *)
Theorem password_opens_account cs salt id user plain s' :
  let s := store_run cs in
  set_password salt id user plain s = (Ok tt, s') →
  ∃ x u, tenants s !! id = Some x ∧ u ∈ t_users x ∧ u_id u = user ∧
    (∀ q, authenticate (t_name x) (u_name u) q s' =
       if decide (q = plain) then Ok (id, user, u_caps u) else Err denied) ∧
    ∀ s0 tn un q e, authenticate tn un q s0 = Err e → e = denied.
Proof.
  intros s Hset. pose proof (store_run_inv cs) as Hi. fold s in Hi.
  destruct (set_password_cases salt id user plain s)
    as [[e ?]|(x&u&h&Hx&Hu&Hh&_&Heq)]; [congruence|].
  rewrite Hset in Heq. injection Heq as ->.
  apply find_first_Some in Hu as [Huin Huid%bool_decide_eq_true]. exists x, u.
  split; [done|]. split; [done|]. split; [done|]. split.
  - intros q. destruct (inv_tenant _ Hi _ _ Hx) as [_ _ Hn _ _ _ _ [Hids Hnames _]].
    unfold authenticate, verify_password. simpl. rewrite Hn. simpl. rewrite lookup_insert_eq. simpl.
    assert (find_first (λ v, bool_decide (u_name v = u_name u))
      (update_first (has_id user) (set_hash h) (t_users x)) = Some (set_hash h u)) as ->.
    { change (u_name u) with (u_name (set_hash h u)). apply find_first_name.
      - by rewrite update_first_fmap.
      - unfold has_id. rewrite <-Huid. by apply (update_first_key u_id). }
    simpl. pose proof (argon_verify_hash salt plain h q Hh) as Hver.
    destruct (argon_verify q h); destruct (decide (q = plain)) as [Hq|Hq]; simpl; try naive_solver.
  - intros s0 tn un q e. unfold authenticate, verify_password. st_unfold.
    destruct (by_name s0 !! tn) as [k|]; [|by intros [= <-]].
    destruct (tenants s0 !! k) as [z|]; [|by intros [= <-]].
    destruct (find_first _ _) as [v|]; [|by intros [= <-]].
    destruct (u_password_hash v) as [hv|]; [|by intros [= <-]].
    destruct (argon_verify q hv); [done|]. by intros [= <-].
Qed.

(** A minted session carries no more than its user's capabilities, nor than was
    requested. *)
Lemma minted_caps raw now id user req ttl tok y s s' :
  create_session raw now id user req ttl s = (Ok (tok, y), s') →
  ∃ x u, tenants s !! id = Some x ∧ u ∈ t_users x ∧ u_id u = user ∧
    ses_tenant y = id ∧ ses_user y = user ∧ ses_user_name y = u_name u ∧
    TenantCaps.contains (u_caps u) (ses_caps y) = true ∧
    TenantCaps.contains req (ses_caps y) = true.
Proof.
  intros Hcreate. destruct (create_session_cases raw now id user req ttl s)
    as [[e ?]|(x&u&y'&Hx&Hu&Hy&Heq)]; [congruence|].
  rewrite Hcreate in Heq. injection Heq as -> -> ->.
  apply find_first_Some in Hu as [Huin Huid%bool_decide_eq_true].
  exists x, u. rewrite Hy. simpl. do 6 (split; [done|]).
  split; [apply CapsFacts.narrow_l|apply CapsFacts.narrow_r].
Qed.

(** Its token finds it until it expires. *)
Lemma minted_valid raw now id user req ttl tok y s s' later :
  create_session raw now id user req ttl s = (Ok (tok, y), s') →
  validate_token later tok s' =
    if decide (later < ses_expires_ms y)%N then Ok y else Err (CapabilityDenied "auth.session").
Proof.
  intros Hcreate. destruct (create_session_cases raw now id user req ttl s)
    as [[e ?]|(x&u&y'&Hx&Hu&Hy&Heq)]; [congruence|].
  rewrite Hcreate in Heq. injection Heq as -> -> ->. unfold validate_token. simpl.
  assert (find_first (has_token (hash_token (mkToken (hex_of raw))))
    (retain (λ z, negb (has_token (ses_token_hash y') z)) (sessions s) ++ [y']) = Some y') as ->.
  { assert (hash_token (mkToken (hex_of raw)) = ses_token_hash y') as -> by (by rewrite Hy).
    generalize (sessions s). intros l. unfold find_first, retain.
    induction l as [|z l IH]; simpl.
    - unfold has_token. by rewrite bool_decide_eq_true_2.
    - destruct (has_token (ses_token_hash y') z) eqn:E; simpl; [done|]. by rewrite E. }
  st_unfold. unfold is_expired_at. case_decide as Hl.
  - by rewrite (proj2 (N.leb_gt _ _)).
  - by rewrite (proj2 (N.leb_le _ _)) by lia.
Qed.

(** The token is 64 hexadecimal digits, and survives a session file. *)
Lemma minted_token raw now id user req ttl tok y s s' :
  create_session raw now id user req ttl s = (Ok (tok, y), s') → length raw = 32 →
  from_hex (token_str tok) = Ok tok.
Proof.
  intros Hcreate Hraw. destruct (create_session_cases raw now id user req ttl s)
    as [[e ?]|(x&u&y'&Hx&Hu&Hy&Heq)]; [congruence|].
  rewrite Hcreate in Heq. injection Heq as -> -> ->.
  destruct (hex_of_spec raw) as [Hlen Hhex]. unfold from_hex. simpl. rewrite Hlen, Hraw.
  rewrite (str_forall_impl is_lower_hex is_ascii_hexdigit); [|by intros c [? _]%andb_true_iff|done].
  simpl. by rewrite str_map_lower_id.
Qed.

(** The life of a session.  A minted session never carries more than its
    user's capabilities nor than was requested; its token validates to exactly
    that session until it expires and never afterwards; and the token handed
    out is a well-formed one that survives the hex round trip of a session
    file. *)
Theorem session_validates_until_expiry cs raw now id user req ttl tok y s' :
  let s := store_run cs in
  create_session raw now id user req ttl s = (Ok (tok, y), s') → length raw = 32 →
  (∃ x u, tenants s !! id = Some x ∧ u ∈ t_users x ∧ u_id u = user ∧
     TenantCaps.contains (u_caps u) (ses_caps y) = true ∧
     TenantCaps.contains req (ses_caps y) = true) ∧
  (∀ later, validate_token later tok s' =
     if decide (later < ses_expires_ms y)%N then Ok y else Err (CapabilityDenied "auth.session")) ∧
  from_hex (token_str tok) = Ok tok.
Proof.
  intros s Hcreate Hraw. destruct (minted_caps _ _ _ _ _ _ _ _ _ _ Hcreate) as (x&u&?&?&?&_&_&_&?&?).
  split; [by exists x, u|]. split; [|by eapply minted_token]. intros later. by eapply minted_valid.
Qed.

(** The calls that must cut a principal off. *)
Definition cuts_off (c : store_call) (id user : N) : Prop :=
  match c with
  | CSetPassword _ i u _ | CRemoveUser i u | CRevokeUser i u => i = id ∧ u = user
  | CRevokeTenant i | CRotate i _ | CDeleteRecursive i => i = id
  | _ => False
  end.

Definition call_ok s (c : store_call) : bool :=
  match c with
  | CSetPassword salt i u p => is_ok (set_password salt i u p s).1
  | CRemoveUser i u => is_ok (remove_user i u s).1
  | CRevokeUser i u => is_ok (revoke_user_sessions i u s).1
  | CRevokeTenant i => is_ok (revoke_tenant_sessions i s).1
  | CRotate i caps => is_ok (rotate_root_caps i caps s).1
  | CDeleteRecursive i => is_ok (delete_tenant_recursive i s).1
  | _ => false
  end.

(** C31: revocation is immediate and complete.  After a successful password
    change, user removal, forced logout, capability rotation or recursive
    deletion that concerns a user, no token at all validates to a session of
    that user, at any time. *)
Theorem revocation_complete cs c id user now tok y :
  let s := store_run cs in
  cuts_off c id user → call_ok s c = true →
  validate_token now tok (store_exec s c) = Ok y → ¬ (ses_tenant y = id ∧ ses_user y = user).
Proof.
  intros s Hcut Hok Hval [Hid Hus]. pose proof (store_run_inv cs) as Hi. fold s in Hi.
  assert (y ∈ sessions (store_exec s c)) as Hy.
  { unfold validate_token in Hval. st_unfold.
    destruct (find_first _ _) as [z|] eqn:E; [|done]. destruct (is_expired_at z now); [done|].
    simplify_eq. by apply find_first_Some in E as [? _]. }
  assert (∀ l, y ∈ drop_user_sessions id user l → False) as Hdu.
  { intros l [_ Hp]%elem_of_retain. rewrite !bool_decide_eq_true_2 in Hp by done. done. }
  assert (∀ l, y ∈ drop_tenant_sessions id l → False) as Hdt.
  { intros l [_ Hp]%elem_of_retain. rewrite !bool_decide_eq_true_2 in Hp by done. done. }
  destruct c; simpl in *; try done.
  - destruct Hcut as [-> ->]. unfold remove_user, get_tenant in *. st_unfold.
    destruct (tenants s !! id); simpl in *; [by eapply Hdu|done].
  - destruct Hcut as [-> ->]. destruct (set_password_cases salt id user plain s)
      as [[e Heq]|(?&?&?&_&_&_&_&Heq)]; rewrite Heq in *; simpl in *; [done|by eapply Hdu].
  - destruct Hcut as [-> ->]. unfold revoke_user_sessions in *. st_unfold.
    destruct (bool_decide _); simpl in *; [done|by eapply Hdu].
  - subst id0. unfold revoke_tenant_sessions in *. st_unfold.
    destruct (bool_decide _); simpl in *; [done|by eapply Hdt].
  - subst id0. destruct (rotate_cases id caps s) as [[e Heq]|(?&?&_&_&Heq)]; rewrite Heq in *;
      simpl in *; [done|by eapply Hdt].
  - subst id0. destruct (delete_recursive_cases id s Hi) as [(e&Heq&_)|(l&_&_&Hl&_&_&_&Heq)];
      rewrite Heq in *; simpl in *; [done|].
    apply elem_of_retain in Hy as [_ Hp]. rewrite negb_true_iff, bool_decide_eq_false in Hp.
    apply Hp, Hl. rewrite Hid. apply rtc_refl.
Qed.

(** Deleting a tenant the plain way leaves its sessions alive: after a
    successful [delete] every token validates exactly as before, including
    those of the tenant that no longer exists (only the recursive deletion
    revokes them). *)
Theorem delete_keeps_tokens cs id s' :
  let s := store_run cs in
  delete id s = (Ok tt, s') →
  tenants s' !! id = None ∧ ∀ now tok, validate_token now tok s' = validate_token now tok s.
Proof.
  intros s Hdel. destruct (delete_cases id s) as [[e ?]|(x&_&_&_&Heq)]; [congruence|].
  rewrite Hdel in Heq. injection Heq as ->. simpl. by rewrite lookup_delete_eq.
Qed.

(** Capability rotation is local.  A successful rotation gives the tenant
    the new root set, narrows each of its users to it, and changes no other
    tenant: under a parent the new set is within the parent's, but the root
    capabilities of its own subtenants are not narrowed, so that a subtenant
    can end with more than its parent holds. *)
Theorem rotation_is_local cs id caps rep s' :
  let s := store_run cs in
  rotate_root_caps id caps s = (Ok rep, s') →
  (∃ x x', tenants s !! id = Some x ∧ tenants s' !! id = Some x' ∧ t_root_caps x' = caps ∧
     (∀ p, t_parent x = Some p → ∃ px, tenants s !! p = Some px ∧
        TenantCaps.contains (t_root_caps px) caps = true) ∧
     t_users x' = narrow_user caps <$> t_users x) ∧
  (∀ k, k ≠ id → tenants s' !! k = tenants s !! k) ∧
  ∃ cs' k kx px, tenants (store_run cs') !! k = Some kx ∧
    (t_parent kx ≫= (tenants (store_run cs') !!.)) = Some px ∧
    TenantCaps.contains (t_root_caps px) (t_root_caps kx) = false.
Proof.
  intros s Hrot. destruct (rotate_cases id caps s) as [[e ?]|(x&n&Hx&Hpar&Heq)]; [congruence|].
  rewrite Hrot in Heq. injection Heq as _ ->. simpl. split; [|split].
  - eexists x, _. rewrite lookup_insert_eq. done.
  - intros k Hk. by rewrite lookup_insert_ne.
  - exists [CCreate (mkSpec "a" unlimited None) TenantCaps.ALL;
            CCreate (mkSpec "b" unlimited (Some 1%N)) TenantCaps.ALL; CRotate 1 TenantCaps.NONE].
    exists 2%N, (mkTenant 2 "b" "/tenants/b" TenantCaps.ALL [] unlimited usage_default (Some 1%N)),
      (mkTenant 1 "a" "/tenants/a" TenantCaps.NONE [] unlimited usage_default None).
    split; [vm_compute; reflexivity|]. split; [vm_compute; reflexivity|]. vm_compute. reflexivity.
Qed.

Lemma chain_loop_ancestry ts fuel : ∀ cur l, chain_loop ts fuel cur = Ok l → ancestry ts cur l.
Proof.
  induction fuel as [|fuel IH]; intros [id|] l; cbn [chain_loop]; try done.
  - intros [= <-]. constructor.
  - intros (x&Hx%ok_or_Ok&(rest&Hr&[= <-])%result_bind_Ok)%result_bind_Ok.
    econstructor; [done|]. by apply IH.
  - intros [= <-]. constructor.
Qed.

End props.

(** ** Witnesses *)
Module TenantWitness.
(** A hash map that iterates in key order, and stand-ins for the primitives
    that satisfy what is documented of them. *)
#[export] Instance order : HashOrder := {
  hash_values m := (map_to_list m).*2;
  hash_values_perm m := Permutation_refl _
}.
#[export] Instance prims : AuthPrims := {
  argon_hash salt p := Some p;
  argon_verify p h := bool_decide (p = h);
  sha256 s := String.list_byte_of_string s
}.
#[export] Instance laws : AuthLaws.
Proof. constructor. intros salt p h q [= <-]. apply bool_decide_eq_true. Qed.

Definition quotas : TenantQuotas := mkQuotas 8 4096 (2 ^ 30) 100 1000.
Definition small : QuotaCharge := mkCharge 2 512 1024 10 100.
Definition setup : list store_call :=
  [CCreate (mkSpec "acme" quotas None) TenantCaps.ALL;
   CCreate (mkSpec "dev" quotas (Some 1%N)) (TenantCaps.mk 7);
   CAddUser 2 "ann" (TenantCaps.mk 3)].
Definition raw : list Byte.byte := replicate 32 Byte.x5a.
Definition raw' : list Byte.byte := replicate 32 Byte.xa5.
(** Two users of one tenant, each with a session. *)
Definition two_sessions : list store_call :=
  setup ++ [CAddUser 2 "bob" (TenantCaps.mk 3);
            CCreateSession raw 0 2 1 TenantCaps.ALL None;
            CCreateSession raw' 0 2 2 TenantCaps.ALL None].

(** A chain of 66 nested tenants. *)
Definition deep : list store_call :=
  imap (λ i _, CCreate (mkSpec ("t" +:+ fmt_u (N.of_nat i)) quotas
                          (if decide (i = 0) then None else Some (N.of_nat i))) TenantCaps.ALL)
    (replicate 66 tt).
Definition deep_chain : list N := N.of_nat <$> rev (seq 1 66).
Lemma deep_ancestry : ancestry (tenants (store_run deep)) (Some 66%N) deep_chain.
Proof. apply (chain_loop_ancestry _ 70). by vm_compute. Qed.
End TenantWitness.

(** A fact about every tenant, by evaluation. *)
Lemma map_Forall_to_list_bool (m : gmap N Tenant) q :
  forallb (λ e, bool_decide (t_quotas e.2 = q)) (map_to_list m) = true →
  ∀ k x, m !! k = Some x → t_quotas x = q.
Proof.
  rewrite forallb_forall. intros Hm k x Hx.
  apply (bool_decide_eq_true_1 (t_quotas x = q)), (Hm (k, x)), list_elem_of_In.
  by apply elem_of_map_to_list.
Qed.

Section witnesses.
Import TenantWitness.

Lemma release_undoes_charge_witness :
  let s := store_run setup in (release 2 small (charge 2 small s).2).2 = s.
Proof.
  refine (proj1 (release_undoes_charge setup 2 small (mkUsage 2 512 1024 10 100)
    (charge 2 small (store_run setup)).2 _ _)).
  - by vm_compute.
  - intros l k x _ _ Hx.
    assert (∀ k x, tenants (store_run setup) !! k = Some x → t_quotas x = quotas) as Hq.
    { apply map_Forall_to_list_bool. vm_compute. reflexivity. }
    rewrite (Hq _ _ Hx). by vm_compute.
Defined.

Lemma deep_tenants_cannot_charge_witness :
  (charge 66 small (store_run deep)).1 = Err (Internal "tenant hierarchy too deep").
Proof.
  destruct (deep_tenants_cannot_charge deep 66 small deep_chain deep_ancestry) as [Hc _].
  - apply Nat.ltb_lt. by vm_compute.
  - exact (f_equal fst Hc).
Defined.

Lemma password_opens_account_witness :
  ∃ x u, tenants (store_run setup) !! 2%N = Some x ∧ u ∈ t_users x ∧ u_id u = 1%N ∧
    authenticate (t_name x) (u_name u) "secret"
      (set_password "salt" 2 1 "secret" (store_run setup)).2 = Ok (2%N, 1%N, u_caps u).
Proof.
  destruct (password_opens_account setup "salt" 2 1 "secret"
    (set_password "salt" 2 1 "secret" (store_run setup)).2) as (x&u&Hx&Hu&Hid&Hau&_).
  - by vm_compute.
  - exists x, u. split; [exact Hx|]. split; [exact Hu|]. split; [exact Hid|].
    pose proof (Hau "secret") as Hs. rewrite decide_True in Hs by reflexivity. exact Hs.
Defined.

Lemma session_validates_until_expiry_witness :
  ∃ tok y s', create_session raw 1000 2 1 TenantCaps.ALL (Some 5%N) (store_run setup) =
      (Ok (tok, y), s') ∧
    validate_token 5999 tok s' = Ok y ∧
    validate_token 6000 tok s' = Err (CapabilityDenied "auth.session").
Proof.
  set (r := create_session raw 1000 2 1 TenantCaps.ALL (Some 5%N) (store_run setup)).
  destruct r as [[[tok y]|e] s'] eqn:E; [|by vm_compute in E].
  exists tok, y, s'. split; [done|].
  assert (ses_expires_ms y = 6000%N) as Hexp by (vm_compute in E; by simplify_eq).
  destruct (session_validates_until_expiry setup raw 1000 2 1 TenantCaps.ALL (Some 5%N) tok y s' E
    eq_refl) as (_&Hval&_).
  rewrite !Hval, Hexp. done.
Defined.

Lemma revocation_complete_witness :
  ∃ y, validate_token 1 (mkToken (hex_of raw'))
         (store_exec (store_run two_sessions) (CRevokeUser 2 1)) = Ok y ∧
    ¬ (ses_tenant y = 2%N ∧ ses_user y = 1%N).
Proof.
  set (v := validate_token 1 (mkToken (hex_of raw'))
              (store_exec (store_run two_sessions) (CRevokeUser 2 1))).
  destruct v as [y|e] eqn:E; [|by vm_compute in E].
  exists y. split; [done|].
  refine (revocation_complete two_sessions (CRevokeUser 2 1) 2 1 1 (mkToken (hex_of raw')) y _ _ E).
  - split; reflexivity.
  - by vm_compute.
Defined.

Lemma delete_keeps_tokens_witness :
  let cs := setup ++ [CCreateSession raw 0 2 1 TenantCaps.ALL None] in
  let tok := mkToken (hex_of raw) in
  validate_token 1 tok (delete 2 (store_run cs)).2 = validate_token 1 tok (store_run cs).
Proof.
  intros cs tok. refine (proj2 (delete_keeps_tokens cs 2 (delete 2 (store_run cs)).2 _) 1%N tok).
  by vm_compute.
Defined.

Lemma rotation_is_local_witness :
  let r := rotate_root_caps 1 (TenantCaps.mk 1) (store_run setup) in
  tenants r.2 !! 2%N = tenants (store_run setup) !! 2%N.
Proof.
  intros r. destruct r as [[rep|e] s'] eqn:E; [|by vm_compute in E].
  refine (proj1 (proj2 (rotation_is_local setup 1 (TenantCaps.mk 1) rep s' E)) 2%N _). done.
Defined.
End witnesses.
