(* ===== verification/TenantTrait.v ===== *)
(** * TenantTrait: the [TenantStore] trait of [celtenancy::store]

    The trait as a class of operations, the contract its clients rely on
    ([TenantStoreLaws]: every method does what the method of [StoreState]
    does, seen through a view), and the in-memory store.  The file-backed
    store is in FileTenants.v, the clients in Runtime.v and Exec.v.  A poisoned
    mutex needs a panic inside a method and is not modelled. *)
From S2P Require Import Prelude.
From S2P Require Import Text.
From S2P Require Import Errors.
From S2P Require Import Maps.
From S2P Require Import Caps.
From S2P Require Import Quota.
From S2P Require Import Tenant.
From S2P Require Import TenantStore.
From S2P Require Import TenantInv.
From S2P Require Import TenantQuota.
From S2P Require Import TenantAdmin.
From S2P Require Import TenantProps.
Import StoreState.

(** The methods; the clock, the salt and the token bytes a method draws are
    its first arguments.  [authenticate] and [validate_token] lock the store
    like the others and are computations too: a store may act on them. *)
Class TenantStore (S : Type) := {
  ts_create : TenantSpec → TenantCaps.t → st S CelError Tenant;
  ts_get : TenantId → S → CelResult Tenant;
  ts_get_by_name : string → S → CelResult Tenant;
  ts_list : S → CelResult (list Tenant);
  ts_delete : TenantId → st S CelError unit;
  ts_add_user : TenantId → string → TenantCaps.t → st S CelError User;
  ts_remove_user : TenantId → UserId → st S CelError unit;
  ts_charge : TenantId → QuotaCharge → st S CelError QuotaUsage;
  ts_release : TenantId → QuotaCharge → st S CelError QuotaUsage;
  ts_set_password : string → TenantId → UserId → string → st S CelError unit;
  ts_authenticate : string → string → string → st S CelError (TenantId * UserId * TenantCaps.t);
  ts_create_session : list Byte.byte → N → TenantId → UserId → TenantCaps.t → option N →
    st S CelError (SessionToken * Session);
  ts_validate_token : N → SessionToken → st S CelError Session;
  ts_revoke_token : SessionToken → st S CelError unit;
  ts_purge_expired_sessions : N → st S CelError nat;
  ts_revoke_user_sessions : TenantId → UserId → st S CelError nat;
  ts_revoke_tenant_sessions : TenantId → st S CelError nat;
  ts_rotate_root_caps : TenantId → TenantCaps.t → st S CelError RotateReport;
  ts_delete_tenant_recursive : TenantId → st S CelError DeleteReport
}.

(** A method that only looks at the state. *)
Definition query {S A : Type} (f : S → CelResult A) : st S CelError A := λ s, (f s, s).

(** [m] does to the view of a store what [m0] does to a [StoreState]. *)
Definition simulates {S A : Type} (inv : S → Prop) (view : S → StoreState.t)
    (m : st S CelError A) (m0 : st StoreState.t CelError A) : Prop :=
  ∀ s, inv s →
    (m s).1 = (m0 (view s)).1 ∧ view (m s).2 = (m0 (view s)).2 ∧ inv (m s).2.

Section trait.
Context `{HashOrder} `{AuthPrims}.

Class TenantStoreLaws (S : Type) `{TenantStore S} := {
  ts_inv : S → Prop;
  ts_view : S → StoreState.t;
  law_view_inv s : ts_inv s → inv (ts_view s);
  law_ts_get id s : ts_inv s → ts_get id s = get id (ts_view s);
  law_ts_get_by_name n s : ts_inv s → ts_get_by_name n s = get_by_name n (ts_view s);
  law_ts_list s : ts_inv s → ts_list s = Ok (list_tenants (ts_view s));
  law_create spec caps : simulates ts_inv ts_view (ts_create spec caps) (create spec caps);
  law_delete id : simulates ts_inv ts_view (ts_delete id) (delete id);
  law_add_user id n c : simulates ts_inv ts_view (ts_add_user id n c) (add_user id n c);
  law_remove_user id u : simulates ts_inv ts_view (ts_remove_user id u) (remove_user id u);
  law_charge id c : simulates ts_inv ts_view (ts_charge id c) (charge id c);
  law_release id c : simulates ts_inv ts_view (ts_release id c) (release id c);
  law_set_password salt id u p :
    simulates ts_inv ts_view (ts_set_password salt id u p) (set_password salt id u p);
  law_authenticate tn un p :
    simulates ts_inv ts_view (ts_authenticate tn un p) (query (authenticate tn un p));
  law_create_session raw now id u c ttl :
    simulates ts_inv ts_view (ts_create_session raw now id u c ttl)
      (create_session raw now id u c ttl);
  law_validate_token now tok :
    simulates ts_inv ts_view (ts_validate_token now tok) (query (validate_token now tok));
  law_revoke_token tok : simulates ts_inv ts_view (ts_revoke_token tok) (revoke_token tok);
  law_purge now : simulates ts_inv ts_view (ts_purge_expired_sessions now)
    (purge_expired_sessions now);
  law_revoke_user id u : simulates ts_inv ts_view (ts_revoke_user_sessions id u)
    (revoke_user_sessions id u);
  law_revoke_tenant id : simulates ts_inv ts_view (ts_revoke_tenant_sessions id)
    (revoke_tenant_sessions id);
  law_rotate id c : simulates ts_inv ts_view (ts_rotate_root_caps id c) (rotate_root_caps id c);
  law_delete_recursive id : simulates ts_inv ts_view (ts_delete_tenant_recursive id)
    (delete_tenant_recursive id)
}.

(** A call, as a computation that forgets its answer. *)
Definition ignore {S A : Type} (m : st S CelError A) : st S CelError unit := _ ← m; mret tt.

Definition ts_exec {S : Type} `{TenantStore S} (c : store_call) : st S CelError unit :=
  match c with
  | CCreate spec caps => ignore (ts_create spec caps)
  | CDelete id => ts_delete id
  | CAddUser id name caps => ignore (ts_add_user id name caps)
  | CRemoveUser id u => ts_remove_user id u
  | CCharge id c => ignore (ts_charge id c)
  | CRelease id c => ignore (ts_release id c)
  | CSetPassword salt id u p => ts_set_password salt id u p
  | CCreateSession raw now id u caps ttl => ignore (ts_create_session raw now id u caps ttl)
  | CRevokeToken tok => ts_revoke_token tok
  | CPurge now => ignore (ts_purge_expired_sessions now)
  | CRevokeUser id u => ignore (ts_revoke_user_sessions id u)
  | CRevokeTenant id => ignore (ts_revoke_tenant_sessions id)
  | CRotate id caps => ignore (ts_rotate_root_caps id caps)
  | CDeleteRecursive id => ignore (ts_delete_tenant_recursive id)
  | CAuthenticate tn un p => ignore (ts_authenticate tn un p)
  | CValidate now tok => ignore (ts_validate_token now tok)
  end.

(** ** [MemTenantStore]: the state behind a mutex *)
#[export] Instance mem_tenant_store : TenantStore StoreState.t := {|
  ts_create := create;
  ts_get := get;
  ts_get_by_name := get_by_name;
  ts_list s := Ok (list_tenants s);
  ts_delete := delete;
  ts_add_user := add_user;
  ts_remove_user := remove_user;
  ts_charge := charge;
  ts_release := release;
  ts_set_password := set_password;
  ts_authenticate tn un p := query (authenticate tn un p);
  ts_create_session := create_session;
  ts_validate_token now tok := query (validate_token now tok);
  ts_revoke_token := revoke_token;
  ts_purge_expired_sessions := purge_expired_sessions;
  ts_revoke_user_sessions := revoke_user_sessions;
  ts_revoke_tenant_sessions := revoke_tenant_sessions;
  ts_rotate_root_caps := rotate_root_caps;
  ts_delete_tenant_recursive := delete_tenant_recursive
|}.

(** A method whose [StoreState] counterpart keeps the invariant. *)
Definition keeps_inv {A} (m : st StoreState.t CelError A) : Prop := ∀ s, inv s → inv (m s).2.

Lemma simulates_self {A} (m : st StoreState.t CelError A) : keeps_inv m → simulates inv id m m.
Proof. intros Hm s Hi. split; [done|]. split; [done|]. by apply Hm. Qed.

Lemma keeps_query {A} (f : StoreState.t → CelResult A) : keeps_inv (query f).
Proof. by intros s. Qed.
Lemma keeps_create spec caps : keeps_inv (create spec caps).
Proof. intros s. apply inv_create. Qed.
Lemma keeps_delete id : keeps_inv (delete id).
Proof. intros s. apply inv_delete. Qed.
Lemma keeps_add_user id n c : keeps_inv (add_user id n c).
Proof. intros s. apply inv_add_user. Qed.
Lemma keeps_remove_user id u : keeps_inv (remove_user id u).
Proof. intros s. apply inv_remove_user. Qed.
Lemma keeps_charge id c : keeps_inv (charge id c).
Proof. intros s. apply inv_charge. Qed.
Lemma keeps_release id c : keeps_inv (release id c).
Proof. intros s. apply inv_release. Qed.
Lemma keeps_set_password salt id u p : keeps_inv (set_password salt id u p).
Proof. intros s. apply inv_set_password. Qed.
Lemma keeps_create_session raw now id u c ttl : keeps_inv (create_session raw now id u c ttl).
Proof. intros s. apply inv_create_session. Qed.
Lemma keeps_revoke_token tok : keeps_inv (revoke_token tok).
Proof. intros s. apply inv_revoke_token. Qed.
Lemma keeps_purge now : keeps_inv (purge_expired_sessions now).
Proof. intros s. apply inv_purge. Qed.
Lemma keeps_revoke_user id u : keeps_inv (revoke_user_sessions id u).
Proof. intros s. apply inv_revoke_user. Qed.
Lemma keeps_revoke_tenant id : keeps_inv (revoke_tenant_sessions id).
Proof. intros s. apply inv_revoke_tenant. Qed.
Lemma keeps_rotate id c : keeps_inv (rotate_root_caps id c).
Proof. intros s. apply inv_rotate. Qed.
Lemma keeps_delete_recursive id : keeps_inv (delete_tenant_recursive id).
Proof. intros s. apply inv_delete_recursive. Qed.

Create HintDb keeps.
#[local] Hint Resolve keeps_query keeps_create keeps_delete keeps_add_user keeps_remove_user
  keeps_charge keeps_release keeps_set_password keeps_create_session keeps_revoke_token keeps_purge
  keeps_revoke_user keeps_revoke_tenant keeps_rotate keeps_delete_recursive : keeps.

#[export] Instance mem_tenant_laws : TenantStoreLaws StoreState.t.
Proof.
  refine {| ts_inv := inv; ts_view := id |}; try done;
    intros; apply simulates_self; auto with keeps.
Defined.

Lemma ignore_state {S A} (m : st S CelError A) s : (ignore m s).2 = (m s).2.
Proof. unfold ignore. st_unfold. by destruct (m s) as [[]]. Qed.

(** The calls of the in-memory store are the histories of TenantProps. *)
Lemma ts_exec_mem c (s : StoreState.t) : (ts_exec c s).2 = store_exec s c.
Proof. destruct c; simpl; rewrite ?ignore_state; done. Qed.
End trait.
#[export] Hint Resolve keeps_query keeps_create keeps_delete keeps_add_user keeps_remove_user
  keeps_charge keeps_release keeps_set_password keeps_create_session keeps_revoke_token keeps_purge
  keeps_revoke_user keeps_revoke_tenant keeps_rotate keeps_delete_recursive : keeps.
#[export] Existing Instances mem_tenant_store mem_tenant_laws.
