(* ===== verification/FileTenants.v ===== *)
(** * FileTenants: [FileTenantStore] of [celtenancy::store]

    The JSON-on-disk tenant store: every call that succeeds in memory encodes
    the whole state, writes it to a temporary file, syncs it and renames it
    over the store's file.  The two files are the disk; the outcome of the
    file operations of each coming [persist] is part of the state, so that
    every failure can be followed.  The JSON codec is the class
    [StateCodec]. *)
From S2P Require Import Prelude.
From S2P Require Import Text.
From S2P Require Import Codecs.
From S2P Require Import Errors.
From S2P Require Import Maps.
From S2P Require Import Caps.
From S2P Require Import Quota.
From S2P Require Import Tenant.
From S2P Require Import TenantStore.
From S2P Require Import TenantInv.
From S2P Require Import TenantProps.
From S2P Require Import TenantTrait.

(** [serde_json::to_vec_pretty] and [serde_json::from_slice] at [StoreState];
    errors are their messages. *)
Class StateCodec := {
  encode_state : StoreState.t → result string string;
  decode_state : string → result string StoreState.t
}.
(** What serde documents of a derived codec. *)
Class StateCodecLaws `{StateCodec} := {
  codec_round s : ∃ b, encode_state s = Ok b ∧ decode_state b = Ok s ∧ b ≠ EmptyString
}.

(** The two files a store touches, [None] when absent. *)
Record Disk := mkDisk { d_file : option string; d_tmp : option string }.

(** Where a [persist] stops, with the error the operating system reports.  A
    write that fails has written [n] bytes. *)
Inductive io_fault :=
| FMkdir (msg : string)
| FCreate (msg : string)
| FWrite (n : nat) (msg : string)
| FSync (msg : string)
| FRename (msg : string).
(** What can fail while the store is opened. *)
Inductive OpenFault := ExistsFails | ReadFails (msg : string).

Module FileTenantStore.
Section file.
Context `{StateCodec}.

(** The paths as they are displayed; [parent] is [None] when the path has no
    parent directory or an empty one. *)
Record Paths := mkPaths { p_path : string; p_tmp : string; p_parent : option string }.

Record t := mk {
  fs_path : Paths;
  fs_inner : StoreState.t;
  fs_disk : Disk;
  fs_faults : list (option io_fault)   (** outcomes to come; no fault after the last *)
}.

(** A failing [exists] is taken for a missing file. *)
Definition open (path : Paths) (read_fault : option OpenFault) (d : Disk) : CelResult StoreState.t :=
  match d_file d with
  | None => Ok StoreState.default_state
  | Some bytes =>
      match read_fault with
      | Some ExistsFails => Ok StoreState.default_state
      | Some (ReadFails e) => Err (Storage ("tenant store read " +:+ p_path path +:+ ": " +:+ e))
      | None =>
          if str_is_empty bytes then Ok StoreState.default_state
          else map_err (λ e, Storage ("tenant store parse " +:+ p_path path +:+ ": " +:+ e))
                 (decode_state bytes)
      end
  end.

Definition err_at (what where_ e : string) : CelError :=
  Storage ("tenant store " +:+ what +:+ " " +:+ where_ +:+ ": " +:+ e).

Definition set_file (b : option string) (d : Disk) : Disk := mkDisk b (d_tmp d).
Definition set_tmp (b : option string) (d : Disk) : Disk := mkDisk (d_file d) b.

Definition persist (path : Paths) (fault : option io_fault) (s : StoreState.t)
  : st Disk CelError unit :=
  bytes ← try (map_err (λ e, Storage ("tenant store encode: " +:+ e)) (encode_state s));
  _ ← match p_parent path, fault with
      | Some parent, Some (FMkdir e) => mthrow (err_at "mkdir" parent e)
      | _, _ => mret tt
      end;
  _ ← match fault with
      | Some (FCreate e) => mthrow (err_at "tmp" (p_tmp path) e)
      | _ => modify (set_tmp (Some EmptyString))
      end;
  _ ← match fault with
      | Some (FWrite n e) =>
          _ ← modify (set_tmp (Some (String.substring 0 n bytes)));
          mthrow (err_at "write" (p_tmp path) e)
      | _ => modify (set_tmp (Some bytes))
      end;
  _ ← match fault with
      | Some (FSync e) => mthrow (err_at "fsync" (p_tmp path) e)
      | _ => mret tt
      end;
  match fault with
  | Some (FRename e) => mthrow (err_at "rename" (p_path path) e)
  | _ => modify (λ d, mkDisk (d_tmp d) None)
  end.

(** [with_state]: run the method on the locked state, then persist; the
    method's changes stay in memory whatever [persist] answers. *)
Definition with_state {R} (f : st StoreState.t CelError R) : st t CelError R :=
  out ← zoom fs_inner (λ g s, mk (fs_path s) g (fs_disk s) (fs_faults s)) f;
  s ← get_st;
  _ ← modify (λ s, mk (fs_path s) (fs_inner s) (fs_disk s) (tail (fs_faults s)));
  _ ← zoom fs_disk (λ d s, mk (fs_path s) (fs_inner s) d (fs_faults s))
        (persist (fs_path s) (mjoin (head (fs_faults s))) (fs_inner s));
  mret out.
End file.
End FileTenantStore.
Import FileTenantStore.

Section file_store.
Context `{HashOrder} `{AuthPrims} `{StateCodec}.

#[export] Instance file_tenant_store : TenantStore FileTenantStore.t := {|
  ts_create spec caps := with_state (StoreState.create spec caps);
  ts_get id s := StoreState.get id (fs_inner s);
  ts_get_by_name n s := StoreState.get_by_name n (fs_inner s);
  ts_list s := Ok (StoreState.list_tenants (fs_inner s));
  ts_delete id := with_state (StoreState.delete id);
  ts_add_user id n c := with_state (StoreState.add_user id n c);
  ts_remove_user id u := with_state (StoreState.remove_user id u);
  ts_charge id c := with_state (StoreState.charge id c);
  ts_release id c := with_state (StoreState.release id c);
  ts_set_password salt id u p := with_state (StoreState.set_password salt id u p);
  ts_authenticate tn un p := with_state (query (StoreState.authenticate tn un p));
  ts_create_session raw now id u c ttl :=
    with_state (StoreState.create_session raw now id u c ttl);
  ts_validate_token now tok := with_state (query (StoreState.validate_token now tok));
  ts_revoke_token tok := with_state (StoreState.revoke_token tok);
  ts_purge_expired_sessions now := with_state (StoreState.purge_expired_sessions now);
  ts_revoke_user_sessions id u := with_state (StoreState.revoke_user_sessions id u);
  ts_revoke_tenant_sessions id := with_state (StoreState.revoke_tenant_sessions id);
  ts_rotate_root_caps id c := with_state (StoreState.rotate_root_caps id c);
  ts_delete_tenant_recursive id := with_state (StoreState.delete_tenant_recursive id)
|}.

(** ** What [persist] can leave on disk *)

(** The disks a [persist] of [b] passes through: untouched, with a temporary
    file holding anything (it is not synced yet), and done.  A crash stops at
    one of them. *)
Inductive persist_at (b : string) (d : Disk) : Disk → Prop :=
| at_start : persist_at b d d
| at_tmp p : persist_at b d (set_tmp (Some p) d)
| at_done : persist_at b d (mkDisk (Some b) None).

Context `{!StateCodecLaws}.
Implicit Types (s : FileTenantStore.t) (g : StoreState.t).

Definition encoded g b : Prop := encode_state g = Ok b ∧ decode_state b = Ok g ∧ b ≠ EmptyString.

Lemma persist_spec path fault g d :
  ∃ b, encoded g b ∧
    match persist path fault g d with
    | (Ok _, d') => d' = mkDisk (Some b) None
    | (Err e, d') => persist_at b d d' ∧ d_file d' = d_file d ∧ fault ≠ None
    end.
Proof.
  destruct (codec_round g) as (b&Hb). exists b. split; [done|].
  destruct Hb as (He&_). unfold persist. st_unfold. rewrite He. simpl.
  destruct (p_parent path), fault as [[]|]; simpl;
    first [done | split; [|split; [done|done]]; first [apply at_start | apply (at_tmp b d)]].
Qed.

Lemma persist_write_fails path n e g d : is_ok (persist path (Some (FWrite n e)) g d).1 = false.
Proof.
  unfold persist. st_unfold. destruct (codec_round g) as (b&->&_). by destruct (p_parent path).
Qed.

Lemma open_encoded path d g b :
  encoded g b → d_file d = Some b → open path None d = Ok g.
Proof.
  intros (_&Hd&Hne) Hf. unfold open. rewrite Hf, Hd. by destruct b.
Qed.

(** One call: the memory moves as the in-memory store would, whatever the disk
    does. *)
Lemma with_state_spec {R} (f : st StoreState.t CelError R) s :
  let '(r, s') := with_state f s in
  fs_inner s' = (f (fs_inner s)).2 ∧ fs_path s' = fs_path s ∧
  match (f (fs_inner s)).1 with
  | Err e => r = Err e ∧ fs_disk s' = fs_disk s ∧ fs_faults s' = fs_faults s
  | Ok a => fs_faults s' = tail (fs_faults s) ∧ ∃ b, encoded (fs_inner s') b ∧
      match r with
      | Ok a' => a' = a ∧ fs_disk s' = mkDisk (Some b) None
      | Err _ => persist_at b (fs_disk s) (fs_disk s') ∧ d_file (fs_disk s') = d_file (fs_disk s) ∧
          mjoin (head (fs_faults s)) ≠ None
      end
  end.
Proof.
  destruct s as [path g d fs]. unfold with_state, zoom. st_unfold.
  destruct (f g) as [[a|e] g'] eqn:Ef; simpl; [|done].
  destruct (persist_spec path (mjoin (head fs)) g' d) as (b&Hb&Hp).
  destruct (persist path (mjoin (head fs)) g' d) as [[[]|e] d']; simpl;
    (split; [done|split; [done|split; [done|exists b; split; [done|]]]]); done.
Qed.

(** ** The healthy store keeps the contract of the trait *)
Lemma with_state_simulates {R} (f : st StoreState.t CelError R) :
  keeps_inv f → simulates (λ s, inv (fs_inner s) ∧ fs_faults s = []) fs_inner (with_state f) f.
Proof.
  intros Hf s [Hi Hn]. pose proof (with_state_spec f s) as Hs.
  destruct (with_state f s) as [r s']. simpl. rewrite Hn in Hs.
  destruct Hs as (Hg&_&Hr). rewrite Hg.
  destruct (f (fs_inner s)).1 as [a|e].
  - destruct Hr as (Hn'&b&_&Hr). destruct r as [a'|e].
    + destruct Hr as [-> _]. split; [done|]. split; [done|]. split; [by apply Hf|done].
    + by destruct Hr as (_&_&[]).
  - destruct Hr as (->&_&->). split; [done|]. split; [done|]. split; [by apply Hf|done].
Qed.

#[export] Instance file_tenant_laws : TenantStoreLaws FileTenantStore.t.
Proof.
  refine {| ts_inv s := inv (fs_inner s) ∧ fs_faults s = []; ts_view := fs_inner |};
    try (by intros; destruct_and?);
    intros; apply with_state_simulates; auto with keeps.
Defined.

(** ** Histories of calls over a failing disk *)
Lemma ignore_with_state {R} (f : st StoreState.t CelError R) s :
  ignore (with_state f) s = with_state (ignore f) s.
Proof.
  unfold ignore, with_state, zoom. st_unfold. destruct (f (fs_inner s)) as [[a|e] g]; simpl; [|done].
  by destruct (persist _ _ _ _) as [[]].
Qed.

Lemma ts_exec_file c s : ts_exec c s = with_state (ts_exec c) s.
Proof. destruct c; try reflexivity; apply ignore_with_state. Qed.

(** A call whose state cannot be written is answered with an error. *)
Lemma file_write_fails c s n e :
  fs_faults s = [Some (FWrite n e)] → is_ok (ts_exec c (fs_inner s)).1 = true →
  is_ok (ts_exec c s).1 = false.
Proof.
  intros Hf Hok. rewrite ts_exec_file. unfold with_state, zoom. st_unfold.
  destruct (ts_exec c (fs_inner s)) as [[a|e'] g]; simpl in *; [|done]. rewrite Hf. simpl.
  pose proof (persist_write_fails (fs_path s) n e g (fs_disk s)) as Hp.
  by destruct (persist _ _ _ _) as [[]].
Qed.

(** The answers of a history and the store after it. *)
Definition file_step (rs : list bool * FileTenantStore.t) (c : store_call)
  : list bool * FileTenantStore.t :=
  let '(r, s) := ts_exec c rs.2 in (rs.1 ++ [is_ok r], s).
Definition file_run s (cs : list store_call) : list bool * FileTenantStore.t :=
  foldl file_step ([], s) cs.

Lemma file_call_spec c s :
  fs_inner (ts_exec c s).2 = store_exec (fs_inner s) c ∧
  fs_path (ts_exec c s).2 = fs_path s ∧
  if is_ok (ts_exec c s).1
  then ∃ b, encoded (store_exec (fs_inner s) c) b ∧ fs_disk (ts_exec c s).2 = mkDisk (Some b) None
  else d_file (fs_disk (ts_exec c s).2) = d_file (fs_disk s).
Proof.
  rewrite ts_exec_file. pose proof (with_state_spec (ts_exec c) s) as Hs.
  destruct (with_state (ts_exec c) s) as [r s']. destruct Hs as (Hg&Hp&Hr). simpl.
  rewrite <-ts_exec_mem, <-Hg. split; [done|]. split; [done|].
  destruct (ts_exec c (fs_inner s)).1 as [a|e].
  - destruct Hr as (_&b&Hb&Hr). destruct r as [a'|e]; simpl.
    + destruct Hr. by exists b.
    + by destruct Hr as (_&?&_).
  - by destruct Hr as (->&->&_).
Qed.

Lemma open_file path d d' : d_file d' = d_file d → open path None d' = open path None d.
Proof. unfold open. by intros ->. Qed.

Lemma open_persist_at path d g b d' :
  encoded g b → persist_at b d d' →
  open path None d' = open path None d ∨ open path None d' = Ok g.
Proof.
  intros Hb. destruct 1 as [|p|]; [by left|by left|]. right. by eapply open_encoded.
Qed.

Lemma take_snoc_le {A} n (l : list A) a : (n ≤ length l)%nat → take n (l ++ [a]) = take n l.
Proof. intros. by rewrite take_app_le. Qed.

(** C33: nothing acknowledged is ever lost, and a crash tears nothing.  Whatever
    file operations fail during a history of calls on a store opened from a
    readable disk: the memory is what the in-memory store would hold; the file
    always opens to the state after some prefix of the history that contains
    every call answered Ok; and a crash at any point of the next call's write
    leaves a file that opens to that state or to the complete new one, never
    to anything else.  Every such state satisfies the store invariant. *)
Theorem file_store_durable path d0 m0 faults cs :
  open path None d0 = Ok m0 → inv m0 →
  let '(replies, s) := file_run (mk path m0 d0 faults) cs in
  fs_inner s = foldl store_exec m0 cs ∧
  ∃ n, (n ≤ length cs)%nat ∧ (∀ i, replies !! i = Some true → (i < n)%nat) ∧
    open path None (fs_disk s) = Ok (foldl store_exec m0 (take n cs)) ∧
    inv (foldl store_exec m0 (take n cs)) ∧
    ∀ c b d', encoded (store_exec (fs_inner s) c) b → persist_at b (fs_disk s) d' →
      open path None d' = Ok (foldl store_exec m0 (take n cs)) ∨
      open path None d' = Ok (store_exec (fs_inner s) c).
Proof.
  intros Ho Hi0.
  assert (let rs := file_run (mk path m0 d0 faults) cs in
    fs_inner rs.2 = foldl store_exec m0 cs ∧ length rs.1 = length cs ∧
    ∃ n, (n ≤ length cs)%nat ∧ (∀ i, rs.1 !! i = Some true → (i < n)%nat) ∧
      open path None (fs_disk rs.2) = Ok (foldl store_exec m0 (take n cs))) as Hrun.
  { induction cs as [|c cs IH] using rev_ind; simpl.
    - split; [done|]. split; [done|]. exists 0%nat. split; [lia|]. by split.
    - unfold file_run in *. rewrite !foldl_app. simpl.
      destruct (foldl file_step _ cs) as [rs s]. simpl in IH. destruct IH as (Hg&Hl&n&Hn&Hok&Hd).
      pose proof (file_call_spec c s) as (Hg'&_&Hr). unfold file_step. simpl.
      destruct (ts_exec c s) as [r s']. simpl in *. rewrite Hg', Hg. split; [done|].
      rewrite !length_app, Hl. split; [done|]. destruct (is_ok r) eqn:Er.
      + destruct Hr as (b&Hb&Hdisk). exists (length cs + 1)%nat. split; [simpl; lia|]. split.
        * intros i Hi%lookup_lt_Some. rewrite length_app, Hl in Hi. simpl in Hi. lia.
        * rewrite Hdisk, take_ge by (rewrite length_app; simpl; lia).
          rewrite foldl_app. simpl. rewrite <-Hg. by eapply open_encoded.
      + exists n. split; [lia|]. split.
        * intros i [Hi|[_ Hi]]%lookup_app_Some; [by apply Hok|].
          by apply list_lookup_singleton_Some in Hi as [_ ?].
        * rewrite take_snoc_le by done. by rewrite (open_file _ _ _ Hr). }
  destruct (file_run _ cs) as [rs s]. simpl in Hrun. destruct Hrun as (Hg&_&n&Hn&Hok&Hd).
  split; [done|]. exists n. split; [done|]. split; [done|]. split; [done|]. split.
  - clear -Hi0. generalize (take n cs). intros l. revert m0 Hi0.
    induction l as [|c l IH]; intros m0 Hi0; [done|]. by apply IH, store_exec_inv.
  - intros c b d' Hb Hat. rewrite <-Hd. by eapply open_persist_at.
Qed.

(** An error does not mean that nothing happened.  When a call is answered
    with an error the file is unchanged, but the memory holds what the call did
    to it: a call that only failed to be written down stays in effect, is
    visible to every later query, and the next call that is answered Ok writes
    it to disk. *)
Theorem failed_persist_keeps_change c s :
  is_ok (ts_exec c s).1 = false →
  let s' := (ts_exec c s).2 in
  d_file (fs_disk s') = d_file (fs_disk s) ∧
  fs_inner s' = store_exec (fs_inner s) c ∧
  (∀ id, ts_get id s' = StoreState.get id (store_exec (fs_inner s) c)) ∧
  ∀ c', is_ok (ts_exec c' s').1 = true →
    open (fs_path s) None (fs_disk (ts_exec c' s').2) =
      Ok (store_exec (store_exec (fs_inner s) c) c').
Proof.
  intros He s'. destruct (file_call_spec c s) as (Hg&Hp&Hd). rewrite He in Hd.
  split; [done|]. split; [done|]. split; [intros id; unfold s'; simpl; by rewrite Hg|].
  intros c' Hok. destruct (file_call_spec c' s') as (Hg'&_&Hd'). rewrite Hok in Hd'.
  destruct Hd' as (b&Hb&->). unfold s' in *. rewrite <-Hg. by eapply open_encoded.
Qed.
End file_store.

(** ** Witnesses *)
Module FileWitness.
Import TenantWitness.

#[export] Instance caps_countable : Countable TenantCaps.t.
Proof. by refine (inj_countable' TenantCaps.bits TenantCaps.mk _); intros []. Defined.
#[export] Instance quotas_countable : Countable TenantQuotas.
Proof.
  by refine (inj_countable' (λ q, (max_vcpus q, max_memory_mib q, max_storage_bytes q,
    max_network_mbps q, max_iops q)) (λ '(a, b, c, d, e), mkQuotas a b c d e) _); intros [].
Defined.
#[export] Instance usage_countable : Countable QuotaUsage.
Proof.
  by refine (inj_countable' (λ q, (us_vcpus q, us_memory_mib q, us_storage_bytes q,
    us_network_mbps q, us_iops q)) (λ '(a, b, c, d, e), mkUsage a b c d e) _); intros [].
Defined.
#[export] Instance user_countable : Countable User.
Proof.
  by refine (inj_countable' (λ u, (u_id u, u_name u, u_caps u, u_password_hash u))
    (λ '(a, b, c, d), mkUser a b c d) _); intros [].
Defined.
#[export] Instance tenant_countable : Countable Tenant.
Proof.
  by refine (inj_countable' (λ x, (t_id x, t_name x, t_namespace x, t_root_caps x, t_users x,
    t_quotas x, t_usage x, t_parent x)) (λ '(a, b, c, d, e, f, g, h), mkTenant a b c d e f g h) _);
    intros [].
Defined.
#[export] Instance byte_countable : Countable Byte.byte.
Proof.
  refine (inj_countable Byte.to_N Byte.of_N _). intros b. by apply Byte.of_to_N.
Defined.
#[export] Instance session_countable : Countable Session.
Proof.
  by refine (inj_countable' (λ x, (ses_token_hash x, ses_tenant x, ses_user x, ses_user_name x,
    ses_caps x, ses_created_ms x, ses_expires_ms x))
    (λ '(a, b, c, d, e, f, g), mkSession a b c d e f g) _); intros [].
Defined.
#[export] Instance state_eq_dec : EqDecision StoreState.t.
Proof. solve_decision. Defined.
#[export] Instance state_countable : Countable StoreState.t.
Proof.
  by refine (inj_countable' (λ s, (StoreState.next_tenant_id s, StoreState.next_user_id s,
    StoreState.tenants s, StoreState.by_name s, StoreState.sessions s))
    (λ '(a, b, c, d, e), StoreState.mk a b c d e) _); intros [].
Defined.

#[export] Instance codec : StateCodec := {
  encode_state g := Ok (print_bits g);
  decode_state b := ok_or (parse_bits b) "eof"
}.
#[export] Instance codec_laws : StateCodecLaws.
Proof.
  constructor. intros g. exists (print_bits g). split; [done|].
  change (decode_state (print_bits g)) with (ok_or (E:=string) (parse_bits (A:=StoreState.t) (print_bits g)) "eof").
  rewrite parse_print_bits. split; [done|]. apply pos_str_nonempty.
Qed.

Definition paths : Paths := mkPaths "/var/lib/celium/tenants.json" "/var/lib/celium/tenants.tmp" None.
(** The disk is full when the second call is written. *)
Definition calls : list store_call :=
  [CCreate (mkSpec "acme" quotas None) TenantCaps.ALL; CCharge 1 small].
Definition faults : list (option io_fault) := [None; Some (FWrite 7 "no space left on device")].
Definition store0 : FileTenantStore.t := mk paths StoreState.default_state (mkDisk None None) faults.
(** A store with one tenant whose next write fails. *)
Definition store1 : FileTenantStore.t :=
  mk paths (store_run [CCreate (mkSpec "acme" quotas None) TenantCaps.ALL]) (mkDisk None None)
    [Some (FWrite 7 "no space left on device")].
End FileWitness.

Section witnesses.
Import TenantWitness FileWitness.

Lemma file_store_durable_witness :
  fs_inner (file_run store0 calls).2 = store_run calls.
Proof.
  pose proof (file_store_durable paths (mkDisk None None) StoreState.default_state faults calls
    eq_refl inv_default) as H.
  unfold store0. destruct (file_run _ calls) as [rs s]. exact (proj1 H).
Defined.

Lemma failed_persist_keeps_change_witness :
  is_ok (ts_exec (CCharge 1 small) store1).1 = false ∧
  fs_inner (ts_exec (CCharge 1 small) store1).2 = store_exec (fs_inner store1) (CCharge 1 small).
Proof.
  assert (is_ok (ts_exec (CCharge 1 small) store1).1 = false) as He.
  { apply file_write_fails with 7%nat "no space left on device"; [reflexivity|].
    vm_compute. reflexivity. }
  split; [exact He|].
  exact (proj1 (proj2 (failed_persist_keeps_change (CCharge 1 small) store1 He))).
Defined.
End witnesses.
