(* ===== verification/Runtime.v ===== *)
(** * Runtime: [celtenancy::runtime]

    [TenantVmHost], the host adapter that bills a tenant for what its
    operations create: the charge is taken before the inner host runs, kept
    per resource, returned when the host refuses or the resource is deleted,
    and every movement is audited.  The adapter is generic over the tenant
    store, the inner host and the audit sink, as the code is over their
    traits. *)
From S2P Require Import Prelude.
From S2P Require Import Text.
From S2P Require Import Errors.
From S2P Require Import Maps.
From S2P Require Import Quota.
From S2P Require Import AuditLog.
From S2P Require Import Vault.
From S2P Require Import Federation.
From S2P Require Import Membership.
From S2P Require Import Proto.
From S2P Require Import Capabilities.
From S2P Require Import Host.
From S2P Require Import Tenant.
From S2P Require Import TenantStore.
From S2P Require Import TenantTrait.

Definition TENANT_ERROR_PREFIX : string := "tenant:".

(** [charge_for]: what an operation costs, [None] for those that create
    nothing. *)
Definition charge_for (op : VmOp.t) : option QuotaCharge :=
  match op with
  | VmOp.Create _ _ _ cpu_count memory_mib _ =>
      Some (mkCharge (default 0%N cpu_count) (default 0%N memory_mib) 0 0 0)
  | VmOp.CreateVolume _ size_bytes => Some (mkCharge 0 0 size_bytes 0 0)
  | _ => None
  end.

(** Run a fallible computation and look at its result. *)
Definition catch {S E F A : Type} (m : st S E A) : st S F (result E A) :=
  λ s, let '(r, s') := m s in (Ok r, s').

Module TenantVmHost.
Section runtime.
Context {S H K : Type} `{TenantStore S} `{VmHost H} `{AuditSink K}.

Record t := mk {
  tenant : TenantId;
  tenant_name : string;
  store : S;
  inner : H;
  vm_charges : gmap N QuotaCharge;
  volume_charges : gmap VolumeId QuotaCharge;
  audit : option K;
  audit_user : option string;
  clock : list N           (** the coming readings of the wall clock *)
}.

Abbreviation M := (st t string).

Definition set_store (s : S) (r : t) : t :=
  mk (tenant r) (tenant_name r) s (inner r) (vm_charges r) (volume_charges r) (audit r)
    (audit_user r) (clock r).
Definition set_inner (h : H) (r : t) : t :=
  mk (tenant r) (tenant_name r) (store r) h (vm_charges r) (volume_charges r) (audit r)
    (audit_user r) (clock r).
Definition set_vm_charges (m : gmap N QuotaCharge) (r : t) : t :=
  mk (tenant r) (tenant_name r) (store r) (inner r) m (volume_charges r) (audit r)
    (audit_user r) (clock r).
Definition set_volume_charges (m : gmap VolumeId QuotaCharge) (r : t) : t :=
  mk (tenant r) (tenant_name r) (store r) (inner r) (vm_charges r) m (audit r)
    (audit_user r) (clock r).
Definition set_audit (k : option K) (r : t) : t :=
  mk (tenant r) (tenant_name r) (store r) (inner r) (vm_charges r) (volume_charges r) k
    (audit_user r) (clock r).
Definition set_clock (c : list N) (r : t) : t :=
  mk (tenant r) (tenant_name r) (store r) (inner r) (vm_charges r) (volume_charges r) (audit r)
    (audit_user r) c.

Definition new (tenant : TenantId) (store : S) (inner : H) (clock : list N) : t :=
  let name := match ts_get tenant store with
              | Ok x => t_name x
              | Err _ => "tenant#" +:+ fmt_u tenant
              end in
  mk tenant name store inner ∅ ∅ None None clock.
Definition with_audit (sink : K) (r : t) : t := set_audit (Some sink) r.
Definition with_audit_user (user : string) (r : t) : t :=
  mk (tenant r) (tenant_name r) (store r) (inner r) (vm_charges r) (volume_charges r) (audit r)
    (Some user) (clock r).

(** [event_template], which reads the clock, and [emit]. *)
Definition event_template (action : AuditAction) : M AuditEvent :=
  r ← get_st;
  _ ← modify (set_clock (tail (clock r)));
  mret (with_user (audit_user r)
          (event_now (default 0%N (head (clock r))) (tenant_name r) action)).
Definition emit (action : AuditAction) (decorate : AuditEvent → AuditEvent) : M unit :=
  ev ← event_template action;
  modify (λ r, set_audit (as_record (decorate ev) <$> audit r) r).

Definition call_store {A} (m : TenantId → st S CelError A) : M (result CelError A) :=
  r ← get_st; catch (zoom store set_store (m (tenant r))).
Definition call_inner {A} (m : st H string A) : M (result string A) :=
  catch (zoom inner set_inner m).

(** Step 1: bill up-front. *)
Definition charge_first (op_tag : string) (planned : option QuotaCharge) : M unit :=
  match planned with
  | Some charge =>
      if decide (charge = charge_default) then mret tt
      else
        res ← call_store (λ tid, ts_charge tid charge);
        match res with
        | Err e =>
            _ ← emit Deny (λ ev, with_error ("quota: " +:+ display_error e)
                             (with_charge charge (with_op_tag op_tag ev)));
            mthrow (TENANT_ERROR_PREFIX +:+ " quota: " +:+ display_error e)
        | Ok _ => emit Charge (λ ev, with_charge charge (with_op_tag op_tag ev))
        end
  | None => mret tt
  end.

Definition is_create_vm (op : VmOp.t) : bool :=
  match op with VmOp.Create _ _ _ _ _ _ => true | _ => false end.
Definition is_create_volume (op : VmOp.t) : bool :=
  match op with VmOp.CreateVolume _ _ => true | _ => false end.

(** Step 4: remember the charge of what was created, refund a refusal. *)
Definition reconcile (op_tag : string) (op : VmOp.t) (planned : option QuotaCharge)
    (reply : HostResult) : M unit :=
  match reply, planned with
  | Ok (VmOpReply.Created vm_id), Some c =>
      if is_create_vm op then modify (λ r, set_vm_charges (<[vm_id := c]> (vm_charges r)) r)
      else mret tt
  | Ok (VmOpReply.VolumeCreated volume), Some c =>
      if is_create_volume op
      then modify (λ r, set_volume_charges (<[vol_id volume := c]> (volume_charges r)) r)
      else mret tt
  | Err err, Some c =>
      if decide (c = charge_default) then mret tt
      else
        _ ← call_store (λ tid, ts_release tid c);
        emit Deny (λ ev, with_note "refunded" (with_error err
                           (with_charge c (with_op_tag op_tag ev))))
  | _, _ => mret tt
  end.

(** Step 5: give back the charge of what was deleted. *)
Definition refund (op_tag : string) (charge : QuotaCharge) : M unit :=
  res ← call_store (λ tid, ts_release tid charge);
  match res with
  | Err _ => mret tt
  | Ok _ => emit Release (λ ev, with_charge charge (with_op_tag op_tag ev))
  end.

Definition refund_vm (op_tag : string) (op : VmOp.t) (reply : HostResult) : M unit :=
  match reply, op with
  | Ok (VmOpReply.Deleted _), VmOp.Delete vm_id =>
      r ← get_st;
      match vm_charges r !! vm_id with
      | Some charge =>
          _ ← modify (λ r, set_vm_charges (delete vm_id (vm_charges r)) r);
          refund op_tag charge
      | None => mret tt
      end
  | _, _ => mret tt
  end.

Definition refund_volume (op_tag : string) (op : VmOp.t) (reply : HostResult) : M unit :=
  match reply, op with
  | Ok (VmOpReply.VolumeDeleted _), VmOp.DeleteVolume vid =>
      r ← get_st;
      match volume_charges r !! vid with
      | Some charge =>
          _ ← modify (λ r, set_volume_charges (delete vid (volume_charges r)) r);
          refund op_tag charge
      | None => mret tt
      end
  | _, _ => mret tt
  end.

(** The last step: a [Deny] event for the refusals not audited yet. *)
Definition deny_rest (op_tag : string) (planned : option QuotaCharge) (reply : HostResult)
  : M unit :=
  match reply with
  | Err err =>
      if match planned with None => true | Some c => bool_decide (c = charge_default) end
      then emit Deny (λ ev, with_error err (with_op_tag op_tag ev))
      else mret tt
  | Ok _ => mret tt
  end.

Definition handle (op : VmOp.t) : M VmOpReply.t :=
  let op_tag := Capabilities.op_tag op in
  let planned := charge_for op in
  _ ← charge_first op_tag planned;
  reply ← call_inner (vh_handle op);
  _ ← reconcile op_tag op planned reply;
  _ ← refund_vm op_tag op reply;
  _ ← refund_volume op_tag op reply;
  _ ← deny_rest op_tag planned reply;
  try reply.

Definition snapshot (owner : NodeId) (r : t) : list RemoteVm * t :=
  let '(rows, h) := vh_snapshot owner (inner r) in (rows, set_inner h r).

Definition attach_preserved (vm_id : N) (atts : list VolumeAttachment) : M unit :=
  zoom inner set_inner (vh_attach_preserved vm_id atts).

#[export] Instance host : VmHost t := {|
  vh_handle := handle;
  vh_snapshot := snapshot;
  vh_attach_preserved := attach_preserved
|}.
End runtime.
Arguments t : clear implicits.
End TenantVmHost.
#[export] Existing Instance TenantVmHost.host.
