(* ===== verification/RuntimeProofs.v ===== *)
(** * RuntimeProofs: a tenant pays for exactly what exists

    Over any tenant store and any VM host that keep their contracts: the
    tenant's usage is always what it was plus the charges of the resources
    that exist now, the audit trail adds up to the same sum, and a refused
    operation costs nothing. *)
From S2P Require Import Prelude.
From S2P Require Import Text.
From S2P Require Import Errors.
From S2P Require Import Maps.
From S2P Require Import Quota.
From S2P Require Import AuditLog.
From S2P Require Import Vault.
From S2P Require Import Network.
From S2P Require Import Federation.
From S2P Require Import Membership.
From S2P Require Import Proto.
From S2P Require Import Capabilities.
From S2P Require Import Host.
From S2P Require Import HostProofs.
From S2P Require Import HostLaws.
From S2P Require Import Caps.
From S2P Require Import Tenant.
From S2P Require Import TenantStore.
From S2P Require Import TenantInv.
From S2P Require Import TenantQuota.
From S2P Require Import TenantProps.
From S2P Require Import TenantTrait.
From S2P Require Import Runtime.

(** ** Sums of charges *)
Definition charge_plus (a b : QuotaCharge) : QuotaCharge :=
  mkCharge (ch_vcpus a + ch_vcpus b) (ch_memory_mib a + ch_memory_mib b)
    (ch_storage_bytes a + ch_storage_bytes b) (ch_network_mbps a + ch_network_mbps b)
    (ch_iops a + ch_iops b).
Definition charge_minus (a b : QuotaCharge) : QuotaCharge :=
  mkCharge (ch_vcpus a - ch_vcpus b) (ch_memory_mib a - ch_memory_mib b)
    (ch_storage_bytes a - ch_storage_bytes b) (ch_network_mbps a - ch_network_mbps b)
    (ch_iops a - ch_iops b).

Lemma charge_ext a b :
  ch_vcpus a = ch_vcpus b → ch_memory_mib a = ch_memory_mib b →
  ch_storage_bytes a = ch_storage_bytes b → ch_network_mbps a = ch_network_mbps b →
  ch_iops a = ch_iops b → a = b.
Proof. destruct a, b. simpl. congruence. Qed.

Ltac charge_lia := apply charge_ext; simpl; lia.

Lemma charge_plus_comm a b : charge_plus a b = charge_plus b a.
Proof. charge_lia. Qed.
Lemma charge_plus_assoc a b c : charge_plus a (charge_plus b c) = charge_plus (charge_plus a b) c.
Proof. charge_lia. Qed.
Lemma charge_plus_0_r a : charge_plus a charge_default = a.
Proof. charge_lia. Qed.
Lemma charge_plus_0_l a : charge_plus charge_default a = a.
Proof. charge_lia. Qed.
Lemma charge_minus_plus a b : charge_minus (charge_plus a b) b = a.
Proof. charge_lia. Qed.

Lemma usage_plus_plus u a b : usage_plus (usage_plus u a) b = usage_plus u (charge_plus a b).
Proof. apply usage_ext; simpl; lia. Qed.
Lemma usage_plus_0 u : usage_plus u charge_default = u.
Proof. apply usage_ext; simpl; lia. Qed.

(** The sum of the charges of a map. *)
Definition map_total {A} `{Countable A} (m : gmap A QuotaCharge) : QuotaCharge :=
  map_fold (λ _ c acc, charge_plus c acc) charge_default m.

Lemma map_total_empty {A} `{Countable A} : map_total (∅ : gmap A QuotaCharge) = charge_default.
Proof. apply map_fold_empty. Qed.

Lemma map_total_insert {A} `{Countable A} (m : gmap A QuotaCharge) k c :
  m !! k = None → map_total (<[k := c]> m) = charge_plus (map_total m) c.
Proof.
  intros Hk. unfold map_total. rewrite map_fold_insert_L; [apply charge_plus_comm| |done].
  intros. rewrite !charge_plus_assoc. f_equal. apply charge_plus_comm.
Qed.

Lemma map_total_delete {A} `{Countable A} (m : gmap A QuotaCharge) k c :
  m !! k = Some c → map_total m = charge_plus (map_total (delete k m)) c.
Proof.
  intros Hk. rewrite <-(map_total_insert _ k) by apply lookup_delete_eq.
  by rewrite insert_delete_id.
Qed.

(** What an audit trail says is still charged. *)
Definition ledger_step (acc : QuotaCharge) (e : AuditEvent) : QuotaCharge :=
  match ev_action e, ev_charge e with
  | Charge, Some c => charge_plus acc c
  | Release, Some c => charge_minus acc c
  | Deny, Some c => if bool_decide (ev_note e = Some "refunded") then charge_minus acc c else acc
  | _, _ => acc
  end.
Definition ledger (es : list AuditEvent) : QuotaCharge := foldl ledger_step charge_default es.

(** ** The chain of a tenant with a charge on it *)
Section chain.
Context `{HashOrder} `{AuthPrims}.

(** [s0] with [T] added to the usage of every tenant of [l]. *)
Definition plus_on (T : QuotaCharge) (l : list N) (s0 : StoreState.t) : StoreState.t :=
  StoreState.set_tenants
    (on_usages (λ x, usage_plus (t_usage x) T) l (StoreState.tenants s0)) s0.

(** A tenant whose chain can be charged: not too deep, nothing unlimited. *)
Record billable (s0 : StoreState.t) (id : N) (l : list N) : Prop := {
  bl_chain : ancestry (StoreState.tenants s0) (Some id) l;
  bl_depth : (length l ≤ StoreState.MAX_CHAIN)%nat;
  bl_finite : ∀ k x, k ∈ l → StoreState.tenants s0 !! k = Some x → finite_quotas (t_quotas x)
}.

Lemma plus_on_0 l s0 : plus_on charge_default l s0 = s0.
Proof.
  unfold plus_on. destruct s0 as [? ? ts ? ?]. unfold StoreState.set_tenants. simpl. f_equal.
  apply map_eq. intros k. rewrite on_usages_lookup. destruct (ts !! k) as [x|]; [|done]. simpl.
  rewrite usage_plus_0. case_decide; [|done]. by destruct x.
Qed.

Lemma charge_plus_on id c l s0 T :
  billable s0 id l → inv (plus_on T l s0) →
  match StoreState.charge id c (plus_on T l s0) with
  | (Ok _, s') => s' = plus_on (charge_plus T c) l s0
  | (Err _, s') => s' = plus_on T l s0
  end.
Proof.
  intros [Hl Hd Hf] Hi.
  destruct (charge_cases id c _ Hi) as [(e&->&_)|(x&l'&Hx&Hl'&_&_&Hacc&->)]; [done|].
  assert (l' = l) as -> by (eapply ancestry_fun; [done|by apply ancestry_on_usages]).
  unfold plus_on, StoreState.set_tenants. simpl. f_equal. apply map_eq. intros k.
  rewrite !on_usages_lookup. destruct (StoreState.tenants s0 !! k) as [z|] eqn:Ez; [|done]. simpl.
  destruct (decide (k ∈ l)) as [Hk|]; [|done]. f_equal.
  destruct (Hacc k Hk) as (z'&u&Hz'&Hu). simpl in Hz'. rewrite on_usages_lookup, Ez in Hz'. simpl in Hz'.
  rewrite decide_True in Hz' by done. simplify_eq. rewrite (charged_Ok _ _ _ Hu).
  apply charge_exact_finite in Hu; [|exact (Hf k z Hk Ez)]. rewrite Hu. simpl. by rewrite usage_plus_plus.
Qed.

Lemma release_plus_on id c l s0 T :
  billable s0 id l → inv (plus_on (charge_plus T c) l s0) →
  ∃ u, StoreState.release id c (plus_on (charge_plus T c) l s0) = (Ok u, plus_on T l s0).
Proof.
  intros [Hl Hd Hf] Hi.
  assert (∃ x, StoreState.tenants (plus_on (charge_plus T c) l s0) !! id = Some x) as [x Hx].
  { inversion Hl as [|? x ? Hx _]; subst. simpl. rewrite on_usages_lookup, Hx. by eexists. }
  pose proof (ancestry_on_usages (λ x, usage_plus (t_usage x) (charge_plus T c)) l _ _ _ Hl) as Hl'.
  destruct (chain_from_spec _ id x Hi Hx) as (l2&Hl2&Hnd&Hall&Hc).
  rewrite (ancestry_fun _ _ _ _ Hl2 Hl') in Hc, Hnd, Hall. rewrite decide_True in Hc by done.
  unfold StoreState.release. st_unfold. rewrite Hc. rewrite release_apply_spec by done. eexists.
  f_equal. unfold plus_on, StoreState.set_tenants. simpl. f_equal. apply map_eq. intros k.
  rewrite !on_usages_lookup. destruct (StoreState.tenants s0 !! k) as [z|]; [|done]. simpl.
  destruct (decide (k ∈ l)); [|done]. f_equal. unfold released. simpl.
  rewrite <-usage_plus_plus, release_usage_plus. by destruct z.
Qed.
End chain.

(** ** The adapter *)
Section runtime.
Context `{HashOrder} `{AuthPrims}.
Context {S VH : Type} `{!TenantStore S} `{!TenantStoreLaws S} `{!VmHost VH} `{!VmHostLaws VH}.
Import TenantVmHost.
Abbreviation rt := (TenantVmHost.t S VH MemAuditSink).
Implicit Types (r : rt) (h : VH).

Context (s0 : StoreState.t) (id : N) (l : list N) (Hbill : billable s0 id l).
(** The trail when the adapter was built, if it is audited. *)
Context (trail : option (list AuditEvent)).

Definition trail_adds (L : QuotaCharge) (au : option (list AuditEvent)) : Prop :=
  match trail, au with
  | None, None => True
  | Some old, Some es => ∃ new, es = old ++ new ∧ ledger new = L
  | _, _ => False
  end.

(** What is known at any point of a run: the store is [s0] with [T] on the
    chain, the audit trail of the adapter adds up to [L], and the rest. *)
Record holds (T L : QuotaCharge) h (vm : gmap N QuotaCharge) (vol : gmap VolumeId QuotaCharge) r
  : Prop := {
  ho_inv : ts_inv (store r);
  ho_view : ts_view (store r) = plus_on T l s0;
  ho_ledger : trail_adds L (audit r);
  ho_tenant : tenant r = id;
  ho_inner : inner r = h;
  ho_vm : vm_charges r = vm;
  ho_vol : volume_charges r = vol
}.

Lemma ho_plus_inv T L h vm vol r : holds T L h vm vol r → inv (plus_on T l s0).
Proof. intros []. rewrite <-ho_view0. by apply law_view_inv. Qed.

(** [emit] changes only the trail and the clock. *)
Lemma emit_spec L' T L h vm vol r a deco :
  holds T L h vm vol r → (∀ ms tn u, ledger_step L (deco (with_user u (event_now ms tn a))) = L') →
  ∃ r', emit a deco r = (Ok tt, r') ∧ holds T L' h vm vol r'.
Proof.
  intros [Hi Hv Hl Ht Hh Hvm Hvol] Hd. destruct r as [tid tn s h0 vm0 vol0 au user clk].
  unfold emit, event_template. st_unfold. eexists. split; [done|]. split; simpl in *; try done.
  unfold trail_adds in *. destruct trail as [old|], au as [es|]; simpl; try done.
  destruct Hl as (new&->&Hl). eexists. split; [symmetry; apply app_assoc|].
  unfold ledger in *. rewrite foldl_app. simpl. by rewrite Hl.
Qed.

Lemma call_charge_spec c T L h vm vol r :
  holds T L h vm vol r →
  ∃ res r', call_store (λ tid, ts_charge tid c) r = (Ok res, r') ∧
    holds (if is_ok res then charge_plus T c else T) L h vm vol r'.
Proof.
  intros Hs. pose proof (ho_plus_inv _ _ _ _ _ _ Hs) as Hpi. destruct Hs as [Hi Hv Hl Ht Hh Hvm Hvol].
  destruct (law_charge (tenant r) c (store r) Hi) as (Hr&Hvw&Hi').
  pose proof (charge_plus_on id c l s0 T Hbill Hpi) as Hc. rewrite Hv, Ht in Hr, Hvw.
  unfold call_store, catch, zoom. st_unfold. rewrite Ht in *.
  destruct (ts_charge id c (store r)) as [res s1]. simpl in *.
  destruct (StoreState.charge id c (plus_on T l s0)) as [[u|e] s2]; simpl in *; subst res s2;
    (eexists _, _; split; [done|]); by split.
Qed.

(** A release of part of the total never fails. *)
Lemma call_release_spec c T L h vm vol r :
  holds (charge_plus T c) L h vm vol r →
  ∃ u r', call_store (λ tid, ts_release tid c) r = (Ok (Ok u), r') ∧ holds T L h vm vol r'.
Proof.
  intros Hs. pose proof (ho_plus_inv _ _ _ _ _ _ Hs) as Hpi. destruct Hs as [Hi Hv Hl Ht Hh Hvm Hvol].
  destruct (law_release (tenant r) c (store r) Hi) as (Hr&Hvw&Hi').
  destruct (release_plus_on id c l s0 T Hbill Hpi) as [u Hc]. rewrite Hv, Ht in Hr, Hvw.
  unfold call_store, catch, zoom. st_unfold. rewrite Ht in *.
  destruct (ts_release id c (store r)) as [res s1]. simpl in *. rewrite Hc in Hr, Hvw. simpl in *.
  subst res. eexists u, _. split; [done|]. by split.
Qed.

(** Run the head of a bind. *)
Lemma bind_Ok {A B} (m : st rt string A) (k : A → st rt string B) r a r' :
  m r = (Ok a, r') → (m ≫= k) r = k a r'.
Proof. unfold mbind, st_bind. by intros ->. Qed.

Lemma bind_Err {A B} (m : st rt string A) (k : A → st rt string B) r e r' :
  m r = (Err e, r') → (m ≫= k) r = (Err e, r').
Proof. unfold mbind, st_bind. by intros ->. Qed.

Definition planned_charge (planned : option QuotaCharge) : QuotaCharge :=
  default charge_default planned.

Lemma charge_first_spec tag planned T h vm vol r :
  holds T T h vm vol r →
  match charge_first tag planned r with
  | (Err e, r') => holds T T h vm vol r' ∧ ∃ q, e = "tenant: quota: " +:+ q
  | (Ok _, r') => let T' := charge_plus T (planned_charge planned) in holds T' T' h vm vol r'
  end.
Proof.
  intros Hs. unfold charge_first, planned_charge.
  destruct planned as [c|]; [|simpl; by rewrite charge_plus_0_r].
  simpl. destruct (decide (c = charge_default)) as [->|Hne]; [simpl; by rewrite charge_plus_0_r|].
  destruct (call_charge_spec c T T h vm vol r Hs) as (res&r1&Hcall&Hs1).
  rewrite (bind_Ok _ _ _ _ _ Hcall). destruct res as [u|e]; simpl in Hs1.
  - by edestruct (emit_spec (charge_plus T c)) as (r2&->&Hs2); [done| |].
  - edestruct (emit_spec T) as (r2&He&Hs2); [exact Hs1| |rewrite (bind_Ok _ _ _ _ _ He)];
      [done|]. split; [done|]. by eexists.
Qed.

Lemma refund_spec tag c T h vm vol r :
  holds (charge_plus T c) (charge_plus T c) h vm vol r →
  ∃ r', refund tag c r = (Ok tt, r') ∧ holds T T h vm vol r'.
Proof.
  intros Hs. unfold refund.
  destruct (call_release_spec c T (charge_plus T c) h vm vol r Hs) as (u&r1&Hcall&Hs1).
  rewrite (bind_Ok _ _ _ _ _ Hcall). eapply emit_spec; [done|].
  intros. unfold ledger_step. simpl. apply charge_minus_plus.
Qed.

Lemma reconcile_err tag op planned e T h vm vol r :
  let T' := charge_plus T (planned_charge planned) in
  holds T' T' h vm vol r →
  ∃ r', reconcile tag op planned (Err e) r = (Ok tt, r') ∧ holds T T h vm vol r'.
Proof.
  cbv zeta. unfold planned_charge. intros Hs. destruct planned as [c|]; simpl in *.
  2:{ rewrite charge_plus_0_r in Hs. by eexists. }
  destruct (decide (c = charge_default)) as [->|Hne].
  { rewrite charge_plus_0_r in Hs. by eexists. }
  destruct (call_release_spec c T (charge_plus T c) h vm vol r Hs) as (u&r1&Hcall&Hs1).
  rewrite (bind_Ok _ _ _ _ _ Hcall). eapply emit_spec; [done|].
  intros. unfold ledger_step. simpl. apply charge_minus_plus.
Qed.

Lemma deny_rest_spec tag planned reply T h vm vol r :
  holds T T h vm vol r →
  ∃ r', deny_rest tag planned reply r = (Ok tt, r') ∧ holds T T h vm vol r'.
Proof.
  intros Hs. unfold deny_rest. destruct reply as [a|e]; [by eexists|].
  destruct (match planned with Some c => _ | None => true end); [|by eexists].
  by eapply emit_spec.
Qed.

Lemma call_inner_spec op T L h vm vol r :
  holds T L h vm vol r →
  ∃ r', call_inner (vh_handle op) r = (Ok (vh_handle op h).1, r') ∧
    holds T L (vh_handle op h).2 vm vol r'.
Proof.
  intros [Hi Hv Hl Ht Hh Hvm Hvol]. unfold call_inner, catch, zoom. rewrite Hh.
  destruct (vh_handle op h) as [res h']. simpl. eexists. split; [done|]. by split.
Qed.

(** ** The books

    A host that starts without resources, billed through the adapter: the
    charges kept are those of the VMs and volumes that exist, and the store
    and the trail hold their sum. *)
Definition total (vm : gmap N QuotaCharge) (vol : gmap VolumeId QuotaCharge) : QuotaCharge :=
  charge_plus (map_total vm) (map_total vol).

Definition books h vm vol r : Prop :=
  holds (total vm vol) (total vm vol) h vm vol r ∧ vh_inv h ∧
  (∀ k, is_Some (vm !! k) ↔ vh_vm h k) ∧ (∀ k, is_Some (vol !! k) ↔ vh_volume h k).

(** What an operation does to the books, whatever it answers. *)
Definition settled (op : VmOp.t) (vm vm' : gmap N QuotaCharge)
    (vol vol' : gmap VolumeId QuotaCharge) (reply : HostResult) : Prop :=
  match op, reply with
  | VmOp.Create _ _ _ _ _ _, Ok (VmOpReply.Created k) =>
      vm !! k = None ∧ vm' = <[k := planned_charge (charge_for op)]> vm ∧ vol' = vol
  | VmOp.CreateVolume _ _, Ok (VmOpReply.VolumeCreated m) =>
      vol !! vol_id m = None ∧ vm' = vm ∧
      vol' = <[vol_id m := planned_charge (charge_for op)]> vol
  | VmOp.Delete k, Ok _ => vm' = delete k vm ∧ vol' = vol
  | VmOp.DeleteVolume k, Ok _ => vm' = vm ∧ vol' = delete k vol
  | _, _ => vm' = vm ∧ vol' = vol
  end.

(** After the inner host has run: reconcile, refund, audit and answer. *)
Definition finish (op : VmOp.t) (reply : HostResult) : st rt string VmOpReply.t :=
  let op_tag := Capabilities.op_tag op in
  let planned := charge_for op in
  _ ← reconcile op_tag op planned reply;
  _ ← refund_vm op_tag op reply;
  _ ← refund_volume op_tag op reply;
  _ ← deny_rest op_tag planned reply;
  try reply.

Lemma handle_finish op r :
  handle op r =
    (_ ← charge_first (Capabilities.op_tag op) (charge_for op);
     reply ← call_inner (vh_handle op);
     finish op reply) r.
Proof. done. Qed.

Lemma finish_err op e T h vm vol r :
  let T' := charge_plus T (planned_charge (charge_for op)) in
  holds T' T' h vm vol r →
  ∃ r', finish op (Err e) r = (Err e, r') ∧ holds T T h vm vol r'.
Proof.
  intros T' Hs. unfold finish.
  destruct (reconcile_err (Capabilities.op_tag op) op (charge_for op) e T h vm vol r Hs)
    as (r1&E1&Hs1). rewrite (bind_Ok _ _ _ _ _ E1).
  destruct (deny_rest_spec (Capabilities.op_tag op) (charge_for op) (Err e) T h vm vol r1 Hs1)
    as (r2&E2&Hs2).
  exists r2. split; [|done]. cbn [refund_vm refund_volume]. 
  rewrite (bind_Ok _ _ _ tt r1) by done. rewrite (bind_Ok _ _ _ tt r1) by done.
  by rewrite (bind_Ok _ _ _ _ _ E2).
Qed.

(** A reply that nothing has to be kept or given back for. *)
Lemma finish_quiet op x T h vm vol r :
  charge_for op = None →
  match op with VmOp.Delete _ | VmOp.DeleteVolume _ => False | _ => True end →
  holds T T h vm vol r → finish op (Ok x) r = (Ok x, r).
Proof. intros Hc Hop Hs. unfold finish. rewrite Hc. destruct x, op; done. Qed.

Lemma finish_create op k T h vm vol r :
  is_create_vm op = true → holds T T h vm vol r →
  ∃ r', finish op (Ok (VmOpReply.Created k)) r = (Ok (VmOpReply.Created k), r') ∧
    holds T T h (<[k := planned_charge (charge_for op)]> vm) vol r'.
Proof.
  intros Hop [Hi Hv Hl Ht Hh Hvm Hvol]. destruct op; try done. eexists. split; [reflexivity|].
  split; try done. simpl. by rewrite Hvm.
Qed.

Lemma finish_create_volume op m T h vm vol r :
  is_create_volume op = true → holds T T h vm vol r →
  ∃ r', finish op (Ok (VmOpReply.VolumeCreated m)) r = (Ok (VmOpReply.VolumeCreated m), r') ∧
    holds T T h vm (<[vol_id m := planned_charge (charge_for op)]> vol) r'.
Proof.
  intros Hop [Hi Hv Hl Ht Hh Hvm Hvol]. destruct op; try done. eexists. split; [reflexivity|].
  split; try done. simpl. by rewrite Hvol.
Qed.

Lemma finish_delete k h vm vol r :
  holds (total vm vol) (total vm vol) h vm vol r →
  ∃ r', finish (VmOp.Delete k) (Ok (VmOpReply.Deleted k)) r = (Ok (VmOpReply.Deleted k), r') ∧
    let T := total (delete k vm) vol in holds T T h (delete k vm) vol r'.
Proof.
  intros Hs. unfold finish. cbn [charge_for]. rewrite (bind_Ok _ _ _ tt r) by done.
  assert (∃ r1, refund_vm (Capabilities.op_tag (VmOp.Delete k)) (VmOp.Delete k)
      (Ok (VmOpReply.Deleted k)) r = (Ok tt, r1) ∧
    let T := total (delete k vm) vol in holds T T h (delete k vm) vol r1) as (r1&E1&Hs1).
  { unfold refund_vm. rewrite (bind_Ok _ _ _ r r) by done. rewrite (ho_vm _ _ _ _ _ _ Hs).
    destruct (vm !! k) as [c|] eqn:Ek.
    - rewrite (bind_Ok _ _ _ tt (set_vm_charges (delete k (vm_charges r)) r)) by done.
      apply refund_spec. destruct Hs as [Hi Hv Hl Ht Hh Hvm Hvol].
      assert (charge_plus (total (delete k vm) vol) c = total vm vol) as ->.
      { unfold total. rewrite (map_total_delete vm k c Ek). charge_lia. }
      split; try done. simpl. by rewrite Hvm.
    - exists r. split; [done|]. by rewrite delete_id. }
  rewrite (bind_Ok _ _ _ _ _ E1). by exists r1.
Qed.

Lemma finish_delete_volume k h vm vol r :
  holds (total vm vol) (total vm vol) h vm vol r →
  ∃ r', finish (VmOp.DeleteVolume k) (Ok (VmOpReply.VolumeDeleted k)) r =
      (Ok (VmOpReply.VolumeDeleted k), r') ∧
    let T := total vm (delete k vol) in holds T T h vm (delete k vol) r'.
Proof.
  intros Hs. unfold finish. cbn [charge_for]. rewrite (bind_Ok _ _ _ tt r) by done.
  rewrite (bind_Ok _ _ _ tt r) by done.
  assert (∃ r1, refund_volume (Capabilities.op_tag (VmOp.DeleteVolume k)) (VmOp.DeleteVolume k)
      (Ok (VmOpReply.VolumeDeleted k)) r = (Ok tt, r1) ∧
    let T := total vm (delete k vol) in holds T T h vm (delete k vol) r1) as (r1&E1&Hs1).
  { unfold refund_volume. rewrite (bind_Ok _ _ _ r r) by done. rewrite (ho_vol _ _ _ _ _ _ Hs).
    destruct (vol !! k) as [c|] eqn:Ek.
    - rewrite (bind_Ok _ _ _ tt (set_volume_charges (delete k (volume_charges r)) r)) by done.
      apply refund_spec. destruct Hs as [Hi Hv Hl Ht Hh Hvm Hvol].
      assert (charge_plus (total vm (delete k vol)) c = total vm vol) as ->.
      { unfold total. rewrite (map_total_delete vol k c Ek). charge_lia. }
      split; try done. simpl. by rewrite Hvol.
    - exists r. split; [done|]. by rewrite delete_id. }
  rewrite (bind_Ok _ _ _ _ _ E1). by exists r1.
Qed.

Lemma dom_insert_iff {A} `{Countable A} (m : gmap A QuotaCharge) (P P' : A → Prop) k c :
  (∀ j, is_Some (m !! j) ↔ P j) → (∀ j, P' j ↔ j = k ∨ P j) →
  ∀ j, is_Some (<[k := c]> m !! j) ↔ P' j.
Proof.
  intros Hm HP j. rewrite HP, <-Hm, lookup_insert_is_Some.
  destruct (decide (k = j)); naive_solver.
Qed.

Lemma dom_delete_iff {A} `{Countable A} (m : gmap A QuotaCharge) (P P' : A → Prop) k :
  (∀ j, is_Some (m !! j) ↔ P j) → (∀ j, P' j ↔ j ≠ k ∧ P j) →
  ∀ j, is_Some (delete k m !! j) ↔ P' j.
Proof. intros Hm HP j. rewrite HP, <-Hm, lookup_delete_is_Some. naive_solver. Qed.

Lemma handle_spec op h vm vol r :
  books h vm vol r → vh_room h →
  (∃ e r', handle op r = (Err e, r') ∧ (∃ q, e = "tenant: quota: " +:+ q) ∧ books h vm vol r') ∨
  ∃ vm' vol' r', handle op r = ((vh_handle op h).1, r') ∧
    settled op vm vm' vol vol' (vh_handle op h).1 ∧ books (vh_handle op h).2 vm' vol' r'.
Proof.
  intros (Hs&Hi&Hvm&Hvol) Hr. rewrite handle_finish.
  pose proof (charge_first_spec (Capabilities.op_tag op) (charge_for op) _ _ _ _ _ Hs) as Hc.
  destruct (charge_first _ _ r) as [[[]|e] r1] eqn:Ec.
  2:{ left. rewrite (bind_Err _ _ _ _ _ Ec). exists e, r1. destruct Hc. done. }
  right. rewrite (bind_Ok _ _ _ _ _ Ec). destruct (call_inner_spec op _ _ _ _ _ _ Hc) as (r2&E2&Hs2).
  rewrite (bind_Ok _ _ _ _ _ E2). pose proof (law_vh_inv op h Hi Hr) as Hi'.
  destruct (law_vh_change op h Hi Hr) as
    [label rp img cpu mem crc k -> Hn Hk Hv|k -> Hk Hv|name size m -> Hn Hv Hk|k -> Hv Hk|x Hx Hk Hv].
  - destruct (finish_create (VmOp.Create label rp img cpu mem crc) k _ _ _ _ _ eq_refl Hs2)
      as (r3&E3&Hs3).
    assert (vm !! k = None) as Hnone by (apply eq_None_not_Some; by rewrite Hvm).
    eexists _, vol, r3. split; [done|]. split; [done|]. split; [|split; [done|split]].
    + unfold total in *. rewrite map_total_insert by done.
      by rewrite <-charge_plus_assoc, (charge_plus_comm (planned_charge _)), charge_plus_assoc.
    + by eapply dom_insert_iff.
    + intros j. by rewrite Hv, Hvol.
  - rewrite charge_plus_0_r in Hs2. destruct (finish_delete k _ _ _ _ Hs2) as (r3&E3&Hs3).
    eexists _, vol, r3. split; [done|]. split; [done|]. split; [done|split; [done|split]].
    + by eapply dom_delete_iff.
    + intros j. by rewrite Hv, Hvol.
  - destruct (finish_create_volume (VmOp.CreateVolume name size) m _ _ _ _ _ eq_refl Hs2)
      as (r3&E3&Hs3).
    assert (vol !! vol_id m = None) as Hnone by (apply eq_None_not_Some; by rewrite Hvol).
    eexists vm, _, r3. split; [done|]. split; [done|]. split; [|split; [done|split]].
    + unfold total in *. rewrite map_total_insert by done. by rewrite charge_plus_assoc.
    + intros j. by rewrite Hk, Hvm.
    + by eapply dom_insert_iff.
  - rewrite charge_plus_0_r in Hs2. destruct (finish_delete_volume k _ _ _ _ Hs2) as (r3&E3&Hs3).
    eexists vm, _, r3. split; [done|]. split; [done|]. split; [done|split; [done|split]].
    + intros j. by rewrite Hk, Hvm.
    + by eapply dom_delete_iff.
  - exists vm, vol. destruct x as [x|e].
    + assert (charge_for op = None) as Hno by (by destruct op).
      rewrite Hno in Hs2. rewrite charge_plus_0_r in Hs2.
      exists r2. split; [eapply finish_quiet; [done|by destruct op|done]|].
      split; [by destruct op|]. split; [done|]. split; [done|].
      split; intros j; [by rewrite Hk, Hvm|by rewrite Hv, Hvol].
    + destruct (finish_err op e _ _ _ _ _ Hs2) as (r3&E3&Hs3). exists r3.
      split; [done|]. split; [by destruct op|]. split; [done|]. split; [done|].
      split; intros j; [by rewrite Hk, Hvm|by rewrite Hv, Hvol].
Qed.

(** A fresh adapter over a host without resources. *)
Lemma books_new s h r :
  ts_inv s → ts_view s = s0 → vh_inv h → (∀ k, ¬ vh_vm h k) → (∀ k, ¬ vh_volume h k) →
  store r = s → inner r = h → tenant r = id → audit r = trail →
  vm_charges r = ∅ → volume_charges r = ∅ → books h ∅ ∅ r.
Proof.
  intros Hi Hv Hh Hvm Hvol Hs Hin Ht Ha Hvc Hlc. split; [|split; [done|split]].
  - split; try done; [by rewrite Hs|unfold total; by rewrite Hs, plus_on_0|].
    unfold trail_adds. rewrite Ha. destruct trail as [old|]; [|done]. exists [].
    by rewrite app_nil_r.
  - intros k. rewrite lookup_empty. split; [by intros []|by intros ?%Hvm].
  - intros k. rewrite lookup_empty. split; [by intros []|by intros ?%Hvol].
Qed.

(** What happens to an adapter: an operation, or a snapshot of its host. *)
Inductive rt_step : rt → rt → Prop :=
| rt_handle op r : vh_room (inner r) → rt_step r (handle op r).2
| rt_snapshot o r : owner_ok o → rt_step r (snapshot o r).2.

Definition books_of r : Prop := books (inner r) (vm_charges r) (volume_charges r) r.

Lemma books_self h vm vol r : books h vm vol r → books_of r.
Proof.
  intros Hb. pose proof Hb as ([_ _ _ _ Hh Hvm Hvol]&_). unfold books_of. by rewrite Hh, Hvm, Hvol.
Qed.

Lemma books_step r r' : rt_step r r' → books_of r → books_of r'.
Proof.
  destruct 1 as [op r Hr|o r Ho]; intros Hb.
  - destruct (handle_spec op _ _ _ r Hb Hr) as [(e&r'&->&_&Hb')|(vm'&vol'&r'&->&_&Hb')];
      by eapply books_self.
  - destruct Hb as (Hs&Hi&Hvm&Hvol). destruct (law_vh_snapshot o (inner r) Hi Ho) as (Hi'&Hk&Hv).
    unfold snapshot. destruct (vh_snapshot o (inner r)) as [rows h']. simpl in *.
    split; [destruct Hs; by split|]. split; [done|].
    split; intros k; simpl; [by rewrite Hk, Hvm|by rewrite Hv, Hvol].
Qed.

Lemma books_run r r' : rtc rt_step r r' → books_of r → books_of r'.
Proof. induction 1 as [|r1 r2 r3 Hst _ IH]; [done|]. intros. by eapply IH, books_step. Qed.

Lemma map_total_none {A} `{Countable A} (m : gmap A QuotaCharge) (P : A → Prop) :
  (∀ k, is_Some (m !! k) ↔ P k) → (∀ k, ¬ P k) → map_total m = charge_default.
Proof.
  intros Hm HP. assert (m = ∅) as ->; [|done].
  apply map_empty. intros k. apply eq_None_not_Some. rewrite Hm. apply HP.
Qed.
End runtime.

(** ** Properties *)
Section properties.
Context `{HashOrder} `{AuthPrims}.
Context {S VH : Type} `{!TenantStore S} `{!TenantStoreLaws S} `{!VmHost VH} `{!VmHostLaws VH}.
Import TenantVmHost.

Lemma books_fresh (s : S) (h : VH) id l clk :
  ts_inv s → vh_inv h → (∀ k, ¬ vh_vm h k) → (∀ k, ¬ vh_volume h k) →
  books_of (ts_view s) id l (Some []) (with_audit [] (new id s h clk)).
Proof. intros. by eapply books_self, books_new. Qed.

(** C12: a tenant pays for exactly what exists.  The store and the host are any
    that keep their contracts (so a call of the store that fails has changed
    nothing: a [FileTenantStore] whose file cannot be written does not keep
    it); the tenant is at most 65 levels deep and neither it nor an ancestor has
    an unlimited quota (where charges saturate: [saturated_charge_drifts]); the
    host starts empty, on a node whose name holds no @, slash, colon or
    backslash, and its counters never run out.  Then, after any sequence of operations and snapshots
    through the adapter, refused and failing ones included, but without
    [attach_preserved]: the store is what it was with the sum of the kept charges added
    to the tenant and each of its ancestors and nothing else changed; charges
    are kept for exactly the VMs and volumes that exist; the audit trail adds
    up to that sum; and once everything is deleted the store is as before. *)
Theorem quota_conserved (s : S) (h : VH) id l clk (r : TenantVmHost.t S VH MemAuditSink) :
  ts_inv s → billable (ts_view s) id l → vh_inv h →
  (∀ k, ¬ vh_vm h k) → (∀ k, ¬ vh_volume h k) →
  rtc rt_step (with_audit [] (new id s h clk)) r →
  ts_view (store r) = plus_on (total (vm_charges r) (volume_charges r)) l (ts_view s) ∧
  (∀ k, is_Some (vm_charges r !! k) ↔ vh_vm (inner r) k) ∧
  (∀ k, is_Some (volume_charges r !! k) ↔ vh_volume (inner r) k) ∧
  (∃ es, audit r = Some es ∧ ledger es = total (vm_charges r) (volume_charges r)) ∧
  ((∀ k, ¬ vh_vm (inner r) k) → (∀ k, ¬ vh_volume (inner r) k) →
    ts_view (store r) = ts_view s).
Proof.
  intros Hi Hb Hh Hvm Hvol Hrun.
  pose proof (books_run _ _ _ Hb (Some []) _ _ Hrun (books_fresh s h id l clk Hi Hh Hvm Hvol)) as (Hs&_&Hkvm&Hkvol).
  destruct Hs as [_ Hv Hl _ _ _ _]. split; [done|]. split; [done|]. split; [done|].
  split.
  { unfold trail_adds in Hl. destruct (audit r) as [es|]; [|done]. by destruct Hl as (new&->&?); eexists. }
  intros Hnvm Hnvol. rewrite Hv. unfold total.
  rewrite (map_total_none _ _ Hkvm Hnvm), (map_total_none _ _ Hkvol Hnvol).
  rewrite charge_plus_0_r. apply plus_on_0.
Qed.

(** An operation through the adapter bills exactly what it achieves.  On
    any run as above, a quota refusal never reaches the host; an operation the
    host refuses answers the host's error; either way the store and the kept
    charges are as before.  An accepted one answers the host's reply, and the
    kept charges change by [settled]: a creation adds the charge of that
    operation, a deletion gives the recorded one back. *)
Theorem handle_bills_exactly (s : S) (h : VH) id l clk (r : TenantVmHost.t S VH MemAuditSink) op :
  ts_inv s → billable (ts_view s) id l → vh_inv h →
  (∀ k, ¬ vh_vm h k) → (∀ k, ¬ vh_volume h k) →
  rtc rt_step (with_audit [] (new id s h clk)) r → vh_room (inner r) →
  let '(reply, r') := handle op r in
  match reply with
  | Err e =>
      ((∃ q, e = "tenant: quota: " +:+ q) ∧ inner r' = inner r ∨
       (vh_handle op (inner r)).1 = Err e) ∧
      ts_view (store r') = ts_view (store r) ∧
      vm_charges r' = vm_charges r ∧ volume_charges r' = volume_charges r
  | Ok x =>
      (vh_handle op (inner r)).1 = Ok x ∧ inner r' = (vh_handle op (inner r)).2 ∧
      settled op (vm_charges r) (vm_charges r') (volume_charges r) (volume_charges r') reply ∧
      ts_view (store r') = plus_on (total (vm_charges r') (volume_charges r')) l (ts_view s)
  end.
Proof.
  intros Hi Hb Hh Hvm Hvol Hrun Hr.
  pose proof (books_run _ _ _ Hb (Some []) _ _ Hrun (books_fresh s h id l clk Hi Hh Hvm Hvol)) as Hbr.
  destruct (handle_spec _ _ _ Hb (Some []) op _ _ _ r Hbr Hr)
    as [(e&r'&->&Hq&Hb')|(vm'&vol'&r'&->&Hset&Hb')];
    destruct Hbr as ([_ Hv0 _ _ _ _ _]&_); destruct Hb' as ([_ Hv _ _ Hin Hcvm Hcvol]&_).
  - split; [by left|]. by rewrite Hv, Hv0.
  - destruct (vh_handle op (inner r)) as [[x|e] h']; simpl in *.
    + split; [done|]. split; [done|]. by rewrite Hcvm, Hcvol.
    + assert (vm' = vm_charges r ∧ vol' = volume_charges r) as [-> ->] by (by destruct op).
      split; [by right|]. by rewrite Hv, Hv0.
Qed.
End properties.

(** ** Witnesses *)
From S2P Require Import VaultProofs.
From S2P Require Import NetworkProofs.

Module RuntimeWitness.
Import TenantVmHost TenantWitness.
Abbreviation mem_host := (MemVmHost.t MemVolumeStore.MemInner MemNetworkStore.MemInner).
Abbreviation mem_rt := (TenantVmHost.t StoreState.t mem_host MemAuditSink).

Definition host0 : mem_host :=
  MemVmHost.with_caps Capabilities.ALL
    (MemVmHost.with_stores MemVolumeStore.new MemNetworkStore.new).
Definition s : StoreState.t := store_run setup.
Definition rt0 : mem_rt := with_audit [] (new 2 s host0 [100; 200; 300]%N).
(** A VM and a volume are created, a VM too large is refused, the VM is
    stopped and deleted. *)
Definition ops : list VmOp.t :=
  [VmOp.Create "web" Always None (Some 2%N) (Some 512%N) None; VmOp.CreateVolume "data" 1024;
   VmOp.Create "big" Always None (Some 100%N) None None; VmOp.Stop 0; VmOp.Delete 0].
Definition rt1 : mem_rt := (snapshot "n1" rt0).2.
Definition final : mem_rt := foldl (λ r op, (handle op r).2) rt1 ops.

Lemma rt_final_run : rtc rt_step rt0 final.
Proof.
  unfold final, ops. cbn [foldl].
  do 5 (eapply rtc_r;
    [|apply rt_handle; apply VaultWitness.room_by_compute; vm_compute; reflexivity]).
  apply rtc_once, (rt_snapshot "n1"). done.
Qed.

Lemma rt_billable : billable s 2 [2%N; 1%N].
Proof.
  split.
  - apply (chain_loop_ancestry _ 5). by vm_compute.
  - vm_compute. lia.
  - intros k x _ Hx.
    assert (∀ k x, StoreState.tenants s !! k = Some x → t_quotas x = quotas) as Hq.
    { apply map_Forall_to_list_bool. vm_compute. reflexivity. }
    rewrite (Hq _ _ Hx). by vm_compute.
Qed.

Lemma rt_inv : ts_inv s.
Proof. exact (store_run_inv setup). Qed.

Lemma rt_host : vh_inv host0.
Proof. apply host_inv_new, MemVaultInv.inv_new. Qed.

Lemma rt_empty : (∀ k, ¬ vh_vm host0 k) ∧ (∀ k, ¬ vh_volume host0 k).
Proof.
  split; intros k.
  - intros (_&x&Hx). by apply (lookup_replicate 4 None) in Hx as [? _].
  - intros [m Hm]. done.
Qed.
End RuntimeWitness.

Section witnesses.
Import TenantVmHost TenantWitness RuntimeWitness.

Lemma quota_conserved_witness :
  ts_view (store final) = plus_on (mkCharge 0 0 1024 0 0) [2%N; 1%N] (ts_view s) ∧
  ∃ es, audit final = Some es ∧ length es = 4 ∧ ledger es = mkCharge 0 0 1024 0 0.
Proof.
  destruct (quota_conserved s host0 2 [2%N; 1%N] [100; 200; 300]%N final rt_inv rt_billable
    rt_host (proj1 rt_empty) (proj2 rt_empty) rt_final_run)
    as (Hv&_&_&(es&Ha&Hl)&_).
  assert (total (vm_charges final) (volume_charges final) = mkCharge 0 0 1024 0 0) as Ht
    by (vm_compute; reflexivity).
  split; [exact (eq_trans Hv (f_equal (λ T, plus_on T [2%N; 1%N] (ts_view s)) Ht))|].
  exists es. split; [exact Ha|]. split; [|exact (eq_trans Hl Ht)].
  assert (length <$> audit final = Some 4) as Hn by (vm_compute; reflexivity).
  pose proof (eq_trans (eq_sym (f_equal (fmap length) Ha)) Hn) as Hn'. by injection Hn'.
Defined.

Lemma handle_bills_exactly_witness :
  ts_view (store (handle (VmOp.CreateVolume "more" 512) final).2) =
    plus_on (mkCharge 0 0 1536 0 0) [2%N; 1%N] (ts_view s).
Proof.
  pose proof (handle_bills_exactly s host0 2 [2%N; 1%N] [100; 200; 300]%N final
    (VmOp.CreateVolume "more" 512) rt_inv rt_billable
    rt_host (proj1 rt_empty) (proj2 rt_empty) rt_final_run) as H.
  assert (is_ok (handle (VmOp.CreateVolume "more" 512) final).1 = true) as Hok
    by (vm_compute; reflexivity).
  assert (let r := (handle (VmOp.CreateVolume "more" 512) final).2 in
    total (vm_charges r) (volume_charges r) = mkCharge 0 0 1536 0 0) as Ht
    by (vm_compute; reflexivity).
  destruct (handle (VmOp.CreateVolume "more" 512) final) as [[x|e] r']; [|done].
  cbv zeta in Ht. cbn [snd] in Ht. rewrite <-Ht.
  refine (proj2 (proj2 (proj2 (H _)))).
  apply VaultWitness.room_by_compute. vm_compute. reflexivity.
Defined.
End witnesses.
