(* ===== verification/Exec.v ===== *)
(** * Exec: [celtenancy::exec]

    One operation run for a tenant on a host made for the occasion: the
    in-memory host with the tenant's (or the user's) capabilities, behind the
    billing adapter, over the real tenant store. *)
From S2P Require Import Prelude.
From S2P Require Import Text.
From S2P Require Import Errors.
From S2P Require Import Maps.
From S2P Require Import Quota.
From S2P Require Import AuditLog.
From S2P Require Import Vault.
From S2P Require Import VaultProofs.
From S2P Require Import Network.
From S2P Require Import NetworkProofs.
From S2P Require Import Federation.
From S2P Require Import Membership.
From S2P Require Import Proto.
From S2P Require Import Capabilities.
From S2P Require Import Host.
From S2P Require Import HostProofs.
From S2P Require Import HostLaws.
From S2P Require Import Caps.
From S2P Require Import Tenant.
From S2P Require Import TenantStore.
From S2P Require Import TenantInv.
From S2P Require Import TenantQuota.
From S2P Require Import TenantTrait.
From S2P Require Import Runtime.
From S2P Require Import RuntimeProofs.

Record ExecAudit := mkExecAudit {
  ea_tenant : string;
  ea_user : option string;
  ea_op : string;
  ea_op_capability_tag : string;
  ea_effective_caps : string;
  ea_planned_charge : option QuotaCharge;
  ea_dispatch_succeeded : bool;
  ea_error : option string;
  ea_reply : option string;
  ea_usage_before : QuotaUsage;
  ea_usage_after : QuotaUsage
}.

(** [ExecAudit::ok]. *)
Definition exec_ok (a : ExecAudit) : bool :=
  ea_dispatch_succeeded a && match ea_error a with None => true | Some _ => false end.

Definition vm_create_op (label : string) (cpu_count memory_mib : N) : VmOp.t :=
  VmOp.Create label Never None (Some cpu_count) (Some memory_mib) None.
Definition volume_create_op (name : string) (size_bytes : N) : VmOp.t :=
  VmOp.CreateVolume name size_bytes.

Definition op_summary (op : VmOp.t) : string :=
  match op with
  | VmOp.Create _ _ _ _ _ _ => "Create"
  | VmOp.Start _ => "Start"
  | VmOp.Stop _ => "Stop"
  | VmOp.Delete _ => "Delete"
  | VmOp.List => "List"
  | VmOp.CreateVolume _ _ => "CreateVolume"
  | VmOp.DeleteVolume _ => "DeleteVolume"
  | VmOp.ListVolumes => "ListVolumes"
  | VmOp.CreateNetwork _ _ => "CreateNetwork"
  | VmOp.ListNetworks => "ListNetworks"
  | _ => "Other"
  end.

Definition refund_for (op : VmOp.t) : option QuotaCharge :=
  match op with
  | VmOp.Create _ _ _ cpu_count memory_mib _ =>
      Some (mkCharge (default 0%N cpu_count) (default 0%N memory_mib) 0 0 0)
  | VmOp.CreateVolume _ size_bytes => Some (mkCharge 0 0 size_bytes 0 0)
  | _ => None
  end.

Definition effective_caps_for (x : Tenant) (user : option string)
  : CelResult (Capabilities.t * string) :=
  caps ← match user with
         | None => Ok (t_root_caps x)
         | Some name =>
             ok_or (u_caps <$> find_first (λ u, bool_decide (u_name u = name)) (t_users x))
               (Invalid "tenancy: user unknown")
         end;
  Ok (TenantCaps.to_mesh_capabilities caps, TenantCaps.to_tags caps).

(** [ExecOptions] without the sink. *)
Record ExecOptions := mkExecOptions {
  release_after_create : bool;
  opt_node : option string
}.

Section exec.
Context {S K : Type} `{!TenantStore S} `{!AuditSink K}.
(** The derived [Debug] of a reply, for the summaries of the replies that have
    no text of their own. *)
Context (debug_reply : VmOpReply.t → string).

Definition reply_summary (r : VmOpReply.t) : string :=
  match r with
  | VmOpReply.Created vm_id => "Created vm_id=" +:+ fmt_u vm_id
  | VmOpReply.Deleted vm_id => "Deleted vm_id=" +:+ fmt_u vm_id
  | VmOpReply.State vm_id state => "State vm_id=" +:+ fmt_u vm_id +:+ " state=" +:+ debug_str state
  | VmOpReply.Listed rows => "Listed rows=" +:+ fmt_u (N.of_nat (length rows))
  | VmOpReply.VolumeCreated v =>
      "VolumeCreated id=" +:+ vol_id v +:+ " size=" +:+ fmt_u (vol_size v)
  | VmOpReply.VolumeDeleted id => "VolumeDeleted id=" +:+ id
  | VmOpReply.VolumesListed vs => "VolumesListed n=" +:+ fmt_u (N.of_nat (length vs))
  | VmOpReply.NetworkCreated n => "NetworkCreated id=" +:+ net_id n
  | VmOpReply.NetworksListed ns => "NetworksListed n=" +:+ fmt_u (N.of_nat (length ns))
  | other => debug_reply other
  end.

(** What [exec] shares with the rest of the process: the store, the sink and
    the clock. *)
Record ExecEnv := mkExecEnv {
  env_store : S;
  env_sink : option K;
  env_clock : list N
}.
Abbreviation M := (st ExecEnv CelError).

Abbreviation exec_host := (MemVmHost.t MemVolumeStore.MemInner MemNetworkStore.MemInner).
Abbreviation exec_rt := (TenantVmHost.t S exec_host K).

Definition fresh_host (caps : Capabilities.t) : exec_host :=
  MemVmHost.with_caps caps (MemVmHost.with_stores MemVolumeStore.new MemNetworkStore.new).

(** The adapter of the trip, its owner already named. *)
Definition prepare (tid : TenantId) (caps : Capabilities.t) (user : option string) (node : string)
    (env : ExecEnv) : exec_rt :=
  let host := TenantVmHost.new tid (env_store env) (fresh_host caps) (env_clock env) in
  let host := match env_sink env with
              | Some sink =>
                  let host := TenantVmHost.with_audit sink host in
                  match user with
                  | Some u => TenantVmHost.with_audit_user u host
                  | None => host
                  end
              | None => host
              end in
  (TenantVmHost.snapshot node host).2.

(** Dispatch the operation; the store, the sink and the clock come back. *)
Definition dispatch (tid : TenantId) (caps : Capabilities.t) (user : option string)
    (node : string) (op : VmOp.t) : M HostResult := λ env,
  let '(reply, host) := TenantVmHost.handle op (prepare tid caps user node env) in
  (Ok reply, mkExecEnv (TenantVmHost.store host) (TenantVmHost.audit host)
               (TenantVmHost.clock host)).

(** Stamp an event and record it in the sink, if there is one: the clock is
    read only then. *)
Definition record_event (tenant : string) (action : AuditAction) (user : option string)
    (decorate : AuditEvent → AuditEvent) : M unit := λ env,
  match env_sink env with
  | None => (Ok tt, env)
  | Some sink =>
      let ev := with_user user (event_now (default 0%N (head (env_clock env))) tenant action) in
      (Ok tt, mkExecEnv (env_store env) (Some (as_record (decorate ev) sink))
                (tail (env_clock env)))
  end.

(** The dry-run refund. *)
Definition release_dry_run (x : Tenant) (user : option string) (op_tag : string)
    (planned : option QuotaCharge) : M bool :=
  match planned with
  | Some c =>
      if decide (c = charge_default) then mret false
      else
        res ← catch (zoom env_store (λ s env, mkExecEnv s (env_sink env) (env_clock env))
                       (ts_release (t_id x) c));
        match res with
        | Ok _ =>
            _ ← record_event (t_name x) Release user
                  (λ ev, with_note "dry-run" (with_charge c (with_op_tag op_tag ev)));
            mret true
        | Err _ => mret false
        end
  | None => mret false
  end.

Definition exec_note (op_kind : string) (released : bool) (reply : option string) : string :=
  "op=" +:+ op_kind +:+ (if released then " released=true" else EmptyString)
  +:+ match reply with Some r => " reply=" +:+ r | None => EmptyString end.

Definition exec (tenant_name : string) (user_name : option string) (op : VmOp.t)
    (opts : ExecOptions) : M ExecAudit :=
  env ← get_st;
  x ← try (ts_get_by_name tenant_name (env_store env));
  '(caps, cap_tags) ← try (effective_caps_for x user_name);
  let op_tag := Capabilities.op_tag op in
  let op_kind := op_summary op in
  before ← try (ts_get (t_id x) (env_store env));
  let node := default "tenant-exec" (opt_node opts) in
  let planned := refund_for op in
  result ← dispatch (t_id x) caps user_name node op;
  let '(succeeded, reply, error) :=
    match result with
    | Ok r => (true, Some (reply_summary r), None)
    | Err e => (false, None, Some e)
    end in
  released ← (if release_after_create opts && succeeded
              then release_dry_run x user_name op_tag planned else mret false);
  env ← get_st;
  after ← try (ts_get (t_id x) (env_store env));
  _ ← record_event (t_name x) Exec user_name (λ ev,
        let ev := with_op_tag op_tag ev in
        let ev := match planned with Some c => with_charge c ev | None => ev end in
        let ev := match error with Some e => with_error e ev | None => ev end in
        with_note (exec_note op_kind released reply) ev);
  mret (mkExecAudit (t_name x) user_name op_kind op_tag cap_tags planned succeeded error reply
          (t_usage before) (t_usage after)).
End exec.

(** ** What a trip leaves behind *)
Section exec_proofs.
Context `{HashOrder} `{AuthPrims}.
Context {S : Type} `{!TenantStore S} `{!TenantStoreLaws S}.
Context (debug_reply : VmOpReply.t → string).
Abbreviation env := (ExecEnv (S := S) (K := MemAuditSink)).
Abbreviation exec_host := (MemVmHost.t MemVolumeStore.MemInner MemNetworkStore.MemInner).

Lemma refund_is_charge op : refund_for op = charge_for op.
Proof. by destruct op. Qed.

Lemma fresh_host_inv caps : vh_inv (fresh_host caps).
Proof. apply host_inv_new, MemVaultInv.inv_new. Qed.

(** The adapter of the trip keeps empty books, and its host has room. *)
Lemma prepare_books tid caps user node (e : env) l :
  ts_inv (env_store e) → billable (ts_view (env_store e)) tid l → owner_ok node →
  let r := prepare tid caps user node e in
  books (ts_view (env_store e)) tid l (env_sink e) (TenantVmHost.inner r) ∅ ∅ r ∧
  vh_room (TenantVmHost.inner r) ∧
  MemVmHost.caps (TenantVmHost.inner r) = caps.
Proof.
  intros Hi Hb Ho r. split; [|split].
  - assert (∃ r0, r = (TenantVmHost.snapshot node r0).2 ∧
      books (ts_view (env_store e)) tid l (env_sink e) (fresh_host caps) ∅ ∅ r0) as (r0&Hr&Hb0).
    { eexists. split; [reflexivity|].
      eapply (books_new _ _ _ _ (env_store e) (fresh_host caps)); try done; try apply fresh_host_inv.
      - intros k (_&x&Hx). by apply (lookup_replicate 4 None) in Hx as [? _].
      - by intros k [m Hm].
      - by destruct (env_sink e), user.
      - by destruct (env_sink e), user.
      - by destruct (env_sink e), user.
      - by destruct (env_sink e), user.
      - by destruct (env_sink e), user.
      - by destruct (env_sink e), user. }
    apply books_self in Hb0 as Hof.
    pose proof (books_step _ _ _ Hb _ _ _ (rt_snapshot node r0 Ho) Hof) as Hb1.
    rewrite <-Hr in Hb1. unfold books_of in Hb1.
    assert (TenantVmHost.vm_charges r = ∅ ∧ TenantVmHost.volume_charges r = ∅) as [Hvm Hvol].
    { unfold r, prepare. by destruct (env_sink e), user. }
    by rewrite Hvm, Hvol in Hb1.
  - unfold r, prepare. destruct (env_sink e), user; simpl; split; simpl; try done; by intros ??.
  - unfold r, prepare. by destruct (env_sink e), user.
Qed.

(** From empty books, an operation leaves exactly its planned charge, and only
    if it succeeds. *)
Lemma settled_total op vm vm' vol vol' (P P' : N → Prop) (Q Q' : VolumeId → Prop) reply :
  vm = ∅ → vol = ∅ → host_change op P P' Q Q' reply → settled op vm vm' vol vol' reply →
  total vm' vol' = if is_ok reply then planned_charge (charge_for op) else charge_default.
Proof.
  intros -> -> Hc Hs.
  destruct Hc as [label rp img cpu mem crc k -> _ _ _|k -> _ _|name size m -> _ _ _|k -> _ _|r Hr _ _];
    simpl in Hs.
  - destruct Hs as (_&->&->). unfold total. rewrite map_total_insert, !map_total_empty by done.
    by rewrite ?charge_plus_0_r, ?charge_plus_0_l.
  - destruct Hs as [-> ->]. by rewrite delete_empty.
  - destruct Hs as (_&->&->). unfold total. rewrite map_total_insert, !map_total_empty by done.
    by rewrite ?charge_plus_0_r, ?charge_plus_0_l.
  - destruct Hs as [-> ->]. by rewrite delete_empty.
  - destruct r as [x|e]; simpl in *.
    + destruct op; try done; by destruct Hs as [-> ->].
    + assert (vm' = ∅ ∧ vol' = ∅) as [-> ->] by (by destruct op). done.
Qed.

Lemma dispatch_spec tid caps user node op (e : env) l :
  ts_inv (env_store e) → billable (ts_view (env_store e)) tid l → owner_ok node →
  ∃ res e', dispatch tid caps user node op e = (Ok res, e') ∧ ts_inv (env_store e') ∧
    ts_view (env_store e') =
      plus_on (if is_ok res then planned_charge (charge_for op) else charge_default) l
        (ts_view (env_store e)) ∧
    (Capabilities.contains caps (Capabilities.required op) = false → is_ok res = false).
Proof.
  intros Hi Hb Ho. destruct (prepare_books tid caps user node e l Hi Hb Ho) as (Hbooks&Hroom&Hcaps).
  unfold dispatch. set (r := prepare tid caps user node e) in *.
  destruct (handle_spec _ _ _ Hb _ op _ _ _ r Hbooks Hroom)
    as [(err&r'&->&_&Hb')|(vm'&vol'&r'&->&Hset&Hb')]; destruct Hb' as ([Hi' Hv' _ _ _ _ _]&_).
  - eexists _, _. split; [done|]. split; [done|]. split; [|done]. done.
  - eexists _, _. split; [done|]. split; [done|]. split.
    + pose proof (law_vh_change op _ (proj1 (proj2 Hbooks)) Hroom) as Hch.
      cbn [env_store]. rewrite Hv'. f_equal. exact (settled_total _ _ _ _ _ _ _ _ _ _ eq_refl eq_refl Hch Hset).
    + intros Hden. rewrite <-Hcaps in Hden. clearbody r. simpl. by rewrite (apply_denied op _ Hden).
Qed.

Lemma record_event_store tenant a user deco (e : env) :
  ∃ e', record_event tenant a user deco e = (Ok tt, e') ∧ env_store e' = env_store e.
Proof. unfold record_event. destruct (env_sink e); by eexists. Qed.

Lemma release_dry_run_spec x user op (e : env) l s0 :
  ts_inv (env_store e) → billable s0 (t_id x) l →
  ts_view (env_store e) = plus_on (planned_charge (charge_for op)) l s0 →
  ∃ b e', release_dry_run x user (Capabilities.op_tag op) (refund_for op) e = (Ok b, e') ∧
    ts_inv (env_store e') ∧ ts_view (env_store e') = s0.
Proof.
  intros Hi Hb Hv. pose proof (law_view_inv _ Hi) as Hvi. rewrite refund_is_charge.
  unfold release_dry_run, planned_charge in *. destruct (charge_for op) as [c|]; simpl in *.
  2:{ exists false, e. split; [done|]. split; [done|]. by rewrite Hv, plus_on_0. }
  destruct (decide (c = charge_default)) as [->|Hne].
  { exists false, e. split; [done|]. split; [done|]. by rewrite Hv, plus_on_0. }
  assert (plus_on c l s0 = plus_on (charge_plus charge_default c) l s0) as Hc
    by (by rewrite charge_plus_0_l).
  rewrite Hc in Hv. rewrite Hv in Hvi.
  destruct (release_plus_on _ _ _ _ _ Hb Hvi) as [u Hrel].
  destruct (law_release (t_id x) c (env_store e) Hi) as (Hr&Hvw&Hi'). rewrite Hv, Hrel in Hr, Hvw.
  unfold catch, zoom. unfold mbind at 1, st_bind at 1.
  destruct (ts_release (t_id x) c (env_store e)) as [res s1]. simpl in *. subst res.
  edestruct record_event_store as (e2&He2&Hs2). unfold mbind, st_bind. rewrite He2.
  eexists true, e2. split; [done|]. rewrite Hs2. simpl. split; [done|]. by rewrite Hvw, plus_on_0.
Qed.

Lemma by_name_id tn s x :
  inv s → StoreState.get_by_name tn s = Ok x → StoreState.get (t_id x) s = Ok x.
Proof.
  intros Hi. unfold StoreState.get_by_name, StoreState.get.
  destruct (StoreState.by_name s !! tn) as [k|]; [|done]. simpl.
  destruct (StoreState.tenants s !! k) as [y|] eqn:E; simpl; [|done]. intros [= ->].
  destruct (inv_tenant _ Hi _ _ E) as [-> _]. by rewrite E.
Qed.

Lemma get_plus_on id l T s x :
  ancestry (StoreState.tenants s) (Some id) l → StoreState.get id s = Ok x →
  StoreState.get id (plus_on T l s) = Ok (set_usage (usage_plus (t_usage x) T) x).
Proof.
  unfold StoreState.get, plus_on. simpl. rewrite on_usages_lookup. intros Ha Hx%ok_or_Ok.
  rewrite Hx. simpl. rewrite decide_True; [done|]. inversion Ha. by left.
Qed.

(** A trip of [exec] costs what it says.  For a known tenant and user
    whose chain can be billed, [exec] always returns a record; the store is
    left with exactly the planned charge on the tenant and its ancestors if
    the operation succeeded and no dry run was asked for, and as it was
    otherwise; the two usages of the record are the real ones before and
    after; and an operation whose capability the user does not hold never
    succeeds. *)
Theorem exec_leaves_reservation (e : env) tn user op opts x caps tags l :
  ts_inv (env_store e) → ts_get_by_name tn (env_store e) = Ok x →
  effective_caps_for x user = Ok (caps, tags) →
  billable (ts_view (env_store e)) (t_id x) l → owner_ok (default "tenant-exec" (opt_node opts)) →
  ∃ a e', exec debug_reply tn user op opts e = (Ok a, e') ∧ ts_inv (env_store e') ∧
    let kept := if ea_dispatch_succeeded a && negb (release_after_create opts)
                then planned_charge (charge_for op) else charge_default in
    ts_view (env_store e') = plus_on kept l (ts_view (env_store e)) ∧
    ea_usage_before a = t_usage x ∧ ea_usage_after a = usage_plus (t_usage x) kept ∧
    exec_ok a = ea_dispatch_succeeded a ∧
    (Capabilities.contains caps (Capabilities.required op) = false →
      ea_dispatch_succeeded a = false).
Proof.
  intros Hi Hn Hcap Hb Ho.
  assert (StoreState.get (t_id x) (ts_view (env_store e)) = Ok x) as Hx.
  { eapply by_name_id; [by apply law_view_inv|]. by rewrite <-law_ts_get_by_name. }
  destruct (dispatch_spec (t_id x) caps user (default "tenant-exec" (opt_node opts)) op e l Hi Hb Ho)
    as (res&e1&Hd&Hi1&Hv1&Hden).
  unfold exec. unfold mbind, st_bind, mret, st_ret, try, get_st. rewrite Hn, Hcap.
  rewrite (law_ts_get _ _ Hi), Hx, Hd. clear Hd.
  set (ok := is_ok res) in *.
  assert (∃ b e2 kept, (if release_after_create opts && ok
      then release_dry_run x user (Capabilities.op_tag op) (refund_for op) else mret false) e1 =
        (Ok b, e2) ∧ ts_inv (env_store e2) ∧
      ts_view (env_store e2) = plus_on kept l (ts_view (env_store e)) ∧
      kept = if ok && negb (release_after_create opts)
             then planned_charge (charge_for op) else charge_default) as (b&e2&kept&Hrel&Hi2&Hv2&Hk).
  { destruct (release_after_create opts); simpl.
    - destruct ok.
      + destruct (release_dry_run_spec x user op e1 l _ Hi1 Hb Hv1) as (b&e2&->&?&?).
        exists b, e2, charge_default. split; [done|]. split; [done|]. by rewrite plus_on_0.
      + exists false, e1, charge_default. done.
    - exists false, e1, (if ok then planned_charge (charge_for op) else charge_default).
      rewrite andb_true_r. done. }
  assert (ts_get (t_id x) (env_store e2) = Ok (set_usage (usage_plus (t_usage x) kept) x)) as Hafter.
  { rewrite law_ts_get, Hv2 by done. apply get_plus_on; [apply Hb|done]. }
  unfold ok in *. clear ok. destruct res as [rep|err]; simpl in Hk, Hden, Hrel |- *.
  - unfold mret, st_ret in Hrel. rewrite Hrel, Hafter. edestruct record_event_store as (e3&->&Hs3).
    eexists _, e3. split; [reflexivity|]. rewrite Hs3. simpl. rewrite <-Hk. done.
  - unfold mret, st_ret in Hrel. rewrite Hrel, Hafter. edestruct record_event_store as (e3&->&Hs3).
    eexists _, e3. split; [reflexivity|]. rewrite Hs3. simpl. rewrite <-Hk. done.
Qed.
End exec_proofs.

(** ** Witness *)
From S2P Require Import TenantProps.

Section witness.
Import TenantWitness RuntimeWitness.
Definition env0 : ExecEnv (S := StoreState.t) (K := MemAuditSink) := mkExecEnv s (Some []) [7%N].

(** A virtual machine is created for the user "ann" of "dev". *)
Lemma exec_leaves_reservation_witness :
  ∃ a e', exec (λ _, EmptyString) "dev" (Some "ann") (vm_create_op "web" 2 512)
            (mkExecOptions false None) env0 = (Ok a, e') ∧
    ea_dispatch_succeeded a = true ∧ ea_usage_after a = mkUsage 2 512 0 0 0.
Proof.
  destruct (exec_leaves_reservation (λ _, EmptyString) env0 "dev" (Some "ann")
    (vm_create_op "web" 2 512) (mkExecOptions false None)
    (mkTenant 2 "dev" "/tenants/dev" (TenantCaps.mk 7) [mkUser 1 "ann" (TenantCaps.mk 3) None]
       quotas usage_default (Some 1%N))
    (Capabilities.mk 3) "vm.read,vm.write" [2%N; 1%N]
    rt_inv eq_refl eq_refl rt_billable) as (a&e'&He&_&_&_&Ha&_).
  - split; [|split; [|split]]; reflexivity.
  - exists a, e'. split; [exact He|].
    assert (match (exec (λ _, EmptyString) "dev" (Some "ann") (vm_create_op "web" 2 512)
              (mkExecOptions false None) env0).1 with
            | Ok a => ea_dispatch_succeeded a | Err _ => false end = true) as Hok
      by (vm_compute; reflexivity).
    rewrite He in Hok. simpl in Hok. split; [exact Hok|].
    rewrite Ha. simpl. rewrite Hok. reflexivity.
Defined.
End witness.
