(* ===== verification/Console.v ===== *)
(** * Console: what the command-line programs share

    The world of a process: the store it works on, its files, its audit log
    and what it has printed; the environment it was started with; the text
    formatting of [println!] and the path operations the programs use. *)
From S2P Require Import Prelude.
From S2P Require Import Text.
From S2P Require Import Errors.
From S2P Require Import AuditLog.
From S2P Require Import Vault.
From S2P Require Import Files.
From S2P Require Import FileTenants.
From S2P Require Import DiskFile.
From S2P Require Import Controller.
From Stdlib Require Import Strings.Byte.

(** What a process finds when it starts: [std::env::var] (set, and valid
    UTF-8), and what its one draw of a salt and of token bytes and its clock
    readings will be. *)
Record Process := mkProcess {
  env_var : string → option string;
  draw_salt : string;
  draw_raw : bytes;
  clock_now : N;
  clock_list : list N;
  store_read_fault : option OpenFault   (** what fails when the store file is opened *)
}.

Record World (S : Type) := mkWorld {
  w_store : S;
  w_fs : Fs;
  w_log : FileAuditSink;
  w_out : list string
}.
Arguments mkWorld {S}.
Arguments w_store {S}.
Arguments w_fs {S}.
Arguments w_log {S}.
Arguments w_out {S}.

Section console.
Context {S : Type}.
Abbreviation M := (st (World S) Fault).

(** [?] on a pure result of the crates. *)
Definition check {A} (r : CelResult A) : M A := try (map_err Fail r).
(** One [println!]. *)
Definition print (line : string) : M unit :=
  modify (λ w, mkWorld (w_store w) (w_fs w) (w_log w) (w_out w ++ [line])).
Definition print_all (lines : list string) : M unit :=
  modify (λ w, mkWorld (w_store w) (w_fs w) (w_log w) (w_out w ++ lines)).
(** A call of a method of the store. *)
Definition on_store {A} (m : st S CelError A) : M A := λ w,
  let '(r, s) := m (w_store w) in (map_err Fail r, mkWorld s (w_fs w) (w_log w) (w_out w)).
Definition ask {A} (f : S → CelResult A) : M A := λ w, (map_err Fail (f (w_store w)), w).
(** A system call, with the error the program makes of it. *)
Definition on_files {A} (what : string) (m : st Fs string A) : M A := λ w,
  let '(r, d) := m (w_fs w) in
  (map_err (λ e, Fail (Io (what +:+ ": " +:+ e))) r, mkWorld (w_store w) d (w_log w) (w_out w)).
End console.

(** ** Formatting

    A width counts characters: the bytes that do not continue a sequence. *)
Fixpoint chars (s : string) : nat :=
  match s with
  | EmptyString => 0
  | String c s' => (if is_cont c then 0 else 1) + chars s'
  end.
Fixpoint spaces (n : nat) : string :=
  match n with O => EmptyString | S n => String " " (spaces n) end.
(** [{:<n}] and [{:>n}]. *)
Definition left_pad (n : nat) (s : string) : string := s +:+ spaces (n - chars s).
Definition right_pad (n : nat) (s : string) : string := spaces (n - chars s) +:+ s.
(** The derived [Debug] of an [Option<String>]. *)
Definition debug_opt (o : option string) : string :=
  match o with Some s => "Some(" +:+ debug_str s +:+ ")" | None => "None" end.
(** [x.map_or_else(|| "-".to_string(), |x| x.to_string())]. *)
Definition dash (o : option N) : string := match o with Some n => fmt_u n | None => "-" end.

(** ** Paths

    [Path::parent] and [Path::join] with a relative component, for paths without
    repeated or trailing separators. *)
Definition path_parent (p : string) : option string :=
  if str_is_empty p || bool_decide (p = "/") then None
  else match rsplit_once "/" p with
       | None => Some EmptyString
       | Some (EmptyString, _) => Some "/"
       | Some (d, _) => Some d
       end.
Definition path_join (base rel : string) : string :=
  if str_is_empty base then rel
  else match strip_prefix "/" (String.substring (String.length base - 1) 1 base) with
       | Some _ => base +:+ rel
       | None => base +:+ "/" +:+ rel
       end.
