(* ===== verification/TenantCli.v ===== *)
(** * TenantCli: [celctl tenant] and the [celtenancy] binary

    crates/celcli/src/tenant_cli.rs and crates/celtenancy/src/main.rs: every
    command over a tenant store, with what it prints.  [celctl tenant] opens
    the JSON store for each command; [celtenancy] works on any store.  clap
    parses the command line into the argument records; its defaults are the
    [..._defaults] below.  The pretty JSON of serde_json is the class
    [CliJson]. *)
From S2P Require Import Prelude.
From S2P Require Import Text.
From S2P Require Import Errors.
From S2P Require Import Maps.
From S2P Require Import Quota.
From S2P Require Import AuditLog.
From S2P Require Import Vault.
From S2P Require Import Files.
From S2P Require Import DiskFile.
From S2P Require Import Proto.
From S2P Require Import Caps.
From S2P Require Import Tenant.
From S2P Require Import TenantStore.
From S2P Require Import TenantTrait.
From S2P Require Import FileTenants.
From S2P Require Import Exec.
From S2P Require Import Console.

(** ** Arguments *)
Abbreviation StoreArgs := FileTenantStore.Paths (only parsing).

Record TenantCreateArgs := mkTenantCreateArgs {
  tc_store : StoreArgs;
  tc_name : string;
  tc_max_vcpus : N;
  tc_max_memory_mib : N;
  tc_max_storage_bytes : N;
  tc_max_network_mbps : N;
  tc_max_iops : N;
  tc_caps : string
}.
Definition tenant_create_defaults (store : StoreArgs) (name : string) : TenantCreateArgs :=
  mkTenantCreateArgs store name 16 (32 * 1024) (100 * 1024 * 1024 * 1024) 10000 50000 "all".

Record SubtenantCreateArgs := mkSubtenantCreateArgs {
  sc_store : StoreArgs;
  sc_parent : string;
  sc_name : string;
  sc_max_vcpus : N;
  sc_max_memory_mib : N;
  sc_max_storage_bytes : N;
  sc_max_network_mbps : N;
  sc_max_iops : N;
  sc_caps : string
}.
Definition subtenant_create_defaults (store : StoreArgs) (parent name : string) : SubtenantCreateArgs :=
  mkSubtenantCreateArgs store parent name 4 (4 * 1024) (10 * 1024 * 1024 * 1024) 1000 5000 "inherit".
Inductive SubtenantCmd :=
| SubCreate (a : SubtenantCreateArgs)
| SubList (store : StoreArgs) (parent : string).

Record ExecCommonArgs := mkExecCommonArgs {
  ec_store : StoreArgs;
  ec_tenant : string;
  ec_user : option string;
  ec_release_after : bool;
  ec_json : bool;
  ec_audit_log : option string
}.
Inductive ExecCmd :=
| ExecVmCreate (common : ExecCommonArgs) (label : string) (cpus memory_mib : N)
| ExecVolumeCreate (common : ExecCommonArgs) (name : string) (size_bytes : N).

Inductive AuditCmd :=
| AuditTail (audit_log : string) (lines : nat) (json : bool)
| AuditStats (audit_log : string).

Record UserAddArgs := mkUserAddArgs {
  ua_store : StoreArgs; ua_tenant : string; ua_name : string; ua_caps : string }.
Definition user_add_defaults (store : StoreArgs) (tenant name : string) : UserAddArgs :=
  mkUserAddArgs store tenant name "vm.read".
Inductive UserCmd :=
| UserAdd (a : UserAddArgs)
| UserList (store : StoreArgs) (tenant : string)
| UserRemove (store : StoreArgs) (tenant name : string)
| UserSetPassword (store : StoreArgs) (tenant name : string).

Record QuotaChangeArgs := mkQuotaChangeArgs {
  qc_store : StoreArgs; qc_tenant : string;
  qc_vcpus : N; qc_memory_mib : N; qc_storage_bytes : N; qc_network_mbps : N; qc_iops : N }.
Inductive QuotaCmd :=
| QuotaShow (store : StoreArgs) (tenant : string)
| QuotaDoCharge (a : QuotaChangeArgs)
| QuotaDoRelease (a : QuotaChangeArgs).

Record LoginArgs := mkLoginArgs {
  lo_store : StoreArgs; lo_tenant : string; lo_user : string; lo_ttl_secs : option N;
  lo_session_file : option string; lo_json : bool }.
Record LogoutArgs := mkLogoutArgs { out_store : StoreArgs; out_session_file : option string }.
Record WhoamiArgs := mkWhoamiArgs {
  wh_store : StoreArgs; wh_session_file : option string; wh_json : bool }.
Record TenantDeleteArgs := mkTenantDeleteArgs {
  td_store : StoreArgs; td_name : string; td_recursive : bool; td_yes : bool; td_json : bool }.
Record RotateCapsArgs := mkRotateCapsArgs {
  ro_store : StoreArgs; ro_tenant : string; ro_caps : string; ro_yes : bool; ro_json : bool }.
Record RevokeSessionsArgs := mkRevokeSessionsArgs {
  rv_store : StoreArgs; rv_tenant : string; rv_user : option string; rv_json : bool }.

Inductive TenantCmd :=
| Create (a : TenantCreateArgs)
| List (store : StoreArgs)
| Show (store : StoreArgs) (name : string)
| Delete (a : TenantDeleteArgs)
| UserOp (op : UserCmd)
| QuotaOp (op : QuotaCmd)
| ExecOp (op : ExecCmd)
| AuditOp (op : AuditCmd)
| SubtenantOp (op : SubtenantCmd)
| Tree (store : StoreArgs)
| Login (a : LoginArgs)
| Logout (a : LogoutArgs)
| Whoami (a : WhoamiArgs)
| RotateCaps (a : RotateCapsArgs)
| RevokeSessions (a : RevokeSessionsArgs).

(** The session file. *)
Record SessionFile := mkSessionFile {
  sf_token : string; sf_tenant : string; sf_user : string; sf_expires_ms : N }.

(** The objects of the [json!] macro. *)
Inductive JsonField := JNum (n : N) | JStr (s : string) | JOpt (o : option string).
Class CliJson := {
  json_session : SessionFile → result string string;
  parse_session : bytes → result string SessionFile;
  json_exec : ExecAudit → result string string;
  json_events : list AuditEvent → result string string;
  json_deleted : DeleteReport → result string string;
  json_rotated : RotateReport → result string string;
  json_object : list (string * JsonField) → result string string
}.
(** serde_json reads back what it printed. *)
Class CliJsonLaws `{CliJson} : Prop := {
  session_round sf : ∃ js, json_session sf = Ok js ∧ parse_session (String.list_byte_of_string js) = Ok sf
}.

(** ** Texts *)
Definition fmt_tenant_id (id : TenantId) : string := "tenant-" +:+ fmt_u id.
Definition fmt_user_id (id : UserId) : string := "user-" +:+ fmt_u id.

Definition created_line (x : Tenant) : string :=
  fmt_tenant_id (t_id x) +:+ "  name=" +:+ t_name x +:+ "  ns=" +:+ t_namespace x
  +:+ "  caps=" +:+ TenantCaps.to_tags (t_root_caps x).
Definition three_columns (a b c : string) : string :=
  left_pad 14 a +:+ "  " +:+ left_pad 24 b +:+ "  " +:+ c.
Definition tenant_table (rows : list Tenant) : list string :=
  three_columns "ID" "NAME" "NAMESPACE" ::
  ((λ x, three_columns (fmt_tenant_id (t_id x)) (t_name x) (t_namespace x)) <$> rows).
Definition quotas_line (q : TenantQuotas) : string :=
  "quotas    = vcpus<= " +:+ fmt_u (max_vcpus q) +:+ ", memory_mib<= " +:+ fmt_u (max_memory_mib q)
  +:+ ", storage<= " +:+ fmt_u (max_storage_bytes q) +:+ " B, net<= " +:+ fmt_u (max_network_mbps q)
  +:+ " Mbps, iops<= " +:+ fmt_u (max_iops q).
Definition usage_text (u : QuotaUsage) : string :=
  "vcpus= " +:+ fmt_u (us_vcpus u) +:+ ", memory_mib= " +:+ fmt_u (us_memory_mib u)
  +:+ ", storage= " +:+ fmt_u (us_storage_bytes u) +:+ " B, net= " +:+ fmt_u (us_network_mbps u)
  +:+ " Mbps, iops= " +:+ fmt_u (us_iops u).
Definition user_line (u : User) : string :=
  fmt_user_id (u_id u) +:+ "  name=" +:+ u_name u +:+ "  caps=" +:+ TenantCaps.to_tags (u_caps u).
Definition show_lines (x : Tenant) : list string :=
  ["id        = " +:+ fmt_tenant_id (t_id x); "name      = " +:+ t_name x;
   "namespace = " +:+ t_namespace x; "root_caps = " +:+ TenantCaps.to_tags (t_root_caps x);
   quotas_line (t_quotas x); "usage     = " +:+ usage_text (t_usage x);
   "users     = " +:+ fmt_u (N.of_nat (length (t_users x)))]
  ++ ((λ u, "  " +:+ user_line u) <$> t_users x).
Definition user_row (a b c : string) : string := left_pad 10 a +:+ "  " +:+ left_pad 24 b +:+ "  " +:+ c.
Definition user_table (us : list User) : list string :=
  user_row "ID" "NAME" "CAPS" ::
  ((λ u, user_row (fmt_user_id (u_id u)) (u_name u) (TenantCaps.to_tags (u_caps u))) <$> us).

(** [t.users.iter().find(|u| u.name == name).map(|u| u.id)]. *)
Definition user_id_of (name : string) (x : Tenant) : option UserId :=
  u_id <$> find_first (λ u, bool_decide (u_name u = name)) (t_users x).
Definition find_user (name : string) (x : Tenant) : CelResult UserId :=
  ok_or (user_id_of name x) (Invalid "user name unknown").

(** Default methods of the trait. *)
Definition ts_children {S : Type} `{TenantStore S} (parent : TenantId) (s : S) : CelResult (list Tenant) :=
  all ← ts_list s; Ok (retain (StoreState.is_child_of parent) all).
Definition ts_create_subtenant {S : Type} `{TenantStore S} (parent : TenantId) (spec : TenantSpec)
    (caps : TenantCaps.t) : st S CelError Tenant := ts_create (with_parent spec parent) caps.

(** ** [celctl tenant] *)
Module TenantCli.
Section cli.
Context `{HashOrder} `{AuthPrims} `{StateCodec} `{EventCodec} `{CliJson}.
Context (debug_reply : VmOpReply.t → string) (p : Process).
Abbreviation M := (st (World FileTenantStore.t) Fault).

Definition set_opened (a : StoreArgs) (g : StoreState.t) (w : World FileTenantStore.t) : World FileTenantStore.t :=
  mkWorld (FileTenantStore.mk a g (FileTenantStore.fs_disk (w_store w)) (FileTenantStore.fs_faults (w_store w)))
    (w_fs w) (w_log w) (w_out w).
Definition open (a : StoreArgs) : M unit :=
  w ← get_st;
  g ← check (FileTenantStore.open a (store_read_fault p) (FileTenantStore.fs_disk (w_store w)));
  modify (set_opened a g).

Definition run_create (a : TenantCreateArgs) : M unit :=
  _ ← open (tc_store a);
  caps ← check (TenantCaps.parse_tags (tc_caps a));
  spec ← check (spec_new (tc_name a) (mkQuotas (tc_max_vcpus a) (tc_max_memory_mib a)
                  (tc_max_storage_bytes a) (tc_max_network_mbps a) (tc_max_iops a)));
  x ← on_store (ts_create spec caps);
  print (created_line x).
Definition run_list (a : StoreArgs) : M unit :=
  _ ← open a; rows ← ask ts_list; print_all (tenant_table rows).
Definition run_show (a : StoreArgs) (name : string) : M unit :=
  _ ← open a; x ← ask (ts_get_by_name name); print_all (show_lines x).

(** [std::env::var(..).map_err(..)], refusing the empty value. *)
Definition read_password_from_env : M string :=
  v ← check (ok_or (env_var p "CELIUM_PASSWORD") (Invalid "CELIUM_PASSWORD is unset"));
  _ ← bail_if (str_is_empty v) (Fail (Invalid "CELIUM_PASSWORD is empty"));
  mret v.

Definition run_user (op : UserCmd) : M unit :=
  match op with
  | UserAdd a =>
      _ ← open (ua_store a);
      x ← ask (ts_get_by_name (ua_tenant a));
      caps ← check (TenantCaps.parse_tags (ua_caps a));
      u ← on_store (ts_add_user (t_id x) (ua_name a) caps);
      print (user_line u +:+ "  tenant=" +:+ t_name x)
  | UserList store tenant =>
      _ ← open store; x ← ask (ts_get_by_name tenant); print_all (user_table (t_users x))
  | UserRemove store tenant name =>
      _ ← open store;
      x ← ask (ts_get_by_name tenant);
      uid ← check (find_user name x);
      _ ← on_store (ts_remove_user (t_id x) uid);
      print ("removed " +:+ name +:+ " from " +:+ t_name x)
  | UserSetPassword store tenant name =>
      _ ← open store;
      x ← ask (ts_get_by_name tenant);
      uid ← check (find_user name x);
      plain ← read_password_from_env;
      _ ← on_store (ts_set_password (draw_salt p) (t_id x) uid plain);
      print ("password set for " +:+ name +:+ " in " +:+ t_name x)
  end.

Definition charge_of (a : QuotaChangeArgs) : QuotaCharge :=
  mkCharge (qc_vcpus a) (qc_memory_mib a) (qc_storage_bytes a) (qc_network_mbps a) (qc_iops a).
Definition apply_charge (a : QuotaChangeArgs) (charge : bool) : M unit :=
  _ ← open (qc_store a);
  x ← ask (ts_get_by_name (qc_tenant a));
  u ← on_store (if charge then ts_charge (t_id x) (charge_of a) else ts_release (t_id x) (charge_of a));
  print ((if charge then "charged" else "released") +:+ ": " +:+ usage_text u).
Definition run_quota (op : QuotaCmd) : M unit :=
  match op with
  | QuotaShow store tenant =>
      _ ← open store; x ← ask (ts_get_by_name tenant);
      print_all ["tenant    = " +:+ t_name x; quotas_line (t_quotas x); "usage     = " +:+ usage_text (t_usage x)]
  | QuotaDoCharge a => apply_charge a true
  | QuotaDoRelease a => apply_charge a false
  end.

(** [FileAuditSink::open]: the directory, then the file, made if missing. *)
Definition audit_open (path : string) : M unit :=
  _ ← match path_parent path with
      | Some d => if str_is_empty d then mret tt else on_files ("create_dir_all " +:+ d) create_dir_all
      | None => mret tt
      end;
  _ ← on_files ("open " +:+ path) syscall;
  modify (λ w, mkWorld (w_store w) (w_fs w)
    (mkFileSink (Some (default EmptyString (log_file (w_log w)))) (log_faults (w_log w))) (w_out w)).
(** [exec::exec] with the sink that was opened, if any. *)
Definition exec_on (a : ExecCommonArgs) (op : VmOp.t) : M ExecAudit := λ w,
  let sink := match ec_audit_log a with Some _ => Some (w_log w) | None => None end in
  let '(r, env) := exec debug_reply (ec_tenant a) (ec_user a) op (mkExecOptions (ec_release_after a) None)
                     (mkExecEnv (w_store w) sink (clock_list p)) in
  (map_err Fail r, mkWorld (env_store env) (w_fs w) (default (w_log w) (env_sink env)) (w_out w)).

Definition short_charge (vcpus memory_mib storage_bytes : N) : string :=
  "vcpus=" +:+ fmt_u vcpus +:+ " memory_mib=" +:+ fmt_u memory_mib +:+ " storage_bytes=" +:+ fmt_u storage_bytes.
Definition exec_lines (a : ExecAudit) : list string :=
  let status := if exec_ok a then "ok" else "FAILED" in
  ["exec " +:+ status +:+ ": tenant=" +:+ ea_tenant a +:+ " user=" +:+ debug_opt (ea_user a) +:+ " op=" +:+ ea_op a;
   "  cap_tag       = " +:+ ea_op_capability_tag a;
   "  caps_applied  = " +:+ ea_effective_caps a]
  ++ match ea_planned_charge a with
     | Some c => ["  planned_charge= " +:+ short_charge (ch_vcpus c) (ch_memory_mib c) (ch_storage_bytes c)]
     | None => []
     end
  ++ match ea_reply a with Some r => ["  reply         = " +:+ r] | None => [] end
  ++ match ea_error a with Some e => ["  error         = " +:+ e] | None => [] end
  ++ (let u := ea_usage_before a in
      ["  usage_before  = " +:+ short_charge (us_vcpus u) (us_memory_mib u) (us_storage_bytes u)])
  ++ (let u := ea_usage_after a in
      ["  usage_after   = " +:+ short_charge (us_vcpus u) (us_memory_mib u) (us_storage_bytes u)]).
Definition json_or (what : string) (r : result string string) : M string :=
  check (map_err (λ e, Storage (what +:+ " json: " +:+ e)) r).

Definition dispatch_exec (common : ExecCommonArgs) (op : VmOp.t) : M unit :=
  _ ← open (ec_store common);
  _ ← match ec_audit_log common with Some path => audit_open path | None => mret tt end;
  audit ← exec_on common op;
  if ec_json common then js ← json_or "audit" (json_exec audit); print js
  else print_all (exec_lines audit).
Definition run_exec (op : ExecCmd) : M unit :=
  match op with
  | ExecVmCreate common label cpus memory_mib => dispatch_exec common (vm_create_op label cpus memory_mib)
  | ExecVolumeCreate common name size_bytes => dispatch_exec common (volume_create_op name size_bytes)
  end.

Definition debug_action (a : AuditAction) : string :=
  match a with Charge => "Charge" | Release => "Release" | Deny => "Deny" | AuditLog.Exec => "Exec" end.
Definition event_line (ev : AuditEvent) : string :=
  fmt_u (ev_timestamp_millis ev) +:+ " tenant=" +:+ ev_tenant ev +:+ " user=" +:+ debug_opt (ev_user ev)
  +:+ " action=" +:+ debug_action (ev_action ev) +:+ " cap=" +:+ debug_opt (ev_op_capability_tag ev)
  +:+ " success=" +:+ (if ev_success ev then "true" else "false") +:+ " note=" +:+ debug_opt (ev_note ev).
Definition count_events_of (f : AuditEvent → bool) (l : list AuditEvent) : N := N.of_nat (length (retain f l)).
Definition stats_line (path : string) (events : list AuditEvent) : string :=
  let by_action a := λ e, bool_decide (ev_action e = a) in
  "audit " +:+ path +:+ ": total=" +:+ fmt_u (N.of_nat (length events))
  +:+ " charges=" +:+ fmt_u (count_events_of (by_action Charge) events)
  +:+ " releases=" +:+ fmt_u (count_events_of (by_action Release) events)
  +:+ " execs=" +:+ fmt_u (count_events_of (by_action AuditLog.Exec) events)
  +:+ " denied=" +:+ fmt_u (count_events_of (λ e, negb (ev_success e)) events).
Definition log_gone (path : string) : string := "read " +:+ path +:+ ": " +:+ os_not_found.
Definition run_audit (op : AuditCmd) : M unit :=
  match op with
  | AuditTail path n json =>
      _ ← audit_open path;
      w ← get_st;
      events ← check (tail_events (log_gone path) n (w_log w));
      if json then js ← json_or "audit" (json_events events); print js
      else print_all (event_line <$> events)
  | AuditStats path =>
      _ ← audit_open path;
      w ← get_st;
      events ← check (read_all (log_gone path) (w_log w));
      print (stats_line path events)
  end.

Definition run_subtenant (op : SubtenantCmd) : M unit :=
  match op with
  | SubCreate a =>
      _ ← open (sc_store a);
      parent ← ask (ts_get_by_name (sc_parent a));
      caps ← (if bool_decide (str_map to_ascii_lower (sc_caps a) = "inherit") then mret (t_root_caps parent)
              else check (TenantCaps.parse_tags (sc_caps a)));
      spec ← check (spec_new (sc_name a) (mkQuotas (sc_max_vcpus a) (sc_max_memory_mib a)
                      (sc_max_storage_bytes a) (sc_max_network_mbps a) (sc_max_iops a)));
      x ← on_store (ts_create_subtenant (t_id parent) spec caps);
      print (fmt_tenant_id (t_id x) +:+ "  name=" +:+ t_name x +:+ "  parent=" +:+ t_name parent
             +:+ "  ns=" +:+ t_namespace x +:+ "  caps=" +:+ TenantCaps.to_tags (t_root_caps x))
  | SubList store parent =>
      _ ← open store;
      x ← ask (ts_get_by_name parent);
      kids ← ask (ts_children (t_id x));
      print_all (tenant_table kids)
  end.

(** [by_parent.get(&k)]: the tenants below [k], in the order of the list. *)
Definition kids_of (all : list Tenant) (k : option TenantId) : list Tenant :=
  retain (λ x, bool_decide (t_parent x = k)) all.
Fixpoint indent (depth : nat) : string :=
  match depth with O => EmptyString | S d => "  " +:+ indent d end.
Definition tree_line (depth : nat) (x : Tenant) : string :=
  indent depth +:+ t_name x +:+ "  vcpus=" +:+ fmt_u (us_vcpus (t_usage x)) +:+ "/"
  +:+ fmt_u (max_vcpus (t_quotas x)) +:+ "  mem=" +:+ fmt_u (us_memory_mib (t_usage x)) +:+ "/"
  +:+ fmt_u (max_memory_mib (t_quotas x)) +:+ " MiB".
(** [print_subtree], as the tenants it prints with their depths; [None] when
    [fuel] levels are not enough. *)
Fixpoint print_subtree (all : list Tenant) (fuel : nat) (depth : nat) (node : Tenant)
  : option (list (nat * Tenant)) :=
  match fuel with
  | O => None
  | S fuel =>
      below ← mapM (print_subtree all fuel (S depth)) (kids_of all (Some (t_id node)));
      Some ((depth, node) :: concat below)
  end.
Definition tree_of (all : list Tenant) : option (list (nat * Tenant)) :=
  rows ← mapM (print_subtree all (length all) 0) (kids_of all None); Some (concat rows).
Definition run_tree (a : StoreArgs) : M unit :=
  _ ← open a;
  all ← ask ts_list;
  rows ← try (ok_or (tree_of all) (Panic "stack overflow"));
  print_all ((λ r, tree_line r.1 r.2) <$> rows).

(** *** Sessions *)
Definition resolve_session_path (arg : option string) : string :=
  match arg, env_var p "CELIUM_SESSION" with
  | Some q, _ | None, Some q => q
  | None, None =>
      let home := match env_var p "HOME" with
                  | Some h => h
                  | None => default "." (env_var p "USERPROFILE")
                  end in
      path_join (path_join home ".celium") "session.json"
  end.
Definition write_session_file (path : string) (sf : SessionFile) : M unit :=
  _ ← match path_parent path with
      | Some d => on_files ("create " +:+ d) create_dir_all
      | None => mret tt
      end;
  js ← json_or "session" (json_session sf);
  on_files ("write " +:+ path)
    (_ ← file_create path; file_write path 0 (String.list_byte_of_string js)).
Definition read_session_file (path : string) : M SessionFile :=
  bs ← on_files ("read " +:+ path) (fs_read path);
  check (map_err (λ e, Storage ("session parse: " +:+ e)) (parse_session bs)).

Definition run_login (a : LoginArgs) : M unit :=
  plain ← read_password_from_env;
  _ ← open (lo_store a);
  '(tid, uid, caps) ← on_store (ts_authenticate (lo_tenant a) (lo_user a) plain);
  '(token, session) ← on_store (ts_create_session (draw_raw p) (clock_now p) tid uid caps (lo_ttl_secs a));
  let sf := mkSessionFile (token_str token) (lo_tenant a) (lo_user a) (ses_expires_ms session) in
  let path := resolve_session_path (lo_session_file a) in
  _ ← write_session_file path sf;
  if lo_json a then js ← json_or "session" (json_session sf); print js
  else print ("login ok: tenant=" +:+ sf_tenant sf +:+ " user=" +:+ sf_user sf +:+ " caps="
              +:+ TenantCaps.to_tags (ses_caps session) +:+ " ttl_ms="
              +:+ fmt_u (saturating_sub (ses_expires_ms session) (ses_created_ms session))
              +:+ " session_file=" +:+ path).
Definition run_logout (a : LogoutArgs) : M unit :=
  let path := resolve_session_path (out_session_file a) in
  exists_ ← on_files ("exists " +:+ path) (fs_exists path);
  if negb exists_ then print ("no active session at " +:+ path)
  else
    sf ← read_session_file path;
    token ← check (from_hex (sf_token sf));
    _ ← open (out_store a);
    _ ← (λ w, (Ok tt, (on_store (ts_revoke_token token) w).2));
    _ ← on_files ("remove " +:+ path) (fs_remove_file path);
    print ("logout ok: " +:+ path +:+ " removed").
Definition whoami_fields (sf : SessionFile) (session : Session) : list (string * JsonField) :=
  [("tenant_id", JNum (ses_tenant session)); ("tenant", JStr (sf_tenant sf));
   ("user_id", JNum (ses_user session)); ("user", JStr (ses_user_name session));
   ("caps", JStr (TenantCaps.to_tags (ses_caps session)));
   ("created_ms", JNum (ses_created_ms session)); ("expires_ms", JNum (ses_expires_ms session))].
(** [serde_json::to_string_pretty(&v).unwrap_or_default()]. *)
Definition object_or_default (fields : list (string * JsonField)) : string :=
  match json_object fields with Ok js => js | Err _ => EmptyString end.
Definition run_whoami (a : WhoamiArgs) : M unit :=
  sf ← read_session_file (resolve_session_path (wh_session_file a));
  token ← check (from_hex (sf_token sf));
  _ ← open (wh_store a);
  session ← on_store (ts_validate_token (clock_now p) token);
  if wh_json a then print (object_or_default (whoami_fields sf session))
  else print ("tenant=" +:+ sf_tenant sf +:+ " user=" +:+ ses_user_name session +:+ " caps="
              +:+ TenantCaps.to_tags (ses_caps session) +:+ " expires_ms=" +:+ fmt_u (ses_expires_ms session)).

(** *** Destructive operations *)
Definition deleted_lines (report : DeleteReport) : list string :=
  ("deleted " +:+ fmt_u (N.of_nat (length (del_tenants report))) +:+ " tenant(s); revoked "
   +:+ fmt_u (N.of_nat (del_revoked_sessions report)) +:+ " session(s); dropped "
   +:+ fmt_u (N.of_nat (del_dropped_users report)) +:+ " user(s)")
  :: ((λ '(id, name), "  - " +:+ name +:+ " (" +:+ fmt_tenant_id id +:+ ")") <$> del_tenants report).
Definition run_delete (a : TenantDeleteArgs) : M unit :=
  _ ← open (td_store a);
  x ← ask (ts_get_by_name (td_name a));
  if td_recursive a then
    _ ← bail_if (negb (td_yes a)) (Fail (Invalid "--recursive requires --yes (destructive)"));
    report ← on_store (ts_delete_tenant_recursive (t_id x));
    if td_json a then js ← json_or "delete" (json_deleted report); print js
    else print_all (deleted_lines report)
  else
    _ ← on_store (ts_delete (t_id x));
    print ("deleted " +:+ t_name x +:+ " (" +:+ fmt_tenant_id (t_id x) +:+ ")").
Definition run_rotate_caps (a : RotateCapsArgs) : M unit :=
  _ ← bail_if (negb (ro_yes a)) (Fail (Invalid "--yes required: rotate-caps revokes every live session"));
  _ ← open (ro_store a);
  x ← ask (ts_get_by_name (ro_tenant a));
  new ← check (TenantCaps.parse_tags (ro_caps a));
  report ← on_store (ts_rotate_root_caps (t_id x) new);
  if ro_json a then js ← json_or "rotate" (json_rotated report); print js
  else print ("rotated tenant=" +:+ rot_tenant_name report +:+ " old="
              +:+ TenantCaps.to_tags (rot_old_caps report) +:+ " new="
              +:+ TenantCaps.to_tags (rot_new_caps report) +:+ " narrowed_users="
              +:+ fmt_u (N.of_nat (rot_attenuated_users report)) +:+ " revoked_sessions="
              +:+ fmt_u (N.of_nat (rot_revoked_sessions report))).
Definition run_revoke_sessions (a : RevokeSessionsArgs) : M unit :=
  _ ← open (rv_store a);
  x ← ask (ts_get_by_name (rv_tenant a));
  revoked ← match rv_user a with
            | Some uname =>
                uid ← check (find_user uname x);
                on_store (ts_revoke_user_sessions (t_id x) uid)
            | None => on_store (ts_revoke_tenant_sessions (t_id x))
            end;
  let n := N.of_nat revoked in
  if rv_json a
  then print (object_or_default [("tenant", JStr (t_name x)); ("user", JOpt (rv_user a)); ("revoked", JNum n)])
  else print ("revoked " +:+ fmt_u n +:+ " session(s) for "
              +:+ match rv_user a with Some u => "user=" +:+ u +:+ " " | None => EmptyString end
              +:+ "tenant=" +:+ t_name x).

Definition run (cmd : TenantCmd) : M unit :=
  match cmd with
  | Create a => run_create a
  | List a => run_list a
  | Show a name => run_show a name
  | Delete a => run_delete a
  | UserOp op => run_user op
  | QuotaOp op => run_quota op
  | ExecOp op => run_exec op
  | AuditOp op => run_audit op
  | SubtenantOp op => run_subtenant op
  | Tree a => run_tree a
  | Login a => run_login a
  | Logout a => run_logout a
  | Whoami a => run_whoami a
  | RotateCaps a => run_rotate_caps a
  | RevokeSessions a => run_revoke_sessions a
  end.
End cli.
End TenantCli.

(** ** [celtenancy]: the standalone binary, over any store *)
Module Celtenancy.
Inductive TenantOp :=
| TCreate (a : TenantCreateArgs)   (** its store is the global one *)
| TList
| TShow (name : string)
| TDelete (name : string).
Inductive UserCmd :=
| UAdd (tenant name caps : string)
| UList (tenant : string)
| URemove (tenant name : string).
Inductive QuotaCmd :=
| QShow (tenant : string)
| QCharge (tenant : string) (vcpus memory_mib storage_bytes network_mbps iops : N)
| QRelease (tenant : string) (vcpus memory_mib storage_bytes network_mbps iops : N).
Inductive Cmd :=
| Version
| Tenant (op : TenantOp)
| User (op : UserCmd)
| Quota (op : QuotaCmd).

Section ops.
Context {S : Type} `{TenantStore S}.
Abbreviation M := (st (World S) Fault).

Definition run_tenant (op : TenantOp) : M unit :=
  match op with
  | TCreate a =>
      caps ← check (TenantCaps.parse_tags (tc_caps a));
      spec ← check (spec_new (tc_name a) (mkQuotas (tc_max_vcpus a) (tc_max_memory_mib a)
                      (tc_max_storage_bytes a) (tc_max_network_mbps a) (tc_max_iops a)));
      x ← on_store (ts_create spec caps);
      print (created_line x)
  | TList => rows ← ask ts_list; print_all (tenant_table rows)
  | TShow name => x ← ask (ts_get_by_name name); print_all (show_lines x)
  | TDelete name =>
      x ← ask (ts_get_by_name name);
      _ ← on_store (ts_delete (t_id x));
      print ("deleted " +:+ t_name x +:+ " (" +:+ fmt_tenant_id (t_id x) +:+ ")")
  end.
Definition run_user (op : UserCmd) : M unit :=
  match op with
  | UAdd tenant name caps =>
      x ← ask (ts_get_by_name tenant);
      requested ← check (TenantCaps.parse_tags caps);
      u ← on_store (ts_add_user (t_id x) name requested);
      print (user_line u +:+ "  tenant=" +:+ t_name x)
  | UList tenant => x ← ask (ts_get_by_name tenant); print_all (user_table (t_users x))
  | URemove tenant name =>
      x ← ask (ts_get_by_name tenant);
      uid ← check (find_user name x);
      _ ← on_store (ts_remove_user (t_id x) uid);
      print ("removed " +:+ name +:+ " from " +:+ t_name x)
  end.
Definition run_quota (op : QuotaCmd) : M unit :=
  match op with
  | QShow tenant =>
      x ← ask (ts_get_by_name tenant);
      print_all ["tenant    = " +:+ t_name x; quotas_line (t_quotas x); "usage     = " +:+ usage_text (t_usage x)]
  | QCharge tenant vcpus memory_mib storage_bytes network_mbps iops =>
      x ← ask (ts_get_by_name tenant);
      u ← on_store (ts_charge (t_id x) (mkCharge vcpus memory_mib storage_bytes network_mbps iops));
      print ("charged: " +:+ usage_text u)
  | QRelease tenant vcpus memory_mib storage_bytes network_mbps iops =>
      x ← ask (ts_get_by_name tenant);
      u ← on_store (ts_release (t_id x) (mkCharge vcpus memory_mib storage_bytes network_mbps iops));
      print ("released: " +:+ usage_text u)
  end.
Definition run_cmd (cmd : Cmd) : M unit :=
  match cmd with
  | Version => mret tt
  | Tenant op => run_tenant op
  | User op => run_user op
  | Quota op => run_quota op
  end.
End ops.

Section main.
Context `{HashOrder} `{AuthPrims} `{StateCodec} `{EventCodec} (p : Process) (pkg_version : string).

(** Without [--store] the commands work on a store in memory that goes with
    the process. *)
Definition in_memory (cmd : Cmd) : st (World FileTenantStore.t) Fault unit := λ w,
  let '(r, w') := run_cmd cmd (mkWorld StoreState.default_state (w_fs w) (w_log w) (w_out w)) in
  (r, mkWorld (w_store w) (w_fs w') (w_log w') (w_out w')).
Definition main (store : option StoreArgs) (cmd : Cmd) : st (World FileTenantStore.t) Fault unit :=
  match cmd with
  | Version => print ("celtenancy " +:+ pkg_version +:+ " (W27)")
  | _ => match store with
         | Some a => _ ← TenantCli.open p a; run_cmd cmd
         | None => in_memory cmd
         end
  end.
End main.
End Celtenancy.
