(* ===== verification/TenantCliProofs.v ===== *)
(** * TenantCliProofs: what the tenant commands do

    Every command makes its planned calls of the store, and what it reports is
    on disk; a session goes from login to logout; the tree of tenants is
    printed whole. *)
From S2P Require Import Prelude.
From S2P Require Import Text.
From S2P Require Import Codecs.
From S2P Require Import Errors.
From S2P Require Import Maps.
From S2P Require Import Quota.
From S2P Require Import AuditLog.
From S2P Require Import Vault.
From S2P Require Import Files.
From S2P Require Import DiskFile.
From S2P Require Import Proto.
From S2P Require Import Caps.
From S2P Require Import Tenant.
From S2P Require Import TenantStore.
From S2P Require Import TenantInv.
From S2P Require Import TenantQuota.
From S2P Require Import TenantAdmin.
From S2P Require Import TenantProps.
From S2P Require Import TenantTrait.
From S2P Require Import FileTenants.
From S2P Require Import Exec.
From S2P Require Import Console.
From S2P Require Import TenantCli.
Import FileTenantStore.

(** ** The calls a command makes *)
Section planned.
Context `{HashOrder} `{AuthPrims} `{StateCodec} `{EventCodec} `{CliJson}.
Context (p : Process).
Abbreviation W := (World FileTenantStore.t).

Definition store_of (cmd : TenantCmd) : option Paths :=
  match cmd with
  | Create a => Some (tc_store a)
  | List a | Show a _ | Tree a => Some a
  | Delete a => Some (td_store a)
  | UserOp (UserAdd a) => Some (ua_store a)
  | UserOp (UserList a _) | UserOp (UserRemove a _ _) | UserOp (UserSetPassword a _ _) => Some a
  | QuotaOp (QuotaShow a _) => Some a
  | QuotaOp (QuotaDoCharge a) | QuotaOp (QuotaDoRelease a) => Some (qc_store a)
  | ExecOp (ExecVmCreate c _ _ _) | ExecOp (ExecVolumeCreate c _ _) => Some (ec_store c)
  | AuditOp _ => None
  | SubtenantOp (SubCreate a) => Some (sc_store a)
  | SubtenantOp (SubList a _) => Some a
  | Login a => Some (lo_store a)
  | Logout a => Some (out_store a)
  | Whoami a => Some (wh_store a)
  | RotateCaps a => Some (ro_store a)
  | RevokeSessions a => Some (rv_store a)
  end.

Definition wish {E A} (r : result E A) (k : A → list store_call) : list store_call :=
  match r with Ok a => k a | Err _ => [] end.

(** A password that can be used. *)
Definition password : CelResult string :=
  match env_var p "CELIUM_PASSWORD" with
  | Some v => if str_is_empty v then Err (Invalid "CELIUM_PASSWORD is empty") else Ok v
  | None => Err (Invalid "CELIUM_PASSWORD is unset")
  end.
(** The token in the session file. *)
Definition token_in (file : option string) (w : W) : result Fault SessionToken :=
  sf ← (TenantCli.read_session_file (TenantCli.resolve_session_path p file) w).1;
  map_err Fail (from_hex (sf_token sf)).

(** The answer of [exists] about the session file. *)
Definition session_exists (file : option string) : st W Fault bool :=
  let path := TenantCli.resolve_session_path p file in on_files ("exists " +:+ path) (fs_exists path).

(** The calls of a command on the state [g]: a recursive deletion and a
    rotation of capabilities only with [--yes]. *)
Definition planned (cmd : TenantCmd) (w : W) (g : StoreState.t) : list store_call :=
  let on name k := wish (StoreState.get_by_name name g) k in
  let on_user tenant name k := on tenant (λ x, wish (find_user name x) (k x)) in
  match cmd with
  | Create a =>
      wish (TenantCaps.parse_tags (tc_caps a)) (λ caps,
      wish (spec_new (tc_name a) (mkQuotas (tc_max_vcpus a) (tc_max_memory_mib a)
              (tc_max_storage_bytes a) (tc_max_network_mbps a) (tc_max_iops a))) (λ spec,
      [CCreate spec caps]))
  | Delete a => on (td_name a) (λ x,
      if td_recursive a then (if td_yes a then [CDeleteRecursive (t_id x)] else [])
      else [CDelete (t_id x)])
  | UserOp (UserAdd a) => on (ua_tenant a) (λ x,
      wish (TenantCaps.parse_tags (ua_caps a)) (λ caps, [CAddUser (t_id x) (ua_name a) caps]))
  | UserOp (UserRemove _ tenant name) => on_user tenant name (λ x u, [CRemoveUser (t_id x) u])
  | UserOp (UserSetPassword _ tenant name) => on_user tenant name (λ x u,
      wish password (λ plain, [CSetPassword (draw_salt p) (t_id x) u plain]))
  | QuotaOp (QuotaDoCharge a) => on (qc_tenant a) (λ x, [CCharge (t_id x) (TenantCli.charge_of a)])
  | QuotaOp (QuotaDoRelease a) => on (qc_tenant a) (λ x, [CRelease (t_id x) (TenantCli.charge_of a)])
  | SubtenantOp (SubCreate a) => on (sc_parent a) (λ parent,
      wish (if bool_decide (str_map to_ascii_lower (sc_caps a) = "inherit") then Ok (t_root_caps parent)
            else TenantCaps.parse_tags (sc_caps a)) (λ caps,
      wish (spec_new (sc_name a) (mkQuotas (sc_max_vcpus a) (sc_max_memory_mib a)
              (sc_max_storage_bytes a) (sc_max_network_mbps a) (sc_max_iops a))) (λ spec,
      [CCreate (with_parent spec (t_id parent)) caps])))
  | Login a => wish password (λ plain,
      CAuthenticate (lo_tenant a) (lo_user a) plain ::
      wish (StoreState.authenticate (lo_tenant a) (lo_user a) plain g) (λ '(tid, uid, caps),
      [CCreateSession (draw_raw p) (clock_now p) tid uid caps (lo_ttl_secs a)]))
  | Logout a =>
      let '(r, w1) := session_exists (out_session_file a) w in
      wish r (λ there, if there then wish (token_in (out_session_file a) w1) (λ tok, [CRevokeToken tok]) else [])
  | Whoami a => wish (token_in (wh_session_file a) w) (λ tok, [CValidate (clock_now p) tok])
  | RotateCaps a =>
      if ro_yes a then on (ro_tenant a) (λ x,
        wish (TenantCaps.parse_tags (ro_caps a)) (λ new, [CRotate (t_id x) new]))
      else []
  | RevokeSessions a =>
      match rv_user a with
      | Some uname => on_user (rv_tenant a) uname (λ x u, [CRevokeUser (t_id x) u])
      | None => on (rv_tenant a) (λ x, [CRevokeTenant (t_id x)])
      end
  | _ => []
  end.
End planned.

(** ** Every command does exactly its planned calls *)
Section exact.
Context `{HashOrder} `{AuthPrims} `{StateCodec} `{!StateCodecLaws} `{EventCodec} `{CliJson}.
Abbreviation W := (World FileTenantStore.t).
Abbreviation M := (st W Fault).

Definition opens (a : Paths) (w : W) : CelResult StoreState.t := open a None (fs_disk (w_store w)).
(** The store was opened from [a], holds [g], and so does the file. *)
Record settled (a : Paths) (g : StoreState.t) (w : W) : Prop := {
  se_mem : fs_inner (w_store w) = g; se_path : fs_path (w_store w) = a; se_disk : opens a w = Ok g }.

(** The file holds the state after some of the plan; after all of it when the
    command answers Ok (and [b] says that it looks at every answer). *)
Definition ends {A} (b : bool) (a : Paths) (g : StoreState.t) (plan : list store_call)
    (o : result Fault A * W) : Prop :=
  ∃ n, (n ≤ length plan)%nat ∧ opens a o.2 = Ok (foldl store_exec g (take n plan)) ∧
    (b = true → is_ok o.1 = true → n = length plan).
Definition follows {A} (b : bool) (a : Paths) (m : M A) (g : StoreState.t) (plan : list store_call) : Prop :=
  ∀ w, settled a g w → ends b a g plan (m w).
Definition quiet {A} (m : M A) : Prop := ∀ w, w_store (m w).2 = w_store w.

Lemma opens_same a (w w' : W) : w_store w' = w_store w → opens a w' = opens a w.
Proof. unfold opens. by intros ->. Qed.
Lemma settled_same a g (w w' : W) : w_store w' = w_store w → settled a g w → settled a g w'.
Proof. intros E []. split; by rewrite ?(opens_same _ _ _ E), ?E. Qed.
Lemma ends_err {A} b a g plan e (w : W) : opens a w = Ok g → ends (A := A) b a g plan (Err e, w).
Proof. intros Ho. exists 0%nat. split; [lia|]. by split. Qed.

Lemma quiet_check {A} (r : CelResult A) : quiet (check r).
Proof. done. Qed.
Lemma quiet_ask {A} (f : FileTenantStore.t → CelResult A) : quiet (ask f).
Proof. done. Qed.
Lemma quiet_print l : quiet (print l).
Proof. done. Qed.
Lemma quiet_print_all l : quiet (print_all l).
Proof. done. Qed.
Lemma quiet_files {A} what (m : st Fs string A) : quiet (on_files what m).
Proof. intros w. unfold on_files. by destruct (m (w_fs w)). Qed.
Lemma still_ret {A} (x : A) : quiet (mret x).
Proof. done. Qed.
Lemma still_throw {A} (e : Fault) : quiet (mthrow e : M A).
Proof. done. Qed.
Lemma still_try {A} (r : result Fault A) : quiet (try r).
Proof. done. Qed.
Lemma quiet_bail c e : quiet (bail_if c e).
Proof. by destruct c. Qed.
Lemma still_bind {A B} (m : M A) (k : A → M B) : quiet m → (∀ v, quiet (k v)) → quiet (m ≫= k).
Proof.
  intros Hm Hk w. unfold mbind, st_bind. specialize (Hm w). destruct (m w) as [[v|e] w1]; simpl in *; [|done].
  by rewrite Hk.
Qed.
Lemma quiet_if {A} (c : bool) (m1 m2 : M A) : quiet m1 → quiet m2 → quiet (if c then m1 else m2).
Proof. by destruct c. Qed.
Create HintDb quiet.
#[local] Hint Resolve quiet_check quiet_ask quiet_print quiet_print_all quiet_files still_ret still_throw still_try
  quiet_bail still_bind quiet_if : quiet.

Lemma follows_quiet {A} b a (m : M A) g : quiet m → follows b a m g [].
Proof.
  intros Hq w [_ _ Ho]. exists 0%nat. split; [done|]. split; [|done]. by rewrite (opens_same _ _ _ (Hq w)).
Qed.
Lemma follows_bind {A B} b a (m : M A) (k : A → M B) g plan :
  quiet m → (∀ w v, (m w).1 = Ok v → settled a g w → follows b a (k v) g plan) → follows b a (m ≫= k) g plan.
Proof.
  intros Hq Hk w Hs. specialize (Hq w). specialize (Hk w). unfold mbind, st_bind.
  destruct (m w) as [[v|e] w1]; simpl in *.
  - apply (Hk v eq_refl Hs). by eapply settled_same.
  - apply ends_err. rewrite (opens_same _ _ _ Hq). apply Hs.
Qed.
Lemma follows_wish {A B} b a (r : CelResult A) (k : A → M B) g pk :
  (∀ v, r = Ok v → follows b a (k v) g (pk v)) → follows b a (check r ≫= k) g (wish r pk).
Proof.
  intros Hk. apply follows_bind; [apply quiet_check|]. intros w v Hv _. unfold check, try in Hv. simpl in Hv.
  destruct r as [v'|]; simpl in *; [|done]. injection Hv as ->. by apply Hk.
Qed.
Lemma follows_name {B} b a name (k : Tenant → M B) g pk :
  (∀ x, follows b a (k x) g (pk x)) →
  follows b a (ask (ts_get_by_name name) ≫= k) g (wish (StoreState.get_by_name name g) pk).
Proof.
  intros Hk. apply follows_bind; [apply quiet_ask|]. intros w x Hx Hs. unfold ask in Hx. simpl in Hx.
  rewrite (se_mem _ _ _ Hs) in Hx. destruct (StoreState.get_by_name name g) as [x'|]; simpl in *; [|done].
  injection Hx as ->. apply Hk.
Qed.
Lemma follows_assoc {A B C} b a (m : M A) (k1 : A → M B) (k2 : B → M C) g plan :
  follows b a (m ≫= λ v, k1 v ≫= k2) g plan → follows b a ((m ≫= k1) ≫= k2) g plan.
Proof.
  intros Hf w Hs. specialize (Hf w Hs). unfold mbind, st_bind in *. by destruct (m w) as [[] ?].
Qed.

(** A method of the store that does what a call does to the state. *)
Definition performs {A} (c : store_call) (f : st StoreState.t CelError A) : Prop :=
  ∀ g, (f g).2 = store_exec g c.

Lemma call_spec {A} a c (f : st StoreState.t CelError A) g w :
  performs c f → settled a g w →
  let '(r, w') := on_store (with_state f) w in
  match r with
  | Ok v => (f g).1 = Ok v ∧ settled a (store_exec g c) w'
  | Err _ => opens a w' = Ok g
  end.
Proof.
  intros Hc [Hm Hp Ho]. unfold on_store. pose proof (with_state_spec f (w_store w)) as Hs.
  destruct (with_state f (w_store w)) as [r s']. destruct Hs as (Hi&Hpath&Hr). rewrite Hm in *.
  rewrite Hc in Hi. unfold opens in *. destruct (f g).1 as [v|e].
  - destruct Hr as (_&bs&Hb&Hr). destruct r as [v'|e]; simpl.
    + destruct Hr as [-> Hd]. split; [done|]. split; simpl; [done|congruence|]. unfold opens. simpl.
      rewrite Hd, <-Hi. by eapply open_encoded.
    + destruct Hr as (_&Hd&_). by rewrite (open_file _ _ _ Hd).
  - destruct Hr as (->&Hd&_). simpl. by rewrite Hd.
Qed.

Lemma ends_step {A} b a g c plan (o : result Fault A * W) :
  ends b a (store_exec g c) plan o → ends b a g (c :: plan) o.
Proof.
  intros (n&Hn&Ho&Hb). exists (S n). simpl. split; [lia|]. split; [done|]. intros E1 E2. by rewrite Hb.
Qed.
Lemma follows_call {A B} b a c (f : st StoreState.t CelError A) (k : A → M B) g plan :
  performs c f → (∀ v, (f g).1 = Ok v → follows b a (k v) (store_exec g c) plan) →
  follows b a (on_store (with_state f) ≫= k) g (c :: plan).
Proof.
  intros Hc Hk w Hs. pose proof (call_spec a c f g w Hc Hs) as Hw. unfold mbind, st_bind.
  destruct (on_store (with_state f) w) as [[v|e] w1].
  - destruct Hw as [Hv Hs1]. apply ends_step, (Hk v Hv w1 Hs1).
  - by apply ends_err.
Qed.
(** A call whose answer is thrown away. *)
Lemma follows_discard {A B} a c (f : st StoreState.t CelError A) (k : M B) g :
  performs c f → quiet k →
  follows false a ((λ w, (Ok tt, (on_store (with_state f) w).2)) ≫= λ _, k) g [c].
Proof.
  intros Hc Hk w Hs. pose proof (call_spec a c f g w Hc Hs) as Hw. unfold mbind, st_bind.
  destruct (on_store (with_state f) w) as [[v|e] w1]; simpl.
  - destruct Hw as [_ [_ _ Ho]]. exists 1%nat. split; [done|]. rewrite (opens_same _ _ _ (Hk w1)). by split.
  - exists 0%nat. split; [simpl; lia|]. rewrite (opens_same _ _ _ (Hk w1)). by split.
Qed.

(** Opening the store, and what goes before it. *)
Lemma ends_open {B} p b a (k : unit → M B) g plan w :
  store_read_fault p ≠ Some ExistsFails → opens a w = Ok g → follows b a (k tt) g plan → ends b a g plan ((TenantCli.open p a ≫= k) w).
Proof.
  intros Hfound Ho Hk. unfold TenantCli.open, mbind, st_bind, get_st, check, try, modify.
  destruct (open a (store_read_fault p) (fs_disk (w_store w))) as [g'|e] eqn:E; simpl; [|by apply ends_err].
  assert (g' = g) as ->.
  { unfold opens, open in *. destruct (d_file (fs_disk (w_store w))); [|congruence].
    destruct (store_read_fault p) as [[]|]; congruence. }
  apply Hk. by split.
Qed.
Lemma ends_bind {A B} b a (m : M A) (k : A → M B) g plan w :
  quiet m → opens a w = Ok g →
  (∀ v w1, m w = (Ok v, w1) → opens a w1 = Ok g → ends b a g plan (k v w1)) →
  ends b a g plan ((m ≫= k) w).
Proof.
  intros Hq Ho Hk. specialize (Hq w). unfold mbind, st_bind.
  destruct (m w) as [[v|e] w1]; simpl in *.
  - apply Hk; [done|]. by rewrite (opens_same _ _ _ Hq).
  - apply ends_err. by rewrite (opens_same _ _ _ Hq).
Qed.

Context (debug_reply : VmOpReply.t → string) (p : Process).
Context (Hfound : store_read_fault p ≠ Some ExistsFails).
Implicit Types (g : StoreState.t) (w : W).

Lemma read_password_eq w : TenantCli.read_password_from_env p w = check (password p) w.
Proof.
  unfold TenantCli.read_password_from_env, password, check. st_unfold.
  destruct (env_var p "CELIUM_PASSWORD") as [v|]; simpl; [|done]. by destruct (str_is_empty v).
Qed.
Lemma follows_password {B} b a (k : string → M B) g pk :
  (∀ v, follows b a (k v) g (pk v)) →
  follows b a (TenantCli.read_password_from_env p ≫= k) g (wish (password p) pk).
Proof.
  intros Hk w Hs. unfold mbind, st_bind. rewrite read_password_eq.
  exact (follows_wish b a (password p) k g pk (λ v _, Hk v) w Hs).
Qed.
Lemma quiet_json what r : quiet (TenantCli.json_or what r).
Proof. apply quiet_check. Qed.
Lemma quiet_read_session path : quiet (TenantCli.read_session_file path).
Proof. unfold TenantCli.read_session_file. auto with quiet. Qed.
Lemma quiet_write_session path sf : quiet (TenantCli.write_session_file path sf).
Proof.
  unfold TenantCli.write_session_file. apply still_bind; [|intros; apply still_bind; auto using quiet_json with quiet].
  destruct (path_parent path); auto with quiet.
Qed.
#[local] Hint Resolve quiet_json quiet_read_session quiet_write_session : quiet.

(** Follow the steps of a command after the store is open. *)
Ltac follow :=
  repeat first
    [ apply follows_wish; intros ? ?
    | apply follows_name; intros ?
    | apply follows_password; intros ?
    | apply follows_call; [by intros ?|intros ? ?]
    | apply follows_quiet; solve [auto 8 with quiet]
    | apply follows_bind; [solve [auto with quiet]|intros ? ? _ _] ].

Lemma user_follows op a g w :
  store_of (UserOp op) = Some a → opens a w = Ok g →
  ends true a g (planned p (UserOp op) w g) (TenantCli.run_user p op w).
Proof. intros Ha Ho. destruct op; injection Ha as <-; (apply ends_open; [done|done|]); follow. Qed.
Lemma quota_follows op a g w :
  store_of (QuotaOp op) = Some a → opens a w = Ok g →
  ends true a g (planned p (QuotaOp op) w g) (TenantCli.run_quota p op w).
Proof. intros Ha Ho. destruct op; injection Ha as <-; (apply ends_open; [done|done|]); follow. Qed.
Lemma create_follows x g w :
  opens (tc_store x) w = Ok g → ends true (tc_store x) g (planned p (Create x) w g) (TenantCli.run_create p x w).
Proof. intros Ho. apply ends_open; [done|done|]. follow. Qed.
Lemma subtenant_follows op a g w :
  store_of (SubtenantOp op) = Some a → opens a w = Ok g →
  ends true a g (planned p (SubtenantOp op) w g) (TenantCli.run_subtenant p op w).
Proof.
  intros Ha Ho. destruct op as [x|]; injection Ha as <-; (apply ends_open; [done|done|]); [|follow].
  apply follows_name. intros parent. simpl. case_bool_decide; [|follow].
  cbn [wish]. apply follows_bind; [apply still_ret|]. intros ? ? [= <-] _. follow.
Qed.
Lemma delete_follows x g w :
  opens (td_store x) w = Ok g → ends true (td_store x) g (planned p (Delete x) w g) (TenantCli.run_delete p x w).
Proof.
  intros Ho. apply ends_open; [done|done|]. apply follows_name. intros y. destruct (td_recursive x); [|follow].
  apply follows_bind; [auto with quiet|]. intros ? ? Hyes _. destruct (td_yes x); [|done]. follow.
Qed.
Lemma rotate_follows x g w :
  opens (ro_store x) w = Ok g → ends true (ro_store x) g (planned p (RotateCaps x) w g) (TenantCli.run_rotate_caps p x w).
Proof.
  intros Ho. cbn [planned]. unfold TenantCli.run_rotate_caps. destruct (ro_yes x); [|by apply ends_err].
  apply ends_open; [done|done|]. follow.
Qed.
Lemma revoke_follows x g w :
  opens (rv_store x) w = Ok g →
  ends true (rv_store x) g (planned p (RevokeSessions x) w g) (TenantCli.run_revoke_sessions p x w).
Proof.
  intros Ho. apply ends_open; [done|done|]. cbn [planned].
  destruct (rv_user x); apply follows_name; intros y; [apply follows_assoc|]; follow.
Qed.
(** A pattern in a binder. *)
Lemma login_follows x g w :
  opens (lo_store x) w = Ok g → ends true (lo_store x) g (planned p (Login x) w g) (TenantCli.run_login p x w).
Proof.
  intros Ho. apply ends_bind; [intros w'; by rewrite read_password_eq|done|].
  intros plain w1 Hp Ho1. rewrite read_password_eq in Hp. unfold check, try, map_err in Hp.
  cbn [planned]. destruct (password p) as [v|]; [|done]. injection Hp as -> ->. cbn [wish].
  apply ends_open; [done|done|]. apply (follows_call _ _ _ (query (StoreState.authenticate _ _ _))); [by intros ?|].
  intros [[tid uid] caps] Ha. change (StoreState.authenticate (lo_tenant x) (lo_user x) plain g = Ok (tid, uid, caps)) in Ha.
  rewrite Ha. cbn [wish]. apply follows_call; [by intros ?|]. intros [token session] _.
  apply follows_quiet. apply still_bind; [auto with quiet|]. intros _. destruct (lo_json x); auto with quiet.
Qed.

(** The session file is read before the store is opened. *)
Lemma ends_token {B} b a file w g (k : SessionFile → SessionToken → M B) pk :
  opens a w = Ok g →
  (∀ sf tok w1, opens a w1 = Ok g → ends b a g (pk tok) (k sf tok w1)) →
  ends b a g (wish (token_in p file w) pk)
    ((sf ← TenantCli.read_session_file (TenantCli.resolve_session_path p file);
      tok ← check (from_hex (sf_token sf)); k sf tok) w).
Proof.
  intros Ho Hk. apply ends_bind; [apply quiet_read_session|done|]. intros sf w1 Hsf Ho1.
  apply ends_bind; [apply quiet_check|done|]. intros tok w2 Htok Ho2. unfold token_in. rewrite Hsf. simpl.
  unfold check, try in Htok. injection Htok as Htok <-. rewrite Htok. simpl. by apply Hk.
Qed.
Lemma logout_follows x g w :
  opens (out_store x) w = Ok g → ends false (out_store x) g (planned p (Logout x) w g) (TenantCli.run_logout p x w).
Proof.
  intros Ho. unfold TenantCli.run_logout. apply ends_bind; [apply quiet_files|done|]. intros there w0 Hex Ho0. cbn [planned].
  change (session_exists p (out_session_file x) w = (Ok there, w0)) in Hex. rewrite Hex. cbn [wish].
  destruct there; simpl; [|exists 0%nat; by split].
  apply (ends_token false (out_store x) (out_session_file x) w0 g _ (λ tok, [CRevokeToken tok])); [done|].
  intros _ tok w1 Ho1. apply ends_open; [done|done|].
  apply (follows_discard _ _ (StoreState.revoke_token tok)); [by intros ?|]. auto with quiet.
Qed.
Lemma whoami_follows x g w :
  opens (wh_store x) w = Ok g → ends true (wh_store x) g (planned p (Whoami x) w g) (TenantCli.run_whoami p x w).
Proof.
  intros Ho. apply (ends_token true (wh_store x) (wh_session_file x) w g _ (λ tok, [CValidate (clock_now p) tok])); [done|].
  intros sf tok w1 Ho1. apply ends_open; [done|done|].
  apply (follows_call _ _ _ (query (StoreState.validate_token _ _))); [by intros ?|]. intros session _.
  apply follows_quiet. destruct (wh_json x); auto with quiet.
Qed.

Definition is_exec (cmd : TenantCmd) : bool := match cmd with ExecOp _ => true | _ => false end.
Definition is_logout (cmd : TenantCmd) : bool := match cmd with Logout _ => true | _ => false end.

Lemma command_follows cmd a g w :
  store_of cmd = Some a → is_exec cmd = false → opens a w = Ok g →
  ends (negb (is_logout cmd)) a g (planned p cmd w g) (TenantCli.run debug_reply p cmd w).
Proof.
  intros Ha He Ho. destruct cmd as [x|x|x name|x|op|op|op|op|op|x|x|x|x|x|x]; simpl in Ha, He; try done;
    first [injection Ha as <-|idtac]; cbn [is_logout negb TenantCli.run].
  - by apply create_follows.
  - apply ends_open; [done|done|]. follow.
  - apply ends_open; [done|done|]. cbn [planned]. follow.
  - by apply delete_follows.
  - by apply user_follows.
  - by apply quota_follows.
  - by apply subtenant_follows.
  - apply ends_open; [done|done|]. cbn [planned]. follow.
  - by apply login_follows.
  - by apply logout_follows.
  - by apply whoami_follows.
  - by apply rotate_follows.
  - by apply revoke_follows.
Qed.
Lemma foldl_exec_inv l g : inv g → inv (foldl store_exec g l).
Proof. revert g. induction l as [|c l IH]; intros g Hi; [done|]. by apply IH, store_exec_inv. Qed.

(** C10: a tenant command makes the store calls planned for it.  For every
    [celctl tenant] command but [exec] and [audit], whatever file operations
    fail but the [exists] of the store file (a failing one opens an empty store),
    from a file the command can open, whose store satisfies the invariant: at the end the file holds the state
    after some prefix of the calls that [planned] lists (on the tenant and user
    the names resolve to; a recursive delete and a rotation of capabilities
    only with [--yes], a plain delete, a user removal and a revocation of
    sessions without it), and that state satisfies the store invariant; and when
    a command other than [logout] reports success, all the planned calls are on
    disk.  [logout] drops the answer of the store and may report success
    without its call. *)
Theorem tenant_commands_exact cmd a g w :
  store_of cmd = Some a → is_exec cmd = false → opens a w = Ok g → inv g →
  let '(r, w') := TenantCli.run debug_reply p cmd w in
  ∃ n, (n ≤ length (planned p cmd w g))%nat ∧
    opens a w' = Ok (foldl store_exec g (take n (planned p cmd w g))) ∧
    inv (foldl store_exec g (take n (planned p cmd w g))) ∧
    (is_ok r = true → is_logout cmd = false → n = length (planned p cmd w g)).
Proof.
  intros Ha He Ho Hi. pose proof (command_follows cmd a g w Ha He Ho) as Hf.
  destruct (TenantCli.run debug_reply p cmd w) as [r w']. destruct Hf as (n&Hn&Ho'&Hr).
  exists n. split; [done|]. split; [done|]. split; [by apply foldl_exec_inv|].
  intros Hok Hl. apply Hr; [by rewrite Hl|done].
Qed.
End exact.
#[export] Hint Resolve quiet_check quiet_ask quiet_print quiet_print_all quiet_files still_ret still_throw still_try
  quiet_bail still_bind quiet_if : quiet.

(** ** A session, from login to logout *)
Section session.
Context `{HashOrder} `{AuthPrims} `{StateCodec} `{!StateCodecLaws} `{EventCodec} `{CliJson} `{!CliJsonLaws}.
Abbreviation W := (World FileTenantStore.t).
Implicit Types (g : StoreState.t) (w : W).

(** A world whose disk works and whose store file holds [g]. *)
Record sound (a : Paths) g w : Prop := {
  so_disk : opens a w = Ok g; so_faults : fs_faults (w_store w) = []; so_fs : Files.healthy (w_fs w) }.
Record opened (a : Paths) g w : Prop := {
  op_sound : sound a g w; op_mem : fs_inner (w_store w) = g; op_path : fs_path (w_store w) = a }.

Lemma open_sound q a g w :
  store_read_fault q = None → sound a g w →
  ∃ w', TenantCli.open q a w = (Ok tt, w') ∧ opened a g w' ∧ w_fs w' = w_fs w ∧ w_out w' = w_out w.
Proof.
  intros Hq [Ho Hf Hh]. unfold TenantCli.open, mbind, st_bind, get_st, check, try, modify. rewrite Hq.
  unfold opens in Ho. rewrite Ho. simpl. eexists. split; [done|]. by repeat split.
Qed.
Lemma call_opened {A} (f : st StoreState.t CelError A) a g w :
  opened a g w →
  ∃ w', on_store (with_state f) w = (map_err Fail (f g).1, w') ∧ w_fs w' = w_fs w ∧ w_out w' = w_out w ∧
    (is_ok (f g).1 = true → opened a (f g).2 w').
Proof.
  intros [[Ho Hf Hh] Hm Hp]. unfold on_store. pose proof (with_state_spec f (w_store w)) as Hs.
  destruct (with_state f (w_store w)) as [r s']. destruct Hs as (Hi&Hpath&Hr). rewrite Hm, Hf in *.
  exists (mkWorld s' (w_fs w) (w_log w) (w_out w)). split; [|split; [done|split; [done|]]].
  - f_equal. destruct (f g).1 as [v|e].
    + destruct Hr as (_&bs&_&Hr). destruct r; [by destruct Hr as [-> _]|by destruct Hr as (_&_&[])].
    + by destruct Hr as [-> _].
  - intros Hok. destruct (f g).1 as [v|e]; [|done]. destruct Hr as (Hf'&bs&Hb&Hr).
    destruct r as [v'|]; [|by destruct Hr as (_&_&[])]. destruct Hr as [_ Hd].
    split; [split; [|done|done]|done|simpl; congruence].
    unfold opens. simpl. rewrite Hd, <-Hi. by eapply open_encoded.
Qed.

Lemma open_inv q a g w w' :
  store_read_fault q = None → sound a g w → TenantCli.open q a w = (Ok tt, w') → opened a g w' ∧ w_fs w' = w_fs w.
Proof.
  intros Hq [Ho Hf Hh]. unfold TenantCli.open, mbind, st_bind, get_st, check, try, modify. rewrite Hq.
  destruct (open a None (fs_disk (w_store w))) as [g'|] eqn:E; [|done].
  intros [= <-]. assert (g' = g) as ->; [|by repeat split].
  unfold opens, open in *. destruct (d_file (fs_disk (w_store w))); [|congruence].
  congruence.
Qed.
Lemma call_inv {A} (f : st StoreState.t CelError A) a g w v w' :
  opened a g w → on_store (with_state f) w = (Ok v, w') →
  ∃ g', f g = (Ok v, g') ∧ opened a g' w' ∧ w_fs w' = w_fs w.
Proof.
  intros Hop Hc. destruct (call_opened f a g w Hop) as (w2&Hc2&Hfs&_&Hop2). rewrite Hc2 in Hc.
  injection Hc as Hc <-. destruct (f g) as [[v'|e] g']; simpl in *; [|done]. injection Hc as ->.
  exists g'. split; [done|]. split; [by apply Hop2|done].
Qed.

(** The session file is written whole, and read back. *)
Lemma write_session_ok path sf w w1 :
  Files.healthy (w_fs w) → TenantCli.write_session_file path sf w = (Ok tt, w1) →
  ∃ js, json_session sf = Ok js ∧ w_store w1 = w_store w ∧ w_out w1 = w_out w ∧
    w_fs w1 = good (<[path := String.list_byte_of_string js]> (fs_files (w_fs w))).
Proof.
  intros Hh%healthy_good. unfold TenantCli.write_session_file.
  intros ([]&w2&Hdir&(js&w3&Hjs&Hw)%st_bind_Ok)%st_bind_Ok.
  assert (w2 = w) as ->.
  { destruct (path_parent path); [|by injection Hdir]. unfold on_files in Hdir. rewrite Hh in Hdir.
    unfold create_dir_all in Hdir. rewrite good_syscall in Hdir. injection Hdir as <-. rewrite <-Hh. by destruct w. }
  unfold TenantCli.json_or, check, try in Hjs. destruct (json_session sf) as [js'|]; [|done]. simpl in Hjs.
  injection Hjs as -> <-. exists js. split; [done|]. unfold on_files in Hw. rewrite Hh in Hw.
  unfold mbind, st_bind in Hw. rewrite good_create in Hw.
  rewrite (good_write path 0 _ _ []) in Hw by (by rewrite lookup_insert_eq).
  rewrite pwrite_empty, insert_insert_eq in Hw. injection Hw as <-. by split.
Qed.
Lemma read_session_ok path sf js w :
  Files.healthy (w_fs w) → fs_files (w_fs w) !! path = Some (String.list_byte_of_string js) →
  json_session sf = Ok js → TenantCli.read_session_file path w = (Ok sf, w).
Proof.
  intros Hh%healthy_good Hf Hjs. unfold TenantCli.read_session_file, mbind, st_bind, on_files.
  rewrite Hh, (good_read _ _ _ Hf). simpl. destruct (session_round sf) as (js'&Hjs'&Hp).
  assert (js' = js) as -> by congruence. unfold check, try. rewrite Hp. simpl. rewrite <-Hh. by destruct w.
Qed.

(** Who a session of a login speaks for. *)
Lemma authenticated_name tn un plain tid uid caps g x u :
  inv g → StoreState.authenticate tn un plain g = Ok (tid, uid, caps) →
  StoreState.tenants g !! tid = Some x → u ∈ t_users x → u_id u = uid → u_name u = un ∧ u_caps u = caps.
Proof.
  intros Hi Ha Hx Hu Hid. unfold StoreState.authenticate in Ha. st_unfold.
  destruct (StoreState.by_name g !! tn) as [k|]; [|done].
  destruct (StoreState.tenants g !! k) as [x'|] eqn:Hk; [|done].
  destruct (find_first _ _) as [v|] eqn:Hv; [|done]. destruct (u_password_hash v); [|done].
  destruct (verify_password _ _); [|done]. injection Ha as -> <- <-. rewrite Hx in Hk. injection Hk as <-.
  apply find_first_Some in Hv as [Hvin Hvn%bool_decide_eq_true].
  destruct (inv_tenant _ Hi _ _ Hx) as [_ _ _ _ _ _ _ [Hids _ _]].
  pose proof (find_first_id u _ Hids Hu) as E1. pose proof (find_first_id v _ Hids Hvin) as E2.
  rewrite Hid in E1. rewrite E1 in E2. by injection E2 as ->.
Qed.

(** What a login leaves behind. *)
Lemma login_spec p x g w w1 :
  store_read_fault p = None → sound (lo_store x) g w → TenantCli.run_login p x w = (Ok tt, w1) →
  ∃ plain tid uid caps tok y g1,
    env_var p "CELIUM_PASSWORD" = Some plain ∧
    StoreState.authenticate (lo_tenant x) (lo_user x) plain g = Ok (tid, uid, caps) ∧
    StoreState.create_session (draw_raw p) (clock_now p) tid uid caps (lo_ttl_secs x) g = (Ok (tok, y), g1) ∧
    sound (lo_store x) g1 w1 ∧
    ∃ js, json_session (mkSessionFile (token_str tok) (lo_tenant x) (lo_user x) (ses_expires_ms y)) = Ok js ∧
      fs_files (w_fs w1) !! TenantCli.resolve_session_path p (lo_session_file x) =
        Some (String.list_byte_of_string js).
Proof.
  intros Hq Hs Hrun. unfold TenantCli.run_login in Hrun. rewrite st_bind_Ok in Hrun.
  destruct Hrun as (plain&w2&Hpw&Hrun). rewrite read_password_eq in Hpw. unfold check, try, password in Hpw.
  destruct (env_var p "CELIUM_PASSWORD") as [v|]; [|done]. destruct (str_is_empty v); [done|].
  injection Hpw as -> <-. rewrite st_bind_Ok in Hrun. destruct Hrun as ([]&w2&Hopen&Hrun).
  rewrite st_bind_Ok in Hrun. destruct Hrun as ([[tid uid] caps]&w3&Hau&Hrun).
  rewrite st_bind_Ok in Hrun. destruct Hrun as ([tok y]&w4&Hcs&Hrun).
  rewrite st_bind_Ok in Hrun. destruct Hrun as ([]&w5&Hwrite&Hprint).
  destruct (open_inv _ _ _ _ _ Hq Hs Hopen) as [Hop2 _].
  destruct (call_inv (query (StoreState.authenticate (lo_tenant x) (lo_user x) plain)) _ _ _ _ _ Hop2 Hau)
    as (g'&[= Ha <-]&Hop3&_).
  destruct (call_inv (StoreState.create_session _ _ _ _ _ _) _ _ _ _ _ Hop3 Hcs) as (g1&Hc&[[Ho4 Hf4 Hh4] _ _]&_).
  destruct (write_session_ok _ _ _ _ Hh4 Hwrite) as (js&Hjs&Hst5&_&Hfs5).
  exists plain, tid, uid, caps, tok, y, g1. do 3 (split; [done|]).
  assert (w_store w1 = w_store w5 ∧ w_fs w1 = w_fs w5) as [Est Efs].
  { destruct (lo_json x); simpl in Hprint; [|by injection Hprint as <-].
    unfold mbind, st_bind, TenantCli.json_or, check, try in Hprint. rewrite Hjs in Hprint. by injection Hprint as <-. }
  split; [split|].
  - rewrite (opens_same _ w5 w1) by done. by rewrite (opens_same _ w4 w5).
  - by rewrite Est, Hst5.
  - by rewrite Efs, Hfs5.
  - exists js. split; [done|]. rewrite Efs, Hfs5. simpl. by rewrite lookup_insert_eq.
Qed.

(** A session file that holds a token of the store. *)
Record signed_in (a : Paths) (path : string) sf tok g w : Prop := {
  si_sound : sound a g w;
  si_js : ∃ js, json_session sf = Ok js ∧ fs_files (w_fs w) !! path = Some (String.list_byte_of_string js);
  si_token : from_hex (sf_token sf) = Ok tok
}.
Lemma signed_in_read a path sf tok g w :
  signed_in a path sf tok g w →
  TenantCli.read_session_file path w = (Ok sf, w) ∧ ∀ what, on_files what (fs_exists path) w = (Ok true, w).
Proof.
  intros [[_ _ Hh] (js&Hjs&Hf) _]. split; [by eapply read_session_ok|]. intros what.
  unfold on_files. rewrite (healthy_good _ Hh), good_exists, Hf. simpl. rewrite <-(healthy_good _ Hh). by destruct w.
Qed.

Definition identity_line sf (y : Session) : string :=
  "tenant=" +:+ sf_tenant sf +:+ " user=" +:+ ses_user_name y +:+ " caps="
  +:+ TenantCaps.to_tags (ses_caps y) +:+ " expires_ms=" +:+ fmt_u (ses_expires_ms y).

Lemma whoami_spec q x a path sf tok g w :
  signed_in a path sf tok g w → store_read_fault q = None → wh_store x = a → wh_json x = false →
  TenantCli.resolve_session_path q (wh_session_file x) = path →
  let '(r, w') := TenantCli.run_whoami q x w in
  match StoreState.validate_token (clock_now q) tok g with
  | Ok y => r = Ok tt ∧ w_out w' = w_out w ++ [identity_line sf y]
  | Err e => r = Err (Fail e)
  end.
Proof.
  intros Hs Hq <- Hj Hp. destruct (signed_in_read _ _ _ _ _ _ Hs) as [Hr _]. destruct Hs as [Hs _ Htok].
  destruct (open_sound q _ _ _ Hq Hs) as (w1&Ho&Hop&_&Hout1).
  destruct (call_opened (query (StoreState.validate_token (clock_now q) tok)) _ _ _ Hop) as (w2&Hc&_&Hout2&_).
  unfold TenantCli.run_whoami. rewrite Hp, Hj. unfold mbind, st_bind. rewrite Hr. unfold check, try. rewrite Htok. simpl.
  rewrite Ho. unfold ts_validate_token, file_tenant_store. rewrite Hc. unfold query. simpl.
  destruct (StoreState.validate_token _ _ _) as [y|e]; simpl; [|done]. by rewrite Hout2, Hout1.
Qed.

Lemma revoked_token now tok g :
  StoreState.validate_token now tok (StoreState.revoke_token tok g).2 = Err (CapabilityDenied "auth.session").
Proof.
  unfold StoreState.validate_token, StoreState.revoke_token. st_unfold.
  rewrite (proj2 (find_first_None _ _)); [done|]. intros y [_ Hy]%elem_of_retain. by apply negb_true_iff.
Qed.
Lemma logout_spec q x a path sf tok g w :
  signed_in a path sf tok g w → store_read_fault q = None → out_store x = a →
  TenantCli.resolve_session_path q (out_session_file x) = path →
  let '(r, w') := TenantCli.run_logout q x w in
  r = Ok tt ∧ sound a (StoreState.revoke_token tok g).2 w' ∧ fs_files (w_fs w') = delete path (fs_files (w_fs w)).
Proof.
  intros Hs Hq <- Hp. destruct (signed_in_read _ _ _ _ _ _ Hs) as [Hr Hex]. destruct Hs as [Hs (js&_&Hf) Htok].
  destruct (open_sound q _ _ _ Hq Hs) as (w1&Ho&Hop&Hfs1&_).
  destruct (call_opened (StoreState.revoke_token tok) _ _ _ Hop) as (w2&Hc&Hfs2&_&Hop2).
  destruct (Hop2 eq_refl) as [[Ho2 Hf2 Hh2] _ _].
  unfold TenantCli.run_logout. rewrite Hp. unfold mbind, st_bind. rewrite Hex. simpl. rewrite Hr.
  unfold check, try. rewrite Htok. simpl. rewrite Ho. unfold ts_revoke_token, file_tenant_store. rewrite Hc. simpl.
  unfold on_files. rewrite (healthy_good _ Hh2), Hfs2, Hfs1. unfold fs_remove_file, fs_content, syscall, outcome. st_unfold.
  rewrite Hf. simpl. split; [done|]. by repeat split.
Qed.

(** The sessions that a token opens. *)
Definition held (tok : SessionToken) g : list Session :=
  List.filter (StoreState.has_token (hash_token tok)) (StoreState.sessions g).
Lemma held_minted raw now id user req ttl tok y g g' :
  StoreState.create_session raw now id user req ttl g = (Ok (tok, y), g') → held tok g' = [y].
Proof.
  intros Hcreate. destruct (create_session_cases raw now id user req ttl g) as [[e ?]|(x&u&y'&Hx&Hu&Hy&Heq)]; [congruence|].
  rewrite Hcreate in Heq. injection Heq as -> -> ->. unfold held. simpl.
  assert (hash_token (mkToken (hex_of raw)) = ses_token_hash y') as -> by (by rewrite Hy).
  rewrite List.filter_app. unfold retain.
  assert (∀ l, List.filter (StoreState.has_token (ses_token_hash y'))
            (List.filter (λ z, negb (StoreState.has_token (ses_token_hash y') z)) l) = []) as ->.
  { induction l as [|z l IH]; simpl; [done|]. destruct (StoreState.has_token _ z) eqn:E; simpl; [done|]. by rewrite E. }
  simpl. unfold StoreState.has_token. by rewrite bool_decide_eq_true_2.
Qed.
Lemma held_revoked tok g : held tok (StoreState.revoke_token tok g).2 = [].
Proof.
  unfold held, StoreState.revoke_token. st_unfold. unfold retain.
  induction (StoreState.sessions g) as [|z l IH]; simpl; [done|].
  destruct (StoreState.has_token _ z) eqn:E; simpl; [done|]. by rewrite E.
Qed.

(** C20: the life of a session.  After a login that succeeds on a working disk
    (in it and in the processes after it no system call fails; a token has 32
    bytes; the store of the file satisfies its invariant):
    the password was that of the tenant and user named, the session file holds
    a token and the names, and the store file holds, under that very token,
    exactly one session, which is theirs, with capabilities within the user's.
    Until the session expires [whoami] in any later process prints the tenant,
    the user and the capabilities, and from then on it is refused.  [logout]
    removes the session file and every session of that token from the store
    file, and nothing else, so that no process is ever let in with it again. *)
Theorem session_lifecycle p x g w w1 :
  store_read_fault p = None → sound (lo_store x) g w → inv g → length (draw_raw p) = 32%nat →
  TenantCli.run_login p x w = (Ok tt, w1) →
  let path := TenantCli.resolve_session_path p (lo_session_file x) in
  ∃ plain tid uid caps tok y sf g1,
    env_var p "CELIUM_PASSWORD" = Some plain ∧
    StoreState.authenticate (lo_tenant x) (lo_user x) plain g = Ok (tid, uid, caps) ∧
    (∃ js, json_session sf = Ok js ∧ fs_files (w_fs w1) !! path = Some (String.list_byte_of_string js)) ∧
    from_hex (sf_token sf) = Ok tok ∧ sf_tenant sf = lo_tenant x ∧ sf_user sf = lo_user x ∧
    opens (lo_store x) w1 = Ok g1 ∧ held tok g1 = [y] ∧
    ses_tenant y = tid ∧ ses_user y = uid ∧ ses_user_name y = lo_user x ∧
    TenantCaps.contains caps (ses_caps y) = true ∧
    (∀ q file, store_read_fault q = None → TenantCli.resolve_session_path q file = path →
       let '(r, w2) := TenantCli.run_whoami q (mkWhoamiArgs (lo_store x) file false) w1 in
       if decide (clock_now q < ses_expires_ms y)%N
       then r = Ok tt ∧ w_out w2 = w_out w1 ++ [identity_line sf y]
       else r = Err (Fail (CapabilityDenied "auth.session"))) ∧
    (∀ q file, store_read_fault q = None → TenantCli.resolve_session_path q file = path →
       let '(r, w2) := TenantCli.run_logout q (mkLogoutArgs (lo_store x) file) w1 in
       r = Ok tt ∧ fs_files (w_fs w2) = delete path (fs_files (w_fs w1)) ∧
       ∃ g2, opens (lo_store x) w2 = Ok g2 ∧ g2 = StoreState.set_sessions (StoreState.sessions g2) g1 ∧
         held tok g2 = [] ∧
         ∀ now, StoreState.validate_token now tok g2 = Err (CapabilityDenied "auth.session")).
Proof.
  intros Hq0 Hs Hi Hraw Hl path.
  destruct (login_spec _ _ _ _ _ Hq0 Hs Hl) as (plain&tid&uid&caps&tok&y&g1&Hpw&Ha&Hc&Hs1&js&Hjs&Hf).
  set (sf := mkSessionFile (token_str tok) (lo_tenant x) (lo_user x) (ses_expires_ms y)).
  destruct (minted_caps _ _ _ _ _ _ _ _ _ _ Hc) as (t&u&Ht&Hu&Huid&Hyt&Hyu&Hname&Hcaps&_).
  destruct (authenticated_name _ _ _ _ _ _ _ _ _ Hi Ha Ht Hu Huid) as [Hun Huc].
  assert (signed_in (lo_store x) path sf tok g1 w1) as Hin.
  { split; [done|by exists js|]. by eapply minted_token. }
  exists plain, tid, uid, caps, tok, y, sf, g1. do 2 (split; [done|]). split; [by exists js|].
  split; [apply Hin|]. do 2 (split; [done|]). split; [apply Hs1|]. split; [by eapply held_minted|].
  do 2 (split; [done|]). split; [by rewrite Hname|]. split; [by rewrite <-Huc|]. split.
  - intros q file Hq Hp.
    pose proof (whoami_spec q (mkWhoamiArgs (lo_store x) file false) _ _ _ _ _ _ Hin Hq eq_refl eq_refl Hp) as Hw.
    rewrite (minted_valid _ _ _ _ _ _ _ _ _ _ _ Hc) in Hw. destruct (TenantCli.run_whoami _ _ _). by case_decide.
  - intros q file Hq Hp.
    pose proof (logout_spec q (mkLogoutArgs (lo_store x) file) _ _ _ _ _ _ Hin Hq eq_refl Hp) as Hw.
    destruct (TenantCli.run_logout _ _ _) as [r w2]. destruct Hw as (->&[Ho2 _ _]&Hfs). split; [done|]. split; [done|].
    eexists. split; [done|]. split; [done|]. split; [apply held_revoked|]. intros. apply revoked_token.
Qed.
End session.

(** ** The standalone binary is the same program *)
Section agree.
Context `{HashOrder} `{AuthPrims} `{StateCodec} `{EventCodec} `{CliJson}.
Context (debug_reply : VmOpReply.t → string) (p : Process) (pkg_version : string).

(** The command of [celctl tenant] for a command of [celtenancy --store a]. *)
Definition same_command (a : Paths) (cmd : Celtenancy.Cmd) : option TenantCmd :=
  match cmd with
  | Celtenancy.Version => None
  | Celtenancy.Tenant (Celtenancy.TCreate x) =>
      Some (Create (mkTenantCreateArgs a (tc_name x) (tc_max_vcpus x) (tc_max_memory_mib x)
        (tc_max_storage_bytes x) (tc_max_network_mbps x) (tc_max_iops x) (tc_caps x)))
  | Celtenancy.Tenant Celtenancy.TList => Some (List a)
  | Celtenancy.Tenant (Celtenancy.TShow name) => Some (Show a name)
  | Celtenancy.Tenant (Celtenancy.TDelete name) => Some (Delete (mkTenantDeleteArgs a name false false false))
  | Celtenancy.User (Celtenancy.UAdd tenant name caps) => Some (UserOp (UserAdd (mkUserAddArgs a tenant name caps)))
  | Celtenancy.User (Celtenancy.UList tenant) => Some (UserOp (UserList a tenant))
  | Celtenancy.User (Celtenancy.URemove tenant name) => Some (UserOp (UserRemove a tenant name))
  | Celtenancy.Quota (Celtenancy.QShow tenant) => Some (QuotaOp (QuotaShow a tenant))
  | Celtenancy.Quota (Celtenancy.QCharge tenant c m s n i) => Some (QuotaOp (QuotaDoCharge (mkQuotaChangeArgs a tenant c m s n i)))
  | Celtenancy.Quota (Celtenancy.QRelease tenant c m s n i) => Some (QuotaOp (QuotaDoRelease (mkQuotaChangeArgs a tenant c m s n i)))
  end.

(** On a store file the two programs print the same and leave the same store. *)
Theorem binaries_agree a cmd cmd' w :
  same_command a cmd = Some cmd' →
  Celtenancy.main p pkg_version (Some a) cmd w = TenantCli.run debug_reply p cmd' w.
Proof. destruct cmd as [|[]|[]|[]]; simpl; intros [= <-]; reflexivity. Qed.
End agree.

(** ** Witnesses *)
Module CliWitness.
Import TenantWitness FileWitness.
Definition signed_up : list store_call := setup ++ [CSetPassword "salt" 2 1 "secret"].
Definition g0 : StoreState.t := store_run signed_up.
Definition g1 : StoreState.t := store_exec g0 (CCreateSession raw 1000 2 1 (TenantCaps.mk 3) (Some 5%N)).
#[export] Instance cli_codec : StateCodec := {
  encode_state g := Ok (table_print [g0; g1] g);
  decode_state b := ok_or (table_parse [g0; g1] b) "eof"
}.
#[export] Instance cli_codec_laws : StateCodecLaws.
Proof.
  constructor. intros g. exists (table_print [g0; g1] g). destruct (table_parse_print [g0; g1] g) as [Hp Hn].
  split; [done|]. split; [|done]. unfold decode_state, cli_codec. by rewrite Hp.
Qed.
#[export] Instance session_file_countable : EqDecision SessionFile.
Proof. solve_decision. Defined.
#[export] Instance session_file_count : Countable SessionFile.
Proof.
  by refine (inj_countable' (λ s, (sf_token s, sf_tenant s, sf_user s, sf_expires_ms s))
    (λ '(a, b, c, d), mkSessionFile a b c d) _); intros [].
Defined.
#[export] Instance cli_json : CliJson := {
  json_session sf := Ok (print_bits sf);
  parse_session bs := ok_or (parse_bits (String.string_of_list_byte bs)) "eof";
  json_exec _ := Err "unused"; json_events _ := Err "unused"; json_deleted _ := Err "unused";
  json_rotated _ := Err "unused"; json_object _ := Err "unused"
}.
#[export] Instance cli_json_laws : CliJsonLaws.
Proof.
  constructor. intros sf. exists (print_bits sf). split; [done|].
  unfold parse_session, cli_json. by rewrite String.string_of_list_byte_of_string, parse_print_bits.
Qed.

Definition vars : gmap string string := {["CELIUM_PASSWORD" := "secret"; "HOME" := "/home/ann"]}.
Definition proc (now : N) : Process := mkProcess (λ k, vars !! k) "salt" raw now [] None.
Definition world : World FileTenantStore.t :=
  mkWorld (mk paths StoreState.default_state (mkDisk (Some (marks 1)) None) []) (good ∅) (mkFileSink None []) [].
Definition sign_in : LoginArgs := mkLoginArgs paths "dev" "ann" (Some 5%N) None false.
Definition delete_all : TenantCmd := Delete (mkTenantDeleteArgs paths "acme" true true false).

Lemma world_sound : sound paths g0 world.
Proof. split; [|done|done]. vm_compute. reflexivity. Qed.
End CliWitness.

Section witnesses.
Import TenantWitness FileWitness AuditWitness CliWitness.

Lemma tenant_commands_exact_witness :
  planned (proc 1000) delete_all world g0 = [CDeleteRecursive 1] ∧
  inv (foldl store_exec g0 (take 0 (planned (proc 1000) delete_all world g0))) ∧
  ∃ n, (n ≤ 1)%nat ∧
    opens paths (TenantCli.run (λ _, EmptyString) (proc 1000) delete_all world).2 =
      Ok (foldl store_exec g0 (take n [CDeleteRecursive 1])).
Proof.
  assert (planned (proc 1000) delete_all world g0 = [CDeleteRecursive 1]) as Hp by (vm_compute; reflexivity).
  pose proof (tenant_commands_exact (λ _, EmptyString) (proc 1000) ltac:(discriminate) delete_all paths g0 world eq_refl eq_refl
    (so_disk _ _ _ world_sound) (store_run_inv signed_up)) as H. rewrite Hp in *.
  destruct (TenantCli.run _ _ _ _) as [r w']. destruct H as (n&Hn&Ho&_&_).
  split; [done|]. split; [exact (store_run_inv signed_up)|]. exists n. by split.
Defined.

Lemma session_lifecycle_witness :
  ∃ tok y sf g1, ses_user_name y = "ann" ∧ sf_tenant sf = "dev" ∧ held tok g1 = [y] ∧
    let w1 := (TenantCli.run_login (proc 1000) sign_in world).2 in
    (let '(r, w2) := TenantCli.run_whoami (proc 5999) (mkWhoamiArgs paths None false) w1 in
     if decide (5999 < ses_expires_ms y)%N then r = Ok tt ∧ w_out w2 = w_out w1 ++ [identity_line sf y]
     else r = Err (Fail (CapabilityDenied "auth.session"))) ∧
    (TenantCli.run_logout (proc 2000) (mkLogoutArgs paths None) w1).1 = Ok tt.
Proof.
  set (o := TenantCli.run_login (proc 1000) sign_in world).
  assert (o = (Ok tt, o.2)) as Ho.
  { assert (is_ok o.1 = true) as Hok by (vm_compute; reflexivity). by destruct o as [[[]|e] w1]. }
  destruct (session_lifecycle (proc 1000) sign_in g0 world o.2 eq_refl world_sound (store_run_inv signed_up) eq_refl Ho)
    as (plain&tid&uid&caps&tok&y&sf&g1&_&_&_&_&Ht&_&_&Hh&_&_&Hn&_&Hw&Hl).
  exists tok, y, sf, g1. split; [exact Hn|]. split; [exact Ht|]. split; [exact Hh|]. split.
  - exact (Hw (proc 5999) None eq_refl eq_refl).
  - pose proof (Hl (proc 2000) None eq_refl eq_refl) as Hl'.
    change (mkLogoutArgs paths None) with (mkLogoutArgs (lo_store sign_in) None). cbv zeta.
    destruct (TenantCli.run_logout (proc 2000) (mkLogoutArgs (lo_store sign_in) None) o.2) as [r w2]. exact (proj1 Hl').
Defined.

(** [logout] throws the answer of the store away: when the revocation cannot be
    written it reports success and removes the session file, while the token
    stays valid for everybody who opens the store. *)
Example logout_reports_unrevoked :
  let w1 := (TenantCli.run_login (proc 1000) sign_in world).2 in
  let full := mkWorld (mk paths (fs_inner (w_store w1)) (fs_disk (w_store w1)) [Some (FWrite 0 "no space left on device")])
                (w_fs w1) (w_log w1) (w_out w1) in
  let '(r, w2) := TenantCli.run_logout (proc 2000) (mkLogoutArgs paths None) full in
  r = Ok tt ∧ w_out w2 = w_out w1 ++ ["logout ok: /home/ann/.celium/session.json removed"] ∧
  match opens paths w2 with
  | Ok g => is_ok (StoreState.validate_token 3000 (mkToken (hex_of raw)) g) = true
  | Err _ => False
  end.
Proof. vm_compute. by repeat split. Qed.
End witnesses.

(** ** [tenant tree] prints the forest of tenants *)
Import StoreState TenantCli.

(** The lines of a forest in pre-order: the trees below [par], whose roots are
    indented by [d]. *)
Inductive forest : option TenantId → nat → list (nat * Tenant) → Prop :=
| forest_nil par d : forest par d []
| forest_tree par d x below rest :
    t_parent x = par → forest (Some (t_id x)) (S d) below → forest par d rest →
    forest par d ((d, x) :: below ++ rest).

Section tree.
Context `{HashOrder} `{AuthPrims}.
Context (g : StoreState.t) (Hi : inv g).
Abbreviation all := (list_tenants g).
Abbreviation anc := (ancestry (tenants g)).
Abbreviation rows := (list (nat * Tenant)).

Lemma elem_of_all x : x ∈ all ↔ tenants g !! t_id x = Some x.
Proof.
  unfold list_tenants. rewrite merge_sort_Permutation, elem_of_hash_values. split; [|eauto].
  intros (id&Hx). destruct (inv_tenant _ Hi _ _ Hx) as [Hid _ _ _ _ _ _ _]. by rewrite Hid.
Qed.
Lemma NoDup_ids : NoDup (t_id <$> all).
Proof.
  unfold list_tenants. rewrite merge_sort_Permutation, hash_values_perm.
  assert (t_id <$> (map_to_list (tenants g)).*2 = (map_to_list (tenants g)).*1) as ->.
  { rewrite <-list_fmap_compose. apply list_fmap_ext. intros i [k x] Hl. simpl.
    apply (inv_tenant _ Hi). apply elem_of_map_to_list. by eapply list_elem_of_lookup_2. }
  apply NoDup_fst_map_to_list.
Qed.
Lemma NoDup_all : NoDup all.
Proof. eapply NoDup_fmap_1, NoDup_ids. Qed.

Lemma anc_of x : x ∈ all → ∃ ln, anc (Some (t_id x)) (t_id x :: ln) ∧ anc (t_parent x) ln.
Proof.
  intros Hx%elem_of_all. destruct (ancestry_exists g Hi _ _ Hx) as (l&Hl&_&_).
  inversion Hl; simplify_eq. eauto.
Qed.
(** The part of a chain above one of its members. *)
Lemma anc_above cur l k ln : anc cur (l ++ k :: ln) → ∃ x, tenants g !! k = Some x ∧ anc (t_parent x) ln.
Proof.
  revert cur. induction l as [|a l IH]; intros cur Ha; inversion Ha; simplify_eq; [eauto|]. by eapply IH.
Qed.
Lemma anc_head cur k ln : anc cur (k :: ln) → cur = Some k.
Proof. by inversion 1. Qed.

(** The tenants below (and at) a child [k] of the chain [ln]. *)
Definition under (ln : list TenantId) (k x : Tenant) : Prop :=
  x ∈ all ∧ ∃ l, anc (Some (t_id x)) (l ++ t_id k :: ln).

Lemma under_fun ln k1 k2 x : k1 ∈ all → k2 ∈ all → under ln k1 x → under ln k2 x → k1 = k2.
Proof.
  intros Hk1%elem_of_all Hk2%elem_of_all [_ [l1 H1]] [_ [l2 H2]].
  pose proof (ancestry_fun _ _ _ _ H1 H2) as E. apply app_inj_2 in E as [_ [= E]]; [|done]. congruence.
Qed.

(** How many tenants have no smaller id. *)
Definition from (id : TenantId) : nat := length (retain (λ x, bool_decide (id ≤ t_id x)%N) all).
Lemma retain_lt {A} (p q : A → bool) l x :
  x ∈ l → q x = true → p x = false → (∀ y, p y = true → q y = true) →
  (length (retain p l) < length (retain q l))%nat.
Proof.
  intros Hx Hqx Hpx Hpq. assert (∀ l, (length (retain p l) ≤ length (retain q l))%nat) as Hle.
  { unfold retain. induction l0 as [|y l0 IH]; simpl; [done|].
    destruct (p y) eqn:Ep; [rewrite (Hpq _ Ep); simpl; lia|]. destruct (q y); simpl; lia. }
  unfold retain in *. induction l as [|y l IH]; [by apply elem_of_nil in Hx|]. simpl.
  apply elem_of_cons in Hx as [->|Hx].
  - rewrite Hpx, Hqx. simpl. pose proof (Hle l). lia.
  - specialize (IH Hx). destruct (p y) eqn:Ep; [rewrite (Hpq _ Ep); simpl; lia|]. destruct (q y); simpl; lia.
Qed.
Lemma from_kid k node : node ∈ all → k ∈ all → t_parent k = Some (t_id node) → (from (t_id k) < from (t_id node))%nat.
Proof.
  intros Hn Hk%elem_of_all Hp. destruct (inv_tenant _ Hi _ _ Hk) as [_ _ _ _ _ _ Hpar _].
  destruct (Hpar _ Hp) as [Hlt _]. apply (retain_lt _ _ _ node Hn).
  - by apply bool_decide_eq_true.
  - apply bool_decide_eq_false. lia.
  - intros y Hy%bool_decide_eq_true. apply bool_decide_eq_true. lia.
Qed.

(** Printing the trees of a list of siblings. *)
Lemma forest_of ln par d (f : Tenant → option rows) kids :
  NoDup kids →
  (∀ k, k ∈ kids → k ∈ all ∧ t_parent k = par ∧
     ∃ below, f k = Some ((d, k) :: below) ∧ forest (Some (t_id k)) (S d) below ∧
       NoDup ((d, k) :: below).*2 ∧ ∀ x, x ∈ ((d, k) :: below).*2 ↔ under ln k x) →
  ∃ rss, mapM f kids = Some rss ∧ forest par d (concat rss) ∧ NoDup (concat rss).*2 ∧
    ∀ x, x ∈ (concat rss).*2 ↔ ∃ k, k ∈ kids ∧ under ln k x.
Proof.
  induction kids as [|k kids IH]; intros Hnd Hk.
  - exists []. split; [done|]. split; [constructor|]. split; [constructor|].
    intros x. split; [by intros ?%elem_of_nil|by intros (k&?%elem_of_nil&_)].
  - apply NoDup_cons in Hnd as [Hni Hnd].
    destruct (Hk k) as (Hka&Hkp&below&Hf&Hfor&Hndb&Hin); [by left|].
    destruct IH as (rss&Hrss&Hforest&Hndr&Hins); [done|intros; apply Hk; by right|].
    exists (((d, k) :: below) :: rss). split; [|split; [|split]].
    + simpl. rewrite Hf. simpl. by rewrite Hrss.
    + by constructor.
    + change (concat (((d, k) :: below) :: rss)) with (((d, k) :: below) ++ concat rss).
      rewrite fmap_app. apply NoDup_app. split; [done|]. split; [|done].
      intros x Hx1%Hin (k'&Hk'&Hx2)%Hins. apply Hni. destruct (Hk k') as [Hk'a _]; [by right|].
      by rewrite (under_fun ln k k' x).
    + intros x. change (concat (((d, k) :: below) :: rss)) with (((d, k) :: below) ++ concat rss).
      rewrite fmap_app, elem_of_app, Hin, Hins. split.
      * intros [?|(k'&?&?)]; [exists k; split; [by left|done]|exists k'; split; [by right|done]].
      * intros (k'&[->|?]%elem_of_cons&?); [by left|right; eauto].
Qed.

Lemma elem_of_kids par k : k ∈ kids_of all par ↔ k ∈ all ∧ t_parent k = par.
Proof. unfold kids_of. by rewrite elem_of_retain, bool_decide_eq_true. Qed.
Lemma NoDup_kids par : NoDup (kids_of all par).
Proof. apply NoDup_retain, NoDup_all. Qed.

(** A tenant under [node] is [node], or under one of its children. *)
Lemma under_cases ln node x :
  node ∈ all → under ln node x ↔
  x = node ∧ anc (Some (t_id node)) (t_id node :: ln) ∨
  ∃ k, k ∈ kids_of all (Some (t_id node)) ∧ under (t_id node :: ln) k x.
Proof.
  intros Hn. split.
  - intros [Hx (l&Hl)]. destruct l as [|k l _] using rev_ind.
    + left. simpl in Hl. pose proof (anc_head _ _ _ Hl) as [= E]. split; [|by rewrite E in Hl].
      apply elem_of_all in Hx, Hn. congruence.
    + right. rewrite <-app_assoc in Hl. simpl in Hl. destruct (anc_above _ _ _ _ Hl) as (kx&Hkx&Hpar).
      pose proof (inv_tenant _ Hi _ _ Hkx) as [Hid _ _ _ _ _ _ _]. exists kx. split.
      * apply elem_of_kids. rewrite elem_of_all, Hid. split; [done|]. by apply anc_head in Hpar.
      * split; [done|]. exists l. by rewrite Hid.
  - intros [[-> Ha]|(k&_&Hx&l&Hl)].
    + split; [done|]. by exists [].
    + split; [done|]. exists (l ++ [t_id k]). by rewrite <-app_assoc.
Qed.

Lemma print_spec fuel d node ln :
  node ∈ all → anc (Some (t_id node)) (t_id node :: ln) → (from (t_id node) ≤ fuel)%nat →
  ∃ below, print_subtree all fuel d node = Some ((d, node) :: below) ∧
    forest (Some (t_id node)) (S d) below ∧ NoDup ((d, node) :: below).*2 ∧
    ∀ x, x ∈ ((d, node) :: below).*2 ↔ under ln node x.
Proof.
  revert d node ln. induction fuel as [|fuel IH]; intros d node ln Hn Ha Hf.
  { assert (0 < from (t_id node))%nat; [|lia].
    apply (Nat.le_lt_trans _ (length (retain (λ _, false) all))); [lia|].
    apply (retain_lt _ _ _ node Hn); [by apply bool_decide_eq_true|done|done]. }
  destruct (forest_of (t_id node :: ln) (Some (t_id node)) (S d) (print_subtree all fuel (S d))
    (kids_of all (Some (t_id node))) (NoDup_kids _)) as (rss&Hrss&Hforest&Hnd&Hin).
  { intros k [Hk Hp]%elem_of_kids. split; [done|]. split; [done|]. apply IH; [done| |].
    - apply anc_step with k; [by apply elem_of_all|by rewrite Hp].
    - pose proof (from_kid k node Hn Hk Hp). lia. }
  exists (concat rss). split; [simpl; by rewrite Hrss|]. split; [done|]. split.
  - change (NoDup (node :: (concat rss).*2)). apply NoDup_cons. split; [|done].
    intros (k&_&_&l&Hl)%Hin. pose proof (ancestry_fun _ _ _ _ Ha Hl) as E.
    apply (f_equal length) in E. rewrite length_app in E. simpl in E. lia.
  - intros x. change (x ∈ node :: (concat rss).*2 ↔ under ln node x).
    rewrite elem_of_cons, Hin, under_cases by done. naive_solver.
Qed.

Lemma from_le id : (from id ≤ length all)%nat.
Proof. apply retain_length. Qed.
End tree.

Section theorem.
Context `{HashOrder} `{AuthPrims}.

(** C24: [tenant tree] always ends, and prints exactly the tenants there are: on
    every store that satisfies the invariant, whatever order its map iterates
    in, the recursion is no deeper than the number of tenants, every tenant is
    printed exactly once, and the lines are the pre-order of the forest of
    tenants, each indented one step more than the parent it stands under. *)
Theorem tree_prints_forest g :
  inv g →
  ∃ rows, tree_of (list_tenants g) = Some rows ∧ forest None 0 rows ∧ rows.*2 ≡ₚ list_tenants g.
Proof.
  intros Hi. destruct (forest_of g Hi [] None 0 (print_subtree (list_tenants g) (length (list_tenants g)) 0)
    (kids_of (list_tenants g) None) (NoDup_kids g Hi None)) as (rss&Hrss&Hforest&Hnd&Hin).
  { intros k [Hk Hp]%elem_of_kids. split; [done|]. split; [done|].
    apply (print_spec g Hi); [done| |apply from_le].
    apply anc_step with k; [by apply elem_of_all|rewrite Hp; constructor]. }
  exists (concat rss). split; [unfold tree_of; by rewrite Hrss|]. split; [done|].
  apply NoDup_Permutation; [done|by apply NoDup_all|]. intros x. rewrite Hin. split.
  - by intros (k&_&Hx&_).
  - intros Hx. apply elem_of_all in Hx as Hx'; [|done].
    destruct (ancestry_exists g Hi _ _ Hx') as (l&Hl&_&_). destruct l as [|k l _] using rev_ind; [inversion Hl|].
    destruct (anc_above g _ _ _ _ Hl) as (kx&Hkx&Hpar).
    pose proof (inv_tenant _ Hi _ _ Hkx) as [Hid _ _ _ _ _ _ _]. exists kx. split.
    + apply elem_of_kids. rewrite (elem_of_all g Hi), Hid. split; [done|]. inversion Hpar. done.
    + split; [done|]. exists l. by rewrite Hid.
Qed.
End theorem.

Section witness.
Import TenantWitness.
Lemma tree_prints_forest_witness :
  ∃ rows, tree_of (list_tenants (store_run setup)) = Some rows ∧ forest None 0 rows.
Proof.
  destruct (tree_prints_forest (store_run setup) (store_run_inv setup)) as (rows&Hr&Hf&_). by exists rows.
Defined.
End witness.
