(* ===== verification/Celctl.v ===== *)
(** * Celctl: the commands of [celctl]

    crates/celcli/src/main.rs: the [vm] and [image] commands over the controller
    of Controller.v, the [cluster] commands over [Mesh::invoke] (an argument,
    as in K8s.v), and the text every command prints.  clap parses the command
    line into the records; the mesh a cluster command starts, its settling time
    and its shutdown are those of Mesh.v and the runtime.  The rendering of a
    floating-point quotient and derived [Debug] texts are arguments. *)
From S2P Require Import Prelude.
From S2P Require Import Text.
From S2P Require Import Errors.
From S2P Require Import Vault.
From S2P Require Import Files.
From S2P Require Import DiskFile.
From S2P Require Import DiskImage.
From S2P Require Import Images.
From S2P Require Import Network.
From S2P Require Import Federation.
From S2P Require Import Membership.
From S2P Require Import Proto.
From S2P Require Import Host.
From S2P Require Import Hyper.
From S2P Require Import Mesh.
From S2P Require Import Controller.
From S2P Require Import Console.
From Stdlib Require Import Strings.Byte.

(** ** Sizes *)
Fixpoint split_digits (s : string) : string * string :=
  match s with
  | String c s' => if is_ascii_digit c then let '(l, r) := split_digits s' in (String c l, r) else (EmptyString, s)
  | EmptyString => (EmptyString, EmptyString)
  end.
(** [trim_end_matches(c)]. *)
Fixpoint trim_end_char (c : ascii) (s : string) : string :=
  match s with
  | EmptyString => EmptyString
  | String a s' =>
      match trim_end_char c s' with
      | EmptyString => if Ascii.eqb a c then EmptyString else String a EmptyString
      | r => String a r
      end
  end.
Definition to_ascii_upper (c : ascii) : ascii := if is_ascii_lower c then ascii_of_N (byte_of c - 32) else c.
Definition KIB : N := 1024.
Definition MIB : N := 1024 * 1024.
Definition GIB : N := 1024 * 1024 * 1024.
Definition TIB : N := 1024 * 1024 * 1024 * 1024.
(** The unit a suffix names. *)
Definition unit_of (suffix : string) : option N :=
  let s := str_map to_ascii_upper (trim_end_char "b" (trim_end_char "B" suffix)) in
  if str_is_empty s then Some 1%N
  else if bool_decide (s = "K" ∨ s = "KI") then Some KIB
  else if bool_decide (s = "M" ∨ s = "MI") then Some MIB
  else if bool_decide (s = "G" ∨ s = "GI") then Some GIB
  else if bool_decide (s = "T" ∨ s = "TI") then Some TIB
  else None.
Definition parse_size_to_mib (s : string) : CelResult N :=
  let s := trim s in
  if str_is_empty s then Err (Invalid "memory: empty")
  else
    let '(num, suffix) := split_digits s in
    n ← ok_or (parse_uint 64 num) (Invalid "memory: not a non-negative integer");
    u ← ok_or (unit_of suffix) (Invalid "memory: unknown suffix");
    bytes ← ok_or (checked_mul 64 n u) (Invalid "memory: overflow");
    if (bytes =? 0)%N then Err (Invalid "memory: zero")
    else if negb (bytes mod MIB =? 0)%N then Err (Invalid "memory: not a multiple of 1 MiB")
    else Ok (bytes / MIB)%N.

(** [format!("{:.2}", bytes as f64 / div as f64)]. *)
Definition human_size (two_decimals : N → N → string) (bytes : N) : string :=
  let fix go (units : list (N * string)) :=
    match units with
    | [] => fmt_u bytes +:+ " B"
    | (div, label) :: units =>
        if (div <=? bytes)%N
        then if (bytes mod div =? 0)%N then fmt_u (bytes / div) +:+ " " +:+ label
             else two_decimals bytes div +:+ " " +:+ label
        else go units
    end in
  go [(TIB, "TiB"); (GIB, "GiB"); (MIB, "MiB"); (KIB, "KiB")].

(** ** The terminal: what a command works on, and what it has printed *)
Record Term (X : Type) := mkTerm { tm : X; out : list string }.
Arguments mkTerm {X}.
Arguments tm {X}.
Arguments out {X}.
Section term.
Context {X : Type}.
Definition say (l : list string) : st (Term X) Fault unit := modify (λ t, mkTerm (tm t) (out t ++ l)).
Definition act {A} (m : st X Fault A) : st (Term X) Fault A := zoom tm (λ x t, mkTerm x (out t)) m.
Definition note {A} (f : X → CelResult A) : st (Term X) Fault A := λ t, (map_err Fail (f (tm t)), t).
End term.

(** ** [celctl vm] and [celctl image] *)
Inductive VmCmd :=
| VCreate (label : string) (image : option string) (cpu : option N) (memory : option string)
| VList
| VStart (target : string)
| VStop (target : string)
| VState (target : string)
| VReset (target : string)
| VStats.
Inductive ImageCmd := Inspect (path : string) | Checksum (path : string).
Definition default_state_path : string := "build/celctl-state.json".
Definition default_stage_root : string := "build/stage".

(** The image column of [vm list]: the slice [&img[img.len() - 23..]] panics
    inside a character. *)
Definition ellipsis : string :=
  String (ascii_of_N 226) (String (ascii_of_N 128) (String (ascii_of_N 166) EmptyString)).
Definition img_trunc (img : string) : result Fault string :=
  if (24 <? len img)%N then
    let n := (String.length img - 23)%nat in
    if Mesh.is_char_boundary img n then Ok (ellipsis +:+ String.substring n 23 img)
    else Err (Panic "byte index is not a char boundary")
  else Ok img.
Definition vm_row (id state exit cpu mem img label : string) : string :=
  right_pad 4 id +:+ "  " +:+ left_pad 8 state +:+ "  " +:+ left_pad 10 exit +:+ "  " +:+ left_pad 4 cpu
  +:+ "  " +:+ left_pad 8 mem +:+ "  " +:+ left_pad 24 img +:+ "  " +:+ label.

Section vm.
Context {K : Type} (pid : N) (sink : bytes → st K CelError N).
Abbreviation Sys := (Ctl.Sys K).
Abbreviation M := (st (Term Sys) Fault).
Definition on_controller {A} (m : Ctl.M A) : M A := act (Ctl.on_ctl m).
Definition of_controller {A} (f : Ctl.t → CelResult A) : M A := note (λ s, f (Ctl.controller s)).

(** A computation on the image file at a path. *)
Definition on_image {A} (path : string) (m : DiskFile.M A) : st (Controller.World K) Fault A := λ w,
  match fs_files (Controller.w_fs w) !! path with
  | None => (Err (Fail (Io ("open " +:+ path +:+ ": " +:+ os_not_found))), w)
  | Some b =>
      let '(r, h) := m (mkHandle b 0 (w_reads w)) in
      (r, Controller.mkWorld (Controller.w_fs w) (h_outcomes h) (w_sink w))
  end.

Definition resolve (target : string) (c : Ctl.t) : CelResult N :=
  match parse_uint 32 target with
  | Some n => Ctl.resolve_path ("/vms/" +:+ fmt_u n) c
  | None => Ctl.resolve_path target c
  end.

(** [a.memory.as_deref().map(parse_size_to_mib).transpose()]. *)
Definition parse_memory (memory : option string) : CelResult (option N) :=
  match memory with Some m => n ← parse_size_to_mib m; Ok (Some n) | None => Ok None end.
Fixpoint list_rows (rows : list Ctl.VmRecord) : M unit :=
  match rows with
  | [] => mret tt
  | r :: rows =>
      img ← try (img_trunc (default "-" (Ctl.image_path r)));
      _ ← say [vm_row (fmt_u (Ctl.id r)) (Ctl.tag (Ctl.state r)) (dash (Ctl.last_exit r)) (dash (Ctl.cpu_count r))
                 (dash (Ctl.memory_mib r)) img (Ctl.label r)];
      list_rows rows
  end.
Definition fmt_n (n : nat) : string := fmt_u (N.of_nat n).
Definition stats_lines (s : Ctl.Stats) : list string :=
  ["slots          " +:+ fmt_n (Ctl.allocated s) +:+ "/" +:+ fmt_n (Ctl.slots_total s) +:+ " used ("
     +:+ fmt_n (Ctl.slots_free s) +:+ " free)";
   "created        " +:+ fmt_n (Ctl.created s); "running        " +:+ fmt_n (Ctl.running s);
   "halted         " +:+ fmt_n (Ctl.halted s); "stopped        " +:+ fmt_n (Ctl.stopped s);
   "faulted        " +:+ fmt_n (Ctl.faulted s); "with_boot_blob " +:+ fmt_n (Ctl.with_boot_blob s)].
Definition moved (verb : string) (id : N) (s : Ctl.VmState) : string :=
  verb +:+ " " +:+ fmt_u id +:+ " -> " +:+ Ctl.tag s.

Definition run_vm_cmd (op : VmCmd) : M unit :=
  match op with
  | VCreate label image cpu memory =>
      _ ← match image with
          | Some path => _ ← act (Ctl.on_world (on_image path (inspect path))); mret tt
          | None => mret tt
          end;
      mib ← try (map_err Fail (parse_memory memory));
      id ← on_controller (Ctl.create_vm_with (Ctl.mkVmSpec label image cpu mib));
      say ["created " +:+ fmt_u id +:+ " (" +:+ Ctl.path_for id +:+ ")"]
  | VList =>
      t ← get_st;
      _ ← say [vm_row "id" "state" "last_exit" "cpu" "mem_mib" "image" "label"];
      list_rows (Ctl.list_vms (Ctl.controller (tm t)))
  | VStart target =>
      id ← of_controller (resolve target);
      s ← act (Ctl.start_vm pid sink id);
      say [moved "started" id s]
  | VStop target =>
      id ← of_controller (resolve target);
      s ← on_controller (Ctl.stop_vm id);
      say [moved "stopped" id s]
  | VState target =>
      id ← of_controller (resolve target);
      s ← of_controller (Ctl.vm_state id);
      say [Ctl.path_for id +:+ " " +:+ Ctl.tag s]
  | VReset target =>
      id ← of_controller (resolve target);
      s ← on_controller (Ctl.reset_vm id);
      say [moved "reset" id s]
  | VStats => t ← get_st; say (stats_lines (Ctl.stats (Ctl.controller (tm t))))
  end.

(** [Cmd::Vm]: load, connect the bridge if [CELIUM_BRIDGE_TCP] names one
    ([connect_error]: the connection fails), run, save. *)
Context `{Ctl.StateJson}.
Definition set_controller (c : Ctl.t) : M unit :=
  modify (λ t, mkTerm (Ctl.mkSys c (Ctl.world (tm t))) (out t)).
Definition connect_bridge (bridge connect_error : option string) (c : Ctl.t) : M Ctl.t :=
  match bridge with
  | Some addr =>
      if str_is_empty (trim addr) then mret c
      else match connect_error with
           | Some e => mthrow (Fail (Io ("celhyper-serial connect " +:+ addr +:+ ": " +:+ e)))
           | None => _ ← say ["celctl: vm bridge=celhyper-serial:" +:+ addr]; mret (Ctl.with_stage_sink c)
           end
  | None => mret c
  end.
Definition vm_main (state_file : option string) (bridge connect_error : option string) (op : VmCmd) : M unit :=
  c ← act (Ctl.on_world (Ctl.load (default default_state_path state_file)));
  c ← connect_bridge bridge connect_error (Ctl.with_stage_root default_stage_root c);
  _ ← set_controller c;
  _ ← run_vm_cmd op;
  t ← get_st;
  act (Ctl.on_world (Ctl.save pid (Ctl.controller (tm t)))).
End vm.

Section image.
Context {K : Type} (two_decimals : N → N → string).
Abbreviation M := (st (Term (Controller.World K)) Fault).
Definition format_tag (i : ImageInfo) : string := DiskImage.tag (ii_format i).
Definition size_line (n : N) : string :=
  "virtual_size   " +:+ fmt_u n +:+ " (" +:+ human_size two_decimals n +:+ ")".
Definition checksum (img : AnyImage) : DiskFile.M (N * ImageInfo) := λ _,
  let '(r, img) := full_image_crc32c img in
  (match r with Ok c => Ok (c, info img) | Err e => Err e end, image_file img).
Definition checksum_of (path : string) : DiskFile.M (N * ImageInfo) :=
  img ← Images.open path; checksum img.
Definition run_image_cmd (op : ImageCmd) : M unit :=
  match op with
  | Inspect path =>
      i ← act (on_image path (inspect path));
      say ["path           " +:+ path; "format         " +:+ format_tag i; "backend        " +:+ ii_backend i;
           size_line (ii_virtual_size i); "cluster_size   " +:+ dash (ii_cluster_size i)]
  | Checksum path =>
      '(crc, i) ← act (on_image path (checksum_of path));
      say ["path           " +:+ path; "format         " +:+ format_tag i; size_line (ii_virtual_size i);
           "crc32c         " +:+ fmt_hex8 crc]
  end.
End image.
