(* ===== verification/CelctlProofs.v ===== *)
(** * CelctlProofs: what the VM commands do

    Sizes are read exactly; the bytes [vol read] prints are those [vol write]
    takes; a [celctl vm] command is one operation of the controller on the
    state file, all or nothing. *)
From S2P Require Import Prelude.
From S2P Require Import Text.
From S2P Require Import Codecs.
From S2P Require Import Errors.
From S2P Require Import AuditLog.
From S2P Require Import Vault.
From S2P Require Import VaultProofs.
From S2P Require Import Files.
From S2P Require Import DiskFile.
From S2P Require Import DiskImage.
From S2P Require Import Images.
From S2P Require Import Hyper.
From S2P Require Import Console.
From S2P Require Import Controller.
From S2P Require Import ControllerProofs.
From S2P Require Import Celctl.
From Stdlib Require Import Strings.Byte.
Import Ctl.

(** ** Frames *)
Section keeps.
Context {K : Type}.
Implicit Types (w : Controller.World K) (p q : string).

(** [m] leaves the file [p] alone, whatever happens. *)
Definition keeps {A} p (m : st (Controller.World K) Fault A) : Prop :=
  ∀ w, fs_files (w_fs (m w).2) !! p = fs_files (w_fs w) !! p.

Lemma keeps_ret {A} p (a : A) : keeps p (mret a).
Proof. done. Qed.
Lemma file_kept_bind {A B} p (m : st (Controller.World K) Fault A) (k : A → st (Controller.World K) Fault B) :
  keeps p m → (∀ a, keeps p (k a)) → keeps p (mbind k m).
Proof.
  intros Hm Hk w. unfold mbind, st_bind. specialize (Hm w). destruct (m w) as [[a|e] w']; simpl in *; [|done].
  by rewrite Hk.
Qed.
Lemma keeps_bail p b e : keeps p (bail_if b e).
Proof. intros w. by destruct b. Qed.
Lemma keeps_on_fs {A} p what (m : st Fs string A) :
  (∀ d, fs_files (m d).2 !! p = fs_files d !! p) → keeps p (on_fs what m).
Proof. intros Hm w. unfold on_fs. specialize (Hm (w_fs w)). by destruct (m (w_fs w)). Qed.
Lemma keeps_mkdir p what : keeps p (on_fs what create_dir_all).
Proof. apply keeps_on_fs. intros d. unfold create_dir_all. by rewrite syscall_files. Qed.
Lemma keeps_read p q what : keeps p (on_fs what (fs_read q)).
Proof. apply keeps_on_fs. intros d. pose proof (read_files q d) as Hr. destruct (fs_read q d) as [r d']. simpl. by rewrite (proj1 Hr). Qed.
Lemma keeps_replace p tmp dst bs : tmp ≠ dst → p ≠ tmp → p ≠ dst → keeps p (replace_file tmp dst bs).
Proof.
  intros Hne Ht Hd w. pose proof (replace_file_spec tmp dst bs w Hne) as Hr.
  destruct (replace_file tmp dst bs w) as [r w']. destruct Hr as (_&_&Hq&_). by apply Hq.
Qed.
Lemma keeps_read_page p img : keeps p (read_page img).
Proof.
  intros w. unfold read_page. destruct (fs_files (w_fs w) !! img); [|done].
  by destruct (first_page img _) as [? ?].
Qed.
Lemma keeps_image {A} p path (m : DiskFile.M A) : keeps p (on_image path m).
Proof. intros w. unfold on_image. destruct (fs_files (w_fs w) !! path); [|done]. by destruct (m _). Qed.
End keeps.

#[export] Hint Resolve keeps_ret keeps_bail keeps_mkdir keeps_read keeps_read_page keeps_image : keeps.
#[export] Hint Extern 2 (keeps _ (mbind _ _)) => apply file_kept_bind; [|intros ?] : keeps.

(** ** Starting touches the staged files only *)
Section frame.
Context {K : Type} (pid : N) (sink : bytes → st K CelError N).

Definition unstaged (root p : string) : Prop := ∀ vm, p ≠ blob_tmp pid root vm ∧ p ≠ blob_file root vm.

Lemma keeps_fresh p img root r sunk : unstaged root p → keeps p (fresh_digest pid sink img root r sunk).
Proof.
  intros Hp. destruct (Hp (id r)) as [Ht Hb].
  assert (∀ bs, keeps (K:=K) p (replace_file (blob_tmp pid root (id r)) (blob_file root (id r)) bs)) as Hr
    by (intros; apply keeps_replace; auto using blob_tmp_ne).
  assert (∀ bs, keeps (K:=K) p (to_sink sink bs)) as Hk
    by (intros bs w; unfold to_sink; by destruct (sink bs (w_sink w))).
  assert (keeps (K:=K) p (stage_boot_blob pid img root (id r))) by (unfold stage_boot_blob; auto 12 with keeps).
  assert (∀ d, keeps (K:=K) p (ship_blob sink d)) by (intros d; unfold ship_blob; auto 12 with keeps).
  unfold fresh_digest. destruct sunk; auto 12 with keeps.
Qed.

Lemma start_frame p vm (s : Sys K) :
  (∀ root, stage_root (controller s) = Some root → unstaged root p) →
  fs_files (w_fs (world (start_vm pid sink vm s).2)) !! p = fs_files (w_fs (world s)) !! p.
Proof.
  intros Hp. unfold start_vm, get_st, try. unfold mbind at 1, st_bind at 1. cbv beta iota zeta.
  unfold mbind at 1, st_bind at 1. destruct (startable vm (controller s)) as [r|e]; simpl; [|done].
  destruct (image_path r) as [img|]; [|done]. destruct (stage_root (controller s)) as [root|]; [|done].
  unfold mbind, st_bind, on_world, zoom.
  pose proof (keeps_fresh p img root r (stage_sink (controller s)) (Hp root eq_refl) (world s)) as Hk.
  by destruct (fresh_digest pid sink img root r _ (world s)) as [[d|e] w1].
Qed.
End frame.

(** ** One command, one operation *)
Section command.
Context {K : Type} (pid : N) (sink : bytes → st K CelError N).
Abbreviation T := (Term (Sys K)).
Implicit Types (t : T) (s : Sys K) (p : string).

(** The operation a command stands for. *)
Definition op_of (cmd : VmCmd) (c : Ctl.t) : CelResult (option op) :=
  match cmd with
  | VCreate l image cpu memory => mib ← parse_memory memory; Ok (Some (OpCreate (mkVmSpec l image cpu mib)))
  | VStart x => vm ← resolve x c; Ok (Some (OpStart vm))
  | VStop x => vm ← resolve x c; Ok (Some (OpStop vm))
  | VReset x => vm ← resolve x c; Ok (Some (OpReset vm))
  | VState _ | VList | VStats => Ok None
  end.
Definition run_opt (o : option op) s : Sys K := match o with Some o => run_op pid sink o s | None => s end.
Definition disk s : gmap string bytes := fs_files (w_fs (world s)).

(** The command ran as one operation from a world with the same files. *)
Definition ran (cmd : VmCmd) s s' : Prop :=
  ∃ w o, fs_files (w_fs w) = disk s ∧ op_of cmd (controller s) = Ok o ∧ s' = run_opt o (mkSys (controller s) w).

Lemma ran_here cmd o s s' : op_of cmd (controller s) = Ok o → s' = run_opt o s → ran cmd s s'.
Proof. intros Ho ->. exists (world s), o. by destruct s. Qed.

Lemma list_rows_quiet rows : ∀ t, tm (list_rows rows t).2 = tm t.
Proof.
  induction rows as [|r rows IH]; intros t; [done|]. simpl. unfold try, say, modify, mbind, st_bind.
  destruct (img_trunc _) as [img|e]; [|done]. by rewrite IH.
Qed.
Lemma on_ctl_world {A} (m : Ctl.M A) s : world (on_ctl m s).2 = world s.
Proof. unfold on_ctl. by destruct (m (controller s)). Qed.

(** A command on one VM. *)
Lemma targeted_spec {A} (x : string) (cmd : VmCmd) (o : N → op) (m : N → st (Sys K) Fault A) (f : N → A → string) p t :
  op_of cmd (controller (tm t)) = (vm ← resolve x (controller (tm t)); Ok (Some (o vm))) →
  (∀ vm s, (m vm s).2 = run_op pid sink (o vm) s) →
  (∀ vm s, s = tm t → disk (run_op pid sink (o vm) s) !! p = disk s !! p) →
  let '(r, t') := (vm ← of_controller (resolve x); a ← act (m vm); say [f vm a]) t in
  disk (tm t') !! p = disk (tm t) !! p ∧ (is_ok r = true → ran cmd (tm t) (tm t')).
Proof.
  intros Ho Hm Hp. unfold of_controller, note, act, zoom, say, modify, mbind, st_bind.
  destruct (resolve x (controller (tm t))) as [vm|e] eqn:Hr; simpl; [|done].
  specialize (Hm vm (tm t)). specialize (Hp vm (tm t) eq_refl).
  destruct (m vm (tm t)) as [[a|e] s']; simpl in *; subst s'; (split; [done|]); [|done].
  intros _. by apply (ran_here _ (Some (o vm))).
Qed.

Lemma validated_spec path t : ∃ w, fs_files (w_fs w) = disk (tm t) ∧
  tm ((_ ← act (on_world (on_image path (inspect path))); mret tt) t).2 = mkSys (controller (tm t)) w.
Proof.
  unfold act, on_world, zoom, on_image, mbind, st_bind. destruct (fs_files _ !! path) as [b|]; simpl.
  - destruct (inspect path _) as [[i|e] h]; eexists; (split; [|reflexivity]); done.
  - exists (world (tm t)). done.
Qed.
Lemma create_cmd_spec l image cpu memory p t :
  let '(r, t') := (mib ← try (map_err Fail (parse_memory memory));
                   id ← on_controller (create_vm_with (mkVmSpec l image cpu mib));
                   say ["created " +:+ fmt_u id +:+ " (" +:+ path_for id +:+ ")"]) t in
  disk (tm t') !! p = disk (tm t) !! p ∧ (is_ok r = true → ran (VCreate l image cpu memory) (tm t) (tm t')).
Proof.
  unfold on_controller, act, zoom, say, modify, try, mbind, st_bind.
  destruct (parse_memory memory) as [mib|e] eqn:Hm; simpl; [|done].
  pose proof (on_ctl_world (create_vm_with (mkVmSpec l image cpu mib)) (tm t)) as Hw.
  destruct (on_ctl _ (tm t)) as [[id|e] s] eqn:E; simpl in *; (split; [unfold disk; by rewrite Hw|]); [|done].
  intros _. apply (ran_here _ (Some (OpCreate (mkVmSpec l image cpu mib)))); simpl; [by rewrite Hm|by rewrite E].
Qed.

Lemma run_vm_cmd_spec cmd p t :
  (∀ root, stage_root (controller (tm t)) = Some root → unstaged pid root p) →
  let '(r, t') := run_vm_cmd pid sink cmd t in
  disk (tm t') !! p = disk (tm t) !! p ∧ (is_ok r = true → ran cmd (tm t) (tm t')).
Proof.
  intros Hp. assert (∀ A (m : Ctl.M A) s, disk (on_ctl m s).2 !! p = disk s !! p) as Hctl
    by (intros; unfold disk; by rewrite on_ctl_world).
  destruct cmd as [l image cpu memory| |x|x|x|x|]; cbn [run_vm_cmd].
  - destruct image as [path|]; unfold mbind at 1, st_bind at 1; [|by apply create_cmd_spec].
    pose proof (validated_spec path t) as (w&Hw&Hv).
    destruct ((_ ← act _; mret tt) t) as [[[]|e] t1]; simpl in Hv.
    + pose proof (create_cmd_spec l (Some path) cpu memory p t1) as Hc. rewrite Hv in Hc.
      match type of Hc with let '(_, _) := ?m in _ => destruct m as [r t2] end. destruct Hc as [Hd Hc].
      split; [rewrite Hd; unfold disk; simpl; by rewrite Hw|]. intros Hr.
      destruct (Hc Hr) as (w'&o&Hw'&Ho&Ht). exists w', o. split_and!; [by rewrite Hw'|done|done].
    + unfold disk. rewrite Hv. simpl. by rewrite Hw.
  - unfold get_st, say, modify, mbind, st_bind. pose proof (list_rows_quiet (list_vms (controller (tm t)))) as Hq.
    match goal with |- context [list_rows ?l ?t'] => specialize (Hq t'); destruct (list_rows l t') as [r t2] end.
    simpl in Hq. rewrite Hq. split; [done|]. intros _. by apply (ran_here _ None).
  - apply (targeted_spec x _ OpStart); [done|done|]. intros vm s ->. by apply start_frame.
  - apply (targeted_spec x _ OpStop); [done|done|]. intros vm s _. apply Hctl.
  - unfold of_controller, note, say, modify, mbind, st_bind.
    destruct (resolve x _) as [vm|e]; simpl; [|done]. destruct (vm_state vm _); simpl; [|done].
    split; [done|]. intros _. by apply (ran_here _ None).
  - apply (targeted_spec x _ OpReset); [done|done|]. intros vm s _. apply Hctl.
  - split; [done|]. intros _. by apply (ran_here _ None).
Qed.

(** The operations change the table only. *)
Definition same_meta c c' : Prop := version (ctl c') = version (ctl c) ∧ path c' = path c.
Definition tabular {A} (m : Ctl.M A) : Prop := ∀ c, same_meta c (m c).2.
Lemma tabular_bind {A B} (m : Ctl.M A) (k : A → Ctl.M B) : tabular m → (∀ a, tabular (k a)) → tabular (mbind k m).
Proof.
  intros Hm Hk c. unfold mbind, st_bind. specialize (Hm c). destruct (m c) as [[a|e] c']; simpl in *; [|done].
  destruct Hm as [Hv Hp], (Hk a c') as [Hv' Hp']. split; congruence.
Qed.
Lemma tabular_still {A} (m : Ctl.M A) : (∀ c, (m c).2 = c) → tabular m.
Proof. intros Hm c. by rewrite Hm. Qed.
Ltac tabular :=
  repeat (apply tabular_bind; [|intros ?]); repeat case_match; subst;
    try (by apply tabular_still); try (intros ?; by split); auto.
Lemma run_op_meta o s : same_meta (controller s) (controller (run_op pid sink o s)).
Proof.
  assert (∀ b e, tabular (bail_if b e)) as Hb by (intros b e; apply tabular_still; by destruct b).
  destruct o as [spec|vm|vm|vm|vm]; simpl; rewrite ?on_ctl_controller.
  - revert s. intros [c w]. simpl. revert c. change (tabular (create_vm_with spec)). unfold create_vm_with.
    repeat (apply tabular_bind; [auto|intros ?]); [by apply tabular_still|]. tabular.
  - unfold start_vm, get_st, try. unfold mbind at 1, st_bind at 1. cbv beta iota zeta.
    unfold mbind at 1, st_bind at 1. destruct (startable vm (controller s)) as [r|e]; simpl; [|done].
    destruct (image_path r) as [img|]; [destruct (stage_root (controller s)) as [root|]|]; [|done|done].
    unfold mbind, st_bind, on_world, zoom. by destruct (fresh_digest pid sink img root r _ (world s)) as [[d|e] w].
  - apply (tabular_bind get_st); [by apply tabular_still|intros c]. tabular.
  - apply (tabular_bind get_st); [by apply tabular_still|intros c]. tabular.
  - apply (tabular_bind get_st); [by apply tabular_still|intros c]. tabular.
Qed.

(** ** The state file *)
Context `{StateJsonLaws}.

(** What the state file says; a missing one stands for an empty table. *)
Definition says (m : gmap string bytes) p (cs : ControllerState) : Prop :=
  match m !! p with
  | None => cs = state_default
  | Some raw => state_from_slice raw = Some cs ∧ version cs = STATE_VERSION
  end.
Lemma says_version m p cs : says m p cs → version cs = STATE_VERSION.
Proof. unfold says. destruct (m !! p) as [raw|]; [by intros [_ ?]|by intros ->]. Qed.
(** What a load makes of it: nothing but an empty table when [exists] fails. *)
Definition loads (d : Fs) p (cs : ControllerState) : Prop :=
  if decide (answered d) then says (fs_files d) p cs else cs = state_default.
Lemma load_spec p (w : Controller.World K) :
  let '(r, w') := load p w in
  fs_files (w_fs w') = fs_files (w_fs w) ∧
  match r with
  | Ok c => c = mk (ctl c) (Some p) None false ∧ version (ctl c) = STATE_VERSION ∧ loads (w_fs w) p (ctl c)
  | Err _ => True
  end.
Proof.
  unfold load, loads, says. unfold mbind at 1, st_bind at 1. pose proof (exists_spec p (w_fs w)) as He.
  destruct (fs_exists p (w_fs w)) as [ex d0] eqn:Ex. rewrite (on_fs_run _ _ w _ _ Ex). destruct He as [Hf0 ->]. simpl.
  destruct (decide (answered (w_fs w))); [|done]. unfold fs_present. case_bool_decide as Hp.
  - set (w0 := mkWorld d0 _ _). pose proof (read_files p d0) as Hr.
    destruct (fs_read p d0) as [r d] eqn:E. destruct Hr as [Hf Hr]. rewrite Hf0 in Hf, Hr.
    unfold mbind, st_bind. rewrite (on_fs_run _ _ w0 _ _ E). destruct r as [raw|e]; simpl; [|done]. rewrite Hr.
    unfold try. destruct (state_from_slice raw) as [cs|]; simpl; [|done]. unfold bail_if.
    destruct (N.eqb_spec (version cs) STATE_VERSION); simpl; [|done]. done.
  - apply eq_None_not_Some in Hp. simpl. by rewrite Hp.
Qed.

Lemma connect_spec bridge err c t :
  let '(r, t') := connect_bridge bridge err c t in
  tm t' = tm t ∧ match r with Ok c' => ctl c' = ctl c ∧ path c' = path c ∧ stage_root c' = stage_root c | Err _ => True end.
Proof.
  unfold connect_bridge. destruct bridge as [addr|]; [|done]. destruct (str_is_empty (trim addr)); [done|].
  by destruct err.
Qed.

(** C11: a [celctl vm] command is one operation of the controller on the state
    file, all or nothing.  Whatever system call, image read or bridge fails,
    a command that does not answer [Ok] leaves the state file as it was; a
    command that does ran exactly the operation it stands for on the table the
    file held, and the next load reads back the table it left.  One exception
    is the code's: when the [exists] of the load is the call that fails, the
    operation runs on an empty table, which then replaces the file.  The state
    file must not be one of the files of the stage area. *)
Theorem vm_command_durable p bridge err cmd t :
  unstaged pid default_stage_root p →
  let '(r, t') := vm_main pid sink (Some p) bridge err cmd t in
  match r with
  | Ok _ =>
      (∃ s0 s1, disk s0 = disk (tm t) ∧ loads (w_fs (world (tm t))) p (ctl (controller s0)) ∧
        stage_root (controller s0) = Some default_stage_root ∧ ran cmd s0 s1 ∧ controller (tm t') = controller s1) ∧
      (load p (mkWorld (good (disk (tm t'))) (w_reads (world (tm t'))) (w_sink (world (tm t'))))).1
        = Ok (mk (ctl (controller (tm t'))) (Some p) None false)
  | Err _ => disk (tm t') !! p = disk (tm t) !! p
  end.
Proof.
  intros Hp. unfold vm_main. change (default default_state_path (Some p)) with p.
  unfold mbind at 1, st_bind at 1. pose proof (load_spec p (world (tm t))) as Hl.
  unfold act at 1, zoom at 1, on_world at 1, zoom at 1.
  destruct (Ctl.load p (world (tm t))) as [[c|e] w0]; destruct Hl as [Hf Hc]; simpl; [|unfold disk; simpl; by rewrite Hf].
  destruct Hc as (Hc&Hvs&Hs). set (t0 := mkTerm _ _). unfold mbind at 1, st_bind at 1.
  pose proof (connect_spec bridge err (with_stage_root default_stage_root c) t0) as Hb.
  destruct (connect_bridge bridge err _ t0) as [[c1|e] t1]; destruct Hb as [Ht1 Hb];
    [|unfold disk; rewrite Ht1; simpl; by rewrite Hf].
  destruct Hb as (Hc1&Hp1&Hr1). simpl in Hc1, Hp1, Hr1. unfold mbind at 1, st_bind at 1, set_controller, modify.
  rewrite Ht1. cbn [tm t0]. set (s0 := mkSys c1 w0). set (t2 := mkTerm (mkSys c1 _) _).
  assert (disk (tm t2) = disk (tm t)) as Hd by exact Hf.
  unfold mbind at 1, st_bind at 1. pose proof (run_vm_cmd_spec cmd p t2) as Hcmd.
  destruct (run_vm_cmd pid sink cmd t2) as [[[]|e] t3]; (destruct Hcmd as [Hk Hran]; [simpl; rewrite Hr1; by intros ? [= <-]|]);
    [|by rewrite Hk, Hd].
  specialize (Hran eq_refl). destruct Hran as (w&o&Hw&Ho&Ht3).
  assert (same_meta c1 (controller (tm t3))) as [Hv Hpath].
  { rewrite Ht3. destruct o as [o|]; [|done]. apply (run_op_meta o (mkSys c1 w)). }
  unfold get_st. unfold mbind at 1, st_bind at 1. cbv beta iota zeta. unfold act, on_world, zoom.
  assert (path (controller (tm t3)) = Some p) as Hpath3 by (by rewrite Hpath, Hp1, Hc).
  assert (version (ctl (controller (tm t3))) = STATE_VERSION) as Hv3
    by (by rewrite Hv, Hc1).
  pose proof (state_file_atomic pid (controller (tm t3)) p (world (tm t3)) Hpath3 Hv3) as Hsave.
  destruct (save pid (controller (tm t3)) (world (tm t3))) as [[[]|e] w']; destruct Hsave as [_ Hsave];
    cbn [tm controller world];
    [|unfold disk in *; simpl; rewrite Hsave; by rewrite Hk, Hd].
  split; [|exact (proj2 Hsave)]. exists (tm t2), (tm t3).
  split_and!; [exact Hd|simpl; by rewrite Hc1|exact Hr1|by exists w, o|done].
Qed.
End command.

(** ** Sizes *)
Definition digits (s : string) : bool := str_forall is_ascii_digit s.
Definition starts_with_digit (s : string) : bool :=
  match s with String c _ => is_ascii_digit c | EmptyString => false end.

Lemma split_digits_spec s : let '(l, r) := split_digits s in
  s = l +:+ r ∧ digits l = true ∧ starts_with_digit r = false.
Proof.
  induction s as [|c s IH]; simpl; [done|]. destruct (is_ascii_digit c) eqn:Hc; [|done].
  destruct (split_digits s) as [l r]. destruct IH as (->&Hl&Hr). split_and!; [done| |done].
  unfold digits in *. simpl. by rewrite Hc, Hl.
Qed.
Lemma split_digits_app l r : digits l = true → starts_with_digit r = false → split_digits (l +:+ r) = (l, r).
Proof.
  unfold digits. induction l as [|c l IH]; simpl.
  - intros _ Hr. rewrite app_string_nil_l. destruct r as [|c r]; simpl in *; [done|by rewrite Hr].
  - intros [Hc Hl]%andb_true_iff Hr. by rewrite Hc, IH.
Qed.

Lemma digit_char_ascii d : (d < 10)%N → is_ascii_digit (pretty_N_char d) = true.
Proof. intros Hd%pretty_N_char_digit. unfold digit_of in Hd. by destruct (is_ascii_digit _). Qed.
Lemma digit_printable c : is_ascii_digit c = true → AuditWitness.printable c = true.
Proof.
  unfold is_ascii_digit, AuditWitness.printable, in_range. intros [H1%N.leb_le H2%N.leb_le]%andb_true_iff.
  apply andb_true_iff. rewrite !N.leb_le. lia.
Qed.
(** What a unit may look like: nothing, or a letter for a power of 1024 and an
    optional [i], in either case; then any number of [b] and any number of [B]. *)
Definition unit_letters : list (string * N) :=
  [("K", 2 ^ 10); ("k", 2 ^ 10); ("M", 2 ^ 20); ("m", 2 ^ 20);
   ("G", 2 ^ 30); ("g", 2 ^ 30); ("T", 2 ^ 40); ("t", 2 ^ 40)]%N.
Definition unit_stems : list (string * N) :=
  (EmptyString, 1%N) :: ((λ '(l, u), (l, u)) <$> unit_letters) ++
  ((λ '(l, u), (l +:+ "i", u)) <$> unit_letters) ++ ((λ '(l, u), (l +:+ "I", u)) <$> unit_letters).
Fixpoint repeat_char (c : ascii) (n : nat) : string :=
  match n with O => EmptyString | S n => String c (repeat_char c n) end.
Definition names_unit (sfx : string) (u : N) : Prop :=
  ∃ stem j k, (stem, u) ∈ unit_stems ∧ sfx = stem +:+ repeat_char "b" j +:+ repeat_char "B" k.

Lemma trim_end_char_split c s : ∃ n, s = trim_end_char c s +:+ repeat_char c n.
Proof.
  induction s as [|a s (n&IH)]; [by exists 0%nat|]. cbn [trim_end_char].
  destruct (trim_end_char c s) as [|d r] eqn:E.
  - rewrite app_string_nil_l in IH. destruct (Ascii.eqb_spec a c) as [->|].
    + exists (S n). cbn [repeat_char]. by rewrite app_string_nil_l, <-IH.
    + exists n. by rewrite app_string_cons, app_string_nil_l, <-IH.
  - exists n. by rewrite app_string_cons, <-IH.
Qed.
Lemma trim_end_char_repeat c s n : trim_end_char c (s +:+ repeat_char c n) = trim_end_char c s.
Proof.
  induction s as [|a s IH].
  - rewrite app_string_nil_l. induction n as [|n IH]; [done|]. cbn [repeat_char trim_end_char]. rewrite IH. simpl. by rewrite Ascii.eqb_refl.
  - rewrite app_string_cons. cbn [trim_end_char]. by rewrite IH.
Qed.
Lemma trim_end_char_other c d s n : c ≠ d → trim_end_char c s = s → trim_end_char c (s +:+ repeat_char d n) = s +:+ repeat_char d n.
Proof.
  intros Hcd Hs. destruct n as [|n]; [by rewrite app_string_nil_r|]. clear Hs. induction s as [|a s IH].
  - rewrite app_string_nil_l. induction n as [|n IH]; cbn [repeat_char trim_end_char] in *.
    + by rewrite (proj2 (Ascii.eqb_neq d c)).
    + by rewrite IH.
  - rewrite app_string_cons. cbn [trim_end_char]. rewrite IH. by destruct s.
Qed.
Lemma to_upper_inv c d : to_ascii_upper c = d → c = d ∨ c = to_ascii_lower d.
Proof. intros <-. destruct c as [[] [] [] [] [] [] [] []]; vm_compute; auto. Qed.
Lemma unit_names s u :
  (if str_is_empty s then Some 1%N
   else if bool_decide (s = "K" ∨ s = "KI") then Some KIB
   else if bool_decide (s = "M" ∨ s = "MI") then Some MIB
   else if bool_decide (s = "G" ∨ s = "GI") then Some GIB
   else if bool_decide (s = "T" ∨ s = "TI") then Some TIB else None) = Some u →
  (s, u) ∈ [(EmptyString, 1%N); ("K", KIB); ("KI", KIB); ("M", MIB); ("MI", MIB); ("G", GIB); ("GI", GIB); ("T", TIB); ("TI", TIB)].
Proof.
  destruct s as [|c s]; [intros [= <-]; by left|]. cbn [str_is_empty].
  repeat (case_bool_decide as Hs; [intros [= <-]; destruct Hs as [-> | ->]; set_solver|clear Hs]). done.
Qed.
Lemma upper_one s d : str_map to_ascii_upper s = String d EmptyString → s = String d EmptyString ∨ s = String (to_ascii_lower d) EmptyString.
Proof.
  destruct s as [|c [|]]; [done| |done]. intros [= Hc]. by destruct (to_upper_inv _ _ Hc) as [-> | ->]; [left|right].
Qed.
Lemma upper_two s d e : str_map to_ascii_upper s = String d (String e EmptyString) →
  ∃ d' e', s = String d' (String e' EmptyString) ∧ (d' = d ∨ d' = to_ascii_lower d) ∧ (e' = e ∨ e' = to_ascii_lower e).
Proof.
  destruct s as [|c [|c2 [|]]]; [done..| |done]. intros [= Hc Hc2]. exists c, c2.
  split; [done|]. split; by apply to_upper_inv.
Qed.
(** What the table is looked up with is one of the stems. *)
Lemma unit_stem_in s u : unit_of s = Some u → (trim_end_char "b" (trim_end_char "B" s), u) ∈ unit_stems.
Proof.
  set (stem := trim_end_char "b" (trim_end_char "B" s)). intros Hu%unit_names. fold stem in Hu.
  repeat (apply elem_of_cons in Hu as [[= Hs ->]|Hu]); [| | | | | | | | |by apply elem_of_nil in Hu].
  - destruct stem; [by left|done].
  - apply upper_one in Hs as [-> | ->]; vm_compute; set_solver.
  - apply upper_two in Hs as (d&e&->&[-> | ->]&[-> | ->]); vm_compute; set_solver.
  - apply upper_one in Hs as [-> | ->]; vm_compute; set_solver.
  - apply upper_two in Hs as (d&e&->&[-> | ->]&[-> | ->]); vm_compute; set_solver.
  - apply upper_one in Hs as [-> | ->]; vm_compute; set_solver.
  - apply upper_two in Hs as (d&e&->&[-> | ->]&[-> | ->]); vm_compute; set_solver.
  - apply upper_one in Hs as [-> | ->]; vm_compute; set_solver.
  - apply upper_two in Hs as (d&e&->&[-> | ->]&[-> | ->]); vm_compute; set_solver.
Qed.
Lemma unit_stem_ok stem u :
  (stem, u) ∈ unit_stems → unit_of stem = Some u ∧ trim_end_char "b" stem = stem ∧ trim_end_char "B" stem = stem.
Proof.
  intros Hin. unfold unit_stems in Hin. cbn [fmap list_fmap app unit_letters] in Hin.
  repeat (apply elem_of_cons in Hin as [[= -> ->]|Hin]; [by vm_compute|]). by apply elem_of_nil in Hin.
Qed.
Lemma unit_of_iff sfx u : unit_of sfx = Some u ↔ names_unit sfx u.
Proof.
  split.
  - intros Hin%unit_stem_in. destruct (trim_end_char_split "B" sfx) as [k HB].
    destruct (trim_end_char_split "b" (trim_end_char "B" sfx)) as [j Hb].
    eexists _, j, k. split; [exact Hin|]. rewrite HB at 1. rewrite Hb at 1. by rewrite app_string_assoc.
  - intros (stem&j&k&(Hu&Hb&HB)%unit_stem_ok&->). unfold unit_of in *.
    by rewrite <-app_string_assoc, trim_end_char_repeat, trim_end_char_other, trim_end_char_repeat, Hb by done;
      rewrite HB, Hb in Hu.
Qed.
Lemma sized_iff s m : parse_size_to_mib s = Ok m ↔
   (0 < m)%N ∧ ∃ num sfx n u, trim s = num +:+ sfx ∧ digits num = true ∧ starts_with_digit sfx = false ∧
     parse_uint 64 num = Some n ∧ unit_of sfx = Some u ∧ (n * u = m * MIB)%N ∧ fits 64 (n * u).
Proof.
  unfold parse_size_to_mib. set (x := trim s). split.
  - destruct (str_is_empty x); [done|]. pose proof (split_digits_spec x) as Hsp.
    destruct (split_digits x) as [num sfx]. destruct Hsp as (Hx&Hd&Hh).
    destruct (parse_uint 64 num) as [n|] eqn:Hn; [|done]. destruct (unit_of sfx) as [u|] eqn:Hu; [|done].
    cbn. destruct (checked_mul 64 n u) as [b|] eqn:Hb; [|done]. apply checked_Some in Hb as [-> Hf]. cbn.
    destruct (N.eqb_spec (n * u) 0) as [|Hz]; [done|]. destruct (N.eqb_spec ((n * u) mod MIB) 0) as [Hm|]; [|done].
    intros [= <-]. apply N.Div0.div_exact in Hm. split; [unfold MIB in *; lia|].
    exists num, sfx, n, u. split_and!; auto. lia.
  - intros (Hm&num&sfx&n&u&Hx&Hd&Hh&Hn&Hu&He&Hf). destruct (str_is_empty x) eqn:Hemp.
    { destruct num; [done|]. by rewrite Hx in Hemp. }
    rewrite Hx, split_digits_app by done. rewrite Hn, Hu. cbn. unfold checked_mul. rewrite checked_fits by done. cbn.
    rewrite He. rewrite (proj2 (N.eqb_neq _ _)) by (unfold MIB; lia).
    rewrite N.Div0.mod_mul by done. simpl. by rewrite N.div_mul by done.
Qed.
Lemma sized_text m n u sfx : str_forall AuditWitness.printable (fmt_u n +:+ sfx) = true → starts_with_digit sfx = false →
  unit_of sfx = Some u → (0 < m)%N → (n * u = m * MIB)%N → fits 64 (m * MIB) →
  fits 64 n → parse_size_to_mib (fmt_u n +:+ sfx) = Ok m.
Proof.
  intros Hp Hh Hu Hm He Hf Hn. apply sized_iff. split; [done|]. exists (fmt_u n), sfx, n, u.
  rewrite AuditWitness.printable_trim by done. split_and!; try done.
  - apply fmt_u_forall. intros d. apply digit_char_ascii.
  - by apply parse_uint_fmt_u.
  - by rewrite He.
Qed.

(** C27: [--memory] is read exactly.  A text is accepted as [m] MiB precisely
    when, trimmed of Unicode white space, it is a decimal number followed by a
    unit (nothing for bytes; K, M, G or T for 2^10, 2^20, 2^30 or 2^40, then an
    optional i, in either case; then any number of b and of B) and their product
    is [m] MiB, not zero and below 2^64 (so a product that overflows, a number
    that is not whole MiB and an unknown unit are all refused); every number of
    MiB that fits is accepted in bytes, as [M] and as [MiB]. *)
Theorem parse_size_exact s m :
  (parse_size_to_mib s = Ok m ↔
   (0 < m)%N ∧ ∃ num sfx n u, trim s = num +:+ sfx ∧ digits num = true ∧ starts_with_digit sfx = false ∧
     parse_uint 64 num = Some n ∧ names_unit sfx u ∧ (n * u = m * 2 ^ 20)%N ∧ (n * u < 2 ^ 64)%N) ∧
  ((0 < m)%N → (m * 2 ^ 20 < 2 ^ 64)%N →
   parse_size_to_mib (fmt_u (m * 2 ^ 20)) = Ok m ∧ parse_size_to_mib (fmt_u m +:+ "M") = Ok m ∧
   parse_size_to_mib (fmt_u m +:+ "MiB") = Ok m).
Proof.
  change (2 ^ 20)%N with MIB. split.
  { rewrite sized_iff. by setoid_rewrite unit_of_iff. }
  intros Hm Hf. change (fits 64 (m * MIB)) in Hf.
  assert (∀ n, str_forall AuditWitness.printable (fmt_u n) = true) as Hp.
  { intros n. apply fmt_u_forall. intros d Hd. by apply digit_printable, digit_char_ascii. }
  assert (fits 64 m) as Hfm by (unfold fits, MIB in *; lia). split_and!.
  - rewrite <-(app_string_nil_r (fmt_u _)). apply (sized_text _ _ 1); try done; [by rewrite app_string_nil_r|lia].
  - apply (sized_text _ _ MIB); try done. by rewrite str_forall_app, Hp.
  - apply (sized_text _ _ MIB); try done. by rewrite str_forall_app, Hp.
Qed.

(** ** Witnesses *)
Lemma parse_size_exact_witness :
  parse_size_to_mib "4096MiB" = Ok 4096%N ∧ parse_size_to_mib "4294967296" = Ok 4096%N ∧
  parse_size_to_mib " 4Gib " = Ok 4096%N ∧ parse_size_to_mib "16777216T" = Err (Invalid "memory: overflow").
Proof.
  destruct (parse_size_exact "" 4096) as [_ Hm]. destruct Hm as (Hb&_&Hmib); [done|done|].
  split; [exact Hmib|]. split; [exact Hb|]. split; [|by vm_compute].
  apply (parse_size_exact " 4Gib "). split; [done|]. exists "4", "Gib", 4%N, GIB.
  split_and!; [by vm_compute..| |by vm_compute|by vm_compute].
  exists "Gi", 1%nat, 0%nat. split; [vm_compute; set_solver|done].
Defined.

Module CelctlWitness.
Definition json := CtlWitness.json.
Definition state_file : string := "build/celctl-state.json".
Definition first : Term (Sys (list bytes)) :=
  mkTerm (mkSys in_memory (mkWorld (mkFs CtlWitness.files []) [] [])) [].
Definition cmds : list VmCmd :=
  [VCreate "db" (Some "d.qcow2") (Some 2%N) (Some "256M"); VCreate "web" None None None; VStart "0"; VStop "/vms/1"].
Definition main := vm_main 7 CtlWitness.sink (Some state_file) None None (H := json).
(** The commands one after the other, each a process of its own: only the
    files stay. *)
Definition next (t : Term (Sys (list bytes))) : Term (Sys (list bytes)) := mkTerm (mkSys in_memory (world (tm t))) [].
Definition session : Term (Sys (list bytes)) := foldl (λ t cmd, (main cmd (next t)).2) first cmds.
End CelctlWitness.
#[local] Existing Instances CtlWitness.json CtlWitness.json_laws.

Example session_lists :
  out (CelctlWitness.main VList (CelctlWitness.next CelctlWitness.session)).2 =
  ["  id  state     last_exit   cpu   mem_mib   image                     label";
   "   0  halted    12          2     256       d.qcow2                   db";
   "   1  stopped   -           -     -         -                         web"].
Proof. by vm_compute. Qed.

(** The listing panics on an image path whose 23rd byte from the end is inside
    a character. *)
Example list_panics :
  let path := String "a" (String (ascii_of_N 195) (String (ascii_of_N 169) "0123456789012345.qcow2")) in
  let t := mkTerm (mkSys (create_vm_with (mkVmSpec "" (Some path) None None) in_memory).2
                         (mkWorld (mkFs ∅ []) [] [])) [] in
  (run_vm_cmd 7 CtlWitness.sink VList t).1 = Err (Panic "byte index is not a char boundary").
Proof. by vm_compute. Qed.

Lemma vm_command_durable_witness :
  let t := CelctlWitness.next CelctlWitness.session in
  let t' := (CelctlWitness.main (VReset "0") t).2 in
  unstaged 7 default_stage_root CelctlWitness.state_file ∧
  (∃ s0 s1, disk s0 = disk (tm t) ∧ ran 7 CtlWitness.sink (VReset "0") s0 s1) ∧
  (load CelctlWitness.state_file (mkWorld (good (disk (tm t'))) (w_reads (world (tm t'))) (w_sink (world (tm t'))))).1
    = Ok (mk (ctl (controller (tm t'))) (Some CelctlWitness.state_file) None false).
Proof.
  intros t t'. assert (unstaged 7 default_stage_root CelctlWitness.state_file) as Hu
    by (intros vm; split; intros Hp; discriminate Hp).
  split; [exact Hu|].
  pose proof (vm_command_durable 7 CtlWitness.sink CelctlWitness.state_file None None (VReset "0") t Hu) as Hd.
  assert (is_ok (CelctlWitness.main (VReset "0") t).1 = true) as Hok by (by vm_compute).
  unfold t'. unfold CelctlWitness.main, CelctlWitness.json in *.
  destruct (vm_main 7 CtlWitness.sink (Some CelctlWitness.state_file) None None (VReset "0") t) as [[r|e] u];
    [|discriminate Hok].
  destruct Hd as [(s0&s1&Hs0&_&_&Hran&_) Hload]. split; [|exact Hload]. exists s0, s1. split; [exact Hs0|exact Hran].
Defined.
