(* ===== verification/Cluster.v ===== *)
(** * Cluster: [celctl cluster]

    crates/celcli/src/main.rs from [run_cluster_cmd] on: every cluster command
    starts a mesh node, lets gossip settle and prints what an operation of the
    node answered.  The node is that of Mesh.v; its socket, the connection to a
    kernel bridge, the admin listener and what the node's background tasks do
    while the command sleeps or waits are arguments, as are derived [Debug]
    texts of replies. *)
From S2P Require Import Prelude.
From S2P Require Import Text.
From S2P Require Import Errors.
From S2P Require Import Vault.
From S2P Require Import Files.
From S2P Require Import DiskFile.
From S2P Require Import VaultProofs.
From S2P Require Import Network.
From S2P Require Import NetworkProofs.
From S2P Require Import Federation.
From S2P Require Import Membership.
From S2P Require Import Proto.
From S2P Require Import Host.
From S2P Require Import Hyper.
From S2P Require Import Mesh.
From S2P Require Import Controller.
From S2P Require Import Console.
From S2P Require Import Celctl.
From Stdlib Require Import Strings.Byte.

(** ** Arguments *)
Record StartArgs := mkStartArgs {
  node_id : string; bind : string; advertise : option string; cluster : string; seeds : string; epoch : N;
  duration : N; settle : N; admin_addr : string; vm_host : string
}.
Record ClusterRpcArgs := mkRpcArgs { common : StartArgs; target : string; timeout_ms : N }.
Record InvokeArgs := mkInvokeArgs {
  i_rpc : ClusterRpcArgs; i_op : string; i_label : string; i_vm_id : N; i_restart : string;
  i_volume_id : string; i_volume_size : N; i_mount_name : string
}.
Inductive ClusterVmCmd :=
| CvCreate (rpc : ClusterRpcArgs) (label restart : string) (image_path : option string)
    (cpu_count memory_mib boot_blob_crc32c : option N)
| CvList (rpc : ClusterRpcArgs)
| CvStart (rpc : ClusterRpcArgs) (vm_id : N)
| CvStop (rpc : ClusterRpcArgs) (vm_id : N)
| CvDelete (rpc : ClusterRpcArgs) (vm_id : N)
| CvAttachVolume (rpc : ClusterRpcArgs) (vm_id : N) (volume_id mount_name : string)
| CvDetachVolume (rpc : ClusterRpcArgs) (vm_id : N) (volume_id : string).
Inductive ClusterVolCmd :=
| CvolCreate (rpc : ClusterRpcArgs) (name : string) (size : N)
| CvolList (rpc : ClusterRpcArgs)
| CvolDelete (rpc : ClusterRpcArgs) (volume_id : string)
| CvolRead (rpc : ClusterRpcArgs) (volume_id : string) (offset length : N)
| CvolWrite (rpc : ClusterRpcArgs) (volume_id : string) (offset : N) (text bytes_hex : string)
| CvolSnapshot (rpc : ClusterRpcArgs) (volume_id name : string)
| CvolSnapshots (rpc : ClusterRpcArgs) (volume_id : string)
| CvolRestore (rpc : ClusterRpcArgs) (snapshot_id : string)
| CvolDeleteSnapshot (rpc : ClusterRpcArgs) (snapshot_id : string).
Inductive ClusterCmd :=
| Start (args : StartArgs)
| Members (args : StartArgs)
| Vms (args : StartArgs)
| Invoke (args : InvokeArgs)
| InvokePath (rpc : ClusterRpcArgs) (path op : string)
| Recover (args : StartArgs)
| Status (args : StartArgs)
| Metrics (args : StartArgs)
| CVm (op : ClusterVmCmd)
| CVol (op : ClusterVolCmd).

(** ** Parsing *)
Definition parse_seeds (s : string) : list string :=
  List.filter (λ p, negb (str_is_empty p)) (trim <$> split_on "," s).
Definition parse_restart (s : string) : CelResult RestartPolicy :=
  if bool_decide (s = "always") then Ok Always
  else if bool_decide (s = "never") then Ok Never
  else Err (Invalid "restart: expected 'never' or 'always'").
Definition hex_nib (b : byte) : CelResult N :=
  let n := Byte.to_N b in
  if (48 <=? n)%N && (n <=? 57)%N then Ok (n - 48)%N
  else if (97 <=? n)%N && (n <=? 102)%N then Ok (n - 97 + 10)%N
  else if (65 <=? n)%N && (n <=? 70)%N then Ok (n - 65 + 10)%N
  else Err (Invalid "bytes-hex: non-hex char").
(** The loop of [decode_hex], on an even number of bytes. *)
Fixpoint hex_loop (bs : bytes) : CelResult bytes :=
  match bs with
  | hi :: lo :: bs =>
      h ← hex_nib hi; l ← hex_nib lo;
      out ← hex_loop bs;
      Ok (u8 (N.lor (N.shiftl h 4) l) :: out)
  | _ => Ok []
  end.
Definition decode_hex (s : string) : CelResult bytes :=
  if negb (len s mod 2 =? 0)%N then Err (Invalid "bytes-hex: odd length") else hex_loop (as_bytes s).

(** ** Text *)
Definition printable (b : byte) : bool :=
  let n := Byte.to_N b in ((32 <=? n) && (n <? 127) || (n =? 10) || (n =? 9))%N.
(** Printable ASCII is UTF-8. *)
Definition render_bytes (bs : bytes) : string :=
  if forallb printable bs then debug_str (String.string_of_list_byte bs) else hex_encode bs.
Definition debug_list (l : list string) : string := "[" +:+ String.concat ", " (debug_str <$> l) +:+ "]".
Definition status_debug (s : NodeStatus) : string :=
  match s with Alive => "Alive" | Suspect => "Suspect" | Dead => "Dead" | Left => "Left" end.

(** The ids have a [Display] of [write_str], and [NodeStatus] a derived
    [Debug]: both ignore a width. *)
Definition cols (l : list string) : string := String.concat "  " l.
Definition members_header : string :=
  cols [left_pad 20 "node"; left_pad 24 "addr"; left_pad 8 "status"; right_pad 6 "epoch"; right_pad 6 "hlc"].
Definition member_row (r : NodeInfo) : string :=
  cols [left_pad 20 (ni_id r); left_pad 24 (ni_addr r); status_debug (ni_status r);
        right_pad 6 (fmt_u (ni_epoch r)); right_pad 6 (fmt_u (ni_hlc r))].
Definition vms_header : string :=
  cols [left_pad 28 "path"; left_pad 8 "state"; left_pad 10 "last_exit"; left_pad 6 "alive"; "label"].
Definition vms_row (v : RemoteVm) : string :=
  cols [left_pad 28 (path v); left_pad 8 (rv_state v); left_pad 10 (dash (rv_last_exit v));
        left_pad 6 (Mesh.fmt_bool (rv_owner_alive v)); rv_label v].
Definition listed_lines (rows : list RemoteVm) : list string :=
  cols [left_pad 28 "path"; left_pad 8 "state"; "label"]
  :: ((λ r, cols [left_pad 28 (path r); left_pad 8 (rv_state r); rv_label r]) <$> rows).
(** [size] is aligned right by [cluster vol list] and left by [invoke]. *)
Definition volumes_lines (pad : nat → string → string) (vols : list VolumeMeta) : list string :=
  cols [left_pad 24 "id"; pad 10%nat "size"; left_pad 8 "owner"; "name"]
  :: ((λ v, cols [vol_id v; pad 10%nat (fmt_u (vol_size v)); left_pad 8 (vol_owner v); vol_name v]) <$> vols).
Definition snapshots_lines (pad : nat → string → string) (snaps : list SnapshotMeta) : list string :=
  cols [left_pad 28 "id"; left_pad 18 "volume"; pad 10%nat "size"; "name"]
  :: ((λ s, cols [snap_id s; snap_volume s; pad 10%nat (fmt_u (snap_size s)); snap_name s]) <$> snaps).
Definition status_lines (c : ClusterStatus) (sup : bool) : list string :=
  ["node=" +:+ cs_self_id c +:+ " cluster=" +:+ cs_cluster c +:+ " alive=" +:+ fmt_n (cs_alive c)
     +:+ " suspect=" +:+ fmt_n (cs_suspect c) +:+ " dead=" +:+ fmt_n (cs_dead c) +:+ " vms=" +:+ fmt_n (cs_total_vms c)
     +:+ " orphans=" +:+ fmt_n (cs_orphaned c) +:+ " supervisor=" +:+ Mesh.fmt_bool sup;
   "-- members --"; cols [left_pad 16 "node"; left_pad 22 "addr"; left_pad 8 "status"; "epoch"]]
  ++ ((λ r, cols [ni_id r; left_pad 22 (ni_addr r); left_pad 8 (status_debug (ni_status r)); fmt_u (ni_epoch r)])
        <$> cs_members c)
  ++ ["-- vms --"; cols [left_pad 28 "path"; left_pad 8 "state"; left_pad 6 "alive"; "label"]]
  ++ ((λ v, cols [left_pad 28 (path v); left_pad 8 (rv_state v); left_pad 6 (Mesh.fmt_bool (rv_owner_alive v)); rv_label v])
        <$> cs_vms c).
Definition recovered_lines (self : string) (sup : bool) (restarted : list RestartedVm) : list string :=
  match restarted with
  | [] => ["celctl: nothing to recover (supervisor=" +:+ Mesh.fmt_bool sup +:+ ")"]
  | _ =>
      ("celctl: recovered " +:+ fmt_n (length restarted) +:+ " vm(s):")
      :: ((λ r, "  " +:+ original_owner r +:+ "/" +:+ fmt_u (original_vm_id r) +:+ " -> " +:+ self +:+ "/"
                  +:+ fmt_u (new_vm_id r) +:+ "  label=" +:+ rs_label r) <$> restarted)
  end.

(** ** What [cluster invoke] sends and prints *)
Definition volume_filter (volume_id : string) : option VolumeId := if str_is_empty volume_id then None else Some volume_id.
Definition invoke_op (a : InvokeArgs) : CelResult VmOp.t :=
  restart ← parse_restart (i_restart a);
  let op := i_op a in
  if bool_decide (op = "create") then Ok (VmOp.Create (i_label a) restart None None None None)
  else if bool_decide (op = "start") then Ok (VmOp.Start (i_vm_id a))
  else if bool_decide (op = "stop") then Ok (VmOp.Stop (i_vm_id a))
  else if bool_decide (op = "delete") then Ok (VmOp.Delete (i_vm_id a))
  else if bool_decide (op = "list") then Ok VmOp.List
  else if bool_decide (op = "create-volume") then Ok (VmOp.CreateVolume (i_label a) (i_volume_size a))
  else if bool_decide (op = "delete-volume") then Ok (VmOp.DeleteVolume (i_volume_id a))
  else if bool_decide (op = "list-volumes") then Ok VmOp.ListVolumes
  else if bool_decide (op = "attach-volume") then Ok (VmOp.AttachVolume (i_vm_id a) (i_volume_id a) (i_mount_name a))
  else if bool_decide (op = "detach-volume") then Ok (VmOp.DetachVolume (i_vm_id a) (i_volume_id a))
  else if bool_decide (op = "create-snapshot") then Ok (VmOp.CreateSnapshot (i_volume_id a) (i_label a))
  else if bool_decide (op = "list-snapshots") then Ok (VmOp.ListSnapshots (volume_filter (i_volume_id a)))
  else if bool_decide (op = "delete-snapshot") then Ok (VmOp.DeleteSnapshot (i_volume_id a))
  else if bool_decide (op = "restore-snapshot") then Ok (VmOp.RestoreSnapshot (i_volume_id a))
  else Err (Invalid "op: create|start|stop|delete|list|create-volume|delete-volume|list-volumes|attach-volume|detach-volume|create-snapshot|list-snapshots|delete-snapshot|restore-snapshot").
Definition path_op (op : string) : CelResult VmOp.t :=
  if bool_decide (op = "start") then Ok (VmOp.Start 0)
  else if bool_decide (op = "stop") then Ok (VmOp.Stop 0)
  else if bool_decide (op = "delete") then Ok (VmOp.Delete 0)
  else Err (Invalid "op: start|stop|delete").
Definition attachment_lines (volumes : list VolumeAttachment) : list string :=
  (λ a, "  " +:+ att_mount_name a +:+ " -> " +:+ att_volume_id a) <$> volumes.
Definition fmt_len {A} (l : list A) : string := fmt_n (length l).
Definition invoke_lines (target : NodeId) (reply : VmOpReply.t) : list string :=
  match reply with
  | VmOpReply.Created vm_id =>
      ["created vm " +:+ fmt_u vm_id +:+ " on " +:+ target +:+ " (path /cluster/" +:+ target +:+ "/vms/" +:+ fmt_u vm_id +:+ ")"]
  | VmOpReply.State vm_id state => ["vm " +:+ target +:+ "/" +:+ fmt_u vm_id +:+ " state=" +:+ state]
  | VmOpReply.Deleted vm_id => ["deleted vm " +:+ target +:+ "/" +:+ fmt_u vm_id]
  | VmOpReply.Listed rows => listed_lines rows
  | VmOpReply.VolumeCreated v =>
      ["created volume " +:+ vol_id v +:+ " on " +:+ vol_owner v +:+ " (size=" +:+ fmt_u (vol_size v)
         +:+ " name=" +:+ vol_name v +:+ ")"]
  | VmOpReply.VolumeDeleted id => ["deleted volume " +:+ id]
  | VmOpReply.VolumesListed volumes => volumes_lines left_pad volumes
  | VmOpReply.Attachments vm_id volumes =>
      ("vm " +:+ target +:+ "/" +:+ fmt_u vm_id +:+ " attachments=" +:+ fmt_len volumes) :: attachment_lines volumes
  | VmOpReply.VolumeData id bs => ["read " +:+ fmt_len bs +:+ " bytes from " +:+ id]
  | VmOpReply.VolumeWritten id n => ["wrote " +:+ fmt_u n +:+ " bytes to " +:+ id]
  | VmOpReply.SnapshotCreated s =>
      ["created snapshot " +:+ snap_id s +:+ " (" +:+ fmt_u (snap_size s) +:+ " bytes) of " +:+ snap_volume s]
  | VmOpReply.SnapshotsListed snaps => snapshots_lines left_pad snaps
  | VmOpReply.SnapshotDeleted id => ["deleted snapshot " +:+ id]
  | VmOpReply.SnapshotRestored id => ["restored snapshot " +:+ id]
  | VmOpReply.NetworkCreated n => ["created network " +:+ net_id n +:+ " (" +:+ fmt_cidr (net_cidr n) +:+ ")"]
  | VmOpReply.NetworkDeleted id => ["deleted network " +:+ id]
  | VmOpReply.NetworksListed l => (λ n, net_id n +:+ "  " +:+ net_name n +:+ "  " +:+ fmt_cidr (net_cidr n)) <$> l
  | VmOpReply.NicAttached n =>
      ["nic " +:+ nic_id n +:+ " ip=" +:+ fmt_ipv4 (nic_ip n) +:+ " vm=" +:+ fmt_u (nic_vm_id n)]
  | VmOpReply.NicDetached id => ["detached nic " +:+ id]
  | VmOpReply.NicsListed l =>
      (λ n, nic_id n +:+ "  vm=" +:+ fmt_u (nic_vm_id n) +:+ "  ip=" +:+ fmt_ipv4 (nic_ip n)) <$> l
  | VmOpReply.SecurityGroupCreated g => ["created sg " +:+ sg_id g +:+ " (" +:+ fmt_len (sg_rules g) +:+ " rules)"]
  | VmOpReply.SecurityGroupDeleted id => ["deleted sg " +:+ id]
  | VmOpReply.SecurityGroupsListed l =>
      (λ g, sg_id g +:+ "  " +:+ sg_name g +:+ "  rules=" +:+ fmt_len (sg_rules g)) <$> l
  | VmOpReply.LoadBalancerCreated lb =>
      ["created lb " +:+ lb_id lb +:+ " vip=" +:+ fmt_ipv4 (lb_vip lb) +:+ ":" +:+ fmt_u (lb_frontend_port lb)]
  | VmOpReply.LoadBalancerDeleted id => ["deleted lb " +:+ id]
  | VmOpReply.LoadBalancersListed l =>
      (λ lb, lb_id lb +:+ "  vip=" +:+ fmt_ipv4 (lb_vip lb) +:+ ":" +:+ fmt_u (lb_frontend_port lb)
               +:+ "  backends=" +:+ fmt_len (lb_backends lb)) <$> l
  end.

(** ** The host a node serves *)
Inductive AnyHost (L : Type) :=
| AMem (h : MemVmHost.t MemVolumeStore.MemInner MemNetworkStore.MemInner)
| ALoopback (h : CelhyperVmHost.t Loopback.t)
| ASerial (h : CelhyperVmHost.t L).
Arguments AMem {L}.
Arguments ALoopback {L}.
Arguments ASerial {L}.

Section any.
Context {L : Type} `{HyperCodec} `{HyperLink L} (hyper_debug : HyperReply.t → string).
Definition any_handle (op : VmOp.t) : st (AnyHost L) string VmOpReply.t := λ h,
  match h with
  | AMem h => let '(r, h) := vh_handle op h in (r, AMem h)
  | ALoopback h => let '(r, h) := CelhyperVmHost.handle hyper_debug op h in (r, ALoopback h)
  | ASerial h => let '(r, h) := CelhyperVmHost.handle hyper_debug op h in (r, ASerial h)
  end.
Definition any_snapshot (owner : NodeId) (h : AnyHost L) : list RemoteVm * AnyHost L :=
  match h with
  | AMem h => let '(r, h) := vh_snapshot owner h in (r, AMem h)
  | ALoopback h => let '(r, h) := CelhyperVmHost.snapshot owner h in (r, ALoopback h)
  | ASerial h => let '(r, h) := CelhyperVmHost.snapshot owner h in (r, ASerial h)
  end.
Definition any_attach (vm_id : N) (atts : list VolumeAttachment) : st (AnyHost L) string unit := λ h,
  match h with
  | AMem h => let '(r, h) := vh_attach_preserved vm_id atts h in (r, AMem h)
  | ALoopback h => let '(r, h) := CelhyperVmHost.attach_preserved vm_id atts h in (r, ALoopback h)
  | ASerial h => let '(r, h) := CelhyperVmHost.attach_preserved vm_id atts h in (r, ASerial h)
  end.
Definition any_host : VmHost (AnyHost L) := {|
  vh_handle := any_handle; vh_snapshot := any_snapshot; vh_attach_preserved := any_attach |}.
End any.

(** ** The commands *)
Definition arrow : string := String (ascii_of_N 226) (String (ascii_of_N 134) (String (ascii_of_N 146) EmptyString)).

(** What a cluster command finds around it: binding a socket and the address
    the socket has, connecting to a kernel bridge, binding the admin listener
    (its address), the clock, the address of the bridge in the environment;
    what the tasks of the node do while the command sleeps (without a limit:
    until Ctrl-C) and while it waits for an answer. *)
Record Surroundings (T L St : Type) := mkSurroundings {
  udp_bind : string → CelResult T;
  local_addr : T → string;
  serial_connect : string → CelResult L;
  admin_bind : string → CelResult string;
  started_at : N;
  env_bridge : option string;
  elapse : option N → St → St;
  meanwhile : N → St → St
}.
Arguments udp_bind {T L St}.
Arguments local_addr {T L St}.
Arguments serial_connect {T L St}.
Arguments admin_bind {T L St}.
Arguments started_at {T L St}.
Arguments env_bridge {T L St}.
Arguments elapse {T L St}.
Arguments meanwhile {T L St}.

Section cluster.
Context {K T L : Type} `{HyperCodec} `{HyperLink L} `{Transport T} `{EnvelopeCodec} `{KnownOrder} `{Ctl.StateJson}.
Context (hyper_debug : HyperReply.t → string) (debug_reply : VmOpReply.t → string).
#[local] Instance this_host : VmHost (AnyHost L) := any_host hyper_debug.
Abbreviation Node := (Mesh.t T (AnyHost L)).
Context (sur : Surroundings T L Node).

(** The files, and the node the process started last. *)
Record World := mkWorld { cl_world : Controller.World K; cl_node : option Node }.
Abbreviation C := (st (Term World) Fault).
Abbreviation M := (st (Term Node) Fault).

(** *** The node *)
Definition mesh_config (args : StartArgs) (advertise : string) : MeshConfig :=
  mkMeshConfig (cluster args) (node_id args) advertise (epoch args) (parse_seeds (seeds args)) 100 750 2500 1000.
Definition build_mesh (args : StartArgs) : CelResult Node :=
  tr ← udp_bind sur (bind args);
  let cfg := mesh_config args (default (local_addr sur tr) (advertise args)) in
  let '(r, m) := Mesh.start cfg tr (started_at sur)
                   (Mesh.mk (inner_new cfg (started_at sur)) tr None ∅ ∅ 0 1 metrics_new true) in
  _ ← r; Ok m.

(** Operations of the node, seen from a command. *)
Definition mesh {A} (m : st Node CelError A) : M A :=
  act (λ n, let '(r, n) := m n in (map_err Fail r, n)).
Definition quietly (m : st Node CelError unit) : M unit := act (λ n, (Ok tt, (m n).2)).
Definition step_up : M (list RestartedVm) := act (λ n,
  let '(r, n) := Mesh.run_supervisor_step n in
  (map_err (λ e, match e with Failed e => Fail e | Panicked => Panic "byte index is not a char boundary" end) r, n)).
Definition sleep (ms : option N) : M unit := act (modify (elapse sur ms)).
Definition settled (args : StartArgs) : M unit := sleep (Some (1000 * N.max (settle args) 1)%N).
Definition shut_down : M unit := quietly Mesh.shutdown.
Definition rpc (a : ClusterRpcArgs) (op : VmOp.t) : M VmOpReply.t :=
  mesh (Mesh.invoke (meanwhile sur (timeout_ms a)) (target a) op).
Definition local_host : AnyHost L := AMem CelhyperVmHost.mem_new.

(** [let mesh = build_mesh(..)?; body]. *)
Definition on_node (args : StartArgs) (body : M unit) : C unit := λ t,
  match build_mesh args with
  | Err e => (Err (Fail e), t)
  | Ok n =>
      let '(r, n) := body (mkTerm n (out t)) in
      (r, mkTerm (mkWorld (cl_world (tm t)) (Some (tm n))) (out n))
  end.
(** The prologue of the commands that serve requests while they run. *)
Definition serving (args : StartArgs) (body : M unit) : C unit :=
  on_node args (_ ← mesh (Mesh.set_host local_host); _ ← settled args; body).
(** [with_transient_mesh]: the node says goodbye whatever the body answers. *)
Definition with_transient_mesh (a : ClusterRpcArgs) (body : M unit) : C unit :=
  serving (common a) (λ t, let '(r, t) := body t in (r, (shut_down t).2)).
Definition load_controller (state_path : string) : C Ctl.t := λ t,
  let '(r, w) := Ctl.load state_path (cl_world (tm t)) in (r, mkTerm (mkWorld w (cl_node (tm t))) (out t)).

(** *** [cluster start] *)
Definition resolved_vm_host (args : StartArgs) : M string :=
  if bool_decide (vm_host args = "auto") then
    match env_bridge sur with
    | Some addr =>
        if str_is_empty addr then
          _ ← say ["celctl: vm-host=auto " +:+ arrow +:+ " mem (CELIUM_BRIDGE_TCP unset)"]; mret "mem"
        else
          _ ← say ["celctl: vm-host=auto " +:+ arrow +:+ " celhyper-serial:" +:+ addr +:+ " (CELIUM_BRIDGE_TCP)"];
          mret ("celhyper-serial:" +:+ addr)
    | None => _ ← say ["celctl: vm-host=auto " +:+ arrow +:+ " mem (CELIUM_BRIDGE_TCP unset)"]; mret "mem"
    end
  else mret (vm_host args).
Definition select_host (name : string) : M (AnyHost L) :=
  if bool_decide (name = "mem") then mret local_host
  else if bool_decide (name = "celhyper") then
    _ ← say ["celctl: vm-host=celhyper (loopback kernel sim)"];
    mret (ALoopback (CelhyperVmHost.new Loopback.new))
  else match strip_prefix "celhyper-serial:" name with
  | Some addr =>
      if str_is_empty addr then mthrow (Fail (Invalid "--vm-host celhyper-serial: requires host:port"))
      else
        _ ← say ["celctl: vm-host=celhyper-serial connecting to " +:+ addr +:+ " (strict)"];
        l ← try (map_err Fail (serial_connect sur addr));
        mret (ASerial (CelhyperVmHost.with_strict true (CelhyperVmHost.new l)))
  | None => mthrow (Fail (Invalid "unknown --vm-host (try mem | celhyper | celhyper-serial:host:port | auto)"))
  end.
Definition seed_op (r : Ctl.VmRecord) : VmOp.t :=
  VmOp.Create (Ctl.label r) Never (Ctl.image_path r) (Ctl.cpu_count r) (Ctl.memory_mib r) (Ctl.boot_blob_crc32c r).
(** [let _ = host.handle(..).await;]. *)
Fixpoint seed_host (rows : list Ctl.VmRecord) : st Node CelError unit :=
  match rows with
  | [] => mret tt
  | r :: rows => _ ← Mesh.discard (Mesh.on_host Io (vh_handle (seed_op r))); seed_host rows
  end.
Definition cluster_start (state_path : string) (args : StartArgs) : C unit :=
  controller ← load_controller state_path;
  on_node args
    (name ← resolved_vm_host args;
     h ← select_host name;
     _ ← mesh (Mesh.set_host h);
     _ ← mesh (seed_host (Ctl.list_vms controller));
     _ ← mesh Mesh.republish_after_op;
     _ ← say ["celctl: node " +:+ node_id args +:+ " listening on " +:+ bind args +:+ " (seeds="
                +:+ debug_list (parse_seeds (seeds args)) +:+ ")"];
     _ ← (if str_is_empty (admin_addr args) then mret tt
          else addr ← try (map_err Fail (admin_bind sur (admin_addr args)));
               say ["celctl: admin server on http://" +:+ addr +:+ "/  (/metrics /healthz /readyz)"]);
     _ ← sleep (if (duration args =? 0)%N then None else Some (1000 * duration args)%N);
     shut_down).

(** *** Snapshots *)
Definition cluster_snapshot_members (args : StartArgs) : C unit :=
  on_node args
    (_ ← settled args;
     t ← get_st;
     _ ← say (members_header :: (member_row <$> Mesh.members (tm t)));
     shut_down).
Definition cluster_snapshot_vms (state_path : string) (args : StartArgs) : C unit :=
  controller ← load_controller state_path;
  on_node args
    (_ ← mesh (Mesh.publish_local_vms (Ctl.snapshot controller (node_id args)));
     _ ← settled args;
     vms ← mesh Mesh.list_vms;
     _ ← say (vms_header :: (vms_row <$> vms));
     shut_down).
Definition cluster_status (args : StartArgs) : C unit :=
  serving args
    (t ← get_st;
     _ ← say (status_lines (Mesh.cluster_status (tm t)) (is_supervisor (Mesh.inner (tm t))));
     shut_down).
Definition cluster_metrics (args : StartArgs) : C unit :=
  on_node args
    (_ ← settled args;
     t ← get_st;
     _ ← say [render_prometheus (Mesh.metrics (tm t))];
     shut_down).
Definition cluster_recover (args : StartArgs) : C unit :=
  serving args
    (restarted ← step_up;
     t ← get_st;
     _ ← say (recovered_lines (node_id args) (is_supervisor (Mesh.inner (tm t))) restarted);
     shut_down).

(** *** One operation *)
Definition cluster_invoke (a : InvokeArgs) : C unit :=
  serving (common (i_rpc a))
    (op ← try (map_err Fail (invoke_op a));
     reply ← rpc (i_rpc a) op;
     _ ← say (invoke_lines (target (i_rpc a)) reply);
     shut_down).
Definition cluster_invoke_path (a : ClusterRpcArgs) (p op : string) : C unit :=
  serving (common a)
    (op ← try (map_err Fail (path_op op));
     reply ← mesh (Mesh.invoke_path (meanwhile sur (timeout_ms a)) p op);
     _ ← say [match reply with
              | VmOpReply.State vm_id state => p +:+ " state=" +:+ state +:+ " (vm_id=" +:+ fmt_u vm_id +:+ ")"
              | VmOpReply.Deleted vm_id => p +:+ " deleted (vm_id=" +:+ fmt_u vm_id +:+ ")"
              | other => debug_reply other
              end];
     shut_down).
(** The dedicated commands print nothing for a reply of another kind. *)
Definition one_shot (a : ClusterRpcArgs) (op : VmOp.t) (lines : VmOpReply.t → list string) : C unit :=
  with_transient_mesh a (reply ← rpc a op; say (lines reply)).
Definition simple_vm_op (a : ClusterRpcArgs) (op : VmOp.t) : C unit :=
  one_shot a op (λ reply, [match reply with
    | VmOpReply.State vm_id state => "vm " +:+ target a +:+ "/" +:+ fmt_u vm_id +:+ " state=" +:+ state
    | VmOpReply.Deleted vm_id => "deleted vm " +:+ target a +:+ "/" +:+ fmt_u vm_id
    | other => debug_reply other
    end]).
Definition attached_line (a : ClusterRpcArgs) (vm_id : N) (volumes : list VolumeAttachment) : string :=
  "vm " +:+ target a +:+ "/" +:+ fmt_u vm_id +:+ " now has " +:+ fmt_len volumes +:+ " attachment(s)".

Definition cluster_vm_cmd (op : ClusterVmCmd) : C unit :=
  match op with
  | CvCreate a label restart image_path cpu_count memory_mib boot_blob_crc32c =>
      policy ← try (map_err Fail (parse_restart restart));
      one_shot a (VmOp.Create label policy image_path cpu_count memory_mib boot_blob_crc32c) (λ reply,
        match reply with
        | VmOpReply.Created vm_id =>
            ["created vm " +:+ target a +:+ "/" +:+ fmt_u vm_id +:+ " (path /cluster/" +:+ target a +:+ "/vms/"
               +:+ fmt_u vm_id +:+ ")"]
        | _ => []
        end)
  | CvList a => one_shot a VmOp.List (λ reply, match reply with VmOpReply.Listed rows => listed_lines rows | _ => [] end)
  | CvStart a vm_id => simple_vm_op a (VmOp.Start vm_id)
  | CvStop a vm_id => simple_vm_op a (VmOp.Stop vm_id)
  | CvDelete a vm_id => simple_vm_op a (VmOp.Delete vm_id)
  | CvAttachVolume a vm_id volume_id mount_name =>
      one_shot a (VmOp.AttachVolume vm_id volume_id mount_name) (λ reply,
        match reply with
        | VmOpReply.Attachments vm_id volumes => attached_line a vm_id volumes :: attachment_lines volumes
        | _ => []
        end)
  | CvDetachVolume a vm_id volume_id =>
      one_shot a (VmOp.DetachVolume vm_id volume_id) (λ reply,
        match reply with VmOpReply.Attachments vm_id volumes => [attached_line a vm_id volumes] | _ => [] end)
  end.

(** The bytes of [cluster vol write]. *)
Definition write_payload (text bytes_hex : string) : CelResult bytes :=
  if negb (str_is_empty bytes_hex) then decode_hex bytes_hex else Ok (as_bytes text).
Definition cluster_vol_cmd (op : ClusterVolCmd) : C unit :=
  match op with
  | CvolCreate a name size =>
      one_shot a (VmOp.CreateVolume name size) (λ reply,
        match reply with
        | VmOpReply.VolumeCreated v =>
            ["created volume " +:+ vol_id v +:+ " (size=" +:+ fmt_u (vol_size v) +:+ " owner=" +:+ vol_owner v
               +:+ " name=" +:+ vol_name v +:+ ")"]
        | _ => []
        end)
  | CvolList a =>
      one_shot a VmOp.ListVolumes (λ reply,
        match reply with VmOpReply.VolumesListed vols => volumes_lines right_pad vols | _ => [] end)
  | CvolDelete a id =>
      one_shot a (VmOp.DeleteVolume id) (λ reply,
        match reply with VmOpReply.VolumeDeleted id => ["deleted " +:+ id] | _ => [] end)
  | CvolRead a id offset length =>
      one_shot a (VmOp.ReadVolume id offset length) (λ reply,
        match reply with
        | VmOpReply.VolumeData id bs =>
            [id +:+ " @ " +:+ fmt_u offset +:+ " (" +:+ fmt_len bs +:+ " bytes): " +:+ render_bytes bs]
        | _ => []
        end)
  | CvolWrite a id offset text bytes_hex =>
      bs ← try (map_err Fail (write_payload text bytes_hex));
      one_shot a (VmOp.WriteVolume id offset bs) (λ reply,
        match reply with
        | VmOpReply.VolumeWritten id n => ["wrote " +:+ fmt_u n +:+ " bytes to " +:+ id +:+ " @ " +:+ fmt_u offset]
        | _ => []
        end)
  | CvolSnapshot a id name =>
      one_shot a (VmOp.CreateSnapshot id name) (λ reply,
        match reply with
        | VmOpReply.SnapshotCreated s =>
            ["created snapshot " +:+ snap_id s +:+ " of " +:+ snap_volume s +:+ " (" +:+ fmt_u (snap_size s) +:+ " bytes)"]
        | _ => []
        end)
  | CvolSnapshots a id =>
      one_shot a (VmOp.ListSnapshots (volume_filter id)) (λ reply,
        match reply with VmOpReply.SnapshotsListed snaps => snapshots_lines right_pad snaps | _ => [] end)
  | CvolRestore a id =>
      one_shot a (VmOp.RestoreSnapshot id) (λ reply,
        match reply with VmOpReply.SnapshotRestored id => ["restored " +:+ id] | _ => [] end)
  | CvolDeleteSnapshot a id =>
      one_shot a (VmOp.DeleteSnapshot id) (λ reply,
        match reply with VmOpReply.SnapshotDeleted id => ["deleted " +:+ id] | _ => [] end)
  end.

Definition run_cluster_cmd (state_path : string) (op : ClusterCmd) : C unit :=
  match op with
  | Start args => cluster_start state_path args
  | Members args => cluster_snapshot_members args
  | Vms args => cluster_snapshot_vms state_path args
  | Invoke a => cluster_invoke a
  | InvokePath a p op => cluster_invoke_path a p op
  | Recover args => cluster_recover args
  | Status args => cluster_status args
  | Metrics args => cluster_metrics args
  | CVm op => cluster_vm_cmd op
  | CVol op => cluster_vol_cmd op
  end.
End cluster.
