(* ===== verification/ClusterProofs.v ===== *)
(** * ClusterProofs: what the cluster commands do

    The hex payload of [vol write], the departure of the node of a one-shot
    command, and what a node that starts with a local table serves. *)
From S2P Require Import Prelude.
From S2P Require Import Text.
From S2P Require Import Errors.
From S2P Require Import Maps.
From S2P Require Import Vault.
From S2P Require Import VaultProofs.
From S2P Require Import Files.
From S2P Require Import DiskFile.
From S2P Require Import Network.
From S2P Require Import NetworkProofs.
From S2P Require Import Federation.
From S2P Require Import Membership.
From S2P Require Import Proto.
From S2P Require Import Host.
From S2P Require Import Hyper.
From S2P Require Import HyperProofs.
From S2P Require Import Mesh.
From S2P Require Import MeshProofs.
From S2P Require Import RemoteCall.
From S2P Require Import Console.
From S2P Require Import Controller.
From S2P Require Import ControllerProofs.
From S2P Require Import Celctl.
From S2P Require Import Cluster.
From Stdlib Require Import Strings.Byte.

(** ** Hex payloads *)
Definition hex_byte (c : ascii) (n : N) : Prop := (n < 16)%N ∧ to_ascii_lower c = hex_digit n.
Definition nibbles : list N := [0; 1; 2; 3; 4; 5; 6; 7; 8; 9; 10; 11; 12; 13; 14; 15]%N.
Lemma in_nibbles n : (n < 16)%N → In n nibbles.
Proof. intros Hn. unfold nibbles. simpl. lia. Qed.
(** A check over all characters and nibbles decides both directions. *)
Definition nib_table (c : ascii) : bool :=
  forallb (λ n, Bool.eqb (match hex_nib (byte_of_ascii c) with Ok m => (m =? n)%N | Err _ => false end)
    (Ascii.eqb (to_ascii_lower c) (hex_digit n)))
    nibbles.
Lemma nib_table_true c : nib_table c = true.
Proof. destruct c as [[] [] [] [] [] [] [] []]; vm_compute; reflexivity. Qed.
Lemma hex_nib_small b n : hex_nib b = Ok n → (n < 16)%N.
Proof.
  unfold hex_nib. set (x := Byte.to_N b).
  destruct (N.leb_spec 48 x), (N.leb_spec x 57); simpl; try (intros [= <-]; lia);
  destruct (N.leb_spec 97 x), (N.leb_spec x 102); simpl; try (intros [= <-]; lia);
  destruct (N.leb_spec 65 x), (N.leb_spec x 70); simpl; try (intros [= <-]; lia); done.
Qed.
Lemma hex_nib_iff c n : hex_nib (byte_of_ascii c) = Ok n ↔ hex_byte c n.
Proof.
  pose proof (proj1 (forallb_forall _ _) (nib_table_true c) n) as Ht.
  split; [intros Hn|intros [Hn Hc]].
  - specialize (Ht (in_nibbles _ (hex_nib_small _ _ Hn))). rewrite Hn, N.eqb_refl in Ht.
    split; [by apply hex_nib_small in Hn|]. by apply Ascii.eqb_eq, eq_sym, eqb_prop.
  - specialize (Ht (in_nibbles _ Hn)). rewrite Hc, Ascii.eqb_refl in Ht. apply eqb_prop in Ht.
    destruct (hex_nib (byte_of_ascii c)) as [m|]; [|done]. by apply N.eqb_eq in Ht as ->.
Qed.
Definition byte_table : bool :=
  forallb (λ h, forallb (λ l, let b := Byte.to_N (u8 (N.lor (N.shiftl h 4) l)) in
    (N.shiftr b 4 =? h)%N && (N.land b 0x0F =? l)%N) nibbles) nibbles.
Lemma nibbles_byte h l : (h < 16)%N → (l < 16)%N →
  N.shiftr (Byte.to_N (u8 (N.lor (N.shiftl h 4) l))) 4 = h ∧ N.land (Byte.to_N (u8 (N.lor (N.shiftl h 4) l))) 0x0F = l.
Proof.
  intros Hh%in_nibbles Hl%in_nibbles. assert (byte_table = true) as Ht by (by vm_compute).
  pose proof (proj1 (forallb_forall _ _) (proj1 (forallb_forall _ _) Ht h Hh) l Hl) as Hhl.
  by apply andb_true_iff in Hhl as [?%N.eqb_eq ?%N.eqb_eq].
Qed.
Lemma hex_loop_iff k : ∀ s bs, String.length s = 2 * k →
  hex_loop (as_bytes s) = Ok bs ↔ str_map to_ascii_lower s = hex_encode bs.
Proof.
  induction k as [|k IH]; intros s bs Hs.
  - destruct s; [|done]. simpl. split; [by intros [= <-]|]. by destruct bs.
  - destruct s as [|a [|b s]]; [done|simpl in Hs; lia|]. simpl in Hs.
    rewrite !as_bytes_cons. cbn [hex_loop str_map]. split.
    + intros Hl. destruct (hex_nib (byte_of_ascii a)) as [h|] eqn:Ha; [|done].
      destruct (hex_nib (byte_of_ascii b)) as [l|] eqn:Hb; [|done]. cbn in Hl.
      destruct (hex_loop (as_bytes s)) as [out|] eqn:Ho; [|done]. cbn in Hl. injection Hl as <-.
      apply hex_nib_iff in Ha as [Hh ->], Hb as [Hl' ->]. destruct (nibbles_byte h l Hh Hl') as [Eh El].
      cbn [hex_encode]. rewrite Eh, El. by rewrite (proj1 (IH s out ltac:(lia)) Ho).
    + destruct bs as [|c out]; [done|]. cbn [hex_encode]. intros [= Ha Hb Hout].
      assert (hex_nib (byte_of_ascii a) = Ok (N.shiftr (Byte.to_N c) 4)) as ->
        by (apply hex_nib_iff; split; [by destruct c|done]).
      assert (hex_nib (byte_of_ascii b) = Ok (N.land (Byte.to_N c) 0x0F)) as ->
        by (apply hex_nib_iff; split; [by destruct c|done]).
      cbn. rewrite (proj2 (IH s out ltac:(lia)) Hout). cbn. do 2 f_equal. by destruct (hex_digits_byte c) as (_&_&?).
Qed.

Lemma str_map_length f s : String.length (str_map f s) = String.length s.
Proof. induction s as [|c s IH]; simpl; congruence. Qed.
Lemma hex_encode_lower bs : str_map to_ascii_lower (hex_encode bs) = hex_encode bs.
Proof.
  induction bs as [|c bs IH]; [done|]. cbn [hex_encode str_map]. rewrite IH.
  assert (to_ascii_lower (hex_digit (N.shiftr (Byte.to_N c) 4)) = hex_digit (N.shiftr (Byte.to_N c) 4) ∧
    to_ascii_lower (hex_digit (N.land (Byte.to_N c) 0x0F)) = hex_digit (N.land (Byte.to_N c) 0x0F)) as [-> ->]
    by (by destruct c).
  done.
Qed.

(** The hex payload of [cluster vol write] is read exactly, and what
    [vol read] prints for bytes that are no text can be written back.  A text
    is accepted as [bs] precisely when it is the lower-case hex of [bs] up to
    the case of its letters (so an odd length or any other character is
    refused); bytes that are not all printable are printed in that form. *)
Theorem hex_payload_exact text s bs :
  (decode_hex s = Ok bs ↔ str_map to_ascii_lower s = hex_encode bs) ∧
  (forallb printable bs = false → write_payload text (render_bytes bs) = Ok bs).
Proof.
  assert (∀ s, decode_hex s = Ok bs ↔ str_map to_ascii_lower s = hex_encode bs) as Hhex.
  { clear s. intros s. unfold decode_hex. destruct (N.eqb_spec (len s mod 2) 0) as [He|Ho]; simpl.
    - apply N.Div0.div_exact in He. apply (hex_loop_iff (N.to_nat (len s / 2))). unfold len in *. lia.
    - split; [done|]. intros Hm. exfalso. apply Ho. apply (f_equal len) in Hm. rewrite hex_encode_len in Hm.
      unfold len in *. rewrite str_map_length in Hm. rewrite Hm, N.mul_comm. by apply N.Div0.mod_mul. }
  split; [apply Hhex|]. intros Hp. unfold render_bytes, write_payload. rewrite Hp.
  destruct bs as [|c bs]; [done|].
  change (negb (str_is_empty (hex_encode (c :: bs)))) with true. apply Hhex, hex_encode_lower.
Qed.

(** ** Leaving the cluster *)
Section depart.
Context {K T L : Type} `{HyperCodec} `{HyperLink L} `{TransportLaws T} `{EnvelopeCodec} `{KnownOrder} `{Ctl.StateJson}.
Context (hyper_debug : HyperReply.t → string) (debug_reply : VmOpReply.t → string).
#[local] Instance depart_host : VmHost (AnyHost L) := any_host hyper_debug.
Abbreviation Node := (Mesh.t T (AnyHost L)).
Context (sur : Surroundings T L Node).
Implicit Types (n : Node).

Definition goodbye n : Envelope := envelope (tick_hlc (Mesh.inner n)) Payload.Goodbye.
(** The members a node says goodbye to. *)
Definition others n : list NodeInfo :=
  retain (λ r, negb (bool_decide (ni_id r = mem_self (in_membership (Mesh.inner n))))) (Mesh.members n).

Lemma transmit_one bs a n : ∃ n', Mesh.discard (Mesh.transmit a bs) n = (Ok tt, n') ∧
  Mesh.inner n' = Mesh.inner n ∧ (∀ p, tr_reach (Mesh.transport n') p = tr_reach (Mesh.transport n) p) ∧
  ∀ p, tr_queue (Mesh.transport n') p =
    if tr_reach (Mesh.transport n) a && bool_decide (p = a) then tr_queue (Mesh.transport n) p ++ [bs]
    else tr_queue (Mesh.transport n) p.
Proof.
  destruct (tr_send_spec a bs (Mesh.transport n)) as (_&Hr&Hq). eexists. split; [done|].
  unfold Mesh.transmit, zoom. destruct (tr_send a bs (Mesh.transport n)) as [r c]. by split_and!.
Qed.
Lemma transmit_all bs l : ∀ n, ∃ n',
  Mesh.for_each (λ p, Mesh.discard (Mesh.transmit p bs)) l n = (Ok tt, n') ∧
  Mesh.inner n' = Mesh.inner n ∧ (∀ p, tr_reach (Mesh.transport n') p = tr_reach (Mesh.transport n) p) ∧
  ∀ p, tr_reach (Mesh.transport n) p = true →
    p ∈ l ∨ last (tr_queue (Mesh.transport n) p) = Some bs → last (tr_queue (Mesh.transport n') p) = Some bs.
Proof.
  induction l as [|a l IH]; intros n; cbn [Mesh.for_each].
  - exists n. split_and!; [done..|]. by intros p _ [?%not_elem_of_nil|].
  - destruct (transmit_one bs a n) as (n1&E1&Hi&Hr&Hq). destruct (IH n1) as (n2&E2&Hi2&Hr2&Hq2).
    exists n2. unfold mbind, st_bind. rewrite E1. split_and!; [done|congruence|intros p; by rewrite Hr2|].
    intros p Hp Hin. apply Hq2; [by rewrite Hr|]. destruct Hin as [[->|Hin]%elem_of_cons|Hlast].
    + right. rewrite Hq, Hp, bool_decide_eq_true_2 by done. simpl. by rewrite last_snoc.
    + by left.
    + right. rewrite Hq. destruct (_ && _); [by rewrite last_snoc|done].
Qed.

(** [n'] has left: its tasks have stopped and the last frame every other
    member it can reach was sent is its goodbye. *)
Definition departed n' : Prop :=
  Mesh.running n' = false ∧ ∃ bs i, decode env_from_slice bs = Ok (envelope i Payload.Goodbye) ∧
    in_config i = in_config (Mesh.inner n') ∧
    ∀ r, r ∈ others n' → tr_reach (Mesh.transport n') (ni_addr r) = true →
      last (tr_queue (Mesh.transport n') (ni_addr r)) = Some bs.

Lemma shutdown_departs n : carried (goodbye n) → departed (Mesh.shutdown n).2.
Proof.
  intros (bs&He&Hd)%decode_carried.
  unfold Mesh.shutdown, Mesh.locked, Mesh.encode, envelope_section, get_st, try, mbind, st_bind. rewrite He. cbn.
  set (n0 := Mesh.set_inner _ n). set (l := ni_addr <$> _).
  destruct (transmit_all bs l n0) as (n1&E1&Hi&Hr&Hq). rewrite E1. cbn.
  split; [done|]. exists bs, (tick_hlc (Mesh.inner n)). split_and!; [done|simpl; by rewrite Hi|].
  intros r Hin Hre. apply Hq; [by rewrite <-Hr|]. left. unfold others, Mesh.members in Hin. simpl in Hin.
  rewrite Hi in Hin. simpl in Hin. by apply list_elem_of_fmap_2.
Qed.

(** ** The node of a command

    What happens while a command sleeps or waits is made of the sections of
    the node, as every operation is. *)
Hypothesis elapse_sections : ∀ ms n, rtc section_step (Mesh.inner n) (Mesh.inner (elapse sur ms n)).
Hypothesis meanwhile_sections : ∀ ms n, rtc section_step (Mesh.inner n) (Mesh.inner (meanwhile sur ms n)).

(** The node is one started with [args], and stays one. *)
Definition started_with (args : StartArgs) n : Prop :=
  ∃ adv, node_inv (mesh_config args adv) (Mesh.inner n).
Lemma started_step args n n' :
  started_with args n → rtc section_step (Mesh.inner n) (Mesh.inner n') → started_with args n'.
Proof. intros [adv Hn] Hs. exists adv. by apply (sections_inv _ _ _ Hs). Qed.
Lemma build_started args n : build_mesh sur args = Ok n → started_with args n.
Proof.
  unfold build_mesh. destruct (udp_bind sur (bind args)) as [tr|]; [|done]. cbn.
  set (cfg := mesh_config args _). set (n0 := Mesh.mk _ _ _ _ _ _ _ _ _).
  assert (rtc section_step (Mesh.inner n0) (Mesh.inner (Mesh.start cfg tr (started_at sur) n0).2)) as Hs.
  { unfold Mesh.start. change (rtc section_step (Mesh.inner n0)
      (Mesh.inner (Mesh.for_each (λ s, Mesh.discard (Mesh.send_hello s)) (mc_seeds cfg) n0).2)).
    apply (within_for_each section_step). unfold Mesh.send_hello. sectioned. }
  destruct (Mesh.start cfg tr (started_at sur) n0) as [[[]|e] n1]; [|done]. intros [= <-].
  exists (default (local_addr sur tr) (advertise args)). by apply (sections_inv _ _ _ Hs), node_inv_new.
Qed.

(** A part of a command that works on the node. *)
Definition works {A} (m : st (Term Node) Fault A) : Prop :=
  ∀ t, rtc section_step (Mesh.inner (tm t)) (Mesh.inner (tm (m t).2)).
Lemma works_bind {A B} (m : st (Term Node) Fault A) (k : A → st (Term Node) Fault B) :
  works m → (∀ a, works (k a)) → works (mbind k m).
Proof.
  intros Hm Hk t. specialize (Hm t). unfold mbind, st_bind. destruct (m t) as [[a|e] t1]; simpl in *; [|done].
  etransitivity; [exact Hm|apply Hk].
Qed.
Lemma works_say l : works (say l).
Proof. by intros t. Qed.
Lemma works_mesh {A} (m : st Node CelError A) : within section_step m → works (mesh m).
Proof. intros Hm t. unfold mesh, act, zoom. specialize (Hm (tm t)). by destruct (m (tm t)). Qed.
Lemma works_settled args : works (settled sur args).
Proof. intros t. apply elapse_sections. Qed.
Lemma works_rpc a op : works (rpc hyper_debug sur a op).
Proof.
  apply works_mesh. unfold Mesh.invoke. intros n. unfold get_st. unfold mbind at 1, st_bind at 1. cbv beta iota zeta.
  case_bool_decide as Hself; clear Hself; revert n.
  - change (within section_step (Mesh.invoke_local (T:=T) op)).
    unfold Mesh.invoke_local. sectioned.
  - match goal with |- ∀ n, rtc _ _ (Mesh.inner (?m n).2) => change (within section_step m) end.
    apply within_bind; [sectioned|]. intros [id ch].
    apply within_bind; [intros n'; apply meanwhile_sections|]. intros ?. sectioned.
Qed.

(** The commands of the [vm] and [vol] trees, with the arguments they start
    their node with. *)
Definition tree_args (op : ClusterCmd) : option StartArgs :=
  match op with
  | CVm (CvCreate a _ _ _ _ _ _ | CvList a | CvStart a _ | CvStop a _ | CvDelete a _ | CvAttachVolume a _ _ _
        | CvDetachVolume a _ _)
  | CVol (CvolCreate a _ _ | CvolList a | CvolDelete a _ | CvolRead a _ _ _ | CvolWrite a _ _ _ _
         | CvolSnapshot a _ _ | CvolSnapshots a _ | CvolRestore a _ | CvolDeleteSnapshot a _) => Some (common a)
  | _ => None
  end.

(** A command either did not start a node, and then it printed nothing, or it
    ended with the shutdown of the node it had started. *)
Definition node_closed (args : StartArgs) (t : Term (World (K:=K) (T:=T) (L:=L))) (m : st (Term World) Fault unit) : Prop :=
  let '(r, t') := m t in
  (∃ e, r = Err (Fail e) ∧ t' = t) ∨
  (∃ n, started_with args n ∧ cl_node (tm t') = Some (Mesh.shutdown n).2).

Lemma one_shot_closed a op lines t :
  node_closed (common a) t (one_shot hyper_debug sur a op lines).
Proof.
  unfold node_closed, one_shot, with_transient_mesh, serving, on_node.
  destruct (build_mesh sur (common a)) as [n|e] eqn:Hb; [|left; by exists e].
  apply build_started in Hb.
  set (n1 := elapse sur (Some (1000 * N.max (settle (common a)) 1)%N) (Mesh.set_host (T:=T) local_host n).2).
  set (t2 := mkTerm n1 (out t)).
  set (body := mbind _ (rpc _ _ _ _)).
  assert (works body) as Hw by (apply works_bind; [apply works_rpc|intros reply; apply works_say]).
  match goal with |- context [mbind ?k (mesh _) ?x] =>
    change (mbind k _ x) with (let '(r, u) := body t2 in (r, (shut_down u).2)) end.
  specialize (Hw t2). destruct (body t2) as [r t3]. simpl in Hw. right.
  exists (tm t3). split; [|done]. apply (started_step _ _ _ Hb).
  transitivity (Mesh.inner n1); [|exact Hw].
  transitivity (Mesh.inner (Mesh.set_host (T:=T) local_host n).2); [|apply elapse_sections].
  assert (within section_step (Mesh.set_host (T:=T) local_host : st Node CelError unit)) as Hset
    by (unfold Mesh.set_host; sectioned).
  apply Hset.
Qed.
Lemma checked_closed {A} args (x : CelResult A) (k : A → st (Term World) Fault unit) t :
  (∀ a, node_closed args t (k a)) → node_closed args t (a ← try (map_err Fail x); k a).
Proof.
  intros Hk. unfold node_closed, try, mbind, st_bind. destruct x as [a|e]; [apply Hk|]. left. by exists e.
Qed.
Lemma tree_closed path op args t :
  tree_args op = Some args → node_closed args t (run_cluster_cmd hyper_debug debug_reply sur path op).
Proof.
  destruct op as [| | | | | | | |[]|[]]; intros [= <-]; cbn [run_cluster_cmd cluster_vm_cmd cluster_vol_cmd];
    unfold simple_vm_op; try apply checked_closed; intros; apply one_shot_closed.
Qed.

(** C26: the commands of the [vm] and [vol] trees leave the cluster behind them
    tidy, whatever their operation answers (a result, an error of the remote
    host, an unknown target, a timeout).  Such a command either fails before it
    starts a node, and then it has done and printed nothing, or the node it
    started ends shut down, still the node of its arguments, and the last frame
    it sent to every other member it can reach is its goodbye, which the
    receiver decodes.  What the node does while the command sleeps or waits may
    be anything its sections do. *)
Theorem tree_commands_depart path op args (t : Term (World (K:=K) (T:=T) (L:=L))) :
  tree_args op = Some args →
  (∀ c i, node_inv c i → mc_node_id c = node_id args → mc_cluster c = cluster args →
    carried (envelope i Payload.Goodbye)) →
  let '(r, t') := run_cluster_cmd hyper_debug debug_reply sur path op t in
  (∃ e, r = Err (Fail e) ∧ t' = t) ∨
  (∃ n, cl_node (tm t') = Some n ∧ started_with args n ∧ departed n).
Proof.
  intros Hop Hc. pose proof (tree_closed path op args t Hop) as Ht. unfold node_closed in Ht.
  destruct (run_cluster_cmd _ _ _ _ _ _) as [r t']. destruct Ht as [?|(n&Hn&Hcl)]; [by left|right].
  exists (Mesh.shutdown n).2. split; [done|]. split.
  - apply (started_step _ _ _ Hn).
    assert (within section_step (Mesh.shutdown : st Node CelError unit)) as Hs
      by (unfold Mesh.shutdown, Mesh.encode; sectioned).
    apply Hs.
  - apply shutdown_departs. destruct Hn as [adv Hn]. by apply (Hc _ _ (node_inv_tick _ _ Hn)).
Qed.
End depart.

(** ** Witnesses *)
Lemma hex_payload_exact_witness :
  decode_hex "00Ff10" = Ok [x00; xff; x10] ∧ render_bytes [x00; xff; x10] = "00ff10" ∧
  write_payload "" (render_bytes [x00; xff; x10]) = Ok [x00; xff; x10].
Proof.
  destruct (hex_payload_exact "" "00Ff10" [x00; xff; x10]) as [Hd Hw].
  split; [apply Hd; by vm_compute|]. split; [by vm_compute|apply Hw; by vm_compute].
Defined.

Module ClusterWitness.
Import CallWitness.
Definition bye (hlc : N) : Envelope := mkEnvelope MAGIC PROTO_VERSION "cli" "celium" hlc Payload.Goodbye.
(** A codec for the goodbyes of one node. *)
#[export] Instance codec : EnvelopeCodec := {|
  env_to_vec e := match env_payload e with
                  | Payload.Goodbye => Ok (x02 :: pos_bytes (N.succ_pos (env_hlc e)))
                  | _ => Err tt
                  end;
  env_from_slice bs := match bs with x02 :: bs => Some (bye (Pos.pred_N (bytes_pos bs))) | _ => None end
|}.
Definition args : StartArgs := mkStartArgs "cli" "mem://cli" None "celium" "mem://n1, " 1 0 1 "" "auto".
Abbreviation St := (Mesh.t MemTransport.t (AnyHost Loopback.t)).
(** While the command sleeps, a peer says hello. *)
Definition sur : Surroundings MemTransport.t Loopback.t St :=
  mkSurroundings _ _ _ (λ a, Ok (MemTransport.mk a (<["mem://cli" := []]> routes))) MemTransport.addr
    (λ _, Ok Loopback.new) (λ a, Ok a) 0 None
    (λ _ n, Mesh.set_inner (hello_section (row "n1" "mem://n1") (Mesh.inner n)) n) (λ _ n, n).
Definition run (op : ClusterCmd) := run_cluster_cmd (K:=unit) (H:=HyperWitness.codec) (H2:=codec) (H4:=CtlWitness.json) (λ _, EmptyString) (λ _, EmptyString) sur "state" op
  (mkTerm (mkWorld (Controller.mkWorld (mkFs ∅ []) [] tt) None) []).
End ClusterWitness.

#[local] Existing Instances ClusterWitness.codec CallWitness.order CtlWitness.json.

Lemma tree_commands_depart_witness :
  let '(r, t') := ClusterWitness.run (CVm (CvList (mkRpcArgs ClusterWitness.args "n9" 5000))) in
  r = Err (Fail (Invalid "unknown target node")) ∧
  ∃ n, cl_node (tm t') = Some n ∧ departed n ∧ map ni_id (others n) = ["n1"].
Proof.
  set (op := CVm _).
  assert (∀ c i, node_inv c i → mc_node_id c = "cli" → mc_cluster c = "celium" →
    carried (envelope i Payload.Goodbye)) as Hc.
  { intros c i Hi Hid Hcl. exists (x02 :: CallWitness.pos_bytes (N.succ_pos (in_hlc i))). split_and!; [done| |].
    - unfold env_from_slice, ClusterWitness.codec. rewrite CallWitness.bytes_pos_bytes, N.pos_pred_succ.
      unfold envelope, in_self. by rewrite (node_config _ _ Hi), Hid, Hcl.
    - apply CallWitness.frame_fits, (node_clock _ _ Hi). }
  pose proof (tree_commands_depart (K:=unit) (λ _, EmptyString) (λ _, EmptyString) ClusterWitness.sur
    (λ ms n, rtc_once _ _ (sec_hello (Mesh.inner n) (CallWitness.row "n1" "mem://n1")))
    (λ ms n, rtc_refl _ _) "state" op ClusterWitness.args
    (mkTerm (mkWorld (Controller.mkWorld (mkFs ∅ []) [] tt) None) []) eq_refl Hc) as Hd.
  fold (ClusterWitness.run op) in Hd.
  assert ((ClusterWitness.run op).1 = Err (Fail (Invalid "unknown target node"))) as Hr by (by vm_compute).
  assert ((λ n, map ni_id (others n)) <$> cl_node (tm (ClusterWitness.run op).2) = Some ["n1"]) as Ho by (by vm_compute).
  destruct (ClusterWitness.run op) as [r t']. simpl in Hr, Ho. split; [exact Hr|].
  destruct Hd as [(e&_&Ht)|(n&Hn&_&Hdep)]; [exfalso; rewrite Ht in Ho; discriminate Ho|].
  exists n. split; [exact Hn|]. split; [exact Hdep|]. rewrite Hn in Ho. by injection Ho.
Defined.

(** [cluster invoke] returns before its shutdown when the operation fails: its
    peers are never told. *)
Example failed_invoke_leaves_silently :
  let rpc := mkRpcArgs ClusterWitness.args "n9" 5000 in
  let '(r, t') := ClusterWitness.run (Invoke (mkInvokeArgs rpc "list" "" 0 "never" "" 0 "")) in
  r = Err (Fail (Invalid "unknown target node")) ∧
  (λ n, (Mesh.running n, tr_queue (Mesh.transport n) "mem://n1")) <$> cl_node (tm t') = Some (true, []).
Proof. by vm_compute. Qed.

(** A node started on a table serves its VMs as new ones: what halted is listed
    as created, without its exit code. *)
Example seeding_forgets_states :
  let record := Ctl.mkVmRecord 0 Ctl.Halted (Some 12%N) "db" None None None None None in
  let table := Ctl.mkState 1 [Some record; None; None; None] in
  let n := Mesh.mk (inner_new (RemoteCall.CallWitness.config "n1" "mem://n1" "mem://n2") 0)
             (MemTransport.mk "mem://n1" ∅) (Some (AMem CelhyperVmHost.mem_new : AnyHost Loopback.t)) ∅ ∅ 0 1 metrics_new true in
  let c := Ctl.mk table None None false in
  let rows := (Mesh.host_snapshot (H1:=any_host (L:=Loopback.t) (λ _, EmptyString))
                 (seed_host (T:=MemTransport.t) (L:=Loopback.t) (λ _, EmptyString) (Ctl.list_vms c) n).2).1 in
  match rows with Ok l => map (λ v, (rv_state v, rv_last_exit v)) l | Err _ => [] end = [("created", None)] ∧
  map (λ v, (rv_state v, rv_last_exit v)) (Ctl.snapshot c "n1") = [("halted", Some 12%N)].
Proof. by vm_compute. Qed.
